(* ===== verification/_CoqProject ===== *)
-Q . S2P
Prelude.v
NetDest.v
IntMath.v
Flit.v
VirtualChannels.v
Routing.v
Clocking.v
Links.v
Pipeline.v
FlowControl.v
CreditProtocol.v
Allocation.v
Topology.v
ShortestPath.v
TopologyFacts.v
Bridge.v
Serdes.v
MessageBuffer.v
Statistics.v
NetworkInterface.v
InterfaceFacts.v
InterfaceFlow.v
InterfaceExample.v
Trace.v
GarnetNetwork.v
TraceReplay.v
Network.v
EventQueue.v
EventOrder.v
EventRefinement.v
Construction.v
Wiring.v
BuiltNetwork.v
RoutingTables.v
Delivery.v
Wormhole.v
WormholeRouter.v
PacketIntegrity.v
ClosedNetwork.v
WormholeInterface.v
ClosedIntegrity.v
ClosedCredit.v
NetworkAccess.v
SimpleSwitch.v
SimpleNetwork.v
Destinations.v
SimpleRouting.v
SimpleFrame.v
SimpleInvariant.v
SimpleConservation.v
SimpleGroups.v
SimpleRuns.v
SimpleThrottle.v
SimpleLoops.v
SimpleDelay.v
SimpleExample.v
Bitfield.v
AddrRange.v
AddrFacts.v
Interleaving.v
AddressMap.v
RubyBlocks.v
RubyBlockFacts.v
RubyBlockOps.v
ReplacementPolicies.v
ReplacementFacts.v
TreePlru.v
CacheResources.v
CacheMemory.v
CacheFacts.v
CacheRefinement.v
CacheSpec.v
RubyTables.v
RubyTableFacts.v
PersistentFacts.v
