(* ===== verification/Prelude.v ===== *)
(** * Verification of the Network-on-Interposer simulator of CHIPSIM

    CHIPSIM simulates chiplet systems.  A Python driver maps a workload onto
    chiplets, writes the packets they exchange to a trace, and runs gem5's Garnet
    network model on it: [src/integrations/gem5/src/mem/ruby/network/garnet], a
    cycle-level model of routers, links and network interfaces that was changed to
    replay such traces.  This library models that C++ program and the parts of gem5
    it stands on, as functions of Rocq, and proves what makes it a network: no flit
    and no credit is lost, packets reach their destination, the trace is replayed on
    time, and the latencies reported are those of the flits.

    All paths below are relative to [src/integrations/gem5/src].

    ** How the code is modelled

    - An operation is a function from the state it reads to the state it leaves.
      What can stop the simulation, or is undefined in C++, is a value of [result]
      (this file): [AssertFailed], [Panicked], [FatalError], [Exception] and
      [Undefined].  Theorems that an operation returns state [= Ok _].
    - Integers are [Z]; conversions to 32 and 64 bits are written ([wrap32], [wrap64])
      where the code depends on them.  Statistics and counters of events are integers
      without bound.
    - A [std::vector] is a list, read and written at an index by [vget], [vset] and
      [vupd], which are undefined out of range as [operator[]] is.
    - Objects hold each other through pointers in the code.  Here a router or an
      interface owns its units and ports; a link is a separate object, and the queue a
      producer shares with its link is the producer's queue, given to the link's
      wake-up.  A call of another object's [scheduleEvent] is recorded in the caller
      as an event ([m_scheduled]).
      Where the pointers themselves matter, in the construction of the network and in
      the event queue, the objects live in a store and a pointer is a key of it.
    - The network theorems do not go through the event queue: which object wakes up next
      is a choice of the transition relations (module [CreditProtocol]), so that they
      hold for every order of events.  The ticks an object asked for are modelled in
      [Clocking], the queue that serves them in [EventQueue].
    - Loops over an index are [for_range]; other recursion is structural or, where it
      is not, has fuel with a proof that the fuel is enough: [shortest_path] (the sum
      of all distances decreases with each round that reports a change), the reading of the trace
      (each call reads a character at least), the walks along the lists of the event
      queue (as many steps as there are events), the way up and down a tree of tree-PLRU
      (64 levels, since an index has 64 bits).
      Running out of fuel is never a value of the program: the loops whose end is a
      theorem ([wakeup_terminates], [simple_loops_end], the search of second chance, the
      copying of a log) return an [option] of a [result], [None] when the fuel is used up,
      and elsewhere it is [None] or the error [OutOfFuel], which no operation of the code
      returns.
      So a loop that does not end cannot be taken for one that fails.

    ** Parts and files

    - [Prelude]: the error monad, vectors, loops, sums over lists, tactics.
    - [NetDest] - [mem/ruby/common/{Set.hh,NetDest.hh,NetDest.cc}]: sets of machines.
      The machine types of the protocol, which the build generates, are the class
      [MachineTypes] with the laws the code relies on.
    - [IntMath] - [base/intmath.hh]; [divCeil] also on [float], as the interfaces use
      it to count flits, with the width below which it is exact.
    - [Flit] - [garnet/{CommonTypes.hh,flit,Credit,flitBuffer}]: flits, credits, their
      splitting and merging, the queue of flits.
    - [VirtualChannels] - [garnet/{OutVcState,VirtualChannel}].
    - [Routing] - [garnet/RoutingUnit]: table, XY and custom routing.
    - [Clocking] - [sim/clocked_object.hh] ([Clocked]) and
      [mem/ruby/common/Consumer]: cycles, edges, wake-ups.
    - [Links] - [garnet/{NetworkLink,CreditLink}].
    - [Pipeline] - [garnet/{InputUnit,OutputUnit,SwitchAllocator,CrossbarSwitch,Router}]:
      the stages of a router and its wake-up.  [Router.wakeup] is the whole handler.
    - [FlowControl], [CreditProtocol], [Allocation]: theorems about it.  [Wormhole]: the
      protocol of the virtual channels, abstractly, as transitions of views of a node;
      [WormholeRouter]: the routers implement it; [PacketIntegrity]: what it gives for the
      network of [CreditProtocol].
    - [ClosedNetwork]: routers, interfaces and the links between them as one system;
      [WormholeInterface]: the interfaces implement the protocol; [ClosedIntegrity]: what
      this gives for the system; [ClosedCredit]: its flow control.
    - [Topology] - [network/{Topology,BasicLink}]: distances, routing entries and the
      creation of links; [ShortestPath], [TopologyFacts]: theorems about it.
    - [Bridge] - [garnet/NetworkBridge]: clock-domain crossing and conversion between
      widths; [Serdes]: theorems about it.
    - [MessageBuffer] - [network/MessageBuffer], [slicc_interface/Message.hh].
    - [Statistics] - the counters of [garnet/GarnetNetwork.hh].
    - [NetworkInterface] - [garnet/NetworkInterface]; [InterfaceFacts],
      [InterfaceFlow]: theorems about it; [InterfaceExample]: an interface on which
      they are applied.
    - [Trace] - the reading of lines in [garnet/GarnetNetwork.cc];
      [GarnetNetwork] - its constructor's use of the trace and its wake-ups;
      [TraceReplay]: theorems about them.
    - [Network] - [network/Network], the base class: node numbers, queues, message sizes.
    - [EventQueue] - [sim/eventq], [base/flags.hh] and the loop of [sim/simulate.cc]: the
      linked list of linked lists of events.  [EventOrder]: the abstract agenda
      ([Agenda]) and the representation; [EventRefinement]: the refinement.
    - [Construction] - [garnet/GarnetLink] and the part of [garnet/GarnetNetwork.cc] that
      answers the topology: links, bridges and ports wired through a store of objects.
      [Wiring], [BuiltNetwork]: theorems about it, down to the flow control of the network
      that was built.  [RoutingTables], [Delivery]: the tables the construction fills, and
      the way of a packet through the topology, the construction and the routing units.
    - [NetworkAccess] - the parts of [garnet/GarnetNetwork.cc] that visit every object:
      [init], [collateStats], [resetStats], [functionalRead], [functionalWrite].
    - [SimpleSwitch] - [network/simple/{PerfectSwitch,Throttle,Switch}] and
      [network/simple/routing/WeightBased]: the other network model of gem5, which moves
      whole messages between message buffers, on a store of buffers, messages and switches;
      [SimpleNetwork] - [network/simple/{Switch,SimpleNetwork,SimpleLink}]: its construction
      and functional accesses.  [Destinations], [SimpleRouting], [SimpleGroups],
      [SimpleThrottle], [SimpleDelay]: theorems about its parts.  [SimpleFrame]: what an
      operation changes; [SimpleInvariant], [SimpleConservation], [SimpleRuns]: the invariant
      of the network, that wake-ups keep it, and the runs it holds in; [SimpleLoops]: its
      loops end; [SimpleExample]: a network on which the theorems are applied.
    - [Bitfield] - [base/bitfield.hh]; [AddrRange] - [base/addr_range.hh]: contiguous and
      interleaved address ranges.  [AddrFacts], [Interleaving]: theorems about them;
      [AddressMap]: the address map of [network/Network].
    - [RubyBlocks] - [mem/ruby/common/{Address,WriteMask,DataBlock,SubBlock}]: the data that
      messages and caches hold.  [RubyBlockFacts], [RubyBlockOps]: theorems about it.
    - [ReplacementPolicies] - [mem/cache/replacement_policies]: the interface of the policies
      as a class ([ReplacementPolicy]), with what a cache relies on as another
      ([PolicyLaws]), and seven policies.  [ReplacementFacts], [TreePlru]: the policies meet
      the laws, and which entry they choose.
    - [CacheResources] - [mem/ruby/structures/{BankedArray,ALUFreeListArray}].
    - [CacheMemory] - [mem/ruby/structures/CacheMemory] and
      [mem/ruby/slicc_interface/AbstractCacheEntry]: the cache of a controller, over any
      policy.  [CacheFacts]: its invariant and the finite map it stands for;
      [CacheRefinement]: the operations on the map; [CacheSpec]: initialisation and the
      promises to a controller.
    - [RubyTables] - [mem/ruby/structures/{TBETable,TBEStorage,TimerTable,PersistentTable}]:
      tables of the controllers.  [RubyTableFacts], [PersistentFacts]: theorems about them.

    ** What the theorems show

    - Flow control.  [credit_conservation]: in every state reachable by waking
      routers, links and credit links in any order, for every channel between routers
      the credits upstream, the flits and credits in flight and the flits buffered
      downstream add up to the size of the buffer.  Hence [credit_return_succeeds]:
      the assertion on returning credits never fails.  [interface_flow_control] is the
      contribution of the network interfaces, and [closed_flow_control] is the same for
      routers, interfaces and links together: the credits of every sender add up with what
      is under way, no buffer and no stall queue overflows.  [construction_wires] and
      [built_network_flow_control]: the calls of the topology wire every port to its links,
      and the network they build satisfies what [credit_conservation] assumes.
    - Packets.  [packet_integrity]: in every such state a virtual channel holds a piece of
      one packet, in order, and [output_channel_exclusive]: it is given to one packet at a
      time, as long as the interfaces send whole packets and free a channel once; hence
      [channel_assertions_hold]: the assertions on the states of channels never fail.  The
      proof simulates the pipeline by the transitions of [Wormhole].  In the closed system
      nothing is assumed of the interfaces: [closed_packet_integrity] and
      [closed_assertions_hold].  There an interface has one output port, since every
      topology attaches a node by one external link.
    - Allocation.  [switch_allocation_matching]: what the switch allocator grants in a
      cycle is a matching of input and output ports, each grant admissible;
      [output_arbiter_no_starvation]: over as many allocations as there are input ports
      every input port that keeps asking for an output port is granted it, on the
      allocations [Router.sa_wakeup] as they are; [router_wakeup_allocates]: a wake-up of
      the router changes the allocator by one of them.
    - Routing.  [lookupRoutingTable_correct], [xy_routing_delivers],
      [shortest_path_correct], [table_routing_delivers], [routing_entry_correct]:
      packets take shortest paths and arrive, by either algorithm.
      [built_network_delivers] puts the parts together: in the network constructed from a
      topology of positive weights, packets come from every router to the interface of
      their destination within as many hops as a path there weighs.
    - Data path.  [serialize_packet] and [deserialize_packet] for bridges between links of
      which one is an integer number of times as wide as the other; what happens otherwise
      is shown by [serialize_uneven] and [deserialize_uneven].  [link_fifo],
      [ordered_buffer_fifo], [slots_available_enqueue]: the queues in between.
    - Time.  [clockEdge_correct], [consumer_wakeups].  [event_queue_refines]: the event
      queue implements an agenda sorted by time and priority; [events_in_time]: time never
      goes back; [debugVerify_correct]: what its self-check accepts.
    - The network as a whole.  [phase_statistics_correct]: the statistic of a phase is its
      largest latency; [functional_access_flits]: which of the containers of flits the
      functional accesses reach, and which (stall queues, trace queues) they do not;
      [local_ids_bijective]: the numbering of the nodes.
    - Addresses.  [interleaving_roundtrip]: removing and adding interleaving bits;
      [exclude_correct]: differences of ranges; [address_interleaving]: the node
      responsible for an address.
    - Trace-driven injection and ejection.  [trace_roundtrip], [trace_replay],
      [transfer_round_robin], [calculateVC_correct], [phase_latency_exact],
      [node_dest_correct], [packet_limit], [wakeup_terminates].  The replay is followed
      to its end for any limit on the packets: with a limit of [m] the first [m + 1] records
      are handed over, the next is read and dropped.
    - The simple network.  [simple_network_conserves]: no copy of a message is lost or made
      up, and a switch knows how many messages wait for it; [route_splits]: a message is
      split over the links; [throttle_bandwidth]: a throttle keeps to the bandwidth of its
      link; [simple_loops_end]: the loops of switches return within as many iterations as there
      are messages in the buffer, and one, those of throttles that do not feed themselves
      within one more; [priority_groups]: how buffers
      are grouped; [forwarded_delay]: what passing a message on does to its delay.
    - Data.  [write_mask_sets]: write masks are sets of bytes; [sub_block_roundtrip]: parts of
      blocks are read back as written; [atomic_history]: atomic operations take effect in
      order and log what they found; [copies_and_assignments]: a copy of a block equals it,
      an assignment does not always.
    - Caches.  [cache_refines_map]: over any policy that meets [PolicyLaws] a cache is a
      finite map with room for as many addresses in a set as there are ways;
      [cache_makes_room]: a full set takes a new line in place of the victim;
      [tree_plru_victim]: the victim of tree-PLRU; the search of second chance ends within
      one iteration more than there are candidates ([second_chance_victim]);
      [alu_admission]: which atomic operations go through.  Tables: [persistent_requests],
      the machines that starve for a line; [timer_table], the earliest timer; [new_slot],
      [leave_slot] and [slots_capacity], the slots of transactions.
    - Where the code fails: [transfer_last_batch_undefined],
      [late_record_stops_replay], [short_line_undefined].

    ** What is not modelled

    Printing, the registration of statistics other than those of the phases, and averages
    over the simulated time, which are floating point; the fault model, which the runs keep
    disabled; threads, signals and checkpoints of the event queue; replacement policies that
    draw random numbers; the sequencers, directory memories and prefetchers of Ruby, and the other
    parts of gem5 no trace-driven run reaches; the Python driver and the thermal solver.
    [rand()] is an argument of the functions that call it.  The characters of the trace are
    what the pipe of [gunzip] delivers.  That the links given to the calls of the topology
    are distinct, and that a bridge and the link behind it point to each other, are
    hypotheses, which the configuration has to meet. *)

From stdpp Require Export base list numbers gmap strings.
From Stdlib Require Export ZArith Lia Sorted.

Open Scope Z_scope.

Declare Scope garnet_scope.
Delimit Scope garnet_scope with garnet.

(** ** Failures and the error monad

    The simulator stops on a failed [assert], on [panic], on [fatal] and on a
    C++ exception nobody catches; C++ additionally leaves out-of-range
    container accesses and reads of indeterminate values undefined.  Every
    operation of the model that can do one of these returns a [result].

    [OutOfFuel] is none of these and no behaviour of the program: it says that a
    bound the model puts on a loop was too small. *)

Inductive error :=
| AssertFailed
| Panicked
| FatalError
| Exception
| Undefined
| OutOfFuel.

Inductive result (A : Type) :=
| Ok (a : A)
| Err (e : error).
Arguments Ok {A} _.
Arguments Err {A} _.

#[export] Instance error_eq_dec : EqDecision error.
Proof. solve_decision. Defined.

#[export] Instance result_eq_dec {A} `{EqDecision A} : EqDecision (result A).
Proof. solve_decision. Defined.

Definition rbind {A B} (m : result A) (f : A → result B) : result B :=
  match m with Ok a => f a | Err e => Err e end.

Definition rmap {A B} (f : A → B) (m : result A) : result B :=
  match m with Ok a => Ok (f a) | Err e => Err e end.

Notation "x ← m ; k" := (rbind m (λ x, k)) : garnet_scope.
Notation "' x ← m ; k" := (rbind m (λ x, k)) : garnet_scope.

(** A loop that is not structural runs on fuel.  It returns [None] when the fuel
    is used up and [Some r] when the loop has come to an end, with [r] its result
    or its failure; [⇐] runs an operation of the program in such a loop. *)
Definition fbind {A B} (m : result A) (f : A → option (result B)) : option (result B) :=
  match m with Ok a => f a | Err e => Some (Err e) end.

Notation "x ⇐ m ; k" := (fbind m (λ x, k))
  (at level 20, m at level 100, k at level 200, only parsing) : garnet_scope.
Notation "' x ⇐ m ; k" := (fbind m (λ x, k))
  (at level 20, x strict pattern, m at level 100, k at level 200, only parsing)
  : garnet_scope.
Open Scope garnet_scope.

(** The outcome of a loop that was given enough fuel. *)
Definition settled {A} (o : option (result A)) : result A :=
  match o with Some r => r | None => Err OutOfFuel end.

(** [assert(b)], [panic_if(b)], [fatal_if(b)]. *)
Definition assert (b : bool) : result unit :=
  if b then Ok tt else Err AssertFailed.

Definition panic_if (b : bool) : result unit :=
  if b then Err Panicked else Ok tt.

Definition fatal_if (b : bool) : result unit :=
  if b then Err FatalError else Ok tt.

Definition is_ok {A} (m : result A) : bool :=
  match m with Ok _ => true | Err _ => false end.

(** ** Containers: [std::vector::operator[]], [std::deque::front] *)

Definition zlookup {A} (l : list A) (i : Z) : option A :=
  if 0 <=? i then l !! Z.to_nat i else None.

Definition vget {A} (l : list A) (i : Z) : result A :=
  match zlookup l i with Some a => Ok a | None => Err Undefined end.

Definition vset {A} (l : list A) (i : Z) (a : A) : result (list A) :=
  match zlookup l i with
  | Some _ => Ok (<[Z.to_nat i := a]> l)
  | None => Err Undefined
  end.

Definition vupd {A} (l : list A) (i : Z) (f : A → result A) : result (list A) :=
  a ← vget l i; a' ← f a; vset l i a'.

(** A read of a value that may be indeterminate. *)
Definition determinate {A} (o : option A) : result A :=
  match o with Some a => Ok a | None => Err Undefined end.

Definition zlen {A} (l : list A) : Z := Z.of_nat (length l).

(** [v.resize(n)] with value-initialised new elements. *)
Definition vresize {A} (d : A) (n : Z) (l : list A) : list A :=
  resize (Z.to_nat n) d l.

(** ** Counted loops

    [for_range a n f s] is [for (i = a; i < a + n; i++) s = f(i, s)], with the
    failure of an iteration ending the loop. *)
Fixpoint for_range {S} (a : Z) (n : nat) (f : Z → S → result S) (s : S)
    : result S :=
  match n with
  | O => Ok s
  | Datatypes.S n' => s' ← f a s; for_range (a + 1) n' f s'
  end.

(** [for (auto &x : l) s = f(x, s)] over a list the loop also rewrites:
    every element is replaced by the one [f] returns. *)
Fixpoint for_each {A S} (f : A → S → result (A * S)) (l : list A) (s : S)
    : result (list A * S) :=
  match l with
  | [] => Ok ([], s)
  | x :: l' =>
      '(x', s1) ← f x s;
      '(l'', s2) ← for_each f l' s1;
      Ok (x' :: l'', s2)
  end.

(** ** Machine integers *)

(** [uint64_t] arithmetic wraps modulo [2^64]; [Tick] is such a type. *)
Definition wrap64 (x : Z) : Z := x mod 2 ^ 64.
Definition wrap32 (x : Z) : Z := x mod 2 ^ 32.

Definition INFINITE_ : Z := 10000.

(** ** Lemmas on the monad *)

Section result_facts.
  Context {A B : Type}.

Lemma bind_Ok (m : result A) (f : A → result B) (b : B) :
  rbind m f = Ok b ↔ ∃ a, m = Ok a ∧ f a = Ok b.
Proof. destruct m; naive_solver. Qed.

Lemma fmap_Ok (m : result A) (f : A → B) (b : B) :
  rmap f m = Ok b ↔ ∃ a, m = Ok a ∧ b = f a.
Proof. destruct m; naive_solver. Qed.

Lemma bind_Ok_intro (m : result A) (f : A → result B) (a : A) (b : B) :
  m = Ok a → f a = Ok b → rbind m f = Ok b.
Proof. by intros ->. Qed.

Lemma bind_Err (m : result A) (f : A → result B) (e : error) :
  rbind m f = Err e ↔ m = Err e ∨ ∃ a, m = Ok a ∧ f a = Err e.
Proof. destruct m; naive_solver. Qed.

Lemma fbind_Ok (m : result A) (f : A → option (result B)) (b : B) :
  fbind m f = Some (Ok b) ↔ ∃ a, m = Ok a ∧ f a = Some (Ok b).
Proof. destruct m; naive_solver. Qed.

Lemma fbind_ends (m : result A) (f : A → option (result B)) :
  (∀ a, m = Ok a → is_Some (f a)) → is_Some (fbind m f).
Proof. destruct m; cbn; eauto. Qed.

(** A loop that returns whenever it has more fuel than [n], and then keeps its
    result, has one result. *)
Lemma fuel_enough (f : nat → option (result A)) n :
  (∀ m, (n < m)%nat → is_Some (f m)) →
  (∀ m m' r, f m = Some r → (m ≤ m')%nat → f m' = Some r) →
  ∃ r, ∀ m, (n < m)%nat → f m = Some r.
Proof.
  intros He Hm. destruct (He (S n)) as [r Hr]; [lia|]. exists r. intros m Hn.
  by apply (Hm (S n)).
Qed.

Lemma settled_Ok (o : option (result A)) (a : A) : settled o = Ok a ↔ o = Some (Ok a).
Proof. destruct o; naive_solver. Qed.
End result_facts.

Lemma assert_Ok b u : assert b = Ok u ↔ b = true.
Proof. destruct b, u; naive_solver. Qed.

Lemma panic_if_Ok b u : panic_if b = Ok u ↔ b = false.
Proof. destruct b, u; naive_solver. Qed.

Lemma fatal_if_Ok b u : fatal_if b = Ok u ↔ b = false.
Proof. destruct b, u; naive_solver. Qed.

Lemma determinate_Ok {A} (o : option A) a : determinate o = Ok a ↔ o = Some a.
Proof. destruct o; naive_solver. Qed.

(** Inversion of a chain of monadic binds that returned [Ok]. *)
Ltac inv_result :=
  repeat match goal with
  | H : rbind _ _ = Ok _ |- _ => apply bind_Ok in H; destruct H as (? & ? & H)
  | H : fbind _ _ = Some (Ok _) |- _ => apply fbind_Ok in H; destruct H as (? & ? & H)
  | H : rmap _ _ = Ok _ |- _ => apply fmap_Ok in H; destruct H as (? & ? & ?)
  | H : assert _ = Ok _ |- _ => apply assert_Ok in H
  | H : panic_if _ = Ok _ |- _ => apply panic_if_Ok in H
  | H : fatal_if _ = Ok _ |- _ => apply fatal_if_Ok in H
  | H : determinate _ = Ok _ |- _ => apply determinate_Ok in H
  | H : Ok _ = Ok _ |- _ => injection H as H
  | H : Err _ = Ok _ |- _ => discriminate H
  | H : (_, _) = (_, _) |- _ => injection H as ? ?
  | p : (_ * _)%type |- _ => destruct p
  end; subst; cbn in *.

(** One bind of a chain that returned [Ok]: its value and its equation. *)
Tactic Notation "step_bind" hyp(H) "as" simple_intropattern(a) simple_intropattern(E) :=
  first [apply bind_Ok in H as (a & E & H) | apply fbind_Ok in H as (a & E & H)].

(** The same computation returned twice. *)
Ltac same_result :=
  repeat match goal with
  | H1 : ?m = Ok ?a, H2 : ?m = Ok ?b |- _ =>
      assert (b = a) by congruence; subst b; clear H2
  end.

(** Case analysis on the conditionals and matches of a hypothesis. *)
Ltac case_in H :=
  match type of H with
  | context [match ?x with _ => _ end] =>
      lazymatch x with
      | context [match _ with _ => _ end] => fail
      | _ => let E := fresh "E" in destruct x eqn:E
      end
  end.

(** Boolean facts to propositions. *)
Ltac boolify :=
  repeat match goal with
  | H : _ && _ = true |- _ => apply andb_true_iff in H; destruct H
  | H : _ || _ = false |- _ => apply orb_false_iff in H; destruct H
  | H : negb _ = true |- _ => apply negb_true_iff in H
  | H : negb _ = false |- _ => apply negb_false_iff in H
  | H : (_ <? _) = true |- _ => apply Z.ltb_lt in H
  | H : (_ <? _) = false |- _ => apply Z.ltb_ge in H
  | H : (_ <=? _) = true |- _ => apply Z.leb_le in H
  | H : (_ <=? _) = false |- _ => apply Z.leb_gt in H
  | H : (_ =? _) = true |- _ => apply Z.eqb_eq in H
  | H : (_ =? _) = false |- _ => apply Z.eqb_neq in H
  end.

(** Case analysis on the integer comparisons of the goal. *)
Ltac zcases :=
  repeat match goal with
  | |- context [?a <? ?b] => destruct (Z.ltb_spec a b); try lia
  | |- context [?a <=? ?b] => destruct (Z.leb_spec a b); try lia
  | |- context [?a =? ?b] => destruct (Z.eqb_spec a b); try lia
  end.

(** ** Lemmas on vectors *)

Section vector_facts.
  Context {A : Type}.
  Implicit Types (l : list A) (i j : Z) (a b : A).

Lemma zlookup_Some l i a :
  zlookup l i = Some a ↔ 0 ≤ i ∧ l !! Z.to_nat i = Some a.
Proof. unfold zlookup. destruct (Z.leb_spec 0 i); naive_solver lia. Qed.

Lemma zlookup_lt l i a : zlookup l i = Some a → 0 ≤ i < zlen l.
Proof.
  rewrite zlookup_Some. intros [? H%lookup_lt_Some]. unfold zlen. lia.
Qed.

Lemma zlookup_is_Some l i : 0 ≤ i < zlen l → ∃ a, zlookup l i = Some a.
Proof.
  unfold zlen. intros Hi.
  destruct (lookup_lt_is_Some_2 l (Z.to_nat i)) as [a Ha]; [lia|].
  exists a. rewrite zlookup_Some. split; [lia|done].
Qed.

Lemma vget_Ok l i a : vget l i = Ok a ↔ zlookup l i = Some a.
Proof. unfold vget. destruct (zlookup l i); naive_solver. Qed.

Lemma vget_total l i : 0 ≤ i < zlen l → ∃ a, vget l i = Ok a.
Proof. intros [a Ha]%zlookup_is_Some. exists a. by rewrite vget_Ok. Qed.

Lemma vset_Ok l i a l' :
  vset l i a = Ok l' ↔ 0 ≤ i < zlen l ∧ l' = <[Z.to_nat i := a]> l.
Proof.
  unfold vset. destruct (zlookup l i) as [b|] eqn:E.
  - apply zlookup_lt in E. naive_solver.
  - split; [done|]. intros [[b Hb]%zlookup_is_Some _]. congruence.
Qed.

Lemma zlookup_insert l i j a :
  0 ≤ i < zlen l →
  zlookup (<[Z.to_nat i := a]> l) j =
    if decide (i = j) then Some a else zlookup l j.
Proof.
  unfold zlen, zlookup. intros Hi. case_decide as Hd.
  - subst. destruct (Z.leb_spec 0 j); [|lia].
    apply list_lookup_insert_eq. lia.
  - destruct (Z.leb_spec 0 j); [|done].
    apply list_lookup_insert_ne. lia.
Qed.

Lemma zlen_insert l (n : nat) a : zlen (<[n := a]> l) = zlen l.
Proof. unfold zlen. by rewrite length_insert. Qed.

Lemma zlen_nonneg l : 0 ≤ zlen l.
Proof. unfold zlen. lia. Qed.

Lemma zlen_app l l' : zlen (l ++ l') = zlen l + zlen l'.
Proof. unfold zlen. rewrite length_app. lia. Qed.

Lemma zlen_cons a l : zlen (a :: l) = 1 + zlen l.
Proof. unfold zlen. cbn. lia. Qed.

Lemma zlookup_replicate (n : nat) i a b :
  zlookup (replicate n a) i = Some b ↔ b = a ∧ 0 ≤ i < Z.of_nat n.
Proof. rewrite zlookup_Some, lookup_replicate. naive_solver lia. Qed.

Lemma Forall_zlookup (P : A → Prop) l i a :
  Forall P l → zlookup l i = Some a → P a.
Proof.
  rewrite zlookup_Some. intros HF [_ ?]. by eapply Forall_lookup_1.
Qed.

Lemma Forall_zlookup_intro (P : A → Prop) l :
  (∀ i a, zlookup l i = Some a → P a) → Forall P l.
Proof.
  intros HP. apply Forall_lookup. intros n a Hn. apply (HP (Z.of_nat n)).
  apply zlookup_Some. split; [lia|]. by rewrite Nat2Z.id.
Qed.

Lemma vset_intro l i a : 0 ≤ i < zlen l → vset l i a = Ok (<[Z.to_nat i := a]> l).
Proof. intros Hi. by apply vset_Ok. Qed.

Lemma vget_intro l i a : zlookup l i = Some a → vget l i = Ok a.
Proof. apply vget_Ok. Qed.

Lemma zlookup_insert_eq l i a :
  0 ≤ i < zlen l → zlookup (<[Z.to_nat i := a]> l) i = Some a.
Proof. intros Hi. rewrite zlookup_insert by done. by rewrite decide_True. Qed.

Lemma vupd_intro l i f a a' :
  zlookup l i = Some a → f a = Ok a' → vupd l i f = Ok (<[Z.to_nat i := a']> l).
Proof.
  intros Ha Hf. unfold vupd, vget. rewrite Ha. cbn. rewrite Hf. cbn.
  apply vset_Ok. split; [|done]. by eapply zlookup_lt.
Qed.

Lemma Forall_vset (P : A → Prop) l i a l' :
  Forall P l → P a → vset l i a = Ok l' → Forall P l'.
Proof. intros Hl Ha [_ ->]%vset_Ok. by apply Forall_insert. Qed.

Lemma Forall2_vset (R : A → A → Prop) `{!Reflexive R} l i a a' l' :
  vget l i = Ok a → R a a' → vset l i a' = Ok l' → Forall2 R l l'.
Proof.
  intros [_ Ha]%vget_Ok%zlookup_Some HR [_ ->]%vset_Ok.
  assert (Forall2 R l l) as Hl by (by apply Forall_Forall2_diag, Forall_true).
  rewrite <- (list_insert_id l (Z.to_nat i) a Ha) at 1. by apply Forall2_insert.
Qed.
End vector_facts.

Lemma Forall2_zlookup_r {A B} (R : A → B → Prop) l l' i b :
  Forall2 R l l' → zlookup l' i = Some b → ∃ a, zlookup l i = Some a ∧ R a b.
Proof.
  intros HF [Hi Hb]%zlookup_Some.
  destruct (Forall2_lookup_r _ _ _ _ _ HF Hb) as (a & Ha & HR).
  exists a. by rewrite zlookup_Some.
Qed.

(** ** Views of a vector *)

(** [f] of the element at index [i], [0] if there is none. *)
Definition at_ {A} (f : A → Z) (l : list A) (i : Z) : Z :=
  match zlookup l i with Some a => f a | None => 0 end.

Definition sum_over {A} (f : A → Z) (l : list A) : Z :=
  foldr (λ a s, f a + s) 0 l.

Section views.
  Context {A : Type}.
  Implicit Types (f : A → Z) (l : list A).

Lemma at_lookup f l i a : zlookup l i = Some a → at_ f l i = f a.
Proof. unfold at_. by intros ->. Qed.

Lemma at_none f l i : zlookup l i = None → at_ f l i = 0.
Proof. unfold at_. by intros ->. Qed.

Lemma at_vget f l i a : vget l i = Ok a → at_ f l i = f a.
Proof. rewrite vget_Ok. apply at_lookup. Qed.

Lemma at_vset f l p a l' i :
  vset l p a = Ok l' → at_ f l' i = if decide (i = p) then f a else at_ f l i.
Proof.
  intros [Hp ->]%vset_Ok. unfold at_. rewrite zlookup_insert by done.
  repeat case_decide; congruence.
Qed.

  (** The view of a vector one element of which is updated: the change is that
      of the element. *)
Lemma at_vupd f l p g l' (d : Z) i :
  vupd l p g = Ok l' → (∀ a a', g a = Ok a' → f a' = f a + d) →
  at_ f l' i = at_ f l i + if decide (i = p) then d else 0.
Proof.
  unfold vupd. intros H1 Hg. step_bind H1 as a Ha. step_bind H1 as a' Ha'.
  rewrite (at_vset f _ _ _ _ i H1). case_decide; [|lia]. subst.
  by rewrite (at_vget f _ _ _ Ha), (Hg _ _ Ha').
Qed.

Lemma vupd_same_length l p g l' : vupd l p g = Ok l' → zlen l' = zlen l.
Proof.
  unfold vupd. intros H1. step_bind H1 as a Ha. step_bind H1 as a' Ha'.
  apply vset_Ok in H1 as [_ ->]. apply zlen_insert.
Qed.

Lemma sum_over_insert f l (n : nat) a b :
  l !! n = Some a → sum_over f (<[n := b]> l) = sum_over f l - f a + f b.
Proof.
  revert n. unfold sum_over.
  induction l as [|x l IH]; intros [|n]; simpl; [done..| |].
  - intros [= ->]. lia.
  - intros Hn. rewrite (IH n Hn). lia.
Qed.

Lemma sum_over_vset f l p a b l' :
  zlookup l p = Some a → vset l p b = Ok l' →
  sum_over f l' = sum_over f l - f a + f b.
Proof.
  intros [_ Hp]%zlookup_Some [_ ->]%vset_Ok. by apply sum_over_insert.
Qed.

Lemma sum_over_vupd f l p g l' (d : Z) :
  vupd l p g = Ok l' → (∀ a a', g a = Ok a' → f a' = f a + d) →
  sum_over f l' = sum_over f l + d.
Proof.
  unfold vupd. intros H1 Hg. step_bind H1 as a Ha%vget_Ok. step_bind H1 as a' Ha'.
  rewrite (sum_over_vset f _ _ _ _ _ Ha H1), (Hg _ _ Ha'). lia.
Qed.

Lemma sum_over_app f l1 l2 : sum_over f (l1 ++ l2) = sum_over f l1 + sum_over f l2.
Proof. unfold sum_over. induction l1 as [|a l1 IH]; simpl; [done|]. rewrite IH. lia. Qed.

Lemma sum_over_Forall_nonneg f l : Forall (λ a, 0 ≤ f a) l → 0 ≤ sum_over f l.
Proof. unfold sum_over. induction 1; simpl; lia. Qed.

Lemma sum_over_nonneg f l : (∀ a, 0 ≤ f a) → 0 ≤ sum_over f l.
Proof. intros Hf. apply sum_over_Forall_nonneg. by apply Forall_true. Qed.
End views.

Lemma NoDup_fmap_eq {A B} (f : A → B) (l : list A) x y :
  NoDup (f <$> l) → x ∈ l → y ∈ l → f x = f y → x = y.
Proof.
  induction l as [|z l IH]; cbn; [set_solver|]. intros [Hz Hn]%NoDup_cons.
  assert (∀ w, w ∈ l → f w ≠ f z) as Hne.
  { intros w Hw He. apply Hz. rewrite <- He. by apply list_elem_of_fmap_2. }
  intros [->|Hx]%elem_of_cons [->|Hy]%elem_of_cons He; try done.
  - by destruct (Hne y Hy).
  - by destruct (Hne x Hx).
  - by apply IH.
Qed.

(** Invariants of counted loops. *)
Lemma for_range_inv {S} (P : Z → S → Prop) (f : Z → S → result S) n a s s' :
  (∀ i t t', a ≤ i < a + Z.of_nat n → P i t → f i t = Ok t' → P (i + 1) t') →
  P a s → for_range a n f s = Ok s' → P (a + Z.of_nat n) s'.
Proof.
  revert a s. induction n as [|n IH]; intros a s Hstep HP; cbn [for_range].
  - intros [= <-]. by rewrite Z.add_0_r.
  - intros H. apply bind_Ok in H as (t & Ht & H).
    replace (a + Z.of_nat (Datatypes.S n)) with (a + 1 + Z.of_nat n) by lia.
    eapply IH; [|eapply Hstep; [|exact HP|exact Ht]; lia|exact H].
    intros i u u' Hi. apply Hstep. lia.
Qed.

Lemma for_range_total {S} (P : Z → S → Prop) (f : Z → S → result S) n a s :
  (∀ i t, a ≤ i < a + Z.of_nat n → P i t → ∃ t', f i t = Ok t' ∧ P (i + 1) t') →
  P a s → ∃ s', for_range a n f s = Ok s' ∧ P (a + Z.of_nat n) s'.
Proof.
  revert a s. induction n as [|n IH]; intros a s Hstep HP; cbn [for_range].
  - exists s. by rewrite Z.add_0_r.
  - destruct (Hstep a s) as (t & Ht & HPt); [lia|done|].
    rewrite Ht. cbn. replace (a + Z.of_nat (Datatypes.S n)) with (a + 1 + Z.of_nat n) by lia.
    apply IH; [|done]. intros i u Hi. apply Hstep. lia.
Qed.

(** ** Views with a default *)

Definition look {A B} (d : B) (f : A → B) (l : list A) (i : Z) : B :=
  match zlookup l i with Some a => f a | None => d end.

(** [l'] is [l] with [a] at index [i]. *)
Definition replaced {A} (l : list A) (i : Z) (a : A) (l' : list A) : Prop :=
  ∀ j, zlookup l' j = if decide (j = i) then Some a else zlookup l j.

Section look.
  Context {A : Type}.
  Implicit Types (l : list A) (i j : Z) (a : A).

Lemma vset_replaced l i a l' : vset l i a = Ok l' → replaced l i a l'.
Proof.
  intros [Hi ->]%vset_Ok j. rewrite zlookup_insert by done. repeat case_decide; congruence.
Qed.

Lemma replaced_eq l i a l' : replaced l i a l' → zlookup l' i = Some a.
Proof. intros Hr. by rewrite Hr, decide_True. Qed.

Lemma replaced_trans l l1 l2 i a a' :
  replaced l i a l1 → replaced l1 i a' l2 → replaced l i a' l2.
Proof. intros H1 H2 j. rewrite H2, H1. by case_decide. Qed.

Lemma replaced_self l i a : zlookup l i = Some a → replaced l i a l.
Proof. intros Ha j. by case_decide; subst. Qed.

Context {B : Type} (d : B).
Implicit Types f : A → B.

Lemma look_Some f l i a : zlookup l i = Some a → look d f l i = f a.
Proof. unfold look. by intros ->. Qed.

Lemma look_replaced f l i a l' j :
  replaced l i a l' → look d f l' j = if decide (j = i) then f a else look d f l j.
Proof. intros Hr. unfold look. rewrite Hr. by case_decide. Qed.

(** A replacement that does not change the view. *)
Lemma look_same f l i a a' l' j :
  replaced l i a' l' → zlookup l i = Some a → f a' = f a → look d f l' j = look d f l j.
Proof.
  intros Hs Ha He. rewrite (look_replaced _ _ _ _ _ j Hs). case_decide; [|done].
  subst. by rewrite He, (look_Some _ _ _ _ Ha).
Qed.

End look.

Create HintDb garnet.
#[export] Hint Resolve zlen_nonneg : garnet.
#[export] Hint Rewrite @zlen_app @zlen_cons @zlen_insert : garnet.
