(* ===== verification/NetDest.v ===== *)
(** * Node sets and network destinations

    [mem/ruby/common/Set.hh] (module [RubySet]) and
    [mem/ruby/common/NetDest.{hh,cc}] (module [NetDest]).  A [Set] is a
    [std::bitset<NUMBER_BITS_PER_SET>] with the number of bits in use; the
    bitset is the integer whose binary digits are its bits.  A [NetDest] is one
    [Set] per machine type.

    The functions on [MachineType] are generated from the coherence protocol
    and [NUMBER_BITS_PER_SET] comes from the build options: both are the
    parameters of the class [MachineTypes]; what the generator promises about
    them is the class [MachineTypeLaws]. *)

From S2P Require Import Prelude.

Class MachineTypes := {
  MachineType_NUM : Z;
  MachineType_base_level : Z → Z;
  MachineType_base_number : Z → Z;
  MachineType_base_count : Z → Z;
  MachineType_from_base_level : Z → Z;
  NUMBER_BITS_PER_SET : Z;
}.

Class MachineTypeLaws `{MachineTypes} := {
  machine_num_pos : 0 ≤ MachineType_NUM;
  base_level_id t : 0 ≤ t ≤ MachineType_NUM → MachineType_base_level t = t;
  from_base_level_id t :
    0 ≤ t < MachineType_NUM → MachineType_from_base_level t = t;
  base_count_range t :
    0 ≤ t < MachineType_NUM → 0 ≤ MachineType_base_count t ≤ NUMBER_BITS_PER_SET;
  base_number_0 : MachineType_base_number 0 = 0;
  base_number_succ t :
    0 ≤ t < MachineType_NUM →
    MachineType_base_number (t + 1) =
      MachineType_base_number t + MachineType_base_count t;
}.

(** The base numbers increase with the type. *)
Lemma base_number_mono `{MachineTypeLaws} i n :
  0 ≤ i → i + Z.of_nat n ≤ MachineType_NUM →
  MachineType_base_number i ≤ MachineType_base_number (i + Z.of_nat n).
Proof.
  intros Hi. induction n as [|n IH]; intros Hn; [rewrite Z.add_0_r; lia|].
  replace (i + Z.of_nat (S n)) with ((i + Z.of_nat n) + 1) by lia.
  rewrite base_number_succ by lia.
  assert (0 ≤ MachineType_base_count (i + Z.of_nat n) ≤ NUMBER_BITS_PER_SET)
    by (apply base_count_range; lia). lia.
Qed.

Record MachineID := mkMachineID { machine_type : Z; machine_num : Z }.

#[export] Instance MachineID_eq_dec : EqDecision MachineID.
Proof. solve_decision. Defined.

(** ** [Set] *)

Module RubySet.
Section RubySet.
  Context `{MachineTypes}.

Record t := mk { m_nSize : Z; bits : Z }.

(** [Set()] *)
Definition empty : t := mk 0 0.

(** [Set(int size)] *)
Definition make (size : Z) : result t :=
  _ ← fatal_if (NUMBER_BITS_PER_SET <? size);
  Ok (mk size 0).

(** [bitset::set(pos)], [reset(pos)] and [test(pos)] throw
    [std::out_of_range] on a position the bitset does not have. *)
Definition in_bitset (i : Z) : bool := (0 <=? i) && (i <? NUMBER_BITS_PER_SET).

Definition add (s : t) (index : Z) : result t :=
  if in_bitset index then Ok (mk (m_nSize s) (Z.setbit (bits s) index))
  else Err Exception.

Definition addSet (s obj : t) : result t :=
  _ ← assert (m_nSize s =? m_nSize obj);
  Ok (mk (m_nSize s) (Z.lor (bits s) (bits obj))).

Definition remove (s : t) (index : Z) : result t :=
  if in_bitset index then Ok (mk (m_nSize s) (Z.clearbit (bits s) index))
  else Err Exception.

(** [bits &= ~obj.bits] *)
Definition removeSet (s obj : t) : result t :=
  _ ← assert (m_nSize s =? m_nSize obj);
  Ok (mk (m_nSize s) (Z.ldiff (bits s) (bits obj))).

Definition clear (s : t) : t := mk (m_nSize s) 0.

(** [bits.set()], then [reset(j)] for every [j] from [m_nSize] on. *)
Definition broadcast (s : t) : result t :=
  for_range (m_nSize s) (Z.to_nat (NUMBER_BITS_PER_SET - m_nSize s))
    (λ j r, remove r j)
    (mk (m_nSize s) (Z.ones NUMBER_BITS_PER_SET)).

(** [bits.count()] *)
Definition popcount (n : nat) (b : Z) : Z :=
  zlen (filter (λ i, Z.testbit b i = true) (seqZ 0 (Z.of_nat n))).

Definition count (s : t) : Z :=
  popcount (Z.to_nat NUMBER_BITS_PER_SET) (bits s).

Definition isEqual (s obj : t) : result bool :=
  _ ← assert (m_nSize s =? m_nSize obj);
  Ok (bits s =? bits obj).

Definition OR (s obj : t) : result t :=
  _ ← assert (m_nSize s =? m_nSize obj);
  r ← make (m_nSize s);
  Ok (mk (m_nSize r) (Z.lor (bits s) (bits obj))).

Definition AND (s obj : t) : result t :=
  _ ← assert (m_nSize s =? m_nSize obj);
  r ← make (m_nSize s);
  Ok (mk (m_nSize r) (Z.land (bits s) (bits obj))).

Definition intersectionIsEmpty (s obj : t) : bool :=
  Z.land (bits s) (bits obj) =? 0.

Definition isSuperset (s test : t) : result bool :=
  _ ← assert (m_nSize s =? m_nSize test);
  Ok (Z.lor (bits s) (bits test) =? bits s).

Definition isSubset (s test : t) : result bool := isSuperset test s.

Definition isElement (s : t) (element : Z) : result bool :=
  if in_bitset element then Ok (Z.testbit (bits s) element) else Err Exception.

Definition isBroadcast (s : t) : bool := count s =? m_nSize s.

Definition isEmpty (s : t) : bool := bits s =? 0.

(** [for (i = 0; i < m_nSize; ++i) if (bits.test(i)) return i; panic(..)] *)
Fixpoint smallest_from (s : t) (i : Z) (n : nat) : result Z :=
  match n with
  | O => Err Panicked
  | S n' =>
      b ← isElement s i;
      if b then Ok i else smallest_from s (i + 1) n'
  end.

Definition smallestElement (s : t) : result Z :=
  smallest_from s 0 (Z.to_nat (m_nSize s)).

(** [bits[index]] is not checked. *)
Definition elementAt (s : t) (index : Z) : result bool :=
  if in_bitset index then Ok (Z.testbit (bits s) index) else Err Undefined.

Definition getSize (s : t) : Z := m_nSize s.

Definition setSize (s : t) (size : Z) : result t :=
  _ ← fatal_if (NUMBER_BITS_PER_SET <? size);
  Ok (mk size 0).

(** *** Well-formed sets and their elements *)

Definition wf (s : t) : Prop :=
  0 ≤ m_nSize s ≤ NUMBER_BITS_PER_SET ∧
  ∀ i, Z.testbit (bits s) i = true → 0 ≤ i < m_nSize s.

Definition elem (i : Z) (s : t) : Prop := Z.testbit (bits s) i = true.

Lemma wf_bits_nonneg s : wf s → 0 ≤ bits s.
Proof.
  intros [Hn Hb]. destruct (Z.le_gt_cases 0 (bits s)) as [|Hneg]; [done|].
  apply Z.bits_iff_neg_ex in Hneg as [k Hk].
  specialize (Hb (Z.max (k + 1) (m_nSize s))).
  rewrite Hk in Hb by lia. specialize (Hb eq_refl). lia.
Qed.

(** Two bitsets with the same bits are the same bitset. *)
Lemma bits_ext a b : (∀ i, 0 ≤ i → Z.testbit a i = Z.testbit b i) → a = b.
Proof. intros Hab. apply Z.bits_inj'. exact Hab. Qed.

Lemma in_bitset_spec i : in_bitset i = true ↔ 0 ≤ i < NUMBER_BITS_PER_SET.
Proof. unfold in_bitset. rewrite andb_true_iff, Z.leb_le, Z.ltb_lt. done. Qed.

Lemma intersectionIsEmpty_spec a b :
  wf a → wf b → intersectionIsEmpty a b = false ↔ ∃ i, elem i a ∧ elem i b.
Proof.
  intros Ha Hb. unfold intersectionIsEmpty, elem. rewrite Z.eqb_neq. split.
  - intros Hne. pose proof (wf_bits_nonneg a Ha).
    assert (0 ≤ Z.land (bits a) (bits b)) by (apply Z.land_nonneg; auto).
    exists (Z.log2 (Z.land (bits a) (bits b))).
    rewrite <- andb_true_iff, <- Z.land_spec. apply Z.bit_log2. lia.
  - intros (i & Hi1 & Hi2) H0.
    assert (Ht : Z.testbit (Z.land (bits a) (bits b)) i = true)
      by (rewrite Z.land_spec, Hi1, Hi2; done).
    rewrite H0, Z.bits_0 in Ht. done.
Qed.

Lemma isElement_wf s i :
  wf s → 0 ≤ i < m_nSize s → isElement s i = Ok (Z.testbit (bits s) i).
Proof.
  intros [Hn _] Hi. unfold isElement.
  destruct (in_bitset i) eqn:E; [done|].
  assert (in_bitset i = true) by (apply in_bitset_spec; lia). congruence.
Qed.

Lemma add_wf s i s' :
  wf s → 0 ≤ i < m_nSize s → add s i = Ok s' →
  wf s' ∧ m_nSize s' = m_nSize s ∧ ∀ j, elem j s' ↔ j = i ∨ elem j s.
Proof.
  intros [Hn Hb] Hi. unfold add, elem.
  destruct (in_bitset i) eqn:E; [intros [= <-]|done]. cbn.
  assert (Hspec : ∀ j, Z.testbit (Z.setbit (bits s) i) j = true ↔
                       j = i ∨ Z.testbit (bits s) j = true).
  { intros j. rewrite Z.setbit_eqb by lia.
    rewrite orb_true_iff, Z.eqb_eq. naive_solver. }
  split_and!; [|done|done]. split; [done|]. cbn. intros j.
  rewrite Hspec. intros [->|?]; [lia|auto].
Qed.

Lemma remove_spec s i s' :
  remove s i = Ok s' →
  m_nSize s' = m_nSize s ∧ ∀ j, elem j s' ↔ elem j s ∧ j ≠ i.
Proof.
  unfold remove, elem. destruct (in_bitset i) eqn:E; [intros [= <-]|done]. cbn.
  apply in_bitset_spec in E.
  split; [done|]. intros j. rewrite Z.clearbit_eqb, andb_true_iff.
  rewrite negb_true_iff, Z.eqb_neq. naive_solver.
Qed.

(** [broadcast] sets exactly the bits in use. *)
Lemma broadcast_spec s :
  0 ≤ m_nSize s ≤ NUMBER_BITS_PER_SET →
  ∃ s', broadcast s = Ok s' ∧ m_nSize s' = m_nSize s ∧
        ∀ j, elem j s' ↔ 0 ≤ j < m_nSize s.
Proof.
  intros Hn. unfold broadcast.
  destruct (for_range_total
    (λ i r, m_nSize r = m_nSize s ∧
            ∀ j, elem j r ↔ 0 ≤ j < NUMBER_BITS_PER_SET ∧
                            (j < m_nSize s ∨ i ≤ j))
    (λ j r, remove r j) (Z.to_nat (NUMBER_BITS_PER_SET - m_nSize s))
    (m_nSize s) (mk (m_nSize s) (Z.ones NUMBER_BITS_PER_SET)))
    as (s' & Hs' & Hsz & Hel).
  - intros i r Hi [Hsz Hel].
    destruct (remove r i) as [r'|] eqn:E.
    + exists r'. destruct (remove_spec _ _ _ E) as [Hsz' Hel'].
      split; [done|split; [congruence|]]. intros j. rewrite Hel', Hel. lia.
    + unfold remove in E. destruct (in_bitset i) eqn:Ei; [done|].
      assert (in_bitset i = true) by (apply in_bitset_spec; lia). congruence.
  - split; [done|]. intros j. unfold elem. cbn.
    destruct (Z.ltb_spec j 0).
    + rewrite Z.testbit_neg_r by lia. split; [done|lia].
    + rewrite Z.testbit_ones_nonneg by lia. rewrite Z.ltb_lt. lia.
  - exists s'. split; [done|split; [done|]]. intros j. rewrite Hel. lia.
Qed.

End RubySet.
End RubySet.

(** ** [NetDest] *)

Module NetDest.

(** [m_bits]: one [Set] per machine type. *)
Notation t := (list RubySet.t) (only parsing).

Section NetDest.
  Context `{MachineTypes}.

Definition getSize (d : t) : Z := zlen d.

(** [resize()]: every [Set] is given the size of its machine type, which
    also clears it. *)
Definition resize (d : t) : result t :=
  let d := vresize RubySet.empty (MachineType_base_level MachineType_NUM) d in
  _ ← assert (zlen d =? MachineType_NUM);
  for_range 0 (length d)
    (λ i d, vupd d i (λ s, RubySet.setSize s (MachineType_base_count i))) d.

(** [NetDest()] *)
Definition make : result t := resize [].

Definition vecIndex (d : t) (m : MachineID) : result Z :=
  let vec_index := MachineType_base_level (machine_type m) in
  _ ← assert (vec_index <? zlen d);
  Ok vec_index.

Definition bitIndex (index : Z) : Z := index.

Definition add (d : t) (newElement : MachineID) : result t :=
  v ← vecIndex d newElement;
  s ← vget d v;
  _ ← assert (bitIndex (machine_num newElement) <? RubySet.getSize s);
  s' ← RubySet.add s (bitIndex (machine_num newElement));
  vset d v s'.

(** A loop over [m_bits] that combines each [Set] with the one of the
    other [NetDest] at the same index. *)
Definition combine (f : RubySet.t → RubySet.t → result RubySet.t) (d e : t)
    : result t :=
  _ ← assert (zlen d =? zlen e);
  for_range 0 (length d)
    (λ i r, s ← vget r i; o ← vget e i; s' ← f s o; vset r i s') d.

Definition addNetDest (d netDest : t) : result t :=
  combine RubySet.addSet d netDest.

Definition removeNetDest (d netDest : t) : result t :=
  combine RubySet.removeSet d netDest.

Definition setNetDest (d : t) (machine : Z) (s : RubySet.t) : result t :=
  _ ← assert (MachineType_base_level (machine + 1) -
              MachineType_base_level machine =? 1);
  vset d (MachineType_base_level machine) s.

Definition remove (d : t) (oldElement : MachineID) : result t :=
  v ← vecIndex d oldElement;
  vupd d v (λ s, RubySet.remove s (bitIndex (machine_num oldElement))).

Definition clear (d : t) : t := map RubySet.clear d.

Definition broadcast_machine (d : t) (machineType : Z) : result t :=
  for_range 0 (Z.to_nat (MachineType_base_count machineType))
    (λ i d, add d (mkMachineID machineType i)) d.

Definition broadcast (d : t) : result t :=
  for_range 0 (Z.to_nat MachineType_NUM) (λ m d, broadcast_machine d m) d.

(** [getAllDest()]: the node numbers of the elements, level by level. *)
Definition getAllDest (d : t) : result (list Z) :=
  for_range 0 (length d)
    (λ i dest,
       s ← vget d i;
       for_range 0 (Z.to_nat (RubySet.getSize s))
         (λ j dest,
            b ← RubySet.isElement s j;
            Ok (if b then dest ++ [MachineType_base_number i + j] else dest))
         dest)
    [].

Definition count (d : t) : Z := foldl (λ n s, n + RubySet.count s) 0 d.

Definition elementAt (d : t) (index : MachineID) : result bool :=
  v ← vecIndex d index;
  s ← vget d v;
  RubySet.elementAt s (bitIndex (machine_num index)).

(** The first element of one [Set], if it has one. *)
Fixpoint find_element (s : RubySet.t) (j : Z) (n : nat) : result (option Z) :=
  match n with
  | O => Ok None
  | S n' =>
      b ← RubySet.isElement s j;
      if (b : bool) then Ok (Some j) else find_element s (j + 1) n'
  end.

Fixpoint smallest_from (d : list RubySet.t) (i : Z) : result MachineID :=
  match d with
  | [] => Err Panicked
  | s :: d' =>
      o ← find_element s 0 (Z.to_nat (RubySet.getSize s));
      match o with
      | Some j => Ok (mkMachineID (MachineType_from_base_level i) j)
      | None => smallest_from d' (i + 1)
      end
  end.

Definition smallestElement (d : t) : result MachineID :=
  _ ← assert (0 <? count d);
  smallest_from d 0.

Definition smallestElement_machine (d : t) (machine : Z) : result MachineID :=
  s ← vget d (MachineType_base_level machine);
  o ← find_element s 0 (Z.to_nat (RubySet.getSize s));
  match o with
  | Some j => Ok (mkMachineID machine j)
  | None => Err Panicked
  end.

Definition isBroadcast (d : t) : bool := forallb RubySet.isBroadcast d.

Definition isEmpty (d : t) : bool := forallb RubySet.isEmpty d.

(** [OR] and [AND] fill a default-constructed [NetDest]. *)
Definition combine_into (f : RubySet.t → RubySet.t → result RubySet.t) (d e : t)
    : result t :=
  _ ← assert (zlen d =? zlen e);
  r ← make;
  for_range 0 (length d)
    (λ i r, s ← vget d i; o ← vget e i; s' ← f s o; vset r i s') r.

Definition OR (d orNetDest : t) : result t := combine_into RubySet.OR d orNetDest.

Definition AND (d andNetDest : t) : result t :=
  combine_into RubySet.AND d andNetDest.

(** [for (i ..) if (!f(m_bits[i], other.m_bits[i])) return stop; return !stop],
    over vectors the assertion has found to be of the same size. *)
Fixpoint scan (f : RubySet.t → RubySet.t → result bool) (d e : list RubySet.t)
    : result bool :=
  match d, e with
  | s :: d', o :: e' => b ← f s o; if (b : bool) then scan f d' e' else Ok false
  | _, _ => Ok true
  end.

Definition intersectionIsNotEmpty (d other_netDest : t) : result bool :=
  _ ← assert (zlen d =? zlen other_netDest);
  b ← scan (λ s o, Ok (RubySet.intersectionIsEmpty s o)) d other_netDest;
  Ok (negb b).

Definition isSuperset (d test : t) : result bool :=
  _ ← assert (zlen d =? zlen test);
  scan RubySet.isSuperset d test.

Definition isSubset (d test : t) : result bool := isSuperset test d.

Definition isEqual (d n : t) : result bool :=
  _ ← assert (zlen d =? zlen n);
  scan RubySet.isEqual d n.

Definition isElement (d : t) (element : MachineID) : result bool :=
  v ← vecIndex d element;
  s ← vget d v;
  RubySet.isElement s (bitIndex (machine_num element)).

(** *** Well-formed destinations *)

(** A destination as the constructor leaves it: one set per machine type, of
    that type's size. *)
Definition wf (d : t) : Prop :=
  zlen d = MachineType_NUM ∧
  ∀ i s, zlookup d i = Some s →
    RubySet.wf s ∧ RubySet.m_nSize s = MachineType_base_count i.

(** Machine [num] of type [ty] is a destination. *)
Definition elem (ty num : Z) (d : t) : Prop :=
  ∃ s, zlookup d ty = Some s ∧ RubySet.elem num s.

Lemma scan_false f d e :
  length d = length e →
  (∀ i s o, zlookup d i = Some s → zlookup e i = Some o → ∃ b, f s o = Ok b) →
  ∃ b, scan f d e = Ok b ∧
    (b = false ↔ ∃ i s o, zlookup d i = Some s ∧ zlookup e i = Some o ∧
                          f s o = Ok false).
Proof.
  revert e. induction d as [|s d IH]; intros [|o e] Hlen Hf; cbn in *; try lia.
  - exists true. split; [done|]. split; [done|].
    intros (i & s & o & Hs & _). by apply zlookup_Some in Hs as [_ ?].
  - destruct (Hf 0 s o) as [b Hb]; [done|done|]. rewrite Hb. cbn.
    destruct (IH e) as (r & Hr & Hspec); [lia| |].
    { intros i s' o' Hs Ho. apply zlookup_Some in Hs as [Hi Hs], Ho as [_ Ho].
      apply (Hf (i + 1)); apply zlookup_Some;
        replace (Z.to_nat (i + 1)) with (S (Z.to_nat i)) by lia;
        (split; [lia|done]). }
    destruct b; [exists r|exists false]; split; try done.
    + rewrite Hspec. split; intros (i & s' & o' & Hs & Ho & He).
      * apply zlookup_Some in Hs as [Hi Hs], Ho as [_ Ho].
        exists (i + 1), s', o'. rewrite !zlookup_Some.
        replace (Z.to_nat (i + 1)) with (S (Z.to_nat i)) by lia.
        split_and!; [lia|done|lia|done|done].
      * apply zlookup_Some in Hs as [Hi Hs], Ho as [_ Ho].
        destruct (decide (i = 0)) as [->|]; [naive_solver congruence|].
        exists (i - 1), s', o'. rewrite !zlookup_Some.
        replace (Z.to_nat i) with (S (Z.to_nat (i - 1))) in * by lia.
        cbn in *. split_and!; [lia|done|lia|done|done].
    + split; [|done]. intros _. by exists 0, s, o.
Qed.

(** The test the routing tables make: two destinations have a machine in
    common exactly when the loop over their sets finds one. *)
Lemma intersectionIsNotEmpty_spec d e :
  wf d → wf e →
  ∃ b, intersectionIsNotEmpty d e = Ok b ∧
       (b = true ↔ ∃ ty num, elem ty num d ∧ elem ty num e).
Proof.
  intros [Hd Hwd] [He Hwe]. unfold intersectionIsNotEmpty.
  rewrite Hd, He, Z.eqb_refl. cbn.
  destruct (scan_false (λ s o, Ok (RubySet.intersectionIsEmpty s o)) d e)
    as (b & Hb & Hspec); [unfold zlen in *; lia|eauto|].
  rewrite Hb. cbn. exists (negb b). split; [done|].
  rewrite negb_true_iff, Hspec. unfold elem. split.
  - intros (i & s & o & Hs & Ho & [= Hi]).
    destruct (Hwd _ _ Hs) as [Hws _], (Hwe _ _ Ho) as [Hwo _].
    apply (RubySet.intersectionIsEmpty_spec s o Hws Hwo) in Hi as (j & Hj & Hj').
    exists i, j. split; eauto.
  - intros (ty & num & (s & Hs & Hn) & (o & Ho & Hn')).
    exists ty, s, o. split_and!; [done|done|]. f_equal.
    destruct (Hwd _ _ Hs) as [Hws _], (Hwe _ _ Ho) as [Hwo _].
    apply (RubySet.intersectionIsEmpty_spec s o Hws Hwo). eauto.
Qed.

(** *** Building destinations *)

Section laws.
  Context `{!MachineTypeLaws}.

(** [NetDest()] is well formed and empty. *)
Lemma make_empty : ∃ d, make = Ok d ∧ wf d ∧ ∀ ty num, ¬ elem ty num d.
Proof.
  unfold make, resize. pose proof machine_num_pos as Hn.
  rewrite base_level_id by lia. set (n := MachineType_NUM) in *.
  assert (zlen (vresize RubySet.empty n []) = n) as Hlen.
  { unfold zlen, vresize. rewrite length_resize. lia. }
  rewrite Hlen, Z.eqb_refl. cbn [assert rbind].
  destruct (for_range_total
    (λ k d, zlen d = n ∧ ∀ i s, zlookup d i = Some s → 0 ≤ i < k →
              s = RubySet.mk (MachineType_base_count i) 0)
    (λ i d, vupd d i (λ s, RubySet.setSize s (MachineType_base_count i)))
    (length (vresize RubySet.empty n [])) 0 (vresize RubySet.empty n []))
    as (d & Hd & Hdl & Hds).
  - intros i d Hi [Hdl Hds]. fold (zlen (vresize RubySet.empty n [])) in Hi.
    rewrite Hlen in Hi. destruct (zlookup_is_Some d i) as [s Hs]; [lia|].
    eexists. split.
    + eapply vupd_intro; [done|]. unfold RubySet.setSize, fatal_if.
      assert (0 ≤ MachineType_base_count i ≤ NUMBER_BITS_PER_SET)
        by (apply base_count_range; unfold n in *; lia).
      destruct (Z.ltb_spec NUMBER_BITS_PER_SET (MachineType_base_count i)); [lia|done].
    + split; [by rewrite zlen_insert|]. intros j s'. rewrite zlookup_insert by lia.
      case_decide; [intros [= <-] _; by subst|]. intros Hj Hr. apply (Hds j); [done|lia].
  - split; [done|]. intros; lia.
  - exists d. split; [done|]. fold (zlen (vresize RubySet.empty n [])) in Hds.
    rewrite Hlen in Hds.
    assert (∀ i s, zlookup d i = Some s → s = RubySet.mk (MachineType_base_count i) 0) as Hz.
    { intros i s Hs. apply Hds; [done|]. pose proof (zlookup_lt _ _ _ Hs). lia. }
    split; [split; [done|]|].
    + intros i s Hs. pose proof (zlookup_lt _ _ _ Hs). rewrite (Hz i s Hs).
      assert (0 ≤ MachineType_base_count i ≤ NUMBER_BITS_PER_SET)
        by (apply base_count_range; unfold n in *; lia). split; [|done]. split; [done|].
      cbn. intros j. by rewrite Z.bits_0.
    + intros ty num (s & Hs & He). rewrite (Hz ty s Hs) in He. unfold RubySet.elem in He.
      cbn in He. by rewrite Z.bits_0 in He.
Qed.

(** [add] adds exactly its argument. *)
Lemma add_spec d ty num :
  wf d → 0 ≤ ty < MachineType_NUM → 0 ≤ num < MachineType_base_count ty →
  ∃ d', add d (mkMachineID ty num) = Ok d' ∧ wf d' ∧
        ∀ ty' num', elem ty' num' d' ↔ (ty' = ty ∧ num' = num) ∨ elem ty' num' d.
Proof.
  intros [Hl Hs] Hty Hnum. unfold add, vecIndex, bitIndex. cbn [machine_type machine_num].
  rewrite base_level_id by lia. destruct (Z.ltb_spec ty (zlen d)); [|lia]. cbn [assert rbind].
  destruct (zlookup_is_Some d ty) as [s Hd]; [lia|]. rewrite (proj2 (vget_Ok _ _ _) Hd).
  cbn [rbind]. destruct (Hs _ _ Hd) as [Hw Hsz]. unfold RubySet.getSize. rewrite Hsz.
  destruct (Z.ltb_spec num (MachineType_base_count ty)); [|lia]. cbn [assert rbind].
  destruct (RubySet.add s num) as [s'|] eqn:Ha.
  2:{ unfold RubySet.add in Ha. assert (RubySet.in_bitset num = true) as Hb.
      { apply RubySet.in_bitset_spec. destruct Hw. lia. } by rewrite Hb in Ha. }
  cbn [rbind]. destruct (RubySet.add_wf s num s') as (Hw' & Hsz' & He'); [done|lia|done|].
  exists (<[Z.to_nat ty := s']> d). split; [apply vset_Ok; split; [lia|done]|]. split.
  - split; [by rewrite zlen_insert|]. intros i x. rewrite zlookup_insert by lia.
    case_decide; [intros [= <-]; subst; split; [done|congruence]|apply Hs].
  - intros ty' num'. unfold elem. rewrite zlookup_insert by lia. case_decide; subst.
    + split.
      * intros (x & [= <-] & Hx). apply He' in Hx as [->|Hx]; [by left|right; by exists s].
      * intros [[_ ->]|(x & Hx & Hn)]; exists s'; (split; [done|]); apply He'; [by left|right].
        congruence.
    + naive_solver.
Qed.

End laws.

End NetDest.
End NetDest.

(** ** A protocol with two machine types

    Two controllers of each type, as in a system of two routers under the
    synthetic protocol: the concrete instance the examples are run on. *)

Module ExampleMachines.

Definition machines : MachineTypes := {|
  MachineType_NUM := 2;
  MachineType_base_level t := t;
  MachineType_base_number t := 2 * t;
  MachineType_base_count t := 2;
  MachineType_from_base_level t := t;
  NUMBER_BITS_PER_SET := 64;
|}.

Lemma machines_laws : @MachineTypeLaws machines.
Proof. constructor; cbn; lia. Qed.

(** The destination that names controller [num] of type [ty] alone. *)
Definition dest (ty num : Z) : NetDest.t :=
  (λ t, RubySet.mk 2 (if (t =? ty) then Z.shiftl 1 num else 0)) <$> [0; 1].

End ExampleMachines.
