(* ===== verification/IntMath.v ===== *)
(** * Integer and single-precision arithmetic

    [base/intmath.hh]: [floorLog2], [ceilLog2], [isPowerOf2] and [divCeil].
    The network code calls [divCeil] both on integers and, through casts, on
    [float]s ([flit::serialize], [NetworkInterface::flitisizeMessage]), so the
    second part models IEEE single precision: a [float] that is neither zero nor
    special is [m * 2^e] with [|m| <= 2^24], and every operation is the exact
    result rounded to nearest, ties to even.  Widths and message sizes keep the
    exponents far from the overflow and subnormal ranges, which are left out. *)

From S2P Require Import Prelude.

(** ** Integers *)

(** One [if (ux & mask) { y += sh; ux >>= sh; }] of [floorLog2]. *)
Definition log2_step (sh mask : Z) (st : Z * Z) : Z * Z :=
  let '(y, ux) := st in
  if Z.land ux mask =? 0 then (y, ux) else (y + sh, Z.shiftr ux sh).

(** [floorLog2] of a value of a type of [ts] bytes. *)
Definition floorLog2 (ts x : Z) : result Z :=
  _ ← assert (0 <? x);
  let ux := x in
  let st := (0, ux) in
  let st := if 8 <=? ts then log2_step 32 0xffffffff00000000 st else st in
  let st := if 4 <=? ts then log2_step 16 0x00000000ffff0000 st else st in
  let st := if 2 <=? ts then log2_step 8 0x000000000000ff00 st else st in
  let st := log2_step 4 0x00000000000000f0 st in
  let st := log2_step 2 0x000000000000000c st in
  let '(y, ux) := st in
  Ok (if Z.land ux 0x0000000000000002 =? 0 then y else y + 1).

Definition ceilLog2 (ts n : Z) : result Z :=
  _ ← assert (0 <? n);
  if n =? 1 then Ok 0
  else y ← floorLog2 ts (n - 1); Ok (y + 1).

(** [n && !(n & (n - 1))] on an unsigned value. *)
Definition isPowerOf2 (n : Z) : bool :=
  negb (n =? 0) && (Z.land n (n - 1) =? 0).

(** [divCeil(a, b)] on unsigned integers: [(a + b - 1) / b]. *)
Definition divCeil (a b : Z) : Z := (a + b - 1) / b.

(** ** Single-precision floats *)

Record f32 := mkF32 { mant : Z; expo : Z }.

(** [num / den] in units of [2^e]. *)
Definition scaled (num den e : Z) : Z * Z :=
  if 0 <=? e then (num, den * 2 ^ e) else (num * 2 ^ (- e), den).

(** The exponent that puts the quotient in [2^23 .. 2^24). *)
Definition quot_exp (num den : Z) : Z :=
  let e := Z.log2 num - Z.log2 den - 23 in
  let '(n, d) := scaled num den e in
  if n <? d * 2 ^ 23 then e - 1 else e.

(** [n / d] rounded to the nearest integer, ties to even. *)
Definition rne (n d : Z) : Z :=
  let q := n / d in
  let r := n mod d in
  if 2 * r <? d then q
  else if d <? 2 * r then q + 1
  else if Z.even q then q else q + 1.

Definition round_pos (num den : Z) : f32 :=
  if num =? 0 then mkF32 0 0
  else
    let e := quot_exp num den in
    let '(n, d) := scaled num den e in
    mkF32 (rne n d) e.

(** The float nearest to [num / den], [den > 0]. *)
Definition round_f32 (num den : Z) : f32 :=
  if num <? 0 then
    let f := round_pos (- num) den in mkF32 (- mant f) (expo f)
  else round_pos num den.

Definition f32_of_Z (z : Z) : f32 := round_f32 z 1.

(** The exact value of [num * 2^e], rounded. *)
Definition round_dyadic (num e : Z) : f32 :=
  if 0 <=? e then round_f32 (num * 2 ^ e) 1 else round_f32 num (2 ^ (- e)).

Definition f32_add (a b : f32) : f32 :=
  let e := Z.min (expo a) (expo b) in
  round_dyadic (mant a * 2 ^ (expo a - e) + mant b * 2 ^ (expo b - e)) e.

Definition f32_sub (a b : f32) : f32 :=
  let e := Z.min (expo a) (expo b) in
  round_dyadic (mant a * 2 ^ (expo a - e) - mant b * 2 ^ (expo b - e)) e.

(** Division by a positive float. *)
Definition f32_div (a b : f32) : f32 :=
  let e := Z.min (expo a) (expo b) in
  round_f32 (mant a * 2 ^ (expo a - e)) (mant b * 2 ^ (expo b - e)).

(** [floor(f)] and [ceil(f)]. *)
Definition f32_floor (f : f32) : Z :=
  if 0 <=? expo f then mant f * 2 ^ expo f else mant f / 2 ^ (- expo f).

Definition f32_ceil (f : f32) : Z := - f32_floor (mkF32 (- mant f) (expo f)).

(** [(int)f]: truncation towards zero. *)
Definition f32_trunc (f : f32) : Z :=
  if mant f <? 0 then f32_ceil f else f32_floor f.

(** [(int)divCeil((float)a, (float)b)] *)
Definition divCeil_f32 (a b : Z) : Z :=
  let fa := f32_of_Z a in
  let fb := f32_of_Z b in
  f32_trunc (f32_div (f32_sub (f32_add fa fb) (f32_of_Z 1)) fb).

(** [ceil((float)a / (float)b)] and [floor((float)a / (float)b)] *)
Definition ceil_div_f32 (a b : Z) : Z :=
  f32_ceil (f32_div (f32_of_Z a) (f32_of_Z b)).

Definition floor_div_f32 (a b : Z) : Z :=
  f32_floor (f32_div (f32_of_Z a) (f32_of_Z b)).

(** ** Integer facts *)

Lemma divCeil_spec a b q :
  0 < b → divCeil a b = q ↔ (q - 1) * b < a ≤ q * b.
Proof.
  intros Hb. unfold divCeil.
  pose proof (Z.div_mod (a + b - 1) b ltac:(lia)).
  pose proof (Z.mod_pos_bound (a + b - 1) b Hb). split.
  - intros <-. nia.
  - intros [? ?].
    assert ((a + b - 1) / b < q + 1) by nia.
    assert (q - 1 < (a + b - 1) / b) by nia. lia.
Qed.

Lemma divCeil_mul_ge a b : 0 < b → a ≤ divCeil a b * b < a + b.
Proof.
  intros Hb. pose proof (proj1 (divCeil_spec a b _ Hb) eq_refl). nia.
Qed.

Lemma divCeil_pos a b : 0 < b → 0 < a → 0 < divCeil a b.
Proof. intros Hb Ha. pose proof (divCeil_mul_ge a b Hb). nia. Qed.

(** A bit test against the upper half of a [2 * k]-bit value. *)
Lemma land_upper_zero ux k :
  0 ≤ k → 0 ≤ ux < 2 ^ (2 * k) →
  Z.land ux (2 ^ (2 * k) - 2 ^ k) = 0 ↔ ux < 2 ^ k.
Proof.
  intros Hk Hux.
  replace (2 ^ (2 * k) - 2 ^ k) with (Z.shiftl (Z.ones k) k)
    by (rewrite Z.shiftl_mul_pow2, Z.ones_equiv by lia;
        replace (2 * k) with (k + k) by lia; rewrite Z.pow_add_r by lia; nia).
  split.
  - intros Hz. destruct (Z.lt_ge_cases ux (2 ^ k)) as [|Hge]; [done|exfalso].
    assert (0 < ux) by lia.
    assert (k ≤ Z.log2 ux) by (apply Z.log2_le_pow2; lia).
    assert (Z.log2 ux < 2 * k) by (apply Z.log2_lt_pow2; lia).
    assert (Z.testbit (Z.land ux (Z.shiftl (Z.ones k) k)) (Z.log2 ux) = true)
      as Ht.
    { rewrite Z.land_spec, Z.bit_log2, Z.shiftl_spec by lia.
      rewrite Z.testbit_ones_nonneg by lia. cbn. apply Z.ltb_lt. lia. }
    rewrite Hz, Z.bits_0 in Ht. done.
  - intros Hlt. apply Z.bits_inj'. intros i Hi.
    rewrite Z.bits_0, Z.land_spec, Z.shiftl_spec by lia.
    destruct (Z.ltb_spec i k).
    + rewrite (Z.testbit_neg_r (Z.ones k)) by lia. apply andb_false_r.
    + destruct (decide (ux = 0)) as [->|]; [by rewrite Z.bits_0|].
      assert (Z.log2 ux < k) by (apply Z.log2_lt_pow2; lia).
      by rewrite Z.bits_above_log2 by lia.
Qed.

(** One step keeps [y + log2 ux] and halves the width of [ux]. *)
Lemma log2_step_spec k mask y ux y' ux' :
  0 < k → mask = 2 ^ (2 * k) - 2 ^ k →
  0 < ux < 2 ^ (2 * k) → log2_step k mask (y, ux) = (y', ux') →
  0 < ux' < 2 ^ k ∧ y' + Z.log2 ux' = y + Z.log2 ux.
Proof.
  intros Hk -> Hux. unfold log2_step.
  destruct (Z.eqb_spec (Z.land ux (2 ^ (2 * k) - 2 ^ k)) 0) as [Hz|Hnz];
    intros [= <- <-].
  - apply land_upper_zero in Hz; lia.
  - assert (2 ^ k ≤ ux).
    { destruct (Z.lt_ge_cases ux (2 ^ k)) as [Hlt|]; [|done].
      apply land_upper_zero in Hlt; lia. }
    assert (k ≤ Z.log2 ux) by (apply Z.log2_le_pow2; lia).
    rewrite Z.log2_shiftr, Z.max_r by lia.
    split; [|lia]. rewrite Z.shiftr_div_pow2 by lia.
    assert (0 < 2 ^ k) by (apply Z.pow_pos_nonneg; lia).
    split; [apply Z.div_str_pos; lia|].
    apply Z.div_lt_upper_bound; [lia|].
    rewrite <- Z.pow_add_r by lia. replace (k + k) with (2 * k) by lia. lia.
Qed.

Lemma log2_small ux : 0 < ux < 4 → Z.log2 ux = if Z.land ux 2 =? 0 then 0 else 1.
Proof.
  intros Hux. assert (ux = 1 ∨ ux = 2 ∨ ux = 3) as [->|[->| ->]] by lia; done.
Qed.

(** On every 64-bit value the six-step bit search is the logarithm. *)
Lemma floorLog2_64 x : 0 < x < 2 ^ 64 → floorLog2 8 x = Ok (Z.log2 x).
Proof.
  intros Hx. unfold floorLog2.
  replace (0 <? x) with true by (symmetry; apply Z.ltb_lt; lia).
  cbn [assert rbind Z.leb Z.compare Pos.compare Pos.compare_cont].
  destruct (log2_step 32 _ (0, x)) as [y1 u1] eqn:E1.
  apply log2_step_spec in E1 as [H1 L1]; [|lia|done|exact Hx].
  destruct (log2_step 16 _ (y1, u1)) as [y2 u2] eqn:E2.
  apply log2_step_spec in E2 as [H2 L2]; [|lia|done|exact H1].
  destruct (log2_step 8 _ (y2, u2)) as [y3 u3] eqn:E3.
  apply log2_step_spec in E3 as [H3 L3]; [|lia|done|exact H2].
  destruct (log2_step 4 _ (y3, u3)) as [y4 u4] eqn:E4.
  apply log2_step_spec in E4 as [H4 L4]; [|lia|done|exact H3].
  destruct (log2_step 2 _ (y4, u4)) as [y5 u5] eqn:E5.
  apply log2_step_spec in E5 as [H5 L5]; [|lia|done|exact H4].
  pose proof (log2_small u5 H5) as L6. f_equal.
  destruct (Z.land u5 2 =? 0); lia.
Qed.

(** ** Rounding facts *)

Lemma scaled_pos num den e n d :
  0 < num → 0 < den → scaled num den e = (n, d) → 0 < n ∧ 0 < d.
Proof.
  unfold scaled. intros Hn Hd. destruct (Z.leb_spec 0 e); intros [= <- <-].
  - assert (0 < 2 ^ e) by (apply Z.pow_pos_nonneg; lia). nia.
  - assert (0 < 2 ^ (- e)) by (apply Z.pow_pos_nonneg; lia). nia.
Qed.

(** A quotient below [2^24] gets an exponent that is not positive, and is
    scaled to at least [2^23]. *)
Lemma quot_exp_small num den :
  0 < num → 0 < den → num < den * 2 ^ 24 →
  quot_exp num den ≤ 0 ∧
  den * 2 ^ 23 ≤ num * 2 ^ (- quot_exp num den).
Proof.
  intros Hn Hd Hlt. unfold quot_exp.
  set (a := Z.log2 num). set (b := Z.log2 den).
  assert (2 ^ a ≤ num < 2 ^ (Z.succ a)) as Ha by (apply Z.log2_spec; lia).
  assert (2 ^ b ≤ den < 2 ^ (Z.succ b)) as Hb by (apply Z.log2_spec; lia).
  assert (0 ≤ a) by apply Z.log2_nonneg. assert (0 ≤ b) by apply Z.log2_nonneg.
  rewrite !Z.pow_succ_r in * by lia.
  assert (a - b - 23 ≤ 1) as He.
  { destruct (Z.le_gt_cases (a - b - 23) 1) as [|Hgt]; [done|exfalso].
    assert (2 ^ (b + 25) ≤ 2 ^ a) by (apply Z.pow_le_mono_r; lia).
    rewrite Z.pow_add_r in * by lia. nia. }
  unfold scaled. destruct (Z.leb_spec 0 (a - b - 23)) as [Hpos|Hneg].
  - assert (a - b - 23 = 0 ∨ a - b - 23 = 1) as [E|E] by lia; rewrite E.
    + destruct (Z.ltb_spec num (den * 2 ^ 0 * 2 ^ 23)); cbn [Z.opp Z.sub];
        [split; [lia|]|split; lia].
      assert (2 ^ (b + 23) ≤ 2 ^ a) by (apply Z.pow_le_mono_r; lia).
      rewrite Z.pow_add_r in * by lia. change (- (0 - 1)) with 1. nia.
    + destruct (Z.ltb_spec num (den * 2 ^ 1 * 2 ^ 23)); [|lia].
      change (- (1 - 1)) with 0. split; [lia|].
      assert (2 ^ (b + 24) ≤ 2 ^ a) by (apply Z.pow_le_mono_r; lia).
      rewrite Z.pow_add_r in * by lia. nia.
  - destruct (Z.ltb_spec (num * 2 ^ (- (a - b - 23))) (den * 2 ^ 23)).
    + split; [lia|].
      replace (- (a - b - 23 - 1)) with (Z.succ (- (a - b - 23))) by lia.
      rewrite Z.pow_succ_r by lia.
      assert (2 ^ b * 2 ^ 23 = 2 ^ a * 2 ^ (- (a - b - 23)))
        by (rewrite <- !Z.pow_add_r by lia; f_equal; lia).
      assert (0 < 2 ^ (- (a - b - 23))) by (apply Z.pow_pos_nonneg; lia). nia.
    + split; [lia|done].
Qed.

Lemma round_pos_eq num den :
  0 < num → 0 < den → num < den * 2 ^ 24 →
  round_pos num den =
    mkF32 (rne (num * 2 ^ (- quot_exp num den)) den) (quot_exp num den).
Proof.
  intros Hn Hd Hlt. destruct (quot_exp_small num den Hn Hd Hlt) as [He _].
  unfold round_pos. destruct (Z.eqb_spec num 0); [lia|].
  unfold scaled. destruct (Z.leb_spec 0 (quot_exp num den)); [|done].
  assert (quot_exp num den = 0) as -> by lia.
  change (2 ^ 0) with 1. by rewrite Z.mul_1_r, Z.mul_1_r.
Qed.

Lemma rne_bounds n d :
  0 < d → 2 * n - d ≤ 2 * d * rne n d ≤ 2 * n + d.
Proof.
  intros Hd. unfold rne.
  pose proof (Z.div_mod n d ltac:(lia)). pose proof (Z.mod_pos_bound n d Hd).
  destruct (Z.ltb_spec (2 * (n mod d)) d); [nia|].
  destruct (Z.ltb_spec d (2 * (n mod d))); [nia|].
  destruct (Z.even (n / d)); nia.
Qed.

Lemma pow2_pos k : 0 ≤ k → 0 < 2 ^ k.
Proof. intros. apply Z.pow_pos_nonneg; lia. Qed.

(** [f] is the integer [z], exactly. *)
Definition f32_is (f : f32) (z : Z) : Prop :=
  expo f ≤ 0 ∧ mant f = z * 2 ^ (- expo f).

Lemma f32_is_0 : f32_is (mkF32 0 0) 0.
Proof. split; cbn; lia. Qed.

(** Integers below [2^24] are represented exactly. *)
Lemma round_f32_exact s d :
  0 ≤ s < 2 ^ 24 → 0 < d → f32_is (round_f32 (s * d) d) s.
Proof.
  intros Hs Hd. unfold round_f32. destruct (Z.ltb_spec (s * d) 0); [nia|].
  destruct (decide (s = 0)) as [->|Hne]; [apply f32_is_0|].
  rewrite round_pos_eq by nia.
  destruct (quot_exp_small (s * d) d) as [He _]; [nia|lia|nia|].
  split; cbn; [done|].
  set (k := - quot_exp (s * d) d). assert (0 < 2 ^ k) by (apply pow2_pos; lia).
  pose proof (rne_bounds (s * d * 2 ^ k) d Hd). nia.
Qed.

Lemma f32_of_Z_exact z : 0 ≤ z < 2 ^ 24 → f32_is (f32_of_Z z) z.
Proof.
  intros Hz. unfold f32_of_Z. rewrite <- (Z.mul_1_r z) at 1.
  by apply round_f32_exact.
Qed.

Lemma round_dyadic_exact s e :
  0 ≤ s < 2 ^ 24 → e ≤ 0 → f32_is (round_dyadic (s * 2 ^ (- e)) e) s.
Proof.
  intros Hs He. unfold round_dyadic. destruct (Z.leb_spec 0 e).
  - assert (e = 0) as -> by lia. cbn. rewrite !Z.mul_1_r.
    rewrite <- (Z.mul_1_r s) at 1. by apply round_f32_exact.
  - apply round_f32_exact; [done|]. apply pow2_pos; lia.
Qed.

(** Both operands brought to the smaller exponent. *)
Lemma f32_is_align f x e :
  f32_is f x → e ≤ expo f → mant f * 2 ^ (expo f - e) = x * 2 ^ (- e).
Proof.
  intros [He ->] Hle. rewrite <- Z.mul_assoc, <- Z.pow_add_r by lia.
  do 2 f_equal. lia.
Qed.

Lemma f32_add_exact a b x y :
  f32_is a x → f32_is b y → 0 ≤ x + y < 2 ^ 24 → f32_is (f32_add a b) (x + y).
Proof.
  intros Ha Hb Hs. unfold f32_add.
  rewrite (f32_is_align a x), (f32_is_align b y) by (done || lia).
  rewrite <- Z.mul_add_distr_r. apply round_dyadic_exact; [done|].
  destruct Ha. lia.
Qed.

Lemma f32_sub_exact a b x y :
  f32_is a x → f32_is b y → 0 ≤ x - y < 2 ^ 24 → f32_is (f32_sub a b) (x - y).
Proof.
  intros Ha Hb Hs. unfold f32_sub.
  rewrite (f32_is_align a x), (f32_is_align b y) by (done || lia).
  rewrite <- Z.mul_sub_distr_r. apply round_dyadic_exact; [done|].
  destruct Ha. lia.
Qed.

(** The rounded quotient of integers below [2^24] lies strictly between the
    same integers as the exact one. *)
Lemma round_quotient n d p q :
  0 < n < 2 ^ 24 → 0 < d → 0 < p →
  let k := - quot_exp (n * p) (d * p) in
  let m := rne (n * p * 2 ^ k) (d * p) in
  (q * d ≤ n → q * 2 ^ k ≤ m) ∧ (n < q * d → m < q * 2 ^ k) ∧
  (n ≤ q * d → m ≤ q * 2 ^ k) ∧ (q * d < n → q * 2 ^ k < m) ∧ 0 ≤ k.
Proof.
  intros Hn Hd Hp k m.
  destruct (quot_exp_small (n * p) (d * p)) as [He Hlow]; [nia|nia|nia|].
  assert (Hk : 0 < 2 ^ k) by (apply pow2_pos; lia).
  pose proof (rne_bounds (n * p * 2 ^ k) (d * p) ltac:(nia)) as Hm.
  fold m in Hm. fold k in Hlow.
  assert (2 * n * 2 ^ k - d ≤ 2 * d * m ≤ 2 * n * 2 ^ k + d) as Hm'.
  { split; apply (Z.mul_le_mono_pos_r _ _ p Hp); lia. }
  assert (d * 2 ^ 23 ≤ n * 2 ^ k) as Hl'.
  { apply (Z.mul_le_mono_pos_r _ _ p Hp). lia. }
  assert (0 ≤ k) by lia.
  clearbody m. clear Hm Hlow. generalize dependent (2 ^ k). intros w Hk Hm Hl'.
  assert (d < 2 * w) as Hdk by nia.
  split_and!; [nia|nia|nia|nia|done].
Qed.

Lemma f32_floor_nonpos m e : e ≤ 0 → f32_floor (mkF32 m e) = m / 2 ^ (- e).
Proof.
  intros He. unfold f32_floor. cbn. destruct (Z.leb_spec 0 e); [|done].
  assert (e = 0) as -> by lia. cbn. by rewrite Z.mul_1_r, Z.div_1_r.
Qed.

(** The quotient of two floats that are integers, in lowest exponent. *)
Lemma f32_div_eq a b x y :
  f32_is a x → f32_is b y → 0 < x < 2 ^ 24 → 0 < y →
  ∃ p, 0 < p ∧ f32_div a b =
    mkF32 (rne (x * p * 2 ^ (- quot_exp (x * p) (y * p))) (y * p))
          (quot_exp (x * p) (y * p)).
Proof.
  intros Ha Hb Hx Hy. exists (2 ^ (- Z.min (expo a) (expo b))).
  assert (0 < 2 ^ (- Z.min (expo a) (expo b)))
    by (apply pow2_pos; destruct Ha; lia).
  split; [done|]. unfold f32_div.
  rewrite (f32_is_align a x), (f32_is_align b y) by (done || lia).
  set (p := 2 ^ (- Z.min (expo a) (expo b))) in *. unfold round_f32.
  destruct (Z.ltb_spec (x * p) 0); [nia|]. apply round_pos_eq; nia.
Qed.

Lemma f32_div_0 a b y : f32_is a 0 → f32_is b y → 0 < y → f32_div a b = mkF32 0 0.
Proof.
  intros Ha Hb Hy. unfold f32_div.
  rewrite (f32_is_align a 0), (f32_is_align b y) by (done || lia). done.
Qed.

Lemma f32_div_floor a b x y :
  f32_is a x → f32_is b y → 0 ≤ x < 2 ^ 24 → 0 < y →
  f32_floor (f32_div a b) = x / y.
Proof.
  intros Ha Hb Hx Hy. destruct (decide (x = 0)) as [->|].
  { by rewrite (f32_div_0 a b y). }
  destruct (f32_div_eq a b x y) as (p & Hp & ->); [done|done|lia|lia|].
  pose proof (Z.div_mod x y ltac:(lia)). pose proof (Z.mod_pos_bound x y Hy).
  destruct (round_quotient x y p (x / y)) as (Hlo & _ & _ & _ & Hk); [lia..|].
  destruct (round_quotient x y p (x / y + 1)) as (_ & Hhi & _); [lia..|].
  rewrite f32_floor_nonpos by lia.
  set (w := 2 ^ (- quot_exp (x * p) (y * p))) in *. assert (0 < w) by (apply pow2_pos; lia).
  symmetry. apply Z.div_unique_pos with (rne (x * p * w) (y * p) - w * (x / y)); nia.
Qed.

Lemma f32_div_nonneg a b x y :
  f32_is a x → f32_is b y → 0 ≤ x < 2 ^ 24 → 0 < y → 0 ≤ mant (f32_div a b).
Proof.
  intros Ha Hb Hx Hy. destruct (decide (x = 0)) as [->|].
  { by rewrite (f32_div_0 a b y). }
  destruct (f32_div_eq a b x y) as (p & Hp & ->); [done|done|lia|lia|]. cbn.
  destruct (round_quotient x y p 0) as (Hlo & _); [lia..|]. nia.
Qed.

Lemma f32_div_ceil a b x y :
  f32_is a x → f32_is b y → 0 ≤ x < 2 ^ 24 → 0 < y →
  f32_ceil (f32_div a b) = divCeil x y.
Proof.
  intros Ha Hb Hx Hy. symmetry. apply divCeil_spec; [done|].
  destruct (decide (x = 0)) as [->|].
  { rewrite (f32_div_0 a b y) by done. change (f32_ceil (mkF32 0 0)) with 0. lia. }
  destruct (f32_div_eq a b x y) as (p & Hp & ->); [done|done|lia|lia|].
  set (m := rne _ _). set (k := - quot_exp (x * p) (y * p)) in *.
  assert (0 ≤ k) as Hk
    by (destruct (round_quotient x y p 0) as (_ & _ & _ & _ & ?); lia).
  unfold f32_ceil. cbn [mant expo]. rewrite f32_floor_nonpos by lia. fold k.
  assert (0 < 2 ^ k) by (apply pow2_pos; lia).
  pose proof (Z.div_mod (- m) (2 ^ k) ltac:(lia)).
  pose proof (Z.mod_pos_bound (- m) (2 ^ k) ltac:(lia)).
  set (q := - (- m / 2 ^ k)) in *.
  destruct (round_quotient x y p (q - 1)) as (_ & _ & Hup & _); [lia..|].
  destruct (round_quotient x y p q) as (_ & _ & _ & Hlo & _); [lia..|].
  fold k in Hup, Hlo. fold m in Hup, Hlo. split.
  - destruct (Z.lt_ge_cases ((q - 1) * y) x); [done|]. specialize (Hup ltac:(lia)). nia.
  - destruct (Z.le_gt_cases x (q * y)); [done|]. specialize (Hlo ltac:(lia)). nia.
Qed.

(** On operands whose sum is below [2^24] the detour through [float] loses
    nothing. *)
Lemma divCeil_f32_exact a b :
  0 ≤ a → 0 < b → a + b < 2 ^ 24 → divCeil_f32 a b = divCeil a b.
Proof.
  intros Ha Hb Hab. unfold divCeil_f32.
  assert (Hfa : f32_is (f32_of_Z a) a) by (apply f32_of_Z_exact; lia).
  assert (Hfb : f32_is (f32_of_Z b) b) by (apply f32_of_Z_exact; lia).
  assert (Hf1 : f32_is (f32_of_Z 1) 1) by (apply f32_of_Z_exact; lia).
  pose proof (f32_add_exact _ _ _ _ Hfa Hfb ltac:(lia)) as Hs.
  pose proof (f32_sub_exact _ _ _ _ Hs Hf1 ltac:(lia)) as Hn.
  pose proof (f32_div_nonneg _ _ _ _ Hn Hfb ltac:(lia) Hb) as Hpos.
  unfold f32_trunc. destruct (Z.ltb_spec (mant (f32_div
    (f32_sub (f32_add (f32_of_Z a) (f32_of_Z b)) (f32_of_Z 1)) (f32_of_Z b))) 0);
    [lia|].
  by rewrite (f32_div_floor _ _ (a + b - 1) b) by (done || lia).
Qed.

Lemma ceil_div_f32_exact a b :
  0 ≤ a < 2 ^ 24 → 0 < b < 2 ^ 24 → ceil_div_f32 a b = divCeil a b.
Proof.
  intros Ha Hb. apply f32_div_ceil; try apply f32_of_Z_exact; lia.
Qed.

Lemma floor_div_f32_exact a b :
  0 ≤ a < 2 ^ 24 → 0 < b < 2 ^ 24 → floor_div_f32 a b = a / b.
Proof.
  intros Ha Hb. apply f32_div_floor; try apply f32_of_Z_exact; lia.
Qed.
