(* ===== verification/Flit.v ===== *)
(** * Flits, credits and flit buffers

    [garnet/CommonTypes.hh], [garnet/flit.{hh,cc}], [garnet/Credit.{hh,cc}]
    and [garnet/flitBuffer.{hh,cc}].

    A [flit] is owned by exactly one queue at a time, so the model passes it by
    value.  [Credit] derives from [flit] and adds [m_is_free_signal]: the field
    is [None] in a plain flit, and reading it through the [(Credit* )] casts of
    the code is undefined there.  The constructor of [flit] leaves [m_outport]
    and [src_delay] uninitialised; both are [None] until they are set. *)

From S2P Require Import Prelude.
From S2P Require Import IntMath.
From S2P Require Import NetDest.

(** [Tick] and [Cycles] are 64-bit unsigned counters. *)
Notation Tick := Z (only parsing).
Notation Cycles := Z (only parsing).

Inductive flit_type := HEAD_ | BODY_ | TAIL_ | HEAD_TAIL_ | CREDIT_.
Inductive VC_state_type := IDLE_ | VC_AB_ | ACTIVE_.
Inductive VNET_type := CTRL_VNET_ | DATA_VNET_ | NULL_VNET_.
Inductive flit_stage := I_ | VA_ | SA_ | ST_ | LT_.
Inductive link_type := EXT_IN_ | EXT_OUT_ | INT_ | NUM_LINK_TYPES_.

#[export] Instance flit_type_eq_dec : EqDecision flit_type.
Proof. solve_decision. Defined.
#[export] Instance VC_state_type_eq_dec : EqDecision VC_state_type.
Proof. solve_decision. Defined.
#[export] Instance VNET_type_eq_dec : EqDecision VNET_type.
Proof. solve_decision. Defined.
#[export] Instance flit_stage_eq_dec : EqDecision flit_stage.
Proof. solve_decision. Defined.
#[export] Instance link_type_eq_dec : EqDecision link_type.
Proof. solve_decision. Defined.

(** [t == TAIL_ || t == HEAD_TAIL_] and [t == HEAD_ || t == HEAD_TAIL_] *)
Definition is_tail (t : flit_type) : bool :=
  bool_decide (t = TAIL_) || bool_decide (t = HEAD_TAIL_).
Definition is_head (t : flit_type) : bool :=
  bool_decide (t = HEAD_) || bool_decide (t = HEAD_TAIL_).

Record RouteInfo := mkRoute {
  vnet : Z;
  net_dest : NetDest.t;
  src_ni : Z;
  src_router : Z;
  dest_ni : Z;
  dest_router : Z;
  hops_traversed : Z;
  last_flit : bool;
  network_idx : Z;
  input_idx : Z;
  phase_id : Z;
}.

(** [RouteInfo()], given the default-constructed [net_dest]. *)
Definition RouteInfo0 (nd : NetDest.t) : RouteInfo :=
  mkRoute 0 nd 0 0 0 0 0 false 0 0 0.

(** A [MsgPtr] is null or designates a message shared by its holders. *)
Definition MsgPtr := option nat.

(** ** [flit] *)

Record flit := mkFlit {
  flit_m_width : Z;
  flit_msgSize : Z;
  flit_m_packet_id : Z;
  flit_m_id : Z;
  flit_m_vnet : Z;
  flit_m_vc : Z;
  flit_m_route : RouteInfo;
  flit_m_size : Z;
  flit_m_enqueue_time : Tick;
  flit_m_dequeue_time : Tick;
  flit_m_time : Tick;
  flit_m_type : flit_type;
  flit_m_msg_ptr : MsgPtr;
  flit_m_outport : option Z;
  flit_src_delay : option Tick;
  flit_m_stage : flit_stage * Tick;
  flit_m_is_free_signal : option bool;
}.

(** The flit type chosen by the constructor. *)
Definition type_of (id size : Z) : flit_type :=
  if size =? 1 then HEAD_TAIL_
  else if id =? 0 then HEAD_
  else if id =? size - 1 then TAIL_
  else BODY_.

(** [flit(packet_id, id, vc, vnet, route, size, msg_ptr, MsgSize, bWidth,
    curTime)] *)
Definition new_flit (packet_id id vc vnet : Z) (route : RouteInfo) (size : Z)
    (msg_ptr : MsgPtr) (MsgSize bWidth : Z) (curTime : Tick) : flit :=
  mkFlit bWidth MsgSize packet_id id vnet vc route size curTime curTime curTime
    (type_of id size) msg_ptr None None (I_, curTime) None.

Definition set_outport (f : flit) (port : Z) : flit :=
  mkFlit (flit_m_width f) (flit_msgSize f) (flit_m_packet_id f) (flit_m_id f)
    (flit_m_vnet f) (flit_m_vc f) (flit_m_route f) (flit_m_size f)
    (flit_m_enqueue_time f) (flit_m_dequeue_time f) (flit_m_time f)
    (flit_m_type f) (flit_m_msg_ptr f) (Some port) (flit_src_delay f)
    (flit_m_stage f) (flit_m_is_free_signal f).

Definition set_time (f : flit) (time : Tick) : flit :=
  mkFlit (flit_m_width f) (flit_msgSize f) (flit_m_packet_id f) (flit_m_id f)
    (flit_m_vnet f) (flit_m_vc f) (flit_m_route f) (flit_m_size f)
    (flit_m_enqueue_time f) (flit_m_dequeue_time f) (time) (flit_m_type f)
    (flit_m_msg_ptr f) (flit_m_outport f) (flit_src_delay f) (flit_m_stage f)
    (flit_m_is_free_signal f).

Definition set_vc (f : flit) (vc : Z) : flit :=
  mkFlit (flit_m_width f) (flit_msgSize f) (flit_m_packet_id f) (flit_m_id f)
    (flit_m_vnet f) (vc) (flit_m_route f) (flit_m_size f)
    (flit_m_enqueue_time f) (flit_m_dequeue_time f) (flit_m_time f)
    (flit_m_type f) (flit_m_msg_ptr f) (flit_m_outport f) (flit_src_delay f)
    (flit_m_stage f) (flit_m_is_free_signal f).

Definition set_route (f : flit) (route : RouteInfo) : flit :=
  mkFlit (flit_m_width f) (flit_msgSize f) (flit_m_packet_id f) (flit_m_id f)
    (flit_m_vnet f) (flit_m_vc f) (route) (flit_m_size f)
    (flit_m_enqueue_time f) (flit_m_dequeue_time f) (flit_m_time f)
    (flit_m_type f) (flit_m_msg_ptr f) (flit_m_outport f) (flit_src_delay f)
    (flit_m_stage f) (flit_m_is_free_signal f).

Definition set_src_delay (f : flit) (delay : Tick) : flit :=
  mkFlit (flit_m_width f) (flit_msgSize f) (flit_m_packet_id f) (flit_m_id f)
    (flit_m_vnet f) (flit_m_vc f) (flit_m_route f) (flit_m_size f)
    (flit_m_enqueue_time f) (flit_m_dequeue_time f) (flit_m_time f)
    (flit_m_type f) (flit_m_msg_ptr f) (flit_m_outport f) (Some delay)
    (flit_m_stage f) (flit_m_is_free_signal f).

Definition set_dequeue_time (f : flit) (time : Tick) : flit :=
  mkFlit (flit_m_width f) (flit_msgSize f) (flit_m_packet_id f) (flit_m_id f)
    (flit_m_vnet f) (flit_m_vc f) (flit_m_route f) (flit_m_size f)
    (flit_m_enqueue_time f) (time) (flit_m_time f) (flit_m_type f)
    (flit_m_msg_ptr f) (flit_m_outport f) (flit_src_delay f) (flit_m_stage f)
    (flit_m_is_free_signal f).

Definition set_enqueue_time (f : flit) (time : Tick) : flit :=
  mkFlit (flit_m_width f) (flit_msgSize f) (flit_m_packet_id f) (flit_m_id f)
    (flit_m_vnet f) (flit_m_vc f) (flit_m_route f) (flit_m_size f) (time)
    (flit_m_dequeue_time f) (flit_m_time f) (flit_m_type f) (flit_m_msg_ptr f)
    (flit_m_outport f) (flit_src_delay f) (flit_m_stage f)
    (flit_m_is_free_signal f).

Definition advance_stage (f : flit) (t_stage : flit_stage) (newTime : Tick) : flit :=
  mkFlit (flit_m_width f) (flit_msgSize f) (flit_m_packet_id f) (flit_m_id f)
    (flit_m_vnet f) (flit_m_vc f) (flit_m_route f) (flit_m_size f)
    (flit_m_enqueue_time f) (flit_m_dequeue_time f) (flit_m_time f)
    (flit_m_type f) (flit_m_msg_ptr f) (flit_m_outport f) (flit_src_delay f)
    (t_stage, newTime) (flit_m_is_free_signal f).

Definition increment_hops (f : flit) : flit :=
  let r := flit_m_route f in
  set_route f (mkRoute (vnet r) (net_dest r) (src_ni r) (src_router r)
    (dest_ni r) (dest_router r) (hops_traversed r + 1) (last_flit r)
    (network_idx r) (input_idx r) (phase_id r)).

Definition is_stage (f : flit) (stage : flit_stage) (time : Tick) : bool :=
  bool_decide (stage = (flit_m_stage f).1) && ((flit_m_stage f).2 <=? time).

Definition greater (n1 n2 : flit) : bool :=
  if flit_m_time n1 =? flit_m_time n2 then flit_m_id n2 <? flit_m_id n1
  else flit_m_time n2 <? flit_m_time n1.

(** The flit that [serialize] and [deserialize] allocate: the enqueue time and
    the (possibly indeterminate) source delay are copied. *)
Definition reshaped (f : flit) (new_id new_size bWidth : Z) : flit :=
  let fl := new_flit (flit_m_packet_id f) new_id (flit_m_vc f) (flit_m_vnet f)
    (flit_m_route f) new_size (flit_m_msg_ptr f) (flit_msgSize f) bWidth
    (flit_m_time f) in
  let fl := set_enqueue_time fl (flit_m_enqueue_time f) in
  match flit_src_delay f with Some d => set_src_delay fl d | None => fl end.

(** ** [Credit] *)

(** [Credit(vc, is_free_signal, curTime)], given [RouteInfo()]. *)
Definition new_Credit (route0 : RouteInfo) (vc : Z) (is_free_signal : bool)
    (curTime : Tick) : flit :=
  mkFlit 0 0 0 0 0 vc route0 0 curTime curTime curTime CREDIT_ None None None
    (I_, curTime) (Some is_free_signal).

(** [((Credit* )f)->is_free_signal()] *)
Definition is_free_signal (f : flit) : result bool :=
  determinate (flit_m_is_free_signal f).

(** [serialize(ser_id, parts, bWidth)], dispatched on the dynamic type. *)
Definition serialize (f : flit) (ser_id parts bWidth : Z) : result flit :=
  match flit_m_is_free_signal f with
  | Some free =>
      let new_free := (ser_id + 1 =? parts) && free in
      Ok (new_Credit (flit_m_route f) (flit_m_vc f) new_free (flit_m_time f))
  | None =>
      _ ← assert (bWidth <? flit_m_width f);
      let ratio := divCeil (flit_m_width f) bWidth in
      let new_id := flit_m_id f * ratio + ser_id in
      let new_size := divCeil_f32 (flit_msgSize f) bWidth in
      _ ← assert (new_id <? new_size);
      Ok (reshaped f new_id new_size bWidth)
  end.

(** [deserialize(des_id, num_flits, bWidth)], dispatched on the dynamic type;
    neither version reads [des_id] or [num_flits]. *)
Definition deserialize (f : flit) (des_id num_flits bWidth : Z) : result flit :=
  match flit_m_is_free_signal f with
  | Some free =>
      if free then Ok (new_Credit (flit_m_route f) (flit_m_vc f) true (flit_m_time f))
      else Ok (new_Credit (flit_m_route f) (flit_m_vc f) false (flit_m_time f))
  | None =>
      let ratio := divCeil_f32 bWidth (flit_m_width f) in
      let new_id := divCeil_f32 (flit_m_id f + 1) ratio - 1 in
      let new_size := divCeil_f32 (flit_msgSize f) bWidth in
      _ ← assert (new_id <? new_size);
      Ok (reshaped f new_id new_size bWidth)
  end.

(** Functional accesses go to the message of the flit.  The messages are
    generated by the protocol compiler: what they do to the packet and its
    write mask is the parameter [msg_functional]. *)
Section functional.
  Context {P : Type}.
  Variable msg_functionalRead : nat → P → bool * P.
  Variable msg_functionalWrite : nat → P → bool * P.

Definition flit_functionalRead (f : flit) (p : P) : result (bool * P) :=
  m ← determinate (flit_m_msg_ptr f);
  Ok (msg_functionalRead m p).

Definition flit_functionalWrite (f : flit) (p : P) : result (bool * P) :=
  m ← determinate (flit_m_msg_ptr f);
  Ok (msg_functionalWrite m p).
End functional.

(** ** [flitBuffer] *)

Module FlitBuffer.

Record t := mk { m_buffer : list flit; max_size : Z }.

(** [flitBuffer()] and [flitBuffer(maximum_size)] *)
Definition empty : t := mk [] INFINITE_.
Definition make (maximum_size : Z) : t := mk [] maximum_size.

Definition isEmpty (b : t) : bool := zlen (m_buffer b) =? 0.

Definition peekTopFlit (b : t) : result flit := determinate (head (m_buffer b)).

Definition isReady (b : t) (curTime : Tick) : bool :=
  match m_buffer b with
  | [] => false
  | t_flit :: _ => flit_m_time t_flit <=? curTime
  end.

Definition getTopFlit (b : t) : result (flit * t) :=
  match m_buffer b with
  | [] => Err Undefined
  | f :: fs => Ok (f, mk fs (max_size b))
  end.

Definition insert (b : t) (flt : flit) : t :=
  mk (m_buffer b ++ [flt]) (max_size b).

Definition isFull (b : t) : bool := max_size b <=? zlen (m_buffer b).

Definition setMaxSize (b : t) (maximum : Z) : t := mk (m_buffer b) maximum.

Definition getSize (b : t) : Z := zlen (m_buffer b).

Section functional.
  Context {P : Type}.
  Variable msg_functionalRead : nat → P → bool * P.
  Variable msg_functionalWrite : nat → P → bool * P.

(** The packet is handed to every flit; the result is whether one of them
    answered, and how many of them were written. *)
Definition functionalRead (b : t) (p : P) : result (bool * P) :=
  foldl (λ acc f,
           '(read, p) ← acc;
           '(r, p) ← flit_functionalRead msg_functionalRead f p;
           Ok (if r then true else read, p))
        (Ok (false, p)) (m_buffer b).

Definition functionalWrite (b : t) (p : P) : result (Z * P) :=
  foldl (λ acc f,
           '(num, p) ← acc;
           '(w, p) ← flit_functionalWrite msg_functionalWrite f p;
           Ok (if (w : bool) then num + 1 else num, p))
        (Ok (0, p)) (m_buffer b).
End functional.

(** *** Facts *)

Lemma isReady_getTopFlit b t :
  isReady b t = true →
  ∃ f fs, m_buffer b = f :: fs ∧ flit_m_time f ≤ t ∧
          getTopFlit b = Ok (f, mk fs (max_size b)).
Proof.
  unfold isReady, getTopFlit. destruct (m_buffer b) as [|f fs]; [done|].
  intros ?%Z.leb_le. by exists f, fs.
Qed.

Lemma getTopFlit_Ok b f b' :
  getTopFlit b = Ok (f, b') ↔
  m_buffer b = f :: m_buffer b' ∧ max_size b' = max_size b.
Proof.
  unfold getTopFlit. destruct b as [[|g gs] mx], b' as [fs mx']; cbn;
    split; try naive_solver.
Qed.

End FlitBuffer.
