(* ===== verification/VirtualChannels.v ===== *)
(** * Virtual channels

    The two ends of a virtual channel: [garnet/OutVcState.{hh,cc}] is what the
    sender knows of the receiver's buffer (its state and credits),
    [garnet/VirtualChannel.{hh,cc}] is the receiver's buffer itself. *)

From S2P Require Import Prelude.
From S2P Require Import IntMath.
From S2P Require Import NetDest.
From S2P Require Import Flit.

(** The configuration that [GarnetNetwork] holds for the other objects
    ([m_num_rows], [m_num_cols], [m_routing_algorithm], the buffer sizes,
    [m_vnet_type] and [m_ordered]). *)
Record NetConfig := mkNetConfig {
  m_num_rows : Z;
  m_num_cols : Z;
  m_routing_algorithm : Z;
  m_buffers_per_data_vc : Z;
  m_buffers_per_ctrl_vc : Z;
  m_vnet_type : list VNET_type;
  m_ordered : list bool;
}.

Definition get_vnet_type (c : NetConfig) (vnet : Z) : result VNET_type :=
  vget (m_vnet_type c) vnet.

Definition isVNetOrdered (c : NetConfig) (vnet : Z) : result bool :=
  vget (m_ordered c) vnet.

(** ** [OutVcState] *)

Module OutVcState.

Record t := mk {
  m_id : Z;
  m_time : Tick;
  m_vc_state : VC_state_type;
  m_credit_count : Z;
  m_max_credit_count : Z;
}.

(** [OutVcState(id, network_ptr, consumerVcs)] *)
Definition make (c : NetConfig) (id consumerVcs : Z) : result t :=
  _ ← (if consumerVcs =? 0 then Err Undefined else Ok tt);
  let vnet := id / consumerVcs in
  ty ← get_vnet_type c vnet;
  let m_max_credit_count :=
    if bool_decide (ty = DATA_VNET_) then m_buffers_per_data_vc c
    else m_buffers_per_ctrl_vc c in
  _ ← assert (1 <=? m_max_credit_count);
  Ok (mk id 0 IDLE_ m_max_credit_count m_max_credit_count).

Definition has_credit (o : t) : bool := 0 <? m_credit_count o.

Definition increment_credit (o : t) : result t :=
  let n := m_credit_count o + 1 in
  _ ← assert (n <=? m_max_credit_count o);
  Ok (mk (m_id o) (m_time o) (m_vc_state o) n (m_max_credit_count o)).

Definition decrement_credit (o : t) : result t :=
  let n := m_credit_count o - 1 in
  _ ← assert (0 <=? n);
  Ok (mk (m_id o) (m_time o) (m_vc_state o) n (m_max_credit_count o)).

Definition isInState (o : t) (state : VC_state_type) (request_time : Tick)
    : bool :=
  bool_decide (m_vc_state o = state) && (m_time o <=? request_time).

Definition setState (o : t) (state : VC_state_type) (time : Tick) : t :=
  mk (m_id o) time state (m_credit_count o) (m_max_credit_count o).

(** The credit count stays within the buffer it counts. *)
Definition wf (o : t) : Prop :=
  0 ≤ m_credit_count o ≤ m_max_credit_count o.

Lemma make_out_vc c id n o :
  make c id n = Ok o →
  wf o ∧ m_vc_state o = IDLE_ ∧ m_credit_count o = m_max_credit_count o ∧
  1 ≤ m_max_credit_count o.
Proof.
  unfold make, wf. intros H.
  destruct (n =? 0); [done|]. cbn in H.
  apply bind_Ok in H as (ty & _ & H). apply bind_Ok in H as ([] & Ha & [= <-]).
  apply assert_Ok, Z.leb_le in Ha. cbn. split_and!; done || lia.
Qed.

Lemma increment_credit_Ok o o' :
  increment_credit o = Ok o' →
  m_credit_count o' = m_credit_count o + 1 ∧
  m_credit_count o' ≤ m_max_credit_count o ∧
  m_max_credit_count o' = m_max_credit_count o ∧
  m_vc_state o' = m_vc_state o ∧ m_time o' = m_time o ∧ m_id o' = m_id o.
Proof.
  unfold increment_credit. intros H. inv_result. boolify. done.
Qed.

Lemma decrement_credit_Ok o o' :
  decrement_credit o = Ok o' →
  m_credit_count o' = m_credit_count o - 1 ∧ 0 ≤ m_credit_count o' ∧
  m_max_credit_count o' = m_max_credit_count o ∧
  m_vc_state o' = m_vc_state o ∧ m_time o' = m_time o ∧ m_id o' = m_id o.
Proof.
  unfold decrement_credit. intros H. inv_result. boolify. done.
Qed.

(** [increment_credit] and [decrement_credit] undo each other and fail exactly
    at the two ends of the range. *)
Lemma decrement_increment o :
  wf o → has_credit o = true →
  ∃ o', decrement_credit o = Ok o' ∧ increment_credit o' = Ok o.
Proof.
  unfold wf, has_credit. intros Hw Hc%Z.ltb_lt. unfold decrement_credit.
  destruct (Z.leb_spec 0 (m_credit_count o - 1)); [|lia]. cbn.
  eexists. split; [done|]. unfold increment_credit. cbn.
  replace (m_credit_count o - 1 + 1) with (m_credit_count o) by lia.
  destruct (Z.leb_spec (m_credit_count o) (m_max_credit_count o)); [|lia].
  by destruct o.
Qed.

End OutVcState.

(** ** [VirtualChannel] *)

Module VirtualChannel.

Record t := mk {
  inputBuffer : FlitBuffer.t;
  m_vc_state : VC_state_type * Tick;
  m_output_port : Z;
  m_enqueue_time : Tick;
  m_output_vc : Z;
}.

(** [VirtualChannel()] *)
Definition make : t := mk FlitBuffer.empty (IDLE_, 0) (-1) INFINITE_ (-1).

Definition set_idle (v : t) (curTime : Tick) : t :=
  mk (inputBuffer v) (IDLE_, curTime) (-1) INFINITE_ (-1).

Definition set_active (v : t) (curTime : Tick) : t :=
  mk (inputBuffer v) (ACTIVE_, curTime) (m_output_port v) curTime
     (m_output_vc v).

Definition set_outvc (v : t) (outvc : Z) : t :=
  mk (inputBuffer v) (m_vc_state v) (m_output_port v) (m_enqueue_time v) outvc.

Definition set_outport (v : t) (outport : Z) : t :=
  mk (inputBuffer v) (m_vc_state v) outport (m_enqueue_time v) (m_output_vc v).

Definition set_enqueue_time (v : t) (time : Tick) : t :=
  mk (inputBuffer v) (m_vc_state v) (m_output_port v) time (m_output_vc v).

Definition get_state (v : t) : VC_state_type := (m_vc_state v).1.

Definition set_state (v : t) (m_state : VC_state_type) (curTime : Tick) : t :=
  mk (inputBuffer v) (m_state, curTime) (m_output_port v) (m_enqueue_time v)
     (m_output_vc v).

Definition with_buffer (v : t) (b : FlitBuffer.t) : t :=
  mk b (m_vc_state v) (m_output_port v) (m_enqueue_time v) (m_output_vc v).

Definition isReady (v : t) (curTime : Tick) : bool :=
  FlitBuffer.isReady (inputBuffer v) curTime.

Definition insertFlit (v : t) (t_flit : flit) : t :=
  with_buffer v (FlitBuffer.insert (inputBuffer v) t_flit).

Definition peekTopFlit (v : t) : result flit :=
  FlitBuffer.peekTopFlit (inputBuffer v).

Definition getTopFlit (v : t) : result (flit * t) :=
  '(f, b) ← FlitBuffer.getTopFlit (inputBuffer v);
  Ok (f, with_buffer v b).

Definition need_stage (v : t) (stage : flit_stage) (time : Tick) : result bool :=
  if FlitBuffer.isReady (inputBuffer v) time then
    _ ← assert (bool_decide ((m_vc_state v).1 = ACTIVE_) &&
                ((m_vc_state v).2 <=? time));
    t_flit ← FlitBuffer.peekTopFlit (inputBuffer v);
    Ok (is_stage t_flit stage time)
  else Ok false.

Section functional.
  Context {P : Type}.
  Variable msg_functionalRead : nat → P → bool * P.
  Variable msg_functionalWrite : nat → P → bool * P.

Definition functionalRead (v : t) (p : P) : result (bool * P) :=
  FlitBuffer.functionalRead msg_functionalRead (inputBuffer v) p.

Definition functionalWrite (v : t) (p : P) : result (Z * P) :=
  FlitBuffer.functionalWrite msg_functionalWrite (inputBuffer v) p.
End functional.

(** The flits waiting in the channel. *)
Definition flits (v : t) : list flit := FlitBuffer.m_buffer (inputBuffer v).

Lemma vc_getTopFlit_Ok v f v' :
  getTopFlit v = Ok (f, v') →
  flits v = f :: flits v' ∧ m_vc_state v' = m_vc_state v ∧
  m_output_port v' = m_output_port v ∧ m_output_vc v' = m_output_vc v ∧
  m_enqueue_time v' = m_enqueue_time v.
Proof.
  unfold getTopFlit, flits. intros H.
  apply bind_Ok in H as ([f' b] & Hb & [= -> <-]).
  apply FlitBuffer.getTopFlit_Ok in Hb as [-> _]. done.
Qed.

(** A channel that needs a stage is active and its first flit is in it. *)
Lemma need_stage_true v stage time :
  need_stage v stage time = Ok true →
  get_state v = ACTIVE_ ∧
  ∃ f fs, flits v = f :: fs ∧ flit_m_time f ≤ time ∧
          is_stage f stage time = true.
Proof.
  unfold need_stage, flits. destruct (FlitBuffer.isReady _ _) eqn:E; [|done].
  apply FlitBuffer.isReady_getTopFlit in E as (f & fs & Hb & Ht & _).
  unfold FlitBuffer.peekTopFlit. rewrite Hb. cbn. intros H.
  apply bind_Ok in H as ([] & [Ha _]%assert_Ok%andb_true_iff & [= Hs]).
  apply bool_decide_eq_true in Ha. eauto 6.
Qed.

End VirtualChannel.
