(* ===== verification/Routing.v ===== *)
(** * Route computation

    [garnet/RoutingUnit.{hh,cc}]: the routing table every router holds, the
    direction-based XY algorithm, and their dispatcher.  [rand()] is the
    argument [rnd] of the functions that call it. *)

From S2P Require Import Prelude.
From S2P Require Import IntMath.
From S2P Require Import NetDest.
From S2P Require Import Flit.
From S2P Require Import VirtualChannels.

(** [PortDirection] is a string. *)
Notation PortDirection := string (only parsing).

Module RoutingUnit.
Section RoutingUnit.
  Context `{MachineTypes}.

Record t := mk {
  m_routing_table : list (list NetDest.t);
  m_weight_table : list Z;
  m_inports_dirn2idx : gmap PortDirection Z;
  m_inports_idx2dirn : gmap Z PortDirection;
  m_outports_idx2dirn : gmap Z PortDirection;
  m_outports_dirn2idx : gmap PortDirection Z;
}.

(** [RoutingUnit(router)] *)
Definition make : t := mk [] [] ∅ ∅ ∅ ∅.

Definition with_table (u : t) (tb : list (list NetDest.t)) : t :=
  mk tb (m_weight_table u) (m_inports_dirn2idx u) (m_inports_idx2dirn u)
     (m_outports_idx2dirn u) (m_outports_dirn2idx u).

(** [addRoute]: the table grows to the number of vnets of the entry, and each
    vnet's row gets the entry of the new link. *)
Definition addRoute (u : t) (routing_table_entry : list NetDest.t) : result t :=
  let tb :=
    if zlen (m_routing_table u) <? zlen routing_table_entry
    then vresize [] (zlen routing_table_entry) (m_routing_table u)
    else m_routing_table u in
  tb ← for_range 0 (length routing_table_entry)
         (λ v tb, e ← vget routing_table_entry v;
                  vupd tb v (λ row, Ok (row ++ [e]))) tb;
  Ok (with_table u tb).

Definition addWeight (u : t) (link_weight : Z) : t :=
  mk (m_routing_table u) (m_weight_table u ++ [link_weight])
     (m_inports_dirn2idx u) (m_inports_idx2dirn u)
     (m_outports_idx2dirn u) (m_outports_dirn2idx u).

Definition supportsVnet (vnet : Z) (sVnets : list Z) : bool :=
  if zlen sVnets =? 0 then true
  else if existsb (Z.eqb vnet) sVnets then true
  else false.

(** The least weight, up to [INFINITE_], of the links from [link] on whose
    entry has a machine in common with the destination. *)
Fixpoint min_weight_from (weights : list Z) (dest : NetDest.t)
    (row : list NetDest.t) (link min_weight : Z) : result Z :=
  match row with
  | [] => Ok min_weight
  | e :: row' =>
      b ← NetDest.intersectionIsNotEmpty dest e;
      m ← (if (b : bool) then
             w ← vget weights link;
             Ok (if w <=? min_weight then w else min_weight)
           else Ok min_weight);
      min_weight_from weights dest row' (link + 1) m
  end.

(** The links from [link] on with exactly that weight. *)
Fixpoint candidates_from (weights : list Z) (dest : NetDest.t)
    (row : list NetDest.t) (link min_weight : Z) : result (list Z) :=
  match row with
  | [] => Ok []
  | e :: row' =>
      b ← NetDest.intersectionIsNotEmpty dest e;
      here ← (if (b : bool) then
                w ← vget weights link;
                Ok (if w =? min_weight then [link] else [])
              else Ok []);
      rest ← candidates_from weights dest row' (link + 1) min_weight;
      Ok (here ++ rest)
  end.

Definition lookupRoutingTable (c : NetConfig) (rnd : Z) (u : t) (vnet : Z)
    (msg_destination : NetDest.t) : result Z :=
  row ← vget (m_routing_table u) vnet;
  min_weight ← min_weight_from (m_weight_table u) msg_destination row 0 INFINITE_;
  output_link_candidates ←
    candidates_from (m_weight_table u) msg_destination row 0 min_weight;
  let num_candidates := zlen output_link_candidates in
  _ ← fatal_if (num_candidates =? 0);
  ordered ← isVNetOrdered c vnet;
  let candidate := if (ordered : bool) then 0 else Z.rem rnd num_candidates in
  vget output_link_candidates candidate.

Definition addInDirection (u : t) (inport_dirn : PortDirection) (inport_idx : Z)
    : t :=
  mk (m_routing_table u) (m_weight_table u)
     (<[inport_dirn := inport_idx]> (m_inports_dirn2idx u))
     (<[inport_idx := inport_dirn]> (m_inports_idx2dirn u))
     (m_outports_idx2dirn u) (m_outports_dirn2idx u).

Definition addOutDirection (u : t) (outport_dirn : PortDirection)
    (outport_idx : Z) : t :=
  mk (m_routing_table u) (m_weight_table u)
     (m_inports_dirn2idx u) (m_inports_idx2dirn u)
     (<[outport_idx := outport_dirn]> (m_outports_idx2dirn u))
     (<[outport_dirn := outport_idx]> (m_outports_dirn2idx u)).

(** [m_outports_dirn2idx[dirn]] inserts the index 0 for a direction the router
    does not have. *)
Definition outport_of (u : t) (dirn : PortDirection) : Z * t :=
  match m_outports_dirn2idx u !! dirn with
  | Some i => (i, u)
  | None =>
      (0, mk (m_routing_table u) (m_weight_table u) (m_inports_dirn2idx u)
             (m_inports_idx2dirn u) (m_outports_idx2dirn u)
             (<[dirn := 0]> (m_outports_dirn2idx u)))
  end.

Local Open Scope string_scope.

(** The direction [outportComputeXY] chooses in router [my_id]. *)
Definition xy_direction (c : NetConfig) (my_id : Z) (route : RouteInfo)
    (inport_dirn : PortDirection) : result PortDirection :=
  let num_rows := m_num_rows c in
  let num_cols := m_num_cols c in
  _ ← assert ((0 <? num_rows) && (0 <? num_cols))%Z;
  let my_x := Z.rem my_id num_cols in
  let my_y := Z.quot my_id num_cols in
  let dest_id := dest_router route in
  let dest_x := Z.rem dest_id num_cols in
  let dest_y := Z.quot dest_id num_cols in
  let x_hops := Z.abs (dest_x - my_x) in
  let y_hops := Z.abs (dest_y - my_y) in
  let x_dirn := (my_x <=? dest_x)%Z in
  let y_dirn := (my_y <=? dest_y)%Z in
  _ ← assert (negb ((x_hops =? 0) && (y_hops =? 0)))%Z;
  if (0 <? x_hops)%Z then
    if x_dirn then
      _ ← assert (String.eqb inport_dirn "Local" || String.eqb inport_dirn "West");
      Ok "East"
    else
      _ ← assert (String.eqb inport_dirn "Local" || String.eqb inport_dirn "East");
      Ok "West"
  else if (0 <? y_hops)%Z then
    if y_dirn then
      _ ← assert (negb (String.eqb inport_dirn "North"));
      Ok "North"
    else
      _ ← assert (negb (String.eqb inport_dirn "South"));
      Ok "South"
  else Err Panicked.

Definition outportComputeXY (c : NetConfig) (my_id : Z) (u : t)
    (route : RouteInfo) (inport : Z) (inport_dirn : PortDirection)
    : result (Z * t) :=
  outport_dirn ← xy_direction c my_id route inport_dirn;
  Ok (outport_of u outport_dirn).

(** A template: the function panics. *)
Definition outportComputeCustom (u : t) (route : RouteInfo) (inport : Z)
    (inport_dirn : PortDirection) : result (Z * t) := Err Panicked.

(** [outportCompute] in router [my_id]; [TABLE_ = 0], [XY_ = 1], [CUSTOM_ = 2]
    and any other value falls back to the table. *)
Definition outportCompute (c : NetConfig) (rnd my_id : Z) (u : t)
    (route : RouteInfo) (inport : Z) (inport_dirn : PortDirection)
    : result (Z * t) :=
  if (dest_router route =? my_id)%Z then
    o ← lookupRoutingTable c rnd u (vnet route) (net_dest route); Ok (o, u)
  else
    '(outport, u') ←
      (if (m_routing_algorithm c =? 1)%Z
       then outportComputeXY c my_id u route inport inport_dirn
       else if (m_routing_algorithm c =? 2)%Z
       then outportComputeCustom u route inport inport_dirn
       else o ← lookupRoutingTable c rnd u (vnet route) (net_dest route);
            Ok (o, u));
    _ ← assert (negb (outport =? -1)%Z);
    Ok (outport, u').

Local Close Scope string_scope.

(** ** Table lookup *)

(** Link [l] of the row leads to a machine of the destination. *)
Definition leads (dest : NetDest.t) (row : list NetDest.t) (l : Z) : Prop :=
  ∃ e, zlookup row l = Some e ∧
       NetDest.intersectionIsNotEmpty dest e = Ok true.

Lemma zlookup_cons_iff {A} (x : A) l i a :
  zlookup (x :: l) i = Some a ↔
  (i = 0 ∧ a = x) ∨ (0 < i ∧ zlookup l (i - 1) = Some a).
Proof.
  rewrite !zlookup_Some. destruct (decide (i = 0)) as [->|]; [naive_solver lia|].
  destruct (decide (0 < i)); [|naive_solver lia].
  replace (Z.to_nat i) with (S (Z.to_nat (i - 1))) by lia. cbn.
  naive_solver lia.
Qed.

Lemma leads_cons dest e row l :
  leads dest (e :: row) l ↔
  (l = 0 ∧ NetDest.intersectionIsNotEmpty dest e = Ok true) ∨
  (0 < l ∧ leads dest row (l - 1)).
Proof.
  unfold leads. setoid_rewrite zlookup_cons_iff. naive_solver.
Qed.

(** The first loop returns the least of the bound and the weights of the links
    that lead to the destination. *)
Lemma min_weight_from_spec weights dest row k m m' :
  min_weight_from weights dest row k m = Ok m' →
  m' ≤ m ∧
  (∀ l w, leads dest row l → zlookup weights (k + l) = Some w → m' ≤ w) ∧
  (m' = m ∨ ∃ l, leads dest row l ∧ zlookup weights (k + l) = Some m').
Proof.
  revert k m. induction row as [|e row IH]; intros k m Hrun; cbn in Hrun.
  { injection Hrun as ->. split_and!; [lia| |by left].
    intros l w (e & [_ ?]%zlookup_Some & _). done. }
  apply bind_Ok in Hrun as (b & Hb & Hrun). apply bind_Ok in Hrun as (m1 & Hm1 & Hrun).
  apply IH in Hrun as (Hle & Hall & Hex).
  assert (m1 ≤ m ∧
    (b = true → ∀ w, zlookup weights k = Some w → m1 ≤ w) ∧
    (m1 = m ∨ (b = true ∧ zlookup weights k = Some m1))) as (H1 & H2 & H3).
  { destruct b; [|naive_solver]. apply bind_Ok in Hm1 as (w & Hw & [= <-]).
    apply vget_Ok in Hw. rewrite Hw. destruct (Z.leb_spec w m); naive_solver lia. }
  split_and!; [lia| |].
  - intros l w Hl Hw. apply leads_cons in Hl as [[-> Hi]|[Hpos Hl]].
    + rewrite Hb in Hi. injection Hi as ->. rewrite Z.add_0_r in Hw.
      specialize (H2 eq_refl w Hw). lia.
    + apply (Hall (l - 1)); [done|]. by replace (k + 1 + (l - 1)) with (k + l) by lia.
  - destruct Hex as [->|(l & Hl & Hw)].
    + destruct H3 as [->|[-> Hw]]; [by left|right].
      exists 0. rewrite Z.add_0_r. split; [|done]. apply leads_cons. by left.
    + right. exists (l + 1). split.
      * apply leads_cons. right. replace (l + 1 - 1) with l by lia.
        pose proof Hl as (? & ?%zlookup_lt & _). split; [lia|done].
      * by replace (k + (l + 1)) with (k + 1 + l) by lia.
Qed.

(** The second loop collects, in increasing order, exactly the links of that
    weight that lead to the destination. *)
Lemma candidates_from_spec weights dest row k m ls :
  candidates_from weights dest row k m = Ok ls →
  (∀ l, l ∈ ls ↔ leads dest row (l - k) ∧ zlookup weights l = Some m) ∧
  StronglySorted Z.lt ls.
Proof.
  revert k ls. induction row as [|e row IH]; intros k ls Hrun; cbn in Hrun.
  { injection Hrun as <-. split; [|constructor]. intros l. rewrite elem_of_nil.
    split; [done|]. intros [(? & [_ ?]%zlookup_Some & _) _]. done. }
  apply bind_Ok in Hrun as (b & Hb & Hrun). apply bind_Ok in Hrun as (here & Hh & Hrun).
  apply bind_Ok in Hrun as (rest & Hrest & [= <-]).
  apply IH in Hrest as [Hel Hss].
  assert (here = (if b then if decide (zlookup weights k = Some m) then [k] else []
                  else [])) as ->.
  { destruct b; [|naive_solver]. apply bind_Ok in Hh as (w & Hw & [= <-]).
    apply vget_Ok in Hw. rewrite Hw.
    destruct (Z.eqb_spec w m); case_decide; naive_solver. }
  assert (Hgt : ∀ l, l ∈ rest → k < l).
  { intros l [(? & ?%zlookup_lt & _) _]%Hel. lia. }
  split.
  - intros l. rewrite elem_of_app, leads_cons, Hel.
    replace (l - k - 1) with (l - (k + 1)) by lia.
    rewrite Hb. split.
    + intros [Hin|[Hl Hw]].
      * destruct b; [|set_solver]. case_decide; [|set_solver].
        assert (l = k) as -> by set_solver. split; [left; split; [lia|done]|done].
      * split; [|done]. right. split; [|done].
        destruct Hl as (? & ?%zlookup_lt & _). lia.
    + intros [[[Hl [= ->]]|[_ Hl]] Hw]; [left|by right].
      assert (l = k) as -> by lia. case_decide; [set_solver|done].
  - destruct b; [|done]. case_decide; [|done]. cbn. constructor; [done|].
    apply Forall_forall. intros l Hl. by apply Hgt.
Qed.

(** A table row whose entries are destinations and whose links all have a
    weight. *)
Definition row_wf (weights : list Z) (row : list NetDest.t) : Prop :=
  Forall NetDest.wf row ∧ zlen row ≤ zlen weights.

Lemma min_weight_from_total weights dest row k m :
  NetDest.wf dest → Forall NetDest.wf row → 0 ≤ k →
  k + zlen row ≤ zlen weights →
  ∃ m', min_weight_from weights dest row k m = Ok m'.
Proof.
  intros Hd Hrow. revert k m. induction Hrow as [|e row He Hrow IH]; intros k m Hk Hlen.
  { by exists m. }
  rewrite zlen_cons in Hlen. pose proof (zlen_nonneg row). cbn.
  destruct (NetDest.intersectionIsNotEmpty_spec dest e Hd He) as (b & -> & _). cbn.
  destruct b; cbn; [|apply IH; lia].
  destruct (vget_total weights k) as [w ->]; [lia|]. cbn. apply IH; lia.
Qed.

Lemma candidates_from_total weights dest row k m :
  NetDest.wf dest → Forall NetDest.wf row → 0 ≤ k →
  k + zlen row ≤ zlen weights →
  ∃ ls, candidates_from weights dest row k m = Ok ls.
Proof.
  intros Hd Hrow. revert k. induction Hrow as [|e row He Hrow IH]; intros k Hk Hlen.
  { by exists []. }
  rewrite zlen_cons in Hlen. pose proof (zlen_nonneg row). cbn.
  destruct (NetDest.intersectionIsNotEmpty_spec dest e Hd He) as (b & -> & _). cbn.
  destruct (IH (k + 1)) as [ls Hls]; [lia|lia|].
  destruct b; cbn.
  - destruct (vget_total weights k) as [w ->]; [lia|]. cbn. rewrite Hls. by eexists.
  - rewrite Hls. by eexists.
Qed.

(** What a lookup promises about the link it returns. *)
Definition best_link (weights : list Z) (dest : NetDest.t) (row : list NetDest.t)
    (ordered : bool) (l : Z) : Prop :=
  leads dest row l ∧
  ∃ w, zlookup weights l = Some w ∧ w ≤ INFINITE_ ∧
    (∀ l' w', leads dest row l' → zlookup weights l' = Some w' → w ≤ w') ∧
    (ordered = true →
     ∀ l', leads dest row l' → zlookup weights l' = Some w → l ≤ l').

(** Some link of the row leads to the destination with a usable weight. *)
Definition routable (weights : list Z) (dest : NetDest.t) (row : list NetDest.t)
    : Prop :=
  ∃ l w, leads dest row l ∧ zlookup weights l = Some w ∧ w ≤ INFINITE_.

Lemma head_least (ls : list Z) l x :
  StronglySorted Z.lt ls → vget ls 0 = Ok l → x ∈ ls → l ≤ x.
Proof.
  intros Hs Hl%vget_Ok%zlookup_Some Hx. destruct Hs as [|y ls Hs Hall].
  - by apply elem_of_nil in Hx.
  - destruct Hl as [_ [= <-]]. apply elem_of_cons in Hx as [->|Hx]; [lia|].
    rewrite Forall_forall in Hall. specialize (Hall x Hx). lia.
Qed.

Lemma lookupRoutingTable_spec c rnd u v dest row ordered :
  zlookup (m_routing_table u) v = Some row →
  row_wf (m_weight_table u) row → NetDest.wf dest →
  isVNetOrdered c v = Ok ordered → 0 ≤ rnd →
  (routable (m_weight_table u) dest row →
   ∃ l, lookupRoutingTable c rnd u v dest = Ok l ∧
        best_link (m_weight_table u) dest row ordered l) ∧
  (¬ routable (m_weight_table u) dest row →
   lookupRoutingTable c rnd u v dest = Err FatalError).
Proof.
  intros Hrow [Hwf Hlen] Hd Hord Hrnd. unfold lookupRoutingTable.
  rewrite (proj2 (vget_Ok _ _ _) Hrow). cbn.
  destruct (min_weight_from_total (m_weight_table u) dest row 0 INFINITE_)
    as [m Hm]; [done|done|lia|lia|].
  destruct (candidates_from_total (m_weight_table u) dest row 0 m)
    as [ls Hls]; [done|done|lia|lia|].
  rewrite Hm. cbn. rewrite Hls. cbn.
  apply min_weight_from_spec in Hm as (Hm1 & Hm2 & Hm3). cbn in Hm2, Hm3.
  apply candidates_from_spec in Hls as [Hel Hss].
  setoid_rewrite Z.sub_0_r in Hel.
  split.
  - intros (l0 & w0 & Hl0 & Hw0 & Hi0).
    assert (∃ l, l ∈ ls) as [l1 Hl1].
    { destruct Hm3 as [->|(l & Hl & Hw)]; [|exists l; by apply Hel].
      exists l0. apply Hel. split; [done|]. rewrite Hw0. f_equal.
      specialize (Hm2 l0 w0 Hl0 Hw0). lia. }
    assert (0 < zlen ls) as Hpos.
    { destruct ls as [|x ls]; [by apply elem_of_nil in Hl1|].
      rewrite zlen_cons. pose proof (zlen_nonneg ls). lia. }
    destruct (Z.eqb_spec (zlen ls) 0); [lia|]. cbn. rewrite Hord. cbn.
    assert (0 ≤ (if ordered then 0 else Z.rem rnd (zlen ls)) < zlen ls) as Hidx.
    { destruct ordered; [lia|]. apply Z.rem_bound_pos; lia. }
    destruct (vget_total ls _ Hidx) as [l Hl]. exists l. split; [done|].
    assert (l ∈ ls) as Hlin.
    { apply vget_Ok, zlookup_Some in Hl as [_ Hl]. by eapply list_elem_of_lookup_2. }
    destruct (proj1 (Hel l) Hlin) as [Hlead Hw].
    split; [done|]. exists m. split_and!; [done|lia|eauto|].
    intros -> l' Hl' Hw'. apply (head_least ls); [done|done|]. by apply Hel.
  - intros Hno. assert (ls = []) as ->; [|done].
    destruct ls as [|x ls]; [done|]. exfalso. apply Hno.
    destruct (proj1 (Hel x)) as [? ?]; [left|]. exists x, m. split_and!; [done|done|lia].
Qed.

(** C13: a routing-table lookup on a well-formed table returns, when some link
    leads to the destination with a weight of at most [INFINITE_], a link that
    leads there with the least weight of all such links (the first of them on
    an ordered vnet), whatever [rand()] returned; when no link does, it stops
    with the fatal error. *)
Theorem lookupRoutingTable_correct c rnd u v dest row ordered :
  zlookup (m_routing_table u) v = Some row →
  row_wf (m_weight_table u) row → NetDest.wf dest →
  isVNetOrdered c v = Ok ordered → 0 ≤ rnd →
  (routable (m_weight_table u) dest row →
   ∃ l, lookupRoutingTable c rnd u v dest = Ok l ∧
        best_link (m_weight_table u) dest row ordered l) ∧
  (¬ routable (m_weight_table u) dest row →
   lookupRoutingTable c rnd u v dest = Err FatalError).
Proof. apply lookupRoutingTable_spec. Qed.

(** ** XY routing on a mesh *)

Local Open Scope string_scope.

(** The links of the mesh ([configs/topologies/Mesh_XY.py]): the router behind
    the output port [dirn] and the direction of its input port. *)
Definition mesh_hop (c : NetConfig) (id : Z) (dirn : PortDirection)
    : option (Z * PortDirection) :=
  let col := (id mod m_num_cols c)%Z in
  let row := (id / m_num_cols c)%Z in
  if String.eqb dirn "East" then
    if (col + 1 <? m_num_cols c)%Z then Some ((id + 1)%Z, "West") else None
  else if String.eqb dirn "West" then
    if (0 <? col)%Z then Some ((id - 1)%Z, "East") else None
  else if String.eqb dirn "North" then
    if (row + 1 <? m_num_rows c)%Z then Some ((id + m_num_cols c)%Z, "South")
    else None
  else if String.eqb dirn "South" then
    if (0 <? row)%Z then Some ((id - m_num_cols c)%Z, "North") else None
  else None.

(** The directions a packet takes and the router it stops in, following
    [outportComputeXY] for at most [fuel] hops. *)
Fixpoint xy_walk (c : NetConfig) (fuel : nat) (my_id : Z)
    (inport_dirn : PortDirection) (route : RouteInfo)
    : result (list PortDirection * Z) :=
  if (dest_router route =? my_id)%Z then Ok ([], my_id)
  else match fuel with
  | O => Ok ([], my_id)
  | S n =>
      d ← xy_direction c my_id route inport_dirn;
      '(next, in_dirn) ← determinate (mesh_hop c my_id d);
      '(ds, last) ← xy_walk c n next in_dirn route;
      Ok (d :: ds, last)
  end.

(** The X leg, then the Y leg. *)
Definition xy_directions (dx dy : Z) : list PortDirection :=
  replicate (Z.abs_nat dx) (if (0 <=? dx)%Z then "East" else "West") ++
  replicate (Z.abs_nat dy) (if (0 <=? dy)%Z then "North" else "South").

(** A packet may not turn back, nor from the Y leg into the X leg. *)
Definition xy_entry_ok (inport_dirn : PortDirection) (dx dy : Z) : Prop :=
  if (0 <? dx)%Z then inport_dirn = "Local" ∨ inport_dirn = "West"
  else if (dx <? 0)%Z then inport_dirn = "Local" ∨ inport_dirn = "East"
  else if (0 <? dy)%Z then inport_dirn ≠ "North"
  else if (dy <? 0)%Z then inport_dirn ≠ "South" else True.

Local Close Scope string_scope.

Lemma mesh_coords cols x y :
  0 ≤ x < cols → 0 ≤ y →
  Z.rem (x + y * cols) cols = x ∧ Z.quot (x + y * cols) cols = y ∧
  (x + y * cols) mod cols = x ∧ (x + y * cols) / cols = y.
Proof.
  intros Hx Hy. rewrite Z.rem_mod_nonneg, Z.quot_div_nonneg by nia.
  rewrite Z.mod_add, Z.div_add, Z.mod_small, Z.div_small by lia. lia.
Qed.

(** The choice of [outportComputeXY] in coordinates. *)
Lemma xy_direction_at c route x y X Y i :
  0 < m_num_rows c → 0 ≤ x < m_num_cols c → 0 ≤ y →
  0 ≤ X < m_num_cols c → 0 ≤ Y → (x ≠ X ∨ y ≠ Y) →
  dest_router route = X + Y * m_num_cols c →
  xy_entry_ok i (X - x) (Y - y) →
  xy_direction c (x + y * m_num_cols c) route i =
    Ok (if x <? X then "East"%string else if X <? x then "West"%string
        else if y <? Y then "North"%string else "South"%string).
Proof.
  intros Hr Hx Hy HX HY Hne Hd Hi. set (cols := m_num_cols c) in *.
  destruct (mesh_coords cols x y) as (E1 & E2 & _ & _); [lia|lia|].
  destruct (mesh_coords cols X Y) as (F1 & F2 & _ & _); [lia|lia|].
  unfold xy_direction. fold cols. rewrite Hd, E1, E2, F1, F2.
  revert Hi. unfold xy_entry_ok. zcases; cbn; intros Hi;
    first [ destruct Hi as [-> | ->]; done
          | by rewrite (proj2 (String.eqb_neq _ _) Hi) ].
Qed.

(** One hop: the direction chosen, and the neighbour it leads to. *)
Lemma xy_step c route x y X Y i :
  0 ≤ x < m_num_cols c → 0 ≤ y < m_num_rows c →
  0 ≤ X < m_num_cols c → 0 ≤ Y < m_num_rows c →
  dest_router route = X + Y * m_num_cols c → (x ≠ X ∨ y ≠ Y) →
  xy_entry_ok i (X - x) (Y - y) →
  ∃ d x' y' i',
    xy_direction c (x + y * m_num_cols c) route i = Ok d ∧
    mesh_hop c (x + y * m_num_cols c) d = Some (x' + y' * m_num_cols c, i') ∧
    0 ≤ x' < m_num_cols c ∧ 0 ≤ y' < m_num_rows c ∧
    xy_entry_ok i' (X - x') (Y - y') ∧
    xy_directions (X - x) (Y - y) = d :: xy_directions (X - x') (Y - y') ∧
    Z.abs (X - x) + Z.abs (Y - y) = 1 + (Z.abs (X - x') + Z.abs (Y - y')).
Proof.
  intros Hx Hy HX HY Hd Hne Hi.
  rewrite (xy_direction_at c route x y X Y i) by (done || lia). clear Hi.
  destruct (mesh_coords (m_num_cols c) x y) as (_ & _ & E3 & E4); [lia|lia|].
  unfold mesh_hop. rewrite E3, E4. unfold xy_entry_ok, xy_directions.
  destruct (Z.ltb_spec x X) as [Hlt|Hge]; [|destruct (Z.ltb_spec X x) as [Hgt|Hle]].
  - exists "East"%string, (x + 1), y, "West"%string. cbn. zcases;
      split_and!; try (done || lia || by right || (do 2 f_equal; lia));
      by replace (Z.abs_nat (X - x)) with (S (Z.abs_nat (X - (x + 1)))) by lia.
  - exists "West"%string, (x - 1), y, "East"%string. cbn. zcases;
      split_and!; try (done || lia || by right || (do 2 f_equal; lia));
      try by replace (Z.abs_nat (X - x)) with (S (Z.abs_nat (X - (x - 1)))) by lia.
    all: replace (Z.abs_nat (X - x)) with 1%nat by lia;
      by replace (Z.abs_nat (X - (x - 1))) with O by lia.
  - assert (x = X) as -> by lia. replace (Z.abs_nat (X - X)) with O by lia.
    destruct (Z.ltb_spec y Y) as [Hlt|Hge'].
    + exists "North"%string, X, (y + 1), "South"%string. cbn. zcases;
        replace (Z.abs_nat (X - X)) with O by lia; cbn;
        split_and!; try (done || lia || (do 2 f_equal; lia));
        by replace (Z.abs_nat (Y - y)) with (S (Z.abs_nat (Y - (y + 1)))) by lia.
    + exists "South"%string, X, (y - 1), "North"%string. cbn. zcases;
        replace (Z.abs_nat (X - X)) with O by lia; cbn;
        split_and!; try (done || lia || (do 2 f_equal; lia));
        try by replace (Z.abs_nat (Y - y)) with (S (Z.abs_nat (Y - (y - 1)))) by lia.
      all: replace (Z.abs_nat (Y - y)) with 1%nat by lia;
        by replace (Z.abs_nat (Y - (y - 1))) with O by lia.
Qed.

Lemma xy_walk_coords c route X Y n x y i :
  0 ≤ x < m_num_cols c → 0 ≤ y < m_num_rows c →
  0 ≤ X < m_num_cols c → 0 ≤ Y < m_num_rows c →
  dest_router route = X + Y * m_num_cols c →
  xy_entry_ok i (X - x) (Y - y) →
  Z.abs (X - x) + Z.abs (Y - y) ≤ Z.of_nat n →
  xy_walk c n (x + y * m_num_cols c) i route =
    Ok (xy_directions (X - x) (Y - y), X + Y * m_num_cols c).
Proof.
  intros Hx Hy HX HY Hd. revert x y i Hx Hy.
  assert (Hdone : ∀ x y, 0 ≤ x < m_num_cols c → 0 ≤ y → x = X → y = Y →
    xy_directions (X - x) (Y - y) = []).
  { intros x y _ _ -> ->. unfold xy_directions.
    by replace (Z.abs_nat (X - X)) with O by lia;
       replace (Z.abs_nat (Y - Y)) with O by lia. }
  induction n as [|n IH]; intros x y i Hx Hy Hi Hn; cbn [xy_walk].
  - assert (x = X) as -> by lia. assert (y = Y) as -> by lia.
    rewrite Hd, Z.eqb_refl, Hdone; done || lia.
  - rewrite Hd. destruct (Z.eqb_spec (X + Y * m_num_cols c) (x + y * m_num_cols c)) as [E|E].
    + assert (x = X ∧ y = Y) as [-> ->].
      { destruct (mesh_coords (m_num_cols c) x y) as (? & ? & _); [lia|lia|].
        destruct (mesh_coords (m_num_cols c) X Y) as (? & ? & _); [lia|lia|].
        rewrite E in *. lia. }
      rewrite Hdone; done || lia.
    + assert (x ≠ X ∨ y ≠ Y) as Hne.
      { destruct (decide (x = X)) as [->|]; [right|by left]. intros ->. done. }
      destruct (xy_step c route x y X Y i) as
        (d & x' & y' & i' & -> & Hh & Hx' & Hy' & Hi' & -> & Habs); try done.
      cbn [rbind]. rewrite Hh. cbn [determinate rbind].
      rewrite (IH x' y' i') by (done || lia). done.
Qed.

(** C14: XY routing delivers.  On a mesh of [m_num_rows] by [m_num_cols]
    routers, a packet injected in any router and routed by [outportComputeXY]
    reaches its destination router after exactly the Manhattan distance, first
    along X and then along Y, and no assertion of the algorithm on the input
    direction fails on the way. *)
Theorem xy_routing_delivers c route src n :
  0 < m_num_rows c → 0 < m_num_cols c →
  0 ≤ src < m_num_rows c * m_num_cols c →
  0 ≤ dest_router route < m_num_rows c * m_num_cols c →
  let dx := dest_router route mod m_num_cols c - src mod m_num_cols c in
  let dy := dest_router route / m_num_cols c - src / m_num_cols c in
  Z.abs dx + Z.abs dy ≤ Z.of_nat n →
  xy_walk c n src "Local" route = Ok (xy_directions dx dy, dest_router route).
Proof.
  intros Hr Hc Hs Hd dx dy Hn. set (cols := m_num_cols c) in *.
  pose proof (Z.div_mod src cols ltac:(lia)).
  pose proof (Z.mod_pos_bound src cols ltac:(lia)).
  pose proof (Z.div_mod (dest_router route) cols ltac:(lia)).
  pose proof (Z.mod_pos_bound (dest_router route) cols ltac:(lia)).
  replace src with (src mod cols + src / cols * cols) at 1 by lia.
  transitivity (Ok (xy_directions dx dy,
    dest_router route mod cols + dest_router route / cols * cols));
    [|do 2 f_equal; lia].
  apply xy_walk_coords; try lia; try done.
  - split; [apply Z.div_pos; lia|apply Z.div_lt_upper_bound; lia].
  - split; [apply Z.div_pos; lia|apply Z.div_lt_upper_bound; lia].
  - unfold xy_entry_ok. by zcases; auto.
Qed.

End RoutingUnit.
End RoutingUnit.

(** ** Lookups on concrete tables *)

Module RoutingExample.
Import ExampleMachines RoutingUnit.
#[local] Existing Instance machines.

(** One ordered virtual network on a mesh of two rows and three columns. *)
Definition config : NetConfig := mkNetConfig 2 3 1 4 4 [DATA_VNET_] [true].

(** Two links lead to controller 1 of type 0, the second with less weight. *)
Definition table : RoutingUnit.t :=
  RoutingUnit.mk [[dest 0 1; dest 0 1; dest 0 0]] [5; 2; 1] ∅ ∅ ∅ ∅.

Lemma dest_wf ty num : 0 ≤ num < 2 → NetDest.wf (dest ty num).
Proof.
  intros Hn. split; [done|]. intros i s [_ Hs]%zlookup_Some.
  assert (s = RubySet.mk 2 0 ∨ s = RubySet.mk 2 (Z.shiftl 1 num)) as Hs'.
  { destruct (Z.to_nat i) as [|[|k]]; cbn in Hs; simplify_eq;
      try case_match; auto. }
  split; [|by destruct Hs' as [-> | ->]].
  split; [by destruct Hs' as [-> | ->]|]. destruct Hs' as [-> | ->]; cbn [RubySet.bits].
  - intros j Hj. by rewrite Z.testbit_0_l in Hj.
  - intros j. rewrite Z.shiftl_1_l, Z.pow2_bits_eqb by lia. intros ->%Z.eqb_eq. done.
Qed.

Lemma lookupRoutingTable_correct_witness :
  ∃ l, lookupRoutingTable config 7 table 0 (dest 0 1) = Ok l ∧
       best_link [5; 2; 1] (dest 0 1) [dest 0 1; dest 0 1; dest 0 0] true l.
Proof.
  apply (lookupRoutingTable_correct config 7 table 0 (dest 0 1)
           [dest 0 1; dest 0 1; dest 0 0] true); [done| | |done|done|].
  - split; [|done]. repeat apply Forall_cons_2; [apply dest_wf; lia..|apply Forall_nil_2].
  - apply dest_wf; lia.
  - exists 1, 2. repeat split; [|done]. exists (dest 0 1). by split.
Defined.

Lemma xy_routing_delivers_witness :
  xy_walk config 3 0 "Local" (mkRoute 0 [] 0 0 0 5 0 false 0 0 0)
  = Ok (["East"; "East"; "North"], 5).
Proof.
  exact (xy_routing_delivers config (mkRoute 0 [] 0 0 0 5 0 false 0 0 0) 0 3
           ltac:(done) ltac:(done) ltac:(done) ltac:(done) ltac:(done)).
Defined.

End RoutingExample.
