(* ===== verification/Clocking.v ===== *)
(** * Clocks and wake-ups

    [sim/clocked_object.hh] (class [Clocked]: the lazily updated pair of the
    next clock edge and its cycle number) and
    [mem/ruby/common/Consumer.{hh,cc}] (the set of ticks an object has asked to
    be woken at, of which one at a time is in the event queue). *)

From S2P Require Import Prelude.
From S2P Require Import IntMath.
From S2P Require Import Flit.

(** ** [Clocked] *)

Module Clocked.

Record t := mk { tick : Tick; cycle : Cycles; clockPeriod : Tick }.

(** [Clocked(clk_domain)] *)
Definition make (period : Tick) : t := mk 0 0 period.

(** [update()] at the current tick [cur]. *)
Definition update (c : t) (cur : Tick) : t :=
  if cur <=? tick c then c
  else
    let tick1 := tick c + clockPeriod c in
    let cycle1 := cycle c + 1 in
    if cur <=? tick1 then mk tick1 cycle1 (clockPeriod c)
    else
      let elapsedCycles := divCeil (cur - tick1) (clockPeriod c) in
      mk (tick1 + elapsedCycles * clockPeriod c) (cycle1 + elapsedCycles)
         (clockPeriod c).

Definition resetClock (c : t) (cur : Tick) : t :=
  let elapsedCycles := divCeil cur (clockPeriod c) in
  mk (elapsedCycles * clockPeriod c) elapsedCycles (clockPeriod c).

(** The queries update the cached edge first. *)
Definition clockEdge (c : t) (cur : Tick) (cycles : Cycles) : Tick :=
  tick (update c cur) + clockPeriod c * cycles.

Definition curCycle (c : t) (cur : Tick) : Cycles := cycle (update c cur).

Definition nextCycle (c : t) (cur : Tick) : Tick := clockEdge c cur 1.

Definition ticksToCycles (c : t) (ticks : Tick) : Cycles :=
  divCeil ticks (clockPeriod c).

Definition cyclesToTicks (c : t) (cy : Cycles) : Tick := clockPeriod c * cy.

(** The cache is a clock edge no further than a period beyond [last], the tick
    of the last query. *)
Definition wf (c : t) (last : Tick) : Prop :=
  0 < clockPeriod c ∧ tick c = cycle c * clockPeriod c ∧
  0 ≤ cycle c ∧ tick c < last + clockPeriod c.

Lemma make_wf period : 0 < period → wf (make period) 0.
Proof. unfold wf. cbn. lia. Qed.

Lemma update_period c cur : clockPeriod (update c cur) = clockPeriod c.
Proof. unfold update. zcases; done. Qed.

(** Whatever branch [update] takes, it finds the first edge at or after the
    current tick. *)
Lemma update_spec c last cur :
  wf c last → last ≤ cur →
  cycle (update c cur) = divCeil cur (clockPeriod c) ∧ wf (update c cur) cur ∧
  cur ≤ tick (update c cur).
Proof.
  intros (Hp & Ht & Hc & Hl) Hcur. unfold update.
  assert (Hq : ∀ q, (q - 1) * clockPeriod c < cur ≤ q * clockPeriod c →
                    q = divCeil cur (clockPeriod c)).
  { intros q Hq. symmetry. by apply divCeil_spec. }
  destruct (Z.leb_spec cur (tick c)); [|destruct (Z.leb_spec cur (tick c + clockPeriod c))].
  - split_and!; [apply Hq; nia| |done]. split_and!; [done|done|done|lia].
  - cbn. split_and!; [apply Hq; nia| |done]. split_and!; cbn; nia.
  - cbn. pose proof (divCeil_mul_ge (cur - (tick c + clockPeriod c)) (clockPeriod c) Hp).
    pose proof (divCeil_pos (cur - (tick c + clockPeriod c)) (clockPeriod c) Hp ltac:(lia)).
    split_and!; [apply Hq; nia| |nia]. split_and!; cbn; nia.
Qed.

(** Updating twice in the same tick changes nothing. *)
Lemma update_idem c last cur :
  wf c last → last ≤ cur → update (update c cur) cur = update c cur.
Proof.
  intros Hw Hle. destruct (update_spec c last cur Hw Hle) as (_ & _ & Ht).
  unfold update at 1. by zcases.
Qed.

Lemma clockEdge_eq c last cur n :
  wf c last → last ≤ cur →
  clockEdge c cur n = (divCeil cur (clockPeriod c) + n) * clockPeriod c.
Proof.
  intros Hw Hle. destruct (update_spec c last cur Hw Hle) as (Hc & Hw' & _).
  unfold clockEdge. destruct Hw' as (_ & Ht & _).
  rewrite update_period in Ht. rewrite Ht, Hc. lia.
Qed.

(** On an edge the current tick is the edge. *)
Lemma clockEdge_on_edge c last cur k n :
  wf c last → last ≤ cur → cur = k * clockPeriod c →
  clockEdge c cur n = cur + n * clockPeriod c.
Proof.
  intros Hw Hle Hk. rewrite (clockEdge_eq c last cur n Hw Hle).
  destruct Hw as (Hp & _).
  rewrite (proj2 (divCeil_spec cur (clockPeriod c) k Hp)) by nia. lia.
Qed.

(** [clockEdge(n)] is the [n]-th clock edge from the first edge at or
    after the current tick, and [curCycle()] is the number of that edge,
    however stale the cached edge is. *)
Theorem clockEdge_correct c last cur n :
  wf c last → last ≤ cur →
  clockEdge c cur n = (divCeil cur (clockPeriod c) + n) * clockPeriod c ∧
  curCycle c cur * clockPeriod c = clockEdge c cur 0.
Proof.
  intros Hw Hle. split; [by eapply clockEdge_eq|].
  rewrite (clockEdge_eq c last cur 0 Hw Hle). unfold curCycle.
  destruct (update_spec c last cur Hw Hle) as (-> & _ & _). lia.
Qed.

Lemma clockEdge_correct_witness :
  clockEdge (mk 1000 2 500) 3700 2 = 5000 ∧
  curCycle (mk 1000 2 500) 3700 * 500 = clockEdge (mk 1000 2 500) 3700 0.
Proof.
  apply (clockEdge_correct (mk 1000 2 500) 900 3700 2);
    [unfold wf; cbn; lia|lia].
Defined.

End Clocked.

(** ** [Consumer] *)

Module Consumer.

(** [m_wakeup_ticks] is a [std::set], kept as the increasing list of its
    elements; [m_wakeup_event] is the tick the event is scheduled for. *)
Record t := mk { m_wakeup_ticks : list Tick; m_wakeup_event : option Tick }.

Definition make : t := mk [] None.

(** [std::set::insert] and [std::set::lower_bound] *)
Fixpoint set_insert (x : Tick) (l : list Tick) : list Tick :=
  match l with
  | [] => [x]
  | y :: l' =>
      if x <? y then x :: l else if x =? y then l else y :: set_insert x l'
  end.

Fixpoint lower_bound (x : Tick) (l : list Tick) : option Tick :=
  match l with
  | [] => None
  | y :: l' => if x <=? y then Some y else lower_bound x l'
  end.

Definition alreadyScheduled (c : t) (time : Tick) : bool :=
  existsb (Z.eqb time) (m_wakeup_ticks c).

(** [scheduleNextWakeup()], when [clockEdge()] is [edge]. *)
Definition scheduleNextWakeup (c : t) (edge : Tick) : result t :=
  match lower_bound edge (m_wakeup_ticks c) with
  | None => Ok c
  | Some when =>
      _ ← assert (edge <=? when);
      Ok (match m_wakeup_event c with
          | Some w => if when <? w then mk (m_wakeup_ticks c) (Some when) else c
          | None => mk (m_wakeup_ticks c) (Some when)
          end)
  end.

(** [scheduleEvent(timeDelta)] and [scheduleEventAbsolute(evt_time)] of a
    consumer whose object has the clock [em], at the current tick [cur]. *)
Definition scheduleEvent (em : Clocked.t) (cur : Tick) (c : t)
    (timeDelta : Cycles) : result t :=
  scheduleNextWakeup
    (mk (set_insert (Clocked.clockEdge em cur timeDelta) (m_wakeup_ticks c))
        (m_wakeup_event c))
    (Clocked.clockEdge em cur 0).

Definition scheduleEventAbsolute (em : Clocked.t) (cur : Tick) (c : t)
    (evt_time : Tick) : result t :=
  scheduleNextWakeup
    (mk (set_insert (divCeil evt_time (Clocked.clockPeriod em) *
                     Clocked.clockPeriod em) (m_wakeup_ticks c))
        (m_wakeup_event c))
    (Clocked.clockEdge em cur 0).

(** [processCurrentEvent()]: the event has left the queue; [wakeup] is the
    virtual method, which may schedule further wake-ups. *)
Definition processCurrentEvent (em : Clocked.t) (cur : Tick)
    (wakeup : t → result t) (c : t) : result t :=
  match m_wakeup_ticks c with
  | [] => Err Undefined
  | curr :: rest =>
      _ ← assert (Clocked.clockEdge em cur 0 =? curr);
      c1 ← wakeup (mk rest None);
      scheduleNextWakeup c1 (Clocked.clockEdge em cur 0)
  end.

(** All requests lie at or after [edge] and the event is scheduled for the
    first of them. *)
Definition wf (c : t) (edge : Tick) : Prop :=
  StronglySorted Z.lt (m_wakeup_ticks c) ∧
  Forall (λ x, edge ≤ x) (m_wakeup_ticks c) ∧
  m_wakeup_event c = head (m_wakeup_ticks c).

Lemma elem_of_set_insert x y l : y ∈ set_insert x l ↔ y = x ∨ y ∈ l.
Proof.
  induction l as [|z l IH]; cbn; [set_solver|].
  destruct (x <? z); [set_solver|]. destruct (Z.eqb_spec x z); set_solver.
Qed.

Lemma set_insert_sorted x l :
  StronglySorted Z.lt l → StronglySorted Z.lt (set_insert x l).
Proof.
  induction 1 as [|y l Hs IH Hall]; cbn; [by repeat constructor|].
  destruct (Z.ltb_spec x y).
  - constructor; [by constructor|]. constructor; [done|].
    eapply Forall_impl; [exact Hall|]. intros z; cbn; lia.
  - destruct (Z.eqb_spec x y); [by constructor|]. constructor; [done|].
    apply Forall_forall. intros z [->|Hz]%elem_of_set_insert; [lia|].
    rewrite Forall_forall in Hall. by apply Hall.
Qed.

Lemma lower_bound_head edge l :
  Forall (λ x, edge ≤ x) l → lower_bound edge l = head l.
Proof. intros [|y l' Hy _]; cbn; [done|]. by zcases. Qed.

(** Rescheduling restores the invariant whenever the event was scheduled for
    some request that is still in the set, or not at all. *)
Lemma scheduleNextWakeup_wf ticks ev edge :
  StronglySorted Z.lt ticks → Forall (λ x, edge ≤ x) ticks →
  (∀ w, ev = Some w → w ∈ ticks) →
  ∃ c', scheduleNextWakeup (mk ticks ev) edge = Ok c' ∧
        m_wakeup_ticks c' = ticks ∧ wf c' edge.
Proof.
  intros Hs Hf Hev. unfold scheduleNextWakeup. cbn.
  rewrite lower_bound_head by done.
  destruct ticks as [|x l]; cbn.
  - eexists. split_and!; [done|done|]. split_and!; [done|done|].
    destruct ev as [w|]; [|done]. specialize (Hev w eq_refl). set_solver.
  - inversion Hf as [|? ? Hx _]; subst. destruct (Z.leb_spec edge x); [|lia]. cbn.
    assert (Hmin : ∀ w, w ∈ x :: l → x ≤ w).
    { intros w [->|Hw]%elem_of_cons; [lia|].
      inversion Hs as [|? ? _ Hall]; subst. rewrite Forall_forall in Hall.
      specialize (Hall w Hw). lia. }
    destruct ev as [w|]; [|by eexists].
    specialize (Hmin w (Hev w eq_refl)).
    destruct (Z.ltb_spec x w); eexists; (split_and!; [done|done|]);
      split_and!; try done. cbn. f_equal. lia.
Qed.

Lemma schedule_wf c edge tk :
  wf c edge → edge ≤ tk →
  ∃ c', scheduleNextWakeup
          (mk (set_insert tk (m_wakeup_ticks c)) (m_wakeup_event c)) edge = Ok c' ∧
        m_wakeup_ticks c' = set_insert tk (m_wakeup_ticks c) ∧ wf c' edge.
Proof.
  intros (Hs & Hf & He) Htk. apply scheduleNextWakeup_wf.
  - by apply set_insert_sorted.
  - apply Forall_forall. intros x [->|Hx]%elem_of_set_insert; [done|].
    rewrite Forall_forall in Hf. by apply Hf.
  - intros w Hw. apply elem_of_set_insert. right. rewrite He in Hw.
    destruct (m_wakeup_ticks c); [done|]. injection Hw as ->. left.
Qed.

(** Firing the events one after the other when no handler asks for more: the
    ticks at which [wakeup()] runs. *)
Fixpoint fire_all (em : Clocked.t) (fuel : nat) (c : t) : result (list Tick) :=
  match fuel, m_wakeup_event c with
  | S n, Some w =>
      c' ← processCurrentEvent em w Ok c;
      ws ← fire_all em n c';
      Ok (w :: ws)
  | _, _ => Ok []
  end.

(** [x] is a clock edge. *)
Definition aligned (em : Clocked.t) (x : Tick) : Prop :=
  ∃ k, x = k * Clocked.clockPeriod em.

Lemma fire_all_ticks em last edge c :
  Clocked.wf em last → last ≤ edge → wf c edge →
  Forall (aligned em) (m_wakeup_ticks c) →
  fire_all em (length (m_wakeup_ticks c)) c = Ok (m_wakeup_ticks c).
Proof.
  destruct c as [ticks ev]. cbn. intros Hem. revert edge ev.
  induction ticks as [|x l IH]; intros edge ev Hle (Hs & Hf & He) Ha; [done|].
  cbn in *. subst ev. unfold processCurrentEvent. cbn.
  inversion Hs as [|? ? Hs' Hall]; inversion Hf as [|? ? Hx Hf'];
    inversion Ha as [|? ? [k Hk] Ha']; subst.
  rewrite (Clocked.clockEdge_on_edge em last _ k) by (done || lia).
  rewrite Z.mul_0_l, Z.add_0_r, Z.eqb_refl. cbn.
  destruct (scheduleNextWakeup_wf l None (k * Clocked.clockPeriod em))
    as (c' & -> & Ht & Hwf); [done| |done|].
  { eapply Forall_impl; [exact Hall|]. cbn. lia. }
  cbn. destruct c' as [l' ev']. cbn in Ht. subst l'.
  rewrite (IH (k * Clocked.clockPeriod em) ev'); [done|lia|done|done].
Qed.

(** No wake-up is lost or duplicated.  A request made through
    [scheduleEventAbsolute] at or after the current edge joins the pending
    ones, the event is then scheduled for the earliest of them, and the events
    that fire run [wakeup()] at exactly the requested ticks, each once and in
    increasing order. *)
Theorem consumer_wakeups em last cur c tk :
  Clocked.wf em last → last ≤ cur → cur ≤ tk →
  wf c (Clocked.clockEdge em cur 0) → Forall (aligned em) (m_wakeup_ticks c) →
  let up := divCeil tk (Clocked.clockPeriod em) * Clocked.clockPeriod em in
  ∃ c', scheduleEventAbsolute em cur c tk = Ok c' ∧
        wf c' (Clocked.clockEdge em cur 0) ∧
        fire_all em (length (m_wakeup_ticks c')) c' =
          Ok (set_insert up (m_wakeup_ticks c)) ∧
        StronglySorted Z.lt (set_insert up (m_wakeup_ticks c)) ∧
        ∀ x, x ∈ set_insert up (m_wakeup_ticks c) ↔
             x = up ∨ x ∈ m_wakeup_ticks c.
Proof.
  intros Hem Hle Htk Hw Ha up. pose proof Hem as (Hp & _).
  assert (Hedge : Clocked.clockEdge em cur 0 ≤ up).
  { rewrite (Clocked.clockEdge_eq em last) by done. rewrite Z.add_0_r.
    apply Z.mul_le_mono_nonneg_r; [lia|]. apply Z.div_le_mono; lia. }
  destruct (schedule_wf c _ up Hw Hedge) as (c' & Hc' & Ht & Hw').
  exists c'. split_and!; [done|done| | |by intros; apply elem_of_set_insert].
  - rewrite <- Ht. apply (fire_all_ticks em last (Clocked.clockEdge em cur 0));
      [done| |done|].
    + rewrite (Clocked.clockEdge_eq em last) by done.
      pose proof (divCeil_mul_ge cur (Clocked.clockPeriod em) Hp). lia.
    + rewrite Ht. apply Forall_forall. intros x [->|Hx]%elem_of_set_insert.
      * by eexists.
      * rewrite Forall_forall in Ha. by apply Ha.
  - apply set_insert_sorted. by destruct Hw.
Qed.

Lemma consumer_wakeups_witness :
  ∃ c', scheduleEventAbsolute (Clocked.make 500) 700 (mk [2000] (Some 2000)) 1200 = Ok c' ∧
        fire_all (Clocked.make 500) (length (m_wakeup_ticks c')) c' = Ok [1500; 2000].
Proof.
  destruct (consumer_wakeups (Clocked.make 500) 0 700 (mk [2000] (Some 2000)) 1200)
    as (c' & H1 & _ & H2 & _).
  - by apply Clocked.make_wf.
  - lia.
  - lia.
  - split_and!; repeat constructor. vm_compute. discriminate.
  - repeat constructor. exists 4. reflexivity.
  - exists c'. split; [exact H1|exact H2].
Defined.

End Consumer.
