(* ===== verification/Links.v ===== *)
(** * Network and credit links

    [garnet/NetworkLink.{hh,cc}] and [garnet/CreditLink.hh].  A link moves one
    flit per cycle from the queue of its source object into its own
    [linkBuffer], where the consumer finds it [m_latency] cycles later.

    The source queue belongs to another object and the link holds a pointer to
    it: [wakeup] takes the queue the pointer designates ([None] for a null
    pointer) and returns it as the link leaves it, together with the ticks at
    which it schedules its consumer. *)

From S2P Require Import Prelude.
From S2P Require Import IntMath.
From S2P Require Import NetDest.
From S2P Require Import Flit.
From S2P Require Import Clocking.

Module NetworkLink.

Record t := mk {
  m_id : Z;
  m_type : link_type;
  m_latency : Cycles;
  m_link_utilized : Z;
  m_vc_load : list Z;
  m_virt_nets : Z;
  linkBuffer : FlitBuffer.t;
  mVnets : list Z;
  bitWidth : Z;
  clk : Clocked.t;
  consumer : Consumer.t;
}.

(** [NetworkLink(p)] *)
Definition make (link_id link_latency virt_nets : Z) (supported_vnets : list Z)
    (width : Z) (clock : Clocked.t) : t :=
  mk link_id NUM_LINK_TYPES_ link_latency 0 [] virt_nets FlitBuffer.empty
     supported_vnets width clock Consumer.make.

Definition setType (l : t) (type : link_type) : t :=
  mk (m_id l) type (m_latency l) (m_link_utilized l) (m_vc_load l)
     (m_virt_nets l) (linkBuffer l) (mVnets l) (bitWidth l) (clk l) (consumer l).

Definition with_vc_load (l : t) (load : list Z) : t :=
  mk (m_id l) (m_type l) (m_latency l) (m_link_utilized l) load
     (m_virt_nets l) (linkBuffer l) (mVnets l) (bitWidth l) (clk l) (consumer l).

Definition with_buffer (l : t) (b : FlitBuffer.t) : t :=
  mk (m_id l) (m_type l) (m_latency l) (m_link_utilized l) (m_vc_load l)
     (m_virt_nets l) b (mVnets l) (bitWidth l) (clk l) (consumer l).

Definition with_consumer (l : t) (c : Consumer.t) : t :=
  mk (m_id l) (m_type l) (m_latency l) (m_link_utilized l) (m_vc_load l)
     (m_virt_nets l) (linkBuffer l) (mVnets l) (bitWidth l) (clk l) c.

Definition with_utilized (l : t) (n : Z) : t :=
  mk (m_id l) (m_type l) (m_latency l) n (m_vc_load l)
     (m_virt_nets l) (linkBuffer l) (mVnets l) (bitWidth l) (clk l) (consumer l).

Definition setVcsPerVnet (l : t) (consumerVcs : Z) : t :=
  with_vc_load l (vresize 0 (m_virt_nets l * consumerVcs) (m_vc_load l)).

Definition isReady (l : t) (curTime : Tick) : bool :=
  FlitBuffer.isReady (linkBuffer l) curTime.

Definition peekLink (l : t) : result flit := FlitBuffer.peekTopFlit (linkBuffer l).

Definition consumeLink (l : t) : result (flit * t) :=
  '(f, b) ← FlitBuffer.getTopFlit (linkBuffer l);
  Ok (f, with_buffer l b).

(** The part of [wakeup] under [if (link_srcQueue->isReady(curTick()))]. *)
Definition transfer (cur : Tick) (l : t) (src : FlitBuffer.t)
    : result (t * FlitBuffer.t * list Tick) :=
  '(t_flit, src) ← FlitBuffer.getTopFlit src;
  _ ← (if bool_decide (m_type l = NUM_LINK_TYPES_) then Ok tt
       else
         _ ← assert (flit_m_width t_flit =? bitWidth l);
         assert (existsb (Z.eqb (flit_m_vnet t_flit)) (mVnets l) ||
                 (zlen (mVnets l) =? 0)));
  let arrival := Clocked.clockEdge (clk l) cur (m_latency l) in
  let t_flit := set_time t_flit arrival in
  let l := with_buffer l (FlitBuffer.insert (linkBuffer l) t_flit) in
  let l := with_utilized l (wrap32 (m_link_utilized l + 1)) in
  load ← vupd (m_vc_load l) (flit_m_vc t_flit) (λ n, Ok (wrap32 (n + 1)));
  Ok (with_vc_load l load, src, [arrival]).

Definition wakeup (cur : Tick) (l : t) (link_srcQueue : option FlitBuffer.t)
    : result (t * FlitBuffer.t * list Tick) :=
  match link_srcQueue with
  | None => Err AssertFailed
  | Some src =>
      _ ← assert (cur =? Clocked.clockEdge (clk l) cur 0);
      '(l, src, sched) ←
        (if FlitBuffer.isReady src cur then transfer cur l src
         else Ok (l, src, []));
      if FlitBuffer.isEmpty src then Ok (l, src, sched)
      else
        c ← Consumer.scheduleEvent (clk l) cur (consumer l) 1;
        Ok (with_consumer l c, src, sched)
  end.

Definition resetStats (l : t) : t :=
  with_utilized (with_vc_load l (map (λ _, 0) (m_vc_load l))) 0.

Section functional.
  Context {P : Type}.
  Variable msg_functionalRead : nat → P → bool * P.
  Variable msg_functionalWrite : nat → P → bool * P.

Definition functionalRead (l : t) (p : P) : result (bool * P) :=
  FlitBuffer.functionalRead msg_functionalRead (linkBuffer l) p.

Definition functionalWrite (l : t) (p : P) : result (Z * P) :=
  FlitBuffer.functionalWrite msg_functionalWrite (linkBuffer l) p.
End functional.

(** [CreditLink(p)] adds nothing to the link it derives from. *)
Definition make_CreditLink := make.

End NetworkLink.

(** ** Counting flits by virtual channel *)

(** The number of flits of channel [v] in a queue. *)
Definition nvc (v : Z) (b : FlitBuffer.t) : Z :=
  zlen (filter (λ f, flit_m_vc f = v) (FlitBuffer.m_buffer b)).

Definition one_if (b : bool) : Z := if b then 1 else 0.

Lemma one_if_nonneg b : 0 ≤ one_if b.
Proof. destruct b; cbn; lia. Qed.

Lemma nvc_nonneg v b : 0 ≤ nvc v b.
Proof. apply zlen_nonneg. Qed.

Lemma nvc_empty v : nvc v FlitBuffer.empty = 0.
Proof. done. Qed.

Lemma nvc_insert v b f :
  nvc v (FlitBuffer.insert b f) = nvc v b + one_if (bool_decide (flit_m_vc f = v)).
Proof.
  unfold nvc. cbn. rewrite filter_app, zlen_app. f_equal.
  case_bool_decide as E; unfold zlen; rewrite filter_cons, filter_nil;
    by destruct (decide (flit_m_vc f = v)).
Qed.

Lemma nvc_getTopFlit v b f b' :
  FlitBuffer.getTopFlit b = Ok (f, b') →
  nvc v b = one_if (bool_decide (flit_m_vc f = v)) + nvc v b'.
Proof.
  intros [Hb _]%FlitBuffer.getTopFlit_Ok. unfold nvc.
  rewrite Hb, filter_cons.
  destruct (decide (flit_m_vc f = v)) as [E|E].
  - by rewrite bool_decide_eq_true_2, zlen_cons.
  - by rewrite bool_decide_eq_false_2.
Qed.

#[export] Hint Resolve nvc_nonneg one_if_nonneg : garnet.

Module LinkFacts.
Import NetworkLink.

(** What a link does to a flit: the arrival time is the only field changed. *)
Definition same_but_time (f g : flit) : Prop :=
  set_time f 0 = set_time g 0.

(** The flits on the way through the link, oldest first. *)
Definition in_transit (l : t) (src : FlitBuffer.t) : list flit :=
  FlitBuffer.m_buffer (linkBuffer l) ++ FlitBuffer.m_buffer src.

Lemma transfer_Ok cur l src l' src' sched :
  transfer cur l src = Ok (l', src', sched) →
  ∃ f, FlitBuffer.getTopFlit src = Ok (f, src') ∧
       linkBuffer l' = FlitBuffer.insert (linkBuffer l)
         (set_time f (Clocked.clockEdge (clk l) cur (m_latency l))) ∧
       sched = [Clocked.clockEdge (clk l) cur (m_latency l)] ∧
       m_latency l' = m_latency l ∧ clk l' = clk l ∧
       (m_type l ≠ NUM_LINK_TYPES_ → flit_m_width f = bitWidth l).
Proof.
  unfold transfer. intros H. apply bind_Ok in H as ([f s] & Hf & H).
  apply bind_Ok in H as ([] & Ha & H). apply bind_Ok in H as (load & _ & [= <- <- <-]).
  exists f. split_and!; try done. intros Hne.
  rewrite bool_decide_eq_false_2 in Ha by done.
  apply bind_Ok in Ha as ([] & Ha & _). by apply assert_Ok, Z.eqb_eq in Ha.
Qed.

Lemma wakeup_Ok cur l src l' src' sched :
  wakeup cur l (Some src) = Ok (l', src', sched) →
  ∃ l1, (FlitBuffer.isReady src cur = true ∧ transfer cur l src = Ok (l1, src', sched)
         ∨ FlitBuffer.isReady src cur = false ∧ l1 = l ∧ src' = src ∧ sched = []) ∧
        linkBuffer l' = linkBuffer l1 ∧ m_latency l' = m_latency l1 ∧ clk l' = clk l1 ∧
        cur = Clocked.clockEdge (clk l) cur 0.
Proof.
  unfold wakeup. intros H. apply bind_Ok in H as ([] & Ha & H).
  apply assert_Ok, Z.eqb_eq in Ha. apply bind_Ok in H as ([[l1 s] sc] & Hr & H).
  exists l1. assert (src' = s ∧ sched = sc ∧ linkBuffer l' = linkBuffer l1 ∧
    m_latency l' = m_latency l1 ∧ clk l' = clk l1) as (-> & -> & Hb & Hlat & Hc).
  { destruct (FlitBuffer.isEmpty s); [naive_solver|].
    apply bind_Ok in H as (c & _ & [= <- <- <-]). done. }
  split_and!; [|done..]. destruct (FlitBuffer.isReady src cur) eqn:E; [by left|].
  injection Hr as -> -> ->. by right.
Qed.

(** Per channel, a wake-up of the link neither creates nor loses flits. *)
Lemma wakeup_conserves v cur l src l' src' sched :
  wakeup cur l (Some src) = Ok (l', src', sched) →
  nvc v src' + nvc v (linkBuffer l') = nvc v src + nvc v (linkBuffer l).
Proof.
  intros (l1 & Hcase & -> & _)%wakeup_Ok.
  destruct Hcase as [[_ Ht]|(_ & -> & -> & _)]; [|done].
  apply transfer_Ok in Ht as (f & Hf & -> & _).
  rewrite nvc_insert, (nvc_getTopFlit v _ _ _ Hf). cbn. lia.
Qed.

(** A link is a lossless FIFO with a fixed delay.  A wake-up moves at most
    one flit, the oldest of the source queue and only once its time has come,
    to the end of the link buffer; nothing but its time changes, which becomes
    the link latency after the current edge, the tick at which the consumer is
    scheduled; the sequence of flits in transit is preserved. *)
Theorem link_fifo cur l src l' src' sched :
  wakeup cur l (Some src) = Ok (l', src', sched) →
  Forall2 same_but_time (in_transit l' src') (in_transit l src) ∧
  ((FlitBuffer.isReady src cur = false ∧ src' = src ∧
    linkBuffer l' = linkBuffer l ∧ sched = []) ∨
   ∃ f, FlitBuffer.getTopFlit src = Ok (f, src') ∧ flit_m_time f ≤ cur ∧
        let arrival := Clocked.clockEdge (clk l) cur (m_latency l) in
        linkBuffer l' = FlitBuffer.insert (linkBuffer l) (set_time f arrival) ∧
        sched = [arrival]).
Proof.
  intros (l1 & Hcase & Hb & _)%wakeup_Ok. unfold in_transit. rewrite Hb.
  assert (Hrefl : ∀ fs, Forall2 same_but_time fs fs)
    by (induction fs; by constructor).
  destruct Hcase as [[Hready Ht]|(Hready & -> & -> & ->)].
  - apply transfer_Ok in Ht as (f & Hf & -> & -> & _). split.
    + pose proof (proj1 (FlitBuffer.getTopFlit_Ok _ _ _) Hf) as [-> _]. cbn.
      rewrite <- app_assoc. apply Forall2_app; [done|]. by constructor.
    + right. exists f. split_and!; try done.
      destruct (FlitBuffer.isReady_getTopFlit _ _ Hready) as (g & gs & _ & Ht & Hg).
      congruence.
  - split; [apply Hrefl|]. by left.
Qed.

(** A link of latency 1 on a clock of period 1000, woken at tick 2000 with a
    ready flit in its source queue. *)
Definition demo_flit : flit :=
  new_flit 7 0 0 0 (RouteInfo0 []) 1 None 16 16 1000.

Definition demo_link : t :=
  setVcsPerVnet (make 3 1 1 [] 16 (Clocked.make 1000)) 1.

Lemma link_fifo_witness :
  ∃ l' src' sched,
    wakeup 2000 demo_link (Some (FlitBuffer.mk [demo_flit] INFINITE_)) =
      Ok (l', src', sched) ∧
    Forall2 same_but_time (in_transit l' src') [demo_flit] ∧ sched = [3000].
Proof.
  eexists _, _, _. split; [vm_compute; reflexivity|]. split; [|reflexivity].
  refine (proj1 (link_fifo 2000 demo_link (FlitBuffer.mk [demo_flit] INFINITE_) _ _ _ _)).
  vm_compute. reflexivity.
Defined.

End LinkFacts.
