(* ===== verification/Pipeline.v ===== *)
(** * The router pipeline

    [garnet/InputUnit.{hh,cc}], [garnet/OutputUnit.{hh,cc}],
    [garnet/CrossbarSwitch.{hh,cc}], [garnet/SwitchAllocator.{hh,cc}] and
    [garnet/Router.{hh,cc}], one module each.

    A unit reaches the other units through its router, so the state they share
    is the record [Router.t].  The links are objects of their own: a wake-up of
    the router takes the buffers of its incoming network links and of its
    incoming credit links, one per port, and returns them as it leaves them.
    The wake-ups it schedules on its outgoing links are appended to
    [m_scheduled].  [rand()] is a function of the input port that draws it. *)

From S2P Require Import Prelude.
From S2P Require Import IntMath.
From S2P Require Import NetDest.
From S2P Require Import Flit.
From S2P Require Import VirtualChannels.
From S2P Require Import Routing.
From S2P Require Import Clocking.
From S2P Require Import Links.

(** A wake-up scheduled on the credit link of an input port or on the network
    link of an output port, at an absolute tick. *)
Inductive link_event :=
| CreditLinkAt (inport : Z) (time : Tick)
| OutLinkAt (outport : Z) (time : Tick).

(** What a router's units read while it is awake: the network configuration,
    the current tick, [rand()], and the default-constructed [RouteInfo()]. *)
Record Env := mkEnv {
  cfg : NetConfig;
  curTick : Tick;
  rand : Z → Z;
  route0 : RouteInfo;
}.

(** ** [InputUnit]: state *)

Module InputUnit.

Record t := mk {
  m_id : Z;
  m_direction : PortDirection;
  m_vc_per_vnet : Z;
  creditQueue : FlitBuffer.t;
  virtualChannels : list VirtualChannel.t;
  m_num_buffer_writes : list Z;
  m_num_buffer_reads : list Z;
}.

(** [InputUnit(id, direction, router)] of a router with [num_vcs] channels. *)
Definition make (id : Z) (direction : PortDirection) (num_vcs vc_per_vnet : Z) : t :=
  let n := Z.to_nat (num_vcs / vc_per_vnet) in
  mk id direction vc_per_vnet FlitBuffer.empty
     (replicate (Z.to_nat num_vcs) VirtualChannel.make)
     (replicate n 0) (replicate n 0).

Definition with_vcs (u : t) (vcs : list VirtualChannel.t) : t :=
  mk (m_id u) (m_direction u) (m_vc_per_vnet u) (creditQueue u) vcs
     (m_num_buffer_writes u) (m_num_buffer_reads u).

Definition with_creditQueue (u : t) (q : FlitBuffer.t) : t :=
  mk (m_id u) (m_direction u) (m_vc_per_vnet u) q (virtualChannels u)
     (m_num_buffer_writes u) (m_num_buffer_reads u).

Definition with_counters (u : t) (writes reads : list Z) : t :=
  mk (m_id u) (m_direction u) (m_vc_per_vnet u) (creditQueue u)
     (virtualChannels u) writes reads.

Definition upd_vc (u : t) (vc : Z) (f : VirtualChannel.t → VirtualChannel.t)
    : result t :=
  v ← vget (virtualChannels u) vc;
  vcs ← vset (virtualChannels u) vc (f v);
  Ok (with_vcs u vcs).

Definition set_vc_idle (u : t) (vc : Z) (curTime : Tick) : result t :=
  upd_vc u vc (λ v, VirtualChannel.set_idle v curTime).

Definition set_vc_active (u : t) (vc : Z) (curTime : Tick) : result t :=
  upd_vc u vc (λ v, VirtualChannel.set_active v curTime).

Definition grant_outport (u : t) (vc outport : Z) : result t :=
  upd_vc u vc (λ v, VirtualChannel.set_outport v outport).

Definition grant_outvc (u : t) (vc outvc : Z) : result t :=
  upd_vc u vc (λ v, VirtualChannel.set_outvc v outvc).

Definition get_outport (u : t) (invc : Z) : result Z :=
  v ← vget (virtualChannels u) invc; Ok (VirtualChannel.m_output_port v).

Definition get_outvc (u : t) (invc : Z) : result Z :=
  v ← vget (virtualChannels u) invc; Ok (VirtualChannel.m_output_vc v).

Definition get_enqueue_time (u : t) (invc : Z) : result Tick :=
  v ← vget (virtualChannels u) invc; Ok (VirtualChannel.m_enqueue_time v).

Definition peekTopFlit (u : t) (vc : Z) : result flit :=
  v ← vget (virtualChannels u) vc; VirtualChannel.peekTopFlit v.

Definition getTopFlit (u : t) (vc : Z) : result (flit * t) :=
  v ← vget (virtualChannels u) vc;
  '(f, v') ← VirtualChannel.getTopFlit v;
  vcs ← vset (virtualChannels u) vc v';
  Ok (f, with_vcs u vcs).

Definition need_stage (u : t) (vc : Z) (stage : flit_stage) (time : Tick)
    : result bool :=
  v ← vget (virtualChannels u) vc; VirtualChannel.need_stage v stage time.

Definition isReady (u : t) (invc : Z) (curTime : Tick) : result bool :=
  v ← vget (virtualChannels u) invc; Ok (VirtualChannel.isReady v curTime).

(** [increment_credit]: the credit is queued; the caller schedules the credit
    link for the next cycle of the router. *)
Definition increment_credit (e : Env) (u : t) (in_vc : Z) (free_signal : bool)
    (curTime : Tick) : t :=
  let t_credit := new_Credit (route0 e) in_vc free_signal curTime in
  with_creditQueue u (FlitBuffer.insert (creditQueue u) t_credit).

Definition resetStats (u : t) : t :=
  with_counters u (map (λ _, 0) (m_num_buffer_reads u))
                  (map (λ _, 0) (m_num_buffer_reads u)).

Definition get_buf_read_activity (u : t) (vnet : Z) : result Z :=
  vget (m_num_buffer_reads u) vnet.

Definition get_buf_write_activity (u : t) (vnet : Z) : result Z :=
  vget (m_num_buffer_writes u) vnet.

Section functional.
  Context {P : Type}.
  Variable msg_functionalRead : nat → P → bool * P.
  Variable msg_functionalWrite : nat → P → bool * P.

Definition functionalRead (u : t) (p : P) : result (bool * P) :=
  foldl (λ acc v,
           '(read, p) ← acc;
           '(r, p) ← VirtualChannel.functionalRead msg_functionalRead v p;
           Ok (if (r : bool) then true else read, p))
        (Ok (false, p)) (virtualChannels u).

Definition functionalWrite (u : t) (p : P) : result (Z * P) :=
  foldl (λ acc v,
           '(num, p) ← acc;
           '(n, p) ← VirtualChannel.functionalWrite msg_functionalWrite v p;
           Ok (num + n, p))
        (Ok (0, p)) (virtualChannels u).
End functional.

End InputUnit.

(** ** [OutputUnit] *)

Module OutputUnit.

Record t := mk {
  m_id : Z;
  m_direction : PortDirection;
  m_vc_per_vnet : Z;
  outBuffer : FlitBuffer.t;
  outVcState : list OutVcState.t;
  consumer : Consumer.t;
}.

(** The channels [for (i = 0; i < m_num_vcs; i++) outVcState.emplace_back(..)] *)
Fixpoint make_vcs (c : NetConfig) (consumerVcs i : Z) (n : nat)
    : result (list OutVcState.t) :=
  match n with
  | O => Ok []
  | S n' =>
      o ← OutVcState.make c i consumerVcs;
      os ← make_vcs c consumerVcs (i + 1) n';
      Ok (o :: os)
  end.

(** [OutputUnit(id, direction, router, consumerVcs)] *)
Definition make (c : NetConfig) (id : Z) (direction : PortDirection)
    (num_vnets consumerVcs : Z) : result t :=
  os ← make_vcs c consumerVcs 0 (Z.to_nat (consumerVcs * num_vnets));
  Ok (mk id direction consumerVcs FlitBuffer.empty os Consumer.make).

Definition with_vcs (u : t) (os : list OutVcState.t) : t :=
  mk (m_id u) (m_direction u) (m_vc_per_vnet u) (outBuffer u) os (consumer u).

Definition with_outBuffer (u : t) (b : FlitBuffer.t) : t :=
  mk (m_id u) (m_direction u) (m_vc_per_vnet u) b (outVcState u) (consumer u).

Definition with_consumer (u : t) (c : Consumer.t) : t :=
  mk (m_id u) (m_direction u) (m_vc_per_vnet u) (outBuffer u) (outVcState u) c.

Definition decrement_credit (u : t) (out_vc : Z) : result t :=
  os ← vupd (outVcState u) out_vc OutVcState.decrement_credit;
  Ok (with_vcs u os).

Definition increment_credit (u : t) (out_vc : Z) : result t :=
  os ← vupd (outVcState u) out_vc OutVcState.increment_credit;
  Ok (with_vcs u os).

Definition has_credit (u : t) (cur : Tick) (out_vc : Z) : result bool :=
  o ← vget (outVcState u) out_vc;
  _ ← assert (OutVcState.isInState o ACTIVE_ cur);
  Ok (OutVcState.has_credit o).

Definition set_vc_state (u : t) (state : VC_state_type) (vc : Z) (curTime : Tick)
    : result t :=
  os ← vupd (outVcState u) vc (λ o, Ok (OutVcState.setState o state curTime));
  Ok (with_vcs u os).

Definition is_vc_idle (u : t) (vc : Z) (curTime : Tick) : result bool :=
  o ← vget (outVcState u) vc; Ok (OutVcState.isInState o IDLE_ curTime).

(** The first idle channel of [vc], [vc + 1], .. ([n] channels). *)
Fixpoint first_idle (u : t) (cur : Tick) (vc : Z) (n : nat) : result (option Z) :=
  match n with
  | O => Ok None
  | S n' =>
      b ← is_vc_idle u vc cur;
      if (b : bool) then Ok (Some vc) else first_idle u cur (vc + 1) n'
  end.

Definition has_free_vc (u : t) (cur : Tick) (vnet : Z) : result bool :=
  let vc_base := vnet * m_vc_per_vnet u in
  o ← first_idle u cur vc_base (Z.to_nat (m_vc_per_vnet u));
  Ok (match o with Some _ => true | None => false end).

(** The channel selected ([-1] for none) becomes active. *)
Definition select_free_vc (u : t) (cur : Tick) (vnet : Z) : result (Z * t) :=
  let vc_base := vnet * m_vc_per_vnet u in
  o ← first_idle u cur vc_base (Z.to_nat (m_vc_per_vnet u));
  match o with
  | Some vc => u' ← set_vc_state u ACTIVE_ vc cur; Ok (vc, u')
  | None => Ok (-1, u)
  end.

(** [wakeup()], given the buffer of the credit link and the clock of the
    router. *)
Definition wakeup (cur : Tick) (clk : Clocked.t) (u : t) (credit_buf : FlitBuffer.t)
    : result (t * FlitBuffer.t) :=
  if FlitBuffer.isReady credit_buf cur then
    '(t_credit, credit_buf) ← FlitBuffer.getTopFlit credit_buf;
    u ← increment_credit u (flit_m_vc t_credit);
    free ← is_free_signal t_credit;
    u ← (if (free : bool) then set_vc_state u IDLE_ (flit_m_vc t_credit) cur
         else Ok u);
    if FlitBuffer.isReady credit_buf cur then
      c ← Consumer.scheduleEvent clk cur (consumer u) 1;
      Ok (with_consumer u c, credit_buf)
    else Ok (u, credit_buf)
  else Ok (u, credit_buf).

(** [insert_flit]: the caller schedules the link for the next cycle. *)
Definition insert_flit (u : t) (t_flit : flit) : t :=
  with_outBuffer u (FlitBuffer.insert (outBuffer u) t_flit).

Section functional.
  Context {P : Type}.
  Variable msg_functionalRead : nat → P → bool * P.
  Variable msg_functionalWrite : nat → P → bool * P.

Definition functionalRead (u : t) (p : P) : result (bool * P) :=
  FlitBuffer.functionalRead msg_functionalRead (outBuffer u) p.

Definition functionalWrite (u : t) (p : P) : result (Z * P) :=
  FlitBuffer.functionalWrite msg_functionalWrite (outBuffer u) p.
End functional.

End OutputUnit.

(** ** [CrossbarSwitch] and [SwitchAllocator]: state *)

Module CrossbarSwitch.

Record t := mk {
  m_num_vcs : Z;
  m_crossbar_activity : Z;
  switchBuffers : list FlitBuffer.t;
}.

(** [CrossbarSwitch(router)] and [init()] *)
Definition make (num_vcs : Z) : t := mk num_vcs 0 [].

Definition init (x : t) (num_inports : Z) : t :=
  mk (m_num_vcs x) (m_crossbar_activity x)
     (vresize FlitBuffer.empty num_inports (switchBuffers x)).

Definition update_sw_winner (x : t) (inport : Z) (t_flit : flit) : result t :=
  bs ← vupd (switchBuffers x) inport (λ b, Ok (FlitBuffer.insert b t_flit));
  Ok (mk (m_num_vcs x) (m_crossbar_activity x) bs).

Definition resetStats (x : t) : t := mk (m_num_vcs x) 0 (switchBuffers x).

Section functional.
  Context {P : Type}.
  Variable msg_functionalRead : nat → P → bool * P.
  Variable msg_functionalWrite : nat → P → bool * P.

Definition functionalRead (x : t) (p : P) : result (bool * P) :=
  foldl (λ acc b,
           '(read, p) ← acc;
           '(r, p) ← FlitBuffer.functionalRead msg_functionalRead b p;
           Ok (if (r : bool) then true else read, p))
        (Ok (false, p)) (switchBuffers x).

Definition functionalWrite (x : t) (p : P) : result (Z * P) :=
  foldl (λ acc b,
           '(num, p) ← acc;
           '(n, p) ← FlitBuffer.functionalWrite msg_functionalWrite b p;
           Ok (num + n, p))
        (Ok (0, p)) (switchBuffers x).
End functional.

End CrossbarSwitch.

Module SwitchAllocator.

Record t := mk {
  m_num_inports : Z;
  m_num_outports : Z;
  m_num_vcs : Z;
  m_vc_per_vnet : Z;
  m_input_arbiter_activity : Z;
  m_output_arbiter_activity : Z;
  m_round_robin_invc : list Z;
  m_round_robin_inport : list Z;
  m_port_requests : list Z;
  m_vc_winners : list Z;
}.

(** [SwitchAllocator(router)]; the port counts are set by [init()]. *)
Definition make (num_vcs vc_per_vnet : Z) : t :=
  mk 0 0 num_vcs vc_per_vnet 0 0 [] [] [] [].

(** [init()] *)
Definition init (s : t) (num_inports num_outports : Z) : t :=
  mk num_inports num_outports (m_num_vcs s) (m_vc_per_vnet s)
     (m_input_arbiter_activity s) (m_output_arbiter_activity s)
     (replicate (Z.to_nat num_inports) 0) (replicate (Z.to_nat num_outports) 0)
     (replicate (Z.to_nat num_inports) (-1)) (replicate (Z.to_nat num_inports) (-1)).

Definition with_requests (s : t) (activity : Z) (reqs winners : list Z) : t :=
  mk (m_num_inports s) (m_num_outports s) (m_num_vcs s) (m_vc_per_vnet s)
     activity (m_output_arbiter_activity s)
     (m_round_robin_invc s) (m_round_robin_inport s) reqs winners.

Definition with_grant (s : t) (activity : Z) (rr_invc rr_inport reqs : list Z) : t :=
  mk (m_num_inports s) (m_num_outports s) (m_num_vcs s) (m_vc_per_vnet s)
     (m_input_arbiter_activity s) activity rr_invc rr_inport reqs
     (m_vc_winners s).

Definition clear_request_vector (s : t) : t :=
  with_requests s (m_input_arbiter_activity s)
    (map (λ _, -1) (m_port_requests s)) (m_vc_winners s).

Definition resetStats (s : t) : t :=
  mk (m_num_inports s) (m_num_outports s) (m_num_vcs s) (m_vc_per_vnet s) 0 0
     (m_round_robin_invc s) (m_round_robin_inport s) (m_port_requests s)
     (m_vc_winners s).

(** [i++; if (i >= n) i = 0;] *)
Definition rr_next (n i : Z) : Z := if n <=? i + 1 then 0 else i + 1.

End SwitchAllocator.

(** ** [Router] and the operations of its units on it *)

Module Router.
Section Router.
  Context `{MachineTypes}.

Record t := mk {
  m_id : Z;
  m_latency : Cycles;
  m_virtual_networks : Z;
  m_vc_per_vnet : Z;
  m_num_vcs : Z;
  m_bit_width : Z;
  routingUnit : RoutingUnit.t;
  switchAllocator : SwitchAllocator.t;
  crossbarSwitch : CrossbarSwitch.t;
  m_input_unit : list InputUnit.t;
  m_output_unit : list OutputUnit.t;
  clk : Clocked.t;
  consumer : Consumer.t;
  m_scheduled : list link_event;
}.

(** [Router(p)]; the number of channels is a 32-bit product. *)
Definition make (id latency virt_nets vcs_per_vnet width : Z) (clock : Clocked.t)
    : t :=
  let num_vcs := wrap32 (virt_nets * vcs_per_vnet) in
  mk id latency virt_nets vcs_per_vnet num_vcs width RoutingUnit.make
     (SwitchAllocator.make num_vcs vcs_per_vnet) (CrossbarSwitch.make num_vcs)
     [] [] clock Consumer.make [].

Definition with_routing (r : t) (u : RoutingUnit.t) : t :=
  mk (m_id r) (m_latency r) (m_virtual_networks r) (m_vc_per_vnet r)
     (m_num_vcs r) (m_bit_width r) u (switchAllocator r) (crossbarSwitch r)
     (m_input_unit r) (m_output_unit r) (clk r) (consumer r) (m_scheduled r).

Definition with_sa (r : t) (s : SwitchAllocator.t) : t :=
  mk (m_id r) (m_latency r) (m_virtual_networks r) (m_vc_per_vnet r)
     (m_num_vcs r) (m_bit_width r) (routingUnit r) s (crossbarSwitch r)
     (m_input_unit r) (m_output_unit r) (clk r) (consumer r) (m_scheduled r).

Definition with_xbar (r : t) (x : CrossbarSwitch.t) : t :=
  mk (m_id r) (m_latency r) (m_virtual_networks r) (m_vc_per_vnet r)
     (m_num_vcs r) (m_bit_width r) (routingUnit r) (switchAllocator r) x
     (m_input_unit r) (m_output_unit r) (clk r) (consumer r) (m_scheduled r).

Definition with_inputs (r : t) (us : list InputUnit.t) : t :=
  mk (m_id r) (m_latency r) (m_virtual_networks r) (m_vc_per_vnet r)
     (m_num_vcs r) (m_bit_width r) (routingUnit r) (switchAllocator r)
     (crossbarSwitch r) us (m_output_unit r) (clk r) (consumer r)
     (m_scheduled r).

Definition with_outputs (r : t) (us : list OutputUnit.t) : t :=
  mk (m_id r) (m_latency r) (m_virtual_networks r) (m_vc_per_vnet r)
     (m_num_vcs r) (m_bit_width r) (routingUnit r) (switchAllocator r)
     (crossbarSwitch r) (m_input_unit r) us (clk r) (consumer r) (m_scheduled r).

Definition with_consumer (r : t) (c : Consumer.t) : t :=
  mk (m_id r) (m_latency r) (m_virtual_networks r) (m_vc_per_vnet r)
     (m_num_vcs r) (m_bit_width r) (routingUnit r) (switchAllocator r)
     (crossbarSwitch r) (m_input_unit r) (m_output_unit r) (clk r) c
     (m_scheduled r).

Definition schedule_link (r : t) (ev : link_event) : t :=
  mk (m_id r) (m_latency r) (m_virtual_networks r) (m_vc_per_vnet r)
     (m_num_vcs r) (m_bit_width r) (routingUnit r) (switchAllocator r)
     (crossbarSwitch r) (m_input_unit r) (m_output_unit r) (clk r) (consumer r)
     (m_scheduled r ++ [ev]).

Definition get_num_inports (r : t) : Z := zlen (m_input_unit r).
Definition get_num_outports (r : t) : Z := zlen (m_output_unit r).

(** [getInputUnit], [getOutputUnit]: the port is asserted to exist (a negative
    [int] converts to a port beyond every vector). *)
Definition getInputUnit (r : t) (port : Z) : result InputUnit.t :=
  match zlookup (m_input_unit r) port with
  | Some u => Ok u
  | None => Err AssertFailed
  end.

Definition getOutputUnit (r : t) (port : Z) : result OutputUnit.t :=
  match zlookup (m_output_unit r) port with
  | Some u => Ok u
  | None => Err AssertFailed
  end.

Definition setInputUnit (r : t) (port : Z) (u : InputUnit.t) : result t :=
  us ← vset (m_input_unit r) port u; Ok (with_inputs r us).

Definition setOutputUnit (r : t) (port : Z) (u : OutputUnit.t) : result t :=
  us ← vset (m_output_unit r) port u; Ok (with_outputs r us).

Definition clockEdge (e : Env) (r : t) (cycles : Cycles) : Tick :=
  Clocked.clockEdge (clk r) (curTick e) cycles.

Definition schedule_wakeup (e : Env) (r : t) (time : Cycles) : result t :=
  c ← Consumer.scheduleEvent (clk r) (curTick e) (consumer r) time;
  Ok (with_consumer r c).

Definition alreadyScheduled (r : t) (time : Tick) : bool :=
  Consumer.alreadyScheduled (consumer r) time.

Definition route_compute (e : Env) (r : t) (route : RouteInfo) (inport : Z)
    (inport_dirn : PortDirection) : result (Z * t) :=
  '(outport, u) ← RoutingUnit.outportCompute (cfg e) (rand e inport) (m_id r)
                    (routingUnit r) route inport inport_dirn;
  Ok (outport, with_routing r u).

Definition grant_switch (r : t) (inport : Z) (t_flit : flit) : result t :=
  x ← CrossbarSwitch.update_sw_winner (crossbarSwitch r) inport t_flit;
  Ok (with_xbar r x).

Definition getOutportDirection (r : t) (outport : Z) : result PortDirection :=
  u ← vget (m_output_unit r) outport; Ok (OutputUnit.m_direction u).

Definition getInportDirection (r : t) (inport : Z) : result PortDirection :=
  u ← vget (m_input_unit r) inport; Ok (InputUnit.m_direction u).

(** [addInPort]: the width of the link is checked and its load vector sized;
    returns the link and the credit link as they are left. *)
Definition addInPort (r : t) (inport_dirn : PortDirection)
    (in_link credit_link : NetworkLink.t)
    : result (t * NetworkLink.t * NetworkLink.t) :=
  _ ← fatal_if (negb (NetworkLink.bitWidth in_link =? m_bit_width r));
  let port_num := zlen (m_input_unit r) in
  let input_unit :=
    InputUnit.make port_num inport_dirn (m_num_vcs r) (m_vc_per_vnet r) in
  let in_link := NetworkLink.setVcsPerVnet in_link (m_vc_per_vnet r) in
  let credit_link := NetworkLink.setVcsPerVnet credit_link (m_vc_per_vnet r) in
  let r := with_inputs r (m_input_unit r ++ [input_unit]) in
  let r := with_routing r
    (RoutingUnit.addInDirection (routingUnit r) inport_dirn port_num) in
  Ok (r, in_link, credit_link).

Definition addOutPort (c : NetConfig) (r : t) (outport_dirn : PortDirection)
    (out_link : NetworkLink.t) (routing_table_entry : list NetDest.t)
    (link_weight : Z) (credit_link : NetworkLink.t) (consumerVcs : Z)
    : result (t * NetworkLink.t * NetworkLink.t) :=
  _ ← fatal_if (negb (NetworkLink.bitWidth out_link =? m_bit_width r));
  let port_num := zlen (m_output_unit r) in
  output_unit ←
    OutputUnit.make c port_num outport_dirn (m_virtual_networks r) consumerVcs;
  let credit_link := NetworkLink.setVcsPerVnet credit_link consumerVcs in
  let out_link := NetworkLink.setVcsPerVnet out_link consumerVcs in
  let r := with_outputs r (m_output_unit r ++ [output_unit]) in
  ru ← RoutingUnit.addRoute (routingUnit r) routing_table_entry;
  let ru := RoutingUnit.addWeight ru link_weight in
  let ru := RoutingUnit.addOutDirection ru outport_dirn port_num in
  Ok (with_routing r ru, out_link, credit_link).

(** [init()]: the allocator and the crossbar learn the number of ports. *)
Definition init (r : t) : t :=
  let r := with_sa r (SwitchAllocator.init (switchAllocator r)
                        (get_num_inports r) (get_num_outports r)) in
  with_xbar r (CrossbarSwitch.init (crossbarSwitch r) (get_num_inports r)).

(** *** [InputUnit::wakeup()] of the unit at [inport]

    The flit is inserted before its stage is advanced, through the same
    pointer; here it is inserted with the advanced stage. *)
Definition input_wakeup (e : Env) (r : t) (inport : Z) (in_buf : FlitBuffer.t)
    : result (t * FlitBuffer.t) :=
  if FlitBuffer.isReady in_buf (curTick e) then
    '(t_flit, in_buf) ← FlitBuffer.getTopFlit in_buf;
    _ ← assert (flit_m_width t_flit =? m_bit_width r);
    let vc := flit_m_vc t_flit in
    let t_flit := increment_hops t_flit in
    u ← vget (m_input_unit r) inport;
    v ← vget (InputUnit.virtualChannels u) vc;
    '(u, r) ←
      (if is_head (flit_m_type t_flit) then
         _ ← assert (bool_decide (VirtualChannel.get_state v = IDLE_));
         u ← InputUnit.set_vc_active u vc (curTick e);
         '(outport, r) ← route_compute e r (flit_m_route t_flit)
                           (InputUnit.m_id u) (InputUnit.m_direction u);
         u ← InputUnit.grant_outport u vc outport;
         Ok (u, r)
       else
         _ ← assert (bool_decide (VirtualChannel.get_state v = ACTIVE_));
         Ok (u, r));
    let pipe_stages := m_latency r in
    _ ← assert ((pipe_stages =? 1) || (1 <? pipe_stages));
    let ready := if pipe_stages =? 1 then curTick e
                 else clockEdge e r (pipe_stages - 1) in
    let t_flit := advance_stage t_flit SA_ ready in
    u ← InputUnit.upd_vc u vc (λ v, VirtualChannel.insertFlit v t_flit);
    let vnet := Z.quot vc (InputUnit.m_vc_per_vnet u) in
    writes ← vupd (InputUnit.m_num_buffer_writes u) vnet (λ n, Ok (n + 1));
    reads ← vupd (InputUnit.m_num_buffer_reads u) vnet (λ n, Ok (n + 1));
    let u := InputUnit.with_counters u writes reads in
    r ← setInputUnit r inport u;
    r ← (if pipe_stages =? 1 then Ok r
         else schedule_wakeup e r (pipe_stages - 1));
    r ← (if FlitBuffer.isReady in_buf (curTick e) then schedule_wakeup e r 1
         else Ok r);
    Ok (r, in_buf)
  else Ok (r, in_buf).

(** *** [SwitchAllocator] *)

Definition get_vnet (r : t) (invc : Z) : result Z :=
  let vnet := Z.quot invc (SwitchAllocator.m_vc_per_vnet (switchAllocator r)) in
  _ ← assert (vnet <? m_virtual_networks r);
  Ok vnet.

(** Another flit of the vnet at this port wants the same output and was
    enqueued earlier: the channels from [temp_vc] on, [n] of them. *)
Fixpoint older_request (e : Env) (u : InputUnit.t) (outport t_enqueue_time : Z)
    (temp_vc : Z) (n : nat) : result bool :=
  match n with
  | O => Ok false
  | S n' =>
      b ← InputUnit.need_stage u temp_vc SA_ (curTick e);
      older ← (if (b : bool) then
                 o ← InputUnit.get_outport u temp_vc;
                 if o =? outport then
                   en ← InputUnit.get_enqueue_time u temp_vc;
                   Ok (en <? t_enqueue_time)
                 else Ok false
               else Ok false);
      if (older : bool) then Ok true
      else older_request e u outport t_enqueue_time (temp_vc + 1) n'
  end.

Definition send_allowed (e : Env) (r : t) (inport invc outport outvc : Z)
    : result bool :=
  vnet ← get_vnet r invc;
  output_unit ← getOutputUnit r outport;
  can_send ←
    (if outvc =? -1 then OutputUnit.has_free_vc output_unit (curTick e) vnet
     else OutputUnit.has_credit output_unit (curTick e) outvc);
  if negb can_send then Ok false
  else
    ordered ← isVNetOrdered (cfg e) vnet;
    if (ordered : bool) then
      input_unit ← getInputUnit r inport;
      t_enqueue_time ← InputUnit.get_enqueue_time input_unit invc;
      let vcs := SwitchAllocator.m_vc_per_vnet (switchAllocator r) in
      older ← older_request e input_unit outport t_enqueue_time (vnet * vcs)
                (Z.to_nat vcs);
      Ok (negb older)
    else Ok true.

(** SA-I at one input port: the first channel, in round-robin order from
    [invc], whose flit may be sent. *)
Fixpoint pick_invc (e : Env) (r : t) (inport invc : Z) (n : nat)
    : result (option (Z * Z)) :=
  match n with
  | O => Ok None
  | S n' =>
      input_unit ← getInputUnit r inport;
      b ← InputUnit.need_stage input_unit invc SA_ (curTick e);
      req ← (if (b : bool) then
               outport ← InputUnit.get_outport input_unit invc;
               outvc ← InputUnit.get_outvc input_unit invc;
               ok ← send_allowed e r inport invc outport outvc;
               Ok (if (ok : bool) then Some (outport, invc) else None)
             else Ok None);
      match req with
      | Some w => Ok (Some w)
      | None =>
          pick_invc e r inport
            (SwitchAllocator.rr_next
               (SwitchAllocator.m_num_vcs (switchAllocator r)) invc) n'
      end
  end.

(** The body of SA-I for one input port. *)
Definition arbitrate_inport (e : Env) (inport : Z) (r : t) : result t :=
  let s := switchAllocator r in
  invc ← vget (SwitchAllocator.m_round_robin_invc s) inport;
  w ← pick_invc e r inport invc (Z.to_nat (SwitchAllocator.m_num_vcs s));
  match w with
  | Some (outport, winner) =>
      reqs ← vset (SwitchAllocator.m_port_requests s) inport outport;
      wins ← vset (SwitchAllocator.m_vc_winners s) inport winner;
      Ok (with_sa r (SwitchAllocator.with_requests s
            (SwitchAllocator.m_input_arbiter_activity s + 1) reqs wins))
  | None => Ok r
  end.

Definition arbitrate_inports (e : Env) (r : t) : result t :=
  for_range 0 (Z.to_nat (SwitchAllocator.m_num_inports (switchAllocator r)))
    (arbitrate_inport e) r.

Definition vc_allocate (e : Env) (r : t) (outport inport invc : Z)
    : result (Z * t) :=
  vnet ← get_vnet r invc;
  output_unit ← getOutputUnit r outport;
  '(outvc, output_unit) ←
    OutputUnit.select_free_vc output_unit (curTick e) vnet;
  r ← setOutputUnit r outport output_unit;
  _ ← assert (negb (outvc =? -1));
  input_unit ← getInputUnit r inport;
  input_unit ← InputUnit.grant_outvc input_unit invc outvc;
  r ← setInputUnit r inport input_unit;
  Ok (outvc, r).

(** The grant of [outport] to [inport] (the body of the [if] of SA-II). *)
Definition grant (e : Env) (r : t) (outport inport : Z) : result t :=
  input_unit ← getInputUnit r inport;
  invc ← vget (SwitchAllocator.m_vc_winners (switchAllocator r)) inport;
  outvc ← InputUnit.get_outvc input_unit invc;
  '(outvc, r) ←
    (if outvc =? -1 then vc_allocate e r outport inport invc else Ok (outvc, r));
  input_unit ← getInputUnit r inport;
  '(t_flit, input_unit) ← InputUnit.getTopFlit input_unit invc;
  let t_flit := set_outport t_flit outport in
  let t_flit := set_vc t_flit outvc in
  output_unit ← getOutputUnit r outport;
  output_unit ← OutputUnit.decrement_credit output_unit outvc;
  r ← setOutputUnit r outport output_unit;
  let t_flit := advance_stage t_flit ST_ (curTick e) in
  r ← grant_switch r inport t_flit;
  let free := is_tail (flit_m_type t_flit) in
  input_unit ←
    (if free then
       ready ← InputUnit.isReady input_unit invc (curTick e);
       _ ← assert (negb ready);
       InputUnit.set_vc_idle input_unit invc (curTick e)
     else Ok input_unit);
  let input_unit :=
    InputUnit.increment_credit e input_unit invc free (curTick e) in
  let r := schedule_link r (CreditLinkAt inport (clockEdge e r 1)) in
  r ← setInputUnit r inport input_unit;
  let s := switchAllocator r in
  reqs ← vset (SwitchAllocator.m_port_requests s) inport (-1);
  rr_inport ← vset (SwitchAllocator.m_round_robin_inport s) outport
                (SwitchAllocator.rr_next (SwitchAllocator.m_num_inports s) inport);
  rr_invc ← vset (SwitchAllocator.m_round_robin_invc s) inport
              (SwitchAllocator.rr_next (SwitchAllocator.m_num_vcs s) invc);
  Ok (with_sa r (SwitchAllocator.with_grant s
        (SwitchAllocator.m_output_arbiter_activity s + 1) rr_invc rr_inport reqs)).

(** The input port SA-II grants [outport] to: the first one, in round-robin
    order from [inport], that requests it. *)
Fixpoint pick_inport (reqs : list Z) (num_inports outport inport : Z) (n : nat)
    : result (option Z) :=
  match n with
  | O => Ok None
  | S n' =>
      q ← vget reqs inport;
      if q =? outport then Ok (Some inport)
      else pick_inport reqs num_inports outport
             (SwitchAllocator.rr_next num_inports inport) n'
  end.

(** The body of SA-II for one output port. *)
Definition arbitrate_outport (e : Env) (outport : Z) (r : t) : result t :=
  let s := switchAllocator r in
  inport ← vget (SwitchAllocator.m_round_robin_inport s) outport;
  w ← pick_inport (SwitchAllocator.m_port_requests s)
        (SwitchAllocator.m_num_inports s) outport inport
        (Z.to_nat (SwitchAllocator.m_num_inports s));
  match w with
  | Some winner => grant e r outport winner
  | None => Ok r
  end.

Definition arbitrate_outports (e : Env) (r : t) : result t :=
  for_range 0 (Z.to_nat (SwitchAllocator.m_num_outports (switchAllocator r)))
    (arbitrate_outport e) r.

(** Some channel [j], [j + 1], .. of the unit will be ready for SA. *)
Fixpoint any_need (u : InputUnit.t) (time : Tick) (j : Z) (n : nat) : result bool :=
  match n with
  | O => Ok false
  | S n' =>
      b ← InputUnit.need_stage u j SA_ time;
      if (b : bool) then Ok true else any_need u time (j + 1) n'
  end.

Fixpoint any_unit_needs (r : t) (time : Tick) (i : Z) (n : nat) : result bool :=
  match n with
  | O => Ok false
  | S n' =>
      u ← getInputUnit r i;
      b ← any_need u time 0
            (Z.to_nat (SwitchAllocator.m_num_vcs (switchAllocator r)));
      if (b : bool) then Ok true else any_unit_needs r time (i + 1) n'
  end.

Definition check_for_wakeup (e : Env) (r : t) : result t :=
  let nextCycle := clockEdge e r 1 in
  if alreadyScheduled r nextCycle then Ok r
  else
    b ← any_unit_needs r nextCycle 0
          (Z.to_nat (SwitchAllocator.m_num_inports (switchAllocator r)));
    if (b : bool) then schedule_wakeup e r 1 else Ok r.

Definition sa_wakeup (e : Env) (r : t) : result t :=
  r ← arbitrate_inports e r;
  r ← arbitrate_outports e r;
  let r := with_sa r (SwitchAllocator.clear_request_vector (switchAllocator r)) in
  check_for_wakeup e r.

(** *** [CrossbarSwitch::wakeup()], one switch buffer *)
Definition traverse (e : Env) (i : Z) (r : t) : result t :=
  let x := crossbarSwitch r in
  b ← vget (CrossbarSwitch.switchBuffers x) i;
  if negb (FlitBuffer.isReady b (curTick e)) then Ok r
  else
    t_flit ← FlitBuffer.peekTopFlit b;
    if is_stage t_flit ST_ (curTick e) then
      outport ← determinate (flit_m_outport t_flit);
      let t_flit := advance_stage t_flit LT_ (clockEdge e r 1) in
      let t_flit := set_time t_flit (clockEdge e r 1) in
      output_unit ← getOutputUnit r outport;
      r ← setOutputUnit r outport (OutputUnit.insert_flit output_unit t_flit);
      let r := schedule_link r (OutLinkAt outport (clockEdge e r 1)) in
      '(_, b') ← FlitBuffer.getTopFlit b;
      bs ← vset (CrossbarSwitch.switchBuffers x) i b';
      Ok (with_xbar r (CrossbarSwitch.mk (CrossbarSwitch.m_num_vcs x)
            (CrossbarSwitch.m_crossbar_activity x + 1) bs))
    else Ok r.

Definition crossbar_wakeup (e : Env) (r : t) : result t :=
  for_range 0 (length (CrossbarSwitch.switchBuffers (crossbarSwitch r)))
    (traverse e) r.

(** *** [Router::wakeup()] *)

(** [for (inport ..) m_input_unit[inport]->wakeup()] with the buffer of each
    unit's link. *)
Definition input_loop (e : Env) (inport : Z) (st : t * list FlitBuffer.t)
    : result (t * list FlitBuffer.t) :=
  let '(r, in_bufs) := st in
  b ← vget in_bufs inport;
  '(r, b) ← input_wakeup e r inport b;
  in_bufs ← vset in_bufs inport b;
  Ok (r, in_bufs).

Definition output_loop (e : Env) (outport : Z) (st : t * list FlitBuffer.t)
    : result (t * list FlitBuffer.t) :=
  let '(r, credit_bufs) := st in
  b ← vget credit_bufs outport;
  u ← vget (m_output_unit r) outport;
  '(u, b) ← OutputUnit.wakeup (curTick e) (clk r) u b;
  r ← setOutputUnit r outport u;
  credit_bufs ← vset credit_bufs outport b;
  Ok (r, credit_bufs).

Definition wakeup (e : Env) (r : t) (in_bufs credit_bufs : list FlitBuffer.t)
    : result (t * list FlitBuffer.t * list FlitBuffer.t) :=
  _ ← assert (clockEdge e r 0 =? curTick e);
  '(r, in_bufs) ← for_range 0 (length (m_input_unit r)) (input_loop e) (r, in_bufs);
  '(r, credit_bufs) ←
    for_range 0 (length (m_output_unit r)) (output_loop e) (r, credit_bufs);
  r ← sa_wakeup e r;
  r ← crossbar_wakeup e r;
  Ok (r, in_bufs, credit_bufs).

(** *** Statistics and functional accesses *)

(** [collateStats()]: what is added to [m_buffer_reads] and [m_buffer_writes],
    and the activities the other three statistics are set to. *)
Definition collateStats (r : t) : result (Z * Z * Z * Z * Z) :=
  '(reads, writes) ←
    for_range 0 (Z.to_nat (m_virtual_networks r))
      (λ j acc,
         for_range 0 (length (m_input_unit r))
           (λ i '(reads, writes),
              u ← vget (m_input_unit r) i;
              a ← InputUnit.get_buf_read_activity u j;
              b ← InputUnit.get_buf_write_activity u j;
              Ok (reads + a, writes + b)) acc) (0, 0);
  Ok (reads, writes,
      SwitchAllocator.m_input_arbiter_activity (switchAllocator r),
      SwitchAllocator.m_output_arbiter_activity (switchAllocator r),
      CrossbarSwitch.m_crossbar_activity (crossbarSwitch r)).

Definition resetStats (r : t) : t :=
  let r := with_inputs r (map InputUnit.resetStats (m_input_unit r)) in
  let r := with_xbar r (CrossbarSwitch.resetStats (crossbarSwitch r)) in
  with_sa r (SwitchAllocator.resetStats (switchAllocator r)).

Section functional.
  Context {P : Type}.
  Variable msg_functionalRead : nat → P → bool * P.
  Variable msg_functionalWrite : nat → P → bool * P.

Definition functionalRead (r : t) (p : P) : result (bool * P) :=
  acc ← CrossbarSwitch.functionalRead msg_functionalRead (crossbarSwitch r) p;
  acc ← foldl (λ acc u,
           '(read, p) ← acc;
           '(b, p) ← InputUnit.functionalRead msg_functionalRead u p;
           Ok (if (b : bool) then true else read, p)) (Ok acc) (m_input_unit r);
  foldl (λ acc u,
           '(read, p) ← acc;
           '(b, p) ← OutputUnit.functionalRead msg_functionalRead u p;
           Ok (if (b : bool) then true else read, p)) (Ok acc) (m_output_unit r).

Definition functionalWrite (r : t) (p : P) : result (Z * P) :=
  acc ← CrossbarSwitch.functionalWrite msg_functionalWrite (crossbarSwitch r) p;
  acc ← foldl (λ acc u,
           '(num, p) ← acc;
           '(n, p) ← InputUnit.functionalWrite msg_functionalWrite u p;
           Ok (num + n, p)) (Ok acc) (m_input_unit r);
  foldl (λ acc u,
           '(num, p) ← acc;
           '(n, p) ← OutputUnit.functionalWrite msg_functionalWrite u p;
           Ok (num + n, p)) (Ok acc) (m_output_unit r).
End functional.

End Router.
End Router.
