(* ===== verification/FlowControl.v ===== *)
(** * Credit-based flow control in a router

    For every output port and channel, and for every input port and channel,
    the number of buffer slots a router accounts for is the same before and
    after it is woken.  These are the local halves of the credit protocol; the
    network-wide statement is in [CreditProtocol]. *)

From S2P Require Import Prelude.
From S2P Require Import IntMath.
From S2P Require Import NetDest.
From S2P Require Import Flit.
From S2P Require Import VirtualChannels.
From S2P Require Import Routing.
From S2P Require Import Clocking.
From S2P Require Import Links.
From S2P Require Import Pipeline.

(** The flits a queue holds for channel [v] of output port [o]. *)
Definition for_port (o v : Z) (b : FlitBuffer.t) : Z :=
  zlen (filter (λ f, flit_m_outport f = Some o ∧ flit_m_vc f = v)
          (FlitBuffer.m_buffer b)).

Lemma for_port_nonneg o v b : 0 ≤ for_port o v b.
Proof. apply zlen_nonneg. Qed.

Lemma for_port_insert o v b f :
  for_port o v (FlitBuffer.insert b f) =
    for_port o v b + one_if (bool_decide (flit_m_outport f = Some o ∧ flit_m_vc f = v)).
Proof.
  unfold for_port. cbn. rewrite filter_app, zlen_app. f_equal.
  rewrite filter_cons, filter_nil. case_bool_decide as E;
    by destruct (decide (flit_m_outport f = Some o ∧ flit_m_vc f = v)).
Qed.

Lemma for_port_getTopFlit o v b f b' :
  FlitBuffer.getTopFlit b = Ok (f, b') →
  for_port o v b =
    one_if (bool_decide (flit_m_outport f = Some o ∧ flit_m_vc f = v)) + for_port o v b'.
Proof.
  intros [Hb _]%FlitBuffer.getTopFlit_Ok. unfold for_port. rewrite Hb, filter_cons.
  destruct (decide (flit_m_outport f = Some o ∧ flit_m_vc f = v)) as [E|E].
  - by rewrite bool_decide_eq_true_2, zlen_cons.
  - by rewrite bool_decide_eq_false_2.
Qed.

(** ** Views of a router *)

(** Channel [v] of an output unit: its credits and the flits waiting for the
    link. *)
Definition unit_credits (v : Z) (u : OutputUnit.t) : Z :=
  at_ OutVcState.m_credit_count (OutputUnit.outVcState u) v.

Definition unit_outq (v : Z) (u : OutputUnit.t) : Z := nvc v (OutputUnit.outBuffer u).

(** Channel [v] of an input unit: the flits it buffers and the credits waiting
    for the credit link. *)
Definition unit_buffered (v : Z) (u : InputUnit.t) : Z :=
  at_ (λ c, zlen (VirtualChannel.flits c)) (InputUnit.virtualChannels u) v.

Definition unit_creditq (v : Z) (u : InputUnit.t) : Z :=
  nvc v (InputUnit.creditQueue u).

Section router_views.
  Context `{MachineTypes}.
  Implicit Types r : Router.t.

Definition credits r (o v : Z) : Z := at_ (unit_credits v) (Router.m_output_unit r) o.
Definition outq r (o v : Z) : Z := at_ (unit_outq v) (Router.m_output_unit r) o.
Definition switched r (o v : Z) : Z :=
  sum_over (for_port o v) (CrossbarSwitch.switchBuffers (Router.crossbarSwitch r)).
Definition buffered r (i v : Z) : Z := at_ (unit_buffered v) (Router.m_input_unit r) i.
Definition creditq r (i v : Z) : Z := at_ (unit_creditq v) (Router.m_input_unit r) i.

(** What the router holds of channel [v] downstream of output port [o], and of
    channel [v] upstream of input port [i]. *)
Definition out_slots r (o v : Z) : Z := credits r o v + switched r o v + outq r o v.
Definition in_slots r (i v : Z) : Z := buffered r i v + creditq r i v.

(** Two routers that hold the same slots. *)
Definition same_slots r r' : Prop :=
  (∀ o v, out_slots r' o v = out_slots r o v) ∧
  (∀ i v, in_slots r' i v = in_slots r i v).

#[global] Instance same_slots_preorder : PreOrder same_slots.
Proof.
  split; [by split|]. intros r1 r2 r3 [H1 H2] [H3 H4].
  split; intros; rewrite ?H3, ?H4; auto.
Qed.

(** Operations that touch neither units nor crossbar. *)
Lemma same_units_same_slots r r' :
  Router.m_input_unit r' = Router.m_input_unit r →
  Router.m_output_unit r' = Router.m_output_unit r →
  Router.crossbarSwitch r' = Router.crossbarSwitch r →
  same_slots r r'.
Proof.
  intros Hi Ho Hx.
  split; intros; unfold out_slots, in_slots, credits, switched, outq, buffered, creditq;
    by rewrite ?Hi, ?Ho, ?Hx.
Qed.

Lemma schedule_wakeup_units e r n r' :
  Router.schedule_wakeup e r n = Ok r' →
  Router.m_input_unit r' = Router.m_input_unit r ∧
  Router.m_output_unit r' = Router.m_output_unit r ∧
  Router.crossbarSwitch r' = Router.crossbarSwitch r ∧
  Router.switchAllocator r' = Router.switchAllocator r.
Proof.
  unfold Router.schedule_wakeup. intros H1.
  apply bind_Ok in H1 as (c & _ & [= <-]). done.
Qed.

Lemma schedule_wakeup_slots e r n r' :
  Router.schedule_wakeup e r n = Ok r' → same_slots r r'.
Proof. intros (? & ? & ? & _)%schedule_wakeup_units. by apply same_units_same_slots. Qed.

Lemma route_compute_units e r rt i d o r' :
  Router.route_compute e r rt i d = Ok (o, r') →
  Router.m_input_unit r' = Router.m_input_unit r ∧
  Router.m_output_unit r' = Router.m_output_unit r ∧
  Router.crossbarSwitch r' = Router.crossbarSwitch r.
Proof.
  unfold Router.route_compute. intros H1.
  by apply bind_Ok in H1 as ([? ?] & _ & [= <- <-]).
Qed.

Lemma setInputUnit_Ok r p u r' :
  Router.setInputUnit r p u = Ok r' →
  vset (Router.m_input_unit r) p u = Ok (Router.m_input_unit r') ∧
  Router.m_output_unit r' = Router.m_output_unit r ∧
  Router.crossbarSwitch r' = Router.crossbarSwitch r ∧
  Router.switchAllocator r' = Router.switchAllocator r.
Proof.
  unfold Router.setInputUnit. intros H1. by apply bind_Ok in H1 as (us & Hus & [= <-]).
Qed.

Lemma setOutputUnit_Ok r p u r' :
  Router.setOutputUnit r p u = Ok r' →
  vset (Router.m_output_unit r) p u = Ok (Router.m_output_unit r') ∧
  Router.m_input_unit r' = Router.m_input_unit r ∧
  Router.crossbarSwitch r' = Router.crossbarSwitch r ∧
  Router.switchAllocator r' = Router.switchAllocator r.
Proof.
  unfold Router.setOutputUnit. intros H1. by apply bind_Ok in H1 as (us & Hus & [= <-]).
Qed.

Lemma getInputUnit_Ok r p u :
  Router.getInputUnit r p = Ok u ↔ zlookup (Router.m_input_unit r) p = Some u.
Proof. unfold Router.getInputUnit. destruct (zlookup _ _); naive_solver. Qed.

Lemma getOutputUnit_Ok r p u :
  Router.getOutputUnit r p = Ok u ↔ zlookup (Router.m_output_unit r) p = Some u.
Proof. unfold Router.getOutputUnit. destruct (zlookup _ _); naive_solver. Qed.

(** ** Input units *)

Lemma upd_vc_Ok u c f u' :
  InputUnit.upd_vc u c f = Ok u' →
  ∃ v, zlookup (InputUnit.virtualChannels u) c = Some v ∧
       vset (InputUnit.virtualChannels u) c (f v) = Ok (InputUnit.virtualChannels u') ∧
       InputUnit.creditQueue u' = InputUnit.creditQueue u.
Proof.
  unfold InputUnit.upd_vc. intros H1. apply bind_Ok in H1 as (v & Hv%vget_Ok & H1).
  apply bind_Ok in H1 as (vcs & Hs & [= <-]). eauto.
Qed.

(** Updating a channel without touching its buffer. *)
Lemma upd_vc_buffered u c f u' v :
  InputUnit.upd_vc u c f = Ok u' →
  (∀ x, VirtualChannel.flits (f x) = VirtualChannel.flits x) →
  unit_buffered v u' = unit_buffered v u ∧ unit_creditq v u' = unit_creditq v u.
Proof.
  intros (x & Hx & Hs & Hq)%upd_vc_Ok Hf. unfold unit_buffered, unit_creditq.
  rewrite Hq, (at_vset _ _ _ _ _ v Hs). split; [|done]. case_decide; [|done].
  subst. by rewrite (at_lookup _ _ _ _ Hx), Hf.
Qed.

Lemma upd_vc_insert u c f u' v :
  InputUnit.upd_vc u c (λ x, VirtualChannel.insertFlit x f) = Ok u' →
  unit_buffered v u' = unit_buffered v u + one_if (bool_decide (c = v)) ∧
  unit_creditq v u' = unit_creditq v u.
Proof.
  intros (x & Hx & Hs & Hq)%upd_vc_Ok. unfold unit_buffered, unit_creditq.
  rewrite Hq, (at_vset _ _ _ _ _ v Hs). split; [|done]. case_decide.
  - subst. rewrite (at_lookup _ _ _ _ Hx), bool_decide_eq_true_2 by done. cbn.
    unfold VirtualChannel.flits. cbn. rewrite zlen_app. done.
  - rewrite bool_decide_eq_false_2 by done. cbn. lia.
Qed.

Lemma getTopFlit_buffered u c f u' v :
  InputUnit.getTopFlit u c = Ok (f, u') →
  unit_buffered v u = unit_buffered v u' + one_if (bool_decide (c = v)) ∧
  unit_creditq v u' = unit_creditq v u.
Proof.
  unfold InputUnit.getTopFlit. intros H1. apply bind_Ok in H1 as (x & Hx%vget_Ok & H1).
  apply bind_Ok in H1 as ([f' x'] & Ht & H1). apply bind_Ok in H1 as (vcs & Hs & [= <- <-]).
  unfold unit_buffered, unit_creditq. cbn. rewrite (at_vset _ _ _ _ _ v Hs).
  apply VirtualChannel.vc_getTopFlit_Ok in Ht as (Hfl & _).
  split; [|done]. case_decide.
  - subst. rewrite (at_lookup _ _ _ _ Hx), bool_decide_eq_true_2, Hfl, zlen_cons by done.
    cbn. lia.
  - rewrite bool_decide_eq_false_2 by done. cbn. lia.
Qed.

Lemma increment_credit_slots e u c fr tm v :
  unit_buffered v (InputUnit.increment_credit e u c fr tm) = unit_buffered v u ∧
  unit_creditq v (InputUnit.increment_credit e u c fr tm) =
    unit_creditq v u + one_if (bool_decide (c = v)).
Proof. split; [done|]. unfold unit_creditq. cbn. by rewrite nvc_insert. Qed.

(** The slots of one input unit, and of a router one unit of which is
    replaced. *)
Definition unit_in_slots (v : Z) (u : InputUnit.t) : Z :=
  unit_buffered v u + unit_creditq v u.

Definition unit_out_slots (v : Z) (u : OutputUnit.t) : Z :=
  unit_credits v u + unit_outq v u.

Lemma in_slots_eq r i v : in_slots r i v = at_ (unit_in_slots v) (Router.m_input_unit r) i.
Proof.
  unfold in_slots, buffered, creditq, at_, unit_in_slots. by destruct (zlookup _ _).
Qed.

Lemma out_slots_eq r o v :
  out_slots r o v = at_ (unit_out_slots v) (Router.m_output_unit r) o + switched r o v.
Proof.
  unfold out_slots, credits, outq, at_, unit_out_slots. destruct (zlookup _ _); lia.
Qed.

Lemma setInputUnit_slots r p u r' :
  Router.setInputUnit r p u = Ok r' →
  (∀ o v, out_slots r' o v = out_slots r o v) ∧
  ∀ i v, in_slots r' i v = if decide (i = p) then unit_in_slots v u else in_slots r i v.
Proof.
  intros (Hs & Ho & Hx & _)%setInputUnit_Ok. split; intros.
  - rewrite !out_slots_eq. unfold switched. by rewrite Ho, Hx.
  - rewrite !in_slots_eq. by apply at_vset.
Qed.

Lemma setOutputUnit_slots r p u r' :
  Router.setOutputUnit r p u = Ok r' →
  (∀ o v, out_slots r' o v = if decide (o = p) then unit_out_slots v u + switched r o v
                             else out_slots r o v) ∧
  ∀ i v, in_slots r' i v = in_slots r i v.
Proof.
  intros (Hs & Hi & Hx & _)%setOutputUnit_Ok. split; intros.
  - rewrite !out_slots_eq. unfold switched. rewrite Hx, (at_vset _ _ _ _ _ o Hs).
    by case_decide.
  - rewrite !in_slots_eq. by rewrite Hi.
Qed.

(** [InputUnit::wakeup()] moves at most one flit from the link into the
    channel it names. *)
Lemma input_wakeup_slots e r p b r' b' :
  Router.input_wakeup e r p b = Ok (r', b') →
  (∀ o v, out_slots r' o v = out_slots r o v) ∧
  (∀ i v, i ≠ p → in_slots r' i v = in_slots r i v) ∧
  (∀ v, in_slots r' p v + nvc v b' = in_slots r p v + nvc v b).
Proof.
  unfold Router.input_wakeup. destruct (FlitBuffer.isReady b _); [|naive_solver].
  intros Hw. step_bind Hw as [f b1] Hf. step_bind Hw as [] _.
  step_bind Hw as u Hu%vget_Ok. step_bind Hw as vc _. step_bind Hw as [u1 r1] Hhead.
  assert ((∀ v, unit_in_slots v u1 = unit_in_slots v u) ∧ same_slots r r1)
    as [Hu1 [Hro Hri]].
  { destruct (is_head _).
    - step_bind Hhead as [] _. step_bind Hhead as ua Ha. step_bind Hhead as [op ra] Hra.
      step_bind Hhead as ub Hb. injection Hhead as <- <-. split.
      + intros v. unfold unit_in_slots.
        destruct (upd_vc_buffered _ _ _ _ v Hb) as [-> ->]; [done|].
        by destruct (upd_vc_buffered _ _ _ _ v Ha) as [-> ->].
      + apply route_compute_units in Hra as (? & ? & ?). by apply same_units_same_slots.
    - step_bind Hhead as [] _. by injection Hhead as <- <-. }
  step_bind Hw as [] _. step_bind Hw as u2 Hu2. step_bind Hw as ws _. step_bind Hw as rs _.
  step_bind Hw as r2 Hr2. step_bind Hw as r3 Hr3. step_bind Hw as r4 Hr4.
  injection Hw as <- <-.
  assert (same_slots r2 r4) as [Ho4 Hi4].
  { transitivity r3; [clear Hr4; case_in Hr3|clear Hr3; case_in Hr4];
      first [by eapply schedule_wakeup_slots | by simplify_eq]. }
  apply setInputUnit_slots in Hr2 as [Ho2 Hi2].
  split_and!; intros; rewrite ?Ho4, ?Hi4, ?Ho2, ?Hi2; [apply Hro|by rewrite decide_False, Hri|].
  rewrite decide_True by done.
  destruct (upd_vc_insert _ _ _ _ v Hu2) as [Hb2 Hq2]. cbn in Hb2.
  rewrite (nvc_getTopFlit v _ _ _ Hf), in_slots_eq, (at_lookup _ _ _ _ Hu), <- Hu1.
  unfold unit_in_slots, unit_buffered, unit_creditq in *. cbn in *. lia.
Qed.

(** ** Output units *)

Lemma if_decide_one (P : Prop) `{Decision P} (d : Z) :
  (if decide P then d else 0) = d * one_if (bool_decide P).
Proof. unfold bool_decide, decide, one_if. case_match; lia. Qed.

Lemma set_vc_state_slots u st c tm u' v :
  OutputUnit.set_vc_state u st c tm = Ok u' → unit_out_slots v u' = unit_out_slots v u.
Proof.
  unfold OutputUnit.set_vc_state. intros Hu. step_bind Hu as os Hos.
  injection Hu as <-. unfold unit_out_slots, unit_credits, unit_outq. cbn.
  rewrite (at_vupd OutVcState.m_credit_count _ _ _ _ 0 v Hos).
  - case_decide; lia.
  - intros a a' [= <-]. cbn. lia.
Qed.

Lemma increment_credit_out_slots u c u' v :
  OutputUnit.increment_credit u c = Ok u' →
  unit_out_slots v u' = unit_out_slots v u + one_if (bool_decide (c = v)).
Proof.
  unfold OutputUnit.increment_credit. intros Hu. step_bind Hu as os Hos.
  injection Hu as <-. unfold unit_out_slots, unit_credits, unit_outq. cbn.
  rewrite (at_vupd OutVcState.m_credit_count _ _ _ _ 1 v Hos).
  - rewrite if_decide_one, (bool_decide_ext (v = c) (c = v)) by done. lia.
  - intros a a' Ha. by destruct (OutVcState.increment_credit_Ok _ _ Ha).
Qed.

Lemma decrement_credit_out_slots u c u' v :
  OutputUnit.decrement_credit u c = Ok u' →
  unit_out_slots v u' = unit_out_slots v u - one_if (bool_decide (c = v)).
Proof.
  unfold OutputUnit.decrement_credit. intros Hu. step_bind Hu as os Hos.
  injection Hu as <-. unfold unit_out_slots, unit_credits, unit_outq. cbn.
  rewrite (at_vupd OutVcState.m_credit_count _ _ _ _ (-1) v Hos).
  - rewrite if_decide_one, (bool_decide_ext (v = c) (c = v)) by done. lia.
  - intros a a' Ha. destruct (OutVcState.decrement_credit_Ok _ _ Ha). lia.
Qed.

Lemma insert_flit_slots u f v :
  unit_out_slots v (OutputUnit.insert_flit u f) =
    unit_out_slots v u + one_if (bool_decide (flit_m_vc f = v)).
Proof.
  unfold unit_out_slots, unit_outq. cbn. rewrite nvc_insert. unfold unit_credits.
  cbn. lia.
Qed.

(** [OutputUnit::wakeup()] turns at most one arrived credit into a slot of the
    channel it names. *)
Lemma output_wakeup_slots cur clk u b u' b' v :
  OutputUnit.wakeup cur clk u b = Ok (u', b') →
  unit_out_slots v u' + nvc v b' = unit_out_slots v u + nvc v b.
Proof.
  unfold OutputUnit.wakeup. destruct (FlitBuffer.isReady b _); [|by intros [= <- <-]].
  intros Hw. step_bind Hw as [c b1] Hc. step_bind Hw as u1 Hu1. step_bind Hw as fr _.
  step_bind Hw as u2 Hu2. assert (unit_out_slots v u2 = unit_out_slots v u1) as Hs.
  { destruct fr; [by eapply set_vc_state_slots|by injection Hu2 as ->]. }
  rewrite (nvc_getTopFlit v _ _ _ Hc).
  apply (increment_credit_out_slots _ _ _ v) in Hu1.
  destruct (FlitBuffer.isReady b1 _).
  - step_bind Hw as k Hk. injection Hw as <- <-.
    change (unit_out_slots v (OutputUnit.with_consumer u2 k)) with (unit_out_slots v u2).
    lia.
  - injection Hw as <- <-. lia.
Qed.

Lemma output_loop_slots e p r bs r' bs' :
  Router.output_loop e p (r, bs) = Ok (r', bs') →
  (∀ i v, in_slots r' i v = in_slots r i v) ∧
  (∀ o v, out_slots r' o v + at_ (nvc v) bs' o = out_slots r o v + at_ (nvc v) bs o).
Proof.
  cbn. intros Hw. step_bind Hw as b Hb. step_bind Hw as u Hu.
  step_bind Hw as [u1 b1] Hw1. step_bind Hw as r1 Hr1. step_bind Hw as bs1 Hbs.
  injection Hw as <- <-. apply setOutputUnit_slots in Hr1 as [Ho Hi].
  split; [done|]. intros o v. rewrite Ho, (at_vset _ _ _ _ _ o Hbs).
  case_decide; [|done]. subst o.
  rewrite (at_vget _ _ _ _ Hb), out_slots_eq, (at_vget _ _ _ _ Hu).
  apply (output_wakeup_slots _ _ _ _ _ _ v) in Hw1. lia.
Qed.

Lemma input_loop_slots e p r bs r' bs' :
  Router.input_loop e p (r, bs) = Ok (r', bs') →
  (∀ o v, out_slots r' o v = out_slots r o v) ∧
  (∀ i v, in_slots r' i v + at_ (nvc v) bs' i = in_slots r i v + at_ (nvc v) bs i).
Proof.
  cbn. intros Hw. step_bind Hw as b Hb. step_bind Hw as [r1 b1] Hw1.
  step_bind Hw as bs1 Hbs. injection Hw as <- <-.
  apply input_wakeup_slots in Hw1 as (Ho & Hi & Hp). split; [done|].
  intros i v. rewrite (at_vset _ _ _ _ _ i Hbs). case_decide; [|by rewrite Hi].
  subst i. by rewrite (at_vget _ _ _ _ Hb).
Qed.

(** ** Switch allocation *)

Lemma grant_switch_slots r p f r' :
  Router.grant_switch r p f = Ok r' →
  (∀ i v, in_slots r' i v = in_slots r i v) ∧
  (∀ o v, out_slots r' o v = out_slots r o v +
            one_if (bool_decide (flit_m_outport f = Some o ∧ flit_m_vc f = v))).
Proof.
  unfold Router.grant_switch, CrossbarSwitch.update_sw_winner, vupd. intros Hw.
  step_bind Hw as x Hx. injection Hw as <-. step_bind Hx as bs Hbs.
  injection Hx as <-. step_bind Hbs as b Hb%vget_Ok. step_bind Hbs as b' Hb'.
  injection Hb' as <-. split; intros; [by rewrite !in_slots_eq|].
  rewrite !out_slots_eq. unfold switched. 
  cbn [Router.crossbarSwitch Router.with_xbar CrossbarSwitch.switchBuffers
       Router.m_output_unit].
  rewrite (sum_over_vset _ _ _ _ _ _ Hb Hbs), for_port_insert. lia.
Qed.

Lemma vc_allocate_slots e r o i c oc r' :
  Router.vc_allocate e r o i c = Ok (oc, r') → same_slots r r'.
Proof.
  unfold Router.vc_allocate. intros Hw. step_bind Hw as vn _.
  step_bind Hw as ou Hou%getOutputUnit_Ok. step_bind Hw as [oc1 ou1] Hsel.
  step_bind Hw as r1 Hr1. step_bind Hw as [] _. step_bind Hw as iu Hiu%getInputUnit_Ok.
  step_bind Hw as iu1 Hiu1. step_bind Hw as r2 Hr2. injection Hw as <- <-.
  assert (∀ v, unit_out_slots v ou1 = unit_out_slots v ou) as Hou1.
  { intros v. unfold OutputUnit.select_free_vc in Hsel. step_bind Hsel as w _.
    destruct w; [|by injection Hsel as <- <-]. step_bind Hsel as u' Hu'.
    injection Hsel as <- <-. by eapply set_vc_state_slots. }
  apply setOutputUnit_slots in Hr1 as [Ho1 Hi1].
  apply setInputUnit_slots in Hr2 as [Ho2 Hi2].
  split; intros p v; rewrite ?Ho2, ?Hi2, ?Ho1, ?Hi1; case_decide; try done; subst.
  - by rewrite Hou1, out_slots_eq, (at_lookup _ _ _ _ Hou).
  - rewrite <- Hi1, in_slots_eq, (at_lookup _ _ _ _ Hiu). unfold unit_in_slots.
    by destruct (upd_vc_buffered _ _ _ _ v Hiu1) as [-> ->].
Qed.

(** A grant moves one flit from its channel to the crossbar, returning a credit
    upstream and consuming one downstream. *)
Lemma grant_slots e r o i r' : Router.grant e r o i = Ok r' → same_slots r r'.
Proof.
  unfold Router.grant. intros Hw. step_bind Hw as iu0 _. step_bind Hw as c _.
  step_bind Hw as oc0 _. step_bind Hw as [oc r1] Hr1.
  step_bind Hw as iu Hiu%getInputUnit_Ok. step_bind Hw as [f iu1] Hf.
  step_bind Hw as ou Hou%getOutputUnit_Ok. step_bind Hw as ou1 Hou1.
  step_bind Hw as r2 Hr2. step_bind Hw as r3 Hr3. step_bind Hw as iu2 Hiu2.
  step_bind Hw as r4 Hr4. step_bind Hw as reqs _. step_bind Hw as rri _.
  step_bind Hw as rrv _. injection Hw as <-.
  assert (same_slots r r1) as Hs1.
  { destruct (oc0 =? -1); [by eapply vc_allocate_slots|by injection Hr1 as <- <-]. }
  etransitivity; [exact Hs1|]. clear Hs1 Hr1.
  etransitivity; [|by apply (same_units_same_slots r4)].
  assert (∀ v, unit_in_slots v iu2 = unit_in_slots v iu1) as Hiu2'.
  { intros v. case_in Hiu2; [|by injection Hiu2 as <-]. step_bind Hiu2 as rd _.
    step_bind Hiu2 as [] _. unfold unit_in_slots.
    by destruct (upd_vc_buffered _ _ _ _ v Hiu2) as [-> ->]. }
  apply setInputUnit_slots in Hr4 as [Ho4 Hi4].
  apply setOutputUnit_slots in Hr2 as [Ho2 Hi2].
  apply grant_switch_slots in Hr3 as [Hi3 Ho3].
  assert (same_slots r3 (Router.schedule_link r3 (CreditLinkAt i (Router.clockEdge e r3 1))))
    as [Ho5 Hi5] by by apply same_units_same_slots.
  split; intros p v.
  - rewrite Ho4, Ho5, Ho3, Ho2. cbn [flit_m_outport flit_m_vc set_outport set_vc advance_stage].
    pose proof (decrement_credit_out_slots _ _ _ v Hou1).
    destruct (decide (p = o)) as [->|Hp]; [|rewrite bool_decide_eq_false_2 by naive_solver; cbn; lia].
    rewrite out_slots_eq, (at_lookup _ _ _ _ Hou).
    rewrite (bool_decide_ext (Some o = Some o ∧ oc = v) (oc = v)) by naive_solver. lia.
  - rewrite Hi4, Hi5, Hi3, Hi2. case_decide as Hp; [subst p|done].
    destruct (increment_credit_slots e iu2 c (is_tail (flit_m_type f)) (curTick e) v)
      as [Hb Hq].
    destruct (getTopFlit_buffered _ _ _ _ v Hf) as [Hb' Hq'].
    specialize (Hiu2' v). rewrite in_slots_eq, (at_lookup _ _ _ _ Hiu).
    unfold unit_in_slots in *. cbn in *. lia.
Qed.

Lemma for_range_same_slots a n f r r' :
  (∀ i t t', f i t = Ok t' → same_slots t t') →
  for_range a n f r = Ok r' → same_slots r r'.
Proof.
  intros Hf. apply (for_range_inv (λ _ t, same_slots r t)); [|done].
  intros i t t' _ Ht Hi. etransitivity; [exact Ht|by eapply Hf].
Qed.

Lemma arbitrate_inport_slots e i r r' :
  Router.arbitrate_inport e i r = Ok r' → same_slots r r'.
Proof.
  unfold Router.arbitrate_inport. intros Hw. step_bind Hw as c _. step_bind Hw as w _.
  destruct w as [[o c']|]; [|by injection Hw as <-].
  step_bind Hw as reqs _. step_bind Hw as wins _. injection Hw as <-.
  by apply same_units_same_slots.
Qed.

Lemma arbitrate_outport_slots e o r r' :
  Router.arbitrate_outport e o r = Ok r' → same_slots r r'.
Proof.
  unfold Router.arbitrate_outport. intros Hw. step_bind Hw as c _. step_bind Hw as w _.
  destruct w as [i|]; [by eapply grant_slots|by injection Hw as <-].
Qed.

Lemma check_for_wakeup_slots e r r' :
  Router.check_for_wakeup e r = Ok r' → same_slots r r'.
Proof.
  unfold Router.check_for_wakeup. intros Hw. case_in Hw; [by injection Hw as <-|].
  step_bind Hw as b _. destruct b; [by eapply schedule_wakeup_slots|by injection Hw as <-].
Qed.

Lemma sa_wakeup_slots e r r' : Router.sa_wakeup e r = Ok r' → same_slots r r'.
Proof.
  unfold Router.sa_wakeup. intros Hw. step_bind Hw as r1 Hr1. step_bind Hw as r2 Hr2.
  apply for_range_same_slots in Hr1; [|by eauto using arbitrate_inport_slots].
  apply for_range_same_slots in Hr2; [|by eauto using arbitrate_outport_slots].
  etransitivity; [exact Hr1|]. etransitivity; [exact Hr2|].
  etransitivity; [|by eapply check_for_wakeup_slots]. by apply same_units_same_slots.
Qed.

(** ** The crossbar *)

Lemma traverse_slots e i r r' : Router.traverse e i r = Ok r' → same_slots r r'.
Proof.
  unfold Router.traverse. intros Hw. step_bind Hw as b Hb%vget_Ok.
  destruct (negb _); [by injection Hw as <-|]. step_bind Hw as f Hf.
  destruct (is_stage _ _ _); [|by injection Hw as <-].
  step_bind Hw as o Ho%determinate_Ok. step_bind Hw as ou Hou%getOutputUnit_Ok.
  step_bind Hw as r1 Hr1. step_bind Hw as [g b'] Hg. step_bind Hw as bs Hbs.
  injection Hw as <-.
  assert (g = f) as ->.
  { unfold FlitBuffer.peekTopFlit in Hf. apply determinate_Ok in Hf.
    apply FlitBuffer.getTopFlit_Ok in Hg as [Hg _]. rewrite Hg in Hf. by injection Hf. }
  apply setOutputUnit_Ok in Hr1 as (Hs & Hi & Hx & _). split; intros p v.
  - rewrite !out_slots_eq. unfold switched.
    cbn [Router.m_output_unit Router.crossbarSwitch Router.with_xbar Router.schedule_link
         CrossbarSwitch.switchBuffers].
    rewrite (at_vset _ _ _ _ _ p Hs), (sum_over_vset _ _ _ _ _ _ Hb Hbs).
    rewrite (for_port_getTopFlit p v _ _ _ Hg), Ho. case_decide as Hp.
    + subst p. rewrite insert_flit_slots, (at_lookup _ _ _ _ Hou). cbn.
      rewrite (bool_decide_ext (Some o = Some o ∧ flit_m_vc f = v) (flit_m_vc f = v))
        by naive_solver. lia.
    + rewrite bool_decide_eq_false_2 by naive_solver. cbn. lia.
  - rewrite !in_slots_eq. cbn. by rewrite Hi.
Qed.

Lemma crossbar_wakeup_slots e r r' : Router.crossbar_wakeup e r = Ok r' → same_slots r r'.
Proof. apply for_range_same_slots. eauto using traverse_slots. Qed.

(** ** The router *)

Lemma router_wakeup_slots e r ibs cbs r' ibs' cbs' :
  Router.wakeup e r ibs cbs = Ok (r', ibs', cbs') →
  (∀ o v, out_slots r' o v + at_ (nvc v) cbs' o = out_slots r o v + at_ (nvc v) cbs o) ∧
  (∀ i v, in_slots r' i v + at_ (nvc v) ibs' i = in_slots r i v + at_ (nvc v) ibs i).
Proof.
  unfold Router.wakeup. intros Hw. step_bind Hw as [] _. step_bind Hw as [r1 ib1] H1.
  step_bind Hw as [r2 cb1] H2. step_bind Hw as r3 H3%sa_wakeup_slots.
  step_bind Hw as r4 H4%crossbar_wakeup_slots. injection Hw as <- <- <-.
  assert ((∀ o v, out_slots r1 o v = out_slots r o v) ∧
    ∀ i v, in_slots r1 i v + at_ (nvc v) ib1 i = in_slots r i v + at_ (nvc v) ibs i)
    as [Ho1 Hi1].
  { revert H1. apply (for_range_inv (λ _ st,
      (∀ o v, out_slots st.1 o v = out_slots r o v) ∧
      ∀ i v, in_slots st.1 i v + at_ (nvc v) st.2 i = in_slots r i v + at_ (nvc v) ibs i));
      [|done].
    intros i [ra ba] [rb bb] _ [Ho Hi] [Ho' Hi']%input_loop_slots. cbn in *.
    split; intros; [by rewrite Ho'|by rewrite Hi']. }
  assert ((∀ i v, in_slots r2 i v = in_slots r1 i v) ∧
    ∀ o v, out_slots r2 o v + at_ (nvc v) cb1 o = out_slots r1 o v + at_ (nvc v) cbs o)
    as [Hi2 Ho2].
  { revert H2. apply (for_range_inv (λ _ st,
      (∀ i v, in_slots st.1 i v = in_slots r1 i v) ∧
      ∀ o v, out_slots st.1 o v + at_ (nvc v) st.2 o =
             out_slots r1 o v + at_ (nvc v) cbs o)); [|done].
    intros i [ra ba] [rb bb] _ [Ho Hi] [Ho' Hi']%output_loop_slots. cbn in *.
    split; intros; [by rewrite Ho'|by rewrite Hi']. }
  destruct H3 as [Ho3 Hi3], H4 as [Ho4 Hi4].
  split; intros; rewrite ?Ho4, ?Hi4, ?Ho3, ?Hi3.
  - by rewrite Ho2, Ho1.
  - by rewrite Hi2, Hi1.
Qed.

(** ** Credit counts stay in range *)

(** An update of a channel's state keeps the size of the buffer it counts, and
    keeps the count within it. *)
Definition vc_keeps (o o' : OutVcState.t) : Prop :=
  OutVcState.m_max_credit_count o' = OutVcState.m_max_credit_count o ∧
  (OutVcState.wf o → OutVcState.wf o').

Definition unit_keeps (u u' : OutputUnit.t) : Prop :=
  Forall2 vc_keeps (OutputUnit.outVcState u) (OutputUnit.outVcState u').

Definition outs_keep r r' : Prop :=
  Forall2 unit_keeps (Router.m_output_unit r) (Router.m_output_unit r').

#[global] Instance vc_keeps_preorder : PreOrder vc_keeps.
Proof. split; [by split|]. intros a b c [? ?] [? ?]. split; [congruence|auto]. Qed.
#[global] Instance unit_keeps_preorder : PreOrder unit_keeps.
Proof. unfold unit_keeps. split; [by intros u|]. intros u1 u2 u3. by intros ->. Qed.
#[global] Instance outs_keep_preorder : PreOrder outs_keep.
Proof. unfold outs_keep. split; [by intros u|]. intros u1 u2 u3. by intros ->. Qed.

Lemma unit_keeps_vupd u p g os :
  vupd (OutputUnit.outVcState u) p g = Ok os →
  (∀ o o', g o = Ok o' → vc_keeps o o') → unit_keeps u (OutputUnit.with_vcs u os).
Proof.
  unfold vupd. intros Ho Hg. step_bind Ho as a Ha. step_bind Ho as a' Ha'.
  eapply (Forall2_vset vc_keeps); eauto.
Qed.

Lemma set_vc_state_keeps u st c tm u' :
  OutputUnit.set_vc_state u st c tm = Ok u' → unit_keeps u u'.
Proof.
  unfold OutputUnit.set_vc_state. intros Hs. step_bind Hs as os Hos.
  injection Hs as <-. eapply unit_keeps_vupd; [done|]. by intros o o' [= <-].
Qed.

Lemma increment_credit_keeps u c u' :
  OutputUnit.increment_credit u c = Ok u' → unit_keeps u u'.
Proof.
  unfold OutputUnit.increment_credit. intros Hs. step_bind Hs as os Hos.
  injection Hs as <-. eapply unit_keeps_vupd; [done|].
  intros o o' (? & ? & ? & _)%OutVcState.increment_credit_Ok.
  split; [done|]. unfold OutVcState.wf. lia.
Qed.

Lemma decrement_credit_keeps u c u' :
  OutputUnit.decrement_credit u c = Ok u' → unit_keeps u u'.
Proof.
  unfold OutputUnit.decrement_credit. intros Hs. step_bind Hs as os Hos.
  injection Hs as <-. eapply unit_keeps_vupd; [done|].
  intros o o' (? & ? & ? & _)%OutVcState.decrement_credit_Ok.
  split; [done|]. unfold OutVcState.wf. lia.
Qed.

Lemma output_wakeup_keeps cur clk u b u' b' :
  OutputUnit.wakeup cur clk u b = Ok (u', b') → unit_keeps u u'.
Proof.
  unfold OutputUnit.wakeup. intros Hw. case_in Hw; [|by injection Hw as <- <-].
  step_bind Hw as [c b1] Hc. step_bind Hw as u1 Hu1%increment_credit_keeps.
  step_bind Hw as fr _. step_bind Hw as u2 Hu2. etransitivity; [exact Hu1|].
  transitivity u2.
  - destruct fr; [by eapply set_vc_state_keeps|by injection Hu2 as <-].
  - case_in Hw; [step_bind Hw as k Hk|]; injection Hw as <- <-; by unfold unit_keeps.
Qed.

Lemma setOutputUnit_keeps r p u u' r' :
  Router.getOutputUnit r p = Ok u → unit_keeps u u' →
  Router.setOutputUnit r p u' = Ok r' → outs_keep r r'.
Proof.
  intros Hu%getOutputUnit_Ok Hk (Hs & _)%setOutputUnit_Ok.
  eapply (Forall2_vset unit_keeps); [by apply vget_Ok|done|done].
Qed.

Lemma same_outputs_keep r r' :
  Router.m_output_unit r' = Router.m_output_unit r → outs_keep r r'.
Proof. unfold outs_keep. by intros ->. Qed.

Lemma select_free_vc_keeps u cur vn oc u' :
  OutputUnit.select_free_vc u cur vn = Ok (oc, u') → unit_keeps u u'.
Proof.
  unfold OutputUnit.select_free_vc. intros Hs. step_bind Hs as w _. destruct w.
  - step_bind Hs as u1 Hu1. injection Hs as <- <-. by eapply set_vc_state_keeps.
  - by injection Hs as <- <-.
Qed.

Lemma vc_allocate_keeps e r o i c oc r' :
  Router.vc_allocate e r o i c = Ok (oc, r') → outs_keep r r'.
Proof.
  unfold Router.vc_allocate. intros Hw. step_bind Hw as vn _. step_bind Hw as ou Hou.
  step_bind Hw as [oc1 ou1] Hsel%select_free_vc_keeps. step_bind Hw as r1 Hr1.
  step_bind Hw as [] _. step_bind Hw as iu Hiu. step_bind Hw as iu1 Hiu1.
  step_bind Hw as r2 Hr2. injection Hw as <- <-.
  apply setInputUnit_Ok in Hr2 as (_ & Hr2 & _).
  transitivity r1; [by eapply setOutputUnit_keeps|by apply same_outputs_keep].
Qed.

Lemma grant_keeps e r o i r' : Router.grant e r o i = Ok r' → outs_keep r r'.
Proof.
  unfold Router.grant. intros Hw. step_bind Hw as iu0 _. step_bind Hw as c _.
  step_bind Hw as oc0 _. step_bind Hw as [oc r1] Hr1. step_bind Hw as iu _.
  step_bind Hw as [f iu1] _. step_bind Hw as ou Hou.
  step_bind Hw as ou1 Hou1%decrement_credit_keeps.
  step_bind Hw as r2 Hr2. step_bind Hw as r3 Hr3. step_bind Hw as iu2 _.
  step_bind Hw as r4 Hr4. step_bind Hw as reqs _. step_bind Hw as rri _.
  step_bind Hw as rrv _. injection Hw as <-. transitivity r1.
  { case_in Hr1; [by eapply vc_allocate_keeps|by injection Hr1 as <- <-]. }
  apply setInputUnit_Ok in Hr4 as (_ & Hr4 & _).
  unfold Router.grant_switch in Hr3. step_bind Hr3 as x _. injection Hr3 as <-.
  transitivity r2; [by eapply setOutputUnit_keeps|by apply same_outputs_keep].
Qed.

Lemma for_range_keeps a n f r r' :
  (∀ i t t', f i t = Ok t' → outs_keep t t') →
  for_range a n f r = Ok r' → outs_keep r r'.
Proof.
  intros Hf. apply (for_range_inv (λ _ t, outs_keep r t)); [|done].
  intros i t t' _ Ht Hi. etransitivity; [exact Ht|by eapply Hf].
Qed.

Lemma sa_wakeup_keeps e r r' : Router.sa_wakeup e r = Ok r' → outs_keep r r'.
Proof.
  unfold Router.sa_wakeup. intros Hw. step_bind Hw as r1 Hr1. step_bind Hw as r2 Hr2.
  transitivity r1; [|transitivity r2].
  - revert Hr1. apply for_range_keeps. intros i t t' Hi.
    unfold Router.arbitrate_inport in Hi. step_bind Hi as c _. step_bind Hi as w _.
    destruct w as [[o c']|]; [|by injection Hi as <-].
    step_bind Hi as reqs _. step_bind Hi as wins _. injection Hi as <-; by apply same_outputs_keep.
  - revert Hr2. apply for_range_keeps. intros o t t' Hi.
    unfold Router.arbitrate_outport in Hi. step_bind Hi as c _. step_bind Hi as w _.
    destruct w as [i|]; [by eapply grant_keeps|by injection Hi as <-].
  - unfold Router.check_for_wakeup in Hw. case_in Hw; [injection Hw as <-; by apply same_outputs_keep|].
    step_bind Hw as b _. destruct b; [|injection Hw as <-; by apply same_outputs_keep].
    apply schedule_wakeup_units in Hw as (_ & Hw & _). by apply same_outputs_keep.
Qed.

Lemma crossbar_wakeup_keeps e r r' :
  Router.crossbar_wakeup e r = Ok r' → outs_keep r r'.
Proof.
  apply for_range_keeps. intros i t t' Hw. unfold Router.traverse in Hw.
  step_bind Hw as b _. case_in Hw; [by injection Hw as <-|]. step_bind Hw as f _.
  case_in Hw; [|by injection Hw as <-]. step_bind Hw as o _. step_bind Hw as ou Hou.
  step_bind Hw as r1 Hr1. step_bind Hw as [g b'] _. step_bind Hw as bs _.
  injection Hw as <-.
  transitivity r1; [|by apply same_outputs_keep].
  eapply setOutputUnit_keeps; [done| |done]. by unfold unit_keeps.
Qed.

Lemma input_loop_outputs e p r bs r' bs' :
  Router.input_loop e p (r, bs) = Ok (r', bs') →
  Router.m_output_unit r' = Router.m_output_unit r.
Proof.
  cbn. intros Hl. step_bind Hl as b _. step_bind Hl as [r1 b1] Hw. step_bind Hl as bs1 _.
  injection Hl as <- <-. unfold Router.input_wakeup in Hw.
  case_in Hw; [|by injection Hw as <- <-]. step_bind Hw as [f b2] _. step_bind Hw as [] _.
  step_bind Hw as u _. step_bind Hw as vc _. step_bind Hw as [u1 r2] Hhead.
  step_bind Hw as [] _. step_bind Hw as u2 _. step_bind Hw as ws _. step_bind Hw as rs _.
  step_bind Hw as r3 Hr3. step_bind Hw as r4 Hr4. step_bind Hw as r5 Hr5.
  injection Hw as <- <-. transitivity (Router.m_output_unit r4).
  { case_in Hr5; [by apply schedule_wakeup_units in Hr5 as (_ & ? & _)|by injection Hr5 as <-]. }
  transitivity (Router.m_output_unit r3).
  { case_in Hr4; [by injection Hr4 as <-|by apply schedule_wakeup_units in Hr4 as (_ & ? & _)]. }
  apply setInputUnit_Ok in Hr3 as (_ & -> & _). case_in Hhead.
  - step_bind Hhead as [] _. step_bind Hhead as ua Ha. step_bind Hhead as [op ra] Hra.
    step_bind Hhead as ub Hb. injection Hhead as <- <-. by apply route_compute_units in Hra as (_ & ? & _).
  - step_bind Hhead as [] _. by injection Hhead as <- <-.
Qed.

Lemma router_wakeup_keeps e r ibs cbs r' ibs' cbs' :
  Router.wakeup e r ibs cbs = Ok (r', ibs', cbs') → outs_keep r r'.
Proof.
  unfold Router.wakeup. intros Hw. step_bind Hw as [] _. step_bind Hw as [r1 ib1] H1.
  step_bind Hw as [r2 cb1] H2. step_bind Hw as r3 H3%sa_wakeup_keeps.
  step_bind Hw as r4 H4%crossbar_wakeup_keeps. injection Hw as <- <- <-.
  transitivity r3; [|done]. transitivity r2; [|done]. transitivity r1.
  - revert H1. apply (for_range_inv (λ _ st, outs_keep r st.1)); [|done].
    intros i [ra ba] [rb bb] _ Ha Hl%input_loop_outputs. etransitivity; [exact Ha|].
    by apply same_outputs_keep.
  - revert H2. apply (for_range_inv (λ _ st, outs_keep r1 st.1)); [|done].
    intros o [ra ba] [rb bb] _ Ha Hl. cbn in *. step_bind Hl as b _. step_bind Hl as u Hu.
    step_bind Hl as [u1 b1] Hu1%output_wakeup_keeps. step_bind Hl as rc Hrc.
    step_bind Hl as cbs1 _. injection Hl as <- <-. etransitivity; [exact Ha|].
    eapply setOutputUnit_keeps; [|done..]. by apply getOutputUnit_Ok, vget_Ok.
Qed.

(** A wake-up keeps one buffer per port. *)
Lemma router_wakeup_lengths e r ibs cbs r' ibs' cbs' :
  Router.wakeup e r ibs cbs = Ok (r', ibs', cbs') →
  length ibs' = length ibs ∧ length cbs' = length cbs.
Proof.
  unfold Router.wakeup. intros Hw. step_bind Hw as [] _. step_bind Hw as [r1 ib1] H1.
  step_bind Hw as [r2 cb1] H2. step_bind Hw as r3 H3. step_bind Hw as r4 H4.
  injection Hw as <- <- <-. split; [clear H2; revert H1|clear H1; revert H2];
    apply (for_range_inv (λ _ (st : Router.t * _), length st.2 = length _)); try done;
    intros i [ra ba] [rb bb] _ Ha Hl; cbn in *; inv_result;
    match goal with Hs : vset _ _ _ = Ok _ |- _ => apply vset_Ok in Hs as [_ ->] end;
    by rewrite length_insert.
Qed.

End router_views.
