(* ===== verification/CreditProtocol.v ===== *)
(** * The credit protocol across the network

    Routers joined by internal links, as [GarnetNetwork::makeInternalLink]
    wires them (without bridges): a channel goes from an output port of one
    router to an input port of another, with a network link from the first to
    the second and a credit link back.  Each link is kept with the port that
    consumes it.  The network evolves by wake-ups of routers and of links, in
    any order and at any ticks; ports that belong to no channel are attached to
    network interfaces, which may do anything to the links of those ports.

    The invariant: for every channel and every virtual channel, the credits of
    the sender, the flits and the credits on their way and the flits buffered
    at the receiver add up to the size of the receiver's buffer.  Nothing in
    the code checks that a virtual channel does not overflow; this is why it
    does not. *)

From S2P Require Import Prelude.
From S2P Require Import IntMath.
From S2P Require Import NetDest.
From S2P Require Import Flit.
From S2P Require Import VirtualChannels.
From S2P Require Import Routing.
From S2P Require Import Clocking.
From S2P Require Import Links.
From S2P Require Import Pipeline.
From S2P Require Import FlowControl.

Section credit_protocol.
  Context `{MachineTypes}.

(** A router with the network links its input ports consume and the credit
    links its output ports consume. *)
Record node := mkNode {
  nd_router : Router.t;
  nd_in : list NetworkLink.t;
  nd_credit : list NetworkLink.t;
}.

Record chan := mkChan { ch_src : Z; ch_out : Z; ch_dst : Z; ch_in : Z }.

#[global] Instance chan_eq_dec : EqDecision chan.
Proof. solve_decision. Defined.

Definition net := list node.

(** Putting the buffers a wake-up leaves back into their links. *)
Definition with_buffers (ls : list NetworkLink.t) (bs : list FlitBuffer.t)
    : list NetworkLink.t :=
  zip_with NetworkLink.with_buffer ls bs.

(** ** Wake-ups *)

Inductive event :=
| WakeRouter (k : Z)
| WakeLink (c : chan)
| WakeCreditLink (c : chan).

Definition wake_router (e : Env) (k : Z) (n : net) : result net :=
  d ← vget n k;
  '(r, ibs, cbs) ← Router.wakeup e (nd_router d)
                     (NetworkLink.linkBuffer <$> nd_in d)
                     (NetworkLink.linkBuffer <$> nd_credit d);
  vset n k (mkNode r (with_buffers (nd_in d) ibs) (with_buffers (nd_credit d) cbs)).

(** The pieces of a node the links and the interfaces touch. *)
Definition get_in_link (k i : Z) (n : net) : result NetworkLink.t :=
  d ← vget n k; vget (nd_in d) i.

Definition set_in_link (k i : Z) (l : NetworkLink.t) (n : net) : result net :=
  d ← vget n k;
  ls ← vset (nd_in d) i l;
  vset n k (mkNode (nd_router d) ls (nd_credit d)).

Definition get_credit_link (k o : Z) (n : net) : result NetworkLink.t :=
  d ← vget n k; vget (nd_credit d) o.

Definition set_credit_link (k o : Z) (l : NetworkLink.t) (n : net) : result net :=
  d ← vget n k;
  ls ← vset (nd_credit d) o l;
  vset n k (mkNode (nd_router d) (nd_in d) ls).

Definition get_outBuffer (k o : Z) (n : net) : result FlitBuffer.t :=
  d ← vget n k;
  u ← Router.getOutputUnit (nd_router d) o;
  Ok (OutputUnit.outBuffer u).

Definition set_outBuffer (k o : Z) (q : FlitBuffer.t) (n : net) : result net :=
  d ← vget n k;
  u ← Router.getOutputUnit (nd_router d) o;
  r ← Router.setOutputUnit (nd_router d) o (OutputUnit.with_outBuffer u q);
  vset n k (mkNode r (nd_in d) (nd_credit d)).

Definition get_creditQueue (k i : Z) (n : net) : result FlitBuffer.t :=
  d ← vget n k;
  u ← Router.getInputUnit (nd_router d) i;
  Ok (InputUnit.creditQueue u).

Definition set_creditQueue (k i : Z) (q : FlitBuffer.t) (n : net) : result net :=
  d ← vget n k;
  u ← Router.getInputUnit (nd_router d) i;
  r ← Router.setInputUnit (nd_router d) i (InputUnit.with_creditQueue u q);
  vset n k (mkNode r (nd_in d) (nd_credit d)).

(** The network link of a channel reads the output queue of the output unit,
    its credit link the credit queue of the input unit. *)
Definition wake_link (e : Env) (c : chan) (n : net) : result net :=
  q ← get_outBuffer (ch_src c) (ch_out c) n;
  l ← get_in_link (ch_dst c) (ch_in c) n;
  '(l, q, _) ← NetworkLink.wakeup (curTick e) l (Some q);
  n ← set_in_link (ch_dst c) (ch_in c) l n;
  set_outBuffer (ch_src c) (ch_out c) q n.

Definition wake_credit_link (e : Env) (c : chan) (n : net) : result net :=
  q ← get_creditQueue (ch_dst c) (ch_in c) n;
  l ← get_credit_link (ch_src c) (ch_out c) n;
  '(l, q, _) ← NetworkLink.wakeup (curTick e) l (Some q);
  n ← set_credit_link (ch_src c) (ch_out c) l n;
  set_creditQueue (ch_dst c) (ch_in c) q n.

Definition wake (e : Env) (ev : event) (n : net) : result net :=
  match ev with
  | WakeRouter k => wake_router e k n
  | WakeLink c => wake_link e c n
  | WakeCreditLink c => wake_credit_link e c n
  end.

(** ** What a channel holds *)

Definition node_out (o v : Z) (d : node) : Z :=
  out_slots (nd_router d) o v +
  at_ (λ l, nvc v (NetworkLink.linkBuffer l)) (nd_credit d) o.

Definition node_in (i v : Z) (d : node) : Z :=
  in_slots (nd_router d) i v +
  at_ (λ l, nvc v (NetworkLink.linkBuffer l)) (nd_in d) i.

(** The slots of virtual channel [v] of channel [c]. *)
Definition chan_slots (n : net) (c : chan) (v : Z) : Z :=
  at_ (node_out (ch_out c) v) n (ch_src c) + at_ (node_in (ch_in c) v) n (ch_dst c).

(** No two channels share a port. *)
Definition wired (cs : list chan) : Prop :=
  NoDup ((λ c, (ch_src c, ch_out c)) <$> cs) ∧ NoDup ((λ c, (ch_dst c, ch_in c)) <$> cs).

(** A step of the network: a wake-up, or an interface changing the link or the
    queue of a port that belongs to no channel. *)
Inductive step (cs : list chan) : net → net → Prop :=
| step_router e k n n' :
    wake e (WakeRouter k) n = Ok n' → step cs n n'
| step_link e c n n' :
    c ∈ cs → wake e (WakeLink c) n = Ok n' → step cs n n'
| step_credit_link e c n n' :
    c ∈ cs → wake e (WakeCreditLink c) n = Ok n' → step cs n n'
| step_ni_in k i l n n' :
    (∀ c, c ∈ cs → (ch_dst c, ch_in c) ≠ (k, i)) →
    set_in_link k i l n = Ok n' → step cs n n'
| step_ni_credit k o l n n' :
    (∀ c, c ∈ cs → (ch_src c, ch_out c) ≠ (k, o)) →
    set_credit_link k o l n = Ok n' → step cs n n'
| step_ni_out k o q n n' :
    (∀ c, c ∈ cs → (ch_src c, ch_out c) ≠ (k, o)) →
    set_outBuffer k o q n = Ok n' → step cs n n'
| step_ni_creditQueue k i q n n' :
    (∀ c, c ∈ cs → (ch_dst c, ch_in c) ≠ (k, i)) →
    set_creditQueue k i q n = Ok n' → step cs n n'.

(** ** What the pieces contribute *)

(** The change of a node view where one node is replaced. *)
Lemma at_node_vset (f : node → Z) n k d d' n' (x : Z) k' :
  vget n k = Ok d → vset n k d' = Ok n' → f d' = f d + x →
  at_ f n' k' = at_ f n k' + if decide (k' = k) then x else 0.
Proof.
  intros Hd Hs Hx. rewrite (at_vset f _ _ _ _ k' Hs). case_decide; [|lia].
  subst. by rewrite (at_vget f _ _ _ Hd).
Qed.

Definition link_nvc (v : Z) (l : NetworkLink.t) : Z := nvc v (NetworkLink.linkBuffer l).

(** [n'] holds [x v] more slots at input port [i] of node [k] than [n], and is
    otherwise the same; likewise for output ports. *)
Definition in_change (k i : Z) (x : Z → Z) (n n' : net) : Prop :=
  (∀ k' o v, at_ (node_out o v) n' k' = at_ (node_out o v) n k') ∧
  (∀ k' i' v, at_ (node_in i' v) n' k' =
     at_ (node_in i' v) n k' + if decide ((k', i') = (k, i)) then x v else 0).

Definition out_change (k o : Z) (x : Z → Z) (n n' : net) : Prop :=
  (∀ k' i v, at_ (node_in i v) n' k' = at_ (node_in i v) n k') ∧
  (∀ k' o' v, at_ (node_out o' v) n' k' =
     at_ (node_out o' v) n k' + if decide ((k', o') = (k, o)) then x v else 0).

Lemma if_decide_pair (k k' i i' x : Z) :
  (if decide (k' = k) then (if decide (i' = i) then x else 0) else 0) =
  (if decide ((k', i') = (k, i)) then x else 0).
Proof. repeat case_decide; naive_solver. Qed.

Lemma node_change (f : node → Z) n k d d' n' k' (i i' x : Z) :
  vget n k = Ok d → vset n k d' = Ok n' →
  f d' = f d + (if decide (i' = i) then x else 0) →
  at_ f n' k' = at_ f n k' + if decide ((k', i') = (k, i)) then x else 0.
Proof. intros Hd Hs Hx. rewrite <- if_decide_pair. by eapply at_node_vset. Qed.

Lemma node_same (f : node → Z) n k d d' n' k' :
  vget n k = Ok d → vset n k d' = Ok n' → f d' = f d → at_ f n' k' = at_ f n k'.
Proof.
  intros Hd Hs Hx. rewrite (at_node_vset f _ _ _ _ _ 0 k' Hd Hs) by lia.
  case_decide; lia.
Qed.

Lemma set_in_link_change k i l n n' l0 :
  get_in_link k i n = Ok l0 → set_in_link k i l n = Ok n' →
  in_change k i (λ v, link_nvc v l - link_nvc v l0) n n'.
Proof.
  unfold get_in_link, set_in_link. intros Hg Hs. step_bind Hg as d Hd.
  step_bind Hs as d' Hd'. same_result. step_bind Hs as ls Hls. split; intros.
  - by eapply node_same.
  - eapply node_change; [done..|]. unfold node_in. cbn [nd_in nd_router nd_credit].
    rewrite (at_vset _ _ _ _ _ i' Hls). case_decide; [|lia]. subst i'.
    rewrite (at_vget _ _ _ _ Hg). unfold link_nvc. lia.
Qed.

Lemma set_credit_link_change k o l n n' l0 :
  get_credit_link k o n = Ok l0 → set_credit_link k o l n = Ok n' →
  out_change k o (λ v, link_nvc v l - link_nvc v l0) n n'.
Proof.
  unfold get_credit_link, set_credit_link. intros Hg Hs. step_bind Hg as d Hd.
  step_bind Hs as d' Hd'. same_result. step_bind Hs as ls Hls. split; intros.
  - by eapply node_same.
  - eapply node_change; [done..|]. unfold node_out. cbn [nd_in nd_router nd_credit].
    rewrite (at_vset _ _ _ _ _ o' Hls). case_decide; [|lia]. subst o'.
    rewrite (at_vget _ _ _ _ Hg). unfold link_nvc. lia.
Qed.

Lemma set_outBuffer_change k o q n n' q0 :
  get_outBuffer k o n = Ok q0 → set_outBuffer k o q n = Ok n' →
  out_change k o (λ v, nvc v q - nvc v q0) n n'.
Proof.
  unfold get_outBuffer, set_outBuffer. intros Hg Hs. step_bind Hg as d Hd.
  step_bind Hg as u Hu. injection Hg as <-. step_bind Hs as d' Hd'. same_result.
  step_bind Hs as u' Hu'. same_result. step_bind Hs as r Hr.
  apply setOutputUnit_slots in Hr as [Ho Hi]. split; intros.
  - eapply node_same; [done..|]. unfold node_in. cbn [nd_in nd_router nd_credit]. by rewrite Hi.
  - eapply node_change; [done..|]. unfold node_out. cbn [nd_in nd_router nd_credit]. rewrite Ho. case_decide; [|lia].
    subst o'. apply getOutputUnit_Ok in Hu.
    rewrite out_slots_eq, (at_lookup _ _ _ _ Hu).
    unfold unit_out_slots, unit_credits, unit_outq. cbn. lia.
Qed.

Lemma set_creditQueue_change k i q n n' q0 :
  get_creditQueue k i n = Ok q0 → set_creditQueue k i q n = Ok n' →
  in_change k i (λ v, nvc v q - nvc v q0) n n'.
Proof.
  unfold get_creditQueue, set_creditQueue. intros Hg Hs. step_bind Hg as d Hd.
  step_bind Hg as u Hu. injection Hg as <-. step_bind Hs as d' Hd'. same_result.
  step_bind Hs as u' Hu'. same_result. step_bind Hs as r Hr.
  apply setInputUnit_slots in Hr as [Ho Hi]. split; intros.
  - eapply node_same; [done..|]. unfold node_out. cbn [nd_in nd_router nd_credit]. by rewrite Ho.
  - eapply node_change; [done..|]. unfold node_in. cbn [nd_in nd_router nd_credit]. rewrite Hi. case_decide; [|lia].
    subst i'. apply getInputUnit_Ok in Hu.
    rewrite in_slots_eq, (at_lookup _ _ _ _ Hu).
    unfold unit_in_slots, unit_buffered, unit_creditq. cbn. lia.
Qed.

(** ** Every step conserves the slots of every channel *)

Lemma with_buffers_at v ls bs i :
  length bs = length ls → at_ (link_nvc v) (with_buffers ls bs) i = at_ (nvc v) bs i.
Proof.
  intros Hl. unfold at_, with_buffers, zlookup. destruct (0 <=? i); [|done].
  rewrite lookup_zip_with. destruct (bs !! Z.to_nat i) as [b|] eqn:E.
  - destruct (lookup_lt_is_Some_2 ls (Z.to_nat i)) as [l Hl'].
    { rewrite <- Hl. by eapply lookup_lt_Some. }
    by rewrite Hl'.
  - by destruct (ls !! Z.to_nat i).
Qed.

Lemma link_buffers_at v (ls : list NetworkLink.t) i :
  at_ (link_nvc v) ls i = at_ (nvc v) (NetworkLink.linkBuffer <$> ls) i.
Proof.
  unfold at_, zlookup. destruct (0 <=? i); [|done]. rewrite list_lookup_fmap.
  by destruct (ls !! Z.to_nat i).
Qed.

Lemma wake_router_same e k n n' :
  wake_router e k n = Ok n' →
  (∀ k' o v, at_ (node_out o v) n' k' = at_ (node_out o v) n k') ∧
  (∀ k' i v, at_ (node_in i v) n' k' = at_ (node_in i v) n k').
Proof.
  unfold wake_router. intros Hw. step_bind Hw as d Hd. step_bind Hw as [[r ibs] cbs] Hr.
  destruct (router_wakeup_slots _ _ _ _ _ _ _ Hr) as [Ho Hi].
  destruct (router_wakeup_lengths _ _ _ _ _ _ _ Hr) as [Hli Hlc].
  rewrite length_fmap in Hli, Hlc.
  split; intros k' p v; (eapply node_same; [done..|]); unfold node_out, node_in; cbn.
  - change (λ l, nvc v (NetworkLink.linkBuffer l)) with (link_nvc v).
    by rewrite with_buffers_at, link_buffers_at, Ho.
  - change (λ l, nvc v (NetworkLink.linkBuffer l)) with (link_nvc v).
    by rewrite with_buffers_at, link_buffers_at, Hi.
Qed.

Lemma wired_src cs c c' :
  wired cs → c ∈ cs → c' ∈ cs → (ch_src c', ch_out c') = (ch_src c, ch_out c) → c' = c.
Proof. intros [Hn _] Hc Hc' He. by eapply (NoDup_fmap_eq _ cs). Qed.

Lemma wired_dst cs c c' :
  wired cs → c ∈ cs → c' ∈ cs → (ch_dst c', ch_in c') = (ch_dst c, ch_in c) → c' = c.
Proof. intros [_ Hn] Hc Hc' He. by eapply (NoDup_fmap_eq _ cs). Qed.

(** A link takes from its source what it delivers: two changes that cancel on
    the channel they belong to and touch no other. *)
Lemma changes_cancel cs c n n1 n2 (x y : Z → Z) :
  wired cs → c ∈ cs →
  (in_change (ch_dst c) (ch_in c) x n n1 ∧ out_change (ch_src c) (ch_out c) y n1 n2 ∨
   out_change (ch_src c) (ch_out c) y n n1 ∧ in_change (ch_dst c) (ch_in c) x n1 n2) →
  (∀ v, x v + y v = 0) →
  ∀ c' v, c' ∈ cs → chan_slots n2 c' v = chan_slots n c' v.
Proof.
  intros Hw Hc Hch Hxy c' v Hc'. unfold chan_slots.
  assert (at_ (node_in (ch_in c') v) n2 (ch_dst c') = at_ (node_in (ch_in c') v) n (ch_dst c') +
            (if decide ((ch_dst c', ch_in c') = (ch_dst c, ch_in c)) then x v else 0) ∧
          at_ (node_out (ch_out c') v) n2 (ch_src c') = at_ (node_out (ch_out c') v) n (ch_src c') +
            (if decide ((ch_src c', ch_out c') = (ch_src c, ch_out c)) then y v else 0))
    as [-> ->].
  { destruct Hch as [[[Ho1 Hi1] [Hi2 Ho2]]|[[Hi1 Ho1] [Ho2 Hi2]]]; split;
      rewrite ?Ho2, ?Hi2, ?Hi1, ?Ho1; done. }
  specialize (Hxy v). destruct (decide (c' = c)) as [->|Hne].
  - rewrite !decide_True by done. lia.
  - rewrite !decide_False; [lia|intros He; apply Hne..];
      first [by apply (wired_src cs)|by apply (wired_dst cs)].
Qed.

(** Replacing a link leaves the queues of the routers alone. *)
Lemma set_in_link_routers k i l n n' k' :
  set_in_link k i l n = Ok n' → nd_router <$> zlookup n' k' = nd_router <$> zlookup n k'.
Proof.
  unfold set_in_link. intros Hs. step_bind Hs as d Hd%vget_Ok. step_bind Hs as ls Hls.
  apply vset_Ok in Hs as [Hk ->]. rewrite zlookup_insert by done.
  case_decide; [subst; by rewrite Hd|done].
Qed.

Lemma set_credit_link_routers k o l n n' k' :
  set_credit_link k o l n = Ok n' → nd_router <$> zlookup n' k' = nd_router <$> zlookup n k'.
Proof.
  unfold set_credit_link. intros Hs. step_bind Hs as d Hd%vget_Ok. step_bind Hs as ls Hls.
  apply vset_Ok in Hs as [Hk ->]. rewrite zlookup_insert by done.
  case_decide; [subst; by rewrite Hd|done].
Qed.

Lemma get_outBuffer_routers k o n n' :
  nd_router <$> zlookup n' k = nd_router <$> zlookup n k →
  get_outBuffer k o n' = get_outBuffer k o n.
Proof.
  unfold get_outBuffer, vget. intros He.
  destruct (zlookup n' k), (zlookup n k); cbn in *; try done. by injection He as ->.
Qed.

Lemma get_creditQueue_routers k i n n' :
  nd_router <$> zlookup n' k = nd_router <$> zlookup n k →
  get_creditQueue k i n' = get_creditQueue k i n.
Proof.
  unfold get_creditQueue, vget. intros He.
  destruct (zlookup n' k), (zlookup n k); cbn in *; try done. by injection He as ->.
Qed.

Lemma wake_link_slots cs e c n n' :
  wired cs → c ∈ cs → wake_link e c n = Ok n' →
  ∀ c' v, c' ∈ cs → chan_slots n' c' v = chan_slots n c' v.
Proof.
  intros Hcs Hc Hw. unfold wake_link in Hw. step_bind Hw as q Hq. step_bind Hw as l Hl.
  step_bind Hw as [[l' q'] sch] Hwk. step_bind Hw as n1 Hn1.
  pose proof (get_outBuffer_routers _ (ch_out c) _ _ (set_in_link_routers _ _ _ _ _ (ch_src c) Hn1))
    as Hq1. rewrite Hq in Hq1.
  eapply changes_cancel; [done..| |].
  - left. split; [by eapply set_in_link_change|by eapply set_outBuffer_change].
  - intros v. apply (LinkFacts.wakeup_conserves v) in Hwk. unfold link_nvc. cbn. lia.
Qed.

Lemma wake_credit_link_slots cs e c n n' :
  wired cs → c ∈ cs → wake_credit_link e c n = Ok n' →
  ∀ c' v, c' ∈ cs → chan_slots n' c' v = chan_slots n c' v.
Proof.
  intros Hcs Hc Hw. unfold wake_credit_link in Hw. step_bind Hw as q Hq.
  step_bind Hw as l Hl. step_bind Hw as [[l' q'] sch] Hwk. step_bind Hw as n1 Hn1.
  pose proof (get_creditQueue_routers _ (ch_in c) _ _
    (set_credit_link_routers _ _ _ _ _ (ch_dst c) Hn1)) as Hq1. rewrite Hq in Hq1.
  eapply changes_cancel; [done..| |].
  - right. split; [by eapply set_credit_link_change|by eapply set_creditQueue_change].
  - intros v. apply (LinkFacts.wakeup_conserves v) in Hwk. unfold link_nvc. cbn. lia.
Qed.

(** A change at a port of no channel. *)
Lemma in_change_other k i x n n' c v :
  in_change k i x n n' → (ch_dst c, ch_in c) ≠ (k, i) → chan_slots n' c v = chan_slots n c v.
Proof. intros [Ho Hi] Hne. unfold chan_slots. rewrite Ho, Hi, decide_False by done. lia. Qed.

Lemma out_change_other k o x n n' c v :
  out_change k o x n n' → (ch_src c, ch_out c) ≠ (k, o) → chan_slots n' c v = chan_slots n c v.
Proof. intros [Hi Ho] Hne. unfold chan_slots. rewrite Ho, Hi, decide_False by done. lia. Qed.

Lemma step_chan_slots cs n n' c v :
  wired cs → step cs n n' → c ∈ cs → chan_slots n' c v = chan_slots n c v.
Proof.
  intros Hcs Hs Hc.
  destruct Hs as [e k n n' Hw|e c' n n' Hc' Hw|e c' n n' Hc' Hw|k i l n n' Hk Hw
    |k o l n n' Hk Hw|k o q n n' Hk Hw|k i q n n' Hk Hw];
    unfold wake in *.
  - destruct (wake_router_same _ _ _ _ Hw) as [Ho Hi]. unfold chan_slots. by rewrite Ho, Hi.
  - by apply (wake_link_slots cs e c').
  - by apply (wake_credit_link_slots cs e c').
  - pose proof Hw as Hg. unfold set_in_link in Hg. step_bind Hg as d Hd.
    step_bind Hg as ls Hls. apply vset_Ok in Hls as [[l0 Hl0]%vget_total _].
    eapply in_change_other; [eapply (set_in_link_change _ _ _ _ _ l0)|by apply Hk]; [|done].
    unfold get_in_link. by rewrite Hd.
  - pose proof Hw as Hg. unfold set_credit_link in Hg. step_bind Hg as d Hd.
    step_bind Hg as ls Hls. apply vset_Ok in Hls as [[l0 Hl0]%vget_total _].
    eapply out_change_other; [eapply (set_credit_link_change _ _ _ _ _ l0)|by apply Hk];
      [|done]. unfold get_credit_link. by rewrite Hd.
  - pose proof Hw as Hg. unfold set_outBuffer in Hg. step_bind Hg as d Hd.
    step_bind Hg as u Hu. eapply out_change_other;
      [eapply (set_outBuffer_change _ _ _ _ _ (OutputUnit.outBuffer u))|by apply Hk]; [|done].
    unfold get_outBuffer. rewrite Hd. cbn. by rewrite Hu.
  - pose proof Hw as Hg. unfold set_creditQueue in Hg. step_bind Hg as d Hd.
    step_bind Hg as u Hu. eapply in_change_other;
      [eapply (set_creditQueue_change _ _ _ _ _ (InputUnit.creditQueue u))|by apply Hk]; [|done].
    unfold get_creditQueue. rewrite Hd. cbn. by rewrite Hu.
Qed.

Lemma reachable_chan_slots cs n n' c v :
  wired cs → rtc (step cs) n n' → c ∈ cs → chan_slots n' c v = chan_slots n c v.
Proof.
  intros Hcs. induction 1 as [|n n1 n2 Hs _ IH]; intros Hc; [done|].
  rewrite IH by done. by eapply step_chan_slots.
Qed.

(** ** Every step keeps the sizes and the ranges of the credit counts *)

Definition node_keeps (d d' : node) : Prop := outs_keep (nd_router d) (nd_router d').

#[local] Instance node_keeps_preorder : PreOrder node_keeps.
Proof.
  unfold node_keeps. split; [by intros d|]. intros d1 d2 d3 H1 H2. by etransitivity.
Qed.

Lemma vset_node_keeps n k d d' n' :
  vget n k = Ok d → vset n k d' = Ok n' → node_keeps d d' → Forall2 node_keeps n n'.
Proof. intros. by eapply (Forall2_vset node_keeps). Qed.

Lemma set_in_link_keeps k i l n n' : set_in_link k i l n = Ok n' → Forall2 node_keeps n n'.
Proof.
  unfold set_in_link. intros Hs. step_bind Hs as d Hd. step_bind Hs as ls Hls.
  eapply vset_node_keeps; [done..|]. by apply same_outputs_keep.
Qed.

Lemma set_credit_link_keeps k o l n n' :
  set_credit_link k o l n = Ok n' → Forall2 node_keeps n n'.
Proof.
  unfold set_credit_link. intros Hs. step_bind Hs as d Hd. step_bind Hs as ls Hls.
  eapply vset_node_keeps; [done..|]. by apply same_outputs_keep.
Qed.

Lemma set_outBuffer_keeps k o q n n' :
  set_outBuffer k o q n = Ok n' → Forall2 node_keeps n n'.
Proof.
  unfold set_outBuffer. intros Hs. step_bind Hs as d Hd. step_bind Hs as u Hu.
  step_bind Hs as r Hr. eapply vset_node_keeps; [done..|].
  eapply setOutputUnit_keeps; [done| |done]. by unfold unit_keeps.
Qed.

Lemma set_creditQueue_keeps k i q n n' :
  set_creditQueue k i q n = Ok n' → Forall2 node_keeps n n'.
Proof.
  unfold set_creditQueue. intros Hs. step_bind Hs as d Hd. step_bind Hs as u Hu.
  step_bind Hs as r Hr. apply setInputUnit_Ok in Hr as (_ & Hr & _).
  eapply vset_node_keeps; [done..|]. by apply same_outputs_keep.
Qed.

Lemma step_keeps cs n n' : step cs n n' → Forall2 node_keeps n n'.
Proof.
  destruct 1 as [e k n n' Hw|e c n n' _ Hw|e c n n' _ Hw|k i l n n' _ Hw
    |k o l n n' _ Hw|k o q n n' _ Hw|k i q n n' _ Hw]; unfold wake in *.
  - unfold wake_router in Hw. step_bind Hw as d Hd. step_bind Hw as [[r ibs] cbs] Hr.
    eapply vset_node_keeps; [done..|]. by eapply router_wakeup_keeps.
  - unfold wake_link in Hw. step_bind Hw as q _. step_bind Hw as l _.
    step_bind Hw as [[l' q'] sch] _. step_bind Hw as n1 Hn1%set_in_link_keeps.
    etransitivity; [exact Hn1|by eapply set_outBuffer_keeps].
  - unfold wake_credit_link in Hw. step_bind Hw as q _. step_bind Hw as l _.
    step_bind Hw as [[l' q'] sch] _. step_bind Hw as n1 Hn1%set_credit_link_keeps.
    etransitivity; [exact Hn1|by eapply set_creditQueue_keeps].
  - by eapply set_in_link_keeps.
  - by eapply set_credit_link_keeps.
  - by eapply set_outBuffer_keeps.
  - by eapply set_creditQueue_keeps.
Qed.

Lemma reachable_keeps cs n n' : rtc (step cs) n n' → Forall2 node_keeps n n'.
Proof.
  induction 1 as [|n n1 n2 Hs%step_keeps _ IH]; [done|]. by etransitivity.
Qed.

(** The channel state at the sender of channel [c]. *)
Definition out_vc (n : net) (c : chan) (v : Z) : option OutVcState.t :=
  zlookup n (ch_src c) ≫= λ d,
  zlookup (Router.m_output_unit (nd_router d)) (ch_out c) ≫= λ u,
  zlookup (OutputUnit.outVcState u) v.

Lemma out_vc_keeps n n' c v o' :
  Forall2 node_keeps n n' → out_vc n' c v = Some o' →
  ∃ o, out_vc n c v = Some o ∧ vc_keeps o o'.
Proof.
  unfold out_vc. intros Hk (d' & Hd' & (u' & Hu' & Ho')%bind_Some)%bind_Some.
  destruct (Forall2_zlookup_r _ _ _ _ _ Hk Hd') as (d & Hd & Hdk).
  destruct (Forall2_zlookup_r _ _ _ _ _ Hdk Hu') as (u & Hu & Huk).
  destruct (Forall2_zlookup_r _ _ _ _ _ Huk Ho') as (o & Ho & Hok).
  exists o. rewrite Hd. cbn. by rewrite Hu.
Qed.

(** ** Networks that have not run *)

Definition empty_buffer (b : FlitBuffer.t) : Prop := FlitBuffer.m_buffer b = [].

Definition fresh_in (u : InputUnit.t) : Prop :=
  Forall (λ c, c = VirtualChannel.make) (InputUnit.virtualChannels u) ∧
  empty_buffer (InputUnit.creditQueue u).

Definition fresh_out_vc (o : OutVcState.t) : Prop :=
  OutVcState.wf o ∧ OutVcState.m_vc_state o = IDLE_ ∧
  OutVcState.m_credit_count o = OutVcState.m_max_credit_count o.

Definition fresh_out (u : OutputUnit.t) : Prop :=
  empty_buffer (OutputUnit.outBuffer u) ∧
  Forall fresh_out_vc (OutputUnit.outVcState u).

Definition fresh_router (r : Router.t) : Prop :=
  Forall fresh_in (Router.m_input_unit r) ∧ Forall fresh_out (Router.m_output_unit r) ∧
  Forall empty_buffer (CrossbarSwitch.switchBuffers (Router.crossbarSwitch r)) ∧
  Forall (λ q, q = -1) (SwitchAllocator.m_port_requests (Router.switchAllocator r)).

Definition fresh_node (d : node) : Prop :=
  fresh_router (nd_router d) ∧
  Forall (λ l, empty_buffer (NetworkLink.linkBuffer l)) (nd_in d) ∧
  Forall (λ l, empty_buffer (NetworkLink.linkBuffer l)) (nd_credit d).

(** The constructors and the wiring of routers produce fresh ones. *)
Lemma make_fresh id lat vns vcs w clk : fresh_router (Router.make id lat vns vcs w clk).
Proof. by split_and!; constructor. Qed.

Lemma addInPort_fresh r dir l cl r' l' cl' :
  fresh_router r → Router.addInPort r dir l cl = Ok (r', l', cl') → fresh_router r'.
Proof.
  intros (Hi & Ho & Hx & Hq) Ha. unfold Router.addInPort in Ha. step_bind Ha as [] _.
  injection Ha as <- <- <-. split_and!; try done. cbn. apply Forall_app. split; [done|].
  repeat constructor. apply Forall_replicate. done.
Qed.

Lemma make_vcs_fresh c k i n os :
  OutputUnit.make_vcs c k i n = Ok os → Forall fresh_out_vc os.
Proof.
  revert i os. induction n as [|n IH]; intros i os; cbn; [by intros [= <-]|].
  intros Hm. step_bind Hm as o Ho%OutVcState.make_out_vc. step_bind Hm as os' Hos'.
  injection Hm as <-. constructor; [unfold fresh_out_vc; naive_solver|by eapply IH].
Qed.

Lemma addOutPort_fresh c r dir l tbl w cl k r' l' cl' :
  fresh_router r → Router.addOutPort c r dir l tbl w cl k = Ok (r', l', cl') →
  fresh_router r'.
Proof.
  intros (Hi & Ho & Hx & Hq) Ha. unfold Router.addOutPort in Ha. step_bind Ha as [] _.
  step_bind Ha as u Hu. step_bind Ha as ru _. injection Ha as <- <- <-.
  split_and!; try done. cbn. apply Forall_app. split; [done|].
  unfold OutputUnit.make in Hu. step_bind Hu as os Hos%make_vcs_fresh.
  injection Hu as <-. by repeat constructor.
Qed.

Lemma init_fresh r : fresh_router r → fresh_router (Router.init r).
Proof.
  intros (Hi & Ho & Hx & Hq). split_and!; try done; cbn.
  - unfold vresize. by apply Forall_resize.
  - by apply Forall_replicate.
Qed.

Lemma at_zero {A} (f : A → Z) l i : Forall (λ a, f a = 0) l → at_ f l i = 0.
Proof.
  intros Hl. unfold at_. destruct (zlookup l i) eqn:E; [|done].
  by apply (Forall_zlookup _ _ _ _ Hl E).
Qed.

Lemma sum_over_zero {A} (f : A → Z) l : Forall (λ a, f a = 0) l → sum_over f l = 0.
Proof. unfold sum_over. induction 1 as [|a l Ha _ IH]; simpl; lia. Qed.

Lemma nvc_zero v b : empty_buffer b → nvc v b = 0.
Proof. unfold empty_buffer, nvc. by intros ->. Qed.

Lemma fresh_node_in i v d : fresh_node d → node_in i v d = 0.
Proof.
  intros ((Hi & _) & Hl & _). unfold node_in. rewrite in_slots_eq, !at_zero; [done|..].
  - eapply Forall_impl; [exact Hl|]. intros l. apply nvc_zero.
  - eapply Forall_impl; [exact Hi|]. intros u [Hc Hq]. unfold unit_in_slots, unit_creditq.
    rewrite nvc_zero by done. unfold unit_buffered. rewrite at_zero; [done|].
    eapply Forall_impl; [exact Hc|]. cbn. by intros c ->.
Qed.

Lemma fresh_node_out o v d u s :
  fresh_node d → zlookup (Router.m_output_unit (nd_router d)) o = Some u →
  zlookup (OutputUnit.outVcState u) v = Some s →
  node_out o v d = OutVcState.m_max_credit_count s ∧ OutVcState.wf s.
Proof.
  intros ((_ & Ho & Hx & _) & _ & Hl) Hu Hs. unfold node_out.
  rewrite out_slots_eq, (at_lookup _ _ _ _ Hu). unfold switched, unit_out_slots, unit_credits.
  rewrite (at_lookup _ _ _ _ Hs).
  destruct (Forall_zlookup _ _ _ _ Ho Hu) as [Hq Hc].
  destruct (Forall_zlookup _ _ _ _ Hc Hs) as (Hw & _ & ->). split; [|done].
  unfold unit_outq. rewrite nvc_zero, sum_over_zero, at_zero; [lia|..|done].
  - eapply Forall_impl; [exact Hl|]. intros l. apply nvc_zero.
  - eapply Forall_impl; [exact Hx|]. unfold for_port, empty_buffer. by intros b ->.
Qed.

Lemma fresh_chan_slots n c v s :
  Forall fresh_node n → out_vc n c v = Some s →
  chan_slots n c v = OutVcState.m_max_credit_count s ∧ OutVcState.wf s.
Proof.
  unfold out_vc, chan_slots. intros Hn (d & Hd & (u & Hu & Hs)%bind_Some)%bind_Some.
  pose proof (Forall_zlookup _ _ _ _ Hn Hd) as Hf.
  destruct (fresh_node_out _ _ _ _ _ Hf Hu Hs) as [He Hw].
  rewrite (at_lookup _ _ _ _ Hd), He, at_zero; [split; [lia|done]|].
  eapply Forall_impl; [exact Hn|]. intros. by apply fresh_node_in.
Qed.

(** ** The protocol *)

(** Flits of channel [v] of [c] between the two routers' buffers, flits in the
    receiver's buffer, and credits on their way back. *)
Definition in_flight (n : net) (c : chan) (v : Z) : Z :=
  at_ (λ d, switched (nd_router d) (ch_out c) v + outq (nd_router d) (ch_out c) v)
    n (ch_src c) +
  at_ (λ d, at_ (link_nvc v) (nd_in d) (ch_in c)) n (ch_dst c).

Definition occupancy (n : net) (c : chan) (v : Z) : Z :=
  at_ (λ d, buffered (nd_router d) (ch_in c) v) n (ch_dst c).

Definition returning (n : net) (c : chan) (v : Z) : Z :=
  at_ (λ d, creditq (nd_router d) (ch_in c) v) n (ch_dst c) +
  at_ (λ d, at_ (link_nvc v) (nd_credit d) (ch_out c)) n (ch_src c).

Lemma chan_slots_split n c v s :
  out_vc n c v = Some s →
  chan_slots n c v = OutVcState.m_credit_count s + in_flight n c v +
                     occupancy n c v + returning n c v.
Proof.
  unfold out_vc, chan_slots, in_flight, occupancy, returning.
  intros (d & Hd & (u & Hu & Hs)%bind_Some)%bind_Some.
  rewrite !(at_lookup _ _ _ _ Hd). unfold node_out, out_slots, credits.
  rewrite (at_lookup _ _ _ _ Hu). unfold unit_credits. rewrite (at_lookup _ _ _ _ Hs).
  change (λ l, nvc v (NetworkLink.linkBuffer l)) with (link_nvc v).
  destruct (zlookup n (ch_dst c)) as [d'|] eqn:E.
  - rewrite !(at_lookup _ _ _ _ E). unfold node_in, in_slots.
    change (λ l, nvc v (NetworkLink.linkBuffer l)) with (link_nvc v). lia.
  - rewrite !(at_none _ _ _ E). lia.
Qed.

Lemma at_nonneg {A} (f : A → Z) l i : (∀ a, 0 ≤ f a) → 0 ≤ at_ f l i.
Proof. unfold at_. intros Hf. destruct (zlookup l i); [apply Hf|lia]. Qed.

Lemma pieces_nonneg n c v :
  0 ≤ in_flight n c v ∧ 0 ≤ occupancy n c v ∧ 0 ≤ returning n c v.
Proof.
  unfold in_flight, occupancy, returning, switched, outq, buffered, creditq,
    unit_outq, unit_buffered, unit_creditq, link_nvc.
  split_and!; repeat (apply Z.add_nonneg_nonneg || apply at_nonneg || intros);
    auto using sum_over_nonneg, for_port_nonneg, zlen_nonneg, nvc_nonneg, at_nonneg.
Qed.

(** Along every run of the network, from a network that has not run. *)
Lemma reachable_sum cs n0 n c v s :
  wired cs → Forall fresh_node n0 → rtc (step cs) n0 n → c ∈ cs → out_vc n c v = Some s →
  OutVcState.m_credit_count s + in_flight n c v + occupancy n c v + returning n c v =
    OutVcState.m_max_credit_count s ∧ OutVcState.wf s.
Proof.
  intros Hcs Hf Hr Hc Hs. rewrite <- (chan_slots_split n c v s Hs).
  rewrite (reachable_chan_slots cs n0 n c v Hcs Hr Hc).
  destruct (out_vc_keeps _ _ _ _ _ (reachable_keeps _ _ _ Hr) Hs) as (s0 & Hs0 & Hmax & Hwf).
  destruct (fresh_chan_slots _ _ _ _ Hf Hs0) as [-> Hw0]. split; [done|by apply Hwf].
Qed.

(** C1: flow control is exact and buffers do not overflow.  In every state the
    network reaches by waking routers and links in any order, for every channel
    and virtual channel, the sender's credit count, the flits under way, the
    flits buffered at the receiver and the credits under way add up to the size
    of the receiver's buffer; so the receiver never buffers more flits than
    that, although nothing in the code checks it. *)
Theorem credit_conservation cs n0 n c v s :
  wired cs → Forall fresh_node n0 → rtc (step cs) n0 n → c ∈ cs → out_vc n c v = Some s →
  OutVcState.m_credit_count s + in_flight n c v + occupancy n c v + returning n c v =
    OutVcState.m_max_credit_count s ∧
  0 ≤ occupancy n c v ≤ OutVcState.m_max_credit_count s.
Proof.
  intros Hcs Hf Hr Hc Hs. destruct (reachable_sum _ _ _ _ _ _ Hcs Hf Hr Hc Hs) as [He Hw].
  pose proof (pieces_nonneg n c v). destruct Hw. lia.
Qed.

(** The assertion in [OutVcState::increment_credit] cannot fail.  Whenever
    a credit for an existing virtual channel is at the head of the credit link
    of a channel, the sender can take it. *)
Theorem credit_return_succeeds cs n0 n c v s d l f q :
  wired cs → Forall fresh_node n0 → rtc (step cs) n0 n → c ∈ cs → out_vc n c v = Some s →
  zlookup n (ch_src c) = Some d → zlookup (nd_credit d) (ch_out c) = Some l →
  FlitBuffer.getTopFlit (NetworkLink.linkBuffer l) = Ok (f, q) → flit_m_vc f = v →
  ∃ s', OutVcState.increment_credit s = Ok s' ∧
        OutVcState.m_credit_count s' = OutVcState.m_credit_count s + 1.
Proof.
  intros Hcs Hf Hr Hc Hs Hd Hl Hq Hv.
  destruct (reachable_sum _ _ _ _ _ _ Hcs Hf Hr Hc Hs) as [He [Hw _]].
  destruct (pieces_nonneg n c v) as (H1 & H2 & _).
  assert (1 ≤ returning n c v) as H3.
  { unfold returning. rewrite (at_lookup _ _ _ _ Hd), (at_lookup _ _ _ _ Hl).
    unfold link_nvc. rewrite (nvc_getTopFlit v _ _ _ Hq), bool_decide_eq_true_2 by done.
    assert (0 ≤ at_ (λ d, creditq (nd_router d) (ch_in c) v) n (ch_dst c)).
    { apply at_nonneg. intros. apply at_nonneg. intros. apply nvc_nonneg. }
    pose proof (nvc_nonneg v q). cbn [one_if]. lia. }
  unfold OutVcState.increment_credit.
  destruct (Z.leb_spec (OutVcState.m_credit_count s + 1) (OutVcState.m_max_credit_count s));
    [|lia]. by eexists.
Qed.

End credit_protocol.

(** ** Two routers in a row

    Router 0 and router 1, one virtual channel of four slots, joined by a
    channel from output port 0 of router 0 to input port 0 of router 1; a flit
    for router 1 waits on the injection link of router 0. *)

Module TwoRouters.
Import ExampleMachines.
#[local] Existing Instance machines.
#[local] Open Scope string_scope.

Definition config : NetConfig := mkNetConfig 1 2 1 4 4 [DATA_VNET_] [false].

Definition clock : Clocked.t := Clocked.make 1000.

Definition env (t : Tick) : Env := mkEnv config t (λ _, 0) (RouteInfo0 []).

Definition link : NetworkLink.t := NetworkLink.make 0 1 1 [] 16 clock.

Definition the_flit : flit :=
  new_flit 0 0 0 0 (mkRoute 0 (dest 1 1) 0 0 1 1 0 false 0 0 0) 1 None 16 16 1000.

(** One input and one output port on each router. *)
Definition router (id : Z) (in_dirn out_dirn : PortDirection)
    : result (Router.t * NetworkLink.t * NetworkLink.t) :=
  let r := Router.make id 1 1 1 16 clock in
  '(r, in_link, _) ← Router.addInPort r in_dirn link link;
  '(r, _, credit_link) ←
    Router.addOutPort config r out_dirn link [dest 1 1] 1 link 1;
  Ok (Router.init r, in_link, credit_link).

Definition build : result net :=
  '(r0, i0, c0) ← router 0 "Local" "East";
  '(r1, i1, c1) ← router 1 "West" "Local";
  Ok [mkNode r0 [i0] [c0]; mkNode r1 [i1] [c1]].

Definition start : net := match build with Ok n => n | Err _ => [] end.

Definition the_chan : chan := mkChan 0 0 1 0.

(** The interface puts the flit on the injection link; router 0 sends it, the
    link carries it, router 1 takes it, forwards it and returns the credit. *)
Definition run (evs : list (Tick * event)) (n : result net) : result net :=
  foldl (λ acc '(t, ev), n ← acc; wake (env t) ev n) n evs.

Definition injected : result net :=
  l ← get_in_link 0 0 start;
  set_in_link 0 0 (NetworkLink.with_buffer l
    (FlitBuffer.insert (NetworkLink.linkBuffer l) the_flit)) start.

Definition events : list (Tick * event) :=
  [(1000, WakeRouter 0); (2000, WakeLink the_chan); (3000, WakeRouter 1);
   (4000, WakeCreditLink the_chan)].

Definition finish : result net := run events injected.

Definition get (n : result net) : net := match n with Ok n => n | Err _ => [] end.

Lemma injected_step : step [the_chan] start (get injected).
Proof.
  eapply (step_ni_in _ 0 0); [|vm_compute; reflexivity].
  intros c Hc. apply list_elem_of_singleton in Hc as ->. done.
Qed.

Lemma run_reachable evs n n' :
  (∀ t ev c, (t, ev) ∈ evs → ev = WakeLink c ∨ ev = WakeCreditLink c → c = the_chan) →
  run evs (Ok n) = Ok n' → rtc (step [the_chan]) n n'.
Proof.
  revert n. induction evs as [|[t ev] evs IH]; intros n Hev Hrun; cbn in Hrun.
  - by injection Hrun as ->.
  - destruct (wake (env t) ev n) as [n1|err] eqn:E.
    + eapply rtc_l; [|apply IH; [|exact Hrun]; intros; eapply Hev; [by right|done]].
      destruct ev; [by eapply step_router|eapply step_link|eapply step_credit_link];
        try exact E; apply list_elem_of_singleton; eapply Hev; [by left|auto|by left|auto].
    + exfalso. clear -Hrun. induction evs as [|[]]; cbn in *; [done|auto].
Qed.

Lemma finish_reachable : rtc (step [the_chan]) start (get finish).
Proof.
  eapply rtc_l; [exact injected_step|].
  apply (run_reachable events); [|vm_compute; reflexivity].
  intros t ev c Hin Hc. unfold events in Hin.
  repeat (apply elem_of_cons in Hin as [[= -> ->]|Hin]; [by destruct Hc as [[=]|[=]]|]).
  by apply not_elem_of_nil in Hin.
Qed.

Lemma start_fresh : Forall fresh_node start.
Proof. repeat (constructor || split); vm_compute; try done; lia. Qed.

Lemma chan_wired : wired [the_chan].
Proof. split; apply NoDup_singleton. Qed.

Lemma credit_conservation_witness :
  ∃ s, out_vc (get finish) the_chan 0 = Some s ∧
       OutVcState.m_credit_count s = 3 ∧ returning (get finish) the_chan 0 = 1 ∧
       OutVcState.m_credit_count s + in_flight (get finish) the_chan 0 +
         occupancy (get finish) the_chan 0 + returning (get finish) the_chan 0 = 4.
Proof.
  destruct (out_vc (get finish) the_chan 0) as [s|] eqn:E; [|vm_compute in E; discriminate].
  pose proof (credit_conservation [the_chan] start (get finish) the_chan 0 s
    chan_wired start_fresh finish_reachable (list_elem_of_here _ _) E) as [He _].
  exists s. vm_compute in E. injection E as <-. split; [reflexivity|].
  split; [reflexivity|]. split; [vm_compute; reflexivity|exact He].
Defined.

Lemma credit_return_succeeds_witness :
  ∃ s s', out_vc (get finish) the_chan 0 = Some s ∧
          OutVcState.increment_credit s = Ok s' ∧
          OutVcState.m_credit_count s' = OutVcState.m_credit_count s + 1.
Proof.
  destruct (out_vc (get finish) the_chan 0) as [s|] eqn:E; [|vm_compute in E; discriminate].
  destruct (credit_return_succeeds [the_chan] start (get finish) the_chan 0 s
    (default (mkNode (Router.make 0 0 0 0 0 clock) [] []) (zlookup (get finish) 0))
    (default link (zlookup (get finish) 0 ≫= λ d, zlookup (nd_credit d) 0))
    (set_time (new_Credit (RouteInfo0 []) 0 true 3000) 5000) FlitBuffer.empty
    chan_wired start_fresh finish_reachable (list_elem_of_here _ _) E) as (s' & H1 & H2);
    [vm_compute; reflexivity..|].
  exists s, s'. split; [reflexivity|]. split; [exact H1|exact H2].
Defined.

End TwoRouters.
