(* ===== verification/Allocation.v ===== *)
(** * Switch allocation

    What [SwitchAllocator::wakeup] achieves in a cycle: the requests of the
    first phase are of flits that may be sent, the grants of the second are a
    matching of input and output ports drawn from the requests, and the
    round-robin pointer of an output port starves no input port. *)

From S2P Require Import Prelude.
From S2P Require Import IntMath.
From S2P Require Import NetDest.
From S2P Require Import Flit.
From S2P Require Import VirtualChannels.
From S2P Require Import Routing.
From S2P Require Import Clocking.
From S2P Require Import Links.
From S2P Require Import Pipeline.
From S2P Require Import FlowControl.
From S2P Require Import CreditProtocol.

(** ** Round-robin order *)

(** How far input port [i] is from the pointer [rr] among [n] ports. *)
Definition dist (n rr i : Z) : Z := (i - rr) mod n.

Lemma dist_range n rr i : 0 < n → 0 ≤ dist n rr i < n.
Proof. intros. by apply Z.mod_pos_bound. Qed.

Lemma dist_eq n rr i :
  0 ≤ rr < n → 0 ≤ i < n → dist n rr i = if rr <=? i then i - rr else i - rr + n.
Proof.
  intros Hr Hi. unfold dist. destruct (Z.leb_spec rr i).
  - apply Z.mod_small. lia.
  - rewrite <- (Z.mod_add (i - rr) 1), Z.mul_1_l by lia. apply Z.mod_small. lia.
Qed.

Lemma dist_zero n rr i : 0 ≤ rr < n → 0 ≤ i < n → dist n rr i = 0 ↔ i = rr.
Proof. intros Hr Hi. rewrite dist_eq by done. zcases. Qed.

Lemma rr_next_range n i : 0 ≤ i < n → 0 ≤ SwitchAllocator.rr_next n i < n.
Proof. unfold SwitchAllocator.rr_next. zcases; lia. Qed.

(** One step along the order brings every other port one closer. *)
Lemma dist_rr_next n rr i :
  0 ≤ rr < n → 0 ≤ i < n → i ≠ rr →
  dist n (SwitchAllocator.rr_next n rr) i = dist n rr i - 1.
Proof.
  intros Hr Hi Hne. rewrite !dist_eq by (done || by apply rr_next_range).
  unfold SwitchAllocator.rr_next. zcases.
Qed.

(** Moving the pointer behind the winner: what was at or behind the pointer but
    before the winner comes last. *)
Lemma dist_after_winner n rr w i :
  0 ≤ rr < n → 0 ≤ w < n → 0 ≤ i < n → dist n rr w < dist n rr i →
  dist n (SwitchAllocator.rr_next n w) i = dist n rr i - dist n rr w - 1.
Proof.
  intros Hr Hw Hi. rewrite !dist_eq by (done || by apply rr_next_range).
  unfold SwitchAllocator.rr_next. zcases.
Qed.

(** ** The arbiter of an output port *)

Section pick.
  Variables (reqs : list Z) (n outport : Z).
  Hypothesis Hlen : zlen reqs = n.

Lemma pick_inport_from rr k m :
  0 ≤ rr < n → m + Z.of_nat k = n → 0 ≤ m →
  (∀ j, 0 ≤ j < n → dist n rr j < m → zlookup reqs j ≠ Some outport) →
  ∀ cur, 0 ≤ cur < n → (m < n → dist n rr cur = m) →
  ∃ w, Router.pick_inport reqs n outport cur k = Ok w ∧
    match w with
    | Some w => 0 ≤ w < n ∧ zlookup reqs w = Some outport ∧
                ∀ j, 0 ≤ j < n → zlookup reqs j = Some outport → dist n rr w ≤ dist n rr j
    | None => ∀ j, 0 ≤ j < n → zlookup reqs j ≠ Some outport
    end.
Proof.
  revert m. induction k as [|k IH]; intros m Hrr Hm Hm0 Hno cur Hcur Hd; cbn [Router.pick_inport].
  - exists None. split; [done|]. intros j Hj. apply Hno; [done|].
    pose proof (dist_range n rr j). lia.
  - destruct (vget_total reqs cur) as [q Hq]; [lia|]. rewrite Hq. cbn [rbind].
    apply vget_Ok in Hq. specialize (Hd ltac:(lia)).
    assert (∀ j, 0 ≤ j < n → dist n rr j ≤ m → zlookup reqs j = Some outport → j = cur) as Hcl.
    { intros j Hj Hle Hq'. destruct (decide (dist n rr j = m)) as [He|]; [|].
      - revert He. rewrite <- Hd, !dist_eq by lia. zcases.
      - exfalso. apply (Hno j); [done|lia|done]. }
    destruct (Z.eqb_spec q outport) as [->|Hne].
    + exists (Some cur). split_and!; [done|lia|lia|done|]. intros j Hj Hq'.
      destruct (Z.le_gt_cases m (dist n rr j)); [lia|]. by destruct (Hno j).
    + apply (IH (m + 1)); [done|lia|lia| |by apply rr_next_range|].
      * intros j Hj Hlt Hq'. assert (j = cur) as -> by (apply Hcl; [done|lia|done]). congruence.
      * intros Hlt. revert Hd. rewrite !dist_eq by (done || by apply rr_next_range).
        unfold SwitchAllocator.rr_next. zcases.
Qed.

(** SA-II grants an output port exactly when it is requested, to the requester
    that comes first in round-robin order. *)
Lemma pick_inport_spec rr :
  0 ≤ rr < n →
  ∃ w, Router.pick_inport reqs n outport rr (Z.to_nat n) = Ok w ∧
    match w with
    | Some w => 0 ≤ w < n ∧ zlookup reqs w = Some outport ∧
                ∀ j, 0 ≤ j < n → zlookup reqs j = Some outport → dist n rr w ≤ dist n rr j
    | None => ∀ j, 0 ≤ j < n → zlookup reqs j ≠ Some outport
    end.
Proof.
  intros Hrr. apply (pick_inport_from rr _ 0); [done|lia|lia| |done|].
  - intros j _. pose proof (dist_range n rr j). lia.
  - intros _. by apply dist_zero.
Qed.

End pick.

(** ** One allocation cycle *)

Section cycle.
  Context `{MachineTypes}.
  Implicit Types (r : Router.t) (s : SwitchAllocator.t).
  Import SwitchAllocator.

(** The vectors have one entry per port and the pointers are ports. *)
Definition sa_wf s : Prop :=
  zlen (m_port_requests s) = m_num_inports s ∧
  zlen (m_vc_winners s) = m_num_inports s ∧
  zlen (m_round_robin_invc s) = m_num_inports s ∧
  zlen (m_round_robin_inport s) = m_num_outports s ∧
  Forall (λ rr, 0 ≤ rr < m_num_inports s) (m_round_robin_inport s).

(** No request is pending. *)
Definition sa_idle s : Prop := Forall (λ q, q = -1) (m_port_requests s).

Lemma init_sa_wf s ins outs :
  0 < ins → 0 ≤ outs → sa_wf (init s ins outs) ∧ sa_idle (init s ins outs).
Proof.
  intros Hi Ho. unfold sa_wf, sa_idle, zlen. cbn. rewrite !length_replicate.
  split_and!; try lia; apply Forall_replicate; lia.
Qed.

(** Channel [invc] of input port [i] has a flit for [outport] at its head that
    is in the switch-allocation stage and may be sent. *)
Definition request_ok (e : Env) r (i invc outport : Z) : Prop :=
  ∃ u outvc, Router.getInputUnit r i = Ok u ∧
    InputUnit.need_stage u invc SA_ (curTick e) = Ok true ∧
    InputUnit.get_outport u invc = Ok outport ∧
    InputUnit.get_outvc u invc = Ok outvc ∧
    Router.send_allowed e r i invc outport outvc = Ok true.

(** The static part of an allocator. *)
Definition same_shape s s' : Prop :=
  m_num_inports s' = m_num_inports s ∧ m_num_outports s' = m_num_outports s ∧
  m_num_vcs s' = m_num_vcs s ∧ m_vc_per_vnet s' = m_vc_per_vnet s.

Lemma pick_invc_sound e r i c n o w :
  Router.pick_invc e r i c n = Ok (Some (o, w)) → request_ok e r i w o.
Proof.
  revert c. induction n as [|n IH]; intros c; [done|]. cbn [Router.pick_invc]. intros Hp.
  step_bind Hp as u Hu. step_bind Hp as b Hb. step_bind Hp as req Hreq.
  destruct req as [[o' w']|]; [|by eapply IH]. injection Hp as -> ->.
  destruct b; [|done]. step_bind Hreq as o1 Ho. step_bind Hreq as oc Hoc.
  step_bind Hreq as ok Hok. destruct ok; [|done]. injection Hreq as -> ->.
  by exists u, oc.
Qed.

(** What SA-I leaves of a router: its units, and the requests. *)
Definition requested (e : Env) r r' : Prop :=
  ∃ s', r' = Router.with_sa r s' ∧ same_shape (Router.switchAllocator r) s' ∧
    (sa_wf (Router.switchAllocator r) → sa_wf s') ∧
    (∀ i o, zlookup (m_port_requests s') i = Some o →
       zlookup (m_port_requests (Router.switchAllocator r)) i = Some o ∨
       ∃ w, zlookup (m_vc_winners s') i = Some w ∧ request_ok e r i w o).

Lemma requested_refl e r : requested e r r.
Proof.
  exists (Router.switchAllocator r). split_and!; [by destruct r|done|done|by left].
Qed.

Lemma arbitrate_inport_requested e r i t t' :
  requested e r t → Router.arbitrate_inport e i t = Ok t' → requested e r t'.
Proof.
  intros (s1 & -> & Hsh & Hwf & Hr) Ha. unfold Router.arbitrate_inport in Ha.
  step_bind Ha as c _. step_bind Ha as w Hw. destruct w as [[o w]|];
    [|injection Ha as <-; by exists s1].
  step_bind Ha as reqs Hreqs. step_bind Ha as wins Hwins. injection Ha as <-.
  assert (request_ok e r i w o) as Hok.
  { apply pick_invc_sound in Hw as (u & oc & H1 & H2 & H3 & H4 & H5). exists u, oc.
    split_and!; [done..|]. destruct Hsh as (_ & _ & _ & Hv).
    revert H5. unfold Router.send_allowed, Router.get_vnet. cbn. by rewrite Hv. }
  apply vset_Ok in Hreqs as [Hi ->]. apply vset_Ok in Hwins as [Hi' ->]. cbn in *.
  eexists. split; [reflexivity|]. split; [done|]. split.
  - intros H0. destruct (Hwf H0) as (? & ? & ? & ? & ?). split_and!; cbn;
      rewrite ?zlen_insert; done.
  - intros j q. cbn. rewrite !zlookup_insert by done. case_decide; [|by apply Hr].
    intros [= <-]. subst j. right. by exists w.
Qed.

Lemma arbitrate_inports_requested e r r' :
  Router.arbitrate_inports e r = Ok r' → requested e r r'.
Proof.
  apply (for_range_inv (λ _, requested e r)); [|apply requested_refl].
  intros i t t' _. apply arbitrate_inport_requested.
Qed.

(** SA-I leaves the pointers of the output ports alone. *)
Lemma arbitrate_inports_pointers e r r' :
  Router.arbitrate_inports e r = Ok r' →
  m_round_robin_inport (Router.switchAllocator r') =
    m_round_robin_inport (Router.switchAllocator r).
Proof.
  apply (for_range_inv (λ _ t, m_round_robin_inport (Router.switchAllocator t) =
    m_round_robin_inport (Router.switchAllocator r))); [|done].
  intros i t t' _ Ht Ha. rewrite <- Ht. unfold Router.arbitrate_inport in Ha.
  step_bind Ha as c _. step_bind Ha as w _. destruct w as [[o w]|]; [|by injection Ha as <-].
  step_bind Ha as reqs _. step_bind Ha as wins _. by injection Ha as <-.
Qed.

(** The flits in the switch buffer of input port [i]. *)
Definition switch_len r (i : Z) : Z :=
  at_ FlitBuffer.getSize (CrossbarSwitch.switchBuffers (Router.crossbarSwitch r)) i.

(** The effect of a grant on the crossbar and on the allocator. *)
Lemma grant_effect e r o i r' :
  Router.grant e r o i = Ok r' →
  let s := Router.switchAllocator r in let s' := Router.switchAllocator r' in
  (∀ j, switch_len r' j = switch_len r j + if decide (j = i) then 1 else 0) ∧
  same_shape s s' ∧ m_vc_winners s' = m_vc_winners s ∧
  vset (m_port_requests s) i (-1) = Ok (m_port_requests s') ∧
  vset (m_round_robin_inport s) o (rr_next (m_num_inports s) i) =
    Ok (m_round_robin_inport s') ∧
  zlen (m_round_robin_invc s') = zlen (m_round_robin_invc s).
Proof.
  unfold Router.grant. intros Hw. step_bind Hw as iu0 _. step_bind Hw as c _.
  step_bind Hw as oc0 _. step_bind Hw as [oc r1] Hr1. step_bind Hw as iu _.
  step_bind Hw as [f iu1] _. step_bind Hw as ou _. step_bind Hw as ou1 _.
  step_bind Hw as r2 Hr2. step_bind Hw as r3 Hr3. step_bind Hw as iu2 _.
  step_bind Hw as r4 Hr4. step_bind Hw as reqs Hreqs. step_bind Hw as rri Hrri.
  step_bind Hw as rrv Hrrv. injection Hw as <-.
  assert (Router.crossbarSwitch r1 = Router.crossbarSwitch r ∧
          Router.switchAllocator r1 = Router.switchAllocator r) as [Hx1 Hs1].
  { case_in Hr1; [|by injection Hr1 as <- <-]. unfold Router.vc_allocate in Hr1.
    step_bind Hr1 as vn _. step_bind Hr1 as ou' _. step_bind Hr1 as [oc1 ou2] _.
    step_bind Hr1 as ra Ha. step_bind Hr1 as [] _. step_bind Hr1 as iu' _.
    step_bind Hr1 as iu3 _. step_bind Hr1 as rb Hb. injection Hr1 as <- <-.
    apply setOutputUnit_Ok in Ha as (_ & _ & Ha & Ha').
    apply setInputUnit_Ok in Hb as (_ & _ & Hb & Hb'). split; congruence. }
  apply setOutputUnit_Ok in Hr2 as (_ & _ & Hx2 & Hs2).
  apply setInputUnit_Ok in Hr4 as (_ & _ & Hx4 & Hs4). cbn in Hx4, Hs4.
  unfold Router.grant_switch, CrossbarSwitch.update_sw_winner in Hr3.
  step_bind Hr3 as x Hx. injection Hr3 as <-. step_bind Hx as bs Hbs. injection Hx as <-.
  cbn in Hx4, Hs4. rewrite Hs4, Hs2, Hs1 in *. cbn.
  split_and!; try done.
  - intros j. unfold switch_len. cbn [Router.crossbarSwitch Router.with_sa].
    rewrite Hx4, <- Hx1, <- Hx2. cbn [CrossbarSwitch.switchBuffers].
    eapply at_vupd; [exact Hbs|]. intros b b' [= <-]. unfold FlitBuffer.getSize.
    cbn. by rewrite zlen_app.
  - apply vset_Ok in Hrrv as [_ ->]. apply zlen_insert.
Qed.

(** The grants [gs] (input port, output port) given to the output ports below
    [k] out of the requests [reqs]: a matching that leaves no requested output
    port unused. *)
Definition matching (reqs : list Z) (k : Z) (gs : list (Z * Z)) : Prop :=
  NoDup gs.*1 ∧ NoDup gs.*2 ∧
  (∀ i o, (i, o) ∈ gs → 0 ≤ o < k ∧ zlookup reqs i = Some o) ∧
  (∀ i o, 0 ≤ o < k → zlookup reqs i = Some o → o ∈ gs.*2).

(** What SA-II has done to [r] when the grants are [gs]. *)
Definition granted r (gs : list (Z * Z)) r' : Prop :=
  let s := Router.switchAllocator r in let s' := Router.switchAllocator r' in
  same_shape s s' ∧ m_vc_winners s' = m_vc_winners s ∧ sa_wf s' ∧
  (∀ i, zlookup (m_port_requests s') i =
          if decide (i ∈ gs.*1) then Some (-1) else zlookup (m_port_requests s) i) ∧
  (∀ i, switch_len r' i = switch_len r i + if decide (i ∈ gs.*1) then 1 else 0) ∧
  (** The pointer of an output port moves behind the port it was granted to, the first
      of its requesters from where it stood, and otherwise stays. *)
  ∀ o rr, zlookup (m_round_robin_inport s) o = Some rr →
    (o ∉ gs.*2 → zlookup (m_round_robin_inport s') o = Some rr) ∧
    ∀ i, (i, o) ∈ gs →
      zlookup (m_round_robin_inport s') o = Some (rr_next (m_num_inports s) i) ∧
      ∀ j, zlookup (m_port_requests s) j = Some o →
        dist (m_num_inports s) rr i ≤ dist (m_num_inports s) rr j.

Lemma matching_skip reqs k gs :
  matching reqs k gs → (∀ i, zlookup reqs i ≠ Some k) → matching reqs (k + 1) gs.
Proof.
  intros (H1 & H2 & H3 & H4) Hno. split_and!; [done|done| |].
  - intros i o Hin. destruct (H3 i o Hin). split; [lia|done].
  - intros i o Ho Hi. destruct (decide (o = k)) as [->|]; [by destruct (Hno i)|].
    apply (H4 i); [lia|done].
Qed.

Lemma matching_grant reqs k gs i :
  matching reqs k gs → 0 ≤ k → zlookup reqs i = Some k → i ∉ gs.*1 →
  matching reqs (k + 1) (gs ++ [(i, k)]).
Proof.
  intros (H1 & H2 & H3 & H4) Hk Hi Hni. unfold matching. rewrite !fmap_app. cbn.
  assert (k ∉ gs.*2) as Hnk.
  { intros ([i' o] & -> & Hin)%list_elem_of_fmap. destruct (H3 _ _ Hin). cbn in *. lia. }
  split_and!.
  - apply NoDup_app. split_and!; [done|set_solver|apply NoDup_singleton].
  - apply NoDup_app. split_and!; [done|set_solver|apply NoDup_singleton].
  - intros i' o [Hin|Hin%list_elem_of_singleton]%elem_of_app.
    + destruct (H3 _ _ Hin). split; [lia|done].
    + injection Hin as -> ->. split; [lia|done].
  - intros i' o Ho Hi'. apply elem_of_app. destruct (decide (o = k)) as [->|].
    + right. apply list_elem_of_singleton. done.
    + left. apply (H4 i'); [lia|done].
Qed.

(** The pointers after output port [k], the last so far, was granted to [i]. *)
Lemma pointers_grant (n k i rrk : Z) (reqs ptrs ptrs' : list Z) (gs : list (Z * Z)) :
  (∀ i' o, (i', o) ∈ gs → o < k) →
  zlookup ptrs' k = Some rrk → 0 ≤ k < zlen ptrs' →
  (∀ j, zlookup reqs j = Some k → dist n rrk i ≤ dist n rrk j) →
  (∀ o rr, zlookup ptrs o = Some rr →
     (o ∉ gs.*2 → zlookup ptrs' o = Some rr) ∧
     ∀ i, (i, o) ∈ gs → zlookup ptrs' o = Some (rr_next n i) ∧
       ∀ j, zlookup reqs j = Some o → dist n rr i ≤ dist n rr j) →
  ∀ o rr, zlookup ptrs o = Some rr →
    (o ∉ (gs ++ [(i, k)]).*2 → zlookup (<[Z.to_nat k := rr_next n i]> ptrs') o = Some rr) ∧
    ∀ i', (i', o) ∈ gs ++ [(i, k)] →
      zlookup (<[Z.to_nat k := rr_next n i]> ptrs') o = Some (rr_next n i') ∧
      ∀ j, zlookup reqs j = Some o → dist n rr i' ≤ dist n rr j.
Proof.
  intros Hlt Hk Hr Hmin Hp o rr Ho. destruct (Hp o rr Ho) as [Hkeep Hgs].
  rewrite fmap_app, zlookup_insert by done. cbn. split.
  - intros Hno. rewrite decide_False by set_solver. apply Hkeep. set_solver.
  - intros i' [Hin|Hin%list_elem_of_singleton]%elem_of_app.
    + apply Hlt in Hin as Hok. rewrite decide_False by lia. by apply Hgs.
    + injection Hin as -> ->. rewrite decide_True by done. split; [done|].
      assert (zlookup ptrs' k = Some rr) as E.
      { apply Hkeep. intros ([i1 o1] & -> & Hin)%list_elem_of_fmap. apply Hlt in Hin. cbn in *. lia. }
      rewrite Hk in E. by injection E as <-.
Qed.

Lemma arbitrate_outport_granted e r k gs t t' :
  0 ≤ k → matching (m_port_requests (Router.switchAllocator r)) k gs →
  granted r gs t → k < m_num_outports (Router.switchAllocator r) →
  Router.arbitrate_outport e k t = Ok t' →
  ∃ gs', matching (m_port_requests (Router.switchAllocator r)) (k + 1) gs' ∧
         granted r gs' t'.
Proof.
  intros Hk Hm (Hsh & Hwin & (Hl1 & Hl2 & Hl3 & Hl4 & Hrr) & Hreq & Hlen & Hptr) Hko Ha.
  unfold Router.arbitrate_outport in Ha. step_bind Ha as rr Hrr'%vget_Ok.
  step_bind Ha as w Hw. pose proof (Forall_zlookup _ _ _ _ Hrr Hrr') as Hrange.
  destruct (pick_inport_spec _ _ k Hl1 rr Hrange) as (w' & Hw' & Hspec).
  rewrite Hw' in Hw. injection Hw as ->.
  assert (∀ i, zlookup (m_port_requests (Router.switchAllocator t)) i = Some k →
               i ∉ gs.*1 ∧ zlookup (m_port_requests (Router.switchAllocator r)) i = Some k)
    as Hback.
  { intros i Hi. rewrite Hreq in Hi. case_decide; [|done]. injection Hi as Hi. lia. }
  assert (∀ i, zlookup (m_port_requests (Router.switchAllocator r)) i = Some k →
               0 ≤ i < m_num_inports (Router.switchAllocator t) ∧
               zlookup (m_port_requests (Router.switchAllocator t)) i = Some k) as Hfwd.
  { intros i Hi. assert (zlookup (m_port_requests (Router.switchAllocator t)) i = Some k) as Ht.
    { rewrite Hreq, decide_False; [done|].
      intros ([i' o] & -> & Hin)%list_elem_of_fmap. destruct Hm as (_ & _ & H3 & _).
      destruct (H3 _ _ Hin) as [Ho Hio]. cbn in Hi. rewrite Hio in Hi.
      injection Hi as ->. lia. }
    split; [|done]. rewrite <- Hl1. by eapply zlookup_lt. }
  destruct w as [i|].
  - destruct Hspec as (Hi & Hq & Hmin). destruct (Hback i Hq) as [Hni Hqi].
    exists (gs ++ [(i, k)]). split; [by apply matching_grant|].
    apply grant_effect in Ha as (Hlen' & Hsh' & Hwin' & Hreqs' & Hrri' & Hrrv').
    apply vset_Ok in Hreqs' as [Hri Hreqs']. apply vset_Ok in Hrri' as [Hrk Hrri'].
    destruct Hsh as (S1 & S2 & S3 & S4), Hsh' as (S1' & S2' & S3' & S4').
    split_and!; try congruence.
    + unfold same_shape. split_and!; congruence.
    + unfold sa_wf. rewrite S1', Hwin', Hrrv', Hrri', S2', Hreqs', !zlen_insert.
      split_and!; try done. apply Forall_insert; [done|]. by apply rr_next_range.
    + intros j. rewrite Hreqs', zlookup_insert, Hreq, fmap_app by done. cbn.
      destruct (decide (i = j)) as [->|Hne].
      * by rewrite decide_True by set_solver.
      * by rewrite (decide_ext (j ∈ gs.*1 ++ [i]) (j ∈ gs.*1)) by set_solver.
    + intros j. rewrite Hlen', Hlen, fmap_app. cbn.
      destruct (decide (j = i)) as [->|Hne].
      * rewrite decide_False, decide_True by set_solver. lia.
      * rewrite (decide_ext (j ∈ gs.*1 ++ [i]) (j ∈ gs.*1)) by set_solver. lia.
    + rewrite Hrri', S1 in *. eapply pointers_grant; try done.
      * intros i' o Hin. apply Hm in Hin. lia.
      * intros j Hj. apply Hmin; by apply Hfwd.
  - injection Ha as <-. exists gs. split; [|by split_and!].
    apply matching_skip; [done|]. intros i Hi. destruct (Hfwd i Hi) as [Hr Ht].
    by apply (Hspec i).
Qed.

Lemma arbitrate_outports_granted e r r' :
  sa_wf (Router.switchAllocator r) → Router.arbitrate_outports e r = Ok r' →
  ∃ gs, matching (m_port_requests (Router.switchAllocator r))
          (m_num_outports (Router.switchAllocator r)) gs ∧ granted r gs r'.
Proof.
  intros Hwf Ha. set (n := m_num_outports (Router.switchAllocator r)).
  assert (0 ≤ n) as Hn.
  { destruct Hwf as (_ & _ & _ & Hl & _). unfold n. rewrite <- Hl. apply zlen_nonneg. }
  replace n with (0 + Z.of_nat (Z.to_nat n)) by lia. revert Ha.
  apply (for_range_inv (λ k t, 0 ≤ k ∧ ∃ gs,
    matching (m_port_requests (Router.switchAllocator r)) k gs ∧ granted r gs t)).
  - intros k t t' Hk [_ (gs & Hm & Hg)] Ha. split; [lia|].
    eapply arbitrate_outport_granted; [lia|done|done|unfold n in *; lia|done].
  - split; [done|]. exists []. split.
    + split_and!; [constructor|constructor|set_solver|intros; lia].
    + split_and!; try done; [intros i; rewrite decide_False by set_solver; lia|].
      intros o rr Ho. split; [done|]. by intros i Hin%elem_of_nil.
Qed.

Lemma check_for_wakeup_units e r r' :
  Router.check_for_wakeup e r = Ok r' →
  Router.crossbarSwitch r' = Router.crossbarSwitch r ∧
  Router.switchAllocator r' = Router.switchAllocator r.
Proof.
  unfold Router.check_for_wakeup. intros Hw. case_in Hw; [by injection Hw as <-|].
  step_bind Hw as b _. destruct b; [|by injection Hw as <-].
  by apply schedule_wakeup_units in Hw as (_ & _ & ? & ?).
Qed.

Lemma clear_request_vector_wf s : sa_wf s → sa_wf (clear_request_vector s).
Proof.
  intros (H1 & H2 & H3 & H4 & H5). split_and!; try done.
  cbn. rewrite <- H1. unfold zlen. by rewrite length_map.
Qed.

Lemma clear_request_vector_idle s : sa_idle (clear_request_vector s).
Proof. unfold sa_idle. cbn. apply Forall_map, Forall_true. done. Qed.

(** C12: a cycle of switch allocation is a matching.  Starting with no request
    pending, [SwitchAllocator::wakeup] grants a set of (input port, output
    port) pairs in which no port occurs twice; every grant is to a channel
    whose head flit is in the allocation stage, wants that output and is
    allowed to be sent; the switch buffer of each granted input port receives
    exactly one flit and the others none; every output port requested in the
    first phase is granted; and the allocator is idle and well formed again. *)
Theorem switch_allocation_matching e r r' :
  sa_wf (Router.switchAllocator r) → sa_idle (Router.switchAllocator r) →
  Router.sa_wakeup e r = Ok r' →
  ∃ gs : list (Z * Z),
    NoDup gs.*1 ∧ NoDup gs.*2 ∧
    (∀ i o, (i, o) ∈ gs → ∃ invc, request_ok e r i invc o) ∧
    (∀ i, switch_len r' i = switch_len r i + if decide (i ∈ gs.*1) then 1 else 0) ∧
    (∀ r1 i o, Router.arbitrate_inports e r = Ok r1 →
       zlookup (m_port_requests (Router.switchAllocator r1)) i = Some o →
       0 ≤ o < m_num_outports (Router.switchAllocator r) → o ∈ gs.*2) ∧
    sa_wf (Router.switchAllocator r') ∧ sa_idle (Router.switchAllocator r').
Proof.
  intros Hwf Hidle Hw. unfold Router.sa_wakeup in Hw. step_bind Hw as r1 Hr1.
  step_bind Hw as r2 Hr2. apply check_for_wakeup_units in Hw as [Hx Hs]. cbn in Hx, Hs.
  pose proof (arbitrate_inports_requested _ _ _ Hr1) as (s1 & -> & Hsh & Hwf1 & Hreq).
  destruct (arbitrate_outports_granted e (Router.with_sa r s1) r2 (Hwf1 Hwf) Hr2)
    as (gs & (Hn1 & Hn2 & Hgs & Hmax) & (_ & _ & Hwf2 & _ & Hlen & _)).
  exists gs. rewrite Hs. split_and!; try done.
  - intros i o Hin. destruct (Hgs i o Hin) as [Ho Hio]. cbn in Hio.
    destruct (Hreq i o Hio) as [Hold|(w & _ & Hok)]; [|by exists w].
    pose proof (Forall_zlookup _ _ _ _ Hidle Hold). cbn in *. lia.
  - intros i. unfold switch_len in *. rewrite Hx. apply Hlen.
  - intros r1' i o Hr1' Hi Ho. rewrite Hr1 in Hr1'. injection Hr1' as <-.
    apply (Hmax i); [|done]. destruct Hsh as (_ & Hno & _). cbn. by rewrite Hno.
  - by apply clear_request_vector_wf.
  - apply clear_request_vector_idle.
Qed.

(** ** No starvation *)

(** In the allocation of router [r], input port [i] asks for output port [o]. *)
Definition requests (e : Env) r (i o : Z) : Prop :=
  ∃ r1, Router.arbitrate_inports e r = Ok r1 ∧
    zlookup (m_port_requests (Router.switchAllocator r1)) i = Some o.

(** Input port [i] is granted output port [o]: the port's switch buffer receives a flit
    and the pointer of [o] stands behind [i]. *)
Definition granted_to r r' (i o : Z) : Prop :=
  switch_len r' i = switch_len r i + 1 ∧
  zlookup (m_round_robin_inport (Router.switchAllocator r')) o =
    Some (rr_next (m_num_inports (Router.switchAllocator r)) i).

(** Successive allocations of a router, from the allocator [s] on.  Between two of them
    the rest of the router may change in any way. *)
Inductive allocations : SwitchAllocator.t → list (Env * Router.t * Router.t) → Prop :=
| allocations_nil s : allocations s []
| allocations_cons e r r' l :
    Router.sa_wakeup e r = Ok r' → allocations (Router.switchAllocator r') l →
    allocations (Router.switchAllocator r) ((e, r, r') :: l).

(** A requested output port goes to the first of its requesters. *)
Lemma sa_wakeup_winner e r r' i o rr :
  let n := m_num_inports (Router.switchAllocator r) in
  sa_wf (Router.switchAllocator r) → Router.sa_wakeup e r = Ok r' → requests e r i o →
  zlookup (m_round_robin_inport (Router.switchAllocator r)) o = Some rr →
  sa_wf (Router.switchAllocator r') ∧ m_num_inports (Router.switchAllocator r') = n ∧
  0 ≤ i < n ∧ ∃ w, 0 ≤ w < n ∧ dist n rr w ≤ dist n rr i ∧ granted_to r r' w o.
Proof.
  cbv zeta. intros Hwf Hw (r1' & Hr1' & Hi) Hrr. unfold Router.sa_wakeup in Hw.
  step_bind Hw as r1 Hr1. rewrite Hr1 in Hr1'. injection Hr1' as <-.
  step_bind Hw as r2 Hr2. apply check_for_wakeup_units in Hw as [Hx Hs]. cbn in Hx, Hs.
  pose proof (arbitrate_inports_pointers _ _ _ Hr1) as Hp1.
  pose proof (arbitrate_inports_requested _ _ _ Hr1) as (s1 & -> & Hsh & Hwf1 & _).
  specialize (Hwf1 Hwf). destruct Hsh as (Hn1 & Ho1 & _). cbn in Hi, Hp1.
  destruct (arbitrate_outports_granted e (Router.with_sa r s1) r2 Hwf1 Hr2)
    as (gs & (_ & _ & Hgs & Hmax) & (Hsh2 & _ & Hwf2 & _ & Hlen & Hptr)). cbn in *.
  assert (0 ≤ o < m_num_outports s1) as Ho.
  { destruct Hwf as (_ & _ & _ & Hl & _). rewrite Ho1, <- Hl. by eapply zlookup_lt. }
  destruct (proj1 (list_elem_of_fmap _ _ _) (Hmax i o Ho Hi)) as ([w o'] & -> & Hin). cbn in *.
  destruct (Hgs w o' Hin) as [_ Hwo].
  assert (∀ j, zlookup (m_port_requests s1) j = Some o' →
               0 ≤ j < m_num_inports (Router.switchAllocator r)) as Hrange.
  { intros j Hj%zlookup_lt. rewrite (proj1 Hwf1), Hn1 in Hj. done. }
  rewrite <- Hp1 in Hrr. destruct (Hptr o' rr Hrr) as [_ Hg].
  destruct (Hg w Hin) as [Hptr' Hmin]. rewrite Hs, Hn1 in *. split_and!.
  - by apply clear_request_vector_wf.
  - cbn. destruct Hsh2 as [-> _]. done.
  - by apply Hrange.
  - by apply Hrange.
  - exists w. unfold granted_to.
    split_and!; [by apply (Hrange w)|by apply (Hrange w)|by apply Hmin| |].
    + unfold switch_len in *. rewrite Hx, Hlen, decide_True; [done|].
      by apply (list_elem_of_fmap_2 fst _ (w, o')).
    + rewrite Hs. exact Hptr'.
Qed.

Lemma allocations_reach s cycles i o rr :
  sa_wf s → allocations s cycles → 0 ≤ rr < m_num_inports s →
  zlookup (m_round_robin_inport s) o = Some rr →
  Forall (λ '(e, r, _), requests e r i o) cycles →
  dist (m_num_inports s) rr i < zlen cycles →
  Exists (λ '(_, r, r'), granted_to r r' i o) cycles.
Proof.
  intros Hwf Hal. revert rr Hwf.
  induction Hal as [s|e r r' l Hw Hal IH]; intros rr Hwf Hr Hrr Hq Hd.
  - pose proof (dist_range (m_num_inports s) rr i). change (zlen []) with 0 in Hd. lia.
  - apply Forall_cons in Hq as [Hqi Hq].
    destruct (sa_wakeup_winner _ _ _ _ _ _ Hwf Hw Hqi Hrr)
      as (Hwf' & Hn & Hi & w & Hwr & Hle & Hg).
    destruct (decide (w = i)) as [->|Hne]; [by left|]. right.
    apply (IH (rr_next (m_num_inports (Router.switchAllocator r)) w)); rewrite ?Hn; try done.
    + by apply rr_next_range.
    + apply Hg.
    + rewrite (dist_after_winner _ rr w i); [|done..|].
      * pose proof (dist_range (m_num_inports (Router.switchAllocator r)) rr w).
        rewrite zlen_cons in Hd. lia.
      * revert Hle. rewrite !dist_eq by done. zcases.
Qed.

(** C17: no input port starves.  Over [n] successive allocations of a router, [n] the
    number of its input ports, an input port that asks for the same output port in each is
    granted it in one of them, whatever the other ports ask for, whatever else happens to
    the router in between and wherever the round-robin pointers stand.  The allocator is
    well formed ([sa_wf]) to begin with, as [SwitchAllocator::init] leaves it. *)
Theorem output_arbiter_no_starvation s cycles i o :
  sa_wf s → allocations s cycles → zlen cycles = m_num_inports s →
  0 ≤ o < m_num_outports s → Forall (λ '(e, r, _), requests e r i o) cycles →
  Exists (λ '(_, r, r'), granted_to r r' i o) cycles.
Proof.
  intros Hwf Hal Hlen Ho Hq. pose proof Hwf as (_ & _ & _ & Hl & HF).
  destruct (zlookup_is_Some (m_round_robin_inport s) o) as [rr Hrr]; [by rewrite Hl|].
  pose proof (Forall_zlookup _ _ _ _ HF Hrr) as Hr. cbn in Hr.
  apply (allocations_reach s cycles i o rr); try done.
  pose proof (dist_range (m_num_inports s) rr i). lia.
Qed.

End cycle.

(** Router 0 of [TwoRouters] with the flit in its input buffer. *)
Section cycle_example.
  Import ExampleMachines TwoRouters.
  Local Existing Instance machines.

Definition loaded : Router.t :=
  let r := nd_router (default (mkNode (Router.make 0 0 0 0 0 clock) [] []) (head start)) in
  match Router.input_wakeup (env 1000) r 0 (FlitBuffer.insert FlitBuffer.empty the_flit) with
  | Ok (r, _) => r
  | Err _ => r
  end.

Definition allocated : Router.t :=
  match Router.sa_wakeup (env 1000) loaded with Ok r => r | Err _ => loaded end.

Lemma switch_allocation_matching_witness :
  switch_len loaded 0 = 0 ∧ switch_len allocated 0 = 1 ∧
  ∃ gs : list (Z * Z), NoDup gs.*1 ∧ NoDup gs.*2 ∧
    (∀ i, switch_len allocated i =
            switch_len loaded i + if decide (i ∈ gs.*1) then 1 else 0).
Proof.
  split; [vm_compute; reflexivity|]. split; [vm_compute; reflexivity|].
  destruct (switch_allocation_matching (env 1000) loaded allocated)
    as (gs & H1 & H2 & _ & H4 & _).
  - vm_compute. repeat constructor; discriminate.
  - vm_compute. repeat constructor.
  - vm_compute. reflexivity.
  - exists gs. split; [exact H1|]. split; [exact H2|exact H4].
Defined.
End cycle_example.

(** A router with two input ports and one output port, both input ports with a flit for
    it; another flit arrives at the first of them before the second allocation. *)
Section contention_example.
  Import ExampleMachines TwoRouters.
  Local Existing Instance machines.
  Local Open Scope string_scope.

Definition fork : Router.t :=
  match
    (let r := Router.make 0 1 1 2 16 clock in
     '(r, _, _) ← Router.addInPort r "Local" link link;
     '(r, _, _) ← Router.addInPort r "West" link link;
     '(r, _, _) ← Router.addOutPort config r "East" link [dest 1 1] 1 link 2;
     Ok (Router.init r))
  with Ok r => r | Err _ => Router.make 0 1 1 2 16 clock end.

Definition arrives (cur : Tick) (p : Z) (r : Router.t) : Router.t :=
  match Router.input_wakeup (env cur) r p
          (FlitBuffer.insert FlitBuffer.empty (set_time the_flit cur)) with
  | Ok (r, _) => r
  | Err _ => r
  end.

Definition allocate (cur : Tick) (r : Router.t) : Router.t :=
  match Router.sa_wakeup (env cur) r with Ok r => r | Err _ => r end.

Definition contending : Router.t := arrives 1000 1 (arrives 1000 0 fork).
Definition contending2 : Router.t := arrives 2000 0 (allocate 1000 contending).

Definition two_cycles : list (Env * Router.t * Router.t) :=
  [(env 1000, contending, allocate 1000 contending);
   (env 2000, contending2, allocate 2000 contending2)].

(** The second input port is passed over in the first allocation and granted the output
    port in the second. *)
Lemma output_arbiter_no_starvation_witness :
  switch_len (allocate 1000 contending) 1 = 0 ∧
  Exists (λ '(_, r, r'), granted_to r r' 1 0) two_cycles.
Proof.
  split; [vm_compute; reflexivity|].
  apply (output_arbiter_no_starvation (Router.switchAllocator contending)).
  - vm_compute. repeat constructor; discriminate.
  - unfold two_cycles. constructor; [vm_compute; reflexivity|].
    assert (Router.switchAllocator (allocate 1000 contending) =
            Router.switchAllocator contending2) as -> by (vm_compute; reflexivity).
    constructor; [vm_compute; reflexivity|constructor].
  - vm_compute. reflexivity.
  - vm_compute. split; [discriminate|reflexivity].
  - repeat constructor; eexists; split; vm_compute; reflexivity.
Defined.
End contention_example.
