(* ===== verification/Topology.v ===== *)
(** * The topology and its routing tables

    [mem/ruby/network/Topology.{hh,cc}] and [mem/ruby/network/BasicLink.{hh,cc}]:
    the graph of controllers and routers, all-pairs shortest paths per virtual
    network, and the routing entry of every link.  The network the links are
    made in is called back through [Network::makeExtInLink] and its siblings:
    [createLinks] returns the calls in order.

    Nodes are numbered as in the code: the first [m_nodes] are the links into
    the network, the next [m_nodes] the output queues, then come the routers. *)

From S2P Require Import Prelude.
From S2P Require Import NetDest.

Definition INFINITE_LATENCY : Z := 10000.

(** ** [Matrix]: a vector of vectors of vectors of [int] *)

Notation Matrix := (list (list (list Z))) (only parsing).

Definition get3 (m : Matrix) (a b c : Z) : result Z :=
  x ← vget m a; y ← vget x b; vget y c.

Definition set3 (m : Matrix) (a b c v : Z) : result Matrix :=
  vupd m a (λ x, vupd x b (λ y, vset y c v)).

(** [Matrix(p, vector(q, vector(r, v)))] *)
Definition new3 (p q r v : Z) : Matrix :=
  replicate (Z.to_nat p) (replicate (Z.to_nat q) (replicate (Z.to_nat r) v)).

(** [x.size()] of an existing element of an outer vector. *)
Definition size_of {A} (m : list (list A)) (a : Z) : result Z :=
  x ← vget m a; Ok (zlen x).

(** ** Links *)

Module BasicLink.

Record t := mk {
  m_id : Z;
  m_latency : Z;
  m_bandwidth_factor : Z;
  m_weight : Z;
  mVnets : list Z;
}.

End BasicLink.

Record LinkEntry := mkLinkEntry {
  link : BasicLink.t;
  src_outport_dirn : string;
  dst_inport_dirn : string;
}.

(** What the constructor reads of an external link (the machine type and
    version of its controller, the id of its router) and of an internal one. *)
Record ExtLink := mkExtLink {
  ext_link : BasicLink.t;
  ext_type : Z;
  ext_version : Z;
  ext_router : Z;
}.

Record IntLink := mkIntLink {
  int_link : BasicLink.t;
  int_src : Z;
  int_dst : Z;
  int_src_outport : string;
  int_dst_inport : string;
}.

(** The calls made back to the network. *)
Inductive link_call :=
| MakeExtIn (src : Z) (dest : Z) (l : BasicLink.t) (entry : list NetDest.t)
| MakeExtOut (src : Z) (dest : Z) (l : BasicLink.t) (entry : list NetDest.t)
| MakeInternal (src dest : Z) (l : BasicLink.t) (entry : list NetDest.t)
    (src_outport dst_inport : string).

(** [std::map<std::pair<int, int>, ..>]: the entries in key order. *)
Definition LinkMap := list ((Z * Z) * list LinkEntry).

Definition key_lt (a b : Z * Z) : bool :=
  (a.1 <? b.1) || ((a.1 =? b.1) && (a.2 <? b.2)).

Module Topology.
Section Topology.
  Context `{MachineTypes}.

Record t := mk {
  m_nodes : Z;
  m_number_of_switches : Z;
  m_vnets : Z;
  m_ext_link_vector : list ExtLink;
  m_int_link_vector : list IntLink;
  m_link_map : LinkMap;
}.

(** *** [addLink] *)

(** [m_link_map.find(k)], and the insertion of one more entry under [k]. *)
Definition find (m : LinkMap) (k : Z * Z) : list LinkEntry :=
  match list_find (λ p, p.1 = k) m with Some (_, (_, es)) => es | None => [] end.

Fixpoint push_entry (m : LinkMap) (k : Z * Z) (e : LinkEntry) : LinkMap :=
  match m with
  | [] => [(k, [e])]
  | (k', es) :: m' =>
      if bool_decide (k' = k) then (k', es ++ [e]) :: m'
      else if key_lt k k' then (k, [e]) :: m
      else (k', es) :: push_entry m' k e
  end.

Definition with_map (g : t) (m : LinkMap) : t :=
  mk (m_nodes g) (m_number_of_switches g) (m_vnets g) (m_ext_link_vector g)
     (m_int_link_vector g) m.

Definition addLink (g : t) (src dest : Z) (l : BasicLink.t)
    (src_outport dst_inport : string) : result t :=
  let bound := wrap32 (m_number_of_switches g + m_nodes g + m_nodes g) in
  _ ← assert (wrap32 src <=? bound);
  _ ← assert (wrap32 dest <=? bound);
  Ok (with_map g (push_entry (m_link_map g) (src, dest)
                    (mkLinkEntry l src_outport dst_inport))).

(** *** The constructor *)

Definition add_ext (g : t) (x : ExtLink) : result t :=
  let machine_base_idx := MachineType_base_number (ext_type x) in
  let ext_idx1 := machine_base_idx + ext_version x in
  let ext_idx2 := ext_idx1 + m_nodes g in
  let int_idx := ext_router x + 2 * m_nodes g in
  g ← addLink g ext_idx1 int_idx (ext_link x) "" "";
  addLink g int_idx ext_idx2 (ext_link x) "" "".

Definition add_int (g : t) (x : IntLink) : result t :=
  let g := mk (m_nodes g) (m_number_of_switches g) (m_vnets g)
              (m_ext_link_vector g) (m_int_link_vector g ++ [x])
              (m_link_map g) in
  let src := int_src x + 2 * m_nodes g in
  let dst := int_dst x + 2 * m_nodes g in
  addLink g src dst (int_link x) (int_src_outport x) (int_dst_inport x).

(** The vector of internal links starts as a copy of the argument and gets
    every link once more. *)
Definition make (num_nodes num_routers num_vnets : Z) (ext_links : list ExtLink)
    (int_links : list IntLink) : result t :=
  let g := mk (MachineType_base_number MachineType_NUM) num_routers num_vnets
              ext_links int_links [] in
  _ ← assert (1 <? m_nodes g);
  g ← foldl (λ acc x, g ← acc; add_ext g x) (Ok g) ext_links;
  foldl (λ acc x, g ← acc; add_int g x) (Ok g) int_links.

(** *** [extend_shortest_path] *)

(** The three matrices the function updates. *)
Record paths := mkPaths {
  dist : Matrix;
  latencies : Matrix;
  inter_switches : Matrix;
}.

(** The body of the loop over [k]; the state is [minimum] (which is also
    [previous_minimum] between iterations), [intermediate_switch] and
    [inter_switches]. *)
Definition relax_k (d : Matrix) (v i j k : Z) (st : Z * Z * Matrix)
    : result (Z * Z * Matrix) :=
  let '(previous_minimum, intermediate_switch, isw) := st in
  a ← get3 d v i k;
  b ← get3 d v k j;
  let minimum := Z.min previous_minimum (a + b) in
  if negb (previous_minimum =? minimum) then
    x ← get3 isw i k v;
    y ← get3 isw k j v;
    isw ← set3 isw i j v (x + y + 1);
    Ok (minimum, k, isw)
  else Ok (minimum, intermediate_switch, isw).

(** The body of the loops over [i] and [j]; the flag is [change]. *)
Definition relax (nodes v i j : Z) (st : paths * bool) : result (paths * bool) :=
  let '(p, change) := st in
  minimum ← get3 (dist p) v i j;
  '(minimum, intermediate_switch, isw) ←
    for_range 0 (Z.to_nat nodes) (relax_k (dist p) v i j)
      (minimum, -1, inter_switches p);
  cur ← get3 (dist p) v i j;
  if negb (cur =? minimum) then
    d ← set3 (dist p) v i j minimum;
    _ ← assert (0 <=? intermediate_switch);
    n ← size_of (latencies p) i;
    _ ← assert (intermediate_switch <? n);
    a ← get3 (latencies p) i intermediate_switch v;
    b ← get3 (latencies p) intermediate_switch j v;
    lat ← set3 (latencies p) i j v (a + b);
    Ok (mkPaths d lat isw, true)
  else Ok (mkPaths (dist p) (latencies p) isw, change).

(** One execution of the body of [while (change)]. *)
Definition pass (nodes v : Z) (p : paths) : result (paths * bool) :=
  for_range 0 (Z.to_nat nodes)
    (λ i, for_range 0 (Z.to_nat nodes) (relax nodes v i)) (p, false).

(** [while (change)]; [None] when the fuel runs out first. *)
Fixpoint while_change (fuel : nat) (nodes v : Z) (p : paths)
    : result (option paths) :=
  match fuel with
  | O => Ok None
  | S n =>
      '(p, change) ← pass nodes v p;
      if (change : bool) then while_change n nodes v p else Ok (Some p)
  end.

(** The sum of the distances, one more than which is enough fuel: every pass
    that changes something lowers the sum. *)
Definition total_dist (d : Matrix) (v : Z) : result Z :=
  s ← vget d v; Ok (sum_over (sum_over id) s).

Definition extend_vnet (nodes v : Z) (p : paths) : result paths :=
  total ← total_dist (dist p) v;
  o ← while_change (S (Z.to_nat total)) nodes v p;
  match o with Some p => Ok p | None => Err OutOfFuel end.

Definition extend_shortest_path (g : t) (p : paths) : result paths :=
  nodes ← size_of (dist p) 0;
  for_range 0 (Z.to_nat (m_vnets g)) (extend_vnet nodes) p.

Definition shortest_path (g : t) (weights lat isw : Matrix) : result paths :=
  extend_shortest_path g (mkPaths weights lat isw).

(** *** Routing entries *)

Definition link_is_shortest_path_to_node (src next final : Z)
    (weights d : Matrix) (vnet : Z) : result bool :=
  w ← get3 weights vnet src next;
  a ← get3 d vnet next final;
  b ← get3 d vnet src final;
  Ok (w + a =? b).

(** The inner loop over the [n] machines of type [m], from number [i] and
    global number [g]. *)
Fixpoint add_machines (src next : Z) (weights d : Matrix) (vnet m i g : Z)
    (n : nat) (res : NetDest.t) : result NetDest.t :=
  match n with
  | O => Ok res
  | S n' =>
      b ← link_is_shortest_path_to_node src next
            (g + MachineType_base_number MachineType_NUM) weights d vnet;
      res ← (if (b : bool) then NetDest.add res (mkMachineID m i) else Ok res);
      add_machines src next weights d vnet m (i + 1) (g + 1) n' res
  end.

(** The outer loop: [n] machine types from [m] on, [g] machines before them. *)
Fixpoint add_types (src next : Z) (weights d : Matrix) (vnet m g : Z) (n : nat)
    (res : NetDest.t) : result NetDest.t :=
  match n with
  | O => Ok res
  | S n' =>
      let c := Z.max 0 (MachineType_base_count m) in
      res ← add_machines src next weights d vnet m 0 g (Z.to_nat c) res;
      add_types src next weights d vnet (m + 1) (g + c) n' res
  end.

Definition shortest_path_to_node (src next : Z) (weights d : Matrix) (vnet : Z)
    : result NetDest.t :=
  res ← NetDest.make;
  add_types src next weights d vnet 0 0 (Z.to_nat MachineType_NUM) res.

(** *** [makeLink] *)

(** The entry of a link that carries only some of the virtual networks: the
    others keep the default-constructed destination. *)
Definition link_route (g : t) (l : BasicLink.t) (entry : list NetDest.t)
    : result (list NetDest.t) :=
  if zlen (BasicLink.mVnets l) =? 0 then Ok entry
  else
    empty ← NetDest.make;
    foldl (λ acc vnet, route ← acc; e ← vget entry vnet; vset route vnet e)
      (Ok (replicate (Z.to_nat (m_vnets g)) empty)) (BasicLink.mVnets l).

Definition makeLink (g : t) (src dest : Z) (entry : list NetDest.t)
    : result (list link_call) :=
  let n := m_nodes g in
  _ ← assert ((2 * n <=? src) || (2 * n <=? dest));
  let links := find (m_link_map g) (src, dest) in
  let each (f : LinkEntry → list NetDest.t → link_call) :=
    foldl (λ acc e, calls ← acc; route ← link_route g (link e) entry;
                    Ok (calls ++ [f e route])) (Ok []) links in
  if src <? n then
    each (λ e route, MakeExtIn src (dest - 2 * n) (link e) route)
  else if dest <? 2 * n then
    _ ← assert (n <=? dest);
    each (λ e route, MakeExtOut (src - 2 * n) (dest - n) (link e) route)
  else
    _ ← assert ((2 * n <=? src) && (2 * n <=? dest));
    each (λ e route, MakeInternal (src - 2 * n) (dest - 2 * n) (link e) route
                       (src_outport_dirn e) (dst_inport_dirn e)).

(** *** [createLinks] *)

Definition max_switch_id (m : LinkMap) : Z :=
  foldl (λ acc p, Z.max (Z.max acc p.1.1) p.1.2) 0 m.

(** One virtual network of one link: the latency and the weight. *)
Definition set_vnet (src dst : Z) (l : BasicLink.t) (vnet : Z)
    (st : Matrix * Matrix * list bool) : result (Matrix * Matrix * list bool) :=
  let '(weights, lat, vnet_done) := st in
  b ← vget vnet_done vnet;
  _ ← fatal_if b;
  lat ← set3 lat src dst vnet (BasicLink.m_latency l);
  weights ← set3 weights vnet src dst (BasicLink.m_weight l);
  vnet_done ← vset vnet_done vnet true;
  Ok (weights, lat, vnet_done).

Definition fill_link (g : t) (src dst : Z) (l : BasicLink.t)
    (st : Matrix * Matrix * list bool) : result (Matrix * Matrix * list bool) :=
  if zlen (BasicLink.mVnets l) =? 0 then
    for_range 0 (Z.to_nat (m_vnets g)) (set_vnet src dst l) st
  else
    foldl (λ acc vnet, st ← acc;
             _ ← fatal_if (m_vnets g <=? vnet);
             set_vnet src dst l vnet st) (Ok st) (BasicLink.mVnets l).

(** The links of one source and destination. *)
Definition fill_group (g : t) (st : Matrix * Matrix)
    (group : (Z * Z) * list LinkEntry) : result (Matrix * Matrix) :=
  let '((src, dst), entries) := group in
  '(weights, lat, _) ←
    foldl (λ acc e, st ← acc; fill_link g src dst (link e) st)
      (Ok (st.1, st.2, replicate (Z.to_nat (m_vnets g)) false)) entries;
  Ok (weights, lat).

(** The weights, the latencies and the (all zero) intermediate-switch counts. *)
Definition initial_matrices (g : t) : result (Matrix * Matrix * Matrix) :=
  let num_switches := max_switch_id (m_link_map g) + 1 in
  let weights := new3 (m_vnets g) num_switches num_switches INFINITE_LATENCY in
  let lat := new3 num_switches num_switches (m_vnets g) (-1) in
  let isw := new3 num_switches num_switches (m_vnets g) 0 in
  n ← size_of weights 0;
  weights ← for_range 0 (Z.to_nat n)
    (λ i, for_range 0 (Z.to_nat (m_vnets g)) (λ v w, set3 w v i i 0)) weights;
  '(weights, lat) ←
    foldl (λ acc group, st ← acc; fill_group g st group) (Ok (weights, lat))
      (m_link_map g);
  Ok (weights, lat, isw).

(** The routing entries of the link from [i] to [j], and whether it exists on
    some virtual network. *)
Definition routing_map (g : t) (weights d : Matrix) (i j : Z)
    : result (list NetDest.t * bool) :=
  empty ← NetDest.make;
  for_range 0 (Z.to_nat (m_vnets g))
    (λ v '(m, realLink),
       weight ← get3 weights v i j;
       if (0 <? weight) && negb (weight =? INFINITE_LATENCY) then
         e ← shortest_path_to_node i j weights d v;
         m ← vset m v e;
         Ok (m, true)
       else Ok (m, realLink))
    (replicate (Z.to_nat (m_vnets g)) empty, false).

Definition createLinks (g : t) : result (list link_call) :=
  '(weights, lat, isw) ← initial_matrices g;
  p ← shortest_path g weights lat isw;
  n ← size_of weights 0;
  for_range 0 (Z.to_nat n)
    (λ i calls,
       row ← vget weights 0;
       m ← size_of row i;
       for_range 0 (Z.to_nat m)
         (λ j calls,
            '(routingMap, realLink) ← routing_map g weights (dist p) i j;
            if (realLink : bool) then
              more ← makeLink g i j routingMap;
              Ok (calls ++ more)
            else Ok calls) calls) [].

End Topology.
End Topology.
