(* ===== verification/ShortestPath.v ===== *)
(** * The shortest paths are shortest

    The loop of [Topology::extend_shortest_path] terminates, none of its
    assertions fails, and the distances it leaves are those of shortest paths
    in the graph of link weights (with a link of weight [INFINITE_LATENCY]
    between nodes that have none).  The routing entries made from them lead
    every packet to its destination. *)

From S2P Require Import Prelude.
From S2P Require Import NetDest.
From S2P Require Import Topology.

(** ** Matrices *)

Definition dims (m : Matrix) (p q r : Z) : Prop :=
  zlen m = p ∧ Forall (λ x, zlen x = q ∧ Forall (λ y, zlen y = r) x) m.

(** The value of a cell, [0] if there is none. *)
Definition val (m : Matrix) (a b c : Z) : Z :=
  match get3 m a b c with Ok x => x | Err _ => 0 end.

Section matrices.
  Implicit Types (m : Matrix) (a b c : Z).

Lemma dims_lookup m p q r a b c :
  dims m p q r → 0 ≤ a < p → 0 ≤ b < q → 0 ≤ c < r →
  ∃ x y z, zlookup m a = Some x ∧ zlookup x b = Some y ∧ zlookup y c = Some z.
Proof.
  intros [Hp HF] Ha Hb Hc. destruct (zlookup_is_Some m a) as [x Hx]; [lia|].
  destruct (Forall_zlookup _ _ _ _ HF Hx) as [Hq HG].
  destruct (zlookup_is_Some x b) as [y Hy]; [lia|].
  pose proof (Forall_zlookup _ _ _ _ HG Hy) as Hr. cbn in Hr.
  destruct (zlookup_is_Some y c) as [z Hz]; [lia|]. by exists x, y, z.
Qed.

Lemma get3_lookup m a b c x y z :
  zlookup m a = Some x → zlookup x b = Some y → zlookup y c = Some z →
  get3 m a b c = Ok z.
Proof. intros Hx Hy Hz. unfold get3, vget. by rewrite Hx; cbn; rewrite Hy; cbn; rewrite Hz. Qed.

Lemma get3_val m p q r a b c :
  dims m p q r → 0 ≤ a < p → 0 ≤ b < q → 0 ≤ c < r → get3 m a b c = Ok (val m a b c).
Proof.
  intros Hd Ha Hb Hc. destruct (dims_lookup m p q r a b c) as (x & y & z & Hx & Hy & Hz);
    [done..|]. unfold val. by rewrite (get3_lookup _ _ _ _ _ _ _ Hx Hy Hz).
Qed.

Lemma dims_insert m p q r a b c x y v :
  dims m p q r → zlookup m a = Some x → zlookup x b = Some y →
  dims (<[Z.to_nat a := <[Z.to_nat b := <[Z.to_nat c := v]> y]> x]> m) p q r.
Proof.
  intros [Hp HF] Hx Hy. split; [by rewrite zlen_insert|].
  destruct (Forall_zlookup _ _ _ _ HF Hx) as [Hq HG].
  apply Forall_insert; [done|]. split; [by rewrite zlen_insert|].
  apply Forall_insert; [done|]. rewrite zlen_insert. by apply (Forall_zlookup _ _ _ _ HG Hy).
Qed.

  (** Writing a cell changes that cell, and the total of its slice by the
      difference. *)
Lemma set3_spec m p q r a b c v :
  dims m p q r → 0 ≤ a < p → 0 ≤ b < q → 0 ≤ c < r →
  ∃ m', set3 m a b c v = Ok m' ∧ dims m' p q r ∧
    (∀ a' b' c', val m' a' b' c' =
       if decide (a' = a ∧ b' = b ∧ c' = c) then v else val m a' b' c') ∧
    (∀ s, Topology.total_dist m a = Ok s →
          Topology.total_dist m' a = Ok (s - val m a b c + v)).
Proof.
  intros Hd Ha Hb Hc. destruct (dims_lookup m p q r a b c) as (x & y & z & Hx & Hy & Hz);
    [done..|].
  exists (<[Z.to_nat a := <[Z.to_nat b := <[Z.to_nat c := v]> y]> x]> m). split_and!.
  - unfold set3. eapply vupd_intro; [done|]. eapply vupd_intro; [done|].
    apply vset_Ok. split; [by eapply zlookup_lt|done].
  - by apply dims_insert.
  - intros a' b' c'. unfold val, get3, vget.
    rewrite zlookup_insert by (by eapply zlookup_lt).
    destruct (decide (a = a')) as [<-|Hne]; [cbn|rewrite decide_False by naive_solver; done].
    rewrite Hx, zlookup_insert by (by eapply zlookup_lt). cbn.
    destruct (decide (b = b')) as [<-|Hne]; [cbn|rewrite decide_False by naive_solver; done].
    rewrite Hy, zlookup_insert by (by eapply zlookup_lt). cbn.
    destruct (decide (c = c')) as [<-|Hne]; [by rewrite decide_True|].
    by rewrite decide_False by naive_solver.
  - intros s. unfold Topology.total_dist, vget.
    rewrite Hx, zlookup_insert, decide_True by (by first [eapply zlookup_lt|done]).
    cbn [rbind]. intros [= <-]. f_equal. unfold val. rewrite (get3_lookup _ _ _ _ _ _ _ Hx Hy Hz).
    apply zlookup_Some in Hy as [_ Hy]. apply zlookup_Some in Hz as [_ Hz].
    rewrite (sum_over_insert _ _ _ _ _ Hy), (sum_over_insert _ _ _ _ _ Hz). unfold id. lia.
Qed.

Lemma total_nonneg m p q r a :
  dims m p q r → 0 ≤ a < p →
  (∀ b c, 0 ≤ b < q → 0 ≤ c < r → 0 ≤ val m a b c) →
  ∃ s, Topology.total_dist m a = Ok s ∧ 0 ≤ s.
Proof.
  intros [Hp HF] Ha Hv. destruct (zlookup_is_Some m a) as [x Hx]; [lia|].
  destruct (Forall_zlookup _ _ _ _ HF Hx) as [Hq HG].
  unfold Topology.total_dist, vget. rewrite Hx. cbn [rbind]. eexists. split; [done|].
  apply sum_over_Forall_nonneg, Forall_zlookup_intro. intros b y Hy.
  apply sum_over_Forall_nonneg, Forall_zlookup_intro. intros c z Hz. unfold id.
  pose proof (Forall_zlookup _ _ _ _ HG Hy) as Hr. cbn in Hr.
  pose proof (zlookup_lt _ _ _ Hy). pose proof (zlookup_lt _ _ _ Hz).
  specialize (Hv b c ltac:(lia) ltac:(lia)). unfold val in Hv.
  by rewrite (get3_lookup _ _ _ _ _ _ _ Hx Hy Hz) in Hv.
Qed.
End matrices.

(** ** Relaxation *)

Section relaxation.
  Context `{MachineTypes}.
  Import Topology.
  Variables (nodes vnets : Z).

(** The three matrices have the shapes [createLinks] gives them. *)
Definition paths_wf (p : paths) : Prop :=
  dims (dist p) vnets nodes nodes ∧ dims (latencies p) nodes nodes vnets ∧
  dims (inter_switches p) nodes nodes vnets.

(** One improvement of the distance from [i] to [j] by going through [k]. *)
Definition improves (v : Z) (d d' : Matrix) : Prop :=
  ∃ i j k, (0 ≤ i < nodes ∧ 0 ≤ j < nodes ∧ 0 ≤ k < nodes) ∧
    val d v i k + val d v k j < val d v i j ∧
    set3 d v i j (val d v i k + val d v k j) = Ok d' ∧ dims d' vnets nodes nodes ∧
    (∀ a b c, val d' a b c =
       if decide (a = v ∧ b = i ∧ c = j) then val d v i k + val d v k j else val d a b c).

Definition triangle (v : Z) (d : Matrix) : Prop :=
  ∀ i j k, 0 ≤ i < nodes → 0 ≤ j < nodes → 0 ≤ k < nodes →
  val d v i j ≤ val d v i k + val d v k j.

(** What the loop over [k] computes. *)
Definition k_spec (d : Matrix) (v i j k : Z) (st : Z * Z * Matrix) : Prop :=
  let '(minimum, inter, isw) := st in
  dims isw nodes nodes vnets ∧
  (∀ k', 0 ≤ k' < k → minimum ≤ val d v i k' + val d v k' j) ∧
  (minimum = val d v i j ∨
   minimum < val d v i j ∧ 0 ≤ inter < k ∧ minimum = val d v i inter + val d v inter j).

Lemma relax_k_spec d v i j k st :
  dims d vnets nodes nodes → 0 ≤ v < vnets → 0 ≤ i < nodes → 0 ≤ j < nodes →
  0 ≤ k < nodes → k_spec d v i j k st →
  ∃ st', relax_k d v i j k st = Ok st' ∧ k_spec d v i j (k + 1) st'.
Proof.
  intros Hd Hv Hi Hj Hk. destruct st as [[prev inter] isw]. intros (His & Hmin & Hcase).
  unfold relax_k. rewrite !(get3_val d vnets nodes nodes) by done. cbn [rbind].
  set (s := val d v i k + val d v k j) in *.
  assert (∀ m, m ≤ prev → m ≤ s → ∀ k', 0 ≤ k' < k + 1 → m ≤ val d v i k' + val d v k' j)
    as Hmin'.
  { intros m H1 H2 k' Hk'. destruct (decide (k' = k)) as [->|]; [done|].
    specialize (Hmin k' ltac:(lia)). lia. }
  destruct (Z.eqb_spec prev (Z.min prev s)) as [He|He]; cbn [negb].
  - eexists. split; [done|]. split_and!; [done|apply Hmin'; lia|]. rewrite <- He.
    destruct Hcase as [->|(? & ? & ?)]; [by left|]. right. split_and!; [done|lia|lia|done].
  - rewrite !(get3_val isw nodes nodes vnets) by done. cbn [rbind].
    destruct (set3_spec isw nodes nodes vnets i j v (val isw i k v + val isw k j v + 1))
      as (isw' & -> & Hd' & _); [done..|]. cbn [rbind]. eexists. split; [done|].
    split_and!; [done|apply Hmin'; lia|]. right.
    replace (Z.min prev s) with s by lia.
    split_and!; [destruct Hcase as [->|(? & ? & ?)]; lia|lia|lia|done].
Qed.

(** One cell: it is improved by its best intermediate node, or no node improves
    it and nothing happens; no assertion fails. *)
Lemma relax_spec v i j p change :
  paths_wf p → 0 ≤ v < vnets → 0 ≤ i < nodes → 0 ≤ j < nodes →
  ∃ p' change', relax nodes v i j (p, change) = Ok (p', change') ∧ paths_wf p' ∧
    (dist p' = dist p ∧ change' = change ∧
       (∀ k, 0 ≤ k < nodes → val (dist p) v i j ≤ val (dist p) v i k + val (dist p) v k j) ∨
     change' = true ∧ improves v (dist p) (dist p')).
Proof.
  intros (Hd & Hl & His) Hv Hi Hj. unfold relax.
  rewrite (get3_val (dist p) vnets nodes nodes) by done. cbn [rbind].
  destruct (for_range_total (k_spec (dist p) v i j) (relax_k (dist p) v i j)
    (Z.to_nat nodes) 0 (val (dist p) v i j, -1, inter_switches p))
    as ([[minimum inter] isw] & -> & His' & Hmin & Hcase).
  { intros k st Hk. apply relax_k_spec; try done. lia. }
  { split_and!; [done|lia|by left]. }
  rewrite Z.add_0_l, Z2Nat.id in * by lia. cbn [rbind].
  destruct (Z.eqb_spec (val (dist p) v i j) minimum) as [He|He]; cbn [negb].
  - eexists _, _. split; [done|]. split; [by split_and!|]. left.
    split_and!; [done|done|]. intros k Hk. rewrite He. by apply Hmin.
  - destruct Hcase as [?|(Hlt & Hr & Hm)]; [congruence|].
    destruct (set3_spec (dist p) vnets nodes nodes v i j minimum) as (d' & Hs & Hd' & Hval & _);
      [done..|]. rewrite Hs. cbn [rbind]. destruct (Z.leb_spec 0 inter); [|lia]. cbn [assert rbind].
    assert (size_of (latencies p) i = Ok nodes) as ->.
    { destruct Hl as [Hl1 Hl2]. unfold size_of. destruct (vget_total (latencies p) i) as [x Hx];
        [lia|]. rewrite Hx. cbn. apply vget_Ok in Hx.
      by destruct (Forall_zlookup _ _ _ _ Hl2 Hx) as [-> _]. }
    cbn [rbind]. destruct (Z.ltb_spec inter nodes); [|lia]. cbn [assert rbind].
    rewrite !(get3_val (latencies p) nodes nodes vnets) by done. cbn [rbind].
    destruct (set3_spec (latencies p) nodes nodes vnets i j v
      (val (latencies p) i inter v + val (latencies p) inter j v)) as (l' & -> & Hl' & _);
      [done..|]. cbn [rbind]. eexists _, _. split; [done|]. split; [by split_and!|].
    right. split; [done|]. exists i, j, inter. subst minimum. split_and!; done || lia.
Qed.

(** *** A pass over all cells *)

(** The state of a pass that has visited the cells [seen]. *)
Definition pass_spec (v : Z) (p0 : paths) (seen : Z → Z → Prop) (st : paths * bool) : Prop :=
  paths_wf st.1 ∧
  (st.2 = false ∧ dist st.1 = dist p0 ∧
     (∀ i j k, 0 ≤ i < nodes → 0 ≤ j < nodes → seen i j → 0 ≤ k < nodes →
        val (dist p0) v i j ≤ val (dist p0) v i k + val (dist p0) v k j) ∨
   st.2 = true ∧ tc (improves v) (dist p0) (dist st.1)).

Lemma pass_spec_impl v p0 (seen seen' : Z → Z → Prop) st :
  (∀ i j, 0 ≤ i < nodes → 0 ≤ j < nodes → seen' i j → seen i j) →
  pass_spec v p0 seen st → pass_spec v p0 seen' st.
Proof.
  intros Hs [Hw [(H1 & H2 & H3)|Hr]]; (split; [done|]); [left|by right].
  split_and!; try done. intros i j k Hi Hj Hij. apply H3; auto.
Qed.

Lemma relax_pass_spec v p0 i j st :
  0 ≤ v < vnets → 0 ≤ i < nodes → 0 ≤ j < nodes →
  pass_spec v p0 (λ i' j', i' < i ∨ i' = i ∧ j' < j) st →
  ∃ st', relax nodes v i j st = Ok st' ∧
         pass_spec v p0 (λ i' j', i' < i ∨ i' = i ∧ j' < j + 1) st'.
Proof.
  intros Hv Hi Hj. destruct st as [p ch]. intros [Hw Hcase]. cbn in Hw, Hcase.
  destruct (relax_spec v i j p ch) as (p' & ch' & -> & Hw' & Hr); [done..|].
  eexists. split; [done|]. split; [done|]. cbn.
  destruct Hcase as [(-> & Hd & Ht)|[-> Htc]], Hr as [(Hd' & -> & Ht')|[-> Him]].
  - left. split_and!; [done|congruence|]. intros i' j' k Hi' Hj' Hseen Hk.
    destruct (decide (i' = i ∧ j' = j)) as [[-> ->]|Hne]; [rewrite <- Hd; by apply Ht'|].
    apply Ht; try done. lia.
  - right. split; [done|]. rewrite <- Hd. by apply tc_once.
  - right. split; [done|]. by rewrite Hd'.
  - right. split; [done|]. by eapply tc_r.
Qed.

Lemma pass_ok v p :
  paths_wf p → 0 ≤ v < vnets → 0 ≤ nodes →
  ∃ p' change, pass nodes v p = Ok (p', change) ∧ paths_wf p' ∧
    (change = false ∧ dist p' = dist p ∧ triangle v (dist p) ∨
     change = true ∧ tc (improves v) (dist p) (dist p')).
Proof.
  intros Hw Hv Hn. unfold pass.
  destruct (for_range_total (λ i, pass_spec v p (λ i' _, i' < i))
    (λ i, for_range 0 (Z.to_nat nodes) (relax nodes v i)) (Z.to_nat nodes) 0 (p, false))
    as ([p' ch] & Hp & Hw' & Hcase).
  - intros i st Hi Hst.
    destruct (for_range_total (λ j, pass_spec v p (λ i' j', i' < i ∨ i' = i ∧ j' < j))
      (relax nodes v i) (Z.to_nat nodes) 0 st) as (st' & Hr & Hst').
    + intros j st0 Hj. apply relax_pass_spec; lia.
    + eapply pass_spec_impl; [|exact Hst]. intros; cbn in *; lia.
    + exists st'. split; [done|]. eapply pass_spec_impl; [|exact Hst']. intros; cbn in *; lia.
  - split; [done|]. left. cbn. split_and!; [done|done|]. intros; lia.
  - exists p', ch. split; [done|]. split; [done|]. cbn in Hcase.
    destruct Hcase as [(-> & -> & Ht)|[-> ?]]; [left|by right].
    split_and!; [done|done|]. intros i j k Hi Hj Hk. apply Ht; lia.
Qed.

(** *** Termination *)

Definition nonneg (v : Z) (d : Matrix) : Prop :=
  ∀ i j, 0 ≤ i < nodes → 0 ≤ j < nodes → 0 ≤ val d v i j.

Lemma improves_nonneg v d d' : improves v d d' → nonneg v d → nonneg v d'.
Proof.
  intros (i & j & k & (Hi & Hj & Hk) & _ & _ & _ & Hv) Hn a b Ha Hb. rewrite Hv.
  case_decide; [|by apply Hn]. pose proof (Hn i k Hi Hk). pose proof (Hn k j Hk Hj). lia.
Qed.

(** Every improvement lowers the sum of the distances. *)
Lemma improves_total v d d' s :
  0 ≤ v < vnets → dims d vnets nodes nodes → improves v d d' →
  total_dist d v = Ok s → ∃ s', total_dist d' v = Ok s' ∧ s' < s.
Proof.
  intros Hv Hd (i & j & k & (Hi & Hj & Hk) & Hlt & Hs & _) Ht.
  destruct (set3_spec d vnets nodes nodes v i j (val d v i k + val d v k j))
    as (d'' & Hs' & _ & _ & Htot); [done..|]. rewrite Hs in Hs'. injection Hs' as <-.
  eexists. split; [by apply Htot|]. lia.
Qed.

Lemma improves_dims v d d' : improves v d d' → dims d' vnets nodes nodes.
Proof. by intros (i & j & k & _ & _ & _ & ? & _). Qed.

Lemma tc_improves_total v d d' s :
  0 ≤ v < vnets → dims d vnets nodes nodes → tc (improves v) d d' → nonneg v d →
  total_dist d v = Ok s → nonneg v d' ∧ ∃ s', total_dist d' v = Ok s' ∧ s' < s.
Proof.
  intros Hv Hd Htc. revert s Hd. induction Htc as [d d' Him|d d1 d' Him _ IH]; intros s Hd Hn Hs.
  - split; [by eapply improves_nonneg|by eapply improves_total].
  - destruct (improves_total _ _ _ _ Hv Hd Him Hs) as (s1 & Hs1 & Hlt).
    destruct (IH s1) as (Hn' & s' & Hs' & Hlt'); [by eapply improves_dims| |done|].
    + by eapply improves_nonneg.
    + split; [done|]. exists s'. split; [done|lia].
Qed.

Lemma while_change_ok v fuel p s :
  paths_wf p → 0 ≤ v < vnets → 0 ≤ nodes → nonneg v (dist p) →
  total_dist (dist p) v = Ok s → s < Z.of_nat fuel →
  ∃ p', while_change fuel nodes v p = Ok (Some p') ∧ paths_wf p' ∧
        rtc (improves v) (dist p) (dist p') ∧ triangle v (dist p').
Proof.
  intros Hw Hv Hnd. revert p s Hw. induction fuel as [|fuel IH]; intros p s Hw Hn Hs Hf.
  - destruct (total_nonneg (dist p) vnets nodes nodes v) as (s' & Hs' & ?);
      [apply Hw|done|done|]. rewrite Hs in Hs'. injection Hs' as <-. lia.
  - cbn [while_change]. destruct (pass_ok v p Hw Hv Hnd) as (p1 & ch & -> & Hw1 & Hcase).
    cbn [rbind]. destruct Hcase as [(-> & Hd & Ht)|[-> Htc]].
    + exists p1. rewrite Hd. split_and!; done.
    + destruct (tc_improves_total v (dist p) (dist p1) s) as (Hn1 & s1 & Hs1 & Hlt);
        [done|apply Hw|done..|].
      destruct (IH p1 s1) as (p' & Hp' & Hw' & Hr & Ht); [done|done|done|lia|].
      exists p'. split_and!; try done. etransitivity; [|exact Hr]. by apply tc_rtc.
Qed.

End relaxation.

(** ** Shortest paths *)

Section shortest.
  Context `{MachineTypes}.
  Import Topology.
  Variables (nodes vnets : Z).

(** The weight of the path from [i] through the nodes of [l]. *)
Fixpoint path_weight (w : Matrix) (v i : Z) (l : list Z) : Z :=
  match l with [] => 0 | x :: l' => val w v i x + path_weight w v x l' end.

(** [l] leads to [j], in at least one hop. *)
Definition path_to (j : Z) (l : list Z) : Prop :=
  last l = Some j ∧ Forall (λ x, 0 ≤ x < nodes) l.

(** [d] holds the weights of the shortest paths under the weights [w]. *)
Definition shortest (w d : Matrix) (v : Z) : Prop :=
  ∀ i j, 0 ≤ i < nodes → 0 ≤ j < nodes →
  (∃ l, path_to j l ∧ path_weight w v i l = val d v i j) ∧
  (∀ l, path_to j l → val d v i j ≤ path_weight w v i l).

Lemma path_weight_app w v i k l1 l2 :
  last l1 = Some k →
  path_weight w v i (l1 ++ l2) = path_weight w v i l1 + path_weight w v k l2.
Proof.
  revert i. induction l1 as [|x l1 IH]; intros i Hl; [done|].
  destruct l1 as [|y l1]; [injection Hl as ->; cbn; lia|].
  change (path_weight w v i ((x :: y :: l1) ++ l2))
    with (val w v i x + path_weight w v x ((y :: l1) ++ l2)).
  rewrite IH by done. cbn. lia.
Qed.

Lemma path_to_app k j l1 l2 : path_to k l1 → path_to j l2 → path_to j (l1 ++ l2).
Proof.
  intros [_ H1] [Hl H2]. split; [|by apply Forall_app].
  rewrite last_app, Hl. done.
Qed.

(** Improvements keep every distance the weight of a path, and below the
    weight of the direct link. *)
Definition achieved (w : Matrix) (v : Z) (d : Matrix) : Prop :=
  ∀ i j, 0 ≤ i < nodes → 0 ≤ j < nodes →
  (∃ l, path_to j l ∧ path_weight w v i l = val d v i j) ∧ val d v i j ≤ val w v i j.

Lemma achieved_refl w v : achieved w v w.
Proof.
  intros i j Hi Hj. split; [|lia]. exists [j]. cbn. split; [|lia].
  split; [done|]. by apply Forall_singleton.
Qed.

Lemma achieved_improves w v d d' :
  achieved w v d → improves nodes vnets v d d' → achieved w v d'.
Proof.
  intros Ha (i & j & k & (Hi & Hj & Hk) & Hlt & _ & _ & Hv) a b Hra Hrb.
  rewrite Hv. case_decide as Hd; [|by apply Ha]. destruct Hd as (_ & -> & ->).
  destruct (Ha i j Hi Hj) as [_ Hle], (Ha i k Hi Hk) as [(l1 & Hp1 & Hw1) _],
    (Ha k j Hk Hj) as [(l2 & Hp2 & Hw2) _]. split; [|lia].
  exists (l1 ++ l2). split; [by eapply path_to_app|]. rewrite <- Hw1, <- Hw2.
  apply path_weight_app. apply Hp1.
Qed.

Lemma achieved_rtc w v d : rtc (improves nodes vnets v) w d → achieved w v d.
Proof.
  apply (rtc_ind_r (achieved w v)); [apply achieved_refl|].
  intros d1 d2 _ Him Ha. by eapply achieved_improves.
Qed.

Lemma shortest_of_triangle w v d :
  achieved w v d → triangle nodes v d → shortest w d v.
Proof.
  intros Ha Ht i j Hi Hj. split; [apply (Ha i j Hi Hj)|].
  intros l [Hl HF]. revert i Hi. induction l as [|x l IH]; intros i Hi; [done|].
  apply Forall_cons in HF as [Hx HF]. destruct l as [|y l].
  - injection Hl as ->. cbn. destruct (Ha i j Hi Hj). lia.
  - specialize (IH Hl HF x Hx). change (path_weight w v i (x :: y :: l))
      with (val w v i x + path_weight w v x (y :: l)).
    pose proof (Ht i j x Hi Hj Hx). destruct (Ha i x Hi Hx). lia.
Qed.

(** Another virtual network is not touched. *)
Lemma improves_other v u d d' i j :
  rtc (improves nodes vnets v) d d' → u ≠ v → val d' u i j = val d u i j.
Proof.
  induction 1 as [|d d1 d' (a & b & k & _ & _ & _ & _ & Hv) _ IH]; intros Hne; [done|].
  rewrite IH, Hv, decide_False by naive_solver. done.
Qed.

Lemma shortest_ext w d w' d' v :
  (∀ i j, val w' v i j = val w v i j) → (∀ i j, val d' v i j = val d v i j) →
  shortest w d v → shortest w' d' v.
Proof.
  intros Hw Hd Hs i j Hi Hj. assert (∀ l x, path_weight w' v x l = path_weight w v x l) as Hp.
  { induction l as [|y l IH]; intros x; cbn; [done|]. by rewrite Hw, IH. }
  setoid_rewrite Hp. rewrite Hd. by apply Hs.
Qed.

Lemma extend_vnet_ok v p :
  paths_wf nodes vnets p → 0 ≤ v < vnets → 0 ≤ nodes → nonneg nodes v (dist p) →
  ∃ p', extend_vnet nodes v p = Ok p' ∧ paths_wf nodes vnets p' ∧
        shortest (dist p) (dist p') v ∧
        ∀ u i j, u ≠ v → val (dist p') u i j = val (dist p) u i j.
Proof.
  intros Hw Hv Hn Hnn. unfold extend_vnet.
  destruct (total_nonneg (dist p) vnets nodes nodes v) as (s & Hs & Hs0);
    [apply Hw|done|done|]. rewrite Hs. cbn [rbind].
  destruct (while_change_ok nodes vnets v (S (Z.to_nat s)) p s) as (p' & -> & Hw' & Hr & Ht);
    [done..|lia|]. exists p'. split; [done|]. split; [done|]. split.
  - apply shortest_of_triangle; [by apply achieved_rtc|done].
  - intros u i j Hne. by eapply improves_other.
Qed.

Lemma shortest_path_spec g weights lat isw :
  m_vnets g = vnets → 0 < vnets → 0 ≤ nodes →
  dims weights vnets nodes nodes → dims lat nodes nodes vnets →
  dims isw nodes nodes vnets → (∀ v, 0 ≤ v < vnets → nonneg nodes v weights) →
  ∃ p, shortest_path g weights lat isw = Ok p ∧ paths_wf nodes vnets p ∧
       ∀ v, 0 ≤ v < vnets → shortest weights (dist p) v.
Proof.
  intros Hg Hv0 Hn Hw Hl His Hnn. unfold shortest_path, extend_shortest_path. cbn [dist].
  assert (size_of weights 0 = Ok nodes) as ->.
  { destruct Hw as [Hw1 Hw2]. unfold size_of. destruct (vget_total weights 0) as [x Hx]; [lia|].
    rewrite Hx. cbn [rbind]. apply vget_Ok in Hx.
    by destruct (Forall_zlookup _ _ _ _ Hw2 Hx) as [-> _]. }
  cbn [rbind]. rewrite Hg.
  destruct (for_range_total (λ k p, paths_wf nodes vnets p ∧
      (∀ v, 0 ≤ v < k → shortest weights (dist p) v) ∧
      (∀ v i j, k ≤ v → val (dist p) v i j = val weights v i j))
    (extend_vnet nodes) (Z.to_nat vnets) 0 (mkPaths weights lat isw))
    as (p & -> & Hwf & Hs & _).
  - intros k p Hk (Hpw & Hdone & Htodo).
    destruct (extend_vnet_ok k p) as (p' & -> & Hpw' & Hs & Hoth); [done|lia|done| |].
    { intros i j Hi Hj. rewrite Htodo by lia. by apply Hnn; [lia|..]. }
    exists p'. split; [done|]. split_and!; [done| |].
    + intros v Hv. destruct (decide (v = k)) as [->|Hne].
      * eapply shortest_ext; [|done|exact Hs]. intros i j. by rewrite Htodo by lia.
      * eapply shortest_ext; [done| |apply Hdone; lia]. intros i j. by apply Hoth.
    + intros v i j Hv. rewrite Hoth by lia. apply Htodo. lia.
  - split_and!; [by split_and!|intros; lia|done].
  - exists p. split; [done|]. split; [done|]. intros v Hv. apply Hs. lia.
Qed.

(** C16: [Topology::shortest_path] terminates without a failed assertion, and
    for every virtual network and every pair of nodes the distance it returns
    is the weight of some path between them and at most the weight of every
    path. *)
Theorem shortest_path_correct g weights lat isw :
  m_vnets g = vnets → 0 < vnets → 0 ≤ nodes →
  dims weights vnets nodes nodes → dims lat nodes nodes vnets →
  dims isw nodes nodes vnets → (∀ v, 0 ≤ v < vnets → nonneg nodes v weights) →
  ∃ p, shortest_path g weights lat isw = Ok p ∧
       ∀ v, 0 ≤ v < vnets → shortest weights (dist p) v.
Proof.
  intros Hg Hv Hn Hw Hl His Hnn.
  destruct (shortest_path_spec g weights lat isw) as (p & Hp & _ & Hs); [done..|].
  by exists p.
Qed.

End shortest.

(** ** Routing entries *)

Section entries.
  Context `{MachineTypeLaws}.
  Import Topology.
  Variables (nodes vnets : Z).

(** The node of the output queue of machine [num] of type [ty]. *)
Definition dest_node (ty num : Z) : Z :=
  MachineType_base_number ty + num + MachineType_base_number MachineType_NUM.

(** The link from [src] to [next] lies on a shortest path to [final]. *)
Definition on_shortest (w d : Matrix) (v src next final : Z) : Prop :=
  val w v src next + val d v next final = val d v src final.

#[global] Instance on_shortest_dec w d v src next final :
  Decision (on_shortest w d v src next final).
Proof. unfold on_shortest. apply _. Defined.

Lemma link_is_shortest_spec w d v src next final :
  dims w vnets nodes nodes → dims d vnets nodes nodes → 0 ≤ v < vnets →
  0 ≤ src < nodes → 0 ≤ next < nodes → 0 ≤ final < nodes →
  link_is_shortest_path_to_node src next final w d v =
    Ok (bool_decide (on_shortest w d v src next final)).
Proof.
  intros Hw Hd Hv Hs Hn Hf. unfold link_is_shortest_path_to_node, on_shortest.
  rewrite (get3_val w vnets nodes nodes), !(get3_val d vnets nodes nodes) by done.
  cbn [rbind]. f_equal. case_bool_decide; by zcases.
Qed.

Section fixed.
  Variables (w d : Matrix) (v src next : Z).
  Hypothesis (Hw : dims w vnets nodes nodes) (Hd : dims d vnets nodes nodes).
  Hypothesis (Hv : 0 ≤ v < vnets) (Hsrc : 0 ≤ src < nodes) (Hnext : 0 ≤ next < nodes).
  Hypothesis Hnodes : ∀ ty num, 0 ≤ ty < MachineType_NUM →
    0 ≤ num < MachineType_base_count ty → 0 ≤ dest_node ty num < nodes.

(** [e] has the machines for which [P] holds, and that lie on a shortest path. *)
Definition entry_of (e : NetDest.t) (P : Z → Z → Prop) : Prop :=
  NetDest.wf e ∧ ∀ ty num, NetDest.elem ty num e ↔
    P ty num ∧ on_shortest w d v src next (dest_node ty num).

Lemma entry_of_ext e (P Q : Z → Z → Prop) :
  (∀ ty num, P ty num ↔ Q ty num) → entry_of e P → entry_of e Q.
Proof. intros HPQ [He HP]. split; [done|]. intros. rewrite HP. by rewrite HPQ. Qed.

Lemma add_machines_spec ty n i e (P : Z → Z → Prop) :
  0 ≤ ty < MachineType_NUM → 0 ≤ i → i + Z.of_nat n = MachineType_base_count ty →
  entry_of e P →
  ∃ e', add_machines src next w d v ty i (MachineType_base_number ty + i) n e = Ok e' ∧
        entry_of e' (λ ty' num, P ty' num ∨ ty' = ty ∧ i ≤ num < MachineType_base_count ty).
Proof.
  intros Hty. revert i e P. induction n as [|n IH]; intros i e P Hi Hc He; cbn [add_machines].
  - exists e. split; [done|]. eapply entry_of_ext; [|exact He]. intros; cbn; lia || naive_solver lia.
  - fold (dest_node ty i). rewrite link_is_shortest_spec by (done || apply Hnodes; lia).
    cbn [rbind].
    assert (∃ e1, (if bool_decide (on_shortest w d v src next (dest_node ty i))
                   then NetDest.add e (mkMachineID ty i) else Ok e) = Ok e1 ∧
                  entry_of e1 (λ ty' num, P ty' num ∨ ty' = ty ∧ num = i))
      as (e1 & -> & He1).
    { destruct He as [Hwf He]. case_bool_decide as Hs.
      - destruct (NetDest.add_spec e ty i) as (e1 & -> & Hwf1 & He1); [done|done|lia|].
        exists e1. split; [done|]. split; [done|]. intros ty' num. rewrite He1, He.
        naive_solver.
      - exists e. split; [done|]. split; [done|]. intros ty' num. rewrite He. naive_solver. }
    cbn [rbind]. rewrite <- Z.add_assoc.
    destruct (IH (i + 1) e1 (λ ty' num, P ty' num ∨ ty' = ty ∧ num = i)) as (e' & -> & He');
      [lia|lia|done|]. exists e'. split; [done|]. eapply entry_of_ext; [|exact He'].
    intros ty' num. cbn. split; [intros [[?|[? ?]]|[? ?]]|intros [?|[? ?]]]; auto;
      [right; lia|right; lia|]. destruct (decide (num = i)); [by left; right|right; lia].
Qed.

Lemma add_types_spec n m e (P : Z → Z → Prop) :
  0 ≤ m → m + Z.of_nat n = MachineType_NUM → entry_of e P →
  ∃ e', add_types src next w d v m (MachineType_base_number m) n e = Ok e' ∧
        entry_of e' (λ ty num, P ty num ∨
          m ≤ ty < MachineType_NUM ∧ 0 ≤ num < MachineType_base_count ty).
Proof.
  revert m e P. induction n as [|n IH]; intros m e P Hm Hc He; cbn [add_types].
  - exists e. split; [done|]. eapply entry_of_ext; [|exact He]. intros; cbn. naive_solver lia.
  - assert (0 ≤ MachineType_base_count m ≤ NUMBER_BITS_PER_SET)
      by (apply base_count_range; lia).
    destruct (add_machines_spec m (Z.to_nat (Z.max 0 (MachineType_base_count m))) 0 e P)
      as (e1 & He1 & Hent); [lia|lia|lia|done|]. rewrite Z.add_0_r in He1. rewrite He1.
    cbn [rbind]. rewrite Z.max_r, <- base_number_succ by lia.
    destruct (IH (m + 1) e1 _ ltac:(lia) ltac:(lia) Hent) as (e' & -> & He').
    exists e'. split; [done|]. eapply entry_of_ext; [|exact He']. intros ty num. cbn.
    split; [intros [[?|[? ?]]|[? ?]]|intros [?|[? ?]]]; auto; subst; [right; lia|right; lia|].
    destruct (decide (ty = m)) as [->|]; [left; right; done|right; lia].
Qed.

Lemma routing_entry_spec :
  ∃ e, shortest_path_to_node src next w d v = Ok e ∧ NetDest.wf e ∧
    ∀ ty num, 0 ≤ ty < MachineType_NUM → 0 ≤ num < MachineType_base_count ty →
      NetDest.elem ty num e ↔ on_shortest w d v src next (dest_node ty num).
Proof.
  unfold shortest_path_to_node. destruct NetDest.make_empty as (e0 & -> & Hwf & Hno).
  cbn [rbind].
  destruct (add_types_spec (Z.to_nat MachineType_NUM) 0 e0 (λ _ _, False))
    as (e & Hadd & Hwf' & He); [lia|pose proof machine_num_pos; lia|split; naive_solver|].
  rewrite base_number_0 in Hadd. exists e. split; [done|]. split; [done|]. intros ty num Hty Hnum. rewrite He. naive_solver.
Qed.

(** The routing entry that [shortest_path_to_node] makes for a link is
    well formed and names exactly the machines to which the link lies on a
    shortest path. *)
Theorem routing_entry_correct :
  ∃ e, shortest_path_to_node src next w d v = Ok e ∧ NetDest.wf e ∧
    ∀ ty num, 0 ≤ ty < MachineType_NUM → 0 ≤ num < MachineType_base_count ty →
      NetDest.elem ty num e ↔ on_shortest w d v src next (dest_node ty num).
Proof. apply routing_entry_spec. Qed.

End fixed.

(** ** Table routing delivers *)

(** Weights as [initial_matrices] leaves them: zero on the diagonal, positive
    elsewhere, [INFINITE_LATENCY] where there is no link. *)
Definition link_weights (w : Matrix) (v : Z) : Prop :=
  ∀ i j, 0 ≤ i < nodes → 0 ≤ j < nodes →
  (i = j → val w v i j = 0) ∧ (i ≠ j → 0 < val w v i j).

(** There is a link from [i] to [j]. *)
Definition real_link (w : Matrix) (v i j : Z) : Prop :=
  0 < val w v i j < INFINITE_LATENCY.

(** The node a packet for [f] is in after [n] hops from [i], when the [n]-th
    hop from node [x] goes to [choice n x]. *)
Fixpoint position (choice : nat → Z → Z) (f i : Z) (n : nat) : Z :=
  match n with
  | O => i
  | S n' => let x := position choice f i n' in if x =? f then f else choice n' x
  end.

Section delivery.
  Variables (w d : Matrix) (v : Z).
  Hypothesis (Hs : shortest nodes w d v) (Hlw : link_weights w v).

Lemma path_weight_nonneg l i :
  0 ≤ i < nodes → Forall (λ x, 0 ≤ x < nodes) l → 0 ≤ path_weight w v i l.
Proof.
  revert i. induction l as [|x l IH]; intros i Hi HF; cbn; [lia|].
  apply Forall_cons in HF as [Hx HF]. specialize (IH x Hx HF).
  destruct (Hlw i x Hi Hx) as [H1 H2]. destruct (decide (i = x)) as [He|He];
    [rewrite (H1 He)|specialize (H2 He)]; lia.
Qed.

Lemma dist_nonneg i j : 0 ≤ i < nodes → 0 ≤ j < nodes → 0 ≤ val d v i j.
Proof.
  intros Hi Hj. destruct (Hs i j Hi Hj) as [(l & [_ HF] & <-) _].
  by apply path_weight_nonneg.
Qed.

Lemma dist_self f : 0 ≤ f < nodes → val d v f f = 0.
Proof.
  intros Hf. pose proof (dist_nonneg f f Hf Hf). destruct (Hs f f Hf Hf) as [_ Hmin].
  specialize (Hmin [f]). cbn in Hmin. destruct (Hlw f f Hf Hf) as [Hz _].
  rewrite (Hz eq_refl) in Hmin. enough (val d v f f ≤ 0 + 0) by lia. apply Hmin.
  split; [done|]. by apply Forall_singleton.
Qed.

Lemma dist_hop i x f :
  0 ≤ i < nodes → 0 ≤ x < nodes → 0 ≤ f < nodes → val d v i f ≤ val w v i x + val d v x f.
Proof.
  intros Hi Hx Hf. destruct (Hs x f Hx Hf) as [(l & [Hl HF] & <-) _].
  destruct (Hs i f Hi Hf) as [_ Hmin]. apply (Hmin (x :: l)).
  split; [by destruct l|by constructor].
Qed.

(** Before the destination there is always a link to take. *)
Lemma shortest_next i f :
  0 ≤ i < nodes → 0 ≤ f < nodes → i ≠ f → val d v i f < INFINITE_LATENCY →
  ∃ next, 0 ≤ next < nodes ∧ real_link w v i next ∧ on_shortest w d v i next f.
Proof.
  intros Hi Hf Hne Hfin. destruct (Hs i f Hi Hf) as [(l & [Hl HF] & Hpw) _].
  induction l as [|x l IH]; [done|]. apply Forall_cons in HF as [Hx HF]. cbn in Hpw.
  destruct (decide (x = i)) as [->|Hxi].
  - destruct (Hlw i i Hi Hi) as [Hz _]. rewrite (Hz eq_refl) in Hpw.
    destruct l as [|y l]; [injection Hl as ->; done|]. by apply IH.
  - exists x. split; [done|]. destruct (Hlw i x Hi Hx) as [_ Hpos].
    pose proof (path_weight_nonneg l x Hx HF). specialize (Hpos ltac:(congruence)).
    split; [unfold real_link; lia|]. unfold on_shortest.
    pose proof (dist_hop i x f Hi Hx Hf).
    enough (val d v x f ≤ path_weight w v x l) by lia. destruct l as [|y l].
    + injection Hl as ->. rewrite dist_self by done. cbn. lia.
    + destruct (Hs x f Hx Hf) as [_ Hmin]. by apply Hmin.
Qed.

(** Taking any such link brings the packet closer. *)
Lemma position_closer choice f i n :
  (∀ m x, 0 ≤ x < nodes → x ≠ f → val d v x f < INFINITE_LATENCY →
     0 ≤ choice m x < nodes ∧ real_link w v x (choice m x) ∧
     on_shortest w d v x (choice m x) f) →
  0 ≤ i < nodes → 0 ≤ f < nodes → val d v i f < INFINITE_LATENCY →
  let x := position choice f i n in
  0 ≤ x < nodes ∧ (x = f ∨ val d v x f + Z.of_nat n ≤ val d v i f).
Proof.
  intros Hch Hi Hf Hfin. induction n as [|n [Hx Hd]]; cbn; [split; [done|right; lia]|].
  destruct (Z.eqb_spec (position choice f i n) f) as [He|Hne]; [split; [done|by left]|].
  destruct Hd as [?|Hd]; [done|].
  destruct (Hch n (position choice f i n)) as (Hr & [Hpos _] & Hon); [done|done|lia|].
  split; [done|]. right. unfold on_shortest in Hon. lia.
Qed.

End delivery.

(** The routing tables deliver.  Let [d] hold the shortest distances.  From
    every node with a path to [f], there is a link whose table entry names [f],
    and a packet that takes, at every node and at every time, any such link
    (the first, a random one) is in [f] after at most the distance in hops. *)
Theorem table_routing_delivers w d v f i choice :
  dims w vnets nodes nodes → dims d vnets nodes nodes → 0 ≤ v < vnets →
  shortest nodes w d v → link_weights w v →
  0 ≤ i < nodes → 0 ≤ f < nodes → val d v i f < INFINITE_LATENCY →
  (i ≠ f → ∃ next, 0 ≤ next < nodes ∧ real_link w v i next ∧
     link_is_shortest_path_to_node i next f w d v = Ok true) ∧
  ((∀ n x, 0 ≤ x < nodes → x ≠ f → val d v x f < INFINITE_LATENCY →
      0 ≤ choice n x < nodes ∧ real_link w v x (choice n x) ∧
      link_is_shortest_path_to_node x (choice n x) f w d v = Ok true) →
   position choice f i (Z.to_nat (val d v i f)) = f).
Proof.
  intros Hw Hd Hv Hs Hlw Hi Hf Hfin. split.
  - intros Hne. destruct (shortest_next w d v Hs Hlw i f) as (next & Hn & Hr & Hon); [done..|].
    exists next. split; [done|]. split; [done|].
    rewrite link_is_shortest_spec by done. by rewrite bool_decide_eq_true_2.
  - intros Hch. pose proof (dist_nonneg w d v Hs Hlw i f Hi Hf) as H1.
    destruct (position_closer w d v choice f i (Z.to_nat (val d v i f)))
      as [Hx [He|Hle]]; [|done..|].
    + intros m x Hx Hxf Hxfin. destruct (Hch m x) as (Hr & Hl & Hon); [done..|].
      split; [done|]. split; [done|]. rewrite link_is_shortest_spec in Hon by done.
      injection Hon as Hon. by apply bool_decide_eq_true in Hon.
    + set (x := position choice f i (Z.to_nat (val d v i f))) in *.
      destruct (decide (x = f)) as [|Hne]; [done|]. exfalso.
      destruct (Hs x f Hx Hf) as [(l & [Hl HF] & Hpw) _].
      destruct (shortest_next w d v Hs Hlw x f) as (next & Hn & [Hr _] & Hon);
        [done|done|done|lia|].
      pose proof (dist_nonneg w d v Hs Hlw next f Hn Hf). unfold on_shortest in Hon. lia.
Qed.
End entries.

(** ** A line of two routers

    Two controllers on each router and a link in each direction. *)

Module TwoNodes.
Import ExampleMachines Topology.
#[local] Existing Instance machines.
#[local] Open Scope string_scope.

Definition lnk (id weight : Z) : BasicLink.t := BasicLink.mk id 1 16 weight [].

Definition topology : result t :=
  make 4 2 1
    [mkExtLink (lnk 0 1) 0 0 0; mkExtLink (lnk 1 1) 0 1 1;
     mkExtLink (lnk 2 1) 1 0 0; mkExtLink (lnk 3 1) 1 1 1]
    [mkIntLink (lnk 4 2) 0 1 "East" "West"; mkIntLink (lnk 5 2) 1 0 "West" "East"].

#[local] Close Scope string_scope.

Definition graph : t :=
  match topology with Ok g => g | Err _ => mk 0 0 0 [] [] [] end.

Definition matrices : Matrix * Matrix * Matrix :=
  match initial_matrices graph with Ok m => m | Err _ => ([], [], []) end.

Definition w : Matrix := Eval vm_compute in matrices.1.1.

Definition solved : paths :=
  match shortest_path graph matrices.1.1 matrices.1.2 matrices.2 with
  | Ok p => p
  | Err _ => mkPaths [] [] []
  end.

Definition d : Matrix := Eval vm_compute in dist solved.

Lemma dims_dec_ok m p q r :
  bool_decide (zlen m = p ∧ Forall (λ x, zlen x = q ∧ Forall (λ y, zlen y = r) x) m) = true →
  dims m p q r.
Proof. apply bool_decide_eq_true. Qed.

(** A property of all cells, checked cell by cell. *)
Lemma all_cells (n : Z) (P : Z → Z → bool) :
  forallb (λ i, forallb (P i) (seqZ 0 n)) (seqZ 0 n) = true →
  ∀ i j, 0 ≤ i < n → 0 ≤ j < n → P i j = true.
Proof.
  intros HP i j Hi Hj. rewrite forallb_forall in HP.
  assert (∀ x, 0 ≤ x < n → In x (seqZ 0 n)) as Hin.
  { intros x Hx. apply list_elem_of_In, elem_of_seqZ. lia. }
  specialize (HP i (Hin i Hi)). rewrite forallb_forall in HP. auto.
Qed.

Lemma one_vnet v : 0 ≤ v < 1 → v = 0.
Proof. lia. Qed.

Lemma w_nonneg : ∀ v, 0 ≤ v < 1 → nonneg 10 v w.
Proof.
  intros v ->%one_vnet. unfold nonneg.
  intros i j Hi Hj. apply Z.leb_le. revert i j Hi Hj. apply all_cells.
  vm_compute. reflexivity.
Qed.

Lemma shortest_path_correct_witness :
  ∃ p, shortest_path graph w matrices.1.2 matrices.2 = Ok p ∧
       val (dist p) 0 0 5 = 4 ∧ shortest 10 w (dist p) 0.
Proof.
  destruct (shortest_path_correct 10 1 graph w matrices.1.2 matrices.2) as (p & Hp & Hs);
    [vm_compute; reflexivity|lia|lia|apply dims_dec_ok; vm_compute; reflexivity..
    |apply w_nonneg|].
  exists p. split; [exact Hp|]. split; [|apply Hs; lia].
  vm_compute in Hp. injection Hp as <-. vm_compute. reflexivity.
Defined.

Lemma w_link_weights : link_weights 10 w 0.
Proof.
  intros i j Hi Hj. apply (bool_decide_unpack _), Is_true_true. revert i j Hi Hj.
  apply all_cells. vm_compute. reflexivity.
Qed.

Lemma w_dims : dims w 1 10 10.
Proof. apply dims_dec_ok. vm_compute. reflexivity. Qed.

Lemma d_dims : dims d 1 10 10.
Proof. apply dims_dec_ok. vm_compute. reflexivity. Qed.

Lemma d_shortest : shortest 10 w d 0.
Proof.
  destruct (extend_vnet_ok 10 1 0 (mkPaths w matrices.1.2 matrices.2)) as (p & Hp & _ & Hs & _);
    [|lia|lia|apply w_nonneg; lia|].
  - split_and!; apply dims_dec_ok; vm_compute; reflexivity.
  - vm_compute in Hp. injection Hp as <-. exact Hs.
Qed.

Lemma routing_entry_correct_witness :
  ∃ e, shortest_path_to_node 8 9 w d 0 = Ok e ∧
       (NetDest.elem 1 1 e ↔ on_shortest w d 0 8 9 (dest_node 1 1)).
Proof.
  destruct (@routing_entry_correct machines machines_laws 10 1 w d 0 8 9 w_dims d_dims)
    as (e & He & _ & Hel); [lia|lia|lia| |].
  - unfold dest_node. cbn. lia.
  - exists e. split; [exact He|]. apply Hel; cbn; lia.
Defined.

(** The next node on the way to node 5 (the second controller of router 1). *)
Definition next_hop (n : nat) (x : Z) : Z :=
  match list_find (λ y, on_shortest w d 0 x y 5 ∧
                        0 < val w 0 x y ∧ val w 0 x y < INFINITE_LATENCY) (seqZ 0 10) with
  | Some (_, y) => y
  | None => 0
  end.

Lemma table_routing_delivers_witness :
  position next_hop 5 0 4 = 5.
Proof.
  refine (proj2 (table_routing_delivers 10 1 w d 0 5 0 next_hop w_dims d_dims _ d_shortest
    w_link_weights _ _ _) _); [lia|lia|lia|vm_compute; reflexivity|].
  intros n x Hx Hne Hfin. unfold real_link. revert Hne Hfin.
  apply (bool_decide_unpack _), Is_true_true.
  refine (all_cells 10 (λ x _, bool_decide (x ≠ 5 → val d 0 x 5 < INFINITE_LATENCY →
    0 ≤ next_hop n x < 10 ∧ 0 < val w 0 x (next_hop n x) < INFINITE_LATENCY ∧
    link_is_shortest_path_to_node x (next_hop n x) 5 w d 0 = Ok true)) _ x 0 Hx _);
    [vm_compute; reflexivity|lia].
Defined.
End TwoNodes.
