(* ===== verification/TopologyFacts.v ===== *)
(** * What the topology hands to the network

    The matrices [createLinks] starts from hold the weights of the links of the
    graph, and the calls it makes are one for each link, with the routing entries
    of the virtual networks the link carries. *)

From S2P Require Import Prelude.
From S2P Require Import NetDest.
From S2P Require Import Topology.
From S2P Require Import ShortestPath.

Import Topology.

(** ** Loops over a list *)

Lemma foldl_result {A S} (f : S → A → result S) (P : list A → S → Prop) l s0 s' :
  P [] s0 →
  (∀ pre x post s s1, l = pre ++ x :: post → P pre s → f s x = Ok s1 → P (pre ++ [x]) s1) →
  foldl (λ acc x, s ← acc; f s x) (Ok s0) l = Ok s' → P l s'.
Proof.
  intros H0. revert s'. induction l as [|x l IH] using rev_ind; intros s' Hstep.
  - by intros [= <-].
  - rewrite foldl_snoc. intros Hl. step_bind Hl as s Hs.
    eapply (Hstep l x []); [done| |exact Hl]. apply IH; [|exact Hs].
    intros pre y post t t1 ->. eapply (Hstep pre y (post ++ [x])). by rewrite <- app_assoc.
Qed.

(** ** The virtual networks of a link *)

Definition carries (l : BasicLink.t) (v : Z) : Prop :=
  BasicLink.mVnets l = [] ∨ v ∈ BasicLink.mVnets l.

#[export] Instance carries_dec l v : Decision (carries l v).
Proof. unfold carries. apply _. Defined.

(** [x] is the weight of the links of [es] that carry [v], or [old] when none does. *)
Definition cell (es : list LinkEntry) (v old x : Z) : Prop :=
  (∀ e, e ∈ es → carries (link e) v → x = BasicLink.m_weight (link e)) ∧
  ((∃ e, e ∈ es ∧ carries (link e) v) ∨ x = old).

Section filling.
  Context `{MachineTypes}.
  Variables (g : t) (nodes : Z).
  Notation vnets := (m_vnets g).

(** The shapes of the matrices and of the flags. *)
Definition fill_dims (st : Matrix * Matrix * list bool) : Prop :=
  dims st.1.1 vnets nodes nodes ∧ dims st.1.2 nodes nodes vnets ∧ zlen st.2 = vnets.

Definition cell_of (st : Matrix * Matrix * list bool) (v i j : Z) : Z := val st.1.1 v i j.
Definition done_at (st : Matrix * Matrix * list bool) (v : Z) : Prop :=
  zlookup st.2 v = Some true.

(** The link [l] has been entered for the networks of [V], none of which had one. *)
Definition entered (src dst : Z) (l : BasicLink.t) (V : Z → Prop)
    (st st' : Matrix * Matrix * list bool) : Prop :=
  fill_dims st' ∧
  (∀ v, V v → 0 ≤ v < vnets ∧ ¬ done_at st v) ∧
  (∀ v, V v → cell_of st' v src dst = BasicLink.m_weight l) ∧
  (∀ v i j, ¬ (i = src ∧ j = dst ∧ V v) → cell_of st' v i j = cell_of st v i j) ∧
  (∀ v, done_at st' v ↔ done_at st v ∨ V v).

Lemma entered_ext src dst l (V V' : Z → Prop) st st' :
  (∀ v, V v ↔ V' v) → entered src dst l V st st' → entered src dst l V' st st'.
Proof.
  intros HV (H1 & H2 & H3 & H4 & H5). split_and!; [done| | | |].
  - intros v Hv%HV. by apply H2.
  - intros v Hv%HV. by apply H3.
  - intros v i j Hn. apply H4. by rewrite HV.
  - intros v. by rewrite <- HV.
Qed.

Lemma entered_none src dst l st : fill_dims st → entered src dst l (λ _, False) st st.
Proof. intros Hd. split_and!; [done|done|done|done|]. naive_solver. Qed.

Lemma set_vnet_spec src dst l (V : Z → Prop) v st st1 st2 :
  0 ≤ src < nodes → 0 ≤ dst < nodes → entered src dst l V st st1 →
  set_vnet src dst l v st1 = Ok st2 → entered src dst l (λ x, V x ∨ x = v) st st2.
Proof.
  destruct st1 as [[w lat] done]. intros Hs Hd ((D1 & D2 & D3) & HV & Hw & Ho & Hdone) Hset.
  cbn in D1, D2, D3. cbn [set_vnet] in Hset. step_bind Hset as b Hb%vget_Ok.
  step_bind Hset as [] Hf%fatal_if_Ok. subst b. pose proof (zlookup_lt _ _ _ Hb) as Hv.
  destruct (set3_spec lat nodes nodes vnets src dst v (BasicLink.m_latency l))
    as (lat' & E1 & D2' & _ & _); [done|lia..|].
  destruct (set3_spec w vnets nodes nodes v src dst (BasicLink.m_weight l))
    as (w' & E2 & D1' & Hval & _); [done|lia..|].
  rewrite E1 in Hset. cbn [rbind] in Hset. rewrite E2 in Hset. cbn [rbind] in Hset.
  step_bind Hset as done' Hset'. injection Hset as <-.
  apply vset_Ok in Hset' as [Hr ->]. unfold entered, done_at, cell_of in *. cbn [fst snd] in *. split_and!.
  - split_and!; [done..|]. cbn. by rewrite zlen_insert.
  - intros x [Hx| ->]; [by apply HV|]. split; [lia|]. intros Hx.
    rewrite (proj2 (Hdone v)) in Hb by (by left). done.
  - intros x Hx. rewrite Hval. case_decide as E; [done|].
    destruct Hx as [Hx| ->]; [by apply Hw|]. by destruct E.
  - intros x i j Hn. rewrite Hval, decide_False; [apply Ho|]; naive_solver.
  - intros x. rewrite zlookup_insert by done. case_decide as E; [naive_solver|].
    rewrite Hdone. naive_solver.
Qed.

Lemma fill_link_spec src dst l st st' :
  0 ≤ src < nodes → 0 ≤ dst < nodes → fill_dims st →
  fill_link g src dst l st = Ok st' →
  entered src dst l (λ v, 0 ≤ v < vnets ∧ carries l v) st st'.
Proof.
  intros Hs Hd Hst. unfold fill_link, carries.
  destruct (Z.eqb_spec (zlen (BasicLink.mVnets l)) 0) as [E|E].
  - intros Hf.
    assert (BasicLink.mVnets l = []) as ->.
    { destruct (BasicLink.mVnets l) as [|x xs]; [done|]. rewrite zlen_cons in E.
      pose proof (zlen_nonneg xs). lia. }
    assert (0 ≤ vnets) as Hv0 by (destruct Hst as (_ & _ & <-); apply zlen_nonneg).
    eapply (for_range_inv (λ k, entered src dst l (λ v, 0 ≤ v < k) st)) in Hf.
    + eapply entered_ext; [|exact Hf]. intros v. cbn. rewrite Z2Nat.id by lia. naive_solver.
    + intros k s1 s2 Hk Hent Hset. eapply entered_ext; [|by eapply set_vnet_spec].
      intros v. cbn. lia.
    + eapply entered_ext; [|by apply entered_none]. intros v. cbn. lia.
  - intros Hf.
    apply (foldl_result (λ st vnet, _ ← fatal_if (vnets <=? vnet); set_vnet src dst l vnet st)
      (λ pre, entered src dst l (λ v, v ∈ pre) st)) in Hf.
    + pose proof Hf as (_ & HV & _). eapply entered_ext; [|exact Hf]. intros v. cbn. split.
      * intros Hv. split; [by apply HV|by right].
      * intros [_ [E0|Hv]]; [by rewrite E0 in E|done].
    + eapply entered_ext; [|by apply entered_none]. intros v. cbn.
      split; [done|by intros ?%elem_of_nil].
    + intros pre v post s1 s2 _ Hent Hset. step_bind Hset as [] _.
      eapply entered_ext; [|by eapply set_vnet_spec]. intros x. cbn.
      by rewrite elem_of_app, list_elem_of_singleton.
Qed.

(** The links of one source and destination. *)
Definition grouped (src dst : Z) (es : list LinkEntry) (st st' : Matrix * Matrix * list bool)
    : Prop :=
  fill_dims st' ∧
  (∀ v i j, ¬ (i = src ∧ j = dst) → cell_of st' v i j = cell_of st v i j) ∧
  (∀ v, 0 ≤ v < vnets → cell es v (cell_of st v src dst) (cell_of st' v src dst)) ∧
  (∀ v, 0 ≤ v < vnets → done_at st' v ↔ ∃ e, e ∈ es ∧ carries (link e) v).

Lemma grouped_step src dst es e st st1 st2 :
  0 ≤ src < nodes → 0 ≤ dst < nodes → grouped src dst es st st1 →
  fill_link g src dst (link e) st1 = Ok st2 → grouped src dst (es ++ [e]) st st2.
Proof.
  intros Hs Hd (G1 & G2 & G3 & G4) Hf.
  apply fill_link_spec in Hf as (F1 & F2 & F3 & F4 & F5); [|done..].
  assert (∀ e', e' ∈ es ++ [e] ↔ e' ∈ es ∨ e' = e) as Hin.
  { intros e'. by rewrite elem_of_app, list_elem_of_singleton. }
  split_and!; [done| | |].
  - intros v i j Hn. rewrite F4 by naive_solver. by apply G2.
  - intros v Hv. destruct (decide (carries (link e) v)) as [Hc|Hc].
    + rewrite F3 by done. split; [|left; exists e; rewrite Hin; auto].
      intros e' [He'| ->]%Hin Hc'; [|done]. destruct (F2 v) as [_ Hnot]; [done|].
      destruct Hnot. apply G4; [done|]. by exists e'.
    + rewrite F4 by naive_solver. destruct (G3 v Hv) as [C1 C2]. split.
      * intros e' [He'| ->]%Hin Hc'; [by apply C1|done].
      * destruct C2 as [(e' & He' & Hc')|C2]; [left|by right]. exists e'. rewrite Hin. auto.
  - intros v Hv. rewrite F5, G4 by done. setoid_rewrite Hin. naive_solver.
Qed.

Lemma fill_group_spec src dst es w lat w' lat' :
  0 ≤ src < nodes → 0 ≤ dst < nodes → dims w vnets nodes nodes → dims lat nodes nodes vnets →
  0 ≤ vnets → fill_group g (w, lat) ((src, dst), es) = Ok (w', lat') →
  dims w' vnets nodes nodes ∧ dims lat' nodes nodes vnets ∧
  (∀ v i j, ¬ (i = src ∧ j = dst) → val w' v i j = val w v i j) ∧
  (∀ v, 0 ≤ v < vnets → cell es v (val w v src dst) (val w' v src dst)).
Proof.
  intros Hs Hd D1 D2 Hv0 Hf. cbn [fill_group] in Hf. step_bind Hf as [[w1 lat1] done] Hl.
  injection Hf as <- <-.
  set (st := (w, lat, replicate (Z.to_nat vnets) false)) in *.
  change (Ok (_, _, _)) with (Ok st) in Hl at 1.
  apply (foldl_result (λ st e, fill_link g src dst (link e) st)
    (λ pre, grouped src dst pre st)) in Hl as ((F1 & F2 & _) & G2 & G3 & _).
  - done.
  - split_and!; [split_and!; [done..|]; cbn; unfold zlen; rewrite length_replicate; lia|done| |].
    + intros v Hv. split; [by intros e ?%elem_of_nil|by right].
    + intros v Hv. unfold done_at. cbn. split; [|by intros (e & ?%elem_of_nil & _)].
      by intros [? _]%zlookup_replicate.
  - intros pre e post s1 s2 _ Hg Hf. by eapply grouped_step.
Qed.

(** ** The initial matrices *)

Lemma new3_dims p q r x : 0 ≤ p → 0 ≤ q → 0 ≤ r → dims (new3 p q r x) p q r.
Proof.
  intros Hp Hq Hr. unfold new3, dims, zlen. rewrite length_replicate. split; [lia|].
  apply Forall_replicate. rewrite length_replicate. split; [lia|].
  apply Forall_replicate. rewrite length_replicate. lia.
Qed.

Lemma new3_val p q r x a b c :
  0 ≤ a < p → 0 ≤ b < q → 0 ≤ c < r → val (new3 p q r x) a b c = x.
Proof.
  intros Ha Hb Hc. unfold val, new3.
  erewrite get3_lookup; [done|apply zlookup_replicate; (split; [done|lia])..].
Qed.

(** The zero diagonal. *)
Definition diagonal (w : Matrix) : Prop :=
  dims w vnets nodes nodes ∧
  ∀ v i j, 0 ≤ v < vnets → 0 ≤ i < nodes → 0 ≤ j < nodes →
    val w v i j = if decide (i = j) then 0 else INFINITE_LATENCY.

Lemma clear_diagonal w :
  0 ≤ vnets → 0 ≤ nodes →
  for_range 0 (Z.to_nat nodes)
    (λ i, for_range 0 (Z.to_nat vnets) (λ v w, set3 w v i i 0))
    (new3 vnets nodes nodes INFINITE_LATENCY) = Ok w → diagonal w.
Proof.
  intros Hv0 Hn0 Hf.
  set (P := λ (seen : Z → Z → Prop) (w : Matrix), dims w vnets nodes nodes ∧
    ∀ v i j, 0 ≤ v < vnets → 0 ≤ i < nodes → 0 ≤ j < nodes →
      (i = j ∧ seen i v → val w v i j = 0) ∧
      (¬ (i = j ∧ seen i v) → val w v i j = INFINITE_LATENCY)).
  apply (for_range_inv (λ k, P (λ i _, i < k))) in Hf.
  - destruct Hf as [Hd Hval]. split; [done|]. intros v i j Hv Hi Hj.
    destruct (Hval v i j Hv Hi Hj) as [H1 H2]. case_decide; [apply H1|apply H2]; lia.
  - intros k w1 w2 Hk Hw1 Hf1.
    apply (for_range_inv (λ u, P (λ i v, i < k ∨ i = k ∧ v < u))) in Hf1.
    + destruct Hf1 as [Hd Hval]. split; [done|]. intros v i j Hv Hi Hj.
      destruct (Hval v i j Hv Hi Hj) as [H1 H2]. split; intros; [apply H1|apply H2]; lia.
    + intros u s1 s2 Hu [Hd Hval] Hset.
      destruct (set3_spec s1 vnets nodes nodes u k k 0) as (m & E & D & Hm & _); [done|lia..|].
      rewrite E in Hset. injection Hset as <-. split; [done|]. intros v i j Hv Hi Hj.
      destruct (Hval v i j Hv Hi Hj) as [H1 H2]. rewrite Hm.
      case_decide; split; intros; [done|lia|apply H1|apply H2]; lia.
    + destruct Hw1 as [Hd Hval]. split; [done|]. intros v i j Hv Hi Hj.
      destruct (Hval v i j Hv Hi Hj) as [H1 H2]. split; intros; [apply H1|apply H2]; lia.
  - split; [by apply new3_dims|]. intros v i j Hv Hi Hj. split; [lia|]. intros _.
    by apply new3_val.
Qed.

End filling.

(** ** The link map *)

Lemma max_fold_ge (m : LinkMap) z :
  z ≤ foldl (λ acc p, Z.max (Z.max acc p.1.1) p.1.2) z m.
Proof.
  revert z. induction m as [|x m IH]; intros z; cbn [foldl]; [lia|].
  specialize (IH (Z.max (Z.max z x.1.1) x.1.2)). lia.
Qed.

Lemma max_switch_id_le (m : LinkMap) k es :
  (k, es) ∈ m → k.1 ≤ max_switch_id m ∧ k.2 ≤ max_switch_id m.
Proof.
  unfold max_switch_id. generalize 0 as z.
  induction m as [|x m IH]; intros z; [by intros ?%elem_of_nil|].
  intros [<-|Hin]%elem_of_cons; cbn [foldl]; [|by apply IH].
  pose proof (max_fold_ge m (Z.max (Z.max z (k, es).1.1) (k, es).1.2)). cbn in *. lia.
Qed.

Lemma max_switch_id_nonneg (m : LinkMap) : 0 ≤ max_switch_id m.
Proof. apply max_fold_ge. Qed.

Lemma find_elem (m : LinkMap) k es : NoDup m.*1 → (k, es) ∈ m → find m k = es.
Proof.
  intros Hnd Hin. unfold find. destruct (list_find _ m) as [[n [k' es']]|] eqn:E.
  - apply list_find_Some in E as (Hl & Hk & _). cbn in Hk. subst k'.
    apply list_elem_of_lookup_2 in Hl.
    by injection (NoDup_fmap_eq fst m _ _ Hnd Hl Hin eq_refl).
  - apply list_find_None in E. rewrite Forall_forall in E. by destruct (E _ Hin).
Qed.

Lemma find_none (m : LinkMap) k : k ∉ m.*1 → find m k = [].
Proof.
  intros Hn. unfold find. destruct (list_find _ m) as [[n [k' es']]|] eqn:E; [|done].
  apply list_find_Some in E as (Hl & Hk & _). cbn in Hk. subst k'.
  destruct Hn. apply list_elem_of_lookup_2 in Hl. by apply (list_elem_of_fmap_2 fst) in Hl.
Qed.

Lemma find_in (m : LinkMap) k e : e ∈ find m k → (k, find m k) ∈ m.
Proof.
  unfold find. destruct (list_find _ m) as [[n [k' es']]|] eqn:E; [|by intros ?%elem_of_nil].
  apply list_find_Some in E as (Hl & Hk & _). cbn in Hk. subst k'. intros _.
  by eapply list_elem_of_lookup_2.
Qed.

(** The shape of the graph [Topology] builds of links of positive weight: a node is an
    input queue, an output queue or a router; links go from an input queue to a router,
    from a router to an output queue or from a router to another. *)
Record graph_wf `{MachineTypes} (g : t) : Prop := {
  gw_vnets : 0 ≤ m_vnets g;
  gw_nodes : 0 ≤ m_nodes g;
  gw_nodup : NoDup (m_link_map g).*1;
  gw_key i j es : ((i, j), es) ∈ m_link_map g →
    0 ≤ i ∧ m_nodes g ≤ j ∧ i ≠ j ∧ (i < m_nodes g ∨ 2 * m_nodes g ≤ i) ∧
    (i < m_nodes g → 2 * m_nodes g ≤ j);
  gw_weight k es e : (k, es) ∈ m_link_map g → e ∈ es → 0 < BasicLink.m_weight (link e);
}.

(** The number of nodes of the matrices. *)
Definition num_switches (g : t) : Z := max_switch_id (m_link_map g) + 1.

Section matrices.
  Context `{MachineTypes}.
  Variable g : t.
  Hypothesis Hg : graph_wf g.
  Notation vnets := (m_vnets g).
  Notation nodes := (num_switches g).

Lemma key_range i j es :
  ((i, j), es) ∈ m_link_map g → 0 ≤ i < nodes ∧ 0 ≤ j < nodes.
Proof.
  intros Hin. destruct (max_switch_id_le _ _ _ Hin) as [H1 H2].
  destruct (gw_key g Hg i j es Hin) as (? & ? & _). pose proof (gw_nodes g Hg).
  unfold num_switches. cbn in *. lia.
Qed.

Lemma link_range i j e : e ∈ find (m_link_map g) (i, j) → 0 ≤ i < nodes ∧ 0 ≤ j < nodes.
Proof. intros He%find_in. by eapply key_range. Qed.

Lemma fill_groups w0 lat0 w lat :
  diagonal g nodes w0 → dims lat0 nodes nodes vnets →
  foldl (λ acc group, st ← acc; fill_group g st group) (Ok (w0, lat0)) (m_link_map g) =
    Ok (w, lat) →
  dims w vnets nodes nodes ∧ dims lat nodes nodes vnets ∧
  ∀ v i j, 0 ≤ v < vnets → 0 ≤ i < nodes → 0 ≤ j < nodes →
    cell (find (m_link_map g) (i, j)) v (val w0 v i j) (val w v i j).
Proof.
  intros [D0 _] L0 Hf.
  apply (foldl_result (fill_group g) (λ pre st, dims st.1 vnets nodes nodes ∧
    dims st.2 nodes nodes vnets ∧ ∀ v i j, 0 ≤ v < vnets →
      (∀ es, ((i, j), es) ∈ pre → cell es v (val w0 v i j) (val st.1 v i j)) ∧
      ((i, j) ∉ pre.*1 → val st.1 v i j = val w0 v i j))) in Hf as (D & L & Hval).
  - split_and!; [done..|]. intros v i j Hv Hi Hj. destruct (Hval v i j Hv) as [H1 H2].
    destruct (decide ((i, j) ∈ (m_link_map g).*1)) as [Hin|Hn].
    + apply list_elem_of_fmap in Hin as ([k es] & [= <-] & Hin).
      rewrite (find_elem _ _ es); [by apply H1|apply gw_nodup, Hg|done].
    + rewrite find_none by done. split; [by intros e ?%elem_of_nil|right; by apply H2].
  - split_and!; [done..|]. intros v i j Hv. split; [by intros es ?%elem_of_nil|done].
  - intros pre [[src dst] es] post [w1 lat1] [w2 lat2] Em (D1 & L1 & Hval) Hgr. cbn in D1, L1.
    assert (((src, dst), es) ∈ m_link_map g) as Hin
      by (rewrite Em; apply elem_of_app; right; by left).
    assert ((src, dst) ∉ pre.*1) as Hnew.
    { pose proof (gw_nodup g Hg) as Hnd. rewrite Em, fmap_app in Hnd.
      apply NoDup_app in Hnd as (_ & Hnd & _). intros Hp. apply (Hnd _ Hp). by left. }
    destruct (key_range _ _ _ Hin) as [R1 R2]. pose proof (gw_vnets g Hg) as R3.
    apply (fill_group_spec g nodes) in Hgr as (D2 & L2 & Hoth & Hcell); [|done..].
    split_and!; [done..|]. cbn [fst]. intros v i j Hv. destruct (Hval v i j Hv) as [H1 H2].
    cbn [fst] in H1, H2. rewrite fmap_app. split.
    + intros es' [Hp|Hp]%elem_of_app.
      * rewrite Hoth; [by apply H1|]. intros [-> ->]. apply Hnew.
        by apply (list_elem_of_fmap_2 fst) in Hp.
      * apply list_elem_of_singleton in Hp as [= -> -> ->]. rewrite <- H2 by done.
        by apply Hcell.
    + rewrite not_elem_of_app. intros [Hn1 Hn2]. rewrite Hoth; [by apply H2|].
      intros [-> ->]. apply Hn2. by left.
Qed.

Lemma size_of_dims m p q r : dims m p q r → 0 < p → size_of m 0 = Ok q.
Proof.
  intros [Hl HF] Hp. unfold size_of. destruct (vget_total m 0) as [x Hx]; [lia|].
  rewrite Hx. cbn [rbind]. apply vget_Ok in Hx.
  by destruct (Forall_zlookup _ _ _ _ HF Hx) as [-> _].
Qed.

(** Every cell of the weights is the weight of the links between its two nodes that carry
    its virtual network; without one it is infinite, or zero on the diagonal. *)
Lemma initial_matrices_spec w lat isw :
  0 < vnets → initial_matrices g = Ok (w, lat, isw) →
  dims w vnets nodes nodes ∧ dims lat nodes nodes vnets ∧ dims isw nodes nodes vnets ∧
  ∀ v i j, 0 ≤ v < vnets → 0 ≤ i < nodes → 0 ≤ j < nodes →
    cell (find (m_link_map g) (i, j)) v (if decide (i = j) then 0 else INFINITE_LATENCY)
      (val w v i j).
Proof.
  intros Hv Hi. unfold initial_matrices in Hi. fold nodes in Hi.
  assert (0 ≤ nodes) as Hn by (pose proof (max_switch_id_nonneg (m_link_map g)); unfold num_switches; lia).
  rewrite (size_of_dims _ vnets nodes nodes) in Hi by (try apply new3_dims; lia).
  cbn [rbind] in Hi. step_bind Hi as w0 Hw0. apply clear_diagonal in Hw0; [|lia..].
  step_bind Hi as [w1 lat1] Hf. injection Hi as <- <- <-.
  apply fill_groups in Hf as (D & L & Hc); [|done|apply new3_dims; lia].
  split_and!; [done..|apply new3_dims; lia|]. intros v i j Hv' Hi Hj.
  destruct Hw0 as [_ Hd]. rewrite <- (Hd v i j) by done. by apply Hc.
Qed.

(** The weights are as the routing argument needs them. *)
Lemma initial_link_weights w lat isw v :
  0 ≤ v < vnets → initial_matrices g = Ok (w, lat, isw) → link_weights nodes w v.
Proof.
  intros Hv Hm i j Hi Hj.
  destruct (initial_matrices_spec w lat isw) as (_ & _ & _ & Hc); [lia|done|].
  destruct (Hc v i j Hv Hi Hj) as [H1 H2]. split.
  - intros <-. destruct H2 as [(e & He%find_in & _)|H2].
    + destruct (gw_key g Hg _ _ _ He) as (_ & _ & Hne & _). done.
    + by rewrite decide_True in H2.
  - intros Hne. destruct H2 as [(e & He & Hcar)|H2].
    + rewrite (H1 e He Hcar). by eapply (gw_weight g Hg); [eapply find_in|].
    + rewrite decide_False in H2 by done. rewrite H2. done.
Qed.

(** A real link is a link of the graph. *)
Lemma real_link_entry w lat isw v i j :
  0 ≤ v < vnets → 0 ≤ i < nodes → 0 ≤ j < nodes →
  initial_matrices g = Ok (w, lat, isw) → 0 < val w v i j → val w v i j ≠ INFINITE_LATENCY →
  ∃ e, e ∈ find (m_link_map g) (i, j) ∧ carries (link e) v ∧
       BasicLink.m_weight (link e) = val w v i j.
Proof.
  intros Hv Hi Hj Hm Hpos Hne.
  destruct (initial_matrices_spec w lat isw) as (_ & _ & _ & Hc); [lia|done|].
  destruct (Hc v i j Hv Hi Hj) as [H1 [(e & He & Hcar)|H2]].
  - exists e. by rewrite <- (H1 e He Hcar).
  - rewrite H2 in *. by case_decide.
Qed.

End matrices.

(** ** The graph the constructor builds *)

Definition keys_sorted (m : LinkMap) : Prop := StronglySorted (λ a b, key_lt a b = true) m.*1.

Lemma key_lt_iff a b : key_lt a b = true ↔ a.1 < b.1 ∨ a.1 = b.1 ∧ a.2 < b.2.
Proof. unfold key_lt. rewrite orb_true_iff, andb_true_iff, !Z.ltb_lt, Z.eqb_eq. done. Qed.

Lemma keys_sorted_nodup m : keys_sorted m → NoDup m.*1.
Proof.
  unfold keys_sorted. induction 1 as [|k ks Hs IH HF]; constructor; [|done].
  intros Hk. rewrite Forall_forall in HF. apply HF in Hk. apply key_lt_iff in Hk. lia.
Qed.

Lemma push_entry_in m k e k' es' :
  (k', es') ∈ push_entry m k e →
  (k', es') ∈ m ∨ k' = k ∧ ∃ es, es' = es ++ [e] ∧ (es = [] ∨ (k, es) ∈ m).
Proof.
  induction m as [|[k1 es1] m IH]; cbn [push_entry].
  - intros [= -> ->]%list_elem_of_singleton. right. split; [done|]. exists []. auto.
  - case_bool_decide as E; [subst k1|destruct (key_lt k k1)].
    + intros [[= -> ->]|Hin]%elem_of_cons; [right; split; [done|]|left; by right].
      exists es1. split; [done|]. right. by left.
    + intros [[= -> ->]|Hin]%elem_of_cons; [right; split; [done|]; exists []; auto|by left].
    + intros [[= -> ->]|Hin]%elem_of_cons; [left; by left|].
      destruct (IH Hin) as [Hm|(-> & es & -> & Hes)]; [left; by right|].
      right. split; [done|]. exists es. split; [done|]. destruct Hes; [by left|right; by right].
Qed.

Lemma push_entry_keys m k e k' : k' ∈ (push_entry m k e).*1 → k' = k ∨ k' ∈ m.*1.
Proof.
  intros ([k1 es1] & -> & Hin)%list_elem_of_fmap. cbn.
  destruct (push_entry_in _ _ _ _ _ Hin) as [Hm|[-> _]]; [right|by left].
  by apply (list_elem_of_fmap_2 fst) in Hm.
Qed.

Lemma push_entry_sorted m k e : keys_sorted m → keys_sorted (push_entry m k e).
Proof.
  unfold keys_sorted. induction m as [|[k1 es1] m IH]; cbn [push_entry].
  - intros _. cbn. repeat constructor.
  - cbn. intros Hs. apply StronglySorted_inv in Hs as [Hs HF].
    case_bool_decide as E; [by constructor|]. destruct (key_lt k k1) eqn:Hlt; cbn.
    + constructor; [by constructor|]. constructor; [done|]. eapply Forall_impl; [exact HF|].
      intros x. rewrite !key_lt_iff in *. lia.
    + constructor; [by apply IH|]. apply Forall_forall. intros x [->|Hx]%push_entry_keys.
      * apply key_lt_iff. apply not_true_iff_false in Hlt. rewrite key_lt_iff in Hlt.
        destruct k, k1. cbn in *. destruct (decide (z = z1)); [subst|lia].
        destruct (decide (z0 = z2)); [by subst|lia].
      * rewrite Forall_forall in HF. by apply HF.
Qed.

Section making.
  Context `{MachineTypeLaws}.

(** Links between existing controllers and routers, of positive weight. *)
Definition ext_ok (x : ExtLink) : Prop :=
  0 ≤ ext_type x < MachineType_NUM ∧
  0 ≤ ext_version x < MachineType_base_count (ext_type x) ∧
  0 ≤ ext_router x ∧ 0 < BasicLink.m_weight (ext_link x).

Definition int_ok (x : IntLink) : Prop :=
  0 ≤ int_src x ∧ 0 ≤ int_dst x ∧ int_src x ≠ int_dst x ∧ 0 < BasicLink.m_weight (int_link x).

(** [graph_wf] during the construction, when the keys are sorted. *)
Definition building (vnets : Z) (g : t) : Prop :=
  m_vnets g = vnets ∧ m_nodes g = MachineType_base_number MachineType_NUM ∧
  keys_sorted (m_link_map g) ∧ graph_wf g.

Lemma addLink_building vnets g i j l so di g' :
  building vnets g → 0 ≤ i → m_nodes g ≤ j → i ≠ j → (i < m_nodes g ∨ 2 * m_nodes g ≤ i) →
  (i < m_nodes g → 2 * m_nodes g ≤ j) → 0 < BasicLink.m_weight l →
  addLink g i j l so di = Ok g' → building vnets g' ∧ m_nodes g' = m_nodes g.
Proof.
  intros (Hv & Hn & Hs & Hw) C1 C2 C3 C4 C5 Hl Ha. unfold addLink in Ha.
  step_bind Ha as [] _. step_bind Ha as [] _. injection Ha as <-.
  pose proof (push_entry_sorted _ (i, j) (mkLinkEntry l so di) Hs) as Hs'.
  split; [|done]. split_and!; [done..|]. split; cbn [with_map m_vnets m_nodes m_link_map].
  - apply Hw.
  - apply Hw.
  - by apply keys_sorted_nodup.
  - intros i' j' es [Hm|([= -> ->] & _)]%push_entry_in; [by eapply (gw_key g Hw)|done].
  - intros k es e [Hm|(-> & es1 & -> & Hes)]%push_entry_in He; [by eapply (gw_weight g Hw)|].
    apply elem_of_app in He as [He| ->%list_elem_of_singleton]; [|done].
    destruct Hes as [->|Hes]; [by apply elem_of_nil in He|by eapply (gw_weight g Hw)].
Qed.

(** The global number of a controller. *)
Lemma global_range ty num :
  0 ≤ ty < MachineType_NUM → 0 ≤ num < MachineType_base_count ty →
  0 ≤ MachineType_base_number ty + num < MachineType_base_number MachineType_NUM.
Proof.
  intros Ht Hn.
  pose proof (base_number_mono 0 (Z.to_nat ty)) as H1.
  pose proof (base_number_mono (ty + 1) (Z.to_nat (MachineType_NUM - (ty + 1)))) as H2.
  rewrite Z2Nat.id in H1, H2 by lia. rewrite base_number_0, Z.add_0_l in H1.
  replace (ty + 1 + (MachineType_NUM - (ty + 1))) with MachineType_NUM in H2 by lia.
  rewrite base_number_succ in H2 by lia. lia.
Qed.

Lemma add_ext_building vnets g x g' :
  building vnets g → ext_ok x → add_ext g x = Ok g' → building vnets g'.
Proof.
  intros Hb (Ht & Hver & Hr & Hw) Ha. unfold add_ext in Ha. step_bind Ha as g1 Hg1.
  pose proof (global_range _ _ Ht Hver) as Hglob. pose proof Hb as (_ & Hn & _).
  rewrite <- Hn in Hglob.
  eapply addLink_building in Hg1 as [Hb1 Hn1]; [|exact Hb|lia..|done].
  eapply addLink_building in Ha as [Hb2 _]; [exact Hb2|exact Hb1|rewrite ?Hn1; lia..|done].
Qed.

Lemma add_int_building vnets g x g' :
  building vnets g → int_ok x → add_int g x = Ok g' → building vnets g'.
Proof.
  intros (Hv & Hn & Hs & Hw) (H1 & H2 & H3 & H4) Ha. unfold add_int in Ha. cbn [m_nodes] in Ha.
  pose proof (gw_nodes g Hw). eapply addLink_building in Ha as [Hb _]; [exact Hb|..];
    [|cbn [m_nodes]; lia..|done].
  split_and!; [done..|]. by destruct Hw.
Qed.

Lemma make_graph_wf nodes routers vnets exts ints g :
  0 ≤ vnets → Forall ext_ok exts → Forall int_ok ints →
  make nodes routers vnets exts ints = Ok g →
  graph_wf g ∧ m_vnets g = vnets ∧ m_nodes g = MachineType_base_number MachineType_NUM.
Proof.
  intros Hv He Hi Hm. unfold make in Hm. step_bind Hm as [] Hpos%assert_Ok.
  apply Z.ltb_lt in Hpos. cbn [m_nodes] in Hpos. step_bind Hm as g1 Hg1.
  apply (foldl_result add_ext (λ _, building vnets)) in Hg1.
  - apply (foldl_result add_int (λ _, building vnets)) in Hm as (? & ? & _ & ?); [done|done|].
    intros pre x post s s1 -> Hb Ha. apply Forall_app in Hi as [_ [Hx _]%Forall_cons].
    by eapply add_int_building.
  - split_and!; [done..|constructor|]. split; cbn; [done|lia|constructor|..];
      intros; by exfalso; eapply elem_of_nil.
  - intros pre x post s s1 -> Hb Ha. apply Forall_app in He as [_ [Hx _]%Forall_cons].
    by eapply add_ext_building.
Qed.

End making.

(** ** The calls of [createLinks] *)

Section calls.
  Context `{MachineTypeLaws}.
  Variables (g : t) (w d : Matrix).
  Notation vnets := (m_vnets g).
  Notation nodes := (num_switches g).
  Hypothesis (Hw : dims w vnets nodes nodes) (Hd : dims d vnets nodes nodes).
  Hypothesis Hv0 : 0 < vnets.
  Hypothesis Hnodes : ∀ ty num, 0 ≤ ty < MachineType_NUM →
    0 ≤ num < MachineType_base_count ty → 0 ≤ dest_node ty num < nodes.

Definition real_on (v i j : Z) : Prop := 0 < val w v i j ∧ val w v i j ≠ INFINITE_LATENCY.

Definition machine (ty num : Z) : Prop :=
  0 ≤ ty < MachineType_NUM ∧ 0 ≤ num < MachineType_base_count ty.

(** [e] is the entry of network [v] of a link from [i] to [j] that carries it if [P]. *)
Definition entry_for (P : Prop) (v i j : Z) (e : NetDest.t) : Prop :=
  NetDest.wf e ∧ ∀ ty num, NetDest.elem ty num e ↔
    P ∧ real_on v i j ∧ machine ty num ∧ on_shortest w d v i j (dest_node ty num).

Lemma elem_machine ty num e : NetDest.wf e → NetDest.elem ty num e → machine ty num.
Proof.
  intros [Hl Hs] (s & Hz & Hb). destruct (Hs _ _ Hz) as [[_ Hbits] Hn].
  pose proof (zlookup_lt _ _ _ Hz). specialize (Hbits num Hb). unfold machine. lia.
Qed.

Lemma empty_entry (P : Prop) v i j e :
  NetDest.make = Ok e → ¬ (P ∧ real_on v i j) → entry_for P v i j e.
Proof.
  intros He Hn. destruct NetDest.make_empty as (e' & He' & Hwf & Hno).
  rewrite He in He'. injection He' as <-. split; [done|]. intros ty num.
  split; [by intros ?%Hno|]. by intros (? & ? & _); destruct Hn.
Qed.

Lemma routing_map_spec i j m b :
  0 ≤ i < nodes → 0 ≤ j < nodes → routing_map g w d i j = Ok (m, b) →
  zlen m = vnets ∧
  (∀ v, 0 ≤ v < vnets → ∃ e, zlookup m v = Some e ∧ entry_for True v i j e) ∧
  (b = true ↔ ∃ v, 0 ≤ v < vnets ∧ real_on v i j).
Proof.
  intros Hi Hj Hm. unfold routing_map in Hm. step_bind Hm as e0 He0.
  apply (for_range_inv (λ k '(m, b), zlen m = vnets ∧
    (∀ v, 0 ≤ v < k → ∃ e, zlookup m v = Some e ∧ entry_for True v i j e) ∧
    (∀ v, k ≤ v < vnets → zlookup m v = Some e0) ∧
    (b = true ↔ ∃ v, 0 ≤ v < k ∧ real_on v i j))) in Hm.
  - rewrite Z.add_0_l, Z2Nat.id in Hm by lia. destruct Hm as (H1 & H2 & _ & H3). done.
  - intros k [m1 b1] [m2 b2] Hk (H1 & H2 & H3 & H4) Hs.
    rewrite (get3_val w vnets nodes nodes) in Hs by (done || lia). cbn [rbind] in Hs.
    destruct ((0 <? val w k i j) && negb (val w k i j =? INFINITE_LATENCY)) eqn:E; boolify.
    + step_bind Hs as e He. step_bind Hs as m' Hset. injection Hs as <- <-.
      apply vset_Ok in Hset as [Hr ->].
      destruct (routing_entry_spec nodes vnets w d k i j) as (e' & He' & Hwf & Hel);
        [done|done|lia|done|done|done|]. rewrite He in He'. injection He' as <-.
      split_and!; [by rewrite zlen_insert| | |].
      * intros v Hv. rewrite zlookup_insert by done. case_decide as Ev; [subst v|apply H2; lia].
        exists e. split; [done|]. split; [done|]. intros ty num. split.
        -- intros Hin. pose proof (elem_machine _ _ _ Hwf Hin) as Hma.
           split_and!; [done..|]. by apply Hel; [apply Hma..|].
        -- intros (_ & _ & Hma & Hon). by apply Hel; [apply Hma..|].
      * intros v Hv. rewrite zlookup_insert, decide_False by (done || lia). apply H3. lia.
      * split; [|done]. intros _. exists k. split; [lia|done].
    + injection Hs as <- <-. assert (¬ real_on k i j) as Hn.
      { unfold real_on. intros [Ha Hb]. apply Z.ltb_lt in Ha. apply Z.eqb_neq in Hb.
        by rewrite Ha, Hb in E. }
      split_and!; [done| | |].
      * intros v Hv. destruct (decide (v = k)) as [->|]; [|apply H2; lia].
        exists e0. split; [apply H3; lia|]. apply empty_entry; [done|by intros [_ ?]].
      * intros v Hv. apply H3. lia.
      * rewrite H4. split; intros (v & Hv & Hr); exists v; (split; [|done]); [lia|].
        destruct (decide (v = k)) as [->|]; [done|lia].
  - split_and!; [unfold zlen; rewrite length_replicate; lia|lia| |].
    + intros v Hv. apply zlookup_replicate. split; [done|lia].
    + split; [done|]. intros (v & Hv & _). lia.
Qed.

Lemma link_route_spec l i j m route :
  zlen m = vnets →
  (∀ v, 0 ≤ v < vnets → ∃ e, zlookup m v = Some e ∧ entry_for True v i j e) →
  link_route g l m = Ok route →
  zlen route = vnets ∧
  ∀ v, 0 ≤ v < vnets → ∃ e, zlookup route v = Some e ∧ entry_for (carries l v) v i j e.
Proof.
  intros Hl Hm Hr. unfold link_route in Hr.
  assert (∀ (P : Prop) v e, P → entry_for True v i j e → entry_for P v i j e) as Himp.
  { intros P v e HP [He1 He2]. split; [done|]. intros ty num. rewrite He2. naive_solver. }
  destruct (Z.eqb_spec (zlen (BasicLink.mVnets l)) 0) as [E|E].
  - injection Hr as <-. split; [done|]. intros v Hv. destruct (Hm v Hv) as (e & He & Hent).
    exists e. split; [done|]. apply Himp; [left|done].
    destruct (BasicLink.mVnets l) as [|x xs]; [done|]. rewrite zlen_cons in E.
    pose proof (zlen_nonneg xs). lia.
  - step_bind Hr as e0 He0.
    apply (foldl_result (λ route vnet, e ← vget m vnet; vset route vnet e)
      (λ pre route, zlen route = vnets ∧ ∀ v, 0 ≤ v < vnets →
         ∃ e, zlookup route v = Some e ∧ entry_for (v ∈ pre) v i j e)) in Hr as [H1 H2].
    + split; [done|]. intros v Hv. destruct (H2 v Hv) as (e & He & Hwf & Hent).
      exists e. split; [done|]. split; [done|]. intros ty num. rewrite Hent. unfold carries.
      split; [naive_solver|]. intros ([E0|?] & ?); [by rewrite E0 in E|done].
    + split; [unfold zlen; rewrite length_replicate; lia|]. intros v Hv. exists e0.
      split; [apply zlookup_replicate; split; [done|lia]|]. apply empty_entry; [done|].
      by intros [?%elem_of_nil _].
    + intros pre v post r1 r2 _ [H1 H2] Hs. step_bind Hs as e He%vget_Ok.
      apply vset_Ok in Hs as [Hrng ->]. split; [by rewrite zlen_insert|]. intros x Hx.
      rewrite zlookup_insert by done. case_decide as Ex.
      * subst x. destruct (Hm v Hx) as (e' & He' & Hent). rewrite He in He'. injection He' as <-.
        exists e. split; [done|]. apply Himp; [|done]. apply elem_of_app. right. by left.
      * destruct (H2 x Hx) as (e' & He' & Hwf & Hent). exists e'. split; [done|]. split; [done|].
        intros ty num. rewrite Hent, elem_of_app, list_elem_of_singleton. naive_solver.
Qed.

(** The call made for the link [e] from [i] to [j]. *)
Definition link_call_of (i j : Z) (e : LinkEntry) (route : list NetDest.t) : link_call :=
  if i <? m_nodes g then MakeExtIn i (j - 2 * m_nodes g) (link e) route
  else if j <? 2 * m_nodes g then
    MakeExtOut (i - 2 * m_nodes g) (j - m_nodes g) (link e) route
  else MakeInternal (i - 2 * m_nodes g) (j - 2 * m_nodes g) (link e) route
         (src_outport_dirn e) (dst_inport_dirn e).

(** A call for the link [e] with the entries of the networks the link carries. *)
Definition call_for (i j : Z) (e : LinkEntry) (call : link_call) : Prop :=
  ∃ route, call = link_call_of i j e route ∧ zlen route = vnets ∧
    ∀ v, 0 ≤ v < vnets →
      ∃ nd, zlookup route v = Some nd ∧ entry_for (carries (link e) v) v i j nd.

(** The calls made so far are for links of [L], and each of these has one. *)
Definition calls_for (L : Z → Z → LinkEntry → Prop) (calls : list link_call) : Prop :=
  (∀ call, call ∈ calls → ∃ i j e, e ∈ find (m_link_map g) (i, j) ∧ call_for i j e call) ∧
  (∀ i j e, L i j e → ∃ call, call ∈ calls ∧ call_for i j e call).

Lemma calls_for_sub (L L' : Z → Z → LinkEntry → Prop) calls :
  (∀ i j e, L' i j e → L i j e) → calls_for L calls → calls_for L' calls.
Proof. intros HL [H1 H2]. split; [done|]. intros i j e He. apply H2. by apply HL. Qed.

Lemma calls_for_app (L1 L2 : Z → Z → LinkEntry → Prop) c1 c2 :
  calls_for L1 c1 → calls_for L2 c2 → calls_for (λ i j e, L1 i j e ∨ L2 i j e) (c1 ++ c2).
Proof.
  intros [A1 B1] [A2 B2]. split.
  - intros call [Hc|Hc]%elem_of_app; auto.
  - intros i j e [He|He]; [destruct (B1 i j e He) as (call & Hc & Hf)|
      destruct (B2 i j e He) as (call & Hc & Hf)]; exists call;
      rewrite elem_of_app; auto.
Qed.

Lemma makeLink_spec i j m calls :
  zlen m = vnets →
  (∀ v, 0 ≤ v < vnets → ∃ e, zlookup m v = Some e ∧ entry_for True v i j e) →
  makeLink g i j m = Ok calls →
  calls_for (λ i' j' e, i' = i ∧ j' = j ∧ e ∈ find (m_link_map g) (i, j)) calls.
Proof.
  intros Hl Hm Hk. unfold makeLink in Hk. step_bind Hk as [] _.
  set (es := find (m_link_map g) (i, j)) in *.
  assert (foldl (λ acc e, calls ← acc; route ← link_route g (link e) m;
                    Ok (calls ++ [link_call_of i j e route])) (Ok []) es = Ok calls) as Hc.
  { unfold link_call_of. destruct (i <? m_nodes g); [exact Hk|].
    destruct (j <? 2 * m_nodes g); step_bind Hk as [] _; exact Hk. }
  clear Hk.
  apply (foldl_result (λ calls e, route ← link_route g (link e) m;
      Ok (calls ++ [link_call_of i j e route]))
    (λ pre, calls_for (λ i' j' e, i' = i ∧ j' = j ∧ e ∈ pre))) in Hc; [done| |].
  - split; [by intros call ?%elem_of_nil|]. by intros i' j' e (_ & _ & ?%elem_of_nil).
  - intros pre e post c1 c2 Ees Hpre Hs. step_bind Hs as route Hr. injection Hs as <-.
    eapply link_route_spec in Hr; [|exact Hl|exact Hm].
    assert (call_for i j e (link_call_of i j e route)) as Hcall by (exists route; done).
    eapply calls_for_sub; [|apply (calls_for_app _ (λ i' j' e', i' = i ∧ j' = j ∧ e' = e) _ _ Hpre)].
    + intros i' j' e' (? & ? & He). apply elem_of_app in He as [He| ->%list_elem_of_singleton];
        auto.
    + split.
      * intros call ->%list_elem_of_singleton. exists i, j, e. split; [|done].
        fold es. rewrite Ees. apply elem_of_app. right. by left.
      * intros i' j' e' (-> & -> & ->). exists (link_call_of i j e route).
        split; [by left|done].
Qed.

(** One pair of nodes. *)
Lemma pair_calls i j m b calls calls' (L : Z → Z → LinkEntry → Prop) :
  0 ≤ i < nodes → 0 ≤ j < nodes → calls_for L calls →
  routing_map g w d i j = Ok (m, b) →
  (if b : bool then more ← makeLink g i j m; Ok (calls ++ more) else Ok calls) = Ok calls' →
  calls_for (λ i' j' e, L i' j' e ∨
    i' = i ∧ j' = j ∧ e ∈ find (m_link_map g) (i, j) ∧
    ∃ v, 0 ≤ v < vnets ∧ real_on v i j) calls'.
Proof.
  intros Hi Hj HL Hm Hs. apply routing_map_spec in Hm as (H1 & H2 & H3); [|done..].
  destruct b.
  - step_bind Hs as more Hk. injection Hs as <-. apply makeLink_spec in Hk; [|done..].
    eapply calls_for_sub; [|by apply (calls_for_app _ _ _ _ HL Hk)]. cbn. naive_solver.
  - injection Hs as <-. eapply calls_for_sub; [|exact HL].
    intros i' j' e [He|(-> & -> & _ & Hr)]; [done|]. by apply H3 in Hr.
Qed.

Lemma all_pairs calls :
  for_range 0 (Z.to_nat nodes)
    (λ i calls, row ← vget w 0; m ← size_of row i;
       for_range 0 (Z.to_nat m)
         (λ j calls, '(routingMap, realLink) ← routing_map g w d i j;
            if (realLink : bool) then more ← makeLink g i j routingMap; Ok (calls ++ more)
            else Ok calls) calls) [] = Ok calls →
  calls_for (λ i j e, 0 ≤ i < nodes ∧ 0 ≤ j < nodes ∧ e ∈ find (m_link_map g) (i, j) ∧
    ∃ v, 0 ≤ v < vnets ∧ real_on v i j) calls.
Proof.
  set (L := λ i j e, e ∈ find (m_link_map g) (i, j) ∧ ∃ v, 0 ≤ v < vnets ∧ real_on v i j).
  intros Hf.
  apply (for_range_inv (λ k, calls_for (λ i j e, 0 ≤ i < k ∧ 0 ≤ j < nodes ∧ L i j e))) in Hf.
  - eapply calls_for_sub; [|exact Hf]. intros i j e (? & ? & ? & ?). split_and!; try done; lia.
  - intros k c1 c2 Hk HL Hs. step_bind Hs as row Hrow%vget_Ok. step_bind Hs as m Hm.
    assert (m = nodes) as ->.
    { destruct Hw as [_ HF]. destruct (Forall_zlookup _ _ _ _ HF Hrow) as [_ HG].
      unfold size_of in Hm. step_bind Hm as x Hx%vget_Ok. injection Hm as <-.
      apply (Forall_zlookup _ _ _ _ HG Hx). }
    apply (for_range_inv (λ u, calls_for (λ i j e,
      (0 ≤ i < k ∧ 0 ≤ j < nodes ∨ i = k ∧ 0 ≤ j < u) ∧ L i j e))) in Hs.
    + eapply calls_for_sub; [|exact Hs]. intros i j e (? & ? & ?). split; [lia|done].
    + intros u s1 s2 Hu HLu Hp. step_bind Hp as [mp b] Hmp.
      eapply pair_calls in Hp; [|lia|lia|exact HLu|exact Hmp].
      eapply calls_for_sub; [|exact Hp]. intros i j e [Hij [He Hr]]. cbn.
      destruct (decide (i = k ∧ j = u)) as [[-> ->]|Hne]; [right; done|left].
      split; [lia|done].
    + eapply calls_for_sub; [|exact HL]. intros i j e [Hij ?]. split_and!; [lia..|done].
  - split; [by intros call ?%elem_of_nil|]. intros i j e (? & _). lia.
Qed.

End calls.

(** The links of the network: the calls of [createLinks] are for links of the graph, with
    entries that follow the shortest paths, and every link that some virtual network can
    use has one. *)
Lemma createLinks_spec `{MachineTypeLaws} g calls :
  graph_wf g → 0 < m_vnets g → createLinks g = Ok calls →
  (∀ ty num, machine ty num → 0 ≤ dest_node ty num < num_switches g) →
  ∃ w lat isw d, initial_matrices g = Ok (w, lat, isw) ∧
    dims w (m_vnets g) (num_switches g) (num_switches g) ∧
    (∀ v, 0 ≤ v < m_vnets g → link_weights (num_switches g) w v) ∧
    (∀ v, 0 ≤ v < m_vnets g → shortest (num_switches g) w d v) ∧
    calls_for g w d (λ i j e, 0 ≤ i < num_switches g ∧ 0 ≤ j < num_switches g ∧
      e ∈ find (m_link_map g) (i, j) ∧ ∃ v, 0 ≤ v < m_vnets g ∧ real_on w v i j) calls.
Proof.
  intros Hg Hv Hc Hnodes. unfold createLinks in Hc. step_bind Hc as [[w lat] isw] Hm.
  destruct (initial_matrices_spec g Hg w lat isw Hv Hm) as (Dw & Dl & Di & _).
  assert (∀ v, 0 ≤ v < m_vnets g → link_weights (num_switches g) w v) as Hlw.
  { intros v Hv'. by eapply initial_link_weights. }
  assert (0 ≤ num_switches g) as Hn
    by (pose proof (max_switch_id_nonneg (m_link_map g)); unfold num_switches; lia).
  destruct (shortest_path_spec (num_switches g) (m_vnets g) g w lat isw)
    as (p & Hp & (Dd & _) & Hs); [done..| |].
  { intros v Hv' i j Hi Hj. destruct (Hlw v Hv' i j Hi Hj) as [H1 H2].
    destruct (decide (i = j)); [rewrite H1 by done; done|specialize (H2 ltac:(done)); lia]. }
  rewrite Hp in Hc. cbn [rbind] in Hc. rewrite (size_of_dims w _ _ _ Dw) in Hc by done.
  cbn [rbind] in Hc. exists w, lat, isw, (dist p). split_and!; [done..|].
  apply all_pairs; [done|done|done| |exact Hc]. intros ty num Ht Hnum. by apply Hnodes.
Qed.
