(* ===== verification/Bridge.v ===== *)
(** * Bridges: clock-domain crossing and serialisation

    [garnet/NetworkBridge.{hh,cc}].  A bridge is a credit link with a second
    link [nLink] on one side, of which it uses the width; it re-times flits for
    the clock of its consumer and, when the two widths differ, splits flits into
    narrower ones or merges them into wider ones.  Its co-bridge carries the
    credits of the opposite direction and must translate them by the same
    ratios: [neutralize] tells it how many flits stood for one.

    A wake-up takes the queue of the source and returns it with the calls of
    [coBridge->neutralize(vc, n)] and the ticks its consumer is scheduled at. *)

From S2P Require Import Prelude.
From S2P Require Import IntMath.
From S2P Require Import NetDest.
From S2P Require Import Flit.
From S2P Require Import Clocking.
From S2P Require Import Links.

(** [enums::LINK_OBJECT] and [enums::OBJECT_LINK]; the generated enumeration may
    hold other values, on which the constructor panics. *)
Inductive CDCType := LINK_OBJECT | OBJECT_LINK | CDC_other.

#[export] Instance CDCType_eq_dec : EqDecision CDCType.
Proof. solve_decision. Defined.

Module NetworkBridge.

Record t := mk {
  base : NetworkLink.t;
  nLink_bitWidth : Z;
  enCdc : bool;
  enSerDes : bool;
  mType : CDCType;
  cdcLatency : Cycles;
  serDesLatency : Cycles;
  lastScheduledAt : Tick;
  lenBuffer : list Z;
  sizeSent : list Z;
  flitsSent : list Z;
  extraCredit : list (list Z);
}.

(** [NetworkBridge(p)]; the two links it connects are wired by the caller. *)
Definition make (l : NetworkLink.t) (nLink_width : Z) (vtype : CDCType)
    (cdc_latency serdes_latency : Cycles) : result t :=
  match vtype with
  | CDC_other => Err Panicked
  | _ => Ok (mk l nLink_width true true vtype cdc_latency serdes_latency 0
               [] [] [] [])
  end.

Definition setVcsPerVnet (b : t) (consumerVcs : Z) : t :=
  let n := consumerVcs * NetworkLink.m_virt_nets (base b) in
  mk (NetworkLink.setVcsPerVnet (base b) consumerVcs) (nLink_bitWidth b)
     (enCdc b) (enSerDes b) (mType b) (cdcLatency b) (serDesLatency b)
     (lastScheduledAt b) (vresize 0 n (lenBuffer b)) (vresize 0 n (sizeSent b))
     (vresize 0 n (flitsSent b)) (vresize [] n (extraCredit b)).

Definition initBridge (b : t) (cdc_en serdes_en : bool) : t :=
  mk (base b) (nLink_bitWidth b) cdc_en serdes_en (mType b) (cdcLatency b)
     (serDesLatency b) (lastScheduledAt b) (lenBuffer b) (sizeSent b)
     (flitsSent b) (extraCredit b).

Definition with_link (b : t) (l : NetworkLink.t) (last : Tick) : t :=
  mk l (nLink_bitWidth b) (enCdc b) (enSerDes b) (mType b) (cdcLatency b)
     (serDesLatency b) last (lenBuffer b) (sizeSent b) (flitsSent b)
     (extraCredit b).

Definition with_tracking (b : t) (len size flits : list Z) (credits : list (list Z))
    : t :=
  mk (base b) (nLink_bitWidth b) (enCdc b) (enSerDes b) (mType b) (cdcLatency b)
     (serDesLatency b) (lastScheduledAt b) len size flits credits.

Definition linkBuffer (b : t) : FlitBuffer.t := NetworkLink.linkBuffer (base b).

(** [scheduleFlit]: [cclk] is the clock of the consumer. *)
Definition scheduleFlit (cclk : Clocked.t) (cur : Tick) (b : t) (t_flit : flit)
    (latency : Cycles) : t * Tick :=
  let totLatency := if enCdc b then latency + cdcLatency b else latency in
  let sendTime := Clocked.clockEdge cclk cur totLatency in
  let nextAvailTick := lastScheduledAt b + Clocked.cyclesToTicks cclk 1 in
  let sendTime := Z.max nextAvailTick sendTime in
  let t_flit := set_time t_flit sendTime in
  let l := NetworkLink.with_buffer (base b) (FlitBuffer.insert (linkBuffer b) t_flit) in
  (with_link b l sendTime, sendTime).

Definition neutralize (b : t) (vc eCredit : Z) : result t :=
  credits ← vupd (extraCredit b) vc (λ q, Ok (q ++ [eCredit]));
  Ok (with_tracking b (lenBuffer b) (sizeSent b) (flitsSent b) credits).

(** [extraCredit[vc].front()], asserted to be non-zero. *)
Definition front_credit (b : t) (vc : Z) : result Z :=
  q ← vget (extraCredit b) vc;
  c ← determinate (head q);
  _ ← assert (negb (c =? 0));
  Ok c.

Definition pop_credit (b : t) (vc : Z) : result (list (list Z)) :=
  vupd (extraCredit b) vc (λ q, Ok (tail q)).

(** The bookkeeping of the deserialiser: whether a flit can be made, and of how
    many flits it is made. *)
Definition deserialize_track (b : t) (t_flit : flit) (cur_width target_width : Z)
    : result (t * Z * Z) :=
  let vc := flit_m_vc t_flit in
  match flit_m_type t_flit with
  | CREDIT_ =>
      len ← vupd (lenBuffer b) vc (λ n, Ok (n + 1));
      n ← vget len vc;
      c ← front_credit b vc;
      if n =? c then
        credits ← pop_credit b vc;
        len ← vset len vc 0;
        Ok (with_tracking b len (sizeSent b) (flitsSent b) credits, 1, 0)
      else Ok (with_tracking b len (sizeSent b) (flitsSent b) (extraCredit b), 0, 0)
  | TAIL_ | HEAD_TAIL_ =>
      sent ← vget (sizeSent b) vc;
      let sizeAvail := flit_msgSize t_flit - sent in
      let flitPossible := ceil_div_f32 sizeAvail target_width in
      _ ← assert (flitPossible <? 2);
      fs ← vget (flitsSent b) vc;
      let num_flits := flit_m_id t_flit + 1 - fs in
      flits ← vset (flitsSent b) vc 0;
      size ← vset (sizeSent b) vc 0;
      Ok (with_tracking b (lenBuffer b) size flits (extraCredit b),
          flitPossible, num_flits)
  | HEAD_ | BODY_ =>
      sent ← vget (sizeSent b) vc;
      let sizeAvail := (flit_m_id t_flit + 1) * cur_width - sent in
      let flitPossible := floor_div_f32 sizeAvail target_width in
      _ ← assert (flitPossible <? 2);
      fs ← vget (flitsSent b) vc;
      let num_flits := flit_m_id t_flit + 1 - fs in
      if negb (flitPossible =? 0) then
        size ← vset (sizeSent b) vc (sent + target_width);
        flits ← vset (flitsSent b) vc (flit_m_id t_flit + 1);
        Ok (with_tracking b (lenBuffer b) size flits (extraCredit b),
            flitPossible, num_flits)
      else Ok (b, flitPossible, num_flits)
  end.

(** The part of [flitisizeAndSend] that merges flits. *)
Definition deserialize_and_send (cclk : Clocked.t) (cur : Tick) (b : t)
    (t_flit : flit) (cur_width target_width : Z)
    : result (t * list (Z * Z) * list Tick) :=
  let vc := flit_m_vc t_flit in
  '(b, flitPossible, num_flits) ←
    deserialize_track b t_flit cur_width target_width;
  if flitPossible =? 0 then Ok (b, [], [])
  else
    n ← vget (lenBuffer b) vc;
    fl ← deserialize t_flit n num_flits target_width;
    let calls :=
      if bool_decide (flit_m_type t_flit = CREDIT_) then [] else [(vc, num_flits)] in
    len ← vset (lenBuffer b) vc 0;
    let b := with_tracking b len (sizeSent b) (flitsSent b) (extraCredit b) in
    let '(b, at_tick) := scheduleFlit cclk cur b fl (serDesLatency b) in
    Ok (b, calls, [at_tick]).

(** The bookkeeping of the serialiser: into how many flits the flit is split. *)
Definition serialize_track (b : t) (t_flit : flit) (cur_width target_width : Z)
    : result (t * Z) :=
  let vc := flit_m_vc t_flit in
  match flit_m_type t_flit with
  | CREDIT_ =>
      c ← front_credit b vc;
      credits ← pop_credit b vc;
      Ok (with_tracking b (lenBuffer b) (sizeSent b) (flitsSent b) credits, c)
  | HEAD_ | BODY_ =>
      sent ← vget (sizeSent b) vc;
      let sizeAvail := (flit_m_id t_flit + 1) * cur_width - sent in
      let flitPossible := floor_div_f32 sizeAvail target_width in
      if negb (flitPossible =? 0) then
        size ← vset (sizeSent b) vc (sent + flitPossible * target_width);
        flits ← vupd (flitsSent b) vc (λ n, Ok (n + flitPossible));
        Ok (with_tracking b (lenBuffer b) size flits (extraCredit b), flitPossible)
      else Ok (b, flitPossible)
  | TAIL_ | HEAD_TAIL_ =>
      sent ← vget (sizeSent b) vc;
      let sizeAvail := flit_msgSize t_flit - sent in
      let flitPossible := ceil_div_f32 sizeAvail target_width in
      size ← vset (sizeSent b) vc 0;
      flits ← vset (flitsSent b) vc 0;
      Ok (with_tracking b (lenBuffer b) size flits (extraCredit b), flitPossible)
  end.

(** [for (i = 0; i < flitPossible; i++)]: the parts [i], [i + 1], .. [n] of
    them, are made and scheduled. *)
Fixpoint send_parts (cclk : Clocked.t) (cur : Tick) (t_flit : flit)
    (flitPossible target_width i : Z) (n : nat) (b : t) : result (t * list Tick) :=
  match n with
  | O => Ok (b, [])
  | S n' =>
      fl ← serialize t_flit i flitPossible target_width;
      let '(b, at_tick) := scheduleFlit cclk cur b fl (serDesLatency b) in
      '(b, ticks) ← send_parts cclk cur t_flit flitPossible target_width (i + 1) n' b;
      Ok (b, at_tick :: ticks)
  end.

(** The part of [flitisizeAndSend] that splits a flit. *)
Definition serialize_and_send (cclk : Clocked.t) (cur : Tick) (b : t)
    (t_flit : flit) (cur_width target_width : Z)
    : result (t * list (Z * Z) * list Tick) :=
  '(b, flitPossible) ← serialize_track b t_flit cur_width target_width;
  _ ← assert (0 <? flitPossible);
  '(b, ticks) ←
    send_parts cclk cur t_flit flitPossible target_width 0 (Z.to_nat flitPossible) b;
  let calls :=
    if bool_decide (flit_m_type t_flit = CREDIT_) then []
    else [(flit_m_vc t_flit, flitPossible)] in
  Ok (b, calls, ticks).

Definition flitisizeAndSend (cclk : Clocked.t) (cur : Tick) (b : t) (t_flit : flit)
    : result (t * list (Z * Z) * list Tick) :=
  if enSerDes b then
    let '(target_width, cur_width) :=
      if bool_decide (mType b = OBJECT_LINK)
      then (nLink_bitWidth b, NetworkLink.bitWidth (base b))
      else (NetworkLink.bitWidth (base b), nLink_bitWidth b) in
    _ ← assert (negb (target_width =? cur_width));
    if cur_width <? target_width
    then deserialize_and_send cclk cur b t_flit cur_width target_width
    else serialize_and_send cclk cur b t_flit cur_width target_width
  else
    let '(b, at_tick) := scheduleFlit cclk cur b t_flit 0 in
    Ok (b, [], [at_tick]).

Definition wakeup (cclk : Clocked.t) (cur : Tick) (b : t) (src : FlitBuffer.t)
    : result (t * FlitBuffer.t * list (Z * Z) * list Tick) :=
  '(b, src, calls, ticks) ←
    (if FlitBuffer.isReady src cur then
       '(t_flit, src) ← FlitBuffer.getTopFlit src;
       '(b, calls, ticks) ← flitisizeAndSend cclk cur b t_flit;
       Ok (b, src, calls, ticks)
     else Ok (b, src, [], []));
  if FlitBuffer.isEmpty src then Ok (b, src, calls, ticks)
  else
    c ← Consumer.scheduleEvent (NetworkLink.clk (base b)) cur
          (NetworkLink.consumer (base b)) 1;
    Ok (with_link b (NetworkLink.with_consumer (base b) c) (lastScheduledAt b),
        src, calls, ticks).

End NetworkBridge.
