(* ===== verification/Serdes.v ===== *)
(** * Serialisation is exact

    A bridge whose narrower width divides the wider one cuts a packet into, or
    reassembles it from, exactly the flits the narrower (wider) link would have
    carried: the identifiers are consecutive from zero, the sizes agree, and the
    counts given to the co-bridge for the credits add up to the flits seen on
    the other side.  The arithmetic of the bridge is in single precision; it is
    exact for packets below [2^24] bits. *)

From S2P Require Import Prelude.
From S2P Require Import IntMath.
From S2P Require Import NetDest.
From S2P Require Import Flit.
From S2P Require Import Clocking.
From S2P Require Import Links.
From S2P Require Import Bridge.
Import NetworkBridge.

(** Flit number [id] of a packet of [size] flits of width [width], which
    carries [msg] bits on channel [vc]. *)
Definition packet_flit (pid vc msg width size id : Z) (f : flit) : Prop :=
  flit_m_packet_id f = pid ∧ flit_m_vc f = vc ∧ flit_msgSize f = msg ∧
  flit_m_width f = width ∧ flit_m_size f = size ∧ flit_m_id f = id ∧
  flit_m_type f = type_of id size ∧ flit_m_is_free_signal f = None.

(** The bridge takes the flits of a packet one after the other, each at a tick
    of its own. *)
Fixpoint feed (cclk : Clocked.t) (fs : list (Tick * flit)) (b : t)
    : result (t * list (Z * Z)) :=
  match fs with
  | [] => Ok (b, [])
  | (cur, f) :: fs' =>
      '(b, calls, _) ← flitisizeAndSend cclk cur b f;
      '(b, calls') ← feed cclk fs' b;
      Ok (b, calls ++ calls')
  end.

(** The flits [outs] have been appended to the link. *)
Definition sent (b b' : t) (outs : list flit) : Prop :=
  FlitBuffer.m_buffer (linkBuffer b') = FlitBuffer.m_buffer (linkBuffer b) ++ outs.

(** Everything but the link, the schedule and the per-channel bookkeeping. *)
Definition same_bridge (b b' : t) : Prop :=
  nLink_bitWidth b' = nLink_bitWidth b ∧ enSerDes b' = enSerDes b ∧
  mType b' = mType b ∧ NetworkLink.bitWidth (base b') = NetworkLink.bitWidth (base b).

Lemma same_bridge_trans b1 b2 b3 :
  same_bridge b1 b2 → same_bridge b2 b3 → same_bridge b1 b3.
Proof. unfold same_bridge. intuition congruence. Qed.

Lemma sent_nil b b' : linkBuffer b' = linkBuffer b → sent b b' [].
Proof. unfold sent. intros ->. by rewrite app_nil_r. Qed.

Lemma sent_app b1 b2 b3 o1 o2 : sent b1 b2 o1 → sent b2 b3 o2 → sent b1 b3 (o1 ++ o2).
Proof. unfold sent. intros H1 H2. by rewrite H2, H1, app_assoc. Qed.

Lemma scheduleFlit_spec cclk cur b f lat b' tk :
  scheduleFlit cclk cur b f lat = (b', tk) →
  sent b b' [set_time f tk] ∧ same_bridge b b' ∧ sizeSent b' = sizeSent b ∧
  flitsSent b' = flitsSent b ∧ lenBuffer b' = lenBuffer b ∧
  extraCredit b' = extraCredit b ∧ serDesLatency b' = serDesLatency b.
Proof. unfold scheduleFlit. intros [= <- <-]. done. Qed.

Lemma packet_flit_time pid vc msg width size id f tk :
  packet_flit pid vc msg width size id f → packet_flit pid vc msg width size id (set_time f tk).
Proof. done. Qed.

(** A flit remade with another number and width. *)
Lemma reshaped_packet_flit pid vc msg width size id f nid nsize w :
  packet_flit pid vc msg width size id f →
  packet_flit pid vc msg w nsize nid (reshaped f nid nsize w).
Proof.
  intros (H1 & H2 & H3 & H4 & H5 & H6 & H7 & H8). unfold reshaped.
  destruct (flit_src_delay f); by split_and!.
Qed.

(** The target and the current width, and the vectors of a bridge that has
    been told its number of channels. *)
Definition widths (b : t) : Z * Z :=
  if bool_decide (mType b = OBJECT_LINK)
  then (nLink_bitWidth b, NetworkLink.bitWidth (base b))
  else (NetworkLink.bitWidth (base b), nLink_bitWidth b).

Definition has_channel (vc : Z) (b : t) : Prop :=
  0 ≤ vc < zlen (sizeSent b) ∧ vc < zlen (flitsSent b) ∧ vc < zlen (lenBuffer b).

Lemma same_bridge_widths b b' : same_bridge b b' → widths b' = widths b.
Proof. unfold widths. by intros (-> & _ & -> & ->). Qed.

Lemma type_of_cases k n :
  0 ≤ k < n →
  (k = n - 1 ∧ (type_of k n = TAIL_ ∨ type_of k n = HEAD_TAIL_)) ∨
  (k < n - 1 ∧ (type_of k n = HEAD_ ∨ type_of k n = BODY_)).
Proof. intros Hk. unfold type_of. zcases; naive_solver lia. Qed.

(** ** Splitting *)

Section serialise.
  Variables (cclk : Clocked.t) (pid vc msg w r : Z).
  Hypothesis (Hw : 0 < w) (Hr : 1 < r) (Hmsg : 0 < msg).
  Hypothesis Hfit : msg + 2 * (r * w) < 2 ^ 24.

(** The wide link, and the numbers of wide and narrow flits. *)
Definition wide : Z := r * w.
Definition n_wide : Z := divCeil msg wide.
Definition n_narrow : Z := divCeil msg w.

Lemma counts :
  (n_wide - 1) * wide < msg ≤ n_wide * wide ∧ (n_narrow - 1) * w < msg ≤ n_narrow * w ∧
  (n_wide - 1) * r < n_narrow ≤ n_wide * r ∧ 0 < n_wide.
Proof.
  assert (0 < wide) as HW by (unfold wide; nia).
  pose proof (proj1 (divCeil_spec msg wide n_wide HW) eq_refl) as H1.
  pose proof (proj1 (divCeil_spec msg w n_narrow Hw) eq_refl) as H2.
  split; [done|]. split; [done|]. unfold wide in *. split; [|nia]. nia.
Qed.

(** The parts of one wide flit. *)
Lemma send_parts_spec cur f k parts m i b :
  packet_flit pid vc msg wide n_wide k f → 0 ≤ k → 0 ≤ i →
  k * r + i + Z.of_nat m ≤ n_narrow →
  ∃ b' ticks outs,
    send_parts cclk cur f parts w i m b = Ok (b', ticks) ∧ sent b b' outs ∧
    same_bridge b b' ∧ sizeSent b' = sizeSent b ∧ flitsSent b' = flitsSent b ∧
    lenBuffer b' = lenBuffer b ∧
    Forall2 (packet_flit pid vc msg w n_narrow) (seqZ (k * r + i) (Z.of_nat m)) outs.
Proof.
  intros Hf Hk. revert i b. induction m as [|m IH]; intros i b Hi Hle; cbn [send_parts].
  - exists b, [], []. split_and!; try done. by apply sent_nil.
  - pose proof Hf as (_ & _ & Hms & Hwd & _ & Hid & _ & Hfree).
    unfold serialize. rewrite Hfree, Hwd, Hid, Hms.
    destruct (Z.ltb_spec w wide); [|unfold wide in *; nia]. cbn [assert rbind].
    assert (divCeil wide w = r) as ->.
    { apply divCeil_spec; [done|]. unfold wide. nia. }
    rewrite divCeil_f32_exact by (unfold wide in *; nia). fold n_narrow.
    destruct (Z.ltb_spec (k * r + i) n_narrow); [|lia]. cbn [assert rbind].
    destruct (scheduleFlit cclk cur b (reshaped f (k * r + i) n_narrow w) (serDesLatency b))
      as [b1 tk] eqn:E.
    apply scheduleFlit_spec in E as (Hs1 & Hb1 & Hz1 & Hfl1 & Hln1 & _).
    destruct (IH (i + 1) b1) as (b' & ticks & outs & -> & Hs & Hb & Hz & Hfl & Hln & Hall);
      [lia|lia|]. cbn [rbind].
    eexists b', _, (set_time (reshaped f (k * r + i) n_narrow w) tk :: outs).
    split_and!; [done|by eapply (sent_app b b1 b' [_])|by eapply same_bridge_trans
      |congruence|congruence|congruence|].
    rewrite seqZ_cons by lia. constructor.
    + apply packet_flit_time. by eapply reshaped_packet_flit.
    + replace (Z.succ (k * r + i)) with (k * r + (i + 1)) by lia.
      by replace (Z.pred (Z.of_nat (S m))) with (Z.of_nat m) by lia.
Qed.

(** One wide flit: its parts continue the numbering. *)
Lemma serialize_flit_spec cur f k b :
  packet_flit pid vc msg wide n_wide k f → 0 ≤ k < n_wide →
  enSerDes b = true → widths b = (w, wide) → has_channel vc b →
  zlookup (sizeSent b) vc = Some (k * wide) →
  let last := bool_decide (k = n_wide - 1) in
  let c := if last then n_narrow - k * r else r in
  ∃ b' ticks outs,
    flitisizeAndSend cclk cur b f = Ok (b', [(vc, c)], ticks) ∧ sent b b' outs ∧
    same_bridge b b' ∧ has_channel vc b' ∧
    zlookup (sizeSent b') vc = Some (if last then 0 else (k + 1) * wide) ∧
    (last = true → zlookup (flitsSent b') vc = Some 0) ∧
    Forall2 (packet_flit pid vc msg w n_narrow) (seqZ (k * r) c) outs.
Proof.
  intros Hf Hk Hen Hwd (Hc1 & Hc2 & Hc3) Hsz last c.
  pose proof counts as (HW & HN & HNr & _).
  unfold flitisizeAndSend. rewrite Hen. fold (widths b). rewrite Hwd.
  assert (0 < wide) as Hwp by (unfold wide; nia).
  assert (w < wide) as Hww by (unfold wide; nia).
  destruct (Z.eqb_spec w wide); [lia|]. cbn [negb assert rbind].
  destruct (Z.ltb_spec wide w); [lia|].
  unfold serialize_and_send.
  assert (0 < c ∧ k * r + c ≤ n_narrow) as [Hc Hcn].
  { unfold c, last. case_bool_decide; nia. }
  pose proof Hf as (_ & Hvc & Hms & Hwf & _ & Hid & Hty & _).
  assert (∃ b1, serialize_track b f wide w = Ok (b1, c) ∧ sent b b1 [] ∧ same_bridge b b1 ∧
    has_channel vc b1 ∧ zlookup (sizeSent b1) vc = Some (if last then 0 else (k + 1) * wide) ∧
    (last = true → zlookup (flitsSent b1) vc = Some 0))
    as (b1 & -> & Hs1 & Hb1 & Hch1 & Hz1 & Hfl1).
  { unfold serialize_track. rewrite Hvc, Hid, Hms, Hty.
    rewrite (proj2 (vget_Ok _ _ _) Hsz). cbn [rbind].
    destruct (type_of_cases k n_wide Hk) as [[Hlast Ht]|[Hlast Ht]].
    - unfold c, last. rewrite !bool_decide_eq_true_2 by done.
      exists (with_tracking b (lenBuffer b) (<[Z.to_nat vc := 0]> (sizeSent b))
                (<[Z.to_nat vc := 0]> (flitsSent b)) (extraCredit b)).
      assert (ceil_div_f32 (msg - k * wide) w = n_narrow - k * r) as Ec.
      { rewrite ceil_div_f32_exact by (unfold wide in *; nia). apply divCeil_spec; [done|].
        unfold wide in *. nia. }
      split_and!; [destruct Ht as [-> | ->]; rewrite !vset_intro by lia;
                   cbn [rbind]; by rewrite Ec|by apply sent_nil|done| | |].
      + unfold has_channel. cbn. rewrite !zlen_insert. done.
      + cbn. by rewrite zlookup_insert_eq.
      + intros _. cbn. by rewrite zlookup_insert_eq by lia.
    - unfold c, last. rewrite !bool_decide_eq_false_2 by lia.
      assert (floor_div_f32 ((k + 1) * wide - k * wide) w = r) as Ec.
      { replace ((k + 1) * wide - k * wide) with wide by lia.
        rewrite floor_div_f32_exact by (unfold wide in *; nia). unfold wide.
        apply Z.div_mul. lia. }
      destruct (zlookup_is_Some (flitsSent b) vc) as [x Hx]; [lia|].
      exists (with_tracking b (lenBuffer b) (<[Z.to_nat vc := k * wide + r * w]> (sizeSent b))
                (<[Z.to_nat vc := x + r]> (flitsSent b)) (extraCredit b)).
      split_and!; [|by apply sent_nil|done| | |done].
      + rewrite Ec. destruct (Z.eqb_spec r 0); [lia|]. cbn [negb].
        destruct Ht as [-> | ->]; rewrite vset_intro by lia; cbn [rbind];
          by rewrite (vupd_intro _ _ _ x (x + r)) by done.
      + unfold has_channel. cbn. rewrite !zlen_insert. done.
      + cbn. rewrite zlookup_insert_eq by done. f_equal. unfold wide. lia. }
  cbn [rbind]. destruct (Z.ltb_spec 0 c); [|lia]. cbn [assert rbind].
  destruct (send_parts_spec cur f k c (Z.to_nat c) 0 b1)
    as (b' & ticks & outs & -> & Hs & Hb & Hz & Hfl & Hln & Hall); [done|lia|lia|lia|].
  cbn [rbind]. rewrite Hty, Hvc.
  assert (bool_decide (type_of k n_wide = CREDIT_) = false) as ->.
  { apply bool_decide_eq_false_2. unfold type_of. by zcases. }
  exists b', ticks, outs. split_and!; [done|by apply (sent_app b b1 b' [] outs)
    |by eapply same_bridge_trans|..].
  - unfold has_channel. by rewrite Hz, Hfl, Hln.
  - by rewrite Hz.
  - by rewrite Hfl.
  - by rewrite Z.add_0_r, Z2Nat.id in Hall by lia.
Qed.

Lemma serialize_feed fs k b :
  Forall2 (packet_flit pid vc msg wide n_wide) (seqZ k (n_wide - k)) fs.*2 →
  0 ≤ k < n_wide → enSerDes b = true → widths b = (w, wide) → has_channel vc b →
  zlookup (sizeSent b) vc = Some (k * wide) →
  ∃ b' calls outs,
    feed cclk fs b = Ok (b', calls) ∧ sent b b' outs ∧
    zlookup (sizeSent b') vc = Some 0 ∧ zlookup (flitsSent b') vc = Some 0 ∧
    Forall2 (packet_flit pid vc msg w n_narrow) (seqZ (k * r) (n_narrow - k * r)) outs ∧
    Forall (λ c, c.1 = vc) calls ∧ sum_over snd calls = n_narrow - k * r.
Proof.
  pose proof counts as (_ & _ & HNr & _).
  revert k b. induction fs as [|[cur f] fs IH]; intros k b HF Hk Hen Hwd Hch Hsz;
    rewrite seqZ_cons in HF by lia; cbn [fmap list_fmap snd] in HF.
  { by apply Forall2_length in HF. }
  inversion HF as [|? ? ? ? Hf HF']; subst. cbn [feed].
  destruct (serialize_flit_spec cur f k b) as (b1 & ticks & o1 & -> & Hs1 & Hb1 & Hch1 & Hz1 & Hl1 & Ho1);
    [done..|]. cbn [rbind].
  destruct (bool_decide_reflect (k = n_wide - 1)) as [Hlast|Hnot].
  - destruct fs as [|x fs].
    + cbn [feed rbind]. exists b1, [(vc, n_narrow - k * r)], o1.
      split_and!; try done; [by apply Hl1|by repeat constructor|]. cbn. lia.
    + exfalso. apply Forall2_length in HF'. rewrite length_seqZ in HF'. cbn in HF'. lia.
  - destruct (IH (k + 1) b1) as (b' & calls & outs & -> & Hs & Hz & Hl & Ho & Hc & Hsum).
    + by replace (n_wide - (k + 1)) with (Z.pred (n_wide - k)) by lia.
    + lia.
    + by destruct Hb1 as (_ & -> & _).
    + by rewrite (same_bridge_widths _ _ Hb1).
    + done.
    + done.
    + cbn [rbind]. exists b', ([(vc, r)] ++ calls), (o1 ++ outs).
      split_and!; [done|by eapply sent_app|done|done| |by constructor|].
      * replace (n_narrow - k * r) with (r + (n_narrow - (k + 1) * r)) by lia.
        rewrite seqZ_app by nia. apply Forall2_app; [done|].
        by replace (k * r + r) with ((k + 1) * r) by lia.
      * unfold sum_over in *. simpl. rewrite Hsum. lia.
Qed.

End serialise.

(** C20: where the width of the bridge divides that of the link it reads from, a
    serialising bridge cuts a packet exactly.  Fed the flits of a packet of [msg]
    bits from a link [r] times as wide as its own, [r] an integer above 1 and
    [msg + 2 * r * w] below [2^24] so that single precision is exact, the bridge
    puts on its link the flits [0 .. n - 1] of the same packet for its own width
    [w], [n] the number of flits of that width the packet needs, in order and with
    no other in between; the numbers of credits it announces to its co-bridge add
    up to [n], and both counters of the channel are zero again for the next packet.
    Without the condition on the widths this fails: see
    [SerdesExample.serialize_uneven]. *)
Theorem serialize_packet cclk pid vc msg w r fs b :
  0 < w → 1 < r → 0 < msg → msg + 2 * (r * w) < 2 ^ 24 →
  Forall2 (packet_flit pid vc msg (r * w) (divCeil msg (r * w)))
    (seqZ 0 (divCeil msg (r * w))) fs.*2 →
  enSerDes b = true → widths b = (w, r * w) → has_channel vc b →
  zlookup (sizeSent b) vc = Some 0 →
  let n := divCeil msg w in
  ∃ b' calls outs,
    feed cclk fs b = Ok (b', calls) ∧ sent b b' outs ∧
    Forall2 (packet_flit pid vc msg w n) (seqZ 0 n) outs ∧
    Forall (λ c, c.1 = vc) calls ∧ sum_over snd calls = n ∧
    zlookup (sizeSent b') vc = Some 0 ∧ zlookup (flitsSent b') vc = Some 0.
Proof.
  intros Hw Hr Hm Hfit HF Hen Hwd Hch Hz n.
  pose proof (counts msg w r Hw Hr Hm) as (_ & _ & _ & Hpos).
  destruct (serialize_feed cclk pid vc msg w r Hw Hr Hm Hfit fs 0 b)
    as (b' & calls & outs & H1 & H2 & H3 & H3' & H4 & H5 & H6); try done.
  { by rewrite Z.sub_0_r. }
  rewrite Z.mul_0_l, Z.sub_0_r in *. exists b', calls, outs. by split_and!.
Qed.


(** ** Merging *)

Section deserialise.
  Variables (cclk : Clocked.t) (pid vc msg w r : Z).
  Hypothesis (Hw : 0 < w) (Hr : 1 < r) (Hmsg : 0 < msg).
  Hypothesis Hfit : msg + 2 * (r * w) < 2 ^ 24.

#[local] Notation wide := (wide w r).
#[local] Notation n_wide := (n_wide msg w r).
#[local] Notation n_narrow := (n_narrow msg w).

(** A flit is complete after every [r] narrow ones, and at the end. *)
Definition completes (k : Z) : bool :=
  bool_decide (k = n_narrow - 1) || bool_decide (k mod r = r - 1).

(** The bookkeeping before narrow flit [k]. *)
Definition merging (k : Z) (b : t) : Prop :=
  zlookup (sizeSent b) vc = Some (k / r * wide) ∧ zlookup (flitsSent b) vc = Some (k / r * r).

Lemma div_facts k :
  0 ≤ k < n_narrow →
  k = k / r * r + k mod r ∧ 0 ≤ k mod r < r ∧ 0 ≤ k / r < n_wide ∧
  k * w < msg ∧ (k = n_narrow - 1 → msg ≤ (k + 1) * w) ∧
  (k mod r = r - 1 → (k + 1) / r = k / r + 1) ∧
  (k mod r ≠ r - 1 → (k + 1) / r = k / r) ∧
  divCeil (k + 1) r = k / r + 1.
Proof.
  intros Hk. pose proof (counts msg w r Hw Hr Hmsg) as (HW & HN & HNr & _).
  pose proof (Z.div_mod k r ltac:(lia)). pose proof (Z.mod_pos_bound k r ltac:(lia)).
  assert (0 ≤ k / r) by (apply Z.div_pos; lia). unfold Serdes.wide in *.
  split_and!; try nia.
  - intros Hm. symmetry. apply (Z.div_unique _ _ _ 0); nia.
  - intros Hm. symmetry. apply (Z.div_unique _ _ _ (k mod r + 1)); nia.
  - apply divCeil_spec; nia.
Qed.

Lemma deserialize_track_spec f k b :
  packet_flit pid vc msg w n_narrow k f → 0 ≤ k < n_narrow → has_channel vc b →
  merging k b →
  ∃ b1, deserialize_track b f w wide =
          Ok (b1, if completes k then 1 else 0, k + 1 - k / r * r) ∧
    linkBuffer b1 = linkBuffer b ∧ same_bridge b b1 ∧ has_channel vc b1 ∧
    lenBuffer b1 = lenBuffer b ∧
    (if bool_decide (k = n_narrow - 1) then merging 0 b1 else merging (k + 1) b1).
Proof.
  intros Hf Hk (Hc1 & Hc2 & Hc3) [Hsz Hfs].
  pose proof Hf as (_ & Hvc & Hms & _ & _ & Hid & Hty & _).
  destruct (div_facts k Hk) as (Hdm & Hmr & Hdr & Hlo & Hhi & Hs1 & Hs2 & _).
  pose proof (counts msg w r Hw Hr Hmsg) as (HW & HN & HNr & _).
  unfold deserialize_track. rewrite Hvc, Hid, Hms, Hty.
  rewrite (vget_intro _ _ _ Hsz), (vget_intro _ _ _ Hfs). cbn [rbind]. unfold completes.
  assert (0 < wide) by (unfold Serdes.wide; nia).
  destruct (type_of_cases k n_narrow Hk) as [[Hlast Ht]|[Hlast Ht]].
  - rewrite bool_decide_eq_true_2 by done. cbn [orb].
    assert (ceil_div_f32 (msg - k / r * wide) wide = 1) as Ec.
    { specialize (Hhi Hlast). rewrite ceil_div_f32_exact by (unfold Serdes.wide in *; nia).
      apply divCeil_spec; unfold Serdes.wide in *; nia. }
    exists (with_tracking b (lenBuffer b) (<[Z.to_nat vc := 0]> (sizeSent b))
              (<[Z.to_nat vc := 0]> (flitsSent b)) (extraCredit b)).
    split_and!; try done.
    + destruct Ht as [-> | ->]; rewrite Ec; cbn [Z.ltb Z.compare Pos.compare
        Pos.compare_cont assert rbind]; rewrite !vset_intro by lia; done.
    + unfold has_channel. cbn. rewrite !zlen_insert. done.
    + unfold merging. cbn. rewrite !zlookup_insert_eq by lia. by rewrite Z.div_0_l by lia.
  - rewrite (bool_decide_eq_false_2 (k = n_narrow - 1)) by lia. cbn [orb].
    assert (floor_div_f32 ((k + 1) * w - k / r * wide) wide =
            if bool_decide (k mod r = r - 1) then 1 else 0) as Ec.
    { rewrite floor_div_f32_exact by (unfold Serdes.wide in *; nia).
      case_bool_decide; symmetry.
      - apply (Z.div_unique _ _ _ 0); unfold Serdes.wide in *; nia.
      - apply (Z.div_unique _ _ _ ((k + 1) * w - k / r * wide)); unfold Serdes.wide in *; nia. }
    rewrite Ec. case_bool_decide as Hm.
    + exists (with_tracking b (lenBuffer b)
        (<[Z.to_nat vc := k / r * wide + wide]> (sizeSent b))
        (<[Z.to_nat vc := k + 1]> (flitsSent b)) (extraCredit b)).
      split_and!; try done.
      * destruct Ht as [-> | ->]; rewrite !vset_intro by lia; done.
      * unfold has_channel. cbn. rewrite !zlen_insert. done.
      * unfold merging. cbn. rewrite !zlookup_insert_eq by lia. rewrite (Hs1 Hm).
        split; f_equal; lia.
    + exists b. split_and!; try done.
      * by destruct Ht as [-> | ->].
      * unfold merging. by rewrite (Hs2 Hm).
Qed.

(** One narrow flit: when it completes a wide one, that one is sent. *)
Lemma deserialize_flit_spec cur f k b :
  packet_flit pid vc msg w n_narrow k f → 0 ≤ k < n_narrow →
  enSerDes b = true → widths b = (wide, w) → has_channel vc b → merging k b →
  ∃ b' ticks outs,
    flitisizeAndSend cclk cur b f =
      Ok (b', if completes k then [(vc, k + 1 - k / r * r)] else [], ticks) ∧
    sent b b' outs ∧ same_bridge b b' ∧ has_channel vc b' ∧
    (if bool_decide (k = n_narrow - 1) then merging 0 b' else merging (k + 1) b') ∧
    Forall2 (packet_flit pid vc msg wide n_wide)
      (if completes k then [k / r] else []) outs.
Proof.
  intros Hf Hk Hen Hwd Hch Hmg.
  destruct (div_facts k Hk) as (Hdm & Hmr & Hdr & Hlo & _ & _ & _ & Hdc).
  unfold flitisizeAndSend. rewrite Hen. fold (widths b). rewrite Hwd.
  assert (w < wide) by (unfold Serdes.wide; nia).
  destruct (Z.eqb_spec wide w); [lia|]. cbn [negb assert rbind].
  destruct (Z.ltb_spec w wide); [|lia]. unfold deserialize_and_send.
  destruct (deserialize_track_spec f k b) as (b1 & -> & Hl1 & Hb1 & Hch1 & Hn1 & Hm1); [done..|].
  cbn [rbind]. destruct (completes k); cbn [Z.eqb].
  2:{ exists b1, [], []. split_and!; try done. by apply sent_nil. }
  pose proof Hf as (_ & Hvc & Hms & Hwf & _ & Hid & Hty & Hfree).
  destruct Hch1 as (Hc1 & Hc2 & Hc3). rewrite Hvc.
  destruct (vget_total (lenBuffer b1) vc) as [ln ->]; [lia|]. cbn [rbind].
  unfold deserialize. rewrite Hfree, Hwf, Hid, Hms.
  pose proof (counts msg w r Hw Hr Hmsg) as (HW & HN & HNr & _).
  rewrite (divCeil_f32_exact wide w), (divCeil_f32_exact msg wide)
    by (unfold Serdes.wide in *; nia).
  assert (divCeil wide w = r) as ->.
  { apply divCeil_spec; [done|]. unfold Serdes.wide. nia. }
  rewrite divCeil_f32_exact by (unfold Serdes.wide in *; nia). rewrite Hdc.
  change (divCeil msg wide) with n_wide. replace (k / r + 1 - 1) with (k / r) by lia.
  destruct (Z.ltb_spec (k / r) n_wide); [|lia]. cbn [assert rbind].
  rewrite vset_intro by lia. cbn [rbind]. rewrite Hty.
  assert (bool_decide (type_of k n_narrow = CREDIT_) = false) as ->.
  { apply bool_decide_eq_false_2. unfold type_of. by zcases. }
  destruct (scheduleFlit _ _ _ _ _) as [b' tk] eqn:E.
  apply scheduleFlit_spec in E as (Hs & Hb & Hz & Hfl & Hln & _).
  eexists b', [tk], [_]. split_and!; [done| |by eapply same_bridge_trans| | |].
  - unfold sent in *. rewrite Hs, <- Hl1. done.
  - unfold has_channel. rewrite Hz, Hfl, Hln. cbn. rewrite zlen_insert. done.
  - unfold merging in *. rewrite Hz, Hfl. done.
  - apply Forall2_cons. split; [|done]. apply packet_flit_time.
    by eapply reshaped_packet_flit.
Qed.

Lemma deserialize_feed fs k b :
  Forall2 (packet_flit pid vc msg w n_narrow) (seqZ k (n_narrow - k)) fs.*2 →
  0 ≤ k < n_narrow → enSerDes b = true → widths b = (wide, w) → has_channel vc b →
  merging k b →
  ∃ b' calls outs,
    feed cclk fs b = Ok (b', calls) ∧ sent b b' outs ∧ merging 0 b' ∧
    Forall2 (packet_flit pid vc msg wide n_wide) (seqZ (k / r) (n_wide - k / r)) outs ∧
    Forall (λ c, c.1 = vc) calls ∧ sum_over snd calls = n_narrow - k / r * r.
Proof.
  pose proof (counts msg w r Hw Hr Hmsg) as (HW & HN & HNr & _).
  revert k b. induction fs as [|[cur f] fs IH]; intros k b HF Hk Hen Hwd Hch Hmg;
    rewrite seqZ_cons in HF by lia; cbn [fmap list_fmap snd] in HF.
  { by apply Forall2_length in HF. }
  inversion HF as [|? ? ? ? Hf HF']; subst. cbn [feed].
  destruct (div_facts k Hk) as (Hdm & Hmr & Hdr & Hlo & Hhi & Hs1 & Hs2 & _).
  destruct (deserialize_flit_spec cur f k b)
    as (b1 & ticks & o1 & -> & Ho & Hb1 & Hch1 & Hm1 & Ho1); [done..|]. cbn [rbind].
  unfold completes in *. destruct (bool_decide_reflect (k = n_narrow - 1)) as [Hlast|Hnot].
  - cbn [orb] in *. destruct fs as [|x fs].
    + assert (n_wide - k / r = 1) as -> by (unfold Serdes.wide in *; nia).
      exists b1, [(vc, k + 1 - k / r * r)], o1. split_and!; try done.
      * by constructor.
      * unfold sum_over. simpl. lia.
    + exfalso. apply Forall2_length in HF'. rewrite length_seqZ in HF'. cbn in HF'. lia.
  - cbn [orb] in *. destruct (IH (k + 1) b1) as (b' & calls & outs & -> & Hs & Hz & Hos & Hc & Hsum).
    + by replace (n_narrow - (k + 1)) with (Z.pred (n_narrow - k)) by lia.
    + lia.
    + by destruct Hb1 as (_ & -> & _).
    + by rewrite (same_bridge_widths _ _ Hb1).
    + done.
    + done.
    + cbn [rbind]. case_bool_decide as Hm.
      * rewrite (Hs1 Hm) in *. exists b', ([(vc, k + 1 - k / r * r)] ++ calls), (o1 ++ outs).
        split_and!; [done|by eapply sent_app|done| |by constructor|].
        -- rewrite seqZ_cons by lia. change (k / r :: ?l) with ([k / r] ++ l).
           apply Forall2_app; [done|].
           by replace (Z.pred (n_wide - k / r)) with (n_wide - (k / r + 1)) by lia.
        -- unfold sum_over in *. simpl. rewrite Hsum. lia.
      * rewrite (Hs2 Hm) in *. exists b', calls, (o1 ++ outs).
        inversion Ho1; subst. split_and!; try done. by eapply (sent_app b b1 b' []).
Qed.

End deserialise.

(** C21: where the width of the bridge is a multiple of that of the link it reads
    from, a deserialising bridge reassembles a packet exactly.  Fed the flits of a
    packet of [msg] bits from a link of width [w], a bridge [r] times as wide, [r] an
    integer above 1 and [msg + 2 * r * w] below [2^24], puts on its link the flits [0 .. n - 1] of the same packet for its own
    width, in order; the numbers it announces to its co-bridge add up to the
    narrow flits it consumed, so that as many credits return, and both counters of
    the channel are zero again.  Without the condition on the widths this fails: see
    [SerdesExample.deserialize_uneven]. *)
Theorem deserialize_packet cclk pid vc msg w r fs b :
  0 < w → 1 < r → 0 < msg → msg + 2 * (r * w) < 2 ^ 24 →
  Forall2 (packet_flit pid vc msg w (divCeil msg w)) (seqZ 0 (divCeil msg w)) fs.*2 →
  enSerDes b = true → widths b = (r * w, w) → has_channel vc b →
  zlookup (sizeSent b) vc = Some 0 → zlookup (flitsSent b) vc = Some 0 →
  let n := divCeil msg (r * w) in
  ∃ b' calls outs,
    feed cclk fs b = Ok (b', calls) ∧ sent b b' outs ∧
    Forall2 (packet_flit pid vc msg (r * w) n) (seqZ 0 n) outs ∧
    Forall (λ c, c.1 = vc) calls ∧ sum_over snd calls = divCeil msg w ∧
    zlookup (sizeSent b') vc = Some 0 ∧ zlookup (flitsSent b') vc = Some 0.
Proof.
  intros Hw Hr Hm Hfit HF Hen Hwd Hch Hz Hfl n.
  pose proof (divCeil_pos msg w Hw Hm).
  destruct (deserialize_feed cclk pid vc msg w r Hw Hr Hm Hfit fs 0 b)
    as (b' & calls & outs & H1 & H2 & [H3 H3'] & H4 & H5 & H6); try done.
  { by rewrite Z.sub_0_r. }
  rewrite Z.div_0_l, Z.mul_0_l, !Z.sub_0_r in * by lia. exists b', calls, outs. by split_and!.
Qed.

(** ** A packet of 150 bits between links of 64 and 16 bits *)

Module SerdesExample.

Definition clock : Clocked.t := Clocked.make 1000.

(** The bridge of a 16-bit link behind a 64-bit object link, and the converse. *)
Definition bridge (own other : Z) : t :=
  match make (NetworkLink.make 0 1 1 [] own clock) other LINK_OBJECT 1 1 with
  | Ok b => setVcsPerVnet b 2
  | Err _ => mk (NetworkLink.make 0 1 1 [] own clock) other true true LINK_OBJECT 1 1 0 [] [] [] []
  end.

Definition message (msg width size : Z) : list (Tick * flit) :=
  (λ i, (1000 * (i + 1), new_flit 9 i 1 0 (RouteInfo0 []) size None msg width 0)) <$> seqZ 0 size.

Definition packet : Z → Z → list (Tick * flit) := message 150.

Lemma serialize_packet_witness :
  ∃ b' calls outs,
    feed clock (packet 64 3) (bridge 16 64) = Ok (b', calls) ∧
    sent (bridge 16 64) b' outs ∧
    Forall2 (packet_flit 9 1 150 16 10) (seqZ 0 10) outs ∧ sum_over snd calls = 10.
Proof.
  destruct (serialize_packet clock 9 1 150 16 4 (packet 64 3) (bridge 16 64))
    as (b' & calls & outs & H1 & H2 & H3 & _ & H5 & _);
    [lia|lia|lia|lia|vm_compute; repeat constructor|reflexivity|reflexivity
    |vm_compute; repeat split; discriminate|reflexivity|].
  exists b', calls, outs. split; [exact H1|]. split; [exact H2|]. split; [exact H3|exact H5].
Defined.

Lemma deserialize_packet_witness :
  ∃ b' calls outs,
    feed clock (packet 16 10) (bridge 64 16) = Ok (b', calls) ∧
    sent (bridge 64 16) b' outs ∧
    Forall2 (packet_flit 9 1 150 64 3) (seqZ 0 3) outs ∧ sum_over snd calls = 10.
Proof.
  destruct (deserialize_packet clock 9 1 150 16 4 (packet 16 10) (bridge 64 16))
    as (b' & calls & outs & H1 & H2 & H3 & _ & H5 & _);
    [lia|lia|lia|lia|vm_compute; repeat constructor|reflexivity|reflexivity
    |vm_compute; repeat split; discriminate|reflexivity|reflexivity|].
  exists b', calls, outs. split; [exact H1|]. split; [exact H2|]. split; [exact H3|exact H5].
Defined.

(** Widths that do not divide each other.  A packet of 192 bits on a link of 96 bits
    comes in two flits; the first is cut into one flit of 64 bits, numbered 0, and the
    second into two, numbered from 2, so that the assertion on the numbers fails. *)
Lemma serialize_uneven :
  feed clock (take 1 (message 192 96 2)) (bridge 64 96) ≠ Err AssertFailed ∧
  feed clock (message 192 96 2) (bridge 64 96) = Err AssertFailed.
Proof. split; [vm_compute; discriminate|vm_compute; reflexivity]. Qed.

(** In the other direction the numbers of the flits repeat: a packet of 384 bits on a
    link of 64 bits leaves a link of 96 bits with flits 0, 1, 2 and 2 of 4, none of
    them the tail. *)
Lemma deserialize_uneven :
  (λ '(b, _), (λ f, (flit_m_id f, flit_m_size f, flit_m_type f)) <$>
                FlitBuffer.m_buffer (linkBuffer b))
    <$> (match feed clock (message 384 64 6) (bridge 96 64) with
         | Ok r => Some r | Err _ => None end) =
  Some [(0, 4, HEAD_); (1, 4, BODY_); (2, 4, BODY_); (2, 4, BODY_)].
Proof. vm_compute. reflexivity. Qed.

End SerdesExample.
