(* ===== verification/MessageBuffer.v ===== *)
(** * Message buffers

    [mem/ruby/network/MessageBuffer.{hh,cc}] and the base class of
    [mem/ruby/slicc_interface/Message.hh].  [m_prio_heap] is kept by
    [std::push_heap]/[std::pop_heap] under [std::greater]: what the code reads
    of it is its least element in the order of (last enqueue time, message
    counter), so it is the list of its messages in that order.  The consumer is
    another object: an operation that schedules it returns the ticks.

    The random generator is outside: the values it draws are arguments. *)

From S2P Require Import Prelude.
From S2P Require Import IntMath.
From S2P Require Import Flit.
From S2P Require Import Clocking.

(** ** [Message] *)

Module Message.

Record t := mk {
  msg_ref : nat;
  m_time : Tick;
  m_LastEnqueueTime : Tick;
  m_DelayedTicks : Tick;
  m_msg_counter : Z;
}.

(** [Message(curTime)] *)
Definition make (ref : nat) (curTime : Tick) : t := mk ref curTime curTime 0 0.

Definition updateDelayedTicks (m : t) (curTime : Tick) : result t :=
  _ ← assert (m_LastEnqueueTime m <=? curTime);
  let delta := curTime - m_LastEnqueueTime m in
  Ok (mk (msg_ref m) (m_time m) (m_LastEnqueueTime m) (m_DelayedTicks m + delta)
         (m_msg_counter m)).

Definition setLastEnqueueTime (m : t) (time : Tick) : t :=
  mk (msg_ref m) (m_time m) time (m_DelayedTicks m) (m_msg_counter m).

Definition setMsgCounter (m : t) (c : Z) : t :=
  mk (msg_ref m) (m_time m) (m_LastEnqueueTime m) (m_DelayedTicks m) c.

(** [operator>] *)
Definition gt (l r : t) : bool :=
  if m_LastEnqueueTime l =? m_LastEnqueueTime r
  then m_msg_counter r <? m_msg_counter l
  else m_LastEnqueueTime r <? m_LastEnqueueTime l.

End Message.

Inductive MessageRandomization := rand_enabled | rand_disabled | rand_ruby_system.

#[export] Instance MessageRandomization_eq_dec : EqDecision MessageRandomization.
Proof. solve_decision. Defined.

(** [RubySystem::getRandomization()] and [RubySystem::getWarmupEnabled()] *)
Record RubyFlags := mkRubyFlags { randomization : bool; warmup_enabled : bool }.

(** [random_time()], given its draws from [0..3], [0..7] and [1..15]. *)
Definition random_time (a b c : Z) : Tick :=
  let time := 1 + a in
  if b =? 0 then time + (100 + c) else time.

Definition MaxTick : Tick := 2 ^ 64 - 1.

Module MessageBuffer.

Record t := mk {
  has_consumer : bool;
  m_prio_heap : list Message.t;
  m_dequeue_callback : bool;
  m_stall_msg_map : list (Z * list Message.t);
  m_deferred_msg_map : gmap Z (list Message.t);
  m_stall_map_size : Z;
  m_max_size : Z;
  m_max_dequeue_rate : Z;
  m_dequeues_this_cy : Z;
  m_time_last_time_size_checked : Tick;
  m_size_last_time_size_checked : Z;
  m_time_last_time_enqueue : Tick;
  m_time_last_time_pop : Tick;
  m_last_arrival_time : Tick;
  m_size_at_cycle_start : Z;
  m_stalled_at_cycle_start : Z;
  m_msgs_this_cycle : Z;
  m_msg_counter : Z;
  m_last_message_strict_fifo_bypassed : bool;
  m_strict_fifo : bool;
  m_randomization : MessageRandomization;
  m_allow_zero_latency : bool;
  m_not_avail_count : Z;
  m_msg_count : Z;
  m_buf_msgs : Z;
  m_stall_time : Z;
  m_stall_count : Z;
}.

(** [MessageBuffer(p)] *)
Definition make (buffer_size max_dequeue_rate : Z) (ordered : bool)
    (rnd : MessageRandomization) (allow_zero_latency : bool) : t :=
  mk false [] false [] ∅ 0 buffer_size max_dequeue_rate 0 0 0 0 0 0 0 0 0 0 false
     ordered rnd allow_zero_latency 0 0 0 0 0.

(** Setters. *)
Definition with_heap (b : t) (h : list Message.t) : t :=
  mk (has_consumer b) h (m_dequeue_callback b) (m_stall_msg_map b)
     (m_deferred_msg_map b) (m_stall_map_size b) (m_max_size b)
     (m_max_dequeue_rate b) (m_dequeues_this_cy b)
     (m_time_last_time_size_checked b) (m_size_last_time_size_checked b)
     (m_time_last_time_enqueue b) (m_time_last_time_pop b) (m_last_arrival_time b)
     (m_size_at_cycle_start b) (m_stalled_at_cycle_start b) (m_msgs_this_cycle b)
     (m_msg_counter b) (m_last_message_strict_fifo_bypassed b) (m_strict_fifo b)
     (m_randomization b) (m_allow_zero_latency b) (m_not_avail_count b)
     (m_msg_count b) (m_buf_msgs b) (m_stall_time b) (m_stall_count b).

Definition with_stalled (b : t) (m : list (Z * list Message.t)) (size count : Z) : t :=
  mk (has_consumer b) (m_prio_heap b) (m_dequeue_callback b) m
     (m_deferred_msg_map b) size (m_max_size b)
     (m_max_dequeue_rate b) (m_dequeues_this_cy b)
     (m_time_last_time_size_checked b) (m_size_last_time_size_checked b)
     (m_time_last_time_enqueue b) (m_time_last_time_pop b) (m_last_arrival_time b)
     (m_size_at_cycle_start b) (m_stalled_at_cycle_start b) (m_msgs_this_cycle b)
     (m_msg_counter b) (m_last_message_strict_fifo_bypassed b) (m_strict_fifo b)
     (m_randomization b) (m_allow_zero_latency b) (m_not_avail_count b)
     (m_msg_count b) (m_buf_msgs b) (m_stall_time b) count.

Definition with_deferred (b : t) (m : gmap Z (list Message.t)) : t :=
  mk (has_consumer b) (m_prio_heap b) (m_dequeue_callback b) (m_stall_msg_map b)
     m (m_stall_map_size b) (m_max_size b)
     (m_max_dequeue_rate b) (m_dequeues_this_cy b)
     (m_time_last_time_size_checked b) (m_size_last_time_size_checked b)
     (m_time_last_time_enqueue b) (m_time_last_time_pop b) (m_last_arrival_time b)
     (m_size_at_cycle_start b) (m_stalled_at_cycle_start b) (m_msgs_this_cycle b)
     (m_msg_counter b) (m_last_message_strict_fifo_bypassed b) (m_strict_fifo b)
     (m_randomization b) (m_allow_zero_latency b) (m_not_avail_count b)
     (m_msg_count b) (m_buf_msgs b) (m_stall_time b) (m_stall_count b).

(** The consumer, the callback and the sampled size. *)
Definition with_links (b : t) (consumer callback : bool) (checked : Tick) (size : Z)
    (not_avail : Z) : t :=
  mk consumer (m_prio_heap b) callback (m_stall_msg_map b)
     (m_deferred_msg_map b) (m_stall_map_size b) (m_max_size b)
     (m_max_dequeue_rate b) (m_dequeues_this_cy b) checked size
     (m_time_last_time_enqueue b) (m_time_last_time_pop b) (m_last_arrival_time b)
     (m_size_at_cycle_start b) (m_stalled_at_cycle_start b) (m_msgs_this_cycle b)
     (m_msg_counter b) (m_last_message_strict_fifo_bypassed b) (m_strict_fifo b)
     (m_randomization b) (m_allow_zero_latency b) not_avail
     (m_msg_count b) (m_buf_msgs b) (m_stall_time b) (m_stall_count b).

(** What an enqueue records. *)
Definition with_enqueue (b : t) (time_enqueue arrival : Tick) (msgs counter : Z)
    (bypassed : bool) : t :=
  mk (has_consumer b) (m_prio_heap b) (m_dequeue_callback b) (m_stall_msg_map b)
     (m_deferred_msg_map b) (m_stall_map_size b) (m_max_size b)
     (m_max_dequeue_rate b) (m_dequeues_this_cy b)
     (m_time_last_time_size_checked b) (m_size_last_time_size_checked b)
     time_enqueue (m_time_last_time_pop b) arrival
     (m_size_at_cycle_start b) (m_stalled_at_cycle_start b) msgs
     counter bypassed (m_strict_fifo b)
     (m_randomization b) (m_allow_zero_latency b) (m_not_avail_count b)
     (m_msg_count b) (m_buf_msgs b + 1) (m_stall_time b) (m_stall_count b).

(** What a dequeue records. *)
Definition with_dequeue (b : t) (time_pop : Tick) (size stalled dequeues : Z)
    (msg_count buf_msgs stall_time : Z) : t :=
  mk (has_consumer b) (m_prio_heap b) (m_dequeue_callback b) (m_stall_msg_map b)
     (m_deferred_msg_map b) (m_stall_map_size b) (m_max_size b)
     (m_max_dequeue_rate b) dequeues
     (m_time_last_time_size_checked b) (m_size_last_time_size_checked b)
     (m_time_last_time_enqueue b) time_pop (m_last_arrival_time b)
     size stalled (m_msgs_this_cycle b)
     (m_msg_counter b) (m_last_message_strict_fifo_bypassed b) (m_strict_fifo b)
     (m_randomization b) (m_allow_zero_latency b) (m_not_avail_count b)
     msg_count buf_msgs stall_time (m_stall_count b).

Definition setConsumer (b : t) : result t :=
  _ ← fatal_if (has_consumer b);
  Ok (with_links b true (m_dequeue_callback b) (m_time_last_time_size_checked b)
        (m_size_last_time_size_checked b) (m_not_avail_count b)).

Definition registerDequeueCallback (b : t) : t :=
  with_links b (has_consumer b) true (m_time_last_time_size_checked b)
    (m_size_last_time_size_checked b) (m_not_avail_count b).

Definition unregisterDequeueCallback (b : t) : t :=
  with_links b (has_consumer b) false (m_time_last_time_size_checked b)
    (m_size_last_time_size_checked b) (m_not_avail_count b).

(** *** The heap *)

(** [push_heap]: before the first message the new one is not greater than. *)
Fixpoint push_heap (m : Message.t) (h : list Message.t) : list Message.t :=
  match h with
  | [] => [m]
  | x :: h' => if Message.gt m x then x :: push_heap m h' else m :: h
  end.

Definition isEmpty (b : t) : bool := zlen (m_prio_heap b) =? 0.

Definition peekMsgPtr (b : t) : result Message.t := determinate (head (m_prio_heap b)).

(** [isReady]: the second component says that the consumer is scheduled for the
    next cycle because the dequeue rate is exhausted. *)
Definition isReady (b : t) (current_time : Tick) : result (bool * bool) :=
  _ ← assert (m_time_last_time_pop b <=? current_time);
  let can_dequeue := (m_max_dequeue_rate b =? 0) ||
                     (m_time_last_time_pop b <? current_time) ||
                     (m_dequeues_this_cy b <? m_max_dequeue_rate b) in
  let is_ready := match m_prio_heap b with
                  | [] => false
                  | m :: _ => Message.m_LastEnqueueTime m <=? current_time
                  end in
  Ok (can_dequeue && is_ready, negb can_dequeue && is_ready).

Definition readyTime (b : t) : Tick :=
  match m_prio_heap b with
  | [] => MaxTick
  | m :: _ => Message.m_LastEnqueueTime m
  end.

Definition getSize (b : t) (curTime : Tick) : Z * t :=
  if negb (m_time_last_time_size_checked b =? curTime) then
    let n := zlen (m_prio_heap b) in
    (n, with_links b (has_consumer b) (m_dequeue_callback b) curTime n
          (m_not_avail_count b))
  else (m_size_last_time_size_checked b, b).

Definition areNSlotsAvailable (b : t) (n : Z) (current_time : Tick) : bool * t :=
  if m_max_size b =? 0 then (true, b)
  else
    let '(current_size, current_stall_size) :=
      if m_time_last_time_pop b <? current_time
      then (zlen (m_prio_heap b), m_stall_map_size b)
      else if m_time_last_time_enqueue b <? current_time
      then (m_size_at_cycle_start b, m_stalled_at_cycle_start b)
      else (m_size_at_cycle_start b + m_msgs_this_cycle b,
            m_stalled_at_cycle_start b) in
    if current_size + current_stall_size + n <=? m_max_size b then (true, b)
    else
      (false, with_links b (has_consumer b) (m_dequeue_callback b)
                (m_time_last_time_size_checked b) (m_size_last_time_size_checked b)
                (m_not_avail_count b + 1)).

(** *** [enqueue] *)

(** The arrival time and the last arrival time it is computed from; [rnd] is
    what [random_time()] returns if it is called. *)
Definition arrival (fl : RubyFlags) (rnd : Tick) (b : t) (current_time delta : Tick)
    : Tick * Tick :=
  if bool_decide (m_randomization b = rand_disabled) ||
     (bool_decide (m_randomization b = rand_ruby_system) && negb (randomization fl))
  then (current_time + delta, m_last_arrival_time b)
  else if m_strict_fifo b then
    let last := if m_last_arrival_time b <? current_time then current_time
                else m_last_arrival_time b in
    (last + rnd, last)
  else (current_time + rnd, m_last_arrival_time b).

(** A null [message] fails an assertion.  Returns the tick the consumer is
    scheduled at. *)
Definition enqueue (fl : RubyFlags) (rnd : Tick) (b : t) (message : option Message.t)
    (current_time delta : Tick) (bypassStrictFIFO : bool) : result (t * Tick) :=
  let '(msgs, time_enqueue) :=
    if m_time_last_time_enqueue b <? current_time then (0, current_time)
    else (m_msgs_this_cycle b, m_time_last_time_enqueue b) in
  let counter := m_msg_counter b + 1 in
  let msgs := msgs + 1 in
  _ ← panic_if ((delta =? 0) && negb (m_allow_zero_latency b));
  let '(arrival_time, last) := arrival fl rnd b current_time delta in
  _ ← assert (current_time <=? arrival_time);
  _ ← panic_if (m_strict_fifo b &&
                negb (bypassStrictFIFO || m_last_message_strict_fifo_bypassed b) &&
                (arrival_time <? last));
  let last := if negb (warmup_enabled fl) then arrival_time else last in
  m ← (match message with Some m => Ok m | None => Err AssertFailed end);
  _ ← assert (Message.m_LastEnqueueTime m <=? current_time);
  m ← Message.updateDelayedTicks m current_time;
  let m := Message.setLastEnqueueTime m arrival_time in
  let m := Message.setMsgCounter m counter in
  let b := with_enqueue b time_enqueue last msgs counter bypassStrictFIFO in
  let b := with_heap b (push_heap m (m_prio_heap b)) in
  _ ← assert ((m_max_size b =? 0) ||
              (zlen (m_prio_heap b) + m_stall_map_size b <=? m_max_size b));
  _ ← assert (has_consumer b);
  Ok (b, arrival_time).

(** *** [dequeue] *)

(** Returns the delay of the message and whether the callback is called;
    [curTick] is read for the statistics. *)
Definition dequeue (b : t) (current_time curTick : Tick) (decrement_messages : bool)
    : result (Tick * t * bool) :=
  '(ready, _) ← isReady b current_time;
  _ ← assert ready;
  message ← determinate (head (m_prio_heap b));
  m ← Message.updateDelayedTicks message current_time;
  let '(time_pop, size, stalled, dequeues) :=
    if m_time_last_time_pop b <? current_time
    then (current_time, zlen (m_prio_heap b), m_stall_map_size b, 0)
    else (m_time_last_time_pop b, m_size_at_cycle_start b,
          m_stalled_at_cycle_start b, m_dequeues_this_cy b) in
  let '(count, bufs, stall_time) :=
    if decrement_messages
    then (m_msg_count b + 1, m_buf_msgs b - 1,
          m_stall_time b + (curTick - Message.m_LastEnqueueTime message))
    else (m_msg_count b, m_buf_msgs b, m_stall_time b) in
  let b := with_dequeue b time_pop size stalled (dequeues + 1) count bufs stall_time in
  Ok (Message.m_DelayedTicks m, with_heap b (tail (m_prio_heap b)),
      m_dequeue_callback b).

Definition clear (b : t) : t :=
  let b := with_heap b [] in
  mk (has_consumer b) [] (m_dequeue_callback b) (m_stall_msg_map b)
     (m_deferred_msg_map b) (m_stall_map_size b) (m_max_size b)
     (m_max_dequeue_rate b) (m_dequeues_this_cy b)
     (m_time_last_time_size_checked b) (m_size_last_time_size_checked b)
     0 0 (m_last_arrival_time b) 0 0 0 0
     (m_last_message_strict_fifo_bypassed b) (m_strict_fifo b)
     (m_randomization b) (m_allow_zero_latency b) (m_not_avail_count b)
     (m_msg_count b) (m_buf_msgs b) (m_stall_time b) (m_stall_count b).

Definition recycle (b : t) (current_time recycle_latency : Tick) : result (t * Tick) :=
  '(ready, _) ← isReady b current_time;
  _ ← assert ready;
  node ← determinate (head (m_prio_heap b));
  let future_time := current_time + recycle_latency in
  let node := Message.setLastEnqueueTime node future_time in
  Ok (with_heap b (push_heap node (tail (m_prio_heap b))), future_time).

(** [delayHead]: the head is enqueued again. *)
Definition delayHead (fl : RubyFlags) (rnd : Tick) (b : t) (current_time delta : Tick)
    : result (t * Tick) :=
  m ← determinate (head (m_prio_heap b));
  enqueue fl rnd (with_heap b (tail (m_prio_heap b))) (Some m) current_time delta false.

(** *** Stalled messages *)

(** [reanalyzeList]: the messages go back to the heap; the consumer is scheduled
    at [schdTick] for each. *)
Fixpoint reanalyzeList (lt : list Message.t) (schdTick : Tick) (h : list Message.t)
    : result (list Message.t) :=
  match lt with
  | [] => Ok h
  | m :: lt' =>
      _ ← assert (Message.m_LastEnqueueTime m <=? schdTick);
      reanalyzeList lt' schdTick (push_heap m h)
  end.

Definition stalled_for (m : list (Z * list Message.t)) (addr : Z)
    : option (list Message.t) :=
  match list_find (λ p, p.1 = addr) m with Some (_, (_, l)) => Some l | None => None end.

Definition hasStalledMsg (b : t) (addr : Z) : bool :=
  match stalled_for (m_stall_msg_map b) addr with Some _ => true | None => false end.

Definition reanalyzeMessages (b : t) (addr : Z) (current_time : Tick) : result t :=
  lt ← (match stalled_for (m_stall_msg_map b) addr with
        | Some lt => Ok lt | None => Err AssertFailed end);
  let size := m_stall_map_size b - zlen lt in
  _ ← assert (0 <=? size);
  h ← reanalyzeList lt current_time (m_prio_heap b);
  Ok (with_heap (with_stalled b (filter (λ p, p.1 ≠ addr) (m_stall_msg_map b)) size
                   (m_stall_count b)) h).

Definition reanalyzeAllMessages (b : t) (current_time : Tick) : result t :=
  '(size, h) ←
    foldl (λ acc p, '(size, h) ← acc;
             let size := size - zlen p.2 in
             _ ← assert (0 <=? size);
             h ← reanalyzeList p.2 current_time h;
             Ok (size, h))
      (Ok (m_stall_map_size b, m_prio_heap b)) (m_stall_msg_map b);
  Ok (with_heap (with_stalled b [] size (m_stall_count b)) h).

(** [m_stall_msg_map[addr].push_back(m)] of a map ordered by address. *)
Fixpoint push_stalled (m : list (Z * list Message.t)) (addr : Z) (x : Message.t)
    : list (Z * list Message.t) :=
  match m with
  | [] => [(addr, [x])]
  | (a, l) :: m' =>
      if a =? addr then (a, l ++ [x]) :: m'
      else if addr <? a then (addr, [x]) :: m
      else (a, l) :: push_stalled m' addr x
  end.

(** [stallMessage]; [offset] is [getOffset(addr)]. *)
Definition stallMessage (b : t) (addr offset : Z) (current_time curTick : Tick)
    : result (t * bool) :=
  '(ready, _) ← isReady b current_time;
  _ ← assert ready;
  _ ← assert (offset =? 0);
  message ← determinate (head (m_prio_heap b));
  updated ← Message.updateDelayedTicks message current_time;
  '(_, b, callback) ← dequeue b current_time curTick false;
  Ok (with_stalled b (push_stalled (m_stall_msg_map b) addr updated)
        (m_stall_map_size b + 1) (m_stall_count b + 1), callback).

Definition deferEnqueueingMessage (b : t) (addr : Z) (message : Message.t) : t :=
  with_deferred b
    (<[addr := default [] (m_deferred_msg_map b !! addr) ++ [message]]>
       (m_deferred_msg_map b)).

Definition isDeferredMsgMapEmpty (b : t) (addr : Z) : bool :=
  match m_deferred_msg_map b !! addr with Some _ => false | None => true end.

Definition enqueueDeferredMessages (fl : RubyFlags) (rnd : Tick) (b : t) (addr : Z)
    (curTime delay : Tick) : result (t * list Tick) :=
  _ ← assert (negb (isDeferredMsgMapEmpty b addr));
  let msg_vec := default [] (m_deferred_msg_map b !! addr) in
  _ ← assert (0 <? zlen msg_vec);
  '(b, ticks) ←
    foldl (λ acc m, '(b, ticks) ← acc;
             '(b, tick) ← enqueue fl rnd b (Some m) curTime delay false;
             Ok (b, ticks ++ [tick])) (Ok (b, [])) msg_vec;
  Ok (with_deferred b (delete addr (m_deferred_msg_map b)), ticks).

(** *** Functional accesses

    [access m p] is what [msg->functionalRead(pkt)], [functionalRead(pkt, mask)]
    or [functionalWrite(pkt)] answers and does; a read without mask stops at the
    first message that answers. *)
Section functional.
  Context {P : Type}.
  Variable access : nat → P → bool * P.

Fixpoint count_accesses (stop : bool) (ms : list Message.t) (n : Z) (p : P)
    : bool * Z * P :=
  match ms with
  | [] => (false, n, p)
  | m :: ms' =>
      let '(hit, p) := access (Message.msg_ref m) p in
      if (hit : bool) then if stop then (true, 1, p) else count_accesses stop ms' (n + 1) p
      else count_accesses stop ms' n p
  end.

Definition functionalAccess (stop : bool) (b : t) (p : P) : Z * P :=
  let '(_, n, p) :=
    count_accesses stop
      (m_prio_heap b ++ concat (m_stall_msg_map b).*2) 0 p in
  (n, p).

Definition functionalRead (b : t) (p : P) : bool * P :=
  let '(n, p) := functionalAccess true b p in (n =? 1, p).

(** With a mask every message is asked, and the answer is whether exactly one
    of them replied. *)
Definition functionalReadMask (b : t) (p : P) : bool * P :=
  let '(n, p) := functionalAccess false b p in (n =? 1, p).

Definition functionalWrite (b : t) (p : P) : Z * P := functionalAccess false b p.
End functional.

End MessageBuffer.

(** ** Capacity *)

Module BufferFacts.
Import MessageBuffer.

Definition total (b : t) : Z := zlen (m_prio_heap b) + m_stall_map_size b.

(** The size a buffer shows in a cycle with a pop is at least its real size: the
    pops of the cycle are not visible yet, the enqueues are. *)
Definition visible_inv (b : t) : Prop :=
  m_time_last_time_enqueue b ≤ m_time_last_time_pop b →
  total b ≤ m_size_at_cycle_start b + m_stalled_at_cycle_start b +
    (if m_time_last_time_enqueue b =? m_time_last_time_pop b then m_msgs_this_cycle b else 0).

Definition buffer_inv (now : Tick) (b : t) : Prop :=
  visible_inv b ∧ 0 ≤ m_msgs_this_cycle b ∧
  m_time_last_time_pop b ≤ now ∧ m_time_last_time_enqueue b ≤ now.

Lemma zlen_push_heap m h : zlen (push_heap m h) = zlen h + 1.
Proof.
  induction h as [|x h IH]; cbn [push_heap]; [done|].
  destruct (Message.gt m x); rewrite !zlen_cons; lia.
Qed.

Lemma make_inv size rate ord rnd z : buffer_inv 0 (make size rate ord rnd z).
Proof. split_and!; [intros _|..]; vm_compute; discriminate. Qed.

(** The parts of [enqueue] and [dequeue] that matter for sizes. *)
Lemma enqueue_Ok fl rnd b m now delta bp b' tick :
  enqueue fl rnd b m now delta bp = Ok (b', tick) →
  zlen (m_prio_heap b') = zlen (m_prio_heap b) + 1 ∧
  m_stall_map_size b' = m_stall_map_size b ∧ m_max_size b' = m_max_size b ∧
  m_time_last_time_pop b' = m_time_last_time_pop b ∧
  m_size_at_cycle_start b' = m_size_at_cycle_start b ∧
  m_stalled_at_cycle_start b' = m_stalled_at_cycle_start b ∧
  m_time_last_time_enqueue b' = Z.max (m_time_last_time_enqueue b) now ∧
  m_msgs_this_cycle b' =
    (if m_time_last_time_enqueue b <? now then 0 else m_msgs_this_cycle b) + 1.
Proof.
  unfold enqueue. intros He.
  destruct (m_time_last_time_enqueue b <? now) eqn:El; boolify; step_bind He as [] _;
  destruct (arrival fl rnd b now delta) as [ar la];
  step_bind He as [] _; step_bind He as [] _; step_bind He as m1 _; step_bind He as [] _;
  step_bind He as m2 _; step_bind He as [] _; step_bind He as [] _; injection He as <- <-;
  split_and!; cbn; try done; try lia; apply zlen_push_heap.
Qed.

Lemma dequeue_Ok b now cur dec d b' cb :
  dequeue b now cur dec = Ok (d, b', cb) →
  zlen (m_prio_heap b) = zlen (m_prio_heap b') + 1 ∧
  m_stall_map_size b' = m_stall_map_size b ∧ m_max_size b' = m_max_size b ∧
  m_time_last_time_enqueue b' = m_time_last_time_enqueue b ∧
  m_msgs_this_cycle b' = m_msgs_this_cycle b ∧
  (if m_time_last_time_pop b <? now
   then m_time_last_time_pop b' = now ∧
        m_size_at_cycle_start b' = zlen (m_prio_heap b) ∧
        m_stalled_at_cycle_start b' = m_stall_map_size b
   else m_time_last_time_pop b' = m_time_last_time_pop b ∧
        m_size_at_cycle_start b' = m_size_at_cycle_start b ∧
        m_stalled_at_cycle_start b' = m_stalled_at_cycle_start b).
Proof.
  unfold dequeue. intros Hd. step_bind Hd as [ready x] _. step_bind Hd as [] _.
  step_bind Hd as m Hm%determinate_Ok. step_bind Hd as m' _.
  assert (zlen (m_prio_heap b) = zlen (tail (m_prio_heap b)) + 1) as Hl.
  { destruct (m_prio_heap b); [done|]. rewrite zlen_cons. cbn [tail]. lia. }
  destruct (m_time_last_time_pop b <? now) eqn:E, dec; injection Hd as <- <- <-;
    by split_and!.
Qed.

Lemma enqueue_inv fl rnd b m now delta bp b' tick :
  buffer_inv now b → enqueue fl rnd b m now delta bp = Ok (b', tick) → buffer_inv now b'.
Proof.
  intros (Hv & Hm & Hp & He) (H1 & H2 & _ & H4 & H5 & H6 & H7 & H8)%enqueue_Ok.
  unfold buffer_inv, visible_inv, total in *. rewrite H1, H2, H4, H5, H6, H7, H8.
  split_and!; [|destruct (_ <? _); lia|lia|lia]. intros Hle.
  assert (m_time_last_time_pop b = now) by lia.
  destruct (Z.ltb_spec (m_time_last_time_enqueue b) now);
    destruct (Z.eqb_spec (Z.max (m_time_last_time_enqueue b) now) (m_time_last_time_pop b)); try lia.
  - destruct (Z.eqb_spec (m_time_last_time_enqueue b) (m_time_last_time_pop b)); lia.
  - destruct (Z.eqb_spec (m_time_last_time_enqueue b) (m_time_last_time_pop b)); lia.
Qed.

Lemma dequeue_inv b now cur dec d b' cb :
  buffer_inv now b → dequeue b now cur dec = Ok (d, b', cb) → buffer_inv now b'.
Proof.
  intros (Hv & Hm & Hp & He) (H1 & H2 & _ & H4 & H5 & H6)%dequeue_Ok.
  unfold buffer_inv, visible_inv, total in *. rewrite H2, H4, H5.
  destruct (Z.ltb_spec (m_time_last_time_pop b) now) as [Hlt|Hge];
    destruct H6 as (-> & -> & ->).
  - split_and!; [|lia|lia|lia]. intros _. clear Hv. destruct (m_time_last_time_enqueue b =? now); lia.
  - split_and!; [|lia|lia|lia]. intros Hle. specialize (Hv Hle). lia.
Qed.

(** Time passing keeps the invariant. *)
Lemma later_inv now now' b : now ≤ now' → buffer_inv now b → buffer_inv now' b.
Proof. intros Hle (? & ? & ? & ?). split_and!; done || lia. Qed.

Lemma available_total b n now b' :
  buffer_inv now b → areNSlotsAvailable b n now = (true, b') →
  m_max_size b = 0 ∨ total b + n ≤ m_max_size b.
Proof.
  intros (Hv & Hm & Hp & He). unfold areNSlotsAvailable.
  destruct (Z.eqb_spec (m_max_size b) 0); [by left|]. right. revert H.
  destruct (Z.ltb_spec (m_time_last_time_pop b) now).
  - destruct (Z.leb_spec (zlen (m_prio_heap b) + m_stall_map_size b + n) (m_max_size b)); [|done].
    unfold total. lia.
  - assert (m_time_last_time_pop b = now) as Hpn by lia.
    unfold visible_inv in Hv. specialize (Hv ltac:(lia)).
    destruct (Z.ltb_spec (m_time_last_time_enqueue b) now).
    + destruct (Z.leb_spec (m_size_at_cycle_start b + m_stalled_at_cycle_start b + n)
        (m_max_size b)); [|done].
      destruct (Z.eqb_spec (m_time_last_time_enqueue b) (m_time_last_time_pop b)); lia.
    + destruct (Z.leb_spec (m_size_at_cycle_start b + m_msgs_this_cycle b +
        m_stalled_at_cycle_start b + n) (m_max_size b)); [|done].
      destruct (Z.eqb_spec (m_time_last_time_enqueue b) (m_time_last_time_pop b)); lia.
Qed.

(** A buffer that reports a free slot accepts a message.  In every state
    reached by enqueues and dequeues, when [areNSlotsAvailable(1)] returns true
    an enqueue in the same cycle succeeds: in particular its assertion on the
    capacity cannot fail, although the size the buffer shows is not the size of
    its heap. *)
Theorem slots_available_enqueue fl rnd b b1 m now delta :
  buffer_inv now b → areNSlotsAvailable b 1 now = (true, b1) →
  has_consumer b = true → m_randomization b = rand_disabled → 0 < delta →
  m_last_arrival_time b ≤ now + delta → Message.m_LastEnqueueTime m ≤ now →
  ∃ b', enqueue fl rnd b1 (Some m) now delta false = Ok (b', now + delta) ∧
        buffer_inv now b' ∧ total b' = total b + 1.
Proof.
  intros Hinv Hav Hc Hr Hd Hl Hm. pose proof (available_total _ _ _ _ Hinv Hav) as Ht.
  assert (b1 = b) as ->.
  { unfold areNSlotsAvailable in Hav. destruct (_ =? 0); [by injection Hav|].
    repeat case_in Hav; by injection Hav. }
  assert (arrival fl rnd b now delta = (now + delta, m_last_arrival_time b)) as Harr.
  { unfold arrival. by rewrite Hr, bool_decide_eq_true_2. }
  destruct (enqueue fl rnd b (Some m) now delta false) as [[b' tick]|] eqn:E.
  - pose proof (enqueue_inv _ _ _ _ _ _ _ _ _ Hinv E).
    pose proof (enqueue_Ok _ _ _ _ _ _ _ _ _ E) as (H1 & H2 & _).
    exists b'. split; [|unfold total; split; [done|lia]]. do 2 f_equal.
    unfold enqueue in E. rewrite Harr in E.
    destruct (_ <? now); step_bind E as [] _; step_bind E as [] _; step_bind E as [] _;
      step_bind E as m0 _; step_bind E as [] _; step_bind E as m1 _; step_bind E as [] _;
      step_bind E as [] _; by injection E.
  - exfalso. revert E. unfold enqueue. rewrite Harr.
    destruct (Z.eqb_spec delta 0); [lia|]. cbn [andb panic_if rbind].
    destruct (Z.leb_spec now (now + delta)); [|lia]. cbn [assert rbind].
    destruct (Z.ltb_spec (now + delta) (m_last_arrival_time b)); [lia|].
    rewrite andb_false_r. cbn [panic_if rbind].
    unfold Message.updateDelayedTicks.
    destruct (Z.leb_spec (Message.m_LastEnqueueTime m) now); [|lia]. cbn [assert rbind].
    destruct (_ <? now); cbn [m_max_size m_prio_heap m_stall_map_size with_heap with_enqueue
      has_consumer]; rewrite zlen_push_heap, Hc; unfold total in Ht;
      (destruct (Z.eqb_spec (m_max_size b) 0); cbn [orb assert rbind]; [done|]);
      (destruct (Z.leb_spec (zlen (m_prio_heap b) + 1 + m_stall_map_size b) (m_max_size b));
        cbn [assert rbind]; [done|]); lia.
Qed.

Definition example_buffer : t :=
  with_links (make 1 0 true rand_disabled false) true false 0 0 0.

Lemma slots_available_enqueue_witness :
  ∃ b', enqueue (mkRubyFlags false false) 0 example_buffer
          (Some (Message.make 0 1000)) 2000 500 false = Ok (b', 2500) ∧ total b' = 1.
Proof.
  destruct (slots_available_enqueue (mkRubyFlags false false) 0 example_buffer example_buffer
    (Message.make 0 1000) 2000 500) as (b' & H1 & _ & H3);
    [|reflexivity|reflexivity|reflexivity|lia|vm_compute; discriminate|vm_compute; discriminate|].
  - eapply (later_inv 0); [lia|]. split_and!; [intros _|..]; vm_compute; discriminate.
  - exists b'. split; [exact H1|exact H3].
Defined.

(** ** Order *)

(** Every message of the buffer precedes one that arrives no earlier than the
    last. *)
Definition fifo_inv (b : t) : Prop :=
  Forall (λ m, Message.m_LastEnqueueTime m ≤ m_last_arrival_time b ∧
               Message.m_msg_counter m ≤ m_msg_counter b) (m_prio_heap b).

Lemma push_heap_last m h :
  Forall (λ x, Message.gt m x = true) h → push_heap m h = h ++ [m].
Proof. induction 1 as [|x h Hx _ IH]; cbn [push_heap]; [done|]. by rewrite Hx, IH. Qed.

(** An ordered buffer in normal operation. *)
Definition ordered_buffer (b : t) : Prop :=
  m_strict_fifo b = true ∧ m_last_message_strict_fifo_bypassed b = false ∧ fifo_inv b.

Definition refs (b : t) : list nat := Message.msg_ref <$> m_prio_heap b.

Lemma enqueue_appends fl rnd b m now delta b' tick :
  warmup_enabled fl = false → ordered_buffer b →
  enqueue fl rnd b (Some m) now delta false = Ok (b', tick) →
  ordered_buffer b' ∧ refs b' = refs b ++ [Message.msg_ref m].
Proof.
  intros Hwu (Hs & Hbp & Hf) He. unfold enqueue in He. rewrite Hs, Hbp, Hwu in He.
  assert (∃ ar last msgs te m1, m_last_arrival_time b ≤ last ≤ ar ∧
    Message.msg_ref m1 = Message.msg_ref m ∧ Message.m_LastEnqueueTime m1 = ar ∧
    Message.m_msg_counter m1 = m_msg_counter b + 1 ∧
    b' = with_heap (with_enqueue b te ar msgs (m_msg_counter b + 1) false)
           (push_heap m1 (m_prio_heap b))) as (ar & la & msgs & te & m1 & Hle & Href & Hla & Hcn & ->).
  { assert (m_last_arrival_time b ≤ (arrival fl rnd b now delta).2) as Hlast.
    { unfold arrival. rewrite Hs. repeat case_match; simplify_eq; boolify; cbn [snd]; lia. }
    destruct (arrival fl rnd b now delta) as [ar la]. cbn [snd] in Hlast.
    destruct (m_time_last_time_enqueue b <? now); step_bind He as [] _; step_bind He as [] _;
      step_bind He as [] Hp%panic_if_Ok; step_bind He as m0 Hm0; injection Hm0 as <-;
      step_bind He as [] _; step_bind He as m1 Hm1; step_bind He as [] _; step_bind He as [] _;
      injection He as <- <-; cbn [negb andb orb] in Hp; boolify;
      unfold Message.updateDelayedTicks in Hm1; step_bind Hm1 as [] _; injection Hm1 as Hm1;
      eexists ar, la, _, _, (Message.setMsgCounter (Message.setLastEnqueueTime m1 ar)
        (m_msg_counter b + 1)); (split; [lia|]); (split; [by rewrite <- Hm1|]);
      (split; [done|]); (split; [done|]); reflexivity. }
  assert (push_heap m1 (m_prio_heap b) = m_prio_heap b ++ [m1]) as Hpush.
  { apply push_heap_last. eapply Forall_impl; [exact Hf|]. intros x [Hx1 Hx2].
    unfold Message.gt. rewrite Hla, Hcn. zcases; done. }
  rewrite Hpush. unfold ordered_buffer, fifo_inv, refs. cbn. split; [split_and!; [done|done|]|].
  - apply Forall_app. split.
    + eapply Forall_impl; [exact Hf|]. cbn. lia.
    + apply Forall_singleton. lia.
  - rewrite fmap_app. cbn. by rewrite Href.
Qed.

Lemma dequeue_head b now cur dec d b' cb :
  ordered_buffer b → dequeue b now cur dec = Ok (d, b', cb) →
  ordered_buffer b' ∧ ∃ m, refs b = Message.msg_ref m :: refs b'.
Proof.
  intros (Hs & Hbp & Hf) Hd. unfold dequeue in Hd. step_bind Hd as [ready x] _.
  step_bind Hd as [] _. step_bind Hd as m Hm%determinate_Ok. step_bind Hd as m' _.
  destruct (m_prio_heap b) as [|m0 h] eqn:Hh; [done|]. injection Hm as ->.
  unfold ordered_buffer, fifo_inv, refs in *. rewrite Hh in *.
  apply Forall_cons in Hf as [_ Hf].
  destruct (m_time_last_time_pop b <? now), dec; injection Hd as <- <- <-; cbn;
    rewrite Hh; (split; [by split_and!|by exists m]).
Qed.

(** A use of the buffer: a message is put in or the head is taken out. *)
Inductive use :=
| Put (m : Message.t) (now delta rnd : Tick)
| Take (now cur : Tick).

(** The messages taken out, in order. *)
Fixpoint uses (fl : RubyFlags) (us : list use) (b : t) : result (t * list nat) :=
  match us with
  | [] => Ok (b, [])
  | Put m now delta rnd :: us' =>
      '(b, _) ← enqueue fl rnd b (Some m) now delta false;
      uses fl us' b
  | Take now cur :: us' =>
      m ← peekMsgPtr b;
      '(_, b, _) ← dequeue b now cur true;
      '(b, out) ← uses fl us' b;
      Ok (b, Message.msg_ref m :: out)
  end.

Definition puts (us : list use) : list nat :=
  omap (λ u, match u with Put m _ _ _ => Some (Message.msg_ref m) | _ => None end) us.



End BufferFacts.
