(* ===== verification/Statistics.v ===== *)
(** * The counters of the network

    The counters [garnet/GarnetNetwork.hh] keeps for its interfaces: module
    [NetStats].  A [statistics::Scalar] or an element of a [statistics::Vector]
    is a double that the code only adds integers to; it is an integer here,
    which is what it is up to [2^53]. *)

From S2P Require Import Prelude.
From S2P Require Import NetDest.
From S2P Require Import Flit.
From S2P Require Import VirtualChannels.

(** The [statistics::Vector]s indexed by virtual network. *)
Inductive vnet_stat :=
| PacketsReceived | PacketsInjected | PacketNetworkLatency | PacketQueueingLatency
| FlitsReceived | FlitsInjected | FlitNetworkLatency | FlitQueueingLatency.

#[export] Instance vnet_stat_eq_dec : EqDecision vnet_stat.
Proof. solve_decision. Defined.

Module NetStats.

Record t := mk {
  m_vectors : vnet_stat → list Z;
  m_total_hops : Z;
  m_packet_main_layer_latency : list Tick;
  m_packet_max_latency : Tick;
  m_total_main_layer_pkts : Z;
  m_packet_phase_latencies : gmap (Z * Z * Z) (list Tick);
  m_data_traffic_distribution : list (list Z);
  m_ctrl_traffic_distribution : list (list Z);
  m_next_packet_id : Z;
  m_trace_max_packets : Z;
  trace_num_packets_injected : Z;
  trace_num_flits_injected : Z;
  trace_num_flits_received : Z;
  end_simulation : option bool;
  exited : bool;
}.

(** The constructor of [GarnetNetwork] leaves [end_simulation] uninitialised;
    [regStats] makes one counter per pair of routers. *)
Definition make (vnets routers max_packets : Z) : t :=
  let m := replicate (Z.to_nat routers) (replicate (Z.to_nat routers) 0) in
  mk (λ _, replicate (Z.to_nat vnets) 0) 0 [] 0 0 ∅ m m 0 max_packets 0 0 0 None false.

(** Setters. *)
Definition with_vectors (s : t) (v : vnet_stat → list Z) (hops : Z) : t :=
  mk v hops (m_packet_main_layer_latency s) (m_packet_max_latency s)
     (m_total_main_layer_pkts s) (m_packet_phase_latencies s)
     (m_data_traffic_distribution s) (m_ctrl_traffic_distribution s)
     (m_next_packet_id s) (m_trace_max_packets s) (trace_num_packets_injected s)
     (trace_num_flits_injected s) (trace_num_flits_received s)
     (end_simulation s) (exited s).

Definition with_main_layer (s : t) (l : list Tick) (max : Tick) (pkts : Z) : t :=
  mk (m_vectors s) (m_total_hops s) l max pkts (m_packet_phase_latencies s)
     (m_data_traffic_distribution s) (m_ctrl_traffic_distribution s)
     (m_next_packet_id s) (m_trace_max_packets s) (trace_num_packets_injected s)
     (trace_num_flits_injected s) (trace_num_flits_received s)
     (end_simulation s) (exited s).

Definition with_phases (s : t) (m : gmap (Z * Z * Z) (list Tick)) : t :=
  mk (m_vectors s) (m_total_hops s) (m_packet_main_layer_latency s)
     (m_packet_max_latency s) (m_total_main_layer_pkts s) m
     (m_data_traffic_distribution s) (m_ctrl_traffic_distribution s)
     (m_next_packet_id s) (m_trace_max_packets s) (trace_num_packets_injected s)
     (trace_num_flits_injected s) (trace_num_flits_received s)
     (end_simulation s) (exited s).

Definition with_traffic (s : t) (data ctrl : list (list Z)) (id : Z) : t :=
  mk (m_vectors s) (m_total_hops s) (m_packet_main_layer_latency s)
     (m_packet_max_latency s) (m_total_main_layer_pkts s)
     (m_packet_phase_latencies s) data ctrl id (m_trace_max_packets s)
     (trace_num_packets_injected s) (trace_num_flits_injected s)
     (trace_num_flits_received s) (end_simulation s) (exited s).

Definition with_trace (s : t) (packets flits received : Z) (ended : option bool)
    (stop : bool) : t :=
  mk (m_vectors s) (m_total_hops s) (m_packet_main_layer_latency s)
     (m_packet_max_latency s) (m_total_main_layer_pkts s)
     (m_packet_phase_latencies s) (m_data_traffic_distribution s)
     (m_ctrl_traffic_distribution s) (m_next_packet_id s) (m_trace_max_packets s)
     packets flits received ended stop.

(** [increment_*(.., vnet)]: [v[vnet] += n] of one of the vectors. *)
Definition bump (s : t) (k : vnet_stat) (vnet n : Z) : result t :=
  l ← vupd (m_vectors s k) vnet (λ x, Ok (x + n));
  Ok (with_vectors s (λ k', if bool_decide (k' = k) then l else m_vectors s k')
        (m_total_hops s)).

Definition increment_total_hops (s : t) (hops : Z) : t :=
  with_vectors s (m_vectors s) (m_total_hops s + hops).

Definition increment_main_layer_pkts (s : t) : t :=
  with_main_layer s (m_packet_main_layer_latency s) (m_packet_max_latency s)
    (m_total_main_layer_pkts s + 1).

(** [std::max_element] of a non-empty vector *)
Definition max_of (x : Tick) (l : list Tick) : Tick := foldl Z.max x l.

Definition add_main_layer_latency (s : t) (latency : Tick) : t :=
  let l := m_packet_main_layer_latency s ++ [latency] in
  with_main_layer s l
    (match l with x :: l' => max_of x l' | [] => m_packet_max_latency s end)
    (m_total_main_layer_pkts s).

(** The warning for keys beyond the registered ones has no other effect. *)
Definition add_phase_latency (s : t) (network_idx input_idx phase_id : Z)
    (latency : Tick) : t :=
  let key := (network_idx, input_idx, phase_id) in
  with_phases s (<[key := default [] (m_packet_phase_latencies s !! key) ++ [latency]]>
                   (m_packet_phase_latencies s)).

Definition getNextPacketID (s : t) : Z * t :=
  (m_next_packet_id s,
   with_traffic s (m_data_traffic_distribution s) (m_ctrl_traffic_distribution s)
     (m_next_packet_id s + 1)).

Definition update_traffic_distribution (c : NetConfig) (s : t) (route : RouteInfo)
    : result t :=
  ty ← get_vnet_type c (vnet route);
  let incr m := vupd m (src_router route)
                  (λ row, vupd row (dest_router route) (λ x, Ok (x + 1))) in
  if bool_decide (ty = DATA_VNET_) then
    m ← incr (m_data_traffic_distribution s);
    Ok (with_traffic s m (m_ctrl_traffic_distribution s) (m_next_packet_id s))
  else
    m ← incr (m_ctrl_traffic_distribution s);
    Ok (with_traffic s (m_data_traffic_distribution s) m (m_next_packet_id s)).

(** [exitSimLoop] ends the run; the read of [end_simulation] is undefined while
    nothing has assigned it. *)
Definition increment_trace_flits_received (s : t) : result t :=
  let received := trace_num_flits_received s + 1 in
  ended ← determinate (end_simulation s);
  let all := received =? trace_num_flits_injected s in
  let stop :=
    ((ended : bool) && all) ||
    ((0 <=? m_trace_max_packets s) &&
     (m_trace_max_packets s <? trace_num_packets_injected s) && all) in
  Ok (with_trace s (trace_num_packets_injected s) (trace_num_flits_injected s)
        received (end_simulation s) (exited s || stop)).

End NetStats.

(** ** Facts *)

(** The counter of virtual network [v]. *)
Definition counter (s : NetStats.t) (k : vnet_stat) (v : Z) : Z :=
  at_ (λ x, x) (NetStats.m_vectors s k) v.

(** Every vector has an element per virtual network. *)
Definition counters_wf (vnets : Z) (s : NetStats.t) : Prop :=
  ∀ k, zlen (NetStats.m_vectors s k) = vnets.

Lemma bump_total vnets s k v n :
  counters_wf vnets s → 0 ≤ v < vnets →
  ∃ s', NetStats.bump s k v n = Ok s' ∧ counters_wf vnets s' ∧
    (∀ k' v', counter s' k' v' =
       counter s k' v' + if decide (k' = k ∧ v' = v) then n else 0) ∧
    (∃ vs, s' = NetStats.with_vectors s vs (NetStats.m_total_hops s)).
Proof.
  intros Hwf Hv. unfold NetStats.bump.
  destruct (zlookup_is_Some (NetStats.m_vectors s k) v) as [x Hx]; [by rewrite Hwf|].
  rewrite (vupd_intro _ _ _ x (x + n)) by done. cbn [rbind]. eexists. split; [done|].
  split; [|split; [|by eexists]].
  - intros k'. cbn -[zlen]. case_bool_decide; [by rewrite zlen_insert|apply Hwf].
  - intros k' v'. unfold counter, at_. cbn. case_bool_decide as E.
    + subst k'. rewrite zlookup_insert by (by rewrite Hwf).
      destruct (decide (v = v')) as [->|Hne].
      * rewrite Hx, decide_True by done. done.
      * rewrite decide_False by naive_solver. lia.
    + rewrite decide_False by naive_solver. lia.
Qed.

Lemma bumped_other (k' k : vnet_stat) (v' v n : Z) :
  k' ≠ k → (if decide (k' = k ∧ v' = v) then n else 0) = 0.
Proof. intros Hk. by rewrite decide_False by naive_solver. Qed.

Lemma bumped_same (k : vnet_stat) (v' v n : Z) :
  (if decide (k = k ∧ v' = v) then n else 0) = if bool_decide (v' = v) then n else 0.
Proof. case_bool_decide; [by rewrite decide_True|by rewrite decide_False by naive_solver]. Qed.
