(* ===== verification/NetworkInterface.v ===== *)
(** * Network interfaces

    [garnet/NetworkInterface.{hh,cc}], with the counters of
    [garnet/GarnetNetwork.hh] it increments (module [NetStats]) and the trace
    records it injects.

    Each interface reaches its links, its message buffers and the network
    through pointers.  A wake-up takes the buffers of its incoming network links
    (one per input port) and credit links (one per output port) and returns them
    as it leaves them; the wake-ups it schedules on its outgoing links are
    appended to [m_scheduled]; the counters of the network are passed along.
    [get_router_id] of the network is the argument [router_of]. *)

From S2P Require Import Prelude.
From S2P Require Import IntMath.
From S2P Require Import NetDest.
From S2P Require Import Flit.
From S2P Require Import VirtualChannels.
From S2P Require Import Clocking.
From S2P Require Import Links.
From S2P Require Import MessageBuffer.
From S2P Require Import Statistics.

Record NetworkTraceRecord := mkTraceRecord {
  tr_valid : bool;
  tr_time : Cycles;
  tr_src_id : Z;
  tr_src_router_id : Z;
  tr_dest_id : Z;
  tr_dest_router_id : Z;
  tr_vnet : Z;
  tr_num_flits : Z;
  tr_network_idx : Z;
  tr_input_idx : Z;
  tr_phase_id : Z;
}.

(** What a wake-up asks of other objects: to wake the outgoing link of an output
    port or the credit link of an input port, to wake the controller that reads a
    protocol buffer, to call back the controller whose message was taken, and to
    deliver a message to another interface. *)
Inductive ni_event :=
| NiOutLinkAt (port : Z) (time : Tick)
| NiCreditLinkAt (port : Z) (time : Tick)
| NiProtocolAt (vnet : Z) (time : Tick)
| NiDequeued (vnet : Z)
| NiMagicSend (ni vnet : Z) (m : Message.t).

(** What the network reads of a message of the protocol besides the fields of
    its base class: [getDestination()] and [MessageSizeType_to_int] of
    [getMessageSize()].  The messages are shared objects in a store. *)
Record ProtocolMsg := mkProtocolMsg {
  pm_msg : Message.t;
  pm_dest : NetDest.t;
  pm_size : Z;
}.

Notation Store := (gmap nat ProtocolMsg) (only parsing).

(** What an interface reads of the network during a wake-up: its configuration,
    [curTick()], whether a trace is replayed, the flags of the Ruby system, the
    values of [random_time()] (by virtual network and message counter of the
    buffer), [get_router_id], [RouteInfo()] and the position of the interface
    in [m_nis]. *)
Record NiEnv := mkNiEnv {
  ni_config : NetConfig;
  ni_cur : Tick;
  ni_trace : bool;
  ni_flags : RubyFlags;
  ni_rnd : Z → Z → Tick;
  ni_router_of : Z → Z → result Z;
  ni_route0 : RouteInfo;
  ni_self : Z;
}.

(** ** The interface *)

Module NetworkInterface.

Record OutputPort := mkOutputPort {
  op_vnets : list Z;
  outFlitQueue : FlitBuffer.t;
  vcRoundRobin : Z;
  routerID : Z;
  op_bitWidth : Z;
}.

Record InputPort := mkInputPort {
  ip_vnets : list Z;
  outCreditQueue : FlitBuffer.t;
  ip_bitWidth : Z;
  m_stall_queue : list flit;
  messageEnqueuedThisCycle : bool;
}.

(** [isVnetSupported] of a port *)
Definition isVnetSupported (vnets : list Z) (pVnet : Z) : bool :=
  if zlen vnets =? 0 then true else existsb (Z.eqb pVnet) vnets.

Record t := mk {
  m_id : Z;
  m_virtual_networks : Z;
  m_vc_per_vnet : Z;
  m_vc_allocator : list Z;
  outPorts : list OutputPort;
  inPorts : list InputPort;
  m_deadlock_threshold : Z;
  outVcState : list OutVcState.t;
  m_stall_count : list Z;
  niOutVcs : list FlitBuffer.t;
  m_ni_out_vcs_enqueue_time : list Tick;
  m_trace_injection_queue : list flit;
  m_trace_record_queue : list NetworkTraceRecord;
  inNode_ptr : list (option MessageBuffer.t);
  outNode_ptr : list (option MessageBuffer.t);
  vc_busy_counter : list Z;
  clk : Clocked.t;
  consumer : Consumer.t;
  m_scheduled : list ni_event;
}.

(** [NetworkInterface(p)] *)
Definition make (id virt_nets deadlock_threshold : Z) (clock : Clocked.t) : t :=
  let zeros := replicate (Z.to_nat virt_nets) 0 in
  mk id virt_nets 0 zeros [] [] deadlock_threshold [] zeros [] [] [] [] [] []
     zeros clock Consumer.make [].

(** Setters. *)
Definition with_ports (n : t) (outs : list OutputPort) (ins : list InputPort) : t :=
  mk (m_id n) (m_virtual_networks n) (m_vc_per_vnet n) (m_vc_allocator n)
     outs ins (m_deadlock_threshold n) (outVcState n) (m_stall_count n)
     (niOutVcs n) (m_ni_out_vcs_enqueue_time n) (m_trace_injection_queue n)
     (m_trace_record_queue n) (inNode_ptr n) (outNode_ptr n) (vc_busy_counter n)
     (clk n) (consumer n) (m_scheduled n).

Definition with_outVcState (n : t) (os : list OutVcState.t) : t :=
  mk (m_id n) (m_virtual_networks n) (m_vc_per_vnet n) (m_vc_allocator n)
     (outPorts n) (inPorts n) (m_deadlock_threshold n) os (m_stall_count n)
     (niOutVcs n) (m_ni_out_vcs_enqueue_time n) (m_trace_injection_queue n)
     (m_trace_record_queue n) (inNode_ptr n) (outNode_ptr n) (vc_busy_counter n)
     (clk n) (consumer n) (m_scheduled n).

Definition with_vcs (n : t) (vcs : list FlitBuffer.t) (times : list Tick) : t :=
  mk (m_id n) (m_virtual_networks n) (m_vc_per_vnet n) (m_vc_allocator n)
     (outPorts n) (inPorts n) (m_deadlock_threshold n) (outVcState n)
     (m_stall_count n) vcs times (m_trace_injection_queue n)
     (m_trace_record_queue n) (inNode_ptr n) (outNode_ptr n) (vc_busy_counter n)
     (clk n) (consumer n) (m_scheduled n).

Definition with_trace (n : t) (inj : list flit) (recs : list NetworkTraceRecord) : t :=
  mk (m_id n) (m_virtual_networks n) (m_vc_per_vnet n) (m_vc_allocator n)
     (outPorts n) (inPorts n) (m_deadlock_threshold n) (outVcState n)
     (m_stall_count n) (niOutVcs n) (m_ni_out_vcs_enqueue_time n) inj recs
     (inNode_ptr n) (outNode_ptr n) (vc_busy_counter n) (clk n) (consumer n)
     (m_scheduled n).

Definition with_nodes (n : t) (ins outs : list (option MessageBuffer.t)) (stalls : list Z)
    : t :=
  mk (m_id n) (m_virtual_networks n) (m_vc_per_vnet n) (m_vc_allocator n)
     (outPorts n) (inPorts n) (m_deadlock_threshold n) (outVcState n)
     stalls (niOutVcs n) (m_ni_out_vcs_enqueue_time n) (m_trace_injection_queue n)
     (m_trace_record_queue n) ins outs (vc_busy_counter n) (clk n) (consumer n)
     (m_scheduled n).

Definition with_alloc (n : t) (alloc busy : list Z) : t :=
  mk (m_id n) (m_virtual_networks n) (m_vc_per_vnet n) alloc
     (outPorts n) (inPorts n) (m_deadlock_threshold n) (outVcState n)
     (m_stall_count n) (niOutVcs n) (m_ni_out_vcs_enqueue_time n)
     (m_trace_injection_queue n) (m_trace_record_queue n) (inNode_ptr n)
     (outNode_ptr n) busy (clk n) (consumer n) (m_scheduled n).

Definition with_sched (n : t) (c : Consumer.t) (evs : list ni_event) : t :=
  mk (m_id n) (m_virtual_networks n) (m_vc_per_vnet n) (m_vc_allocator n)
     (outPorts n) (inPorts n) (m_deadlock_threshold n) (outVcState n)
     (m_stall_count n) (niOutVcs n) (m_ni_out_vcs_enqueue_time n)
     (m_trace_injection_queue n) (m_trace_record_queue n) (inNode_ptr n)
     (outNode_ptr n) (vc_busy_counter n) (clk n) c evs.

Definition schedule_link (n : t) (ev : ni_event) : t :=
  with_sched n (consumer n) (m_scheduled n ++ [ev]).

Definition clockEdge (cur : Tick) (n : t) (cycles : Cycles) : Tick :=
  Clocked.clockEdge (clk n) cur cycles.

Definition scheduleEvent (cur : Tick) (n : t) (cycles : Cycles) : result t :=
  c ← Consumer.scheduleEvent (clk n) cur (consumer n) cycles;
  Ok (with_sched n c (m_scheduled n)).

(** *** Ports *)

(** [addInPort]: returns the two links as they are left. *)
Definition addInPort (n : t) (in_link credit_link : NetworkLink.t)
    : t * NetworkLink.t * NetworkLink.t :=
  let newInPort := mkInputPort (NetworkLink.mVnets in_link) FlitBuffer.empty
                     (NetworkLink.bitWidth in_link) [] false in
  let n := with_ports n (outPorts n) (inPorts n ++ [newInPort]) in
  if negb (m_vc_per_vnet n =? 0) then
    (n, NetworkLink.setVcsPerVnet in_link (m_vc_per_vnet n),
     NetworkLink.setVcsPerVnet credit_link (m_vc_per_vnet n))
  else (n, in_link, credit_link).

(** The channels [outVcState.emplace_back(i, m_net_ptr, consumerVcs)] *)
Fixpoint make_vcs (c : NetConfig) (consumerVcs i : Z) (k : nat)
    : result (list OutVcState.t) :=
  match k with
  | O => Ok []
  | S k' =>
      o ← OutVcState.make c i consumerVcs;
      os ← make_vcs c consumerVcs (i + 1) k';
      Ok (o :: os)
  end.

(** [addOutPort]: returns the two links, and whether the incoming links of the
    ports added before are given their number of channels now (the loop sets
    the new credit link once more for each of them). *)
Definition addOutPort (c : NetConfig) (n : t) (out_link credit_link : NetworkLink.t)
    (router_id consumerVcs : Z) : result (t * NetworkLink.t * NetworkLink.t * bool) :=
  let newOutPort := mkOutputPort (NetworkLink.mVnets out_link) FlitBuffer.empty 0
                      router_id (NetworkLink.bitWidth out_link) in
  let n := with_ports n (outPorts n ++ [newOutPort]) (inPorts n) in
  _ ← assert (0 <? consumerVcs);
  '(n, first) ←
    (if zlen (niOutVcs n) =? 0 then
       let num_vcs := consumerVcs * m_virtual_networks n in
       os ← make_vcs c consumerVcs 0 (Z.to_nat num_vcs);
       let n := mk (m_id n) (m_virtual_networks n) consumerVcs (m_vc_allocator n)
         (outPorts n) (inPorts n) (m_deadlock_threshold n) (outVcState n ++ os)
         (m_stall_count n) (vresize FlitBuffer.empty num_vcs (niOutVcs n))
         (replicate (Z.to_nat num_vcs) INFINITE_) (m_trace_injection_queue n)
         (m_trace_record_queue n) (inNode_ptr n) (outNode_ptr n)
         (vc_busy_counter n) (clk n) (consumer n) (m_scheduled n) in
       Ok (n, true)
     else
       _ ← fatal_if (negb (consumerVcs =? m_vc_per_vnet n));
       Ok (n, false));
  Ok (n, NetworkLink.setVcsPerVnet out_link (m_vc_per_vnet n),
      NetworkLink.setVcsPerVnet credit_link (m_vc_per_vnet n), first).

(** [addNode]: the incoming buffers get this interface as consumer. *)
Definition addNode (n : t) (ins outs : list (option MessageBuffer.t)) : result t :=
  ins ← foldr (λ b acc,
           l ← acc;
           match b with
           | Some b => b ← MessageBuffer.setConsumer b; Ok (Some b :: l)
           | None => Ok (None :: l)
           end) (Ok []) ins;
  Ok (with_nodes n ins outs (m_stall_count n)).

Definition dequeueCallback (cur : Tick) (n : t) : result t :=
  c ← Consumer.scheduleEventAbsolute (clk n) cur (consumer n) (clockEdge cur n 1);
  Ok (with_sched n c (m_scheduled n)).

(** [getOutportForVnet], [getInportForVnet]: the index of the first port. *)
Definition getOutportForVnet (n : t) (vnet : Z) : option Z :=
  match list_find (λ p, Is_true (isVnetSupported (op_vnets p) vnet)) (outPorts n) with
  | Some (i, _) => Some (Z.of_nat i)
  | None => None
  end.

Definition getInportForVnet (n : t) (vnet : Z) : option Z :=
  match list_find (λ p, Is_true (isVnetSupported (ip_vnets p) vnet)) (inPorts n) with
  | Some (i, _) => Some (Z.of_nat i)
  | None => None
  end.

Definition get_router_id (n : t) (vnet : Z) : result Z :=
  match getOutportForVnet n vnet with
  | Some p => o ← vget (outPorts n) p; Ok (routerID o)
  | None => Err AssertFailed
  end.

(** The virtual network of channel [vc]: [i], [i + 1], .. are tried. *)
Fixpoint vnet_from (per_vnet vc i : Z) (k : nat) : result Z :=
  match k with
  | O => Err FatalError
  | S k' =>
      if (i * per_vnet <=? vc) && (vc <? (i + 1) * per_vnet) then Ok i
      else vnet_from per_vnet vc (i + 1) k'
  end.

Definition get_vnet (n : t) (vc : Z) : result Z :=
  vnet_from (m_vc_per_vnet n) vc 0 (Z.to_nat (m_virtual_networks n)).

(** *** Statistics *)

Definition incrementStats (cur : Tick) (n : t) (s : NetStats.t) (t_flit : flit)
    : result NetStats.t :=
  let vnet := flit_m_vnet t_flit in
  let route := flit_m_route t_flit in
  s ← NetStats.bump s FlitsReceived vnet 1;
  let network_delay := wrap64 (flit_m_dequeue_time t_flit - flit_m_enqueue_time t_flit
                               - Clocked.cyclesToTicks (clk n) 1) in
  src_queueing_delay ← determinate (flit_src_delay t_flit);
  let dest_queueing_delay := wrap64 (cur - flit_m_dequeue_time t_flit) in
  let queueing_delay := wrap64 (src_queueing_delay + dest_queueing_delay) in
  s ← NetStats.bump s FlitNetworkLatency vnet network_delay;
  s ← NetStats.bump s FlitQueueingLatency vnet queueing_delay;
  s ← (if is_tail (flit_m_type t_flit) then
         let s :=
           if bool_decide (flit_m_type t_flit = HEAD_TAIL_) || last_flit route then
             NetStats.add_phase_latency s (network_idx route) (input_idx route)
               (phase_id route) (wrap64 (network_delay + queueing_delay))
           else s in
         s ← NetStats.bump s PacketsReceived vnet 1;
         s ← NetStats.bump s PacketNetworkLatency vnet network_delay;
         NetStats.bump s PacketQueueingLatency vnet queueing_delay
       else Ok s);
  Ok (NetStats.increment_total_hops s (hops_traversed route)).

(** *** Sending *)

(** [calculateVC]: the next [k] channels of the virtual network are tried. *)
Fixpoint calculate_from (cur : Tick) (vnet : Z) (k : nat) (n : t)
    : result (option Z * t) :=
  match k with
  | O => Ok (None, n)
  | S k' =>
      delta ← vget (m_vc_allocator n) vnet;
      let next := if delta + 1 =? m_vc_per_vnet n then 0 else delta + 1 in
      alloc ← vset (m_vc_allocator n) vnet next;
      let n := with_alloc n alloc (vc_busy_counter n) in
      let vc := vnet * m_vc_per_vnet n + delta in
      o ← vget (outVcState n) vc;
      if OutVcState.isInState o IDLE_ cur then
        busy ← vset (vc_busy_counter n) vnet 0;
        Ok (Some vc, with_alloc n (m_vc_allocator n) busy)
      else calculate_from cur vnet k' n
  end.

Definition calculateVC (cur : Tick) (n : t) (vnet : Z) : result (Z * t) :=
  '(free, n) ← calculate_from cur vnet (Z.to_nat (m_vc_per_vnet n)) n;
  match free with
  | Some vc => Ok (vc, n)
  | None =>
      b ← vget (vc_busy_counter n) vnet;
      busy ← vset (vc_busy_counter n) vnet (b + 1);
      _ ← panic_if (m_deadlock_threshold n <? b + 1);
      Ok (-1, with_alloc n (m_vc_allocator n) busy)
  end.

Definition with_outFlitQueue (p : OutputPort) (q : FlitBuffer.t) : OutputPort :=
  mkOutputPort (op_vnets p) q (vcRoundRobin p) (routerID p) (op_bitWidth p).

Definition set_vcRoundRobin (p : OutputPort) (vc : Z) : OutputPort :=
  mkOutputPort (op_vnets p) (outFlitQueue p) vc (routerID p) (op_bitWidth p).

Definition scheduleFlit (cur : Tick) (n : t) (t_flit : flit) : result t :=
  match getOutportForVnet n (flit_m_vnet t_flit) with
  | Some p =>
      outs ← vupd (outPorts n) p
               (λ o, Ok (with_outFlitQueue o (FlitBuffer.insert (outFlitQueue o) t_flit)));
      Ok (schedule_link (with_ports n outs (inPorts n))
            (NiOutLinkAt p (clockEdge cur n 1)))
  | None => Err Panicked
  end.

(** The loop over [vc_offset]: whether none of the next [k] channels holds a
    ready flit that was enqueued before [t_enqueue]. *)
Fixpoint is_oldest (cur : Tick) (n : t) (t_enqueue : Tick) (t_vc : Z) (k : nat)
    : result bool :=
  match k with
  | O => Ok true
  | S k' =>
      q ← vget (niOutVcs n) t_vc;
      if FlitBuffer.isReady q cur then
        time ← vget (m_ni_out_vcs_enqueue_time n) t_vc;
        if time <? t_enqueue then Ok false
        else is_oldest cur n t_enqueue (t_vc + 1) k'
      else is_oldest cur n t_enqueue (t_vc + 1) k'
  end.

(** Whether channel [vc] of virtual network [t_vnet] may send this cycle. *)
Definition vc_can_send (c : NetConfig) (cur : Tick) (n : t) (vc t_vnet : Z)
    : result bool :=
  q ← vget (niOutVcs n) vc;
  o ← vget (outVcState n) vc;
  if FlitBuffer.isReady q cur && OutVcState.has_credit o then
    ordered ← isVNetOrdered c t_vnet;
    if (ordered : bool) then
      time ← vget (m_ni_out_vcs_enqueue_time n) vc;
      is_oldest cur n time (t_vnet * m_vc_per_vnet n) (Z.to_nat (m_vc_per_vnet n))
    else Ok true
  else Ok false.

(** The chosen channel [vc] of port [port] sends its head flit. *)
Definition send_from (cur : Tick) (n : t) (port vc : Z) : result t :=
  outs ← vupd (outPorts n) port (λ o, Ok (set_vcRoundRobin o vc));
  os ← vupd (outVcState n) vc OutVcState.decrement_credit;
  q ← vget (niOutVcs n) vc;
  '(t_flit, q) ← FlitBuffer.getTopFlit q;
  vcs ← vset (niOutVcs n) vc q;
  let n := with_vcs (with_outVcState (with_ports n outs (inPorts n)) os) vcs
             (m_ni_out_vcs_enqueue_time n) in
  n ← scheduleFlit cur n (set_time t_flit (clockEdge cur n 1));
  if is_tail (flit_m_type t_flit) then
    times ← vset (m_ni_out_vcs_enqueue_time n) vc INFINITE_;
    Ok (with_vcs n (niOutVcs n) times)
  else Ok n.

(** The loop of [scheduleOutputPort], [k] channels from the one after [vc]. *)
Fixpoint schedule_from (c : NetConfig) (cur : Tick) (port vc : Z) (k : nat) (n : t)
    : result t :=
  match k with
  | O => Ok n
  | S k' =>
      let vc := if vc + 1 =? zlen (niOutVcs n) then 0 else vc + 1 in
      t_vnet ← get_vnet n vc;
      o ← vget (outPorts n) port;
      if isVnetSupported (op_vnets o) t_vnet then
        can ← vc_can_send c cur n vc t_vnet;
        if (can : bool) then send_from cur n port vc
        else schedule_from c cur port vc k' n
      else schedule_from c cur port vc k' n
  end.

Definition scheduleOutputPort (c : NetConfig) (cur : Tick) (port : Z) (n : t)
    : result t :=
  o ← vget (outPorts n) port;
  schedule_from c cur port (vcRoundRobin o) (length (niOutVcs n)) n.

Definition scheduleOutputLink (c : NetConfig) (cur : Tick) (n : t) : result t :=
  for_range 0 (length (outPorts n)) (scheduleOutputPort c cur) n.

(** *** Trace replay *)

Section destinations.
  Context `{MachineTypes}.

(** The loop over the machine types that finds the destination of node
    [destID] (an unsigned integer), and whether it found one. *)
Fixpoint find_dest (destID m : Z) (k : nat) (d : NetDest.t) : result (bool * NetDest.t) :=
  match k with
  | O => Ok (false, d)
  | S k' =>
      if (MachineType_base_number m <=? destID) &&
         (destID <? MachineType_base_number (m + 1)) then
        d ← NetDest.add (NetDest.clear d)
              (mkMachineID m (destID - MachineType_base_number m));
        Ok (true, d)
      else find_dest destID (m + 1) k' d
  end.

Definition node_dest (destID : Z) : result (bool * NetDest.t) :=
  d ← NetDest.make;
  find_dest (wrap32 destID) 0 (Z.to_nat MachineType_NUM) d.

(** The route of a trace record. *)
Definition trace_route (e : NiEnv) (n : t) (o : OutputPort) (r : NetworkTraceRecord)
    : result RouteInfo :=
  '(_, net_dest) ← node_dest (tr_dest_id r);
  dest_router ← ni_router_of e (tr_dest_id r) (tr_vnet r);
  Ok (mkRoute (tr_vnet r) net_dest (m_id n) (routerID o) (tr_dest_id r) dest_router
        (-1) false (tr_network_idx r) (tr_input_idx r) (tr_phase_id r)).

(** The records at the front of the queue that have time [time], and the rest. *)
Fixpoint same_time (time : Cycles) (q : list NetworkTraceRecord)
    : list NetworkTraceRecord * list NetworkTraceRecord :=
  match q with
  | r :: q' =>
      if tr_time r =? time then
        let '(same, rest) := same_time time q' in (r :: same, rest)
      else ([], q)
  | [] => ([], [])
  end.

Definition with_last_flit (r : RouteInfo) (b : bool) : RouteInfo :=
  mkRoute (vnet r) (net_dest r) (src_ni r) (src_router r) (dest_ni r) (dest_router r)
    (hops_traversed r) b (network_idx r) (input_idx r) (phase_id r).

(** The flit of a record in the current round. *)
Definition trace_flit (cur : Tick) (o : OutputPort) (packet_id : Z)
    (r : NetworkTraceRecord) (route : RouteInfo) : flit :=
  set_enqueue_time
    (new_flit packet_id 0 (-1) (tr_vnet r) route 1 None (op_bitWidth o)
       (op_bitWidth o) cur) cur.

(** The state of the nested loops: the routes, whose [last_flit] is assigned, the
    counters and the injection queue. *)
Definition rr_state : Type := list RouteInfo * NetStats.t * list flit.

(** The body of the inner loop: round [i], record [r]. *)
Definition emit (cur : Tick) (o : OutputPort) (recs : list NetworkTraceRecord) (i r : Z)
    (st : rr_state) : result rr_state :=
  let '(routes, s, q) := st in
  rec ← vget recs r;
  if i <? tr_num_flits rec then
    route ← vget routes r;
    let route := with_last_flit route (i =? tr_num_flits rec - 1) in
    routes ← vset routes r route;
    let '(packet_id, s) := NetStats.getNextPacketID s in
    Ok (routes, s, q ++ [trace_flit cur o packet_id rec route])
  else Ok st.

Definition max_num_flits (recs : list NetworkTraceRecord) : Z :=
  foldl (λ m r, if m <? tr_num_flits r then tr_num_flits r else m) 0 recs.

Definition round_robin (cur : Tick) (o : OutputPort) (recs : list NetworkTraceRecord)
    (st : rr_state) : result rr_state :=
  for_range 0 (Z.to_nat (max_num_flits recs))
    (λ i, for_range 0 (length recs) (emit cur o recs i)) st.

(** The routes of the records, in order. *)
Fixpoint trace_routes (e : NiEnv) (n : t) (o : OutputPort) (recs : list NetworkTraceRecord)
    : result (list RouteInfo) :=
  match recs with
  | [] => Ok []
  | r :: recs' =>
      x ← trace_route e n o r;
      xs ← trace_routes e n o recs';
      Ok (x :: xs)
  end.

(** The output port is looked up for the record that follows the ones taken off
    the queue: [front()] of an empty queue is undefined. *)
Definition transferTraceRecordsToInjectionQueue (e : NiEnv) (n : t) (s : NetStats.t)
    : result (t * NetStats.t) :=
  match m_trace_record_queue n with
  | [] => Ok (n, s)
  | first :: _ =>
      let '(recs, rest) := same_time (tr_time first) (m_trace_record_queue n) in
      next ← determinate (head rest);
      match getOutportForVnet n (tr_vnet next) with
      | None => Err AssertFailed
      | Some p =>
          o ← vget (outPorts n) p;
          routes ← trace_routes e n o recs;
          '(_, s, q) ← round_robin (ni_cur e) o recs
                         (routes, s, m_trace_injection_queue n);
          Ok (with_trace n q rest, s)
      end
  end.

Definition enqueueTracePacket (cur : Tick) (n : t) (r : NetworkTraceRecord) : result t :=
  let n := with_trace n (m_trace_injection_queue n) (m_trace_record_queue n ++ [r]) in
  scheduleEvent cur n 1.

Definition injectTraceFlit (cur : Tick) (n : t) (s : NetStats.t) (vnet vc : Z)
    : result (t * NetStats.t) :=
  t_flit ← determinate (head (m_trace_injection_queue n));
  let n := with_trace n (tail (m_trace_injection_queue n)) (m_trace_record_queue n) in
  let t_flit := set_time (set_vc t_flit vc) cur in
  let t_flit := set_src_delay t_flit (wrap64 (cur - flit_m_enqueue_time t_flit)) in
  let t_flit := set_enqueue_time t_flit cur in
  vcs ← vupd (niOutVcs n) vc (λ q, Ok (FlitBuffer.insert q t_flit));
  times ← vset (m_ni_out_vcs_enqueue_time n) vc cur;
  os ← vupd (outVcState n) vc (λ o, Ok (OutVcState.setState o ACTIVE_ cur));
  let n := with_outVcState (with_vcs n vcs times) os in
  s ← (if is_tail (flit_m_type t_flit) then NetStats.bump s PacketsInjected vnet 1
       else Ok s);
  s ← NetStats.bump s FlitsInjected vnet 1;
  Ok (n, s).

(** *** Protocol buffers *)

(** [outNode_ptr[vnet]], which must be a buffer. *)
Definition out_buffer (n : t) (vnet : Z) : result MessageBuffer.t :=
  b ← vget (outNode_ptr n) vnet;
  determinate b.

Definition set_out_buffer (n : t) (vnet : Z) (b : MessageBuffer.t) : result t :=
  outs ← vset (outNode_ptr n) vnet (Some b);
  Ok (with_nodes n (inNode_ptr n) outs (m_stall_count n)).

(** [outNode_ptr[vnet]->enqueue(m, clockEdge(), cyclesToTicks(Cycles(1)))] *)
Definition deliver (e : NiEnv) (n : t) (vnet : Z) (m : option Message.t) : result t :=
  b ← out_buffer n vnet;
  '(b, time) ← MessageBuffer.enqueue (ni_flags e)
                 (ni_rnd e vnet (MessageBuffer.m_msg_counter b)) b m
                 (clockEdge (ni_cur e) n 0) (Clocked.cyclesToTicks (clk n) 1) false;
  n ← set_out_buffer n vnet b;
  Ok (schedule_link n (NiProtocolAt vnet time)).

(** [outNode_ptr[vnet]->areNSlotsAvailable(1, clockEdge())] *)
Definition slot_available (e : NiEnv) (n : t) (vnet : Z) : result (bool * t) :=
  b ← out_buffer n vnet;
  let '(ok, b) := MessageBuffer.areNSlotsAvailable b 1 (clockEdge (ni_cur e) n 0) in
  n ← set_out_buffer n vnet b;
  Ok (ok, n).

Definition magicReceive (e : NiEnv) (n : t) (vnet : Z) (m : Message.t) : result t :=
  deliver e n vnet (Some m).

(** [magicSend]: to this interface at once, to another one by an event. *)
Definition magicSend (e : NiEnv) (n : t) (ni vnet : Z) (m : Message.t) : result t :=
  if ni =? ni_self e then magicReceive e n vnet m
  else Ok (schedule_link n (NiMagicSend ni vnet m)).

(** [n] increments of the injected flits. *)
Definition inject_flits (s : NetStats.t) (vnet num_flits : Z) : result NetStats.t :=
  for_range 0 (Z.to_nat num_flits) (λ _ s, NetStats.bump s FlitsInjected vnet 1) s.

(** One destination of [flitisizeMessage], once channel [vc] is found:
    [network_trace] is the constant true, so the packet is counted and delivered
    at once and no flit is created. *)
Definition flitisize_one (e : NiEnv) (o : OutputPort) (m : Message.t) (vnet num_flits destID : Z)
    (many : bool) (st : t * NetStats.t * Store) : result (t * NetStats.t * Store) :=
  let '(n, s, store) := st in
  msg ← determinate (store !! Message.msg_ref m);
  let new_ref := fresh (dom store) in
  let copy := Message.mk new_ref (Message.m_time m) (Message.m_LastEnqueueTime m)
                (Message.m_DelayedTicks m) (Message.m_msg_counter m) in
  '(dest, store) ←
    (if many then
       '(found, personal_dest) ← node_dest destID;
       left ← NetDest.removeNetDest (pm_dest msg) personal_dest;
       Ok (if found then personal_dest else pm_dest msg,
           <[Message.msg_ref m := mkProtocolMsg m left (pm_size msg)]> store)
     else Ok (pm_dest msg, store));
  let store := <[new_ref := mkProtocolMsg copy dest (pm_size msg)]> store in
  dest_router ← ni_router_of e destID vnet;
  let route := mkRoute vnet dest (m_id n) (routerID o) destID dest_router (-1) false
                 (network_idx (ni_route0 e)) (input_idx (ni_route0 e))
                 (phase_id (ni_route0 e)) in
  s ← NetStats.bump s PacketsInjected vnet 1;
  s ← NetStats.update_traffic_distribution (ni_config e) s route;
  let '(_, s) := NetStats.getNextPacketID s in
  s ← inject_flits s vnet num_flits;
  n ← magicSend e n destID vnet copy;
  Ok (n, s, store).

(** The loop over the destinations, and whether it took them all. *)
Fixpoint flitisize_all (e : NiEnv) (o : OutputPort) (m : Message.t) (vnet num_flits : Z)
    (many : bool) (dests : list Z) (st : t * NetStats.t * Store)
    : result (bool * (t * NetStats.t * Store)) :=
  match dests with
  | [] => Ok (true, st)
  | destID :: dests' =>
      let '(n, s, store) := st in
      '(vc, n) ← calculateVC (ni_cur e) n vnet;
      if vc =? -1 then Ok (false, (n, s, store))
      else
        st ← flitisize_one e o m vnet num_flits destID many (n, s, store);
        flitisize_all e o m vnet num_flits many dests' st
  end.

Definition flitisizeMessage (e : NiEnv) (m : Message.t) (vnet : Z)
    (st : t * NetStats.t * Store) : result (bool * (t * NetStats.t * Store)) :=
  let '(n, s, store) := st in
  msg ← determinate (store !! Message.msg_ref m);
  dest_nodes ← NetDest.getAllDest (pm_dest msg);
  match getOutportForVnet n vnet with
  | None => Err AssertFailed
  | Some p =>
      o ← vget (outPorts n) p;
      let num_flits := divCeil_f32 (pm_size msg) (op_bitWidth o) in
      flitisize_all e o m vnet num_flits (1 <? zlen dest_nodes) dest_nodes st
  end.

(** [b->isReady(clockEdge())] of the buffer of virtual network [vnet], whose
    consumer is this interface. *)
Definition in_ready (e : NiEnv) (n : t) (b : MessageBuffer.t) : result (bool * t) :=
  '(ready, again) ← MessageBuffer.isReady b (clockEdge (ni_cur e) n 0);
  n ← (if (again : bool) then scheduleEvent (ni_cur e) n 1 else Ok n);
  Ok (ready, n).

(** The loop over the protocol buffers, [k] of them from [vnet]. *)
Fixpoint take_messages (e : NiEnv) (vnet : Z) (k : nat) (st : t * NetStats.t * Store)
    : result (t * NetStats.t * Store) :=
  match k with
  | O => Ok st
  | S k' =>
      let '(n, s, store) := st in
      ob ← vget (inNode_ptr n) vnet;
      match ob with
      | None => take_messages e (vnet + 1) k' st
      | Some b =>
          '(ready, n) ← in_ready e n b;
          if (ready : bool) then
            m ← MessageBuffer.peekMsgPtr b;
            '(taken, (n, s, store)) ←
              flitisizeMessage e m vnet (n, s, store);
            if (taken : bool) then
              '(_, b, callback) ← MessageBuffer.dequeue b (clockEdge (ni_cur e) n 0)
                                    (ni_cur e) true;
              ins ← vset (inNode_ptr n) vnet (Some b);
              let n := with_nodes n ins (outNode_ptr n) (m_stall_count n) in
              let n := if (callback : bool) then schedule_link n (NiDequeued vnet)
                       else n in
              take_messages e (vnet + 1) k' (n, s, store)
            else Ok (n, s, store)
          else take_messages e (vnet + 1) k' (n, s, store)
      end
  end.

(** *** Receiving *)

Definition sendCredit (p : InputPort) (c : flit) : InputPort :=
  mkInputPort (ip_vnets p) (FlitBuffer.insert (outCreditQueue p) c) (ip_bitWidth p)
    (m_stall_queue p) (messageEnqueuedThisCycle p).

Definition with_stall_queue (p : InputPort) (q : list flit) : InputPort :=
  mkInputPort (ip_vnets p) (outCreditQueue p) (ip_bitWidth p) q
    (messageEnqueuedThisCycle p).

Definition with_enqueued (p : InputPort) (b : bool) : InputPort :=
  mkInputPort (ip_vnets p) (outCreditQueue p) (ip_bitWidth p) (m_stall_queue p) b.

Definition upd_inport (n : t) (i : Z) (f : InputPort → InputPort) : result t :=
  ins ← vupd (inPorts n) i (λ p, Ok (f p));
  Ok (with_ports n (outPorts n) ins).

Definition add_stall (n : t) (vnet k : Z) : result t :=
  counts ← vupd (m_stall_count n) vnet (λ c, Ok (c + k));
  Ok (with_nodes n (inNode_ptr n) (outNode_ptr n) counts).

(** The message of a flit, null when it has none. *)
Definition flit_message (store : Store) (f : flit) : option Message.t :=
  match flit_m_msg_ptr f with
  | Some ref => pm_msg <$> store !! ref
  | None => None
  end.

(** A stalled flit leaves: it is delivered, a credit that frees its channel is
    sent, and the callback is removed with the last flit of the virtual
    network. *)
Definition unstall (e : NiEnv) (store : Store) (i : Z) (rest : list flit) (f : flit)
    (st : t * NetStats.t) : result (t * NetStats.t) :=
  let '(n, s) := st in
  let vnet := flit_m_vnet f in
  n ← deliver e n vnet (flit_message store f);
  n ← upd_inport n i (λ p, sendCredit p (new_Credit (ni_route0 e) (flit_m_vc f) true
                                           (ni_cur e)));
  s ← incrementStats (ni_cur e) n s f;
  n ← upd_inport n i (λ p, with_stall_queue p rest);
  n ← add_stall n vnet (-1);
  count ← vget (m_stall_count n) vnet;
  n ← (if count =? 0 then
         b ← out_buffer n vnet;
         set_out_buffer n vnet (MessageBuffer.unregisterDequeueCallback b)
       else Ok n);
  n ← upd_inport n i (λ p, with_enqueued p true);
  Ok (n, s).

(** The first stalled flit whose buffer has a slot leaves; [before] are the
    flits the iterator has passed. *)
Fixpoint unstall_first (e : NiEnv) (store : Store) (i : Z) (before fs : list flit)
    (st : t * NetStats.t) : result (t * NetStats.t) :=
  match fs with
  | [] => Ok st
  | f :: fs' =>
      let '(n, s) := st in
      '(ok, n) ← slot_available e n (flit_m_vnet f);
      if (ok : bool) then unstall e store i (before ++ fs') f (n, s)
      else unstall_first e store i (before ++ [f]) fs' (n, s)
  end.

Definition check_port (e : NiEnv) (store : Store) (i : Z) (st : t * NetStats.t)
    : result (t * NetStats.t) :=
  let '(n, s) := st in
  n ← upd_inport n i (λ p, with_enqueued p false);
  p ← vget (inPorts n) i;
  unstall_first e store i [] (m_stall_queue p) (n, s).

Definition checkStallQueue (e : NiEnv) (store : Store) (st : t * NetStats.t)
    : result (t * NetStats.t) :=
  for_range 0 (length (inPorts st.1)) (check_port e store) st.

(** A tail flit at input port [i]. *)
Definition receive_tail (e : NiEnv) (store : Store) (i : Z) (f : flit)
    (st : t * NetStats.t) : result (t * NetStats.t) :=
  let '(n, s) := st in
  let vnet := flit_m_vnet f in
  p ← vget (inPorts n) i;
  '(ok, n) ← (if messageEnqueuedThisCycle p then Ok (false, n)
              else slot_available e n vnet);
  if (ok : bool) then
    '(n, s) ←
      (if negb (ni_trace e) then
         n ← deliver e n vnet (flit_message store f);
         Ok (n, s)
       else
         s ← NetStats.increment_trace_flits_received s;
         Ok (n, s));
    n ← upd_inport n i (λ p, sendCredit p (new_Credit (ni_route0 e) (flit_m_vc f) true
                                             (ni_cur e)));
    s ← incrementStats (ni_cur e) n s f;
    Ok (n, s)
  else
    n ← upd_inport n i (λ p, with_stall_queue p (m_stall_queue p ++ [f]));
    n ← add_stall n vnet 1;
    b ← out_buffer n vnet;
    n ← set_out_buffer n vnet (MessageBuffer.registerDequeueCallback b);
    Ok (n, s).

(** The incoming link of input port [i]; [bufs] are the buffers of the links. *)
Definition receive_port (e : NiEnv) (store : Store) (i : Z)
    (st : t * NetStats.t * list FlitBuffer.t)
    : result (t * NetStats.t * list FlitBuffer.t) :=
  let '(n, s, bufs) := st in
  buf ← vget bufs i;
  if FlitBuffer.isReady buf (ni_cur e) then
    '(f, buf) ← FlitBuffer.getTopFlit buf;
    bufs ← vset bufs i buf;
    p ← vget (inPorts n) i;
    _ ← assert (flit_m_width f =? ip_bitWidth p);
    let f := set_dequeue_time f (ni_cur e) in
    '(n, s) ←
      (if is_tail (flit_m_type f) then receive_tail e store i f (n, s)
       else
         n ← upd_inport n i (λ p, sendCredit p (new_Credit (ni_route0 e) (flit_m_vc f)
                                                  false (ni_cur e)));
         s ← incrementStats (ni_cur e) n s f;
         Ok (n, s));
    Ok (n, s, bufs)
  else Ok st.

(** The credit link of output port [i]; [bufs] are the buffers of the links. *)
Definition credit_port (cur : Tick) (i : Z) (st : t * list FlitBuffer.t)
    : result (t * list FlitBuffer.t) :=
  let '(n, bufs) := st in
  buf ← vget bufs i;
  if FlitBuffer.isReady buf cur then
    '(c, buf) ← FlitBuffer.getTopFlit buf;
    bufs ← vset bufs i buf;
    os ← vupd (outVcState n) (flit_m_vc c) OutVcState.increment_credit;
    free ← is_free_signal c;
    os ← (if (free : bool) then
            vupd os (flit_m_vc c) (λ o, Ok (OutVcState.setState o IDLE_ cur))
          else Ok os);
    Ok (with_outVcState n os, bufs)
  else Ok st.

(** A port with credits to send has its credit link scheduled. *)
Definition credit_out (cur : Tick) (i : Z) (n : t) : result t :=
  p ← vget (inPorts n) i;
  if 0 <? FlitBuffer.getSize (outCreditQueue p) then
    Ok (schedule_link n (NiCreditLinkAt i (clockEdge cur n 1)))
  else Ok n.

(** *** The wake-up *)

(** Whether a protocol buffer has a ready message; its [isReady] may schedule
    this interface. *)
Fixpoint any_message (e : NiEnv) (bs : list (option MessageBuffer.t)) (n : t)
    : result (bool * t) :=
  match bs with
  | [] => Ok (false, n)
  | None :: bs' => any_message e bs' n
  | Some b :: bs' =>
      '(ready, n) ← in_ready e n b;
      if (ready : bool) then Ok (true, n) else any_message e bs' n
  end.

Definition checkReschedule (e : NiEnv) (n : t) (in_bufs credit_bufs : list FlitBuffer.t)
    : result t :=
  '(waiting, n) ← any_message e (inNode_ptr n) n;
  let again :=
    (waiting : bool) ||
    negb (zlen (m_trace_injection_queue n) =? 0) ||
    existsb (λ q, FlitBuffer.isReady q (clockEdge (ni_cur e) n 1)) (niOutVcs n) ||
    existsb (λ q, FlitBuffer.isReady q (ni_cur e)) in_bufs ||
    existsb (λ q, FlitBuffer.isReady q (ni_cur e)) credit_bufs in
  if again then scheduleEvent (ni_cur e) n 1 else Ok n.

(** The trace branch of [wakeup]: a batch of records is turned into flits when
    none is left to inject, and one flit is injected if a channel is free. *)
Definition inject_trace (e : NiEnv) (n : t) (s : NetStats.t) : result (t * NetStats.t) :=
  '(n, s) ←
    (match m_trace_injection_queue n, m_trace_record_queue n with
     | [], _ :: _ => transferTraceRecordsToInjectionQueue e n s
     | _, _ => Ok (n, s)
     end);
  match m_trace_injection_queue n with
  | [] => Ok (n, s)
  | f :: _ =>
      let vnet := flit_m_vnet f in
      '(vc, n) ← calculateVC (ni_cur e) n vnet;
      if negb (vc =? -1) then injectTraceFlit (ni_cur e) n s vnet vc
      else Ok (n, s)
  end.

(** [wakeup()]: [in_bufs] and [credit_bufs] are the buffers of the incoming
    network links (one per input port) and credit links (one per output port). *)
Definition wakeup (e : NiEnv) (n : t) (s : NetStats.t) (store : Store)
    (in_bufs credit_bufs : list FlitBuffer.t)
    : result (t * NetStats.t * Store * list FlitBuffer.t * list FlitBuffer.t) :=
  _ ← assert (ni_cur e =? clockEdge (ni_cur e) n 0);
  '(n, s, store) ←
    (if negb (ni_trace e) then
       take_messages e 0 (length (inNode_ptr n)) (n, s, store)
     else
       '(n, s) ← inject_trace e n s;
       Ok (n, s, store));
  n ← scheduleOutputLink (ni_config e) (ni_cur e) n;
  '(n, s) ← checkStallQueue e store (n, s);
  '(n, s, in_bufs) ← for_range 0 (length (inPorts n)) (receive_port e store)
                       (n, s, in_bufs);
  '(n, credit_bufs) ← for_range 0 (length (outPorts n)) (credit_port (ni_cur e))
                        (n, credit_bufs);
  n ← for_range 0 (length (inPorts n)) (credit_out (ni_cur e)) n;
  n ← checkReschedule e n in_bufs credit_bufs;
  Ok (n, s, store, in_bufs, credit_bufs).

End destinations.

(** *** Functional accesses *)

Section functional.
  Context {P : Type}.
  Variable msg_functionalRead : nat → P → bool * P.
  Variable msg_functionalWrite : nat → P → bool * P.

Definition functionalRead (n : t) (p : P) : result (bool * P) :=
  let read q st := ('(r, p) ← FlitBuffer.functionalRead msg_functionalRead q st.2;
                    Ok (st.1 || r, p)) in
  '(_, st) ← for_each (λ q st, st ← read q st; Ok (q, st)) (niOutVcs n) (false, p);
  '(_, st) ← for_each (λ o st, st ← read (outFlitQueue o) st; Ok (o, st)) (outPorts n) st;
  Ok st.

Definition functionalWrite (n : t) (p : P) : result (Z * P) :=
  let write q st := ('(k, p) ← FlitBuffer.functionalWrite msg_functionalWrite q st.2;
                     Ok (st.1 + k, p)) in
  '(_, st) ← for_each (λ q st, st ← write q st; Ok (q, st)) (niOutVcs n) (0, p);
  '(_, st) ← for_each (λ o st, st ← write (outFlitQueue o) st; Ok (o, st)) (outPorts n) st;
  Ok st.
End functional.

End NetworkInterface.
