(* ===== verification/InterfaceFacts.v ===== *)
(** * Properties of the network interfaces

    The choice of a virtual channel, the replay of a trace, the latencies that
    are recorded, and the flow control of an interface with its router. *)

From stdpp Require Import sorting.
From S2P Require Import Prelude.
From S2P Require Import IntMath.
From S2P Require Import NetDest.
From S2P Require Import Flit.
From S2P Require Import VirtualChannels.
From S2P Require Import Clocking.
From S2P Require Import Links.
From S2P Require Import MessageBuffer.
From S2P Require Import Statistics.
From S2P Require Import NetworkInterface.

Import NetworkInterface.

(** ** Channels and virtual networks *)

Lemma vnet_from_spec per vc i k :
  0 < per →
  vnet_from per vc i k =
    if (i * per <=? vc) && (vc <? (i + Z.of_nat k) * per) then Ok (vc / per)
    else Err FatalError.
Proof.
  intros Hper. revert i. induction k as [|k IH]; intros i; cbn [vnet_from].
  - replace (i + Z.of_nat 0) with i by lia. zcases. all: done.
  - rewrite IH. replace (i + 1 + Z.of_nat k) with (i + Z.of_nat (S k)) by lia.
    destruct (Z.leb_spec (i * per) vc), (Z.ltb_spec vc ((i + 1) * per)); cbn [andb].
    + assert (vc / per = i) as -> by (symmetry; apply Z.div_unique with (vc - i * per); lia).
      destruct (Z.ltb_spec vc ((i + Z.of_nat (S k)) * per)); [done|nia].
    + destruct (Z.leb_spec ((i + 1) * per) vc); [done|lia].
    + destruct (Z.leb_spec ((i + 1) * per) vc); [nia|done].
    + nia.
Qed.

(** [get_vnet] finds the virtual network a channel belongs to: the quotient
    by the number of channels per virtual network for the channels of the
    interface, and the fatal error for any other number. *)
Theorem get_vnet_correct n vc :
  0 < m_vc_per_vnet n → 0 ≤ m_virtual_networks n →
  get_vnet n vc =
    if (0 <=? vc) && (vc <? m_virtual_networks n * m_vc_per_vnet n)
    then Ok (vc / m_vc_per_vnet n) else Err FatalError.
Proof.
  intros Hper Hv. unfold get_vnet. rewrite vnet_from_spec by done.
  by rewrite Z2Nat.id, Z.add_0_l by done.
Qed.

(** ** The choice of a channel *)

Section channel_choice.
  Context (cur : Tick) (vnet : Z).
  Implicit Types n : t.

(** Channel [vc] is idle. *)
Definition idle_vc n (vc : Z) : Prop :=
  ∃ o, zlookup (outVcState n) vc = Some o ∧ OutVcState.isInState o IDLE_ cur = true.

(** The channels of the virtual network, its allocator and its counter exist,
    and the allocator points into the virtual network. *)
Definition vnet_wf n : Prop :=
  0 ≤ vnet ∧ (vnet + 1) * m_vc_per_vnet n ≤ zlen (outVcState n) ∧
  vnet < zlen (vc_busy_counter n) ∧
  ∃ delta, zlookup (m_vc_allocator n) vnet = Some delta ∧ 0 ≤ delta < m_vc_per_vnet n.

(** The [j]-th channel tried when the allocator is at [delta]. *)
Definition tried n (delta j : Z) : Z :=
  vnet * m_vc_per_vnet n + (delta + j) mod m_vc_per_vnet n.

Definition chosen n (delta j : Z) : t :=
  with_alloc n
    (<[Z.to_nat vnet := (delta + j + 1) mod m_vc_per_vnet n]> (m_vc_allocator n))
    (<[Z.to_nat vnet := 0]> (vc_busy_counter n)).

Lemma rr_mod per x : 0 < per →
  (if x mod per + 1 =? per then 0 else x mod per + 1) = (x + 1) mod per.
Proof.
  intros Hp. pose proof (Z.mod_pos_bound x per Hp).
  destruct (Z.eqb_spec (x mod per + 1) per) as [E|E].
  - rewrite <- Zplus_mod_idemp_l, E. by rewrite Z_mod_same_full.
  - rewrite <- Zplus_mod_idemp_l. symmetry. apply Z.mod_small. lia.
Qed.

Lemma calculate_from_spec n delta i k :
  vnet_wf n → zlookup (m_vc_allocator n) vnet = Some ((delta + i) mod m_vc_per_vnet n) →
  (∃ j, i ≤ j < i + Z.of_nat k ∧ idle_vc n (tried n delta j) ∧
        (∀ j', i ≤ j' < j → ¬ idle_vc n (tried n delta j')) ∧
        calculate_from cur vnet k n = Ok (Some (tried n delta j), chosen n delta j)) ∨
  ((∀ j, i ≤ j < i + Z.of_nat k → ¬ idle_vc n (tried n delta j)) ∧
   calculate_from cur vnet k n =
     Ok (None, with_alloc n
       (<[Z.to_nat vnet := (delta + i + Z.of_nat k) mod m_vc_per_vnet n]> (m_vc_allocator n))
       (vc_busy_counter n))).
Proof.
  revert i n. induction k as [|k IH]; intros i n Hwf Ha.
  - right. split; [lia|]. cbn [calculate_from].
    replace (delta + i + Z.of_nat 0) with (delta + i) by lia.
    apply zlookup_Some in Ha as [_ Ha]. rewrite list_insert_id by done. by destruct n.
  - destruct Hwf as (Hv & Hlen & Hbusy & d & Hd & Hdr).
    assert (0 < m_vc_per_vnet n) as Hper by lia.
    pose proof (zlookup_lt _ _ _ Ha) as Hla.
    cbn [calculate_from]. rewrite (vget_intro _ _ _ Ha). cbn [rbind].
    rewrite rr_mod by done. rewrite vset_intro by done. cbn [rbind].
    set (n1 := with_alloc n _ _).
    change (vnet * m_vc_per_vnet n1 + _) with (tried n delta i).
    assert (0 ≤ tried n delta i < zlen (outVcState n)) as Ht.
    { unfold tried. pose proof (Z.mod_pos_bound (delta + i) (m_vc_per_vnet n) Hper). nia. }
    destruct (zlookup_is_Some (outVcState n) _ Ht) as [o Ho].
    change (outVcState n1) with (outVcState n). rewrite (vget_intro _ _ _ Ho).
    cbn [rbind]. destruct (OutVcState.isInState o IDLE_ cur) eqn:Eo.
    + left. exists i. split; [lia|]. split; [by exists o|]. split; [lia|].
      rewrite vset_intro by (cbn; lia). cbn [rbind]. done.
    + assert (vnet_wf n1) as Hwf1.
      { split_and!; [done|done|done|]. exists ((delta + i + 1) mod m_vc_per_vnet n).
        split; [by apply zlookup_insert_eq|]. by apply Z.mod_pos_bound. }
      assert (zlookup (m_vc_allocator n1) vnet =
              Some ((delta + (i + 1)) mod m_vc_per_vnet n1)) as Ha1.
      { cbn. rewrite Z.add_assoc. by apply zlookup_insert_eq. }
      destruct (IH (i + 1) n1 Hwf1 Ha1) as [(j & Hj & Hidle & Hno & ->)|[Hno ->]].
      * left. exists j. split; [lia|]. split; [exact Hidle|]. split.
        { intros j' Hj'. destruct (decide (j' = i)) as [->|]; [|apply Hno; lia].
          intros (o' & Ho' & Hi'). congruence. }
        unfold chosen. cbn. by rewrite list_insert_insert_eq.
      * right. split.
        { intros j' Hj'. destruct (decide (j' = i)) as [->|]; [|apply Hno; lia].
          intros (o' & Ho' & Hi'). congruence. }
        cbn. rewrite list_insert_insert_eq.
        by replace (delta + i + Z.of_nat (S k)) with (delta + (i + 1) + Z.of_nat k) by lia.
Qed.

(** What [calculateVC] promises when the allocator is at [delta]: the first idle
    channel at or after it, or -1 with the counter of failures incremented. *)
Definition choice_ok n (delta : Z) (r : result (Z * t)) : Prop :=
  (∃ vc n', r = Ok (vc, n') ∧ idle_vc n vc ∧
     vnet * m_vc_per_vnet n ≤ vc < (vnet + 1) * m_vc_per_vnet n ∧
     (∀ vc', vnet * m_vc_per_vnet n ≤ vc' < (vnet + 1) * m_vc_per_vnet n → idle_vc n vc' →
        (vc - vnet * m_vc_per_vnet n - delta) mod m_vc_per_vnet n ≤
        (vc' - vnet * m_vc_per_vnet n - delta) mod m_vc_per_vnet n) ∧
     zlookup (vc_busy_counter n') vnet = Some 0 ∧
     zlookup (m_vc_allocator n') vnet =
       Some ((vc - vnet * m_vc_per_vnet n + 1) mod m_vc_per_vnet n)) ∨
  ((∀ vc, vnet * m_vc_per_vnet n ≤ vc < (vnet + 1) * m_vc_per_vnet n → ¬ idle_vc n vc) ∧
   ∃ b, zlookup (vc_busy_counter n) vnet = Some b ∧
     (m_deadlock_threshold n < b + 1 → r = Err Panicked) ∧
     (b + 1 ≤ m_deadlock_threshold n →
      ∃ n', r = Ok (-1, n') ∧ zlookup (vc_busy_counter n') vnet = Some (b + 1) ∧
            zlookup (m_vc_allocator n') vnet = Some delta)).

(** Every channel of the virtual network is tried once. *)
Lemma tried_all n delta vc :
  0 < m_vc_per_vnet n →
  vnet * m_vc_per_vnet n ≤ vc < (vnet + 1) * m_vc_per_vnet n →
  tried n delta ((vc - vnet * m_vc_per_vnet n - delta) mod m_vc_per_vnet n) = vc.
Proof.
  intros Hp Hvc. unfold tried. rewrite Zplus_mod_idemp_r.
  replace (delta + (vc - vnet * m_vc_per_vnet n - delta))
    with (vc - vnet * m_vc_per_vnet n) by lia.
  rewrite Z.mod_small; lia.
Qed.


(** [calculateVC] hands out the idle channel of the virtual network that comes
    first in round-robin order from the allocator, moves the allocator past it and
    clears the counter of failures; when no channel is idle it returns -1 and
    increments the counter, or stops the simulation once the deadlock threshold is
    exceeded. *)
Theorem calculateVC_correct n :
  vnet_wf n → ∃ delta, zlookup (m_vc_allocator n) vnet = Some delta ∧
                       choice_ok n delta (calculateVC cur n vnet).
Proof.
  intros Hwf. pose proof Hwf as (Hv & Hlen & Hbusy & delta & Hd & Hdr).
  exists delta. split; [done|].
  assert (0 < m_vc_per_vnet n) as Hper by lia.
  pose proof (zlookup_lt _ _ _ Hd) as Hla.
  destruct (calculate_from_spec n delta 0 (Z.to_nat (m_vc_per_vnet n)) Hwf)
    as [(j & Hj & Hidle & Hno & Hc)|[Hno Hc]];
    [by rewrite Z.add_0_r, Z.mod_small|..]; unfold calculateVC; rewrite Hc; cbn [rbind].
  - left. exists (tried n delta j), (chosen n delta j). split; [done|]. split; [done|].
    assert (vnet * m_vc_per_vnet n ≤ tried n delta j < (vnet + 1) * m_vc_per_vnet n) as Hr.
    { unfold tried. pose proof (Z.mod_pos_bound (delta + j) (m_vc_per_vnet n) Hper). lia. }
    assert (Hjm : (tried n delta j - vnet * m_vc_per_vnet n - delta) mod m_vc_per_vnet n = j).
    { unfold tried. rewrite Z.add_simpl_l, Zminus_mod_idemp_l, Z.add_simpl_l.
      apply Z.mod_small. lia. }
    split; [done|]. split; [|split].
    + intros vc' Hvc' Hi'. rewrite Hjm.
      pose proof (Z.mod_pos_bound (vc' - vnet * m_vc_per_vnet n - delta) _ Hper).
      apply Z.nlt_ge. intros Hlt. apply (Hno _ (conj (proj1 H) Hlt)).
      by rewrite tried_all.
    + cbn. apply zlookup_insert_eq. lia.
    + cbn. rewrite zlookup_insert_eq by done. f_equal. unfold tried.
      by rewrite Z.add_simpl_l, Zplus_mod_idemp_l.
  - right. split.
    { intros vc Hvc Hi. pose proof (Z.mod_pos_bound (vc - vnet * m_vc_per_vnet n - delta) _ Hper).
      apply (Hno ((vc - vnet * m_vc_per_vnet n - delta) mod m_vc_per_vnet n)); [lia|].
      by rewrite tried_all. }
    destruct (zlookup_is_Some (vc_busy_counter n) vnet) as [b Hb]; [lia|].
    exists b. split; [done|]. cbn. rewrite (vget_intro _ _ _ Hb). cbn.
    rewrite vset_intro by lia. cbn. split.
    + intros Ht. by rewrite (proj2 (Z.ltb_lt _ _) Ht).
    + intros Ht. rewrite (proj2 (Z.ltb_ge _ _) Ht). cbn. eexists. split; [done|].
      split; [apply zlookup_insert_eq; lia|]. cbn. rewrite zlookup_insert_eq by done.
      f_equal. rewrite Z.add_0_r, Z2Nat.id by lia.
      rewrite <- Zplus_mod_idemp_r, Z_mod_same_full, Z.add_0_r. by apply Z.mod_small.
Qed.

End channel_choice.

(** ** Destinations of nodes *)

Section destinations.
  Context `{MachineTypeLaws}.

Lemma clear_wf d : NetDest.wf d → NetDest.wf (NetDest.clear d) ∧
  ∀ ty num, ¬ NetDest.elem ty num (NetDest.clear d).
Proof.
  intros [Hl Hw]. unfold NetDest.clear.
  assert (∀ i s, zlookup (map RubySet.clear d) i = Some s →
                 ∃ s0, zlookup d i = Some s0 ∧ s = RubySet.clear s0) as Hc.
  { intros i s [Hi Hs]%zlookup_Some. apply list_lookup_fmap_Some in Hs as (s0 & -> & Hs0).
    exists s0. by rewrite zlookup_Some. }
  split; [split|].
  - unfold zlen in *. by rewrite length_map.
  - intros i s (s0 & Hs0 & ->)%Hc. destruct (Hw _ _ Hs0) as [[Hn _] Hsz].
    split; [|done]. split; [done|]. intros j Hj. by rewrite Z.testbit_0_l in Hj.
  - intros ty num (s & (s0 & _ & ->)%Hc & He). unfold RubySet.elem in He.
    by rewrite Z.testbit_0_l in He.
Qed.

(** A destination that names one machine alone. *)
Definition only (ty num : Z) (d : NetDest.t) : Prop :=
  NetDest.wf d ∧ ∀ ty' num', NetDest.elem ty' num' d ↔ ty' = ty ∧ num' = num.

Lemma find_dest_spec destID m k d :
  NetDest.wf d → 0 ≤ m → m + Z.of_nat k = MachineType_NUM →
  MachineType_base_number m ≤ destID < MachineType_base_number MachineType_NUM →
  ∃ ty num d', find_dest destID m k d = Ok (true, d') ∧
    0 ≤ ty < MachineType_NUM ∧ 0 ≤ num < MachineType_base_count ty ∧
    MachineType_base_number ty + num = destID ∧ only ty num d'.
Proof.
  revert m d. induction k as [|k IH]; intros m d Hd Hm Hk Hr.
  { replace m with MachineType_NUM in Hr by lia. lia. }
  assert (0 ≤ m < MachineType_NUM) as Hm2 by lia.
  pose proof (base_number_succ m Hm2) as Hsucc. cbn [find_dest].
  destruct (Z.ltb_spec destID (MachineType_base_number (m + 1))) as [Hlt|Hge].
  - rewrite (proj2 (Z.leb_le _ _) (proj1 Hr)). cbn [andb].
    destruct (clear_wf d Hd) as [Hcw Hce].
    destruct (NetDest.add_spec (NetDest.clear d) m (destID - MachineType_base_number m))
      as (d' & -> & Hw' & He'); [done|lia|lia|]. cbn [rbind].
    exists m, (destID - MachineType_base_number m), d'. split_and!; try lia; [done|].
    split; [done|]. intros ty num. rewrite He'. naive_solver.
  - rewrite andb_false_r. apply IH; [done|lia|lia|lia].
Qed.

(** The destination set the interface computes for a node number is the one
    machine whose nodes contain it: trace packets are addressed to exactly the
    node the record names. *)
Theorem node_dest_correct destID :
  0 ≤ destID < MachineType_base_number MachineType_NUM → destID < 2 ^ 32 →
  ∃ ty num d, node_dest destID = Ok (true, d) ∧
    0 ≤ ty < MachineType_NUM ∧ 0 ≤ num < MachineType_base_count ty ∧
    MachineType_base_number ty + num = destID ∧ only ty num d.
Proof.
  intros Hr H32. unfold node_dest. destruct NetDest.make_empty as (d & -> & Hw & _).
  cbn [rbind]. unfold wrap32. rewrite Z.mod_small by lia.
  pose proof machine_num_pos.
  apply find_dest_spec; [done|lia|lia|]. by rewrite base_number_0.
Qed.

End destinations.

(** ** Trace replay *)

Section replay.
  Context (cur : Tick) (o : OutputPort) (recs : list NetworkTraceRecord)
          (routes : list RouteInfo) (s0 : NetStats.t) (q0 : list flit).

(** Record [r] has a flit in round [i]. *)
Definition sends (i r : Z) : bool := i <? at_ tr_num_flits recs r.

Definition round (i : Z) (n : Z) : list (Z * Z) :=
  pair i <$> filter (λ r, Is_true (sends i r)) (seqZ 0 n).

(** The rounds before round [i], then the first [n] records of round [i]. *)
Definition turns (i n : Z) : list (Z * Z) :=
  (seqZ 0 i ≫= λ j, round j (zlen recs)) ++ round i n.

(** The flit made for record [p.2] in round [p.1]. *)
Definition made_for (id : Z) (p : Z * Z) (f : flit) : Prop :=
  ∃ rec route, zlookup recs p.2 = Some rec ∧ zlookup routes p.2 = Some route ∧
    f = trace_flit cur o id rec (with_last_flit route (p.1 =? tr_num_flits rec - 1)).

(** The flits [fs] are those of the turns [ps], with consecutive packet ids. *)
Definition made (ps : list (Z * Z)) (fs : list flit) : Prop :=
  length fs = length ps ∧
  ∀ k p f, ps !! k = Some p → fs !! k = Some f →
    made_for (NetStats.m_next_packet_id s0 + Z.of_nat k) p f.

Definition same_route (a b : RouteInfo) : Prop :=
  with_last_flit a false = with_last_flit b false.

(** The loops have done the turns [ps]. *)
Definition replayed (ps : list (Z * Z)) (st : rr_state) : Prop :=
  let '(rs, s, q) := st in
  ∃ fs, q = q0 ++ fs ∧ made ps fs ∧ Forall2 same_route routes rs ∧
    s = NetStats.with_traffic s0 (NetStats.m_data_traffic_distribution s0)
          (NetStats.m_ctrl_traffic_distribution s0)
          (NetStats.m_next_packet_id s0 + zlen fs).

Lemma made_snoc ps fs p f :
  made ps fs → made_for (NetStats.m_next_packet_id s0 + zlen fs) p f →
  made (ps ++ [p]) (fs ++ [f]).
Proof.
  intros [Hl Hm] Hf. split; [rewrite !length_app; cbn; lia|].
  intros k p' f' [Hp|[Hk Hp]]%lookup_app_Some [Hg|[Hk' Hg]]%lookup_app_Some.
  - by apply Hm.
  - apply lookup_lt_Some in Hp. lia.
  - apply lookup_lt_Some in Hg. lia.
  - apply list_lookup_singleton_Some in Hp as [Hp <-].
    apply list_lookup_singleton_Some in Hg as [_ <-].
    by replace (Z.of_nat k) with (zlen fs) by (unfold zlen; lia).
Qed.

Lemma round_succ i n :
  0 ≤ n → round i (n + 1) = round i n ++ if sends i n then [(i, n)] else [].
Proof.
  intros Hn. unfold round. rewrite seqZ_app by lia. rewrite filter_app, fmap_app.
  f_equal. rewrite Z.add_0_l. change (seqZ n 1) with [Z.of_nat 0 + n].
  rewrite filter_cons, filter_nil, Z.add_0_l. by destruct (sends i n).
Qed.

Lemma with_last_flit_twice r b c : with_last_flit (with_last_flit r b) c = with_last_flit r c.
Proof. done. Qed.

Lemma same_route_last a b c : same_route a b → with_last_flit b c = with_last_flit a c.
Proof.
  unfold same_route. intros E.
  by rewrite <- (with_last_flit_twice b false c), <- E, with_last_flit_twice.
Qed.

(** One turn of the inner loop. *)
Lemma emit_spec ps i r st :
  zlen routes = zlen recs → 0 ≤ r < zlen recs → replayed ps st →
  ∃ st', emit cur o recs i r st = Ok st' ∧
         replayed (ps ++ if sends i r then [(i, r)] else []) st'.
Proof.
  intros Hlen Hr. destruct st as [[rs s] q]. intros (fs & -> & Hm & Hrs & ->).
  destruct (zlookup_is_Some recs r Hr) as [rec Hrec]. unfold emit.
  rewrite (vget_intro _ _ _ Hrec). cbn [rbind]. unfold sends. rewrite (at_lookup _ _ _ _ Hrec).
  destruct (i <? tr_num_flits rec).
  2:{ eexists. split; [done|]. rewrite app_nil_r. by exists fs. }
  assert (zlen rs = zlen recs) as Hlrs.
  { apply Forall2_length in Hrs. unfold zlen in *. lia. }
  destruct (zlookup_is_Some rs r) as [b Hb]; [lia|].
  destruct (Forall2_zlookup_r _ _ _ _ _ Hrs Hb) as (a & Ha & Hab).
  rewrite (vget_intro _ _ _ Hb). cbn [rbind]. rewrite vset_intro by lia. cbn [rbind].
  rewrite (same_route_last _ _ _ Hab). eexists. split; [done|]. cbn -[zlen].
  eexists (fs ++ [_]). split; [by rewrite <- app_assoc|]. split; [|split].
  - apply made_snoc; [done|]. exists rec, a. by split_and!.
  - apply zlookup_Some in Ha as [_ Ha].
    rewrite <- (list_insert_id routes (Z.to_nat r) a Ha). by apply Forall2_insert.
  - rewrite zlen_app, Z.add_assoc. done.
Qed.

Lemma round_spec i st :
  zlen routes = zlen recs → replayed (turns i 0) st →
  ∃ st', for_range 0 (length recs) (emit cur o recs i) st = Ok st' ∧
         replayed (turns i (zlen recs)) st'.
Proof.
  intros Hlen Hst.
  destruct (for_range_total (λ r st, replayed (turns i r) st) (emit cur o recs i)
              (length recs) 0 st) as (st' & Hf & Hr); [|done|by exists st'].
  intros r st1 Hr Hst1. destruct (emit_spec _ i r st1 Hlen Hr Hst1) as (st2 & He & Hst2).
  exists st2. split; [done|]. unfold turns. rewrite round_succ by lia.
  by rewrite app_assoc.
Qed.

Lemma turns_next i : 0 ≤ i → turns (i + 1) 0 = turns i (zlen recs).
Proof.
  intros Hi. unfold turns. rewrite seqZ_app, bind_app, Z.add_0_l by lia.
  change (seqZ i 1) with [Z.of_nat 0 + i]. rewrite Z.add_0_l.
  change (round (i + 1) 0) with (@nil (Z * Z)). rewrite app_nil_r.
  change ([i] ≫= _) with (round i (zlen recs) ++ []). by rewrite app_nil_r.
Qed.

Lemma max_num_flits_spec :
  0 ≤ max_num_flits recs ∧ ∀ r, r ∈ recs → tr_num_flits r ≤ max_num_flits recs.
Proof.
  unfold max_num_flits. generalize 0. clear. induction recs as [|x l IH]; cbn; intros z.
  - split; [lia|]. set_solver.
  - destruct (IH (if z <? tr_num_flits x then tr_num_flits x else z)) as [Hz Hl].
    revert Hz Hl. destruct (Z.ltb_spec z (tr_num_flits x)); intros Hz Hl;
      (split; [lia|]); intros r [->|Hr]%elem_of_cons; try lia; by apply Hl.
Qed.

Lemma round_robin_spec :
  zlen routes = zlen recs →
  ∃ rs fs, round_robin cur o recs (routes, s0, q0) =
    Ok (rs, NetStats.with_traffic s0 (NetStats.m_data_traffic_distribution s0)
              (NetStats.m_ctrl_traffic_distribution s0)
              (NetStats.m_next_packet_id s0 + zlen fs), q0 ++ fs) ∧
    made (turns (max_num_flits recs) 0) fs.
Proof.
  intros Hlen. unfold round_robin.
  destruct max_num_flits_spec as [Hmax _].
  destruct (for_range_total (λ i st, replayed (turns i 0) st)
    (λ i, for_range 0 (length recs) (emit cur o recs i))
    (Z.to_nat (max_num_flits recs)) 0 (routes, s0, q0)) as ([[rs s] q] & Hf & Hr).
  - intros i st Hi Hst. rewrite turns_next by lia. by apply round_spec.
  - exists []. rewrite app_nil_r. split; [done|]. split; [|split].
    + unfold made, turns. cbn. done.
    + apply Forall_Forall2_diag, Forall_true. done.
    + cbn. rewrite Z.add_0_r. by destruct s0.
  - rewrite Z.add_0_l, Z2Nat.id in Hr by done. destruct Hr as (fs & -> & Hm & _ & ->).
    by exists rs, fs.
Qed.

(** The order of the turns: by round, then by record. *)
Definition before (a b : Z * Z) : Prop := a.1 < b.1 ∨ (a.1 = b.1 ∧ a.2 < b.2).

Lemma elem_of_round i n p :
  p ∈ round i n ↔ p.1 = i ∧ sends i p.2 = true ∧ 0 ≤ p.2 < n.
Proof.
  unfold round. destruct p as [j r]. rewrite list_elem_of_fmap. cbn. split.
  - intros (x & [= -> ->] & [Hs Hx]%list_elem_of_filter). apply elem_of_seqZ in Hx.
    by rewrite <- Is_true_true.
  - intros (-> & Hs & Hr). exists r. split; [done|]. apply list_elem_of_filter.
    rewrite elem_of_seqZ, Is_true_true. by split; [|lia].
Qed.

Lemma elem_of_turns i n p :
  p ∈ turns i n ↔
  sends p.1 p.2 = true ∧ (0 ≤ p.1 < i ∧ 0 ≤ p.2 < zlen recs ∨ p.1 = i ∧ 0 ≤ p.2 < n).
Proof.
  unfold turns. rewrite elem_of_app, list_elem_of_bind, elem_of_round. split.
  - intros [(j & [-> Hp]%elem_of_round & Hj%elem_of_seqZ)|[<- Hp]]; [|naive_solver].
    split; [by apply Hp|]. left. split; [lia|by apply Hp].
  - intros (Hs & [[Hi Hr]|[<- Hr]]); [left|by right].
    exists p.1. split; [by apply elem_of_round|]. apply elem_of_seqZ. lia.
Qed.

(** What is true of the turns one by one. *)
Lemma turns_sorted_step i n :
  0 ≤ n → StronglySorted before (turns i n) → StronglySorted before (turns i (n + 1)).
Proof.
  intros Hn Hs. unfold turns. rewrite round_succ, app_assoc by done.
  apply StronglySorted_app_2; [|done|destruct (sends i n); repeat constructor].
  intros x y Hx Hy. fold (turns i n) in Hx. apply elem_of_turns in Hx as (_ & Hx).
  destruct (sends i n); [|by apply elem_of_nil in Hy].
  apply list_elem_of_singleton in Hy as ->. unfold before. cbn. lia.
Qed.

Lemma turns_sorted i : 0 ≤ i → StronglySorted before (turns i 0).
Proof.
  revert i. apply natlike_ind.
  - constructor.
  - intros i Hi IH. rewrite <- Z.add_1_r, turns_next by done.
    assert (∀ n, 0 ≤ n → StronglySorted before (turns i n)) as Hn.
    { apply natlike_ind; [done|]. intros n Hn Hs. rewrite <- Z.add_1_r.
      by apply turns_sorted_step. }
    apply Hn, zlen_nonneg.
Qed.

End replay.

(** The turns of a batch: record [r] sends its flit [i] in turn [(i, r)]. *)
Definition batch_turns (recs : list NetworkTraceRecord) : list (Z * Z) :=
  turns recs (max_num_flits recs) 0.

Lemma elem_of_batch recs i r :
  (i, r) ∈ batch_turns recs ↔
  ∃ rec, zlookup recs r = Some rec ∧ 0 ≤ i < tr_num_flits rec.
Proof.
  unfold batch_turns. rewrite elem_of_turns. cbn. unfold sends. split.
  - intros (Hs & [[Hi Hr]|Hr]); [|lia]. destruct (zlookup_is_Some recs r Hr) as [rec Hrec].
    exists rec. split; [done|]. rewrite (at_lookup _ _ _ _ Hrec) in Hs. boolify. lia.
  - intros (rec & Hrec & Hi). rewrite (at_lookup _ _ _ _ Hrec). split; [apply Z.ltb_lt; lia|].
    left. pose proof (zlookup_lt _ _ _ Hrec). split; [|done].
    destruct (max_num_flits_spec recs) as [_ Hmax]. apply zlookup_Some in Hrec as [_ Hrec].
    specialize (Hmax rec (list_elem_of_lookup_2 _ _ _ Hrec)). lia.
Qed.

Lemma same_time_spec time q same rest :
  same_time time q = (same, rest) →
  q = same ++ rest ∧ Forall (λ r, tr_time r = time) same ∧
  (∀ r, head rest = Some r → tr_time r ≠ time).
Proof.
  revert same. induction q as [|r q IH]; intros same; cbn.
  - intros [= <- <-]. split; [done|]. split; [constructor|done].
  - destruct (Z.eqb_spec (tr_time r) time) as [E|E].
    + destruct (same_time time q) as [sm rs]. intros [= <- <-].
      destruct (IH sm eq_refl) as (-> & Hsm & Hhd). split; [done|]. split; [|done].
      by constructor.
    + intros [= <- <-]. split; [done|]. split; [constructor|]. by intros r' [= <-].
Qed.

Lemma trace_routes_length `{MachineTypes} e n o recs routes :
  trace_routes e n o recs = Ok routes → zlen routes = zlen recs.
Proof.
  revert routes. induction recs as [|r recs IH]; intros routes; cbn [trace_routes].
  - by intros [= <-].
  - intros H1. step_bind H1 as x Hx. step_bind H1 as xs Hxs. injection H1 as <-.
    rewrite !zlen_cons. by rewrite (IH xs Hxs).
Qed.

Section transfer.
  Context `{MachineTypes}.

(** A batch of trace records becomes flits in round-robin order.  The records
    at the front of the queue with its first time leave it; the flits appended to
    the injection queue are those of the turns (round, record) in increasing
    order, one for each flit of each record, each a packet of its own with the next
    packet number, marked as the last of its record in the last round of it. *)
Theorem transfer_round_robin e n s first queue recs rest next p o routes :
  m_trace_record_queue n = first :: queue →
  same_time (tr_time first) (first :: queue) = (recs, rest) →
  head rest = Some next → getOutportForVnet n (tr_vnet next) = Some p →
  vget (outPorts n) p = Ok o → trace_routes e n o recs = Ok routes →
  ∃ fs s',
    transferTraceRecordsToInjectionQueue e n s =
      Ok (with_trace n (m_trace_injection_queue n ++ fs) rest, s') ∧
    made (ni_cur e) o recs routes s (batch_turns recs) fs ∧
    NetStats.m_next_packet_id s' = NetStats.m_next_packet_id s + zlen fs ∧
    StronglySorted before (batch_turns recs) ∧
    (∀ i r, (i, r) ∈ batch_turns recs ↔
            ∃ rec, zlookup recs r = Some rec ∧ 0 ≤ i < tr_num_flits rec).
Proof.
  intros Hq Hst Hnext Hp Ho Hroutes. unfold transferTraceRecordsToInjectionQueue.
  rewrite Hq, Hst, Hnext. cbn [determinate rbind]. rewrite Hp, Ho. cbn [rbind].
  rewrite Hroutes. cbn [rbind].
  destruct (round_robin_spec (ni_cur e) o recs routes s (m_trace_injection_queue n))
    as (rs & fs & -> & Hm); [by eapply trace_routes_length|].
  cbn [rbind]. eexists fs, _. split; [done|]. split; [done|]. split; [done|].
  split; [apply turns_sorted, max_num_flits_spec|apply elem_of_batch].
Qed.

(** C37: the transfer of the last batch reads past the end of the record queue: when
    every record waiting has the time of the first, the queue is empty when its
    front is read for the output port. *)
Theorem transfer_last_batch_undefined e n s first queue :
  m_trace_record_queue n = first :: queue →
  Forall (λ r, tr_time r = tr_time first) queue →
  transferTraceRecordsToInjectionQueue e n s = Err Undefined.
Proof.
  intros Hq Hall. unfold transferTraceRecordsToInjectionQueue. rewrite Hq.
  assert (same_time (tr_time first) (first :: queue) = (first :: queue, [])) as ->; [|done].
  assert (Forall (λ r, tr_time r = tr_time first) (first :: queue)) as Hall'
    by (by constructor).
  revert Hall'. generalize (first :: queue). induction 1 as [|x l Hx Hl IH]; [done|].
  cbn. rewrite (proj2 (Z.eqb_eq _ _) Hx). by rewrite IH.
Qed.

End transfer.

(** ** Recorded latencies *)

(** Five counters are added to for a flit, three more for the end of a packet. *)
Ltac bump_next :=
  match goal with
  | Hwf : counters_wf ?vnets ?s |- context [NetStats.bump ?s ?k ?v ?n] =>
      let s' := fresh "s" in let E := fresh "E" in let W := fresh "W" in
      let C := fresh "C" in let vs := fresh "vs" in let F := fresh "F" in
      destruct (bump_total vnets s k v n Hwf) as (s' & E & W & C & vs & F); [done|];
      rewrite E; cbn [rbind]
  end.

Lemma wrap64_sum a b c : wrap64 (wrap64 a + wrap64 (wrap64 b + wrap64 c)) = wrap64 (a + b + c).
Proof.
  unfold wrap64. rewrite <- (Zplus_mod b c), <- Zplus_mod. f_equal. lia.
Qed.

(** The latency recorded for a single-flit packet is the time from the moment
    its record was turned into a flit to its ejection, less one cycle, wherever it
    waited in between: the injection time and the time the flit left its link
    cancel.  It is appended to the latencies of the phase of the packet, and the
    packet and its hops are counted. *)
Theorem phase_latency_exact cur n s f t0 vnets :
  counters_wf vnets s → 0 ≤ flit_m_vnet f < vnets → flit_m_type f = HEAD_TAIL_ →
  flit_src_delay f = Some (wrap64 (flit_m_enqueue_time f - t0)) →
  let key := (network_idx (flit_m_route f), input_idx (flit_m_route f),
              phase_id (flit_m_route f)) in
  ∃ s', incrementStats cur n s f = Ok s' ∧
    NetStats.m_packet_phase_latencies s' =
      <[key := default [] (NetStats.m_packet_phase_latencies s !! key) ++
               [wrap64 (cur - t0 - Clocked.cyclesToTicks (clk n) 1)]]>
        (NetStats.m_packet_phase_latencies s) ∧
    NetStats.m_total_hops s' = NetStats.m_total_hops s + hops_traversed (flit_m_route f) ∧
    (∀ v, counter s' PacketsReceived v =
            counter s PacketsReceived v + one_if (bool_decide (v = flit_m_vnet f))) ∧
    (∀ v, counter s' FlitsReceived v =
            counter s FlitsReceived v + one_if (bool_decide (v = flit_m_vnet f))).
Proof.
  intros Hwf Hv Hty Hsrc key. unfold incrementStats. rewrite Hty, Hsrc.
  bump_next. cbn [determinate rbind]. clear Hwf. bump_next. bump_next.
  rewrite bool_decide_eq_true_2 by done. cbn [orb is_tail].
  rewrite wrap64_sum.
  replace (flit_m_dequeue_time f - flit_m_enqueue_time f - Clocked.cyclesToTicks (clk n) 1 +
           (flit_m_enqueue_time f - t0) + (cur - flit_m_dequeue_time f))
    with (cur - t0 - Clocked.cyclesToTicks (clk n) 1) by lia.
  set (sp := NetStats.add_phase_latency s2 _ _ _ _).
  assert (counters_wf vnets sp) as Hsp by exact W1.
  bump_next. clear Hsp. bump_next. bump_next. eexists. split; [done|].
  assert (∀ k v, counter sp k v = counter s2 k v) as Csp by done.
  split; [|split; [|split]].
  - cbn. rewrite F4, F3, F2. unfold sp. by rewrite F1, F0, F.
  - cbn. rewrite F4, F3, F2. unfold sp. by rewrite F1, F0, F.
  - intros v. transitivity (counter s5 PacketsReceived v); [done|].
    rewrite C4, C3, C2, Csp, C1, C0, C, bumped_same, !bumped_other by done.
    unfold one_if. case_bool_decide; lia.
  - intros v. transitivity (counter s5 FlitsReceived v); [done|].
    rewrite C4, C3, C2, Csp, C1, C0, C, bumped_same, !bumped_other by done.
    unfold one_if. case_bool_decide; lia.
Qed.
