(* ===== verification/InterfaceFlow.v ===== *)
(** * Flow control of the network interfaces

    What a wake-up of an interface does to the slots it shares with its router:
    the credits it holds for the channels of the router, the flits it has sent
    against them and the credits on their way to it; and, on the other side, the
    flits it takes from its links, those it stalls and the credits it returns. *)

From S2P Require Import Prelude.
From S2P Require Import IntMath.
From S2P Require Import NetDest.
From S2P Require Import Flit.
From S2P Require Import VirtualChannels.
From S2P Require Import Clocking.
From S2P Require Import Links.
From S2P Require Import MessageBuffer.
From S2P Require Import Statistics.
From S2P Require Import NetworkInterface.

Import NetworkInterface.

(** ** Operations that leave ports and channels alone *)

Definition same_units (n n' : t) : Prop :=
  outPorts n' = outPorts n ∧ inPorts n' = inPorts n ∧
  outVcState n' = outVcState n ∧ niOutVcs n' = niOutVcs n.

#[export] Instance same_units_preorder : PreOrder same_units.
Proof.
  split; [by intros n|]. unfold same_units. intros n1 n2 n3 (?&?&?&?) (?&?&?&?).
  split_and!; congruence.
Qed.

Section units.
  Context `{MachineTypes}.

Lemma calculate_from_units cur vnet k n r n' :
  calculate_from cur vnet k n = Ok (r, n') → same_units n n'.
Proof.
  revert n. induction k as [|k IH]; intros n H1; cbn [calculate_from] in H1.
  - by injection H1 as <- <-.
  - step_bind H1 as d Hd. step_bind H1 as al Hal. step_bind H1 as o Ho.
    destruct (OutVcState.isInState o IDLE_ cur).
    + step_bind H1 as bu Hbu. by injection H1 as <- <-.
    + etransitivity; [|apply (IH _ H1)]. done.
Qed.

Lemma calculateVC_units cur n vnet vc n' :
  calculateVC cur n vnet = Ok (vc, n') → same_units n n'.
Proof.
  unfold calculateVC. intros H1. step_bind H1 as [r n1] Hc.
  etransitivity; [by eapply calculate_from_units|].
  destruct r; [by injection H1 as <- <-|].
  step_bind H1 as b Hb. step_bind H1 as bu Hbu. step_bind H1 as u Hu.
  by injection H1 as <- <-.
Qed.

Lemma scheduleEvent_units cur n c n' : scheduleEvent cur n c = Ok n' → same_units n n'.
Proof. unfold scheduleEvent. intros H1. step_bind H1 as x Hx. by injection H1 as <-. Qed.

Lemma set_out_buffer_units n vnet b n' : set_out_buffer n vnet b = Ok n' → same_units n n'.
Proof. unfold set_out_buffer. intros H1. step_bind H1 as x Hx. by injection H1 as <-. Qed.

Lemma deliver_units e n vnet m n' : deliver e n vnet m = Ok n' → same_units n n'.
Proof.
  unfold deliver. intros H1. step_bind H1 as b Hb. step_bind H1 as [b1 time] He.
  step_bind H1 as n1 Hn. injection H1 as <-. by apply set_out_buffer_units in Hn.
Qed.

Lemma slot_available_units e n vnet ok n' :
  slot_available e n vnet = Ok (ok, n') → same_units n n'.
Proof.
  unfold slot_available. intros H1. step_bind H1 as b Hb.
  destruct (MessageBuffer.areNSlotsAvailable b 1 _) as [ok1 b1].
  step_bind H1 as n1 Hn. injection H1 as <- <-. by apply set_out_buffer_units in Hn.
Qed.

Lemma magicSend_units e n ni vnet m n' : magicSend e n ni vnet m = Ok n' → same_units n n'.
Proof.
  unfold magicSend, magicReceive. destruct (_ =? _); [apply deliver_units|].
  by intros [= <-].
Qed.

Lemma flitisize_all_units e o m vnet k many ds n s st ok n' s' st' :
  flitisize_all e o m vnet k many ds (n, s, st) = Ok (ok, (n', s', st')) → same_units n n'.
Proof.
  revert n s st. induction ds as [|d ds IH]; intros n s st H1; cbn [flitisize_all] in H1.
  - by injection H1 as <- <- <- <-.
  - step_bind H1 as [vc n1] Hc. apply calculateVC_units in Hc.
    destruct (vc =? -1); [by injection H1 as <- <- <- <-|].
    step_bind H1 as [[n2 s2] st2] H2. etransitivity; [exact Hc|].
    etransitivity; [|apply (IH _ _ _ H1)]. unfold flitisize_one in H2.
    step_bind H2 as msg Hmsg. step_bind H2 as [dest st3] Hdest. step_bind H2 as dr Hdr.
    step_bind H2 as s3 Hs3. step_bind H2 as s4 Hs4.
    destruct (NetStats.getNextPacketID s4) as [pid s5].
    step_bind H2 as s6 Hs6. step_bind H2 as n3 Hn3.
    injection H2 as <- <- <-. by apply magicSend_units in Hn3.
Qed.

Lemma flitisizeMessage_units e m vnet n s st ok n' s' st' :
  flitisizeMessage e m vnet (n, s, st) = Ok (ok, (n', s', st')) → same_units n n'.
Proof.
  unfold flitisizeMessage. intros H1. step_bind H1 as msg Hmsg. step_bind H1 as ds Hds.
  destruct (getOutportForVnet n vnet); [|done]. step_bind H1 as o Ho.
  by apply flitisize_all_units in H1.
Qed.

Lemma in_ready_units e n b r n' : in_ready e n b = Ok (r, n') → same_units n n'.
Proof.
  unfold in_ready. intros H1. step_bind H1 as [rd ag] Hr. step_bind H1 as n1 Hn.
  injection H1 as <- <-. destruct ag; [by eapply scheduleEvent_units|by injection Hn as <-].
Qed.

Lemma take_messages_units e vnet k n s st n' s' st' :
  take_messages e vnet k (n, s, st) = Ok (n', s', st') → same_units n n'.
Proof.
  revert vnet n s st. induction k as [|k IH]; intros vnet n s st H1; cbn [take_messages] in H1.
  - by injection H1 as <- <- <-.
  - step_bind H1 as ob Hob. destruct ob as [b|]; [|by eapply IH].
    step_bind H1 as [rd n1] Hr. apply in_ready_units in Hr. etransitivity; [exact Hr|].
    destruct rd; [|by eapply IH]. step_bind H1 as m Hm.
    step_bind H1 as [ok [[n2 s2] st2]] Hf. apply flitisizeMessage_units in Hf.
    etransitivity; [exact Hf|]. destruct ok; [|by injection H1 as <- <- <-].
    step_bind H1 as [[dl b1] cb] Hd. step_bind H1 as ins Hins.
    etransitivity; [|apply (IH _ _ _ _ H1)]. by destruct cb.
Qed.

Lemma transfer_units e n s n' s' :
  transferTraceRecordsToInjectionQueue e n s = Ok (n', s') → same_units n n'.
Proof.
  unfold transferTraceRecordsToInjectionQueue.
  destruct (m_trace_record_queue n) as [|first q]; [by intros [= <- <-]|].
  destruct (same_time _ _) as [recs rest]. intros H1. step_bind H1 as nx Hnx.
  destruct (getOutportForVnet n (tr_vnet nx)); [|done].
  step_bind H1 as o Ho. step_bind H1 as rs Hrs. step_bind H1 as [[rs' s1] q1] Hq.
  by injection H1 as <- <-.
Qed.

Lemma any_message_units e bs n r n' : any_message e bs n = Ok (r, n') → same_units n n'.
Proof.
  revert n. induction bs as [|[b|] bs IH]; intros n H1; cbn [any_message] in H1.
  - by injection H1 as <- <-.
  - step_bind H1 as [rd n1] Hr. apply in_ready_units in Hr. etransitivity; [exact Hr|].
    destruct rd; [by injection H1 as <- <-|by eapply IH].
  - by eapply IH.
Qed.

Lemma checkReschedule_units e n ib cb n' :
  checkReschedule e n ib cb = Ok n' → same_units n n'.
Proof.
  unfold checkReschedule. intros H1. step_bind H1 as [w n1] Hw.
  apply any_message_units in Hw. etransitivity; [exact Hw|].
  case_in H1; [by eapply scheduleEvent_units|by injection H1 as <-].
Qed.

End units.

(** ** Slots *)

(** The credits held for channel [v] of the router and the flits sent to it that
    its link has not taken yet. *)
Definition ni_credits (n : t) (v : Z) : Z := at_ OutVcState.m_credit_count (outVcState n) v.

Definition ni_sent (n : t) (v : Z) : Z :=
  sum_over (λ o, nvc v (outFlitQueue o)) (outPorts n).

Definition up_slots (n : t) (v : Z) : Z := ni_credits n v + ni_sent n v.

(** The flits of channel [v] a port holds back and the credits it owes. *)
Definition stalled (v : Z) (q : list flit) : Z := zlen (filter (λ f, flit_m_vc f = v) q).

Definition port_slots (v : Z) (p : InputPort) : Z :=
  nvc v (outCreditQueue p) + stalled v (m_stall_queue p).

Definition down_slots (n : t) (i v : Z) : Z := at_ (port_slots v) (inPorts n) i.

(** The flits in the queue of a channel carry its number. *)
Definition tagged (n : t) : Prop :=
  ∀ vc q, zlookup (niOutVcs n) vc = Some q →
    Forall (λ f, flit_m_vc f = vc) (FlitBuffer.m_buffer q).

(** An operation of the sending side: it keeps the tags, the slots towards the
    router, and the input ports. *)
Definition sends_ok (n n' : t) : Prop :=
  tagged n → tagged n' ∧ (∀ v, up_slots n' v = up_slots n v) ∧ inPorts n' = inPorts n.

#[export] Instance sends_ok_preorder : PreOrder sends_ok.
Proof.
  split; [by intros n|]. intros n1 n2 n3 H12 H23 Ht.
  destruct (H12 Ht) as (Ht2 & Hs2 & Hi2). destruct (H23 Ht2) as (Ht3 & Hs3 & Hi3).
  split; [done|]. split; [|congruence]. intros v. by rewrite Hs3, Hs2.
Qed.

Lemma same_units_sends n n' : same_units n n' → sends_ok n n'.
Proof.
  intros (Ho & Hi & Hv & Hq) Ht. unfold tagged, up_slots, ni_credits, ni_sent.
  rewrite Ho, Hv, Hq. done.
Qed.

Lemma stalled_app v q q' : stalled v (q ++ q') = stalled v q + stalled v q'.
Proof. unfold stalled. by rewrite filter_app, zlen_app. Qed.

Lemma stalled_one v f : stalled v [f] = one_if (bool_decide (flit_m_vc f = v)).
Proof.
  unfold stalled. rewrite filter_cons, filter_nil. case_bool_decide.
  - by rewrite decide_True.
  - by rewrite decide_False.
Qed.

(** *** Sending *)

Lemma tagged_vset n vc q n' :
  tagged n → Forall (λ f, flit_m_vc f = vc) (FlitBuffer.m_buffer q) →
  vset (niOutVcs n) vc q = Ok (niOutVcs n') → tagged n'.
Proof.
  intros Ht Hq [Hvc Hn]%vset_Ok v q'. rewrite Hn, zlookup_insert by done.
  case_decide; [|apply Ht]. subst. by intros [= <-].
Qed.

Lemma injectTraceFlit_sends cur n s vnet vc n' s' :
  injectTraceFlit cur n s vnet vc = Ok (n', s') → sends_ok n n'.
Proof.
  unfold injectTraceFlit. intros H1 Ht. step_bind H1 as f Hf. step_bind H1 as vcs Hvcs.
  step_bind H1 as times Htm. step_bind H1 as os Hos. step_bind H1 as s1 Hs1.
  step_bind H1 as s2 Hs2. injection H1 as <- <-.
  unfold vupd in Hvcs. step_bind Hvcs as q Hq%vget_Ok. step_bind Hvcs as q' Hq'.
  injection Hq' as <-. split; [|split; [|done]].
  - eapply (tagged_vset n vc _ _ Ht); [|exact Hvcs]. 
    cbn [FlitBuffer.m_buffer FlitBuffer.insert].
    apply Forall_app. split; [by apply (Ht vc)|]. by repeat constructor.
  - intros v. unfold up_slots, ni_credits, ni_sent.
    cbn [outVcState outPorts with_outVcState with_vcs with_trace] in *.
    rewrite (at_vupd OutVcState.m_credit_count _ _ _ _ 0 v Hos);
      [destruct (decide _); lia|]. intros a a' [= <-]. cbn. lia.
Qed.

Lemma scheduleFlit_sent cur n f n' :
  scheduleFlit cur n f = Ok n' →
  inPorts n' = inPorts n ∧ outVcState n' = outVcState n ∧ niOutVcs n' = niOutVcs n ∧
  ∀ v, ni_sent n' v = ni_sent n v + one_if (bool_decide (flit_m_vc f = v)).
Proof.
  unfold scheduleFlit. destruct (getOutportForVnet n (flit_m_vnet f)); [|done].
  intros H1. step_bind H1 as outs Ho. injection H1 as <-. split_and!; [done..|].
  intros v. unfold ni_sent. apply (sum_over_vupd _ _ _ _ _ _ Ho).
  intros a a' [= <-]. cbn. apply nvc_insert.
Qed.

Lemma send_from_sends cur n port vc n' : send_from cur n port vc = Ok n' → sends_ok n n'.
Proof.
  unfold send_from. intros H1 Ht. step_bind H1 as outs Houts. step_bind H1 as os Hos.
  step_bind H1 as q Hq%vget_Ok. step_bind H1 as [f q'] Hf. step_bind H1 as vcs Hvcs.
  step_bind H1 as n1 Hn1. apply FlitBuffer.getTopFlit_Ok in Hf as [Hf _].
  pose proof (Ht vc q Hq) as Hall. rewrite Hf in Hall. apply Forall_cons in Hall as [Hfv Hall].
  set (n0 := with_vcs _ vcs _) in Hn1.
  assert (tagged n0) as Ht0 by exact (tagged_vset n vc q' n0 Ht Hall Hvcs).
  apply scheduleFlit_sent in Hn1 as (Hi & Ho & Hv & Hs).
  assert (∀ m, outPorts m = outPorts n1 → inPorts m = inPorts n1 →
            outVcState m = outVcState n1 → niOutVcs m = niOutVcs n1 →
            tagged m ∧ (∀ v, up_slots m v = up_slots n v) ∧ inPorts m = inPorts n) as Hm.
  { intros m Hmo Hmi Hms Hmv. split; [|split].
    - unfold tagged. rewrite Hmv, Hv. exact Ht0.
    - intros v. unfold up_slots, ni_credits. rewrite Hms, Ho.
      assert (ni_sent m v = ni_sent n1 v) as -> by (unfold ni_sent; by rewrite Hmo).
      rewrite Hs. cbn [outVcState n0 with_vcs with_outVcState].
      assert (ni_sent n0 v = ni_sent n v) as ->.
      { unfold ni_sent. cbn [outPorts n0 with_vcs with_outVcState with_ports].
        rewrite (sum_over_vupd _ _ _ _ _ 0 Houts); [lia|].
        intros a a' [= <-]. cbn. lia. }
      rewrite (at_vupd OutVcState.m_credit_count _ _ _ _ (-1) v Hos).
      2:{ intros a a' (Hc & _)%OutVcState.decrement_credit_Ok. lia. }
      cbn. rewrite Hfv. unfold one_if.
      destruct (decide (v = vc)) as [->|Hne]; [rewrite bool_decide_eq_true_2 by done; lia|].
      rewrite bool_decide_eq_false_2 by congruence. lia.
    - by rewrite Hmi, Hi. }
  destruct (is_tail (flit_m_type f)).
  - step_bind H1 as times Htm. injection H1 as <-. by apply Hm.
  - injection H1 as <-. by apply Hm.
Qed.

Lemma schedule_from_sends c cur port vc k n n' :
  schedule_from c cur port vc k n = Ok n' → sends_ok n n'.
Proof.
  revert vc. induction k as [|k IH]; intros vc H1; cbn [schedule_from] in H1.
  - by injection H1 as <-.
  - step_bind H1 as tv Htv. step_bind H1 as o Ho.
    destruct (isVnetSupported (op_vnets o) tv); [|by eapply IH].
    step_bind H1 as can Hcan. destruct can; [by eapply send_from_sends|by eapply IH].
Qed.

Lemma scheduleOutputLink_sends c cur n n' :
  scheduleOutputLink c cur n = Ok n' → sends_ok n n'.
Proof.
  unfold scheduleOutputLink.
  intros H1. eapply (for_range_inv (λ _ m, sends_ok n m)) in H1; [done| |done].
  intros i m m' _ Hm H2. etransitivity; [exact Hm|]. unfold scheduleOutputPort in H2.
  step_bind H2 as o Ho. by eapply schedule_from_sends.
Qed.

Lemma inject_trace_sends `{MachineTypes} e n s n' s' :
  inject_trace e n s = Ok (n', s') → sends_ok n n'.
Proof.
  unfold inject_trace. intros H1. step_bind H1 as [n1 s1] Ht.
  etransitivity.
  { apply same_units_sends. instantiate (1 := n1).
    destruct (m_trace_injection_queue n), (m_trace_record_queue n);
      solve [by injection Ht as <- <- | by eapply transfer_units]. }
  destruct (m_trace_injection_queue n1) as [|f q]; [by injection H1 as <- <-|].
  step_bind H1 as [vc n2] Hvc. apply calculateVC_units, same_units_sends in Hvc.
  etransitivity; [exact Hvc|].
  destruct (negb (vc =? -1)); [by eapply injectTraceFlit_sends|by injection H1 as <- <-].
Qed.

(** *** Receiving *)

(** An operation of the receiving side: it keeps the sending side. *)
Definition same_sending (n n' : t) : Prop :=
  outPorts n' = outPorts n ∧ outVcState n' = outVcState n ∧ niOutVcs n' = niOutVcs n ∧
  zlen (inPorts n') = zlen (inPorts n).

#[export] Instance same_sending_preorder : PreOrder same_sending.
Proof.
  split; [by intros n|]. unfold same_sending. intros n1 n2 n3 (?&?&?&?) (?&?&?&?).
  split_and!; congruence.
Qed.

Lemma same_units_sending n n' : same_units n n' → same_sending n n'.
Proof. intros (Ho & Hi & Hv & Hq). unfold same_sending. by rewrite Ho, Hi, Hv, Hq. Qed.

Lemma same_units_down n n' i v : same_units n n' → down_slots n' i v = down_slots n i v.
Proof. intros (_ & Hi & _). unfold down_slots. by rewrite Hi. Qed.

(** An update of input port [i] that changes its slots by [d]. *)
Lemma upd_inport_down n i f n' (d : Z → Z) :
  upd_inport n i f = Ok n' → (∀ v p, port_slots v (f p) = port_slots v p + d v) →
  same_sending n n' ∧
  ∀ j v, down_slots n' j v = down_slots n j v + if decide (j = i) then d v else 0.
Proof.
  unfold upd_inport. intros H1 Hf. step_bind H1 as ins Hi. injection H1 as <-.
  pose proof (vupd_same_length _ _ _ _ Hi) as Hl. split; [done|].
  intros j v. apply (at_vupd _ _ _ _ _ _ _ Hi). intros a a' [= <-]. apply Hf.
Qed.

Lemma sendCredit_slots route vc free cur v p :
  port_slots v (sendCredit p (new_Credit route vc free cur)) =
  port_slots v p + one_if (bool_decide (vc = v)).
Proof. unfold port_slots. cbn [outCreditQueue m_stall_queue sendCredit]. rewrite nvc_insert. cbn. lia. Qed.

Lemma with_enqueued_slots b v p : port_slots v (with_enqueued p b) = port_slots v p + 0.
Proof. unfold port_slots. cbn [outCreditQueue m_stall_queue with_enqueued]. lia. Qed.

Lemma add_stall_units n vnet k n' : add_stall n vnet k = Ok n' → same_units n n'.
Proof. unfold add_stall. intros H1. step_bind H1 as x Hx. by injection H1 as <-. Qed.

(** What the receiving side owes for each channel of each port is what it owed
    plus [d]. *)
Definition owes (n n' : t) (i : Z) (d : Z → Z) : Prop :=
  same_sending n n' ∧
  ∀ j v, down_slots n' j v = down_slots n j v + if decide (j = i) then d v else 0.

Lemma owes_units n n' i : same_units n n' → owes n n' i (λ _, 0).
Proof.
  intros Hu. split; [by apply same_units_sending|]. intros j v.
  rewrite (same_units_down _ _ _ _ Hu). case_decide; lia.
Qed.

Lemma owes_trans n1 n2 n3 i d d' :
  owes n1 n2 i d → owes n2 n3 i d' → owes n1 n3 i (λ v, d v + d' v).
Proof.
  intros [Hs Hd] [Hs' Hd']. split; [by etransitivity|]. intros j v.
  rewrite Hd', Hd. case_decide; lia.
Qed.

Lemma owes_ext n n' i d d' : owes n n' i d → (∀ v, d v = d' v) → owes n n' i d'.
Proof. intros [Hs Hd] He. split; [done|]. intros j v. by rewrite Hd, He. Qed.

(** The stall queue of input port [i]. *)
Definition stall_of (n : t) (i : Z) : option (list flit) :=
  m_stall_queue <$> zlookup (inPorts n) i.

Lemma stall_of_units n n' i : same_units n n' → stall_of n' i = stall_of n i.
Proof. intros (_ & Hi & _). unfold stall_of. by rewrite Hi. Qed.

Lemma upd_inport_stall n i f n' q :
  upd_inport n i f = Ok n' → (∀ p, m_stall_queue (f p) = m_stall_queue p) →
  stall_of n i = Some q → stall_of n' i = Some q.
Proof.
  unfold upd_inport, stall_of. intros H1 Hf Hq. step_bind H1 as ins Hi. injection H1 as <-.
  unfold vupd in Hi. step_bind Hi as p Hp%vget_Ok. step_bind Hi as p' Hp'.
  injection Hp' as <-. apply vset_Ok in Hi as [Hi ->].
  cbn [inPorts with_ports]. rewrite zlookup_insert_eq by done. cbn [fmap option_fmap option_map].
  rewrite Hp in Hq. cbn in Hq. injection Hq as <-. by rewrite Hf.
Qed.

Lemma set_stall_owes n i rest n' q :
  upd_inport n i (λ p, with_stall_queue p rest) = Ok n' → stall_of n i = Some q →
  owes n n' i (λ v, stalled v rest - stalled v q).
Proof.
  unfold upd_inport, stall_of. intros H1 Hq. step_bind H1 as ins Hi. injection H1 as <-.
  pose proof (vupd_same_length _ _ _ _ Hi) as Hl.
  unfold vupd in Hi. step_bind Hi as p Hp%vget_Ok. step_bind Hi as p' Hp'.
  injection Hp' as <-. rewrite Hp in Hq. cbn in Hq. injection Hq as <-.
  split; [done|]. intros j v. unfold down_slots. cbn [inPorts with_ports].
  rewrite (at_vset _ _ _ _ _ j Hi). case_decide; [|lia]. subst j.
  rewrite (at_lookup _ _ _ _ Hp). unfold port_slots.
  cbn [outCreditQueue m_stall_queue with_stall_queue]. lia.
Qed.

(** The callback is removed or not. *)
Lemma unregister_units (n n' : t) vnet (count : Z) :
  (if count =? 0 then
     b ← out_buffer n vnet;
     set_out_buffer n vnet (MessageBuffer.unregisterDequeueCallback b)
   else Ok n) = Ok n' → same_units n n'.
Proof.
  destruct (count =? 0); [|by intros [= <-]]. intros H1. step_bind H1 as b Hb.
  by eapply set_out_buffer_units.
Qed.

Lemma unstall_owes e store i rest f n s n' s' q :
  stall_of n i = Some q →
  (∀ v, stalled v q = stalled v rest + one_if (bool_decide (flit_m_vc f = v))) →
  unstall e store i rest f (n, s) = Ok (n', s') → owes n n' i (λ _, 0).
Proof.
  intros Hq Hst H1. unfold unstall in H1. step_bind H1 as n1 H2. step_bind H1 as n2 H3.
  step_bind H1 as s1 Hs1. step_bind H1 as n3 H4. step_bind H1 as n4 H5.
  step_bind H1 as count Hc. step_bind H1 as n5 H6. step_bind H1 as n6 H7.
  injection H1 as <- <-. apply deliver_units in H2. apply add_stall_units in H5.
  apply unregister_units in H6.
  assert (stall_of n2 i = Some q) as Hq2.
  { eapply upd_inport_stall; [exact H3|done|]. by rewrite (stall_of_units _ _ _ H2). }
  pose proof (upd_inport_down _ _ _ _ _ H3 (λ v p, sendCredit_slots _ _ _ _ v p)) as O3.
  pose proof (set_stall_owes _ _ _ _ _ H4 Hq2) as O4.
  pose proof (upd_inport_down _ _ _ _ (λ _, 0) H7 (λ v p, with_enqueued_slots _ v p)) as O7.
  pose proof (owes_units _ _ i H2) as O2. pose proof (owes_units _ _ i H5) as O5.
  pose proof (owes_units _ _ i H6) as O6.
  eapply owes_ext; [exact (owes_trans _ _ _ _ _ _ O2 (owes_trans _ _ _ _ _ _ O3
    (owes_trans _ _ _ _ _ _ O4 (owes_trans _ _ _ _ _ _ O5
      (owes_trans _ _ _ _ _ _ O6 O7)))))|].
  intros v. cbn -[one_if]. rewrite (Hst v). lia.
Qed.

Lemma unstall_first_owes e store i before fs n s n' s' :
  stall_of n i = Some (before ++ fs) →
  unstall_first e store i before fs (n, s) = Ok (n', s') → owes n n' i (λ _, 0).
Proof.
  revert before n s. induction fs as [|f fs IH]; intros before n s Hq H1;
    cbn [unstall_first] in H1.
  - injection H1 as <- <-. by apply owes_units.
  - step_bind H1 as [ok n1] Hok. apply slot_available_units in Hok.
    pose proof (owes_units _ _ i Hok) as O1.
    assert (owes n1 n' i (λ _, 0)) as O2.
    { destruct ok.
      - eapply unstall_owes; [by rewrite (stall_of_units _ _ _ Hok)| |exact H1].
        intros v. rewrite !stalled_app, <- stalled_one.
        change (f :: fs) with ([f] ++ fs). rewrite stalled_app. lia.
      - eapply IH; [|exact H1]. rewrite (stall_of_units _ _ _ Hok), Hq.
        by rewrite <- app_assoc. }
    eapply owes_ext; [exact (owes_trans _ _ _ _ _ _ O1 O2)|done].
Qed.

(** The stalled flits that leave are replaced by credits. *)
Lemma checkStallQueue_owes e store n s n' s' :
  checkStallQueue e store (n, s) = Ok (n', s') →
  same_sending n n' ∧ ∀ j v, down_slots n' j v = down_slots n j v.
Proof.
  unfold checkStallQueue. intros H1.
  apply (for_range_inv (λ _ st, same_sending n st.1 ∧
           ∀ j v, down_slots st.1 j v = down_slots n j v)) in H1; [done| |done].
  intros i [m ms] [m' ms'] _ [Hs Hd] H2. unfold check_port in H2. cbn in Hs, Hd.
  step_bind H2 as m1 Hm1. step_bind H2 as p Hp%vget_Ok.
  pose proof (upd_inport_down _ _ _ _ (λ _, 0) Hm1 (λ v p, with_enqueued_slots _ v p)) as O1.
  assert (owes m1 m' i (λ _, 0)) as O2.
  { eapply unstall_first_owes; [|exact H2]. unfold stall_of. by rewrite Hp. }
  destruct (owes_trans _ _ _ _ _ _ O1 O2) as [Hs2 Hd2].
  split; [by etransitivity|]. intros j v. cbn. rewrite Hd2, Hd. case_decide; lia.
Qed.

Lemma receive_tail_owes e store i f n s n' s' :
  receive_tail e store i f (n, s) = Ok (n', s') →
  owes n n' i (λ v, one_if (bool_decide (flit_m_vc f = v))).
Proof.
  unfold receive_tail. intros H1. step_bind H1 as p Hp. step_bind H1 as [ok n1] Hok.
  assert (same_units n n1) as U1.
  { destruct (messageEnqueuedThisCycle p); [by injection Hok as <- <-|].
    by eapply slot_available_units. }
  apply (owes_units _ _ i) in U1. destruct ok.
  - step_bind H1 as [n2 s2] H2. step_bind H1 as n3 H3. step_bind H1 as s3 Hs3.
    injection H1 as <- <-.
    assert (same_units n1 n2) as U2%(owes_units _ _ i).
    { destruct (negb (ni_trace e)).
      - step_bind H2 as n4 Hn4. injection H2 as <- <-. by eapply deliver_units.
      - step_bind H2 as s4 Hs4. by injection H2 as <- <-. }
    pose proof (upd_inport_down _ _ _ _ _ H3 (λ v p, sendCredit_slots _ _ _ _ v p)) as O3.
    eapply owes_ext; [exact (owes_trans _ _ _ _ _ _ U1 (owes_trans _ _ _ _ _ _ U2 O3))|].
    intros v. cbn -[one_if]. lia.
  - step_bind H1 as n2 H2. step_bind H1 as n3 H3. step_bind H1 as b Hb.
    step_bind H1 as n4 H4. injection H1 as <- <-.
    apply add_stall_units, (owes_units _ _ i) in H3.
    apply set_out_buffer_units, (owes_units _ _ i) in H4.
    assert (owes n1 n2 i (λ v, stalled v [f])) as O2.
    { eapply upd_inport_down; [exact H2|]. intros v p'. unfold port_slots.
      cbn [outCreditQueue m_stall_queue with_stall_queue]. rewrite stalled_app. lia. }
    eapply owes_ext; [exact (owes_trans _ _ _ _ _ _ U1 (owes_trans _ _ _ _ _ _ O2
      (owes_trans _ _ _ _ _ _ H3 H4)))|].
    intros v. cbn -[one_if stalled]. rewrite stalled_one. lia.
Qed.

(** A flit taken from a link is owed a credit, or held back. *)
Lemma receive_port_owes e store i n s bufs n' s' bufs' :
  receive_port e store i (n, s, bufs) = Ok (n', s', bufs') →
  same_sending n n' ∧
  ∀ j v, down_slots n' j v + at_ (nvc v) bufs' j = down_slots n j v + at_ (nvc v) bufs j.
Proof.
  unfold receive_port. intros H1. step_bind H1 as buf Hbuf%vget_Ok.
  destruct (FlitBuffer.isReady buf (ni_cur e)); [|by injection H1 as <- <- <-].
  step_bind H1 as [f buf'] Hf. step_bind H1 as bufs1 Hb1. step_bind H1 as p Hp.
  step_bind H1 as u Hu. step_bind H1 as [n1 s1] H2. injection H1 as <- <- <-.
  assert (owes n n1 i (λ v, one_if (bool_decide (flit_m_vc f = v)))) as [Hs Hd].
  { destruct (is_tail (flit_m_type (set_dequeue_time f (ni_cur e)))).
    - by apply receive_tail_owes in H2.
    - step_bind H2 as n2 H3. step_bind H2 as s3 Hs3. injection H2 as <- <-.
      exact (upd_inport_down _ _ _ _ _ H3 (λ v p, sendCredit_slots _ _ _ _ v p)). }
  split; [done|]. intros j v. rewrite Hd, (at_vset _ _ _ _ _ j Hb1).
  case_decide; [|lia]. subst j.
  rewrite (at_lookup _ _ _ _ Hbuf), (nvc_getTopFlit v _ _ _ Hf). lia.
Qed.

(** *** Credits *)

Lemma credit_port_slots cur i n bufs n' bufs' :
  credit_port cur i (n, bufs) = Ok (n', bufs') →
  outPorts n' = outPorts n ∧ inPorts n' = inPorts n ∧ niOutVcs n' = niOutVcs n ∧
  ∀ v, up_slots n' v + sum_over (nvc v) bufs' = up_slots n v + sum_over (nvc v) bufs.
Proof.
  unfold credit_port. intros H1. step_bind H1 as buf Hbuf%vget_Ok.
  destruct (FlitBuffer.isReady buf cur); [|by injection H1 as <- <-].
  step_bind H1 as [c buf'] Hc. step_bind H1 as bufs1 Hb1. step_bind H1 as os Hos.
  step_bind H1 as free Hfree. step_bind H1 as os1 Hos1. injection H1 as <- <-.
  split_and!; [done..|]. intros v. unfold up_slots, ni_credits.
  change (ni_sent (with_outVcState n os1) v) with (ni_sent n v).
  cbn [outVcState with_outVcState].
  assert (at_ OutVcState.m_credit_count os1 v = at_ OutVcState.m_credit_count os v) as ->.
  { destruct free; [|by injection Hos1 as <-].
    rewrite (at_vupd _ _ _ _ _ 0 v Hos1); [case_decide; lia|].
    intros a a' [= <-]. cbn. lia. }
  rewrite (at_vupd _ _ _ _ _ 1 v Hos).
  2:{ intros a a' (Ha & _)%OutVcState.increment_credit_Ok. done. }
  rewrite (sum_over_vset _ _ _ _ _ _ Hbuf Hb1), (nvc_getTopFlit v _ _ _ Hc).
  unfold one_if. case_decide; case_bool_decide; try congruence; lia.
Qed.

(** ** The wake-up *)

Section wakeup.
  Context `{MachineTypes}.

Lemma credit_out_units cur i n n' : credit_out cur i n = Ok n' → same_units n n'.
Proof.
  unfold credit_out. intros H1. step_bind H1 as p Hp. case_in H1; by injection H1 as <-.
Qed.

(** The sending half: injection and the choice of the flits to send. *)
Lemma send_half e n s store n' s' store' n'' :
  (if negb (ni_trace e) then take_messages e 0 (length (inNode_ptr n)) (n, s, store)
   else '(n, s) ← inject_trace e n s; Ok (n, s, store)) = Ok (n', s', store') →
  scheduleOutputLink (ni_config e) (ni_cur e) n' = Ok n'' → sends_ok n n''.
Proof.
  intros H1 H2. etransitivity; [|by eapply scheduleOutputLink_sends].
  destruct (negb (ni_trace e)).
  - by apply take_messages_units, same_units_sends in H1.
  - step_bind H1 as [n1 s1] Hi. injection H1 as <- <- <-. by eapply inject_trace_sends.
Qed.

(** Flow control of an interface.  A wake-up keeps, for each channel of the
    router, the sum of the credits the interface holds, the flits it has sent and
    the credits waiting on its credit links; and, for each input port and channel,
    the sum of the flits waiting on the link, those it holds back and the credits
    it owes.  No flit is sent without a credit, no credit is lost, and no received
    flit is forgotten. *)
Theorem interface_flow_control e n s store in_bufs credit_bufs n' s' store' in_bufs'
    credit_bufs' :
  tagged n →
  wakeup e n s store in_bufs credit_bufs = Ok (n', s', store', in_bufs', credit_bufs') →
  tagged n' ∧
  (∀ v, up_slots n' v + sum_over (nvc v) credit_bufs' =
        up_slots n v + sum_over (nvc v) credit_bufs) ∧
  (∀ i v, down_slots n' i v + at_ (nvc v) in_bufs' i =
          down_slots n i v + at_ (nvc v) in_bufs i).
Proof.
  intros Ht H1. unfold wakeup in H1. step_bind H1 as u Hu.
  step_bind H1 as [[n1 s1] st1] Hinj. step_bind H1 as n2 Hsend.
  destruct (send_half _ _ _ _ _ _ _ _ Hinj Hsend Ht) as (Ht2 & Hup2 & Hin2).
  step_bind H1 as [n3 s3] Hst. apply checkStallQueue_owes in Hst as [Hs3 Hd3].
  step_bind H1 as [[n4 s4] ib] Hrecv. step_bind H1 as [n5 cb] Hcred.
  step_bind H1 as n6 Hco. step_bind H1 as n7 Hre. injection H1 as <- <- <- <- <-.
  apply (for_range_inv (λ _ '(m, _, bs), same_sending n3 m ∧ ∀ j v,
           down_slots m j v + at_ (nvc v) bs j = down_slots n3 j v + at_ (nvc v) in_bufs j))
    in Hrecv as [Hs4 Hd4].
  2:{ intros i [[m ms] bs] [[m' ms'] bs'] _ [Hs Hd] (Hs' & Hd')%receive_port_owes.
      split; [by etransitivity|]. intros j v. by rewrite Hd', Hd. }
  2:{ done. }
  apply (for_range_inv (λ _ '(m, bs), inPorts m = inPorts n4 ∧ niOutVcs m = niOutVcs n4 ∧
           ∀ v, up_slots m v + sum_over (nvc v) bs =
                up_slots n4 v + sum_over (nvc v) credit_bufs)) in Hcred as (Hi5 & Hv5 & Hu5).
  2:{ intros i [m bs] [m' bs'] _ (Hi & Hv & Hu') (_ & Hi' & Hv' & Hu'')%credit_port_slots.
      split; [congruence|]. split; [congruence|]. intros v. by rewrite Hu'', Hu'. }
  2:{ done. }
  assert (same_units n5 n7) as (Ho7 & Hi7 & Hc7 & Hv7).
  { etransitivity; [|by eapply checkReschedule_units].
    apply (for_range_inv (λ _ m, same_units n5 m)) in Hco; [done| |done].
    intros i m m' _ Hm Hm'%credit_out_units. by etransitivity. }
  assert (same_sending n2 n4) as (Ho4 & Hc4 & Hv4 & _) by (by etransitivity).
  split; [|split].
  - unfold tagged. by rewrite Hv7, Hv5, Hv4.
  - intros v. assert (up_slots n7 v = up_slots n5 v) as ->.
    { unfold up_slots, ni_credits, ni_sent. by rewrite Ho7, Hc7. }
    rewrite Hu5, <- Hup2. unfold up_slots, ni_credits, ni_sent. by rewrite Ho4, Hc4.
  - intros i v. assert (down_slots n7 i v = down_slots n4 i v) as ->.
    { unfold down_slots. by rewrite Hi7, Hi5. }
    rewrite Hd4, Hd3. unfold down_slots. by rewrite Hin2.
Qed.

End wakeup.
