(* ===== verification/InterfaceExample.v ===== *)
(** * An interface replaying a trace

    A concrete interface, built by the operations that set up the network, on
    which the theorems about interfaces are applied. *)

From S2P Require Import Prelude.
From S2P Require Import IntMath.
From S2P Require Import NetDest.
From S2P Require Import Flit.
From S2P Require Import VirtualChannels.
From S2P Require Import Clocking.
From S2P Require Import Links.
From S2P Require Import MessageBuffer.
From S2P Require Import Statistics.
From S2P Require Import NetworkInterface.
From S2P Require Import InterfaceFacts.
From S2P Require Import InterfaceFlow.

Import ExampleMachines NetworkInterface.
#[local] Existing Instance machines.

Definition config : NetConfig := mkNetConfig 1 2 0 4 4 [DATA_VNET_] [true].

Definition clock : Clocked.t := Clocked.make 1000.

Definition link : NetworkLink.t := NetworkLink.make 0 1 1 [] 16 clock.

(** The protocol buffer messages are ejected to, with its controller. *)
Definition protocol_buffer : result MessageBuffer.t :=
  MessageBuffer.setConsumer (MessageBuffer.make 0 0 true rand_disabled false).

(** One virtual network of four channels towards router 0. *)
Definition build : result t :=
  b ← protocol_buffer;
  let '(n, _, _) := addInPort (make 0 1 50000 clock) link link in
  '(n, _, _, _) ← addOutPort config n link link 0 4;
  addNode n [None] [Some b].

Definition interface : t :=
  match build with Ok n => n | Err _ => make 0 1 0 clock end.

(** Nodes 0 and 2 sit at router 0, nodes 1 and 3 at router 1. *)
Definition env (cur : Tick) : NiEnv :=
  mkNiEnv config cur true (mkRubyFlags false false) (λ _ _, 1)
    (λ ni _, Ok (ni mod 2)) (RouteInfo0 []) 0.

(** A packet of [flits] flits from node 0 to node [dest] at cycle [time]. *)
Definition record (time dest flits : Z) : NetworkTraceRecord :=
  mkTraceRecord true time 0 0 dest (dest mod 2) 0 flits 0 0 3.

Definition loaded : t :=
  with_trace interface [] [record 5 1 2; record 5 3 1; record 6 1 1].

Definition stats : NetStats.t := NetStats.make 1 2 (-1).

Lemma get_vnet_correct_witness :
  get_vnet interface 3 = Ok 0 ∧ get_vnet interface 4 = Err FatalError.
Proof.
  split; [rewrite (get_vnet_correct interface 3) by done; reflexivity
         |rewrite (get_vnet_correct interface 4) by done; reflexivity].
Defined.

Lemma interface_vnet_wf : vnet_wf 0 interface.
Proof. repeat split; try (vm_compute; congruence). exists 0. by vm_compute. Qed.

Lemma calculateVC_correct_witness :
  ∃ delta, zlookup (m_vc_allocator interface) 0 = Some delta ∧
           choice_ok 2000 0 interface delta (calculateVC 2000 interface 0).
Proof. exact (calculateVC_correct 2000 0 interface interface_vnet_wf). Defined.

Lemma node_dest_correct_witness :
  ∃ ty num d, node_dest 3 = Ok (true, d) ∧
    0 ≤ ty < MachineType_NUM ∧ 0 ≤ num < MachineType_base_count ty ∧
    MachineType_base_number ty + num = 3 ∧ only ty num d.
Proof.
  exact (@node_dest_correct machines machines_laws 3 ltac:(done) ltac:(done)).
Defined.

(** The two records of cycle 5 leave; their three flits are interleaved. *)
Lemma transfer_round_robin_witness :
  ∃ fs s',
    transferTraceRecordsToInjectionQueue (env 2000) loaded stats =
      Ok (with_trace loaded fs [record 6 1 1], s') ∧
    batch_turns [record 5 1 2; record 5 3 1] = [(0, 0); (0, 1); (1, 0)] ∧ zlen fs = 3.
Proof.
  destruct (outPorts loaded) as [|o ?] eqn:Eo; [vm_compute in Eo; discriminate|].
  destruct (trace_routes (env 2000) loaded o [record 5 1 2; record 5 3 1])
    as [routes|] eqn:Er; [|vm_compute in Er; destruct o; vm_compute in Er; discriminate].
  destruct (transfer_round_robin (env 2000) loaded stats (record 5 1 2)
    [record 5 3 1; record 6 1 1] [record 5 1 2; record 5 3 1] [record 6 1 1]
    (record 6 1 1) 0 o routes) as (fs & s' & Ht & Hm & _); try reflexivity.
  - unfold vget, zlookup. rewrite Eo. reflexivity.
  - exact Er.
  - exists fs, s'. split; [exact Ht|]. split; [reflexivity|].
    destruct Hm as [Hl _]. unfold zlen. rewrite Hl. reflexivity.
Defined.

Lemma transfer_last_batch_undefined_witness :
  transferTraceRecordsToInjectionQueue (env 2000)
    (with_trace interface [] [record 6 1 1]) stats = Err Undefined.
Proof.
  apply (transfer_last_batch_undefined (env 2000) (with_trace interface [] [record 6 1 1])
           stats (record 6 1 1) []); [reflexivity|constructor].
Defined.

(** A flit made at tick 1000, injected at 2000 and taken from its link at 9000. *)
Definition ejected : flit :=
  set_dequeue_time
    (set_enqueue_time
       (set_src_delay (new_flit 7 0 0 0 (RouteInfo0 []) 1 None 16 16 1000) 1000) 2000) 9000.

(** Ejected at tick 10000, it is recorded with a latency of 8000: nine cycles from
    its creation, less one. *)
Lemma phase_latency_exact_witness :
  ∃ s', incrementStats 10000 interface stats ejected = Ok s' ∧
        NetStats.m_packet_phase_latencies s' !! (0, 0, 0) = Some [8000].
Proof.
  destruct (phase_latency_exact 10000 interface stats ejected 1000 1)
    as (s' & Hs & Hl & _); [by intros []|done|done|done|].
  exists s'. split; [exact Hs|]. rewrite Hl. reflexivity.
Defined.

(** The interface wakes with a trace to inject, a flit on its incoming link and a
    credit on its credit link: it had sent one flit on channel 2. *)
Definition waiting : t :=
  with_outVcState loaded
    (match vupd (outVcState loaded) 2 OutVcState.decrement_credit with
     | Ok os => os
     | Err _ => []
     end).

Definition running : NetStats.t := NetStats.with_trace stats 0 3 0 (Some false) false.

Definition arrived : FlitBuffer.t :=
  FlitBuffer.mk [set_src_delay (new_flit 7 0 1 0 (RouteInfo0 []) 1 None 16 16 1000) 0] INFINITE_.

Definition credit : FlitBuffer.t :=
  FlitBuffer.mk [new_Credit (RouteInfo0 []) 2 true 1000] INFINITE_.

Definition woken : result (t * NetStats.t * gmap nat ProtocolMsg * list FlitBuffer.t *
                           list FlitBuffer.t) :=
  wakeup (env 2000) waiting running ∅ [arrived] [credit].

Lemma waiting_tagged : tagged waiting.
Proof.
  intros vc q Hq. assert (Forall (λ q, FlitBuffer.m_buffer q = []) (niOutVcs waiting)) as Hall.
  { vm_compute. repeat constructor. }
  rewrite (Forall_zlookup _ _ _ _ Hall Hq). constructor.
Qed.

Definition after : t * NetStats.t * gmap nat ProtocolMsg * list FlitBuffer.t *
    list FlitBuffer.t :=
  match woken with Ok r => r | Err _ => (waiting, running, ∅, [], []) end.

Definition ni_after : t := after.1.1.1.1.

Lemma woken_ok :
  wakeup (env 2000) waiting running ∅ [arrived] [credit] = Ok (ni_after, after.1.1.1.2, after.1.1.2, after.1.2, after.2).
Proof. vm_compute. reflexivity. Qed.

Lemma before_slots :
  up_slots waiting 0 + sum_over (nvc 0) [credit] = 4 ∧
  up_slots waiting 2 + sum_over (nvc 2) [credit] = 4.
Proof. vm_compute. done. Qed.

Lemma after_credits :
  ni_credits ni_after 0 = 3 ∧ ni_credits ni_after 2 = 4 ∧ down_slots ni_after 0 1 = 1.
Proof. vm_compute. done. Qed.

(** It sends the first flit of the trace, takes the credit back and owes one for
    the flit it received; the sums are those before the wake-up. *)
Lemma interface_flow_control_witness :
  up_slots ni_after 0 + sum_over (nvc 0) after.2 = 4 ∧ ni_credits ni_after 0 = 3 ∧
  up_slots ni_after 2 + sum_over (nvc 2) after.2 = 4 ∧ ni_credits ni_after 2 = 4 ∧
  down_slots ni_after 0 1 = 1.
Proof.
  destruct (interface_flow_control (env 2000) waiting running ∅ [arrived] [credit]
              ni_after after.1.1.1.2 after.1.1.2 after.1.2 after.2 waiting_tagged woken_ok)
    as (_ & Hu & _).
  split; [rewrite (Hu 0); exact (proj1 before_slots)|].
  split; [exact (proj1 after_credits)|].
  split; [rewrite (Hu 2); exact (proj2 before_slots)|].
  exact (proj2 after_credits).
Defined.
