(* ===== verification/Trace.v ===== *)
(** * The trace reader

    The lines of the trace [garnet/GarnetNetwork.cc] replays and the functions of
    the C library it reads them with: [fgets], [strtok] and [atoi] on the
    characters of the file. *)

From Stdlib Require Import Ascii.
From S2P Require Import Prelude.
From S2P Require Import IntMath.
From S2P Require Import NetDest.
From S2P Require Import Flit.
From S2P Require Import NetworkInterface.

Notation Chars := (list ascii) (only parsing).

Definition newline : ascii := "010"%char.
Definition nul : ascii := "000"%char.
Definition blank : ascii := " "%char.

(** ** The C library *)

(** [fgets(buf, size, file)]: at most [size - 1] characters, up to and including
    the first newline; null at the end of the file. *)
Fixpoint line_of (n : nat) (file : Chars) : Chars * Chars :=
  match n, file with
  | S n', c :: file' =>
      if decide (c = newline) then ([c], file')
      else let '(l, rest) := line_of n' file' in (c :: l, rest)
  | _, _ => ([], file)
  end.

Definition fgets (size : Z) (file : Chars) : option (Chars * Chars) :=
  match file with
  | [] => None
  | _ => Some (line_of (Z.to_nat (size - 1)) file)
  end.

(** The string in a buffer ends at the first null character. *)
Fixpoint c_string (s : Chars) : Chars :=
  match s with
  | [] => []
  | c :: s' => if decide (c = nul) then [] else c :: c_string s'
  end.

(** [DELIMITER] *)
Definition is_delim (c : ascii) : bool :=
  bool_decide (c = blank) || bool_decide (c = ":"%char).

(** The tokens successive calls of [strtok] return; [cur] is the token being
    read, backwards. *)
Fixpoint tokens_from (cur s : Chars) : list Chars :=
  match s with
  | [] => match cur with [] => [] | _ => [rev cur] end
  | c :: s' =>
      if is_delim c then
        match cur with
        | [] => tokens_from [] s'
        | _ => rev cur :: tokens_from [] s'
        end
      else tokens_from (c :: cur) s'
  end.

Definition tokens (s : Chars) : list Chars := tokens_from [] s.

(** [isspace] *)
Definition is_space (c : ascii) : bool :=
  bool_decide (c = blank) ||
  ((9 <=? Z.of_nat (nat_of_ascii c)) && (Z.of_nat (nat_of_ascii c) <=? 13)).

Definition digit_of (c : ascii) : option Z :=
  let d := Z.of_nat (nat_of_ascii c) - 48 in
  if (0 <=? d) && (d <=? 9) then Some d else None.

(** The digits at the front of [s], after those that make [acc]. *)
Fixpoint read_digits (acc : Z) (s : Chars) : Z :=
  match s with
  | [] => acc
  | c :: s' => match digit_of c with
               | Some d => read_digits (10 * acc + d) s'
               | None => acc
               end
  end.

Fixpoint skip_spaces (s : Chars) : Chars :=
  match s with
  | c :: s' => if is_space c then skip_spaces s' else s
  | [] => []
  end.

Definition read_int (s : Chars) : Z :=
  match skip_spaces s with
  | c :: s' =>
      if decide (c = "-"%char) then - read_digits 0 s'
      else if decide (c = "+"%char) then read_digits 0 s'
      else read_digits 0 (c :: s')
  | [] => 0
  end.

(** [atoi] of a token that may be missing: undefined for a null pointer and for a
    number that is not an [int]. *)
Definition atoi (tok : option Chars) : result Z :=
  s ← determinate tok;
  let z := read_int s in
  if (- 2 ^ 31 <=? z) && (z <? 2 ^ 31) then Ok z else Err Undefined.

(** ** Lines of the trace *)

Definition MAX_TOKENS_PER_LINE : Z := 100.

(** [token[i]] as a number if there is such a token, 0 otherwise. *)
Definition optional_token (toks : list Chars) (i : nat) : result Z :=
  match toks !! i with Some s => atoi (Some s) | None => Ok 0 end.

(** The packet of a line, given its tokens; [Cycles] is unsigned. *)
Definition parse_record (toks : list Chars) : result NetworkTraceRecord :=
  time ← atoi (toks !! 0%nat);
  src_id ← atoi (toks !! 1%nat);
  src_router_id ← atoi (toks !! 2%nat);
  dest_id ← atoi (toks !! 3%nat);
  dest_router_id ← atoi (toks !! 4%nat);
  vnet ← atoi (toks !! 5%nat);
  num_flits ← atoi (toks !! 6%nat);
  network_idx ← optional_token toks 7;
  input_idx ← optional_token toks 8;
  phase_id ← optional_token toks 9;
  Ok (mkTraceRecord true (wrap64 time) src_id src_router_id dest_id dest_router_id
        vnet num_flits network_idx input_idx phase_id).

(** The tokens of the buffer, at most [MAX_TOKENS_PER_LINE] of them. *)
Definition line_tokens (line : Chars) : list Chars :=
  take (Z.to_nat MAX_TOKENS_PER_LINE) (tokens (c_string line)).

(** ** Writing a trace *)

(** The digits of a number, [fuel] of them at most. *)
Fixpoint digits (fuel : nat) (z : Z) (acc : Chars) : Chars :=
  match fuel with
  | O => acc
  | S f =>
      let acc := ascii_of_nat (Z.to_nat (48 + z mod 10)) :: acc in
      if z / 10 =? 0 then acc else digits f (z / 10) acc
  end.

(** An [int] that is not negative has at most ten digits. *)
Definition show (z : Z) : Chars := digits 10 z [].

Definition fields (r : NetworkTraceRecord) : list Z :=
  [tr_time r; tr_src_id r; tr_src_router_id r; tr_dest_id r; tr_dest_router_id r;
   tr_vnet r; tr_num_flits r; tr_network_idx r; tr_input_idx r; tr_phase_id r].

(** The numbers separated by blanks, then a newline. *)
Fixpoint join (l : list Z) : Chars :=
  match l with
  | [] => [newline]
  | [z] => show z ++ [newline]
  | z :: l' => show z ++ blank :: join l'
  end.

Definition show_record (r : NetworkTraceRecord) : Chars := join (fields r).

(** ** Reading back what was written *)

Definition digit_char (d : Z) : ascii := ascii_of_nat (Z.to_nat (48 + d)).

Lemma digit_char_facts d :
  0 ≤ d ≤ 9 →
  digit_of (digit_char d) = Some d ∧ is_delim (digit_char d) = false ∧
  digit_char d ≠ nul ∧ digit_char d ≠ newline ∧ is_space (digit_char d) = false ∧
  digit_char d ≠ "-"%char ∧ digit_char d ≠ "+"%char.
Proof.
  intros Hd.
  assert (d = 0 ∨ d = 1 ∨ d = 2 ∨ d = 3 ∨ d = 4 ∨ d = 5 ∨ d = 6 ∨ d = 7 ∨ d = 8 ∨ d = 9)
    as Hc by lia.
  repeat destruct Hc as [->|Hc]; subst; vm_compute; repeat split; congruence.
Qed.

(** A word of digits that reads as [z]. *)
Definition reads_as (z : Z) (ds : Chars) : Prop :=
  ds ≠ [] ∧ Forall (λ c, ∃ d, 0 ≤ d ≤ 9 ∧ c = digit_char d) ds ∧
  ∀ a s, read_digits a (ds ++ s) = read_digits (a * 10 ^ Z.of_nat (length ds) + z) s.

Lemma digits_spec f z acc :
  0 ≤ z < 10 ^ Z.of_nat (S f) → ∃ ds, digits (S f) z acc = ds ++ acc ∧ reads_as z ds ∧
    (length ds ≤ S f)%nat.
Proof.
  revert z acc. induction f as [|f IH]; intros z acc Hz;
    set (c := ascii_of_nat (Z.to_nat (48 + z mod 10))).
  all: pose proof (Z.mod_pos_bound z 10 ltac:(lia)) as Hm.
  all: destruct (digit_char_facts (z mod 10)) as (Hd & _); [lia|].
  all: change (digit_char (z mod 10)) with c in Hd.
  all: assert (Forall (λ c, ∃ d, 0 ≤ d ≤ 9 ∧ c = digit_char d) [c]) as Hc
    by (repeat constructor; exists (z mod 10); split; [lia|done]).
  - assert (z / 10 = 0) as H0 by (apply Z.div_small; lia).
    cbn [digits]. rewrite H0. cbn [Z.eqb]. exists [c]. split; [done|]. split; [|done].
    split; [done|]. split; [done|]. intros a s. cbn. rewrite Hd. f_equal.
    pose proof (Z.div_mod z 10). lia.
  - cbn [digits]. fold c. destruct (Z.eqb_spec (z / 10) 0) as [H0|H0].
    + exists [c]. split; [done|]. split; [|cbn; lia]. split; [done|]. split; [done|].
      intros a s. cbn. rewrite Hd. f_equal. pose proof (Z.div_mod z 10). lia.
    + destruct (IH (z / 10) (c :: acc)) as (ds & Hds & (Hne & Hall & Hr) & Hlen).
      { split; [apply Z.div_pos; lia|]. apply Z.div_lt_upper_bound; [lia|].
        rewrite Nat2Z.inj_succ, Z.pow_succ_r in Hz by lia. lia. }
      cbn [digits] in Hds. exists (ds ++ [c]). split; [by rewrite <- app_assoc|].
      split; [|rewrite length_app; cbn; lia].
      split; [by destruct ds|]. split; [by apply Forall_app|].
      intros a s. rewrite <- app_assoc, Hr. cbn. rewrite Hd. f_equal.
      rewrite length_app. cbn. rewrite Nat2Z.inj_add, Z.pow_add_r by lia.
      pose proof (Z.div_mod z 10). change (10 ^ Z.of_nat 1) with 10. lia.
Qed.

Lemma show_spec z :
  0 ≤ z < 2 ^ 31 → reads_as z (show z) ∧ (length (show z) ≤ 10)%nat.
Proof.
  intros Hz. destruct (digits_spec 9 z []) as (ds & Hds & Hr & Hl); [lia|].
  unfold show. rewrite Hds, app_nil_r. done.
Qed.

Lemma tokens_word w cur s :
  Forall (λ c, is_delim c = false) w → tokens_from cur (w ++ s) = tokens_from (rev w ++ cur) s.
Proof.
  intros Hw. revert cur. induction Hw as [|c w Hc Hw IH]; intros cur; [done|].
  cbn. rewrite Hc, IH, <- app_assoc. done.
Qed.

Lemma reads_as_not P z ds :
  reads_as z ds → (∀ d, 0 ≤ d ≤ 9 → P (digit_char d)) → Forall P ds.
Proof.
  intros (_ & Hall & _) HP. eapply Forall_impl; [exact Hall|]. cbn.
  intros c (d & Hd & ->). by apply HP.
Qed.

Lemma reads_as_word z ds : reads_as z ds → Forall (λ c, is_delim c = false) ds.
Proof. intros Hr. apply (reads_as_not _ _ _ Hr). intros d (_ & ? & _)%digit_char_facts. done. Qed.

(** A token that a number was written as, possibly with the end of its line. *)
Definition token_for (z : Z) (s : Chars) : Prop :=
  ∃ e, s = show z ++ e ∧ (e = [] ∨ e = [newline]).

Lemma atoi_token z s : 0 ≤ z < 2 ^ 31 → token_for z s → atoi (Some s) = Ok z.
Proof.
  intros Hz (e & -> & He). destruct (show_spec z Hz) as [(Hne & Hall & Hr) _].
  unfold atoi. cbn [determinate rbind].
  assert (read_int (show z ++ e) = z) as ->.
  { unfold read_int. destruct (show z) as [|c ds] eqn:Es; [done|].
    apply Forall_cons in Hall as [(d & Hd & ->) _].
    destruct (digit_char_facts d Hd) as (_ & _ & _ & _ & Hsp & Hm & Hp).
    cbn [app skip_spaces]. rewrite Hsp, !decide_False by done.
    change (digit_char d :: ds ++ e) with ((digit_char d :: ds) ++ e).
    rewrite Hr. by destruct He as [-> | ->]. }
  assert ((- 2 ^ 31 <=? z) && (z <? 2 ^ 31) = true) as ->; [|done].
  apply andb_true_iff. split; [apply Z.leb_le|apply Z.ltb_lt]; lia.
Qed.

Lemma tokens_join l :
  l ≠ [] → Forall (λ z, 0 ≤ z < 2 ^ 31) l → Forall2 token_for l (tokens (join l)).
Proof.
  induction l as [|z l IH]; [done|]. intros _ [Hz Hl]%Forall_cons.
  destruct (show_spec z Hz) as [Hr _]. pose proof (reads_as_word _ _ Hr) as Hw.
  unfold tokens. destruct l as [|z' l].
  - cbn [join]. rewrite tokens_word by done. rewrite app_nil_r. cbn.
    replace (is_delim newline) with false by done. cbn.
    constructor; [|constructor]. exists [newline]. rewrite rev_involutive. auto.
  - change (join (z :: z' :: l)) with (show z ++ blank :: join (z' :: l)).
    rewrite tokens_word by done. rewrite app_nil_r. cbn [tokens_from].
    replace (is_delim blank) with true by done.
    destruct (rev (show z)) eqn:E.
    { destruct Hr as (Hne & _). destruct (show z); [done|]. cbn in E.
      by destruct (rev _) in E. }
    rewrite <- E, rev_involutive. constructor; [|apply IH; [done|done]].
    exists []. rewrite app_nil_r. auto.
Qed.

(** A record whose fields are [int]s that are not negative, and whose line fits
    the buffer. *)
Definition writable (r : NetworkTraceRecord) : Prop :=
  tr_valid r = true ∧ Forall (λ z, 0 ≤ z < 2 ^ 31) (fields r) ∧
  zlen (show_record r) < MAX_TOKENS_PER_LINE.

Lemma join_chars (P : ascii → Prop) l :
  Forall (λ z, 0 ≤ z < 2 ^ 31) l → (∀ d, 0 ≤ d ≤ 9 → P (digit_char d)) → P blank →
  ∃ body, join l = body ++ [newline] ∧ Forall P body.
Proof.
  intros Hl HP Hb. induction Hl as [|z l Hz Hl IH]; [by exists []|].
  destruct (show_spec z Hz) as [Hr _]. pose proof (reads_as_not P _ _ Hr HP) as Hs.
  destruct l as [|z' l]; [by exists (show z)|].
  destruct IH as (body & Hj & Hbody). exists (show z ++ blank :: body).
  change (join (z :: z' :: l)) with (show z ++ blank :: join (z' :: l)). rewrite Hj.
  split; [by rewrite <- app_assoc|]. apply Forall_app. split; [done|]. by constructor.
Qed.

Lemma c_string_id s : Forall (λ c, c ≠ nul) s → c_string s = s.
Proof. induction 1 as [|c s Hc Hs IH]; [done|]. cbn. rewrite decide_False by done. by rewrite IH. Qed.

Lemma line_of_body n body rest :
  Forall (λ c, c ≠ newline) body → (length body < n)%nat →
  line_of n ((body ++ [newline]) ++ rest) = (body ++ [newline], rest).
Proof.
  intros Hb. revert n. induction Hb as [|c body Hc Hb IH]; intros [|n] Hn; cbn in Hn; try lia.
  - cbn. by rewrite decide_True.
  - cbn. rewrite decide_False by done. by rewrite IH by lia.
Qed.

Lemma fgets_record r rest :
  writable r → fgets MAX_TOKENS_PER_LINE (show_record r ++ rest) = Some (show_record r, rest).
Proof.
  intros (_ & Hf & Hl). unfold show_record in *.
  destruct (join_chars (λ c, c ≠ newline) (fields r) Hf) as (body & Hj & Hb).
  { intros d (_ & _ & _ & ? & _)%digit_char_facts. done. }
  { done. }
  rewrite Hj in Hl |- *. unfold fgets. destruct ((body ++ [newline]) ++ rest) eqn:E.
  { by destruct body. }
  rewrite <- E, line_of_body; [done|done|].
  rewrite zlen_app in Hl. unfold zlen, MAX_TOKENS_PER_LINE in *. cbn in Hl |- *. lia.
Qed.

Lemma parse_record_show r :
  writable r → parse_record (line_tokens (show_record r)) = Ok r.
Proof.
  intros (Hv & Hf & _).
  unfold line_tokens, show_record.
  destruct (join_chars (λ c, c ≠ nul) (fields r) Hf) as (body & Hj & Hb).
  { intros d (_ & _ & ? & _)%digit_char_facts. done. }
  { done. }
  rewrite c_string_id by (rewrite Hj; apply Forall_app; by repeat constructor).
  assert (fields r ≠ []) as Hne by done. pose proof (tokens_join _ Hne Hf) as Ht.
  destruct (tokens (join (fields r))) as [|t0 [|t1 [|t2 [|t3 [|t4 [|t5 [|t6 [|t7 [|t8 [|t9
    [|? ?]]]]]]]]]]]; try by apply Forall2_length in Ht.
  unfold fields in Ht, Hf.
  repeat match goal with
  | H : Forall2 _ (_ :: _) (_ :: _) |- _ => apply Forall2_cons in H; destruct H
  | H : Forall _ (_ :: _) |- _ => apply Forall_cons in H; destruct H
  end.
  unfold parse_record, optional_token. simpl.
  repeat match goal with
  | H : token_for ?z ?t |- context [atoi (Some ?t)] =>
      rewrite (atoi_token z t) by assumption; cbn [rbind]
  end.
  unfold wrap64. rewrite Z.mod_small by lia. destruct r. simpl in *. by subst.
Qed.


(** A written line is never blank. *)
Lemma line_tokens_show r : writable r → line_tokens (show_record r) ≠ [].
Proof. intros Hw E. apply parse_record_show in Hw. by rewrite E in Hw. Qed.

(** C23: a record survives being written to the trace and read back: the line of a
    record with non-negative fields parses to the record, whatever follows it in
    the file. *)
Theorem trace_roundtrip r rest :
  writable r →
  fgets MAX_TOKENS_PER_LINE (show_record r ++ rest) = Some (show_record r, rest) ∧
  parse_record (line_tokens (show_record r)) = Ok r.
Proof. intros Hw. split; [by apply fgets_record|by apply parse_record_show]. Qed.

Lemma trace_roundtrip_witness :
  parse_record (line_tokens (show_record
    (mkTraceRecord true 1 3 3 104 4 0 250 2 0 17))) =
    Ok (mkTraceRecord true 1 3 3 104 4 0 250 2 0 17).
Proof.
  refine (proj2 (trace_roundtrip (mkTraceRecord true 1 3 3 104 4 0 250 2 0 17) [] _)).
  split; [reflexivity|]. split; [|vm_compute; reflexivity].
  repeat constructor; cbn; lia.
Defined.

Lemma atoi_error tok e : atoi tok = Err e → e = Undefined.
Proof.
  unfold atoi. destruct tok; cbn [determinate rbind]; [|by intros [= <-]].
  destruct (_ && _); [done|]. by intros [= <-].
Qed.

Lemma bind_undefined {A B} (m : result A) (k : A → result B) :
  (∀ e, m = Err e → e = Undefined) → (∀ a, m = Ok a → k a = Err Undefined) →
  rbind m k = Err Undefined.
Proof. destruct m as [a|e]; cbn; [auto|]. intros He _. by rewrite (He e eq_refl). Qed.

(** A line with fewer than seven tokens, a blank line among them, makes the
    reader call [atoi] on a null pointer: the line "\n" is not blank for [strtok],
    whose delimiters do not include the newline. *)
Theorem short_line_undefined toks :
  (length toks < 7)%nat → parse_record toks = Err Undefined.
Proof.
  intros Hl. unfold parse_record.
  destruct toks as [|? [|? [|? [|? [|? [|? [|? ?]]]]]]]; cbn in Hl; try lia; simpl;
    repeat (apply bind_undefined; [apply atoi_error|intros ? _]); done.
Qed.

Lemma short_line_undefined_witness :
  line_tokens [newline] = [[newline]] ∧
  parse_record (line_tokens [newline]) = Err Undefined.
Proof.
  split; [reflexivity|]. apply (short_line_undefined (line_tokens [newline])).
  vm_compute. lia.
Defined.
