(* ===== verification/GarnetNetwork.v ===== *)
(** * The network: trace replay

    The part of [garnet/GarnetNetwork.cc] that reads the trace and hands its
    packets to the interfaces.  [tracefile] is the characters of the file not read
    yet: the reader is a pipe that decompresses the trace, whose failures are not
    modelled. *)

From Stdlib Require Import Ascii.
From S2P Require Import Prelude.
From S2P Require Import IntMath.
From S2P Require Import NetDest.
From S2P Require Import Flit.
From S2P Require Import VirtualChannels.
From S2P Require Import Clocking.
From S2P Require Import Links.
From S2P Require Import MessageBuffer.
From S2P Require Import Statistics.
From S2P Require Import NetworkInterface.
From S2P Require Import Trace.

Module GarnetNetwork.

Record t := mk {
  m_nis : list NetworkInterface.t;
  stats : NetStats.t;
  trace_next_packet : NetworkTraceRecord;
  trace_start_time : Z;
  tracefile : Chars;
  clk : Clocked.t;
  consumer : Consumer.t;
}.

(** [endsWith], on null-terminated strings *)
Definition endsWith (str suffix : Chars) : bool :=
  (zlen suffix <=? zlen str) &&
  bool_decide (drop (length str - length suffix) str = suffix).

(** [m_vnet_type]: a virtual network named "response" carries data. *)
Definition vnet_types (m_vnet_type_names : list string) : list VNET_type :=
  (λ name, if String.eqb name "response" then DATA_VNET_ else CTRL_VNET_)
    <$> m_vnet_type_names.

(** [true] when the trace is piped through [gunzip] *)
Definition compressed (trace_filename : Chars) : bool :=
  endsWith trace_filename ["."%char; "g"%char; "z"%char].

Definition scheduleWakeupAbsolute (cur : Tick) (g : t) (time : Cycles) : result t :=
  c ← Consumer.scheduleEventAbsolute (clk g) cur (consumer g)
        (Clocked.cyclesToTicks (clk g) time);
  Ok (mk (m_nis g) (stats g) (trace_next_packet g) (trace_start_time g) (tracefile g)
         (clk g) c).

(** The constructor: the first line of the trace is skipped and the first wake-up
    scheduled.  The fields of [trace_next_packet] it leaves uninitialised are read
    only once [valid] is true. *)
Definition make (cur : Tick) (nis : list NetworkInterface.t) (s : NetStats.t)
    (c : Clocked.t) (file : Chars) : result t :=
  let file := match fgets 1000 file with Some (_, rest) => rest | None => file end in
  let none := mkTraceRecord false 0 (-1) 0 (-1) 0 0 0 0 0 0 in
  let s := NetStats.with_trace s 0 0 0 (NetStats.end_simulation s) (NetStats.exited s) in
  let g := mk nis s none 0 file c Consumer.make in
  scheduleWakeupAbsolute cur g (Clocked.curCycle c cur + 1).

(** The packet read before is handed to its interface and counted. *)
Definition inject (cur : Tick) (g : t) : result t :=
  let r := trace_next_packet g in
  if tr_valid r then
    _ ← assert (tr_time r =? Clocked.curCycle (clk g) cur);
    nis ← vupd (m_nis g) (tr_src_id r)
            (λ n, NetworkInterface.enqueueTracePacket cur n r);
    let s := stats g in
    let s := NetStats.with_trace s (NetStats.trace_num_packets_injected s + 1)
               (NetStats.trace_num_flits_injected s + tr_num_flits r)
               (NetStats.trace_num_flits_received s) (NetStats.end_simulation s)
               (NetStats.exited s) in
    Ok (mk nis s r (trace_start_time g) (tracefile g) (clk g) (consumer g))
  else Ok g.

(** A source or destination that names no interface is replaced by interface 0;
    the identifiers are compared as unsigned numbers.  The destination is not
    looked at when the source was replaced. *)
Definition clip_ids (nis : Z) (r : NetworkTraceRecord) : NetworkTraceRecord :=
  let out id := (id <? 0) || (nis <=? id) in
  if out (tr_src_id r) then
    mkTraceRecord true (tr_time r) 0 0 (tr_dest_id r) (tr_dest_router_id r) (tr_vnet r)
      (tr_num_flits r) (tr_network_idx r) (tr_input_idx r) (tr_phase_id r)
  else if out (tr_dest_id r) then
    mkTraceRecord true (tr_time r) (tr_src_id r) (tr_src_router_id r) 0 0 (tr_vnet r)
      (tr_num_flits r) (tr_network_idx r) (tr_input_idx r) (tr_phase_id r)
  else
    mkTraceRecord true (tr_time r) (tr_src_id r) (tr_src_router_id r) (tr_dest_id r)
      (tr_dest_router_id r) (tr_vnet r) (tr_num_flits r) (tr_network_idx r)
      (tr_input_idx r) (tr_phase_id r).

(** The end of the file has been reached. *)
Definition finish (g : t) : t :=
  let s := stats g in
  mk (m_nis g)
     (NetStats.with_trace s (NetStats.trace_num_packets_injected s)
        (NetStats.trace_num_flits_injected s) (NetStats.trace_num_flits_received s)
        (Some true) (NetStats.exited s))
     (trace_next_packet g) (trace_start_time g) (tracefile g) (clk g) (consumer g).

(** The packet of a line becomes the next one. *)
Definition accept (g : t) (toks : list Chars) (rest : Chars) : result t :=
  start ← (if NetStats.trace_num_packets_injected (stats g) =? 0 then atoi (toks !! 0%nat)
           else Ok (trace_start_time g));
  r ← parse_record toks;
  Ok (mk (m_nis g) (stats g) (clip_ids (zlen (m_nis g)) r) start rest (clk g) (consumer g)).

(** Whether another packet may be injected. *)
Definition more_allowed (s : NetStats.t) : bool :=
  (NetStats.m_trace_max_packets s <? 0) ||
  (NetStats.trace_num_packets_injected s <=? NetStats.m_trace_max_packets s).

(** [wakeup()] calls itself for the packets of the current cycle; [None] when it
    has not returned after [fuel] calls. *)
Fixpoint wakeup_from (fuel : nat) (cur : Tick) (g : t) : option (result t) :=
  match fuel with
  | O => None
  | S fuel' =>
      g ⇐ inject cur g;
      match fgets MAX_TOKENS_PER_LINE (tracefile g) with
      | None => Some (Ok (finish g))
      | Some (line, rest) =>
          match line_tokens line with
          | [] => Some (Ok (mk (m_nis g) (stats g) (trace_next_packet g)
                              (trace_start_time g) rest (clk g) (consumer g)))
          | toks =>
              g ⇐ accept g toks rest;
              if more_allowed (stats g) then
                if tr_time (trace_next_packet g) =? Clocked.curCycle (clk g) cur
                then wakeup_from fuel' cur g
                else Some (scheduleWakeupAbsolute cur g (tr_time (trace_next_packet g)))
              else Some (Ok g)
          end
      end
  end.

(** Every call reads a line, so as many calls as the file has characters, and one,
    are enough. *)
Definition wakeup (cur : Tick) (g : t) : result t :=
  settled (wakeup_from (S (length (tracefile g))) cur g).

Definition with_consumer (g : t) (c : Consumer.t) : t :=
  mk (m_nis g) (stats g) (trace_next_packet g) (trace_start_time g) (tracefile g) (clk g) c.

(** [Consumer::processCurrentEvent()] of the network. *)
Definition processCurrentEvent (cur : Tick) (g : t) : result t :=
  match Consumer.m_wakeup_ticks (consumer g) with
  | [] => Err Undefined
  | curr :: rest =>
      _ ← assert (Clocked.clockEdge (clk g) cur 0 =? curr);
      g ← wakeup cur (with_consumer g (Consumer.mk rest None));
      c ← Consumer.scheduleNextWakeup (consumer g) (Clocked.clockEdge (clk g) cur 0);
      Ok (with_consumer g c)
  end.

End GarnetNetwork.
