(* ===== verification/TraceReplay.v ===== *)
(** * Properties of the trace replay

    A wake-up of the network hands over exactly the packets of its cycle. *)

From Stdlib Require Import Ascii.
From stdpp Require Import sorting.
From S2P Require Import Prelude.
From S2P Require Import IntMath.
From S2P Require Import NetDest.
From S2P Require Import Flit.
From S2P Require Import VirtualChannels.
From S2P Require Import Clocking.
From S2P Require Import Links.
From S2P Require Import MessageBuffer.
From S2P Require Import Statistics.
From S2P Require Import NetworkInterface.
From S2P Require Import Trace.
From S2P Require Import GarnetNetwork.

Import GarnetNetwork.

(** ** Termination *)

Lemma line_of_shorter n c file l rest :
  line_of (S n) (c :: file) = (l, rest) → (length rest < length (c :: file))%nat.
Proof.
  revert c file l. induction n as [|n IH]; intros c file l; cbn.
  - case_decide; [intros [= <- <-]; lia|]. destruct file; intros [= <- <-]; cbn; lia.
  - case_decide; [intros [= <- <-]; lia|]. destruct file as [|c' file].
    + intros [= <- <-]. cbn. lia.
    + destruct (line_of (S n) (c' :: file)) as [l' r'] eqn:E. cbn in E. rewrite E.
      intros [= <- <-]. apply IH in E. cbn in *. lia.
Qed.

Lemma fgets_shorter file l rest :
  fgets MAX_TOKENS_PER_LINE file = Some (l, rest) → (length rest < length file)%nat.
Proof.
  unfold fgets. destruct file as [|c file]; [done|].
  change (Z.to_nat (MAX_TOKENS_PER_LINE - 1)) with (S 98). generalize 98%nat as n.
  intros n E. apply (inj Some) in E. by apply line_of_shorter in E.
Qed.

Lemma inject_tracefile cur g g' : inject cur g = Ok g' → tracefile g' = tracefile g.
Proof.
  unfold inject. destruct (tr_valid (trace_next_packet g)); [|by intros [= <-]].
  intros H1. step_bind H1 as u Hu. step_bind H1 as nis Hn. by injection H1 as <-.
Qed.

Lemma accept_tracefile g toks rest g' : accept g toks rest = Ok g' → tracefile g' = rest.
Proof.
  unfold accept. intros H1. step_bind H1 as st Hst. step_bind H1 as r Hr.
  by injection H1 as <-.
Qed.

(** A call that is followed by another has read a line. *)
Lemma wakeup_from_ends cur fuel g :
  (length (tracefile g) < fuel)%nat → is_Some (wakeup_from fuel cur g).
Proof.
  revert g. induction fuel as [|fuel IH]; intros g Hf; [lia|]. cbn [wakeup_from].
  apply fbind_ends. intros g1 Hi%inject_tracefile.
  destruct (fgets MAX_TOKENS_PER_LINE (tracefile g1)) as [[l rest]|] eqn:Ef; [|done].
  apply fgets_shorter in Ef. rewrite Hi in Ef.
  destruct (line_tokens l) as [|tok toks]; [done|].
  apply fbind_ends. intros g2 Ha%accept_tracefile.
  destruct (more_allowed (stats g2)); [|done]. destruct (_ =? _); [|done].
  apply IH. rewrite Ha. lia.
Qed.

(** What has returned returns the same with more fuel. *)
Lemma wakeup_from_more cur f1 f2 g r :
  wakeup_from f1 cur g = Some r → (f1 ≤ f2)%nat → wakeup_from f2 cur g = Some r.
Proof.
  revert f2 g. induction f1 as [|f1 IH]; intros [|f2] g H1 Hf; try lia || done.
  cbn [wakeup_from] in *. destruct (inject cur g) as [g1|]; [|done]. cbn [fbind] in *.
  destruct (fgets _ _) as [[l rest]|]; [|done]. destruct (line_tokens l) as [|tok toks]; [done|].
  destruct (accept g1 (tok :: toks) rest) as [g2|]; [|done]. cbn [fbind] in *.
  destruct (more_allowed (stats g2)); [|done]. destruct (_ =? _); [|done].
  apply IH; [done|lia].
Qed.

(** ** Handing over *)

Lemma lower_bound_ge x l y : Consumer.lower_bound x l = Some y → x ≤ y.
Proof.
  induction l as [|z l IH]; cbn; [done|]. destruct (Z.leb_spec x z); [|done].
  by intros [= <-].
Qed.

Lemma scheduleNextWakeup_total c edge :
  ∃ c', Consumer.scheduleNextWakeup c edge = Ok c' ∧
        Consumer.m_wakeup_ticks c' = Consumer.m_wakeup_ticks c.
Proof.
  unfold Consumer.scheduleNextWakeup.
  destruct (Consumer.lower_bound edge (Consumer.m_wakeup_ticks c)) as [y|] eqn:E; [|by exists c].
  apply lower_bound_ge in E. rewrite (proj2 (Z.leb_le _ _) E). cbn [assert rbind].
  eexists. split; [done|]. destruct (Consumer.m_wakeup_event c); [|done]. by case_match.
Qed.

Lemma enqueueTracePacket_total cur n r :
  ∃ n', NetworkInterface.enqueueTracePacket cur n r = Ok n' ∧
    NetworkInterface.m_trace_record_queue n' =
      NetworkInterface.m_trace_record_queue n ++ [r].
Proof.
  unfold NetworkInterface.enqueueTracePacket, NetworkInterface.scheduleEvent,
    Consumer.scheduleEvent.
  match goal with |- context [Consumer.scheduleNextWakeup ?c ?e] =>
    destruct (scheduleNextWakeup_total c e) as (c' & -> & _) end.
  cbn [rbind]. by eexists.
Qed.

(** The packet waiting to be handed over. *)
Definition pending (g : t) : list NetworkTraceRecord :=
  if tr_valid (trace_next_packet g) then [trace_next_packet g] else [].

(** [end_simulation] *)
Definition announced (g : t) : option bool := NetStats.end_simulation (stats g).

(** The limit lets [n] more records be handed over after the waiting one. *)
Definition limit_ok (g : t) (n : Z) : Prop :=
  NetStats.m_trace_max_packets (stats g) < 0 ∨
  NetStats.trace_num_packets_injected (stats g) + zlen (pending g) + n ≤
    NetStats.m_trace_max_packets (stats g) + 1.

(** The packets from interface [i]. *)
Definition from (i : Z) (rs : list NetworkTraceRecord) : list NetworkTraceRecord :=
  filter (λ r, tr_src_id r = i) rs.

Definition flits (rs : list NetworkTraceRecord) : Z := sum_over tr_num_flits rs.

(** Between [g] and [g'] the packets [rs] were handed over. *)
Definition handed (g g' : t) (rs : list NetworkTraceRecord) : Prop :=
  zlen (m_nis g') = zlen (m_nis g) ∧ clk g' = clk g ∧
  NetStats.m_trace_max_packets (stats g') = NetStats.m_trace_max_packets (stats g) ∧
  (∀ i n, zlookup (m_nis g) i = Some n →
     ∃ n', zlookup (m_nis g') i = Some n' ∧
       NetworkInterface.m_trace_record_queue n' =
         NetworkInterface.m_trace_record_queue n ++ from i rs) ∧
  NetStats.trace_num_packets_injected (stats g') =
    NetStats.trace_num_packets_injected (stats g) + zlen rs ∧
  NetStats.trace_num_flits_injected (stats g') =
    NetStats.trace_num_flits_injected (stats g) + flits rs.

Lemma handed_trans g1 g2 g3 rs rs' :
  handed g1 g2 rs → handed g2 g3 rs' → handed g1 g3 (rs ++ rs').
Proof.
  intros (L1 & C1 & M1 & Q1 & P1 & F1) (L2 & C2 & M2 & Q2 & P2 & F2).
  split_and!; try congruence.
  - intros i n Hn. destruct (Q1 i n Hn) as (n1 & Hn1 & E1).
    destruct (Q2 i n1 Hn1) as (n2 & Hn2 & E2). exists n2. split; [done|].
    unfold from in *. by rewrite E2, E1, filter_app, app_assoc.
  - rewrite P2, P1, zlen_app. lia.
  - rewrite F2, F1. unfold flits. rewrite sum_over_app. lia.
Qed.

Lemma handed_same g g' :
  m_nis g' = m_nis g → clk g' = clk g →
  NetStats.m_trace_max_packets (stats g') = NetStats.m_trace_max_packets (stats g) →
  NetStats.trace_num_packets_injected (stats g') =
    NetStats.trace_num_packets_injected (stats g) →
  NetStats.trace_num_flits_injected (stats g') =
    NetStats.trace_num_flits_injected (stats g) →
  handed g g' [].
Proof.
  intros Hn Hc Hm Hp Hf. unfold handed. rewrite Hn, Hp, Hf. split_and!; try done.
  - intros i n Hi. exists n. by rewrite app_nil_r.
  - unfold zlen. cbn. lia.
  - unfold flits, sum_over. cbn. lia.
Qed.

(** The packet to hand over belongs to the cycle and names an interface. *)
Definition ready (cur : Tick) (g : t) : Prop :=
  tr_valid (trace_next_packet g) = true →
  tr_time (trace_next_packet g) = Clocked.curCycle (clk g) cur ∧
  0 ≤ tr_src_id (trace_next_packet g) < zlen (m_nis g).

Lemma inject_spec cur g :
  ready cur g →
  ∃ g', inject cur g = Ok g' ∧ handed g g' (pending g) ∧ tracefile g' = tracefile g ∧
        consumer g' = consumer g ∧ announced g' = announced g.
Proof.
  unfold inject, pending, ready. set (r := trace_next_packet g).
  destruct (tr_valid r) eqn:Ev.
  2:{ intros _. exists g. split; [done|]. split; [|done]. by apply handed_same. }
  intros Hr. destruct (Hr eq_refl) as [Ht Hsrc]. rewrite Ht, Z.eqb_refl. cbn [assert rbind].
  destruct (zlookup_is_Some (m_nis g) (tr_src_id r) Hsrc) as [n Hn].
  destruct (enqueueTracePacket_total cur n r) as (n' & En & Eq).
  rewrite (vupd_intro _ _ _ n n' Hn En). cbn [rbind]. eexists. split; [done|].
  split; [|done]. split_and!; try done.
  - cbn [m_nis]. by rewrite zlen_insert.
  - intros i m Hm. cbn [m_nis]. rewrite zlookup_insert by done. unfold from.
    rewrite filter_cons, filter_nil. destruct (decide (tr_src_id r = i)) as [<-|E].
    + exists n'. rewrite Hn in Hm. by injection Hm as <-.
    + exists m. by rewrite app_nil_r.
  - unfold flits. cbn. lia.
Qed.

(** A record all of whose identifiers name interfaces is kept as it was read. *)
Definition in_range (nis : Z) (r : NetworkTraceRecord) : Prop :=
  0 ≤ tr_src_id r < nis ∧ 0 ≤ tr_dest_id r < nis.

Lemma clip_ids_id nis r : tr_valid r = true → in_range nis r → clip_ids nis r = r.
Proof.
  intros Hv [Hs Hd]. unfold clip_ids.
  rewrite (proj2 (Z.ltb_ge (tr_src_id r) 0)), (proj2 (Z.leb_gt nis (tr_src_id r))),
    (proj2 (Z.ltb_ge (tr_dest_id r) 0)), (proj2 (Z.leb_gt nis (tr_dest_id r))) by lia.
  cbn [orb]. destruct r. cbn in *. by subst.
Qed.

(** Reading the line of a record makes it the next packet. *)
Lemma accept_record g r rest :
  writable r → in_range (zlen (m_nis g)) r →
  ∃ g', accept g (line_tokens (show_record r)) rest = Ok g' ∧
    trace_next_packet g' = r ∧ tracefile g' = rest ∧ handed g g' [] ∧
    consumer g' = consumer g ∧ announced g' = announced g.
Proof.
  intros Hw Hin. pose proof (parse_record_show r Hw) as Hp. unfold accept.
  assert (∃ z, atoi (line_tokens (show_record r) !! 0%nat) = Ok z) as [z Hz].
  { unfold parse_record in Hp. destruct (atoi _) as [z|]; [by exists z|done]. }
  rewrite Hz, Hp. replace (if _ : bool then Ok z else _)
    with (Ok (if NetStats.trace_num_packets_injected (stats g) =? 0 then z
              else trace_start_time g)) by by destruct (_ =? 0).
  cbn [rbind]. eexists. split; [done|]. cbn [trace_next_packet tracefile consumer].
  rewrite clip_ids_id by (done || apply Hw). split_and!; try done. by apply handed_same.
Qed.

(** The packets [rs] are read and handed over in the cycle of their time, then
    [next] is read and its wake-up scheduled. *)
Definition file_of (rs : list NetworkTraceRecord) : Chars := concat (show_record <$> rs).

Lemma scheduleWakeupAbsolute_spec cur g time :
  ∃ g', scheduleWakeupAbsolute cur g time = Ok g' ∧ handed g g' [] ∧
    trace_next_packet g' = trace_next_packet g ∧ tracefile g' = tracefile g ∧
    announced g' = announced g ∧
    Consumer.scheduleEventAbsolute (clk g) cur (consumer g)
      (Clocked.cyclesToTicks (clk g) time) = Ok (consumer g').
Proof.
  unfold scheduleWakeupAbsolute, Consumer.scheduleEventAbsolute.
  match goal with |- context [Consumer.scheduleNextWakeup ?c ?e] =>
    destruct (scheduleNextWakeup_total c e) as (c' & -> & _) end.
  cbn [rbind]. eexists. split; [done|]. cbn [trace_next_packet tracefile consumer].
  split; [|done]. by apply handed_same.
Qed.

(** One call: the waiting packet is handed over and the next line read; what
    remains is to go on in the same cycle, to ask for a wake-up, or to stop
    because of the limit. *)
Lemma wakeup_from_step cur g fuel r rs :
  ready cur g → tracefile g = file_of (r :: rs) → writable r →
  in_range (zlen (m_nis g)) r →
  ∃ g', handed g g' (pending g) ∧ trace_next_packet g' = r ∧
    tracefile g' = file_of rs ∧ consumer g' = consumer g ∧ announced g' = announced g ∧
    wakeup_from (S fuel) cur g =
      if more_allowed (stats g') then
        if tr_time r =? Clocked.curCycle (clk g) cur then wakeup_from fuel cur g'
        else Some (scheduleWakeupAbsolute cur g' (tr_time r))
      else Some (Ok g').
Proof.
  intros Hrd Hfile Hw Hin. cbn [wakeup_from].
  destruct (inject_spec cur g Hrd) as (g1 & -> & Hh1 & Ht1 & Hc1 & Ha1). cbn [fbind].
  pose proof Hh1 as (L1 & C1 & M1 & _). rewrite Ht1, Hfile.
  unfold file_of. cbn [fmap list_fmap concat]. rewrite fgets_record by done.
  rewrite <- L1 in Hin.
  destruct (accept_record g1 r (file_of rs) Hw Hin)
    as (g2 & Ha & Hn2 & Ht2 & Hh2 & Hc2 & Ha2).
  destruct (line_tokens (show_record r)) eqn:El; [by apply line_tokens_show in El|].
  pose proof Hh2 as (_ & C2 & _). unfold file_of in Ha. rewrite Ha. cbn [fbind].
  exists g2. rewrite Hn2, C2, C1, Hc2, Hc1, Ha2, Ha1.
  split_and!; try done. rewrite <- (app_nil_r (pending g)). by eapply handed_trans.
Qed.

(** The waiting packet is handed over and a record has taken its place. *)
Lemma limit_step g g' r n :
  handed g g' (pending g) → trace_next_packet g' = r → tr_valid r = true →
  limit_ok g (n + 1) ↔ limit_ok g' n.
Proof.
  intros (_ & _ & M & _ & P & _) Hr Hv. unfold limit_ok. rewrite M, P.
  unfold pending at 3. rewrite Hr, Hv. change (zlen [r]) with 1. split; intros [?|?]; lia.
Qed.

Lemma more_allowed_step g g' r :
  handed g g' (pending g) → trace_next_packet g' = r → tr_valid r = true →
  more_allowed (stats g') = true ↔ limit_ok g 1.
Proof.
  intros (_ & _ & M & _ & P & _) Hr Hv. unfold limit_ok, more_allowed.
  rewrite orb_true_iff, Z.ltb_lt, Z.leb_le, M, P. split; intros [?|?]; lia.
Qed.

(** The packets of the current cycle, as far as the limit allows them, are handed
    over without a return in between. *)
Lemma replay_now cur now rest g fuel :
  ready cur g → limit_ok g (zlen now) → tracefile g = file_of (now ++ rest) →
  Forall (λ r, writable r ∧ in_range (zlen (m_nis g)) r) now →
  Forall (λ r, tr_time r = Clocked.curCycle (clk g) cur) now →
  (length now < fuel)%nat →
  ∃ g' fuel', wakeup_from fuel cur g = wakeup_from (S fuel') cur g' ∧ ready cur g' ∧
    (∀ h rs, handed g' h (pending g' ++ rs) → handed g h (pending g ++ now ++ rs)) ∧
    tracefile g' = file_of rest ∧ consumer g' = consumer g ∧ announced g' = announced g ∧
    clk g' = clk g ∧ zlen (m_nis g') = zlen (m_nis g) ∧
    (∀ n, limit_ok g (zlen now + n) ↔ limit_ok g' n).
Proof.
  revert g fuel. induction now as [|r now IH]; intros g [|fuel] Hrd Hl Hf Hw Ht Hfu;
    cbn in Hfu; try lia.
  { by exists g, fuel. }
  cbn [app] in Hf. apply Forall_cons in Hw as [[Hwr Hir] Hw]. apply Forall_cons in Ht as [Hr Ht].
  destruct (wakeup_from_step cur g fuel _ _ Hrd Hf Hwr Hir)
    as (g1 & Hh1 & Hn1 & Hf1 & Hc1 & Ha1 & ->). pose proof Hh1 as (L1 & C1 & _).
  assert (Hv : tr_valid r = true) by apply Hwr.
  assert (Hz : zlen (r :: now) = zlen now + 1) by (rewrite zlen_cons; lia).
  rewrite (proj2 (more_allowed_step g g1 r Hh1 Hn1 Hv)), Hr, Z.eqb_refl.
  2:{ pose proof (zlen_nonneg now). unfold limit_ok in *. lia. }
  rewrite Hz in Hl. apply (limit_step g g1 r (zlen now) Hh1 Hn1 Hv) in Hl.
  rewrite <- L1, <- C1, <- Hc1, <- Ha1 in *.
  destruct (IH g1 fuel) as (g2 & f2 & -> & Hrd2 & Hh2 & Hf2 & Hc2 & Ha2 & C2 & L2 & Hl2);
    try done; [|lia|].
  { intros _. rewrite Hn1. split; [done|]. apply Hir. }
  exists g2, f2. split_and!; try done.
  - intros h rs Hh%Hh2. unfold pending in Hh at 1. rewrite Hn1, Hv in Hh.
    change ((r :: now) ++ rs) with ([r] ++ now ++ rs). by eapply handed_trans.
  - intros n. rewrite <- Hl2, Hz, <- (limit_step g g1 r _ Hh1 Hn1 Hv).
    by replace (zlen now + 1 + n) with (zlen now + n + 1) by lia.
Qed.

(** Then the next record is read and its wake-up is scheduled. *)
Lemma replay_from cur now next later g fuel :
  ready cur g → limit_ok g (zlen now + 1) →
  tracefile g = file_of (now ++ next :: later) →
  Forall (λ r, writable r ∧ in_range (zlen (m_nis g)) r) (now ++ [next]) →
  Forall (λ r, tr_time r = Clocked.curCycle (clk g) cur) now →
  tr_time next ≠ Clocked.curCycle (clk g) cur →
  (length now < fuel)%nat →
  ∃ g', wakeup_from fuel cur g = Some (Ok g') ∧ handed g g' (pending g ++ now) ∧
    trace_next_packet g' = next ∧ tracefile g' = file_of later ∧
    announced g' = announced g ∧ (∀ n, limit_ok g (zlen now + 1 + n) → limit_ok g' n) ∧
    Consumer.scheduleEventAbsolute (clk g) cur (consumer g)
      (Clocked.cyclesToTicks (clk g) (tr_time next)) = Ok (consumer g').
Proof.
  intros Hrd Hl Hf [Hw Hwn]%Forall_app Ht Hn Hfu. apply Forall_cons in Hwn as [[Hwn Hin] _].
  assert (Hv : tr_valid next = true) by apply Hwn.
  destruct (replay_now cur now (next :: later) g fuel)
    as (g1 & f1 & -> & Hrd1 & Hh1 & Hf1 & Hc1 & Ha1 & C1 & L1 & Hl1); try done.
  { unfold limit_ok in *. lia. }
  rewrite <- L1 in Hin.
  destruct (wakeup_from_step cur g1 f1 _ _ Hrd1 Hf1 Hwn Hin)
    as (g2 & Hh2 & Hn2 & Hf2 & Hc2 & Ha2 & ->).
  rewrite (proj2 (more_allowed_step g1 g2 next Hh2 Hn2 Hv)) by by apply Hl1.
  rewrite C1, (proj2 (Z.eqb_neq _ _) Hn).
  destruct (scheduleWakeupAbsolute_spec cur g2 (tr_time next))
    as (g3 & -> & Hh3 & Hn3 & Hf3 & Ha3 & Hs3).
  pose proof Hh2 as (_ & C2 & _). exists g3.
  rewrite C2, C1, Hc2, Hc1 in Hs3. rewrite Hn3, Hf3, Ha3, Ha2, Ha1.
  split_and!; try done.
  - rewrite <- (app_nil_r now). apply Hh1. by eapply handed_trans.
  - intros n Hg. replace (zlen now + 1 + n) with (zlen now + (n + 1)) in Hg by lia.
    apply Hl1, (limit_step g1 g2 next n Hh2 Hn2 Hv) in Hg.
    destruct Hh3 as (_ & _ & M3 & _ & P3 & _). unfold limit_ok, pending in *.
    rewrite M3, P3, Hn3, Hn2 in *. change (zlen (@nil NetworkTraceRecord)) with 0. destruct Hg; [by left|right; lia].
Qed.

(** Or the end of the file is reached. *)
Lemma replay_end cur now g fuel :
  ready cur g → limit_ok g (zlen now) → tracefile g = file_of now →
  Forall (λ r, writable r ∧ in_range (zlen (m_nis g)) r) now →
  Forall (λ r, tr_time r = Clocked.curCycle (clk g) cur) now →
  (length now < fuel)%nat →
  ∃ g', wakeup_from fuel cur g = Some (Ok g') ∧ handed g g' (pending g ++ now) ∧
    announced g' = Some true ∧ consumer g' = consumer g.
Proof.
  intros Hrd Hl Hf Hw Ht Hfu.
  destruct (replay_now cur now [] g fuel)
    as (g1 & f1 & -> & Hrd1 & Hh1 & Hf1 & Hc1 & _); try done; [by rewrite app_nil_r|].
  cbn [wakeup_from]. destruct (inject_spec cur g1 Hrd1) as (g2 & -> & Hh2 & Hf2 & Hc2 & _).
  cbn [fbind]. rewrite Hf2, Hf1. cbn. exists (finish g2). split_and!; try done.
  - rewrite <- (app_nil_r now). apply Hh1. eapply handed_trans; [exact Hh2|].
    by apply handed_same.
  - by rewrite <- Hc1, <- Hc2.
Qed.

(** Or the limit refuses the next record: it is read and nothing more happens. *)
Lemma replay_stop cur now next later g fuel :
  ready cur g → limit_ok g (zlen now) → ¬ limit_ok g (zlen now + 1) →
  tracefile g = file_of (now ++ next :: later) →
  Forall (λ r, writable r ∧ in_range (zlen (m_nis g)) r) (now ++ [next]) →
  Forall (λ r, tr_time r = Clocked.curCycle (clk g) cur) now →
  (length now < fuel)%nat →
  ∃ g', wakeup_from fuel cur g = Some (Ok g') ∧ handed g g' (pending g ++ now) ∧
    announced g' = announced g ∧ consumer g' = consumer g.
Proof.
  intros Hrd Hl Hstop Hf [Hw Hwn]%Forall_app Ht Hfu. apply Forall_cons in Hwn as [[Hwn Hin] _].
  destruct (replay_now cur now (next :: later) g fuel)
    as (g1 & f1 & -> & Hrd1 & Hh1 & Hf1 & Hc1 & Ha1 & C1 & L1 & Hl1); try done.
  rewrite <- L1 in Hin.
  destruct (wakeup_from_step cur g1 f1 _ _ Hrd1 Hf1 Hwn Hin)
    as (g2 & Hh2 & Hn2 & Hf2 & Hc2 & Ha2 & ->).
  destruct (more_allowed (stats g2)) eqn:Em.
  { exfalso. apply Hstop, Hl1. eapply more_allowed_step; [done..|apply Hwn|done]. }
  exists g2. rewrite Ha2, Ha1, Hc2, Hc1. split_and!; try done.
  rewrite <- (app_nil_r now). apply Hh1. by rewrite app_nil_r.
Qed.

(** ** The whole trace *)

Lemma file_of_length rs : (length rs ≤ length (file_of rs))%nat.
Proof.
  unfold file_of. induction rs as [|r rs IH]; cbn [fmap list_fmap concat]; [done|].
  rewrite length_app. cbn [length]. change (list_fmap _ _ show_record rs) with (show_record <$> rs).
  assert (1 ≤ length (show_record r))%nat; [|lia].
  unfold show_record. cbn [fields join]. rewrite length_app. cbn [length]. lia.
Qed.

(** Between two wake-ups of the network the other objects run: they take packets
    from the interfaces and count flits, and change nothing of the replay. *)
Definition elsewhere (g g' : t) : Prop :=
  ∃ nis s, g' = mk nis s (trace_next_packet g) (trace_start_time g) (tracefile g) (clk g)
                  (consumer g) ∧
    zlen nis = zlen (m_nis g) ∧
    NetStats.m_trace_max_packets s = NetStats.m_trace_max_packets (stats g) ∧
    NetStats.trace_num_packets_injected s = NetStats.trace_num_packets_injected (stats g) ∧
    NetStats.trace_num_flits_injected s = NetStats.trace_num_flits_injected (stats g) ∧
    NetStats.end_simulation s = NetStats.end_simulation (stats g).

(** The network's events are processed until none is left, and hand over exactly
    the packets listed, each in the cycle of its time. *)
Inductive replayed (other : t → t) : t → list NetworkTraceRecord → t → Prop :=
| replayed_done g :
    Consumer.m_wakeup_event (consumer g) = None → replayed other g [] g
| replayed_wake g tk g1 now later g2 :
    Consumer.m_wakeup_event (consumer g) = Some tk →
    processCurrentEvent tk g = Ok g1 → handed g g1 now →
    Forall (λ r, tr_time r = Clocked.curCycle (clk g) tk) now →
    replayed other (other g1) later g2 →
    replayed other g (now ++ later) g2.

(** The records to come that the limit lets through. *)
Definition allowed (g : t) (rs : list NetworkTraceRecord) : list NetworkTraceRecord :=
  let limit := NetStats.m_trace_max_packets (stats g) in
  if limit <? 0 then rs
  else take (Z.to_nat (limit + 1 - NetStats.trace_num_packets_injected (stats g) -
                         zlen (pending g))) rs.

Lemma allowed_all g rs : limit_ok g (zlen rs) → allowed g rs = rs.
Proof.
  unfold allowed, limit_ok. intros Hl. case_match eqn:E; [done|]. apply Z.ltb_ge in E.
  apply take_ge. unfold zlen in *. lia.
Qed.

(** The record after those that were let through is refused. *)
Lemma allowed_stop g now next later :
  limit_ok g (zlen now) → ¬ limit_ok g (zlen now + 1) → allowed g (now ++ next :: later) = now.
Proof.
  unfold allowed, limit_ok. intros Hl Hn. case_match eqn:E; [apply Z.ltb_lt in E; tauto|].
  apply take_app_length'. unfold zlen in *. lia.
Qed.

Lemma limit_split g (rs : list NetworkTraceRecord) n :
  limit_ok g 0 → (n ≤ length rs)%nat →
  limit_ok g (Z.of_nat n) ∨
  ∃ now next later, rs = now ++ next :: later ∧ (length now < n)%nat ∧
    limit_ok g (zlen now) ∧ ¬ limit_ok g (zlen now + 1).
Proof.
  intros H0. induction n as [|n IH]; [by left|]. intros Hn.
  destruct IH as [Hl|(now & next & later & E & Hlt & Hno)]; [lia| |].
  2:{ right. exists now, next, later. split_and!; [done|lia|apply Hno..]. }
  destruct (decide (NetStats.m_trace_max_packets (stats g) < 0)); [left; by left|].
  destruct (decide (NetStats.trace_num_packets_injected (stats g) + zlen (pending g) + Z.of_nat (S n)
    ≤ NetStats.m_trace_max_packets (stats g) + 1)); [left; by right|]. right.
  destruct (lookup_lt_is_Some_2 rs n) as [next Hx]; [lia|].
  exists (take n rs), next, (drop (S n) rs).
  assert (zlen (take n rs) = Z.of_nat n) as -> by (unfold zlen; rewrite length_take; lia).
  rewrite length_take. split_and!; [by rewrite take_drop_middle|lia|done|].
  unfold limit_ok. lia.
Qed.

(** After a cycle whose records were let through, with the one after them. *)
Lemma allowed_step g g' now next later :
  handed g g' (pending g ++ now) → pending g' = [next] → limit_ok g (zlen now + 1) →
  allowed g (now ++ next :: later) = now ++ next :: allowed g' later.
Proof.
  intros (_ & _ & M & _ & P & _) Hp Hl. unfold allowed, limit_ok in *.
  rewrite M, P, Hp, zlen_app. case_match eqn:E; [done|]. apply Z.ltb_ge in E.
  destruct Hl as [|Hl]; [lia|]. change (zlen [next]) with 1.
  set (b := Z.to_nat (_ - (_ + (_ + _)) - 1)).
  replace (Z.to_nat _) with (length now + S b)%nat by (subst b; unfold zlen in *; lia).
  by rewrite take_app_add.
Qed.

Lemma elsewhere_limit g g' n : elsewhere g g' → limit_ok g n → limit_ok g' n.
Proof. intros (nis & s & -> & _ & M & P & _). unfold limit_ok, pending. cbn. by rewrite M, P. Qed.

Lemma elsewhere_allowed g g' rs : elsewhere g g' → allowed g' rs = allowed g rs.
Proof. intros (nis & s & -> & _ & M & P & _). unfold allowed, pending. cbn. by rewrite M, P. Qed.

Definition later_than (r1 r2 : NetworkTraceRecord) : Prop := tr_time r1 ≤ tr_time r2.

(** The records of cycle [k] come first. *)
Lemma split_cycle k rs :
  StronglySorted later_than rs → Forall (λ r, k ≤ tr_time r) rs →
  ∃ now later, rs = now ++ later ∧ Forall (λ r, tr_time r = k) now ∧
               Forall (λ r, k < tr_time r) later.
Proof.
  induction 1 as [|r rs Hs IH Hall]; intros Hk; [by exists [], []|].
  apply Forall_cons in Hk as [Hr Hk]. destruct (decide (tr_time r = k)) as [E|E].
  - destruct (IH Hk) as (now & later & -> & Hn & Hl). exists (r :: now), later. auto.
  - exists [], (r :: rs). split; [done|]. split; [done|]. constructor; [lia|].
    eapply Forall_impl; [exact Hall|]. unfold later_than. cbn. lia.
Qed.

Section clock.
  Context (p : Tick) (Hp : 0 < p).

Lemma edge_of_cycle k n : 0 ≤ k → Clocked.clockEdge (Clocked.make p) (k * p) n = (k + n) * p.
Proof.
  intros Hk. rewrite (Clocked.clockEdge_on_edge _ 0 _ k).
  - cbn [Clocked.make Clocked.clockPeriod]. lia.
  - by apply Clocked.make_wf.
  - nia.
  - done.
Qed.

Lemma cycle_of_edge k : 0 ≤ k → Clocked.curCycle (Clocked.make p) (k * p) = k.
Proof.
  intros Hk. unfold Clocked.curCycle.
  destruct (Clocked.update_spec (Clocked.make p) 0 (k * p)) as [-> _];
    [by apply Clocked.make_wf|nia|].
  apply divCeil_spec; [done|]. cbn [Clocked.make Clocked.clockPeriod]. nia.
Qed.

(** A wake-up asked for in a later cycle is scheduled. *)
Lemma schedule_cycle k T c :
  0 ≤ k → Consumer.scheduleEventAbsolute (Clocked.make p) (k * p) (Consumer.mk [] None)
    (Clocked.cyclesToTicks (Clocked.make p) T) = Ok c →
  c = if k <=? T then Consumer.mk [T * p] (Some (T * p)) else Consumer.mk [T * p] None.
Proof.
  intros Hk. unfold Consumer.scheduleEventAbsolute, Clocked.cyclesToTicks.
  cbn [Clocked.make Clocked.clockPeriod Consumer.m_wakeup_ticks Consumer.m_wakeup_event].
  change (Clocked.mk 0 0 p) with (Clocked.make p).
  rewrite edge_of_cycle by done. rewrite Z.add_0_r.
  rewrite (proj2 (divCeil_spec (p * T) p T Hp)) by nia.
  cbn [Consumer.set_insert]. unfold Consumer.scheduleNextWakeup.
  cbn [Consumer.m_wakeup_ticks Consumer.m_wakeup_event Consumer.lower_bound].
  destruct (Z.leb_spec (k * p) (T * p)); destruct (Z.leb_spec k T); try nia.
  - cbn [assert rbind]. rewrite (proj2 (Z.leb_le _ _)) by lia. by intros [= <-].
  - by intros [= <-].
Qed.

(** A wake-up at cycle [k] while the network waits for it. *)
Definition due (k : Z) (g : t) : Prop :=
  0 ≤ k ∧ clk g = Clocked.make p ∧
  consumer g = Consumer.mk [k * p] (Some (k * p)) ∧
  (tr_valid (trace_next_packet g) = true →
   tr_time (trace_next_packet g) = k ∧ 0 ≤ tr_src_id (trace_next_packet g) < zlen (m_nis g)).

Lemma processCurrentEvent_due k g g1 c :
  due k g → wakeup (k * p) (with_consumer g (Consumer.mk [] None)) = Ok g1 →
  clk g1 = clk g → Consumer.scheduleNextWakeup (consumer g1) (k * p) = Ok c →
  processCurrentEvent (k * p) g = Ok (with_consumer g1 c).
Proof.
  intros (Hk & Hc & Hcons & _) Hw Hc1 Hs. unfold processCurrentEvent. rewrite Hcons, Hc.
  cbn [Consumer.m_wakeup_ticks]. rewrite edge_of_cycle by done.
  rewrite Z.add_0_r, Z.eqb_refl. cbn [assert rbind]. rewrite Hw. cbn [rbind].
  rewrite Hc1, Hc, edge_of_cycle by done. rewrite Z.add_0_r, Hs. done.
Qed.

Lemma handed_consumer g g' c c' rs :
  handed (with_consumer g c) g' rs → handed g (with_consumer g' c') rs.
Proof. done. Qed.

(** What the wake-up of a cycle leaves behind. *)
Lemma due_ready k g c : due k g → ready (k * p) (with_consumer g c).
Proof.
  intros (Hk & Hc & _ & Hr) Hv. cbn [with_consumer trace_next_packet clk m_nis] in *.
  rewrite Hc, cycle_of_edge by done. auto.
Qed.

Lemma elsewhere_due k g g' : elsewhere g g' → due k g → due k g'.
Proof. intros (nis & s & -> & Hl & _) (? & ? & ? & Hr). unfold due. cbn. by rewrite Hl. Qed.

Section replay.
  Context (other : t → t) (Hother : ∀ g, elsewhere g (other g)).

(** A cycle after which no event is left. *)
Lemma replay_over k g now g1 :
  due k g → wakeup_from (S (length (tracefile g))) (k * p)
              (with_consumer g (Consumer.mk [] None)) = Some (Ok g1) →
  handed g g1 (pending g ++ now) → consumer g1 = Consumer.mk [] None →
  Forall (λ r, tr_time r = k) now →
  ∃ g', replayed other g (pending g ++ now) g' ∧ announced g' = announced g1.
Proof.
  intros Hd Hg1%settled_Ok Hh Hc1 Ht. pose proof Hd as (Hk & Hc & Hcons & Hr).
  pose proof (processCurrentEvent_due k g g1 (Consumer.mk [] None) Hd Hg1) as Hp1.
  rewrite Hc1 in Hp1.
  destruct (Hother (with_consumer g1 (Consumer.mk [] None)))
    as (nis & s & Ho & _ & _ & _ & _ & Hs).
  exists (other (with_consumer g1 (Consumer.mk [] None))). split.
  - rewrite <- (app_nil_r (pending g ++ now)). econstructor.
    + by rewrite Hcons.
    + apply Hp1; [|done]. apply Hh.
    + exact Hh.
    + apply Forall_app. rewrite Hc, cycle_of_edge by done. split; [|done].
      unfold pending. destruct (tr_valid _); [|done]. repeat constructor. by apply Hr.
    + constructor. by rewrite Ho.
  - unfold announced. rewrite Ho. cbn [stats]. by rewrite Hs.
Qed.

(** The last cycle of the trace. *)
Lemma replay_last k g now :
  due k g → limit_ok g (zlen now) → tracefile g = file_of now →
  Forall (λ r, writable r ∧ in_range (zlen (m_nis g)) r) now →
  Forall (λ r, tr_time r = k) now →
  ∃ g', replayed other g (pending g ++ now) g' ∧ announced g' = Some true.
Proof.
  intros Hd Hl Hf Hw Ht. pose proof Hd as (Hk & Hc & Hcons & Hr).
  destruct (replay_end (k * p) now (with_consumer g (Consumer.mk [] None))
              (S (length (tracefile g)))) as (g1 & Hg1 & Hh & He & Hc1); try done.
  { by apply due_ready. }
  { cbn [clk with_consumer]. by rewrite Hc, cycle_of_edge. }
  { rewrite Hf. pose proof (file_of_length now). lia. }
  destruct (replay_over k g now g1) as (g' & Hr' & Ha'); try done.
  exists g'. split; [done|]. by rewrite Ha'.
Qed.

(** The cycle in which the limit is reached. *)
Lemma replay_limit k g now next later :
  due k g → limit_ok g (zlen now) → ¬ limit_ok g (zlen now + 1) →
  tracefile g = file_of (now ++ next :: later) →
  Forall (λ r, writable r ∧ in_range (zlen (m_nis g)) r) (now ++ [next]) →
  Forall (λ r, tr_time r = k) now →
  ∃ g', replayed other g (pending g ++ now) g' ∧ announced g' = announced g.
Proof.
  intros Hd Hl Hn Hf Hw Ht. pose proof Hd as (Hk & Hc & Hcons & Hr).
  destruct (replay_stop (k * p) now next later (with_consumer g (Consumer.mk [] None))
              (S (length (tracefile g)))) as (g1 & Hg1 & Hh & Ha & Hc1); try done.
  { by apply due_ready. }
  { cbn [clk with_consumer]. by rewrite Hc, cycle_of_edge. }
  { rewrite Hf. pose proof (file_of_length (now ++ next :: later)) as Hlen.
    rewrite length_app in Hlen. lia. }
  destruct (replay_over k g now g1) as (g' & Hr' & Ha'); try done.
  exists g'. split; [done|]. by rewrite Ha'.
Qed.

(** A cycle that is not the last: the network waits for the next record's. *)
Lemma replay_cycle k g now next later :
  due k g → limit_ok g (zlen now + 1) → tracefile g = file_of (now ++ next :: later) →
  Forall (λ r, writable r ∧ in_range (zlen (m_nis g)) r) (now ++ [next]) →
  Forall (λ r, tr_time r = k) now → k < tr_time next →
  ∃ g', processCurrentEvent (k * p) g = Ok g' ∧ handed g g' (pending g ++ now) ∧
    due (tr_time next) g' ∧ pending g' = [next] ∧ tracefile g' = file_of later ∧
    limit_ok g' 0 ∧ announced g' = announced g.
Proof.
  intros Hd Hl Hf Hw Ht Hn. pose proof Hd as (Hk & Hc & Hcons & Hr).
  destruct (replay_from (k * p) now next later (with_consumer g (Consumer.mk [] None))
              (S (length (tracefile g))))
    as (g1 & Hg1%settled_Ok & Hh & Hn1 & Hf1 & Ha1 & Hl1 & Hs); try done.
  { by apply due_ready. }
  { cbn [clk with_consumer]. by rewrite Hc, cycle_of_edge. }
  { cbn [clk with_consumer]. rewrite Hc, cycle_of_edge by done. lia. }
  { rewrite Hf. pose proof (file_of_length (now ++ next :: later)) as Hlen.
    rewrite length_app in Hlen. lia. }
  cbn [with_consumer clk consumer] in Hs. rewrite Hc in Hs. apply schedule_cycle in Hs; [|done].
  rewrite (proj2 (Z.leb_le _ _)) in Hs by lia.
  apply Forall_app in Hw as [_ [[Hwn Hi] _]%Forall_cons].
  exists (with_consumer g1 (consumer g1)). split_and!; [|exact Hh| | |done| |done].
  - eapply processCurrentEvent_due; [done|done|apply Hh|]. rewrite Hs.
    unfold Consumer.scheduleNextWakeup. cbn [Consumer.m_wakeup_ticks Consumer.lower_bound].
    rewrite (proj2 (Z.leb_le _ _)) by nia. cbn [assert rbind Consumer.m_wakeup_event].
    by rewrite Z.ltb_irrefl, (proj2 (Z.leb_le _ _)) by nia.
  - destruct Hh as (L1 & C1 & _). cbn [with_consumer m_nis clk] in L1, C1.
    unfold due. cbn [with_consumer m_nis clk consumer trace_next_packet].
    rewrite C1, L1, Hn1. split_and!; try done; [lia|].
    intros _. split; [done|]. apply Hi.
  - unfold pending. cbn [with_consumer trace_next_packet]. rewrite Hn1.
    by destruct Hwn as [-> _].
  - apply Hl1. by rewrite Z.add_0_r.
Qed.

Lemma replay_all k g rs :
  due k g → limit_ok g 0 → tracefile g = file_of rs →
  Forall (λ r, writable r ∧ in_range (zlen (m_nis g)) r) rs →
  StronglySorted later_than rs → Forall (λ r, k ≤ tr_time r) rs →
  ∃ g', replayed other g (pending g ++ allowed g rs) g' ∧
    (allowed g rs = rs → announced g' = Some true) ∧
    (allowed g rs ≠ rs → announced g' = announced g).
Proof.
  remember (length rs) as n eqn:En. revert k g rs En.
  induction (lt_wf n) as [n _ IH]. intros k g rs -> Hd H0 Hf Hw Hs Hk.
  destruct (split_cycle k rs Hs Hk) as (now & later & -> & Hnow & Hlater).
  set (m := (length now + match later with [] => 0 | _ => 1 end)%nat).
  destruct (limit_split g (now ++ later) m H0) as [Hl|(pre & x & post & E & Hlt & Hl & Hstop)].
  { subst m. rewrite length_app. destruct later; cbn; lia. }
  2:{ rewrite E in *. rewrite allowed_stop by done.
      destruct (replay_limit k g pre x post) as (g' & Hr & Ha); try done.
      - replace (pre ++ x :: post) with ((pre ++ [x]) ++ post) in Hw by by rewrite <- app_assoc.
        by apply Forall_app in Hw as [Hw _].
      - assert (length pre ≤ length now)%nat by (subst m; destruct later; lia).
        apply (f_equal (take (length pre))) in E. rewrite take_app_le, take_app_length in E by done.
        rewrite <- E. by apply Forall_take.
      - exists g'. split; [done|]. split; [|done]. intros Heq%(f_equal length).
        rewrite length_app in Heq. cbn in Heq. lia. }
  destruct later as [|next later].
  { rewrite app_nil_r in *. replace (Z.of_nat m) with (zlen now) in Hl by (unfold zlen; lia).
    rewrite allowed_all by done. destruct (replay_last k g now) as (g' & Hr & Ha); try done.
    by exists g'. }
  replace (Z.of_nat m) with (zlen now + 1) in Hl by (unfold zlen; lia).
  apply Forall_cons in Hlater as [Hnext Hlater].
  replace (now ++ next :: later) with ((now ++ [next]) ++ later) in Hw
    by by rewrite <- app_assoc.
  apply Forall_app in Hw as [Hw1 Hw2].
  destruct (replay_cycle k g now next later Hd Hl Hf Hw1 Hnow Hnext)
    as (g1 & Hg1 & Hh & Hd1 & Hp1 & Hf1 & Hl1 & Ha1).
  pose proof (Hother g1) as Hel. pose proof Hel as (nis & s & Ho & Hlen & _ & _ & _ & Hend).
  apply StronglySorted_app_1_r in Hs. apply StronglySorted_inv in Hs as [Hs Hall].
  destruct (IH (length later) ltac:(rewrite length_app; cbn; lia) (tr_time next) (other g1)
              later eq_refl) as (g2 & Hrep & He1 & He2); try done.
  { by eapply elsewhere_due. }
  { by eapply elsewhere_limit. }
  { by rewrite Ho. }
  { rewrite Ho. cbn [m_nis]. rewrite Hlen. by rewrite (proj1 Hh). }
  rewrite (allowed_step g g1 now next later Hh Hp1 Hl).
  rewrite (elsewhere_allowed g1 (other g1) later Hel) in *.
  exists g2. split; [|split].
  - pose proof Hd as (Hk0 & Hc & Hcons & Hr). rewrite app_assoc. econstructor.
    + by rewrite Hcons.
    + exact Hg1.
    + exact Hh.
    + apply Forall_app. rewrite Hc, cycle_of_edge by done. split; [|done].
      unfold pending. destruct (tr_valid _); [|done]. repeat constructor. by apply Hr.
    + replace (pending (other g1)) with [next] in Hrep; [done|].
      rewrite Ho. unfold pending in *. by cbn [trace_next_packet].
  - intros E%(inj (app now)). injection E as E. auto.
  - intros E. rewrite He2 by (contradict E; by rewrite E).
    unfold announced in *. rewrite Ho. cbn [stats]. congruence.
Qed.

End replay.

End clock.

(** A line the constructor skips. *)
Definition header_line (h : Chars) : Prop :=
  ∃ body, h = body ++ [newline] ∧ Forall (λ c, c ≠ newline) body ∧ zlen h < 1000.

Lemma fgets_header h rest : header_line h → fgets 1000 (h ++ rest) = Some (h, rest).
Proof.
  intros (body & -> & Hb & Hl). unfold fgets.
  destruct ((body ++ [newline]) ++ rest) eqn:E; [by destruct body|].
  rewrite <- E, line_of_body; [done|done|]. rewrite zlen_app in Hl.
  unfold zlen in Hl. cbn [length] in Hl. lia.
Qed.

Lemma make_due p nis s h rs :
  0 < p → header_line h →
  ∃ g, make 0 nis s (Clocked.make p) (h ++ file_of rs) = Ok g ∧ due p 1 g ∧
    pending g = [] ∧ tracefile g = file_of rs ∧ zlen (m_nis g) = zlen nis ∧
    NetStats.m_trace_max_packets (stats g) = NetStats.m_trace_max_packets s ∧
    NetStats.trace_num_packets_injected (stats g) = 0 ∧
    announced g = NetStats.end_simulation s.
Proof.
  intros Hp Hh. unfold make. rewrite fgets_header by done.
  pose proof (cycle_of_edge p Hp 0 ltac:(lia)) as E. change (0 * p) with 0 in E. rewrite E.
  match goal with |- context [scheduleWakeupAbsolute ?c ?g ?n] =>
    destruct (scheduleWakeupAbsolute_spec c g n) as (g1 & -> & Hhd & Hn & Ht & Ha & Hs) end.
  cbn [clk consumer] in Hs. change Consumer.make with (Consumer.mk [] None) in Hs.
  apply (schedule_cycle p Hp 0) in Hs; [|lia].
  destruct Hhd as (L & C & M & _ & P & _). cbn [m_nis clk stats] in L, C, M, P.
  exists g1. unfold due, pending. rewrite Hn, C, M, P, Hs, Ht, L, Ha. done.
Qed.

(** The records of a trace that are handed over: all of them without a limit, one
    more than the limit of them with one. *)
Definition handed_over (limit : Z) (rs : list NetworkTraceRecord) : list NetworkTraceRecord :=
  if limit <? 0 then rs else take (Z.to_nat (limit + 1)) rs.

(** C8: the trace is replayed on time and as far as the limit on the packets goes.
    A network built on a trace whose records are well formed and in order of time,
    none before cycle 1, wakes up until no event is left, whatever the other
    objects do between its wake-ups.  Without a limit (a negative one) every record
    of the file is handed to the interface it names, in the order of the file and
    in the cycle of its time, and nothing else is; with a limit [m] this holds of
    the first [m + 1] records.  When these are all the records the end of the
    simulation is announced, and otherwise the announcement is left as it was. *)
Theorem trace_replay p nis s h rs other :
  let sent := handed_over (NetStats.m_trace_max_packets s) rs in
  0 < p → header_line h →
  Forall (λ r, writable r ∧ in_range (zlen nis) r) rs →
  StronglySorted later_than rs → Forall (λ r, 1 ≤ tr_time r) rs →
  (∀ g, elsewhere g (other g)) →
  ∃ g g', make 0 nis s (Clocked.make p) (h ++ file_of rs) = Ok g ∧
    replayed other g sent g' ∧
    (sent = rs → NetStats.end_simulation (stats g') = Some true) ∧
    (sent ≠ rs → NetStats.end_simulation (stats g') = NetStats.end_simulation s).
Proof.
  intros sent Hp Hh Hw Hs Ht Ho.
  destruct (make_due p nis s h rs Hp Hh) as (g & Hg & Hd & Hpe & Hf & Hl & M & P & Ha).
  rewrite <- Hl in Hw.
  assert (sent = allowed g rs) as ->.
  { unfold sent, handed_over, allowed. rewrite M, P, Hpe. change (zlen (@nil NetworkTraceRecord)) with 0.
    by rewrite !Z.sub_0_r. }
  destruct (replay_all p Hp other Ho 1 g rs Hd) as (g' & Hr & He1 & He2); try done.
  { unfold limit_ok. rewrite M, P, Hpe. change (zlen (@nil NetworkTraceRecord)) with 0. lia. }
  rewrite Hpe, Ha in *. by exists g, g'.
Qed.

(** C38: a record whose time has passed stops the replay, unless the limit refuses
    it: the wake-up it asks for lies in the past, so no event is scheduled and the
    records from it on are never handed over, whether or not later ones are due. *)
Theorem late_record_stops_replay p k g now next later :
  0 < p → due p k g → limit_ok g (zlen now + 1) →
  tracefile g = file_of (now ++ next :: later) →
  Forall (λ r, writable r ∧ in_range (zlen (m_nis g)) r) (now ++ [next]) →
  Forall (λ r, tr_time r = k) now → tr_time next < k →
  ∃ g', processCurrentEvent (k * p) g = Ok g' ∧ handed g g' (pending g ++ now) ∧
    tracefile g' = file_of later ∧ Consumer.m_wakeup_event (consumer g') = None.
Proof.
  intros Hp Hd Hl Hf Hw Ht Hn. pose proof Hd as (Hk & Hc & Hcons & Hr).
  destruct (replay_from (k * p) now next later (with_consumer g (Consumer.mk [] None))
              (S (length (tracefile g))))
    as (g1 & Hg1%settled_Ok & Hh & Hn1 & Hf1 & _ & _ & Hs); try done.
  { by apply due_ready. }
  { cbn [clk with_consumer]. by rewrite Hc, cycle_of_edge. }
  { cbn [clk with_consumer]. rewrite Hc, cycle_of_edge by done. lia. }
  { rewrite Hf. pose proof (file_of_length (now ++ next :: later)) as Hlen.
    rewrite length_app in Hlen. lia. }
  cbn [with_consumer clk consumer] in Hs. rewrite Hc in Hs.
  apply schedule_cycle in Hs; [|done|done]. rewrite (proj2 (Z.leb_gt _ _)) in Hs by lia.
  exists (with_consumer g1 (consumer g1)). split_and!; [|exact Hh|done|by rewrite Hs].
  eapply processCurrentEvent_due; [done|done|done|apply Hh|]. rewrite Hs.
  unfold Consumer.scheduleNextWakeup. cbn [Consumer.m_wakeup_ticks Consumer.lower_bound].
  by rewrite (proj2 (Z.leb_gt _ _)) by nia.
Qed.

(** C39: [wakeup()] terminates.  Every call that calls it again has read at least a
    character of the trace, so it returns, with a result or a failure, within as
    many calls as the file has characters, and one; that is what [wakeup] is.  A
    recursion that does not end runs out of any fuel, which is [None]. *)
Theorem wakeup_terminates cur g fuel :
  (length (tracefile g) < fuel)%nat → wakeup_from fuel cur g = Some (wakeup cur g).
Proof.
  intros Hf. destruct (wakeup_from_ends cur (S (length (tracefile g))) g) as [r Hr]; [lia|].
  unfold wakeup. rewrite Hr. apply (wakeup_from_more _ _ _ _ _ Hr). lia.
Qed.

(** ** The limit on the packets *)

Lemma inject_count cur g g' :
  inject cur g = Ok g' →
  NetStats.m_trace_max_packets (stats g') = NetStats.m_trace_max_packets (stats g) ∧
  NetStats.trace_num_packets_injected (stats g) ≤
    NetStats.trace_num_packets_injected (stats g') ≤
    NetStats.trace_num_packets_injected (stats g) + 1 ∧ consumer g' = consumer g.
Proof.
  unfold inject. destruct (tr_valid _); [|intros [= <-]; split_and!; done || lia].
  intros H1. step_bind H1 as u Hu. step_bind H1 as nis Hn. injection H1 as <-.
  cbn. split_and!; done || lia.
Qed.

Lemma packet_limit_from fuel cur g g' :
  let limit := NetStats.m_trace_max_packets (stats g) in
  0 ≤ limit → NetStats.trace_num_packets_injected (stats g) ≤ limit →
  wakeup_from fuel cur g = Some (Ok g') →
  NetStats.trace_num_packets_injected (stats g') ≤ limit + 1 ∧
  (NetStats.trace_num_packets_injected (stats g') = limit + 1 → consumer g' = consumer g).
Proof.
  cbv zeta. revert g. induction fuel as [|fuel IH]; intros g Hl Hi; [done|].
  cbn [wakeup_from]. intros H1. step_bind H1 as g1 Hg1.
  apply inject_count in Hg1 as (M1 & P1 & C1).
  destruct (fgets _ _) as [[line rest]|].
  2:{ injection H1 as <-. cbn. rewrite C1. split; [lia|done]. }
  destruct (line_tokens line) as [|tok toks].
  { injection H1 as <-. cbn. rewrite C1. split; [lia|done]. }
  step_bind H1 as g2 Hg2. unfold accept in Hg2. step_bind Hg2 as st Hst.
  step_bind Hg2 as r Hr. injection Hg2 as <-. cbn [stats trace_next_packet clk] in H1.
  unfold more_allowed in H1. rewrite M1, (proj2 (Z.ltb_ge _ _) Hl) in H1. cbn [orb] in H1.
  destruct (Z.leb_spec (NetStats.trace_num_packets_injected (stats g1))
              (NetStats.m_trace_max_packets (stats g))) as [Hle|Hgt].
  2:{ injection H1 as <-. cbn. rewrite C1. split; [lia|done]. }
  destruct (tr_time _ =? _).
  - apply IH in H1; cbn [stats consumer] in *; rewrite ?M1, ?C1 in *; try lia. done.
  - destruct (scheduleWakeupAbsolute_spec cur
      (mk (m_nis g1) (stats g1) (clip_ids (zlen (m_nis g1)) r) st rest (clk g1)
          (consumer g1)) (tr_time (clip_ids (zlen (m_nis g1)) r))) as (g3 & E & Hh & _).
    rewrite E in H1. injection H1 as <-. destruct Hh as (_ & _ & _ & _ & Hp & _).
    cbn [stats] in Hp. unfold zlen in Hp. cbn [length] in Hp. split; lia.
Qed.

(** With a limit of [m] packets a wake-up never takes the count past [m + 1],
    and once it is there no further wake-up is asked for. *)
Theorem packet_limit cur g g' :
  0 ≤ NetStats.m_trace_max_packets (stats g) →
  NetStats.trace_num_packets_injected (stats g) ≤ NetStats.m_trace_max_packets (stats g) →
  wakeup cur g = Ok g' →
  NetStats.trace_num_packets_injected (stats g') ≤
    NetStats.m_trace_max_packets (stats g) + 1 ∧
  (NetStats.trace_num_packets_injected (stats g') =
     NetStats.m_trace_max_packets (stats g) + 1 → consumer g' = consumer g).
Proof. intros Hl Hi Hw%settled_Ok. by eapply packet_limit_from. Qed.

(** ** A trace of three packets *)

Module ReplayExample.

Definition nis : list NetworkInterface.t :=
  [NetworkInterface.make 0 1 50000 (Clocked.make 1000);
   NetworkInterface.make 1 1 50000 (Clocked.make 1000)].

Definition packet (time src dest : Z) : NetworkTraceRecord :=
  mkTraceRecord true time src src dest dest 0 4 0 0 1.

Definition packets : list NetworkTraceRecord := [packet 1 0 1; packet 1 1 0; packet 7 0 1].

Lemma packets_ok : Forall (λ r, writable r ∧ in_range (zlen nis) r) packets.
Proof.
  repeat constructor; cbn; try lia.
Qed.

Lemma packets_sorted : StronglySorted later_than packets.
Proof. unfold packets, later_than. repeat constructor; cbn; lia. Qed.

Lemma elsewhere_refl g : elsewhere g g.
Proof. exists (m_nis g), (stats g). by destruct g. Qed.

(** With the limit the driver sets, one less than the packets, all three are sent;
    with a smaller one the last is not, and the end is not announced. *)
Lemma trace_replay_witness :
  (∃ g g', make 0 nis (NetStats.make 1 2 2) (Clocked.make 1000)
             ([newline] ++ file_of packets) = Ok g ∧
     replayed id g packets g' ∧ NetStats.end_simulation (stats g') = Some true) ∧
  (∃ g g', make 0 nis (NetStats.make 1 2 1) (Clocked.make 1000)
             ([newline] ++ file_of packets) = Ok g ∧
     replayed id g [packet 1 0 1; packet 1 1 0] g' ∧
     NetStats.end_simulation (stats g') = None).
Proof.
  assert (Hh : header_line [newline]) by (exists []; repeat constructor).
  assert (Ht : Forall (λ r, 1 ≤ tr_time r) packets)
    by (unfold packets; repeat constructor; cbn; lia).
  split.
  - destruct (trace_replay 1000 nis (NetStats.make 1 2 2) [newline] packets id
                ltac:(lia) Hh packets_ok packets_sorted Ht elsewhere_refl)
      as (g & g' & Hg & Hr & He & _).
    exists g, g'. split; [exact Hg|]. split; [exact Hr|]. apply He. reflexivity.
  - destruct (trace_replay 1000 nis (NetStats.make 1 2 1) [newline] packets id
                ltac:(lia) Hh packets_ok packets_sorted Ht elsewhere_refl)
      as (g & g' & Hg & Hr & _ & He).
    exists g, g'. split; [exact Hg|]. split; [exact Hr|]. apply He. discriminate.
Defined.

(** The network waiting for cycle 7, with a record of cycle 1 to come. *)
Definition waiting (max : Z) (file : Chars) : t :=
  mk nis (NetStats.make 1 2 max) (packet 7 0 1) 0 file (Clocked.make 1000)
     (Consumer.mk [7000] (Some 7000)).

Lemma late_record_stops_replay_witness :
  ∃ g', processCurrentEvent 7000 (waiting (-1) (file_of [packet 1 1 0; packet 9 0 1])) = Ok g' ∧
    tracefile g' = file_of [packet 9 0 1] ∧ Consumer.m_wakeup_event (consumer g') = None.
Proof.
  destruct (late_record_stops_replay 1000 7
    (waiting (-1) (file_of [packet 1 1 0; packet 9 0 1])) [] (packet 1 1 0) [packet 9 0 1])
    as (g' & H1 & _ & H2 & H3).
  - lia.
  - unfold due. cbn. split_and!; try done; lia.
  - left. reflexivity.
  - reflexivity.
  - repeat constructor; cbn; lia.
  - constructor.
  - cbn. lia.
  - exists g'. split; [exact H1|]. split; [exact H2|exact H3].
Defined.

(** Three packets of cycle 7, then the end of the file: three calls of [wakeup()] call
    it again. *)
Lemma wakeup_terminates_witness :
  let g := waiting (-1) (file_of [packet 7 1 0; packet 7 0 1; packet 7 1 0]) in
  wakeup_from 1000 7000 g = Some (wakeup 7000 g) ∧ wakeup_from 3 7000 g = None ∧
  NetStats.trace_num_packets_injected <$> (stats <$> (wakeup_from 4 7000 g ≫=
    λ r, match r with Ok g' => Some g' | Err _ => None end)) = Some 4.
Proof.
  intros g. split; [|split; vm_compute; reflexivity].
  apply (wakeup_terminates 7000 g 1000). apply Nat.ltb_lt. vm_compute. reflexivity.
Defined.

Lemma limited :
  ∃ g', wakeup 7000 (waiting 0 (file_of [packet 9 0 1])) = Ok g' ∧
    NetStats.trace_num_packets_injected (stats g') = 1.
Proof. eexists. split; [vm_compute; reflexivity|vm_compute; reflexivity]. Qed.

(** With a limit of 0 packets one is injected. *)
Lemma packet_limit_witness :
  ∃ g', wakeup 7000 (waiting 0 (file_of [packet 9 0 1])) = Ok g' ∧
    NetStats.trace_num_packets_injected (stats g') = 1 ∧
    consumer g' = consumer (waiting 0 (file_of [packet 9 0 1])).
Proof.
  destruct limited as (g' & H1 & H2). exists g'. split; [exact H1|]. split; [exact H2|].
  refine (proj2 (packet_limit 7000 (waiting 0 (file_of [packet 9 0 1])) g' _ _ H1) H2);
    cbn; lia.
Defined.

End ReplayExample.
