(* ===== verification/Network.v ===== *)
(** * The base class of networks

    [network/Network.{hh,cc}]: the numbering of the nodes of a network, the
    queues between the controllers and the network, and the sizes of messages.  A
    [MessageBuffer*] is a number, the null pointer is [None]; the controllers,
    which the build generates, call [setToNetQueue] and [setFromNetQueue] while
    they are connected. *)

From S2P Require Import Prelude.
From S2P Require Import NetDest.

(** The constants of [MessageSizeType] the sources name; any other makes
    [MessageSizeType_to_int] panic. *)
Inductive MessageSizeType :=
| Control | Request_Control | Reissue_Control | Response_Control | Writeback_Control
| Broadcast_Control | Multicast_Control | Forwarded_Control | Invalidate_Control
| Unblock_Control | Persistent_Control | Completion_Control
| Data | Response_Data | ResponseLocal_Data | ResponseL2hit_Data | Writeback_Data
| OtherSize.

Module Network.

Record t := mk {
  m_nodes : Z;
  m_virtual_networks : Z;
  m_control_msg_size : Z;
  m_data_msg_size : Z;
  m_toNetQueues : list (list (option Z));
  m_fromNetQueues : list (list (option Z));
  m_ordered : list bool;
  m_vnet_type_names : list string;
  globalToLocalMap : gmap Z Z;
}.

Section Network.
  Context `{MachineTypes}.

(** [localNodeVersions[mach]]: the versions of the controllers of type [mach] in
    the order of the external links; an external link is given by the type and
    the version of its controller. *)
Definition versions (ext_links : list (Z * Z)) (mach : Z) : list Z :=
  snd <$> filter (λ x, x.1 = mach) ext_links.

(** [std::unordered_map::emplace] *)
Definition emplace (m : gmap Z Z) (k v : Z) : gmap Z Z :=
  match m !! k with Some _ => m | None => <[k := v]> m end.

(** The inner loop, over the versions of a type. *)
Fixpoint number_versions (mach : Z) (vers : list Z) (st : gmap Z Z * Z) : gmap Z Z * Z :=
  match vers with
  | [] => st
  | ver :: vers' =>
      let '(m, local_node_id) := st in
      let global_node_id := MachineType_base_number mach + ver in
      number_versions mach vers' (emplace m global_node_id local_node_id, local_node_id + 1)
  end.

(** The outer loop, over [n] types from [i] on. *)
Fixpoint number_types (ext_links : list (Z * Z)) (i : Z) (n : nat) (st : gmap Z Z * Z)
    : gmap Z Z * Z :=
  match n with
  | O => st
  | S n' => number_types ext_links (i + 1) n' (number_versions i (versions ext_links i) st)
  end.

Definition number_nodes (ext_links : list (Z * Z)) : gmap Z Z * Z :=
  number_types ext_links 0 (Z.to_nat (MachineType_base_level MachineType_NUM)) (∅, 0).

(** [Network(p)], up to the calls of [initNetQueues]. *)
Definition make (number_of_virtual_networks control_msg_size data_msg_size
    block_size_bytes : Z) (ext_links : list (Z * Z)) : result t :=
  _ ← fatal_if (block_size_bytes <? data_msg_size);
  let '(m, nodes) := number_nodes ext_links in
  _ ← assert (negb (nodes =? 0));
  _ ← assert (negb (number_of_virtual_networks =? 0));
  let vnets := Z.to_nat number_of_virtual_networks in
  Ok (mk nodes number_of_virtual_networks control_msg_size
        (wrap32 (data_msg_size + control_msg_size))
        (replicate (Z.to_nat nodes) []) (replicate (Z.to_nat nodes) [])
        (replicate vnets false) (replicate vnets "") m).

Definition getLocalNodeID (net : t) (global_id : Z) : result Z :=
  match globalToLocalMap net !! global_id with
  | Some l => Ok l
  | None => Err AssertFailed
  end.

Definition MessageSizeType_to_int (net : t) (size_type : MessageSizeType) : result Z :=
  match size_type with
  | Control | Request_Control | Reissue_Control | Response_Control | Writeback_Control
  | Broadcast_Control | Multicast_Control | Forwarded_Control | Invalidate_Control
  | Unblock_Control | Persistent_Control | Completion_Control =>
      Ok (m_control_msg_size net)
  | Data | Response_Data | ResponseLocal_Data | ResponseL2hit_Data | Writeback_Data =>
      Ok (m_data_msg_size net)
  | OtherSize => Err Panicked
  end.

(** The two numbers are compared as unsigned ones. *)
Definition checkNetworkAllocation (net : t) (local_id : Z) (ordered : bool)
    (network_num : Z) (vnet_type : string) : result t :=
  _ ← fatal_if (m_nodes net <=? wrap32 local_id);
  _ ← fatal_if (m_virtual_networks net <=? wrap32 network_num);
  o ← (if ordered then vset (m_ordered net) network_num true else Ok (m_ordered net));
  names ← vset (m_vnet_type_names net) network_num vnet_type;
  Ok (mk (m_nodes net) (m_virtual_networks net) (m_control_msg_size net)
        (m_data_msg_size net) (m_toNetQueues net) (m_fromNetQueues net) o names
        (globalToLocalMap net)).

(** [while (v.size() <= network_num) v.push_back(nullptr); v[network_num] = b] *)
Definition put_queue (network_num b : Z) (q : list (option Z)) : result (list (option Z)) :=
  vset (q ++ replicate (Z.to_nat (network_num + 1 - zlen q)) None) network_num (Some b).

Definition setToNetQueue (net : t) (global_id : Z) (ordered : bool) (network_num : Z)
    (vnet_type : string) (b : Z) : result t :=
  local_id ← getLocalNodeID net global_id;
  net ← checkNetworkAllocation net local_id ordered network_num vnet_type;
  qs ← vupd (m_toNetQueues net) local_id (put_queue network_num b);
  Ok (mk (m_nodes net) (m_virtual_networks net) (m_control_msg_size net)
        (m_data_msg_size net) qs (m_fromNetQueues net) (m_ordered net)
        (m_vnet_type_names net) (globalToLocalMap net)).

Definition setFromNetQueue (net : t) (global_id : Z) (ordered : bool) (network_num : Z)
    (vnet_type : string) (b : Z) : result t :=
  local_id ← getLocalNodeID net global_id;
  net ← checkNetworkAllocation net local_id ordered network_num vnet_type;
  qs ← vupd (m_fromNetQueues net) local_id (put_queue network_num b);
  Ok (mk (m_nodes net) (m_virtual_networks net) (m_control_msg_size net)
        (m_data_msg_size net) (m_toNetQueues net) qs (m_ordered net)
        (m_vnet_type_names net) (globalToLocalMap net)).

End Network.

End Network.

(** ** The numbering of the nodes *)

Module NetworkFacts.
Import Network.

Section facts.
  Context `{MachineTypeLaws}.

(** The global numbers in the order the constructor meets them. *)
Fixpoint order (ext : list (Z * Z)) (i : Z) (n : nat) : list Z :=
  match n with
  | O => []
  | S n' => ((λ v, MachineType_base_number i + v) <$> versions ext i) ++ order ext (i + 1) n'
  end.

Fixpoint number_list (l : list Z) (st : gmap Z Z * Z) : gmap Z Z * Z :=
  match l with
  | [] => st
  | g :: l' => number_list l' (emplace st.1 g st.2, st.2 + 1)
  end.

Lemma number_list_app l1 l2 st : number_list (l1 ++ l2) st = number_list l2 (number_list l1 st).
Proof. revert st. induction l1 as [|g l1 IH]; intros st; cbn; [done|]. apply IH. Qed.

Lemma number_versions_list mach vers st :
  number_versions mach vers st =
    number_list ((λ v, MachineType_base_number mach + v) <$> vers) st.
Proof.
  revert st. induction vers as [|v vers IH]; intros [m k]; cbn; [done|]. apply IH.
Qed.

Lemma number_types_list ext i n st :
  number_types ext i n st = number_list (order ext i n) st.
Proof.
  revert i st. induction n as [|n IH]; intros i st; cbn [number_types order]; [done|].
  by rewrite IH, number_list_app, number_versions_list.
Qed.

Lemma number_list_spec l m k :
  NoDup l → (∀ g, g ∈ l → m !! g = None) →
  (number_list l (m, k)).2 = k + zlen l ∧
  ∀ g j, (number_list l (m, k)).1 !! g = Some j ↔
         m !! g = Some j ∨ (k ≤ j ∧ zlookup l (j - k) = Some g).
Proof.
  intros Hnd. revert m k. induction Hnd as [|g l Hg Hnd IH]; intros m k Hm; cbn [number_list].
  - split; [unfold zlen; cbn; lia|]. intros g j. cbn [fst]. unfold zlookup.
    rewrite lookup_nil. destruct (0 <=? j - k); naive_solver.
  - cbn [fst snd]. unfold emplace. rewrite (Hm g) by left.
    destruct (IH (<[g := k]> m) (k + 1)) as [IH1 IH2].
    { intros g' Hg'. rewrite lookup_insert_ne by set_solver. apply Hm. by right. }
    split; [rewrite IH1; unfold zlen; cbn; lia|]. intros g' j. rewrite IH2.
    rewrite lookup_insert. unfold zlookup.
    destruct (Z.leb_spec 0 (j - (k + 1))), (Z.leb_spec 0 (j - k)); try lia.
    + replace (Z.to_nat (j - k)) with (S (Z.to_nat (j - (k + 1)))) by lia. cbn [lookup list_lookup].
      case_decide as E; [subst g'|].
      * rewrite (Hm g) by left. split; [|naive_solver lia].
        intros [[= <-]|[? ?]]; [lia|]. right. split; [lia|done].
      * naive_solver lia.
    + replace (j - k) with 0 by lia. cbn [lookup list_lookup Z.to_nat].
      assert (j = k) by lia. subst j. case_decide as E; [subst g'|]; naive_solver lia.
    + case_decide as E; [subst g'; rewrite (Hm g) by left|]; naive_solver lia.
Qed.

(** The controllers of a network: each once, of an existing type and version. *)
Definition controllers (ext : list (Z * Z)) : Prop :=
  NoDup ext ∧
  Forall (λ x, 0 ≤ x.1 < MachineType_NUM ∧ 0 ≤ x.2 < MachineType_base_count x.1) ext.

Definition global_id (x : Z * Z) : Z := MachineType_base_number x.1 + x.2.

Lemma elem_of_versions ext mach v : v ∈ versions ext mach ↔ (mach, v) ∈ ext.
Proof.
  unfold versions. rewrite list_elem_of_fmap. split.
  - intros ([t u] & -> & [Ht Hin]%list_elem_of_filter). cbn in *. by subst.
  - intros Hin. exists (mach, v). split; [done|]. by apply list_elem_of_filter.
Qed.

Lemma elem_of_order ext i n g :
  g ∈ order ext i n ↔ ∃ x, x ∈ ext ∧ i ≤ x.1 < i + Z.of_nat n ∧ g = global_id x.
Proof.
  revert i. induction n as [|n IH]; intros i; cbn [order].
  - split; [set_solver|]. intros (x & _ & ? & _). lia.
  - rewrite elem_of_app, IH, list_elem_of_fmap. split.
    + intros [(v & -> & Hv%elem_of_versions)|(x & Hx & Hr & ->)].
      * exists (i, v). cbn. split_and!; [done|lia|lia|done].
      * exists x. split_and!; [done|lia|lia|done].
    + intros ([t v] & Hx & Hr & ->). cbn [fst] in Hr.
      destruct (decide (t = i)) as [->|Hne].
      * left. exists v. split; [done|]. by apply elem_of_versions.
      * right. exists (t, v). cbn. split_and!; [done|lia|lia|done].
Qed.

(** The controllers of a type have the numbers from its base number to the next. *)
Lemma global_id_range x :
  0 ≤ x.1 < MachineType_NUM → 0 ≤ x.2 < MachineType_base_count x.1 →
  MachineType_base_number x.1 ≤ global_id x < MachineType_base_number (x.1 + 1).
Proof. intros Ht Hv. unfold global_id. rewrite base_number_succ by done. lia. Qed.

Lemma global_id_lt x y :
  0 ≤ x.1 → x.1 < y.1 < MachineType_NUM → 0 ≤ x.2 < MachineType_base_count x.1 →
  0 ≤ y.2 → global_id x < global_id y.
Proof.
  intros H1 H2 H3 H4. pose proof (global_id_range x ltac:(lia) H3).
  pose proof (base_number_mono (x.1 + 1) (Z.to_nat (y.1 - (x.1 + 1))) ltac:(lia) ltac:(lia)) as Hm.
  replace (x.1 + 1 + Z.of_nat (Z.to_nat (y.1 - (x.1 + 1)))) with y.1 in Hm by lia.
  unfold global_id in *. lia.
Qed.

Lemma global_id_inj ext x y :
  controllers ext → x ∈ ext → y ∈ ext → global_id x = global_id y → x = y.
Proof.
  intros [_ Hall] Hx Hy E. rewrite Forall_forall in Hall.
  destruct (Hall x Hx) as [Hxt Hxv], (Hall y Hy) as [Hyt Hyv].
  destruct (Z.lt_trichotomy x.1 y.1) as [Hlt|[Heq|Hlt]].
  - pose proof (global_id_lt x y). lia.
  - destruct x as [t u], y as [t' u']. unfold global_id in E. cbn in *. subst.
    f_equal. lia.
  - pose proof (global_id_lt y x). lia.
Qed.

Lemma NoDup_versions ext mach : NoDup ext → NoDup (versions ext mach).
Proof.
  intros Hnd. unfold versions. apply NoDup_fmap_2_strong.
  - intros [t u] [t' u'] [Ht _]%list_elem_of_filter [Ht' _]%list_elem_of_filter. cbn in *.
    by intros ->; subst.
  - by apply NoDup_filter.
Qed.

Lemma NoDup_order ext i n :
  controllers ext → 0 ≤ i → i + Z.of_nat n ≤ MachineType_NUM → NoDup (order ext i n).
Proof.
  intros Hc. revert i. induction n as [|n IH]; intros i Hi Hn; cbn [order]; [constructor|].
  apply NoDup_app. split; [|split; [|apply IH; lia]].
  - apply NoDup_fmap_2; [intros u v; lia|]. apply NoDup_versions, Hc.
  - intros g (v & -> & Hv%elem_of_versions)%list_elem_of_fmap
      (x & Hx & Hr & E)%elem_of_order.
    assert ((i, v) = x) as <- by by eapply global_id_inj. cbn in Hr. lia.
Qed.

(** All controllers are numbered. *)
Lemma order_all ext :
  controllers ext →
  order ext 0 (Z.to_nat MachineType_NUM) ≡ₚ global_id <$> ext.
Proof.
  intros Hc. pose proof machine_num_pos. apply NoDup_Permutation.
  - apply NoDup_order; [done|lia|lia].
  - apply NoDup_fmap_2_strong; [|apply Hc]. intros x y Hx Hy. by eapply global_id_inj.
  - intros g. rewrite elem_of_order, list_elem_of_fmap. destruct Hc as [_ Hall].
    rewrite Forall_forall in Hall. split.
    + intros (x & Hx & _ & ->). by exists x.
    + intros (x & -> & Hx). exists x. destruct (Hall x Hx). split_and!; [done|lia|lia|done].
Qed.

(** The numbering: the position in [order]. *)
Lemma getLocalNodeID_spec vnets ctrl data block ext net g l :
  controllers ext → make vnets ctrl data block ext = Ok net →
  m_nodes net = zlen ext ∧
  (getLocalNodeID net g = Ok l ↔
   zlookup (order ext 0 (Z.to_nat MachineType_NUM)) l = Some g).
Proof.
  intros Hc Hm. unfold make in Hm. step_bind Hm as [] _. unfold number_nodes in Hm.
  pose proof machine_num_pos as Hpos.
  rewrite base_level_id, number_types_list in Hm by lia.
  set (L := order ext 0 (Z.to_nat MachineType_NUM)) in *.
  destruct (number_list_spec L ∅ 0) as [Hn Hl].
  { apply NoDup_order; [done|lia|lia]. }
  { intros. apply lookup_empty. }
  destruct (number_list L (∅, 0)) as [m nodes]. cbn [fst snd] in Hn, Hl.
  step_bind Hm as [] _. step_bind Hm as [] _. injection Hm as <-. cbn [m_nodes].
  split.
  - rewrite Hn, Z.add_0_l. unfold zlen. f_equal. unfold L.
    by rewrite (order_all ext Hc), length_fmap.
  - unfold getLocalNodeID. cbn [globalToLocalMap]. specialize (Hl g l).
    rewrite lookup_empty, Z.sub_0_r in Hl. split.
    + destruct (m !! g) as [l'|] eqn:E; [|done]. intros [= <-].
      destruct (proj1 Hl eq_refl) as [|[_ ?]]; done.
    + intros Hz. rewrite (proj2 Hl); [done|]. right. split; [|done].
      by apply zlookup_Some in Hz as [? _].
Qed.

(** The local numbers of the nodes are a bijection: every controller of the
    network gets a number below [m_nodes], different controllers get different
    numbers, every number below [m_nodes] is given, and asking for a node that is
    not in the network fails the assertion. *)
Theorem local_ids_bijective vnets ctrl data block ext net :
  controllers ext → make vnets ctrl data block ext = Ok net →
  m_nodes net = zlen ext ∧
  (∀ x, x ∈ ext → ∃ l, getLocalNodeID net (global_id x) = Ok l ∧ 0 ≤ l < m_nodes net) ∧
  (∀ x y l, x ∈ ext → y ∈ ext → getLocalNodeID net (global_id x) = Ok l →
     getLocalNodeID net (global_id y) = Ok l → x = y) ∧
  (∀ l, 0 ≤ l < m_nodes net → ∃ x, x ∈ ext ∧ getLocalNodeID net (global_id x) = Ok l) ∧
  (∀ g, (∀ x, x ∈ ext → global_id x ≠ g) → getLocalNodeID net g = Err AssertFailed).
Proof.
  intros Hc Hm.
  pose proof (λ g l, proj2 (getLocalNodeID_spec _ _ _ _ _ _ g l Hc Hm)) as Hs.
  pose proof (proj1 (getLocalNodeID_spec _ _ _ _ _ _ 0 0 Hc Hm)) as Hn.
  pose proof (order_all ext Hc) as Hp.
  assert (zlen (order ext 0 (Z.to_nat MachineType_NUM)) = m_nodes net) as Hl.
  { rewrite Hn. unfold zlen. by rewrite Hp, length_fmap. }
  split_and!; [done|..].
  - intros x Hx. assert (global_id x ∈ order ext 0 (Z.to_nat MachineType_NUM)) as Hin.
    { rewrite Hp. by apply list_elem_of_fmap_2. }
    apply list_elem_of_lookup in Hin as [i Hi]. exists (Z.of_nat i).
    pose proof (lookup_lt_Some _ _ _ Hi). rewrite Hs. unfold zlookup, zlen in *.
    rewrite (proj2 (Z.leb_le _ _)), Nat2Z.id by lia. split; [done|lia].
  - intros x y l Hx Hy Ex%Hs Ey%Hs. rewrite Ex in Ey. injection Ey as Ey.
    by eapply global_id_inj.
  - intros l Hr. rewrite <- Hl in Hr. destruct (zlookup_is_Some _ _ Hr) as [g Hg].
    assert (g ∈ order ext 0 (Z.to_nat MachineType_NUM)) as Hin.
    { apply zlookup_Some in Hg as [_ Hg]. by eapply list_elem_of_lookup_2. }
    rewrite Hp in Hin. apply list_elem_of_fmap in Hin as (x & -> & Hx). exists x.
    split; [done|]. by apply Hs.
  - intros g Hg. unfold getLocalNodeID. destruct (globalToLocalMap net !! g) as [l|] eqn:E; [|done].
    assert (getLocalNodeID net g = Ok l) as El by by unfold getLocalNodeID; rewrite E.
    apply Hs, zlookup_Some in El as [_ El]. apply list_elem_of_lookup_2 in El.
    rewrite Hp in El. apply list_elem_of_fmap in El as (x & -> & Hx). by destruct (Hg x Hx).
Qed.

(** All controllers of the protocol, in the order of their versions. *)
Definition single_network (ext : list (Z * Z)) : Prop :=
  ∀ t, 0 ≤ t < MachineType_NUM → versions ext t = seqZ 0 (MachineType_base_count t).

Lemma order_single ext i n :
  single_network ext → 0 ≤ i → i + Z.of_nat n ≤ MachineType_NUM →
  order ext i n =
    seqZ (MachineType_base_number i)
      (MachineType_base_number (i + Z.of_nat n) - MachineType_base_number i).
Proof.
  intros Hs. revert i. induction n as [|n IH]; intros i Hi Hn; cbn [order].
  - rewrite Z.add_0_r, Z.sub_diag. done.
  - rewrite IH, Hs by lia. assert (0 ≤ i < MachineType_NUM) as Hi' by lia.
    pose proof (base_count_range i Hi').
    pose proof (base_number_mono (i + 1) n) as Hm. do 2 specialize (Hm ltac:(lia)).
    rewrite (base_number_succ i) in Hm |- * by lia.
    replace (i + 1 + Z.of_nat n) with (i + Z.of_nat (S n)) in * by lia.
    replace (MachineType_base_number (i + Z.of_nat (S n)) - MachineType_base_number i) with
      (MachineType_base_count i + (MachineType_base_number (i + Z.of_nat (S n)) -
         (MachineType_base_number i + MachineType_base_count i))) by lia.
    rewrite seqZ_app by lia. f_equal. rewrite fmap_add_seqZ. f_equal. lia.
Qed.

(** In a system with one network global and local numbers are the same. *)
Theorem single_network_identity vnets ctrl data block ext net g :
  controllers ext → single_network ext → make vnets ctrl data block ext = Ok net →
  0 ≤ g < MachineType_base_number MachineType_NUM → getLocalNodeID net g = Ok g.
Proof.
  intros Hc Hs Hm Hg. apply (getLocalNodeID_spec _ _ _ _ _ _ g g Hc Hm).
  pose proof machine_num_pos.
  rewrite order_single by (done || lia). rewrite Z2Nat.id, Z.add_0_l, base_number_0, Z.sub_0_r by lia.
  unfold zlookup. rewrite (proj2 (Z.leb_le _ _)) by lia. rewrite lookup_seqZ.
  split; lia.
Qed.

(** ** The queues *)

(** The vectors have an element per node, or per virtual network. *)
Definition wf (net : t) : Prop :=
  zlen (m_toNetQueues net) = m_nodes net ∧ zlen (m_fromNetQueues net) = m_nodes net ∧
  zlen (m_ordered net) = m_virtual_networks net ∧
  zlen (m_vnet_type_names net) = m_virtual_networks net ∧
  m_nodes net < 2 ^ 32 ∧ m_virtual_networks net < 2 ^ 32.

(** The buffer of virtual network [v] at node [l]. *)
Definition queue_of (qs : list (list (option Z))) (l v : Z) : option Z :=
  zlookup qs l ≫= λ q, zlookup q v ≫= id.

Lemma put_queue_spec v b q :
  0 ≤ v → ∃ q', put_queue v b q = Ok q' ∧
    ∀ v', zlookup q' v' ≫= id = if decide (v' = v) then Some b else zlookup q v' ≫= id.
Proof.
  intros Hv. unfold put_queue. set (p := q ++ _).
  assert (0 ≤ v < zlen p) as Hr.
  { unfold p. rewrite zlen_app. unfold zlen. rewrite length_replicate. lia. }
  exists (<[Z.to_nat v := Some b]> p). split; [by apply vset_intro|].
  intros v'. rewrite zlookup_insert by done. repeat case_decide; subst; try done.
  unfold p, zlookup. destruct (0 <=? v'); [|done]. rewrite lookup_app.
  destruct (q !! Z.to_nat v') as [x|]; [done|].
  destruct (replicate _ _ !! _) as [x|] eqn:E; [|done].
  apply lookup_replicate in E as [-> _]. done.
Qed.

Lemma put_in v b qs l :
  0 ≤ v → 0 ≤ l < zlen qs → ∃ qs', vupd qs l (put_queue v b) = Ok qs' ∧
    zlen qs' = zlen qs ∧
    ∀ l' v', queue_of qs' l' v' =
      if decide ((l', v') = (l, v)) then Some b else queue_of qs l' v'.
Proof.
  intros Hv Hl. destruct (zlookup_is_Some qs l Hl) as [q Hq].
  destruct (put_queue_spec v b q Hv) as (q' & Hp & Hq').
  eexists. split; [by eapply vupd_intro|]. split; [by rewrite zlen_insert|].
  intros l' v'. unfold queue_of. rewrite zlookup_insert by done.
  destruct (decide (l = l')) as [<-|Hne]; cbn [mbind option_bind].
  - rewrite Hq', Hq. cbn [mbind option_bind]. repeat case_decide; naive_solver.
  - rewrite decide_False; [done|]. congruence.
Qed.

(** The virtual networks after a buffer was attached to [v]. *)
Lemma checkNetworkAllocation_spec net l ordered v name :
  wf net → 0 ≤ l < m_nodes net → 0 ≤ v < m_virtual_networks net →
  ∃ net', checkNetworkAllocation net l ordered v name = Ok net' ∧ wf net' ∧
    m_nodes net' = m_nodes net ∧ m_toNetQueues net' = m_toNetQueues net ∧
    m_fromNetQueues net' = m_fromNetQueues net ∧
    globalToLocalMap net' = globalToLocalMap net ∧
    zlookup (m_ordered net') v = (λ o, o || ordered) <$> zlookup (m_ordered net) v ∧
    zlookup (m_vnet_type_names net') v = Some name.
Proof.
  intros (H1 & H2 & H3 & H4 & H5 & H6) Hl Hv. unfold checkNetworkAllocation, wrap32.
  rewrite !Z.mod_small by lia. rewrite !(proj2 (Z.leb_gt _ _)) by lia. cbn [fatal_if rbind].
  assert (∃ o, (if ordered then vset (m_ordered net) v true else Ok (m_ordered net)) = Ok o ∧
    zlen o = m_virtual_networks net ∧
    zlookup o v = (λ b, b || ordered) <$> zlookup (m_ordered net) v) as (o & -> & Ho & Hov).
  { destruct (zlookup_is_Some (m_ordered net) v) as [b Hb]; [lia|]. rewrite Hb.
    destruct ordered.
    - eexists. split; [apply vset_intro; lia|]. rewrite zlen_insert. split; [done|].
      rewrite zlookup_insert_eq by lia. cbn. by rewrite orb_true_r.
    - exists (m_ordered net). rewrite Hb. cbn. by rewrite orb_false_r. }
  cbn [rbind]. rewrite vset_intro by lia. cbn [rbind]. eexists. split; [done|].
  split; [|cbn; split_and!; try done; apply zlookup_insert_eq; lia].
  split_and!; try done. cbn. by rewrite zlen_insert.
Qed.

(** [setToNetQueue] and [setFromNetQueue] attach a buffer to exactly one node
    and virtual network: the others keep their buffers, the virtual network is
    ordered from then on if it was or the call says so, and a number of a virtual
    network out of range is a fatal error. *)
Theorem set_queue_correct net g l ordered v name b :
  wf net → getLocalNodeID net g = Ok l → 0 ≤ l < m_nodes net → - 2 ^ 31 ≤ v < 2 ^ 31 →
  if decide (0 ≤ v < m_virtual_networks net) then
    (∃ net', setToNetQueue net g ordered v name b = Ok net' ∧ wf net' ∧
      m_fromNetQueues net' = m_fromNetQueues net ∧
      zlookup (m_ordered net') v = (λ o, o || ordered) <$> zlookup (m_ordered net) v ∧
      ∀ l' v', queue_of (m_toNetQueues net') l' v' =
        if decide ((l', v') = (l, v)) then Some b else queue_of (m_toNetQueues net) l' v') ∧
    (∃ net', setFromNetQueue net g ordered v name b = Ok net' ∧ wf net' ∧
      m_toNetQueues net' = m_toNetQueues net ∧
      zlookup (m_ordered net') v = (λ o, o || ordered) <$> zlookup (m_ordered net) v ∧
      ∀ l' v', queue_of (m_fromNetQueues net') l' v' =
        if decide ((l', v') = (l, v)) then Some b else queue_of (m_fromNetQueues net) l' v')
  else
    m_virtual_networks net ≤ 2 ^ 31 →
    setToNetQueue net g ordered v name b = Err FatalError ∧
    setFromNetQueue net g ordered v name b = Err FatalError.
Proof.
  intros Hw Hg Hl Hv. pose proof Hw as (W1 & W2 & _). unfold setToNetQueue, setFromNetQueue.
  rewrite Hg. cbn [rbind]. case_decide as Hin.
  - destruct (checkNetworkAllocation_spec net l ordered v name Hw Hl Hin)
      as (net1 & -> & Hw1 & N1 & T1 & F1 & _ & O1 & _). cbn [rbind].
    pose proof Hw1 as (V1 & V2 & Vr).
    split.
    + destruct (put_in v b (m_toNetQueues net1) l) as (qs & -> & Hz & Hq); [lia|lia|].
      cbn [rbind]. eexists. split; [done|]. rewrite <- T1. cbn.
      split; [by split_and!; cbn; [lia|done|apply Vr..]|]. done.
    + destruct (put_in v b (m_fromNetQueues net1) l) as (qs & -> & Hz & Hq); [lia|lia|].
      cbn [rbind]. eexists. split; [done|]. rewrite <- F1. cbn.
      split; [by split_and!; cbn; [done|lia|apply Vr..]|]. done.
  - intros Hmax. unfold checkNetworkAllocation.
    assert (m_virtual_networks net ≤ wrap32 v) as Hbig.
    { unfold wrap32. destruct (decide (0 ≤ v)); [rewrite Z.mod_small by lia; lia|].
      rewrite <- (Z.mod_add v 1) by lia. rewrite Z.mod_small by lia. lia. }
    destruct (fatal_if (m_nodes net <=? wrap32 l)) as [[]|e] eqn:E.
    + cbn [rbind]. rewrite (proj2 (Z.leb_le _ _) Hbig). done.
    + unfold fatal_if in E. destruct (_ <=? _); [by injection E as <-|done].
Qed.

End facts.

End NetworkFacts.

(** ** A network of four controllers *)

Module NetworkExample.
Import ExampleMachines Network NetworkFacts.
#[local] Existing Instance machines.
#[local] Existing Instance machines_laws.

(** The external links, the controllers of the second type first. *)
Definition ext : list (Z * Z) := [(1, 0); (1, 1); (0, 0); (0, 1)].

Definition network : t :=
  match make 2 8 64 64 ext with Ok net => net | Err _ => mk 0 0 0 0 [] [] [] [] ∅ end.

Lemma network_made : make 2 8 64 64 ext = Ok network.
Proof. reflexivity. Qed.

Lemma ext_controllers : controllers ext.
Proof.
  split; [|repeat constructor; cbn; lia].
  apply (bool_decide_unpack _). vm_compute. exact I.
Qed.

Lemma local_ids_bijective_witness :
  m_nodes network = 4 ∧ ∃ l, getLocalNodeID network (global_id (1, 0)) = Ok l ∧ 0 ≤ l < 4.
Proof.
  destruct (local_ids_bijective 2 8 64 64 ext network ext_controllers network_made)
    as (H1 & H2 & _).
  split; [exact H1|]. apply H2. left.
Defined.

Lemma single_network_identity_witness : getLocalNodeID network 2 = Ok 2.
Proof.
  apply (single_network_identity 2 8 64 64 ext network 2 ext_controllers).
  - intros t Ht. assert (t = 0 ∨ t = 1) as [-> | ->] by (cbn in Ht; lia); reflexivity.
  - exact network_made.
  - cbn. lia.
Defined.

Lemma set_queue_correct_witness :
  ∃ net', setToNetQueue network 3 true 1 "response" 7 = Ok net' ∧
    queue_of (m_toNetQueues net') 3 1 = Some 7.
Proof.
  destruct (set_queue_correct network 3 3 true 1 "response" 7) as [(net' & H1 & _ & _ & _ & H2) _].
  - split_and!; reflexivity.
  - reflexivity.
  - change (m_nodes network) with 4. lia.
  - lia.
  - exists net'. split; [exact H1|]. rewrite H2. reflexivity.
Defined.

End NetworkExample.
