(* ===== verification/EventQueue.v ===== *)
(** * The event queue

    [sim/eventq.{hh,cc}] with [base/flags.hh], and the loop of [sim/simulate.cc].
    The queue is a linked list of bins, one for each time and priority, and a bin
    is a linked stack of events; both kinds of link are fields of the events.  The
    events live in a store, a pointer is a number, the null pointer is [None].
    Below the top of a bin the link to the next bin is stale, and the code never
    reads it before writing it. *)

From S2P Require Import Prelude.
From S2P Require Import Flit.

(** ** [Flags<unsigned short>] *)

Module Flags.

Definition isSet (f mask : Z) : bool := negb (Z.land f mask =? 0).

Definition noneSet (f mask : Z) : bool := Z.land f mask =? 0.

Definition set (f mask : Z) : Z := Z.lor f mask.

Definition clear (f mask : Z) : Z := Z.ldiff f mask.

End Flags.

(** The flags of an event. *)
Definition PublicRead : Z := 0x003f.
Definition PublicWrite : Z := 0x001d.
Definition Squashed : Z := 0x0001.
Definition Scheduled : Z := 0x0002.
Definition Managed : Z := 0x0004.
Definition IsExitEvent : Z := 0x0010.
Definition IsMainQueue : Z := 0x0020.
Definition Initialized : Z := 0x7a40.
Definition InitMask : Z := 0xffc0.

(** ** [Event] *)

Record Event := mkEvent {
  nextBin : option Z;
  nextInBin : option Z;
  when : Tick;
  priority : Z;
  flags : Z;
  queue : option Z;
}.

(** [Event(p, f)] *)
Definition new_Event (p f : Z) : result Event :=
  _ ← assert (Flags.noneSet f (Z.ldiff 0xffff PublicWrite));
  Ok (mkEvent None None 0 p (Z.lor Initialized f) None).

Definition with_nextBin (e : Event) (p : option Z) : Event :=
  mkEvent p (nextInBin e) (when e) (priority e) (flags e) (queue e).

Definition with_nextInBin (e : Event) (p : option Z) : Event :=
  mkEvent (nextBin e) p (when e) (priority e) (flags e) (queue e).

Definition with_flags (e : Event) (f : Z) : Event :=
  mkEvent (nextBin e) (nextInBin e) (when e) (priority e) f (queue e).

Definition setWhen (e : Event) (w : Tick) (q : Z) : Event :=
  mkEvent (nextBin e) (nextInBin e) w (priority e) (flags e) (Some q).

Definition initialized (e : Event) : bool := Z.land (flags e) InitMask =? Initialized.
Definition scheduled (e : Event) : bool := Flags.isSet (flags e) Scheduled.
Definition squashed (e : Event) : bool := Flags.isSet (flags e) Squashed.
Definition isExitEvent (e : Event) : bool := Flags.isSet (flags e) IsExitEvent.
Definition isManaged (e : Event) : bool := Flags.isSet (flags e) Managed.

(** [operator<], [operator<=], [operator==] *)
Definition event_lt (l r : Event) : bool :=
  (when l <? when r) || ((when l =? when r) && (priority l <? priority r)).

Definition event_le (l r : Event) : bool :=
  (when l <? when r) || ((when l =? when r) && (priority l <=? priority r)).

Definition event_eq (l r : Event) : bool :=
  (when l =? when r) && (priority l =? priority r).

(** ** The store of events *)

Notation Heap := (gmap Z Event) (only parsing).

Definition get (h : Heap) (p : Z) : result Event := determinate (h !! p).

Definition put (h : Heap) (p : Z) (f : Event → Event) : result Heap :=
  e ← get h p; Ok (<[p := f e]> h).

(** [Event::insertBefore]; it returns [event]. *)
Definition insertBefore (h : Heap) (event : Z) (curr : option Z) : result Heap :=
  match curr with
  | None => put h event (λ e, with_nextInBin (with_nextBin e None) None)
  | Some c =>
      e ← get h event;
      ce ← get h c;
      if event_lt e ce then
        put h event (λ e, with_nextInBin (with_nextBin e (Some c)) None)
      else put h event (λ e, with_nextInBin (with_nextBin e (nextBin ce)) (Some c))
  end.

(** [while (curr && *curr < *event) { prev = curr; curr = curr->nextBin; }] *)
Fixpoint find_bin (fuel : nat) (h : Heap) (event : Event) (prev : Z) (curr : option Z)
    : result (Z * option Z) :=
  match fuel with
  | O => Err OutOfFuel
  | S fuel' =>
      match curr with
      | None => Ok (prev, None)
      | Some c =>
          ce ← get h c;
          if event_lt ce event then find_bin fuel' h event c (nextBin ce)
          else Ok (prev, Some c)
      end
  end.

(** The loop of [Event::removeItem]: the event before [event] in its bin. *)
Fixpoint find_item (fuel : nat) (h : Heap) (event curr : Z) (next : option Z) : result Z :=
  match fuel with
  | O => Err OutOfFuel
  | S fuel' =>
      match next with
      | None => Err Panicked
      | Some n =>
          if event =? n then Ok curr
          else ne ← get h n; find_item fuel' h event n (nextInBin ne)
      end
  end.

(** [Event::removeItem]: the new top of the bin, or what follows it. *)
Definition removeItem (h : Heap) (event top : Z) : result (Heap * option Z) :=
  te ← get h top;
  if event =? top then
    match nextInBin te with
    | None => Ok (h, nextBin te)
    | Some n => h ← put h n (λ ne, with_nextBin ne (nextBin te)); Ok (h, Some n)
    end
  else
    curr ← find_item (S (size h)) h event top (nextInBin te);
    ee ← get h event;
    h ← put h curr (λ ce, with_nextInBin ce (nextInBin ee));
    Ok (h, Some top).

(** ** [EventQueue] *)

Module EventQueue.

Record t := mk {
  id : Z;
  head : option Z;
  _curTick : Tick;
  async_queue : list Z;
  heap : gmap Z Event;
}.

Definition make (id : Z) (h : Heap) : t := mk id None 0 [] h.

Definition with_head (q : t) (h : Heap) (p : option Z) : t :=
  mk (id q) p (_curTick q) (async_queue q) h.

Definition with_heap (q : t) (h : Heap) : t := with_head q h (head q).

Definition setCurTick (q : t) (newVal : Tick) : t :=
  mk (id q) (head q) newVal (async_queue q) (heap q).

Definition empty (q : t) : bool := match head q with None => true | Some _ => false end.

Definition nextTick (q : t) : result Tick :=
  p ← determinate (head q); e ← get (heap q) p; Ok (when e).

Definition insert (q : t) (event : Z) : result t :=
  e ← get (heap q) event;
  match head q with
  | None => h ← insertBefore (heap q) event None; Ok (with_head q h (Some event))
  | Some p =>
      pe ← get (heap q) p;
      if event_le e pe then
        h ← insertBefore (heap q) event (Some p); Ok (with_head q h (Some event))
      else
        '(prev, curr) ← find_bin (S (size (heap q))) (heap q) e p (nextBin pe);
        h ← insertBefore (heap q) event curr;
        h ← put h prev (λ e, with_nextBin e (Some event));
        Ok (with_heap q h)
  end.

Definition remove (q : t) (event : Z) : result t :=
  match head q with
  | None => Err Panicked
  | Some p =>
      e ← get (heap q) event;
      _ ← assert (bool_decide (queue e = Some (id q)));
      pe ← get (heap q) p;
      if event_eq pe e then
        '(h, top) ← removeItem (heap q) event p; Ok (with_head q h top)
      else
        '(prev, curr) ← find_bin (S (size (heap q))) (heap q) e p (nextBin pe);
        match curr with
        | None => Err Panicked
        | Some c =>
            ce ← get (heap q) c;
            if negb (event_eq ce e) then Err Panicked
            else
              '(h, top) ← removeItem (heap q) event c;
              h ← put h prev (λ e, with_nextBin e top);
              Ok (with_heap q h)
        end
  end.

(** [acquire()] and [release()] with the default [acquireImpl] and
    [releaseImpl], which frees an event that is not scheduled. *)
Definition release (q : t) (event : Z) : result t :=
  e ← get (heap q) event;
  if isManaged e && negb (scheduled e) then Ok (with_heap q (delete event (heap q)))
  else Ok q.

Definition set_flags (q : t) (event : Z) (f : Z → Z) : result t :=
  h ← put (heap q) event (λ e, with_flags e (f (flags e))); Ok (with_heap q h).

Definition asyncInsert (q : t) (event : Z) : t :=
  mk (id q) (head q) (_curTick q) (async_queue q ++ [event]) (heap q).

(** [async] is [inParallelMode && (this != curEventQueue() || global)]. *)
Definition schedule (q : t) (event : Z) (w : Tick) (async : bool) : result t :=
  e ← get (heap q) event;
  _ ← assert (_curTick q <=? w);
  _ ← assert (negb (scheduled e));
  _ ← assert (initialized e);
  h ← put (heap q) event (λ e, setWhen e w (id q));
  let q := with_heap q h in
  q ← (if async then Ok (asyncInsert q event) else insert q event);
  set_flags q event (λ f, Flags.set f Scheduled).

(** [owner] is [!inParallelMode || this == curEventQueue()]. *)
Definition deschedule (q : t) (event : Z) (owner : bool) : result t :=
  e ← get (heap q) event;
  _ ← assert (scheduled e);
  _ ← assert (initialized e);
  _ ← assert owner;
  q ← remove q event;
  q ← set_flags q event (λ f, Flags.clear (Flags.clear f Squashed) Scheduled);
  release q event.

Definition reschedule (q : t) (event : Z) (w : Tick) (always owner : bool) : result t :=
  e ← get (heap q) event;
  _ ← assert (_curTick q <=? w);
  _ ← assert (always || scheduled e);
  _ ← assert (initialized e);
  _ ← assert owner;
  q ← (if scheduled e then remove q event else Ok q);
  h ← put (heap q) event (λ e, setWhen e w (id q));
  q ← insert (with_heap q h) event;
  set_flags q event (λ f, Flags.set (Flags.clear f Squashed) Scheduled).

Definition checkpointReschedule (q : t) (event : Z) : result t :=
  e ← get (heap q) event;
  if scheduled e then insert q event else Ok q.

Definition replaceHead (q : t) (s : option Z) : t * option Z :=
  (with_head q (heap q) s, head q).

Fixpoint insert_all (q : t) (l : list Z) : result t :=
  match l with [] => Ok q | e :: l' => q ← insert q e; insert_all q l' end.

Definition handleAsyncInsertions (q : t) : result t :=
  q' ← insert_all q (async_queue q);
  Ok (mk (id q') (head q') (_curTick q') [] (heap q')).

(** The part of [serviceOne] that takes the first event out of the queue. *)
Definition pop (q : t) : result (Z * t) :=
  event ← determinate (head q);
  e ← get (heap q) event;
  h ← put (heap q) event (λ e, with_flags e (Flags.clear (flags e) Scheduled));
  match nextInBin e with
  | Some next =>
      h ← put h next (λ ne, with_nextBin ne (nextBin e));
      Ok (event, with_head q h (Some next))
  | None => Ok (event, with_head q h (nextBin e))
  end.

(** [serviceOne()]; [process] is the virtual method of the event. *)
Definition serviceOne (process : Z → t → result t) (q : t) : result (option Z * t) :=
  '(event, q) ← pop q;
  e ← get (heap q) event;
  if negb (squashed e) then
    q ← process event (setCurTick q (when e));
    e ← get (heap q) event;
    if isExitEvent e then
      _ ← assert (negb (isManaged e) || negb (Flags.isSet (flags e) IsMainQueue));
      Ok (Some event, q)
    else q ← release q event; Ok (None, q)
  else
    q ← set_flags q event (λ f, Flags.clear f Squashed);
    q ← release q event; Ok (None, q).

(** [serviceEvents(when)], bounded by the number of events it services. *)
Fixpoint serviceEvents (fuel : nat) (process : Z → t → result t) (w : Tick) (q : t)
    : result (option t) :=
  match fuel with
  | O => Ok None
  | S fuel' =>
      if empty q then Ok (Some (setCurTick q w))
      else
        n ← nextTick q;
        if w <? n then Ok (Some (setCurTick q w))
        else '(_, q) ← serviceOne process q; serviceEvents fuel' process w q
  end.

(** An iteration of the loop of [doSimLoop], when no signal has arrived. *)
Definition sim_step (process : Z → t → result t) (q : t) : result (option Z * t) :=
  _ ← assert (negb (empty q));
  n ← nextTick q;
  _ ← assert (_curTick q <=? n);
  serviceOne process q.

(** [debugVerify()]: the inner loop over a bin, then the outer one. *)
Fixpoint verify_bin (fuel : nat) (h : Heap) (p : option Z) (time pri : Z) (seen : list Z)
    : result (option (Z * Z * list Z)) :=
  match p with
  | None => Ok (Some (time, pri, seen))
  | Some x =>
      match fuel with
      | O => Err OutOfFuel
      | S fuel' =>
          e ← get h x;
          if when e <? time then Ok None
          else if (when e =? time) && (priority e <? pri) then Ok None
          else if existsb (Z.eqb x) seen then Ok None
          else verify_bin fuel' h (nextInBin e) (when e) (priority e) (x :: seen)
      end
  end.

Fixpoint verify_bins (fuel : nat) (h : Heap) (p : option Z) (time pri : Z) (seen : list Z)
    : result bool :=
  match p with
  | None => Ok true
  | Some x =>
      match fuel with
      | O => Err OutOfFuel
      | S fuel' =>
          r ← verify_bin (S (size h)) h (Some x) time pri seen;
          match r with
          | None => Ok false
          | Some (time, pri, seen) =>
              e ← get h x; verify_bins fuel' h (nextBin e) time pri seen
          end
      end
  end.

Definition debugVerify (q : t) : result bool :=
  verify_bins (S (size (heap q))) (heap q) (head q) 0 0 [].

End EventQueue.
