(* ===== verification/EventOrder.v ===== *)
(** * The event queue is a sorted list

    The linked bins of [EventQueue] against their specification: a list of events
    in the order they are serviced, in which an event goes before the first one that
    is not earlier. *)

From stdpp Require Import sorting.
From S2P Require Import Prelude.
From S2P Require Import Flit.
From S2P Require Import EventQueue.

Import EventQueue.

(** ** The specification *)

Module Agenda.

(** An event with its time and priority. *)
Notation entry := (Z * (Z * Z))%type (only parsing).

(** Earlier, or at the same time with a smaller priority. *)
Definition before (a b : Z * Z) : Prop := a.1 < b.1 ∨ (a.1 = b.1 ∧ a.2 < b.2).

#[export] Instance before_dec a b : Decision (before a b).
Proof. unfold before. apply _. Defined.

Fixpoint insert (x : entry) (l : list entry) : list entry :=
  match l with
  | [] => [x]
  | y :: l' => if decide (before y.2 x.2) then y :: insert x l' else x :: l
  end.

Definition remove (p : Z) (l : list entry) : list entry := filter (λ y, y.1 ≠ p) l.

(** In order of time and priority. *)
Definition sorted (l : list entry) : Prop := StronglySorted (λ a b, ¬ before b.2 a.2) l.

Lemma before_trans a b c : before a b → before b c → before a c.
Proof. unfold before. lia. Qed.

Lemma before_irrefl a : ¬ before a a.
Proof. unfold before. lia. Qed.

Lemma not_before_trans a b c : ¬ before b a → ¬ before c b → ¬ before c a.
Proof. unfold before. lia. Qed.

Lemma elem_of_insert x y l : y ∈ insert x l ↔ y = x ∨ y ∈ l.
Proof.
  induction l as [|z l IH]; cbn; [set_solver|]. case_decide; set_solver.
Qed.

Lemma insert_sorted x l : sorted l → sorted (insert x l).
Proof.
  unfold sorted. induction 1 as [|y l Hs IH Hall]; cbn; [by repeat constructor|].
  case_decide as Hb.
  - constructor; [done|]. apply Forall_forall. intros z [->|Hz]%elem_of_insert.
    + unfold before in *. lia.
    + rewrite Forall_forall in Hall. by apply Hall.
  - constructor; [by constructor|]. constructor; [done|].
    eapply Forall_impl; [exact Hall|]. intros z Hz. by eapply not_before_trans.
Qed.

Lemma remove_sorted p l : sorted l → sorted (remove p l).
Proof.
  unfold sorted, remove. induction 1 as [|y l Hs IH Hall]; [constructor|].
  rewrite filter_cons. case_decide; [|done]. constructor; [done|].
  apply Forall_forall. intros z [_ Hz]%list_elem_of_filter.
  rewrite Forall_forall in Hall. by apply Hall.
Qed.

Lemma remove_not_in p l : p ∉ l.*1 → remove p l = l.
Proof.
  induction l as [|y l IH]; [done|]. rewrite fmap_cons, not_elem_of_cons. intros [Hy Hp].
  unfold remove in *. rewrite filter_cons, decide_True by congruence. f_equal. by apply IH.
Qed.

Lemma remove_head p k l : p ∉ l.*1 → remove p ((p, k) :: l) = l.
Proof.
  intros Hp. unfold remove. rewrite filter_cons, decide_False by (cbn; auto).
  by apply remove_not_in.
Qed.

Lemma insert_app x l1 l2 :
  Forall (λ y, before y.2 x.2) l1 → (∀ y l, l2 = y :: l → ¬ before y.2 x.2) →
  insert x (l1 ++ l2) = l1 ++ x :: l2.
Proof.
  induction 1 as [|y l1 Hy Hl1 IH]; intros H2.
  - destruct l2 as [|y l2]; cbn; [done|]. rewrite decide_False; [done|by eapply H2].
  - cbn. rewrite decide_True by done. by rewrite IH.
Qed.

Lemma remove_app p l1 l2 : remove p (l1 ++ l2) = remove p l1 ++ remove p l2.
Proof. apply filter_app. Qed.

Lemma insert_fst x l : (insert x l).*1 ≡ₚ x.1 :: l.*1.
Proof.
  induction l as [|y l IH]; cbn [insert fmap list_fmap]; [done|].
  case_decide; cbn [fmap list_fmap]; [|done]. setoid_rewrite IH. constructor.
Qed.

Lemma remove_fst p l : (remove p l).*1 = filter (λ y, y ≠ p) l.*1.
Proof.
  unfold remove. induction l as [|y l IH]; [done|]. rewrite filter_cons.
  cbn [fmap list_fmap]. rewrite filter_cons. case_decide; cbn [fmap list_fmap]; [|done].
  by f_equal.
Qed.

End Agenda.

(** ** Views of the store *)

Definition nib (h : gmap Z Event) (x : Z) : option (option Z) := nextInBin <$> h !! x.
Definition nb (h : gmap Z Event) (x : Z) : option (option Z) := nextBin <$> h !! x.

(** What the links leave alone. *)
Definition info (e : Event) : Z * Z * Z * option Z := (when e, priority e, flags e, queue e).

Definition same_info (h h' : gmap Z Event) : Prop := ∀ y, info <$> h' !! y = info <$> h !! y.

#[export] Instance same_info_preorder : PreOrder same_info.
Proof. split; [by intros h y|]. intros h1 h2 h3 H1 H2 y. by rewrite H2, H1. Qed.

Definition key (e : Event) : Z * Z := (when e, priority e).

Definition kof (h : gmap Z Event) (x : Z) : Z * Z :=
  match h !! x with Some e => key e | None => (0, 0) end.

Lemma same_info_kof h h' x : same_info h h' → kof h' x = kof h x.
Proof.
  intros Hs. specialize (Hs x). unfold kof, key, info in *.
  destruct (h !! x), (h' !! x); cbn in Hs; congruence.
Qed.

Lemma same_info_lookup h h' x e :
  same_info h h' → h !! x = Some e → ∃ e', h' !! x = Some e' ∧ info e' = info e.
Proof.
  intros Hs He. specialize (Hs x). rewrite He in Hs.
  destruct (h' !! x) as [e'|]; [|done]. exists e'. split; [done|]. by apply (inj Some).
Qed.

Lemma event_lt_spec l r : event_lt l r = bool_decide (Agenda.before (key l) (key r)).
Proof.
  unfold event_lt, Agenda.before, key. cbn.
  destruct (Z.ltb_spec (when l) (when r)), (Z.eqb_spec (when l) (when r)),
    (Z.ltb_spec (priority l) (priority r)); cbn; symmetry;
    (apply bool_decide_eq_true || apply bool_decide_eq_false); lia.
Qed.

Lemma event_le_spec l r : event_le l r = negb (bool_decide (Agenda.before (key r) (key l))).
Proof.
  unfold event_le, Agenda.before, key. cbn.
  destruct (Z.ltb_spec (when l) (when r)), (Z.eqb_spec (when l) (when r)),
    (Z.leb_spec (priority l) (priority r)); cbn;
    first [rewrite bool_decide_eq_false_2 by lia|rewrite bool_decide_eq_true_2 by lia]; done.
Qed.

Lemma event_eq_spec l r : event_eq l r = bool_decide (key l = key r).
Proof.
  unfold event_eq, key. destruct (Z.eqb_spec (when l) (when r)),
    (Z.eqb_spec (priority l) (priority r)); cbn;
    first [rewrite bool_decide_eq_false_2 by congruence
          |rewrite bool_decide_eq_true_2 by congruence]; done.
Qed.

(** Writing a link field of one event. *)
Lemma put_Ok h x e f : h !! x = Some e → put h x f = Ok (<[x := f e]> h).
Proof. intros He. unfold put, get. by rewrite He. Qed.

Lemma get_Ok h x e : h !! x = Some e → get h x = Ok e.
Proof. unfold get. by intros ->. Qed.

Lemma same_info_insert h x e e' :
  h !! x = Some e → info e' = info e → same_info h (<[x := e']> h).
Proof.
  intros He Hi y. rewrite lookup_insert. case_decide; [subst|done]. rewrite He. cbn.
  by rewrite Hi.
Qed.

Lemma nib_insert h x e y :
  nib (<[x := e]> h) y = if decide (x = y) then Some (nextInBin e) else nib h y.
Proof. unfold nib. rewrite lookup_insert. by case_decide. Qed.

Lemma nb_insert h x e y :
  nb (<[x := e]> h) y = if decide (x = y) then Some (nextBin e) else nb h y.
Proof. unfold nb. rewrite lookup_insert. by case_decide. Qed.

(** ** Linked bins *)

(** A bin: its top and the events below it. *)
Notation bin := (Z * list Z)%type (only parsing).

Definition elems (b : bin) : list Z := b.1 :: b.2.
Definition all (bs : list bin) : list Z := bs ≫= elems.

(** The pointer to the first of the bins [bs], which [nxt] follows. *)
Definition first (bs : list bin) (nxt : option Z) : option Z :=
  match bs with [] => nxt | b :: _ => Some b.1 end.

(** The stack with top [x], the events [l] below it. *)
Fixpoint stack (h : gmap Z Event) (x : Z) (l : list Z) : Prop :=
  match l with
  | [] => nib h x = Some None
  | y :: l' => nib h x = Some (Some y) ∧ stack h y l'
  end.

(** The bins [bs] linked up to the pointer [nxt]. *)
Fixpoint seg (h : gmap Z Event) (bs : list bin) (nxt : option Z) : Prop :=
  match bs with
  | [] => True
  | b :: bs' => stack h b.1 b.2 ∧ nb h b.1 = Some (first bs' nxt) ∧ seg h bs' nxt
  end.

Lemma all_cons b bs : all (b :: bs) = elems b ++ all bs.
Proof. done. Qed.

Lemma all_app bs1 bs2 : all (bs1 ++ bs2) = all bs1 ++ all bs2.
Proof. unfold all. by rewrite bind_app. Qed.

Lemma first_app bs1 bs2 nxt : first (bs1 ++ bs2) nxt = first bs1 (first bs2 nxt).
Proof. by destruct bs1. Qed.

Lemma seg_app h bs1 bs2 nxt :
  seg h (bs1 ++ bs2) nxt ↔ seg h bs1 (first bs2 nxt) ∧ seg h bs2 nxt.
Proof.
  induction bs1 as [|b bs1 IH]; cbn [app seg]; [naive_solver|].
  rewrite IH, first_app. naive_solver.
Qed.

Lemma top_in_all b bs : b ∈ bs → b.1 ∈ all bs.
Proof. intros Hb. apply list_elem_of_bind. exists b. split; [left|done]. Qed.

Lemma stack_frame h h' x l :
  (∀ y, y ∈ x :: l → nib h' y = nib h y) → stack h x l → stack h' x l.
Proof.
  revert x. induction l as [|y l IH]; intros x Hf; cbn.
  - rewrite Hf by left. done.
  - rewrite Hf by left. intros [? ?]. split; [done|]. apply IH; [|done].
    intros z Hz. apply Hf. by right.
Qed.

Lemma seg_frame h h' bs nxt :
  (∀ y, y ∈ all bs → nib h' y = nib h y) → (∀ b, b ∈ bs → nb h' b.1 = nb h b.1) →
  seg h bs nxt → seg h' bs nxt.
Proof.
  induction bs as [|b bs IH]; intros Hi Hb; cbn; [done|]. intros (Hs & Hn & Hr).
  rewrite all_cons in Hi. split_and!.
  - eapply stack_frame; [|exact Hs]. intros y Hy. apply Hi. apply elem_of_app. by left.
  - rewrite Hb by left. done.
  - apply IH; [|intros b' Hb'; apply Hb; by right|done].
    intros y Hy. apply Hi, elem_of_app. by right.
Qed.

(** Events outside the bins may change. *)
Lemma seg_insert_other h bs nxt x e :
  x ∉ all bs → seg h bs nxt → seg (<[x := e]> h) bs nxt.
Proof.
  intros Hx. apply seg_frame.
  - intros y Hy. rewrite nib_insert, decide_False; [done|]. by intros ->.
  - intros b Hb%top_in_all. rewrite nb_insert, decide_False; [done|]. by intros ->.
Qed.

Lemma stack_present h x l y : stack h x l → y ∈ x :: l → is_Some (h !! y).
Proof.
  revert x. induction l as [|z l IH]; intros x; cbn.
  - intros Hn [->|[]%not_elem_of_nil]%elem_of_cons. unfold nib in Hn. by destruct (h !! x).
  - intros [Hn Hs] [->|Hy]%elem_of_cons; [|by eapply IH].
    unfold nib in Hn. by destruct (h !! x).
Qed.

Lemma seg_present h bs nxt y : seg h bs nxt → y ∈ all bs → is_Some (h !! y).
Proof.
  induction bs as [|b bs IH]; [by intros _ []%not_elem_of_nil|].
  intros (Hs & _ & Hr). rewrite all_cons. intros [Hy|Hy]%elem_of_app; [|by apply IH].
  by eapply stack_present.
Qed.

(** The last bin of a segment gets a new successor. *)
Lemma seg_relink h bs b e nxt nxt' :
  seg h (bs ++ [b]) nxt → h !! b.1 = Some e → NoDup (all (bs ++ [b])) →
  seg (<[b.1 := with_nextBin e nxt']> h) (bs ++ [b]) nxt'.
Proof.
  rewrite !seg_app, all_app. cbn [first seg all]. intros (H1 & H2 & _ & _) He Hnd.
  apply NoDup_app in Hnd as (_ & Hd & _). split_and!; [..|done].
  - apply seg_insert_other; [|done]. intros Hin. apply (Hd _ Hin). left.
  - eapply stack_frame; [|exact H2]. intros y _. rewrite nib_insert. case_decide; [|done].
    subst y. unfold nib. by rewrite He.
  - rewrite nb_insert. by rewrite decide_True.
Qed.

(** The bins after a segment are replaced: the last bin of it is linked to them. *)
Lemma relink h bs b l2 nxt :
  seg h (bs ++ [b]) nxt → seg h l2 None → NoDup (all (bs ++ [b]) ++ all l2) →
  ∃ h', put h b.1 (λ e, with_nextBin e (first l2 None)) = Ok h' ∧ same_info h h' ∧
    seg h' (bs ++ [b]) (first l2 None) ∧ seg h' l2 None.
Proof.
  intros Hs Hs2 (Hnd & Hd & _)%NoDup_app.
  assert (b.1 ∈ all (bs ++ [b])) as Hb by (apply top_in_all, elem_of_app; right; left).
  destruct (seg_present _ _ _ _ Hs Hb) as [e He].
  rewrite (put_Ok _ _ _ _ He). eexists. split; [done|]. split_and!.
  - by eapply same_info_insert.
  - by eapply seg_relink.
  - apply seg_insert_other; [|done]. by apply Hd.
Qed.

(** ** Queues *)

(** All events of a bin have the key of its top, and the keys increase. *)
Definition one_key (h : gmap Z Event) (b : bin) : Prop :=
  Forall (λ y, kof h y = kof h b.1) b.2.

Definition increasing (h : gmap Z Event) (bs : list bin) : Prop :=
  StronglySorted (λ b c, Agenda.before (kof h b.1) (kof h c.1)) bs.

Record rep (q : t) (bs : list bin) : Prop := {
  rep_head : head q = first bs None;
  rep_seg : seg (heap q) bs None;
  rep_nodup : NoDup (all bs);
  rep_key : Forall (one_key (heap q)) bs;
  rep_increasing : increasing (heap q) bs;
}.

(** The entries of the bins. *)
Definition entries (h : gmap Z Event) (bs : list bin) : list (Z * (Z * Z)) :=
  (λ x, (x, kof h x)) <$> all bs.

Lemma entries_app h bs1 bs2 : entries h (bs1 ++ bs2) = entries h bs1 ++ entries h bs2.
Proof. unfold entries. by rewrite all_app, fmap_app. Qed.

Lemma entries_fst h bs : (entries h bs).*1 = all bs.
Proof. unfold entries. rewrite <- list_fmap_compose. apply list_fmap_id. Qed.

Lemma one_key_info h h' b : same_info h h' → one_key h b → one_key h' b.
Proof.
  intros Hs Hk. eapply Forall_impl; [exact Hk|]. cbn. intros y.
  by rewrite !(same_info_kof _ _ _ Hs).
Qed.

Lemma increasing_info h h' bs : same_info h h' → increasing h bs → increasing h' bs.
Proof.
  intros Hs Hi. induction Hi as [|b bs _ IH Hall]; constructor; [done|].
  eapply Forall_impl; [exact Hall|]. intros c. by rewrite !(same_info_kof _ _ _ Hs).
Qed.

Lemma entries_info h h' bs : same_info h h' → entries h' bs = entries h bs.
Proof.
  intros Hs. unfold entries. apply list_fmap_ext. intros i x _.
  by rewrite (same_info_kof _ _ _ Hs).
Qed.

(** *** Finding a bin *)

Lemma seg_top h b bs nxt : seg h (b :: bs) nxt → ∃ e, h !! b.1 = Some e ∧ nextBin e = first bs nxt.
Proof.
  cbn [seg]. intros (_ & Hn & _). unfold nb in Hn. destruct (h !! b.1) as [e|]; [|done].
  exists e. split; [done|]. by injection Hn.
Qed.

Lemma kof_lookup h x e : h !! x = Some e → kof h x = key e.
Proof. unfold kof. by intros ->. Qed.

(** The loop passes the bins [l1] that come before the event and stops at [l2]. *)
Lemma find_bin_spec fuel h e c l1 l2 :
  seg h (c :: l1 ++ l2) None → Forall (λ b, Agenda.before (kof h b.1) (key e)) l1 →
  (∀ b l, l2 = b :: l → ¬ Agenda.before (kof h b.1) (key e)) → (length l1 < fuel)%nat →
  ∃ l0 b, c :: l1 = l0 ++ [b] ∧
    find_bin fuel h e c.1 (first (l1 ++ l2) None) = Ok (b.1, first l2 None).
Proof.
  revert c fuel. induction l1 as [|d l1 IH]; intros c [|fuel] Hs Hl Hn Hf; cbn in Hf; try lia.
  - exists [], c. split; [done|]. cbn [app first find_bin]. destruct l2 as [|b l2]; [done|].
    cbn [first]. destruct Hs as (_ & _ & Hs). destruct (seg_top _ _ _ _ Hs) as (be & Hb & _).
    rewrite (get_Ok _ _ _ Hb). cbn [rbind]. specialize (Hn b l2 eq_refl).
    rewrite (kof_lookup _ _ _ Hb) in Hn.
    by rewrite event_lt_spec, bool_decide_eq_false_2.
  - apply Forall_cons in Hl as [Hd Hl]. cbn [app first find_bin].
    destruct Hs as (_ & _ & Hs). change (seg h (d :: l1 ++ l2) None) in Hs.
    destruct (seg_top _ _ _ _ Hs) as (de & Hde & Hnb).
    rewrite (get_Ok _ _ _ Hde). cbn [rbind]. rewrite (kof_lookup _ _ _ Hde) in Hd.
    rewrite event_lt_spec, bool_decide_eq_true_2 by done. rewrite Hnb.
    destruct (IH d fuel Hs Hl Hn ltac:(lia)) as (l0 & b & E & Hfb).
    exists (c :: l0), b. split; [|done]. by rewrite E.
Qed.

(** The bins before the event and the others. *)
Lemma split_bins h k bs :
  ∃ l1 l2, bs = l1 ++ l2 ∧ Forall (λ b : bin, Agenda.before (kof h b.1) k) l1 ∧
    ∀ b l, l2 = b :: l → ¬ Agenda.before (kof h b.1) k.
Proof.
  induction bs as [|b bs IH]; [by exists [], []|].
  destruct (decide (Agenda.before (kof h b.1) k)) as [Hb|Hb].
  - destruct IH as (l1 & l2 & -> & H1 & H2). exists (b :: l1), l2. auto.
  - exists [], (b :: bs). split; [done|]. split; [done|]. by intros ? ? [= <- <-].
Qed.

(** At most one bin per event of the store. *)
Lemma bins_le_size h bs nxt : seg h bs nxt → NoDup (all bs) → (length bs ≤ size h)%nat.
Proof.
  intros Hs Hnd. rewrite <- size_dom. transitivity (length (all bs)).
  - clear. induction bs as [|b bs IH]; [done|]. rewrite all_cons, length_app. cbn. lia.
  - rewrite <- (size_list_to_set (C := gset Z) (all bs)) by done. apply subseteq_size.
    intros y Hy%elem_of_list_to_set. apply elem_of_dom. by eapply seg_present.
Qed.

(** *** [insert] *)

Lemma increasing_top h b c bs :
  increasing h (b :: bs) → c ∈ bs → Agenda.before (kof h b.1) (kof h c.1).
Proof. intros [_ Hall]%StronglySorted_inv Hc. rewrite Forall_forall in Hall. by apply Hall. Qed.

(** The bins [l2'] hold the event [x] first and then those of [l2]. *)
Definition starts_with (h : gmap Z Event) (x : Z) (l2 l2' : list bin) : Prop :=
  seg h l2' None ∧ first l2' None = Some x ∧ all l2' = x :: all l2 ∧
  Forall (one_key h) l2' ∧ increasing h l2'.

(** A bin of its own, before the others. *)
Lemma new_bin h l2 x e e' :
  seg h l2 None → Forall (one_key h) l2 → increasing h l2 → h !! x = Some e → x ∉ all l2 →
  info e' = info e → nextInBin e' = None → nextBin e' = first l2 None →
  (∀ b l, l2 = b :: l → Agenda.before (key e) (kof h b.1)) →
  starts_with (<[x := e']> h) x l2 ((x, []) :: l2).
Proof.
  intros Hs Hk Hi He Hx Hinfo Hni Hnb Hb.
  pose proof (same_info_insert _ _ _ _ He Hinfo) as Hsi. split_and!; [|done|done|..].
  - cbn [seg fst snd stack]. rewrite nib_insert, nb_insert, !decide_True, Hni, Hnb by done.
    split; [done|]. split; [done|]. by apply seg_insert_other.
  - constructor; [constructor|]. eapply Forall_impl; [exact Hk|].
    intros ?. by apply one_key_info.
  - constructor; [by eapply increasing_info|]. apply Forall_forall. intros c Hc. cbn [fst].
    rewrite !(same_info_kof _ _ _ Hsi), (kof_lookup _ _ _ He).
    destruct l2 as [|b l2]; [by apply not_elem_of_nil in Hc|].
    specialize (Hb b l2 eq_refl). apply elem_of_cons in Hc as [->|Hc]; [done|].
    eapply Agenda.before_trans; [exact Hb|]. by eapply increasing_top.
Qed.

(** The top of the first bin. *)
Lemma push_bin h b l2 x e e' :
  seg h (b :: l2) None → Forall (one_key h) (b :: l2) → increasing h (b :: l2) →
  h !! x = Some e → x ∉ all (b :: l2) →
  info e' = info e → nextInBin e' = Some b.1 → nextBin e' = first l2 None →
  key e = kof h b.1 →
  starts_with (<[x := e']> h) x (b :: l2) ((x, elems b) :: l2).
Proof.
  intros (Hst & Hnb' & Hs2) [Hkb Hk]%Forall_cons Hi He Hx Hinfo Hni Hnb Hke.
  pose proof (same_info_insert _ _ _ _ He Hinfo) as Hsi.
  rewrite all_cons, not_elem_of_app in Hx. destruct Hx as [Hxb Hx2].
  split_and!; [|done|done|..].
  - cbn [seg fst snd]. split; [|split; [|by apply seg_insert_other]].
    + cbn [elems stack]. rewrite nib_insert, decide_True, Hni by done. split; [done|].
      eapply stack_frame; [|exact Hst]. intros y Hy.
      rewrite nib_insert, decide_False; [done|]. by intros ->.
    + by rewrite nb_insert, decide_True, Hnb by done.
  - constructor; [|eapply Forall_impl; [exact Hk|]; intros ?; by apply one_key_info].
    unfold one_key. cbn [fst snd elems]. apply Forall_cons.
    rewrite !(same_info_kof _ _ _ Hsi), (kof_lookup _ _ _ He). split; [done|].
    eapply Forall_impl; [exact Hkb|]. cbn. intros y Hy.
    by rewrite (same_info_kof _ _ _ Hsi), Hy.
  - apply StronglySorted_inv in Hi as [Hi Hall]. constructor; [by eapply increasing_info|].
    eapply Forall_impl; [exact Hall|]. cbn. intros c.
    by rewrite !(same_info_kof _ _ _ Hsi), (kof_lookup _ _ _ He), Hke.
Qed.

(** [insertBefore] at bins the first of which is not before the event. *)
Lemma insertBefore_spec h l2 x e :
  seg h l2 None → Forall (one_key h) l2 → increasing h l2 →
  h !! x = Some e → x ∉ all l2 →
  (∀ b l, l2 = b :: l → ¬ Agenda.before (kof h b.1) (key e)) →
  ∃ e' l2', insertBefore h x (first l2 None) = Ok (<[x := e']> h) ∧
    info e' = info e ∧ starts_with (<[x := e']> h) x l2 l2'.
Proof.
  intros Hs Hk Hi He Hx Hn. destruct l2 as [|b l2]; cbn [first insertBefore].
  - rewrite (put_Ok _ _ _ _ He). eexists _, _. split; [done|]. split; [done|].
    by eapply new_bin.
  - destruct (seg_top _ _ _ _ Hs) as (be & Hb & Hnb).
    rewrite (get_Ok _ _ _ He), (get_Ok _ _ _ Hb). cbn [rbind].
    rewrite event_lt_spec. specialize (Hn b l2 eq_refl). rewrite (kof_lookup _ _ _ Hb) in Hn.
    case_bool_decide as Hlt; rewrite (put_Ok _ _ _ _ He); eexists _, _;
      (split; [done|]); (split; [done|]).
    + eapply new_bin; try done. intros ? ? [= <- <-]. by rewrite (kof_lookup _ _ _ Hb).
    + eapply push_bin; try done. rewrite (kof_lookup _ _ _ Hb).
      unfold Agenda.before, key in *; cbn in *. f_equal; lia.
Qed.

(** The bins before the event, then those that start with it. *)
Lemma assemble q h l1 l2 l2' x e :
  rep q (l1 ++ l2) → same_info (heap q) h → heap q !! x = Some e → x ∉ all (l1 ++ l2) →
  Forall (λ b, Agenda.before (kof (heap q) b.1) (key e)) l1 →
  (∀ b l, l2 = b :: l → ¬ Agenda.before (kof (heap q) b.1) (key e)) →
  seg h l1 (Some x) → starts_with h x l2 l2' →
  rep (with_head q h (first (l1 ++ l2') None)) (l1 ++ l2') ∧
  entries h (l1 ++ l2') = Agenda.insert (x, key e) (entries (heap q) (l1 ++ l2)).
Proof.
  intros [_ _ Hnd Hk Hi] Hsi He Hx Hl1 Hl2 Hs1 (Hs2 & Hf & Hall & Hk2 & Hi2).
  apply Forall_app in Hk as [Hk1 _]. apply StronglySorted_app in Hi as (_ & Hi1 & _).
  assert (kof h x = key e) as Hkx.
  { by rewrite (same_info_kof _ _ _ Hsi), (kof_lookup _ _ _ He). }
  split; [split|].
  - done.
  - apply seg_app. by rewrite Hf.
  - rewrite all_app, Hall. rewrite all_app in Hnd, Hx.
    rewrite <- Permutation_middle. by constructor.
  - apply Forall_app. split; [|done]. eapply Forall_impl; [exact Hk1|].
    intros ?. by apply one_key_info.
  - apply StronglySorted_app. split_and!; [|by eapply increasing_info|done].
    intros b c Hb Hc. cbn [with_head heap]. rewrite Forall_forall in Hl1. specialize (Hl1 b Hb).
    rewrite (same_info_kof _ _ _ Hsi).
    destruct l2' as [|d l2']; [by apply not_elem_of_nil in Hc|]. injection Hf as Hd.
    apply elem_of_cons in Hc as [->|Hc]; [by rewrite Hd, Hkx|].
    pose proof (increasing_top _ _ _ _ Hi2 Hc) as Hdc. rewrite Hd, Hkx in Hdc.
    by eapply Agenda.before_trans.
  - rewrite !entries_app, Agenda.insert_app.
    + rewrite (entries_info _ _ l1 Hsi). f_equal. unfold entries. rewrite Hall.
      rewrite fmap_cons, Hkx. f_equal. by apply (entries_info _ _ l2).
    + apply Forall_fmap, Forall_forall. cbn.
      intros y (b & Hy & Hb)%list_elem_of_bind. rewrite Forall_forall in Hl1, Hk1.
      apply elem_of_cons in Hy as [->|Hy]; [by apply Hl1|].
      specialize (Hk1 b Hb). unfold one_key in Hk1. rewrite Forall_forall in Hk1.
      rewrite (Hk1 y Hy). by apply Hl1.
    + intros y l E. destruct l2 as [|b l2]; [done|]. injection E as <- _. by eapply Hl2.
Qed.

(** The event enters the list where the specification puts it. *)
Lemma insert_rep q bs x e :
  rep q bs → heap q !! x = Some e → x ∉ all bs →
  ∃ h bs', insert q x = Ok (with_head q h (first bs' None)) ∧
    rep (with_head q h (first bs' None)) bs' ∧ same_info (heap q) h ∧
    entries h bs' = Agenda.insert (x, key e) (entries (heap q) bs).
Proof.
  intros Hrep He Hx. pose proof Hrep as [Hh Hs Hnd Hk Hi].
  unfold insert. rewrite (get_Ok _ _ _ He). cbn [rbind].
  destruct (split_bins (heap q) (key e) bs) as (l1 & l2 & -> & Hl1 & Hl2).
  rewrite Hh. apply seg_app in Hs as [Hs1 Hs2]. pose proof Hx as Hx'.
  rewrite all_app, not_elem_of_app in Hx'. destruct Hx' as [Hx1 Hx2].
  apply Forall_app in Hk as [Hk1 Hk2]. apply StronglySorted_app in Hi as (_ & Hi1 & Hi2).
  destruct (insertBefore_spec _ _ _ _ Hs2 Hk2 Hi2 He Hx2 Hl2) as (e' & l2' & Hib & Hinfo & Hst).
  pose proof (same_info_insert _ _ _ _ He Hinfo) as Hsi.
  destruct l1 as [|c l1].
  - destruct (assemble q _ [] l2 l2' x e Hrep Hsi He Hx Hl1 Hl2 I Hst) as [Hrep' Hent].
    exists (<[x := e']> (heap q)), l2'. split; [|done]. cbn [app] in *. rewrite (proj1 (proj2 Hst)).
    destruct l2 as [|b l2]; cbn [first] in *; [by rewrite Hib|].
    destruct (seg_top _ _ _ _ Hs2) as (be & Hb & _). rewrite (get_Ok _ _ _ Hb). cbn [rbind].
    specialize (Hl2 b l2 eq_refl). rewrite (kof_lookup _ _ _ Hb) in Hl2.
    rewrite event_le_spec, bool_decide_eq_false_2 by done. cbn [negb]. by rewrite Hib.
  - cbn [app first]. pose proof (seg_top _ _ _ _ Hs1) as (ce & Hce & Hnb).
    rewrite (get_Ok _ _ _ Hce). cbn [rbind]. pose proof Hl1 as [Hc Hl1']%Forall_cons.
    rewrite (kof_lookup _ _ _ Hce) in Hc.
    rewrite event_le_spec, bool_decide_eq_true_2 by done. cbn [negb].
    rewrite Hnb, <- first_app.
    destruct (find_bin_spec (S (size (heap q))) (heap q) e c l1 l2) as (l0 & b & E & ->);
      [apply (rep_seg _ _ Hrep)|done|done| |].
    { pose proof (bins_le_size _ _ _ (rep_seg _ _ Hrep) Hnd) as Hl.
      rewrite length_app in Hl. cbn in Hl. lia. }
    cbn [rbind]. rewrite Hib. cbn [rbind].
    rewrite E in Hs1, Hx1, Hl1, Hrep, Hx, Hnd. change (c :: l1 ++ l2) with ((c :: l1) ++ l2).
    rewrite E.
    destruct (relink (<[x := e']> (heap q)) l0 b l2' (first l2 None)) as (h & Hput & Hsi' & Hr1 & Hr2).
    { by apply seg_insert_other. }
    { apply Hst. }
    { destruct Hst as (_ & _ & -> & _). rewrite <- Permutation_middle, <- all_app.
      by constructor. }
    pose proof Hst as (_ & Hf & Hall & Hk' & Hi'). rewrite Hf in Hput, Hr1.
    destruct (assemble q h (l0 ++ [b]) l2 l2' x e Hrep) as [Hrep' Hent]; try done.
    { by etransitivity. }
    { split_and!; [done..| |by eapply increasing_info].
      eapply Forall_impl; [exact Hk'|]. intros ?. by apply one_key_info. }
    exists h, ((l0 ++ [b]) ++ l2'). split; [|split; [done|split; [by etransitivity|done]]].
    rewrite Hput. cbn [rbind]. unfold with_heap. rewrite Hh, <- E. done.
Qed.

(** *** [remove] *)

Lemma stack_top h x l : stack h x l → ∃ e, h !! x = Some e ∧ nextInBin e = hd_error l.
Proof.
  intros Hs. assert (nib h x = Some (hd_error l)) as Hn by (destruct l; cbn in *; naive_solver).
  unfold nib in Hn. destruct (h !! x) as [e|]; [|done]. exists e. split; [done|].
  by injection Hn.
Qed.

(** Below the top: the event is found and taken out of the stack. *)
Lemma unlink fuel h t r1 x r2 :
  stack h t (r1 ++ x :: r2) → NoDup (t :: r1 ++ x :: r2) → (length r1 < fuel)%nat →
  ∃ y ye xe, find_item fuel h x t (hd_error (r1 ++ x :: r2)) = Ok y ∧ y ∈ t :: r1 ∧
    h !! y = Some ye ∧ h !! x = Some xe ∧
    stack (<[y := with_nextInBin ye (nextInBin xe)]> h) t (r1 ++ r2).
Proof.
  revert t fuel. induction r1 as [|d r1 IH]; intros t [|fuel] Hs Hnd Hf; cbn in Hf; try lia.
  - destruct Hs as [Hn Hs]. destruct (stack_top _ _ _ Hs) as (xe & Hxe & Hnx).
    unfold nib in Hn. destruct (h !! t) as [te|] eqn:Ht; [|done].
    exists t, te, xe. cbn [app hd_error find_item]. rewrite Z.eqb_refl.
    split_and!; [done|left|done|done|]. rewrite Hnx.
    apply NoDup_cons in Hnd as [Hd [_ _]%NoDup_cons].
    destruct r2 as [|z r2]; cbn [stack hd_error].
    + by rewrite nib_insert, decide_True.
    + rewrite nib_insert, decide_True by done. split; [done|]. destruct Hs as [_ Hs].
      eapply stack_frame; [|exact Hs]. intros w Hw. rewrite nib_insert, decide_False; [done|].
      intros ->. apply Hd. by right.
  - cbn [app] in Hs, Hnd. destruct Hs as [Hn Hs].
    apply NoDup_cons in Hnd as [Hd Hnd].
    destruct (IH d fuel Hs Hnd ltac:(lia)) as (y & ye & xe & Hfi & Hy & Hye & Hxe & Hst).
    exists y, ye, xe. cbn [app hd_error find_item].
    destruct (stack_top _ _ _ Hs) as (de & Hde & Hnd').
    assert (x ≠ d) as Hxd.
    { intros ->. apply NoDup_cons in Hnd as [Hnd _]. apply Hnd, elem_of_app. right. left. }
    rewrite (proj2 (Z.eqb_neq _ _) Hxd), (get_Ok _ _ _ Hde). cbn [rbind]. rewrite Hnd'.
    split_and!; [done|by right|done|done|]. cbn [stack]. split; [|done].
    rewrite nib_insert, decide_False; [done|]. intros ->. apply Hd. set_solver.
Qed.

(** What is left of a bin without [x]. *)
Definition rest_of (h : gmap Z Event) (x : Z) (b : bin) (bl : list bin) : Prop :=
  all bl = filter (λ y, y ≠ x) (elems b) ∧
  Forall (λ b', one_key h b' ∧ kof h b'.1 = kof h b.1) bl ∧ (length bl ≤ 1)%nat.

Lemma filter_ne_id (x : Z) (l : list Z) : x ∉ l → filter (λ y, y ≠ x) l = l.
Proof.
  induction l as [|y l IH]; [done|]. rewrite not_elem_of_cons. intros [Hy Hl].
  rewrite filter_cons, decide_True by congruence. by rewrite IH.
Qed.

Lemma filter_ne_cons (x : Z) (l : list Z) : x ∉ l → filter (λ y, y ≠ x) (x :: l) = l.
Proof. intros Hx. rewrite filter_cons, decide_False by auto. by apply filter_ne_id. Qed.

Lemma filter_ne_middle (x : Z) (l1 l2 : list Z) :
  x ∉ l1 → x ∉ l2 → filter (λ y, y ≠ x) (l1 ++ x :: l2) = l1 ++ l2.
Proof. intros H1 H2. by rewrite filter_app, filter_ne_cons, filter_ne_id. Qed.

Lemma bin_le_size h b bs nxt : seg h (b :: bs) nxt → NoDup (all (b :: bs)) → (length b.2 < size h)%nat.
Proof.
  intros Hs Hnd. rewrite all_cons in Hnd. apply NoDup_app in Hnd as (Hnd & _).
  change (S (length b.2) ≤ size h)%nat. change (S (length b.2)) with (length (elems b)).
  rewrite <- size_dom, <- (size_list_to_set (C := gset Z) (elems b)) by done.
  apply subseteq_size. intros y Hy%elem_of_list_to_set. apply elem_of_dom.
  eapply seg_present; [exact Hs|]. rewrite all_cons. apply elem_of_app. by left.
Qed.

Lemma removeItem_top h t r l2 te :
  seg h ((t, r) :: l2) None → NoDup (t :: r) → (∀ x, x ∈ t :: r → x ∉ all l2) →
  one_key h (t, r) → h !! t = Some te →
  nextInBin te = hd_error r → nextBin te = first l2 None →
  ∃ h' bl, removeItem h t t = Ok (h', first (bl ++ l2) None) ∧ same_info h h' ∧
    seg h' (bl ++ l2) None ∧ rest_of h t (t, r) bl ∧
    ∀ y, y ∉ t :: r → h' !! y = h !! y.
Proof.
  intros (Hst & _ & Hs2) [Htr _]%NoDup_cons Hdis Hk Hte Hni Hnb.
  unfold removeItem. rewrite (get_Ok _ _ _ Hte). cbn [rbind]. rewrite Z.eqb_refl, Hni, Hnb.
  destruct r as [|n r]; cbn [hd_error].
  - exists h, []. do 3 (split; [done|]). split; [|done].
    split; [|by split; [constructor|cbn; lia]]. change (elems (t, [])) with [t].
    by rewrite filter_ne_cons by set_solver.
  - destruct Hst as [_ Hst]. destruct (stack_top _ _ _ Hst) as (ne & Hne & _).
    rewrite (put_Ok _ _ _ _ Hne). cbn [rbind]. eexists _, [(n, r)]. split; [done|].
    split; [by eapply same_info_insert|]. split; [|split].
    + cbn [app seg fst snd]. split; [|split].
      * eapply stack_frame; [|exact Hst]. intros y _. rewrite nib_insert. case_decide; [|done].
        subst y. unfold nib. by rewrite Hne.
      * by rewrite nb_insert, decide_True by done.
      * apply seg_insert_other; [|done]. apply Hdis. right. left.
    + split; [|split; [|cbn; lia]].
      * change (elems (t, n :: r)) with (t :: n :: r). rewrite filter_ne_cons by done.
        unfold all. cbn. by rewrite app_nil_r.
      * apply Forall_singleton. apply Forall_cons in Hk as [Hkn Hk]. cbn [fst] in *.
        split; [|done]. eapply Forall_impl; [exact Hk|]. cbn. intros y ->. done.
    + intros y Hy. rewrite lookup_insert_ne; [done|]. intros <-. apply Hy. right. left.
Qed.

Lemma removeItem_below h t r1 x r2 l2 te :
  seg h ((t, r1 ++ x :: r2) :: l2) None → NoDup (t :: r1 ++ x :: r2) →
  (∀ y, y ∈ t :: r1 ++ x :: r2 → y ∉ all l2) → one_key h (t, r1 ++ x :: r2) →
  (length (r1 ++ x :: r2) < size h)%nat → h !! t = Some te →
  nextInBin te = hd_error (r1 ++ x :: r2) → nextBin te = first l2 None →
  ∃ h' bl, removeItem h x t = Ok (h', first (bl ++ l2) None) ∧ same_info h h' ∧
    seg h' (bl ++ l2) None ∧ rest_of h x (t, r1 ++ x :: r2) bl ∧
    ∀ y, y ∉ t :: r1 ++ x :: r2 → h' !! y = h !! y.
Proof.
  intros (Hst & _ & Hs2) Hnd Hdis Hk Hsz Hte Hni Hnb.
  pose proof Hnd as [Htr (_ & Hd1 & [Hx2 _]%NoDup_cons)%NoDup_app]%NoDup_cons.
  assert (x ≠ t) as Hne by (intros ->; apply Htr, elem_of_app; right; left).
  unfold removeItem. rewrite (get_Ok _ _ _ Hte). cbn [rbind].
  rewrite (proj2 (Z.eqb_neq _ _) Hne).
  destruct (unlink (S (size h)) h t r1 x r2 Hst Hnd) as (y & ye & xe & Hfi & Hy & Hye & Hxe & Hst').
  { rewrite length_app in Hsz. lia. }
  rewrite Hni, Hfi. cbn [rbind]. rewrite (get_Ok _ _ _ Hxe). cbn [rbind].
  rewrite (put_Ok _ _ _ _ Hye). cbn [rbind]. eexists _, [(t, r1 ++ r2)]. split; [done|].
  split; [by eapply same_info_insert|].
  assert (y ∈ t :: r1 ++ x :: r2) as Hyb by set_solver.
  split; [|split].
  - cbn [app seg fst snd]. split; [done|]. split.
    + rewrite nb_insert. case_decide; [subst y; rewrite Hte in Hye; injection Hye as <-; cbn|].
      * by rewrite Hnb.
      * unfold nb. by rewrite Hte; cbn; rewrite Hnb.
    + apply seg_insert_other; [|done]. by apply Hdis.
  - split; [|split; [|cbn; lia]].
    + change (elems (t, r1 ++ x :: r2)) with ((t :: r1) ++ x :: r2).
      rewrite filter_ne_middle; [unfold all; cbn; by rewrite app_nil_r| |done].
      apply not_elem_of_cons. split; [done|]. intros Hx1. apply (Hd1 x Hx1). left.
    + apply Forall_singleton. cbn [fst]. split; [|done]. unfold one_key in *. cbn [fst snd] in *.
      rewrite Forall_app, Forall_cons in Hk. apply Forall_app. naive_solver.
  - intros z Hz. rewrite lookup_insert_ne; [done|]. by intros <-.
Qed.

Lemma removeItem_spec h b l2 x :
  seg h (b :: l2) None → NoDup (all (b :: l2)) → one_key h b → x ∈ elems b →
  ∃ h' bl, removeItem h x b.1 = Ok (h', first (bl ++ l2) None) ∧ same_info h h' ∧
    seg h' (bl ++ l2) None ∧ rest_of h x b bl ∧
    ∀ y, y ∉ elems b → h' !! y = h !! y.
Proof.
  intros Hs Hnd Hk Hx. pose proof (bin_le_size _ _ _ _ Hs Hnd) as Hsz.
  destruct b as [t r]. destruct (seg_top _ _ _ _ Hs) as (te & Hte & Hnb).
  rewrite all_cons in Hnd. apply NoDup_app in Hnd as (Hnd & Hdis & _).
  destruct (stack_top _ _ _ (proj1 Hs)) as (te' & Hte' & Hni).
  cbn [fst snd] in *. rewrite Hte in Hte'. injection Hte' as <-.
  destruct (decide (x = t)) as [->|Hne].
  - by apply (removeItem_top h t r l2 te).
  - apply elem_of_cons in Hx as [->|Hx]; [done|]. cbn [snd] in Hx.
    apply list_elem_of_split in Hx as (r1 & r2 & ->).
    by apply (removeItem_below h t r1 x r2 l2 te).
Qed.

Lemma rest_of_entries h x b bl : rest_of h x b bl → x ∈ elems b → entries h bl = Agenda.remove x (entries h [b]).
Proof.
  intros [Hall _] _. unfold entries, Agenda.remove. rewrite Hall. clear Hall.
  change (all [b]) with (elems b ++ []). rewrite app_nil_r.
  induction (elems b) as [|y l IH]; [done|].
  rewrite fmap_cons, !filter_cons. cbn [fst]. case_decide; [by rewrite fmap_cons, IH|done].
Qed.

Lemma rest_nodup h x l1 b l2 bl :
  NoDup (all (l1 ++ b :: l2)) → rest_of h x b bl → NoDup (all l1 ++ all (bl ++ l2)).
Proof.
  rewrite all_app, all_cons, !NoDup_app. intros (H1 & Hd & H2 & Hd2 & H3) [Hall _].
  rewrite all_app, Hall, NoDup_app. split_and!; [done| |by apply NoDup_filter| |done].
  - intros y Hy. specialize (Hd y Hy). rewrite not_elem_of_app in Hd |- *.
    destruct Hd as [Hyb Hy2]. split; [|done]. by intros [_ ?]%list_elem_of_filter.
  - intros y [_ Hy]%list_elem_of_filter. by apply Hd2.
Qed.

(** The bins without the event. *)
Lemma shrink q h l1 b l2 bl x :
  rep q (l1 ++ b :: l2) → same_info (heap q) h → x ∈ elems b →
  seg h l1 (first (bl ++ l2) None) → seg h (bl ++ l2) None → rest_of (heap q) x b bl →
  rep (with_head q h (first (l1 ++ bl ++ l2) None)) (l1 ++ bl ++ l2) ∧
  entries h (l1 ++ bl ++ l2) = Agenda.remove x (entries (heap q) (l1 ++ b :: l2)).
Proof.
  intros [_ _ Hnd Hk Hi] Hsi Hx Hs1 Hs2 Hrest. pose proof Hrest as (Hall & Hbl & Hlen).
  rewrite Forall_app, Forall_cons in Hk. destruct Hk as (Hk1 & _ & Hk2).
  pose proof Hnd as Hnd'. rewrite all_app, all_cons in Hnd'.
  apply NoDup_app in Hnd' as (_ & Hd1 & (_ & Hdb & _)%NoDup_app).
  apply StronglySorted_app in Hi as (Hi12 & Hi1 & Hib). pose proof Hib as [Hi2 Hb2]%StronglySorted_inv.
  rewrite Forall_forall in Hbl, Hb2.
  split; [split|].
  - done.
  - by apply seg_app.
  - rewrite all_app. by eapply rest_nodup.
  - assert (∀ l, Forall (one_key (heap q)) l → Forall (one_key h) l) as Hf.
    { intros l Hl. eapply Forall_impl; [exact Hl|]. intros ?. by apply one_key_info. }
    apply Forall_app. split; [by apply Hf|]. apply Forall_app. split; [|by apply Hf].
    apply Hf, Forall_forall. intros b' Hb'. by apply Hbl.
  - apply (increasing_info (heap q) h); [done|]. apply StronglySorted_app. split_and!; [|done|].
    + intros c d Hc [Hd|Hd]%elem_of_app.
      * destruct (Hbl d Hd) as [_ ->]. apply Hi12; [done|left].
      * apply Hi12; [done|by right].
    + apply StronglySorted_app. split_and!; [| |done].
      * intros c d Hc Hd. destruct (Hbl c Hc) as [_ ->]. by apply Hb2.
      * destruct bl as [|d [|? ?]]; cbn in Hlen; [constructor| |lia]. by repeat constructor.
  - rewrite (entries_info (heap q) h) by done. rewrite !entries_app.
    change (b :: l2) with ([b] ++ l2). rewrite entries_app, !Agenda.remove_app.
    rewrite (rest_of_entries _ _ _ _ Hrest Hx). f_equal; [|f_equal].
    + symmetry. apply Agenda.remove_not_in. rewrite entries_fst. intros Hx1.
      apply (Hd1 x Hx1). apply elem_of_app. by left.
    + symmetry. apply Agenda.remove_not_in. rewrite entries_fst. by apply Hdb.
Qed.

Lemma kof_in_bin h b x : one_key h b → x ∈ elems b → kof h x = kof h b.1.
Proof.
  intros Hk [->|Hx]%elem_of_cons; [done|]. unfold one_key in Hk. rewrite Forall_forall in Hk.
  by apply Hk.
Qed.

(** The search finds the bin of the event, behind the bins of earlier keys. *)
Lemma find_for_removal q c l1 b l2 e :
  rep q ((c :: l1) ++ b :: l2) → kof (heap q) b.1 = key e →
  ∃ ce l0 b', heap q !! c.1 = Some ce ∧ event_eq ce e = false ∧ c :: l1 = l0 ++ [b'] ∧
    find_bin (S (size (heap q))) (heap q) e c.1 (nextBin ce) = Ok (b'.1, Some b.1).
Proof.
  intros [_ Hs Hnd _ Hi] Hke. pose proof Hs as [Hs1 Hs2]%seg_app.
  destruct (seg_top _ _ _ _ Hs1) as (ce & Hce & Hnb).
  apply StronglySorted_app in Hi as (Hi12 & _).
  assert (∀ d, d ∈ c :: l1 → Agenda.before (kof (heap q) d.1) (key e)) as Hbef.
  { intros d Hd. rewrite <- Hke. apply Hi12; [done|left]. }
  rewrite <- first_app in Hnb.
  destruct (find_bin_spec (S (size (heap q))) (heap q) e c l1 (b :: l2)) as (l0 & b' & E & Hfb).
  { exact Hs. }
  { apply Forall_forall. intros d Hd. apply Hbef. by right. }
  { intros ? ? [= <- <-]. rewrite Hke. apply Agenda.before_irrefl. }
  { pose proof (bins_le_size _ _ _ Hs Hnd) as Hl. rewrite length_app in Hl. cbn in Hl. lia. }
  exists ce, l0, b'. rewrite Hnb. split_and!; [done| |done|done].
  rewrite event_eq_spec, bool_decide_eq_false_2; [done|]. intros Eq.
  specialize (Hbef c ltac:(left)). rewrite (kof_lookup _ _ _ Hce), Eq in Hbef.
  by apply Agenda.before_irrefl in Hbef.
Qed.

Lemma remove_rep q bs x e :
  rep q bs → heap q !! x = Some e → queue e = Some (id q) → x ∈ all bs →
  ∃ h bs', remove q x = Ok (with_head q h (first bs' None)) ∧
    rep (with_head q h (first bs' None)) bs' ∧ same_info (heap q) h ∧
    entries h bs' = Agenda.remove x (entries (heap q) bs).
Proof.
  intros Hrep He Hq Hx. pose proof Hrep as [Hh Hs Hnd Hk _].
  apply list_elem_of_bind in Hx as (b & Hxb & Hb).
  apply list_elem_of_split in Hb as (l1 & l2 & ->).
  pose proof Hs as [Hs1 Hs2]%seg_app. pose proof Hnd as Hnd'. rewrite all_app in Hnd'.
  apply NoDup_app in Hnd' as (_ & Hdis & Hnd2). apply Forall_app in Hk as [_ [Hkb _]%Forall_cons].
  destruct (removeItem_spec _ _ _ _ Hs2 Hnd2 Hkb Hxb)
    as (h1 & bl & Hri & Hsi1 & Hs1' & Hrest & Hframe).
  destruct (seg_top _ _ _ _ Hs2) as (be & Hbe & _).
  assert (kof (heap q) b.1 = key e) as Hke.
  { rewrite <- (kof_lookup _ _ _ He). symmetry. by apply kof_in_bin. }
  assert (event_eq be e = true) as Heq.
  { rewrite event_eq_spec. apply bool_decide_eq_true_2. by rewrite <- Hke, (kof_lookup _ _ _ Hbe). }
  unfold remove. rewrite Hh. destruct l1 as [|c l1]; cbn [app first];
    rewrite (get_Ok _ _ _ He); cbn [rbind]; rewrite bool_decide_eq_true_2 by done;
    cbn [assert rbind].
  - rewrite (get_Ok _ _ _ Hbe). cbn [rbind]. rewrite Heq, Hri. cbn [rbind].
    destruct (shrink q h1 [] b l2 bl x Hrep Hsi1 Hxb I Hs1' Hrest) as [Hrep' Hent].
    by exists h1, (bl ++ l2).
  - destruct (find_for_removal q c l1 b l2 e Hrep Hke) as (ce & l0 & b' & Hce & Hne & E & Hfb).
    rewrite (get_Ok _ _ _ Hce). cbn [rbind]. rewrite Hne, Hfb. cbn [rbind].
    rewrite (get_Ok _ _ _ Hbe). cbn [rbind]. rewrite Heq. cbn [negb]. rewrite Hri. cbn [rbind].
    change (c :: l1 ++ b :: l2) with ((c :: l1) ++ b :: l2). rewrite E in *.
    destruct (relink h1 l0 b' (bl ++ l2) (Some b.1)) as (h2 & Hput & Hsi2 & Hr1 & Hr2); [|done| |].
    { assert (∀ y, y ∈ all (l0 ++ [b']) → h1 !! y = heap q !! y) as Hf.
      { intros y Hy. apply Hframe. intros Hyb. apply (Hdis y Hy). rewrite all_cons.
        apply elem_of_app. by left. }
      eapply seg_frame; [| |exact Hs1].
      - intros y Hy. unfold nib. by rewrite Hf.
      - intros d Hd%top_in_all. unfold nb. by rewrite Hf. }
    { by eapply rest_nodup. }
    rewrite Hput. cbn [rbind].
    destruct (shrink q h2 (l0 ++ [b']) b l2 bl x) as [Hrep' Hent]; try done; [by etransitivity|].
    exists h2, ((l0 ++ [b']) ++ bl ++ l2). split; [|split; [done|split; [by etransitivity|done]]].
    unfold with_heap. rewrite Hh, <- E. done.
Qed.
