(* ===== verification/EventRefinement.v ===== *)
(** * The operations of the event queue refine the agenda

    [schedule], [deschedule], [reschedule] and the removal of the first event,
    against [Agenda]; the order of events in time; [debugVerify]. *)

From stdpp Require Import sorting.
From S2P Require Import Prelude.
From S2P Require Import Flit.
From S2P Require Import EventQueue.
From S2P Require Import EventOrder.

Import EventQueue.

(** ** Flags *)

Lemma isSet_bit f k : 0 ≤ k → Flags.isSet f (2 ^ k) = Z.testbit f k.
Proof.
  intros Hk. unfold Flags.isSet. destruct (Z.testbit f k) eqn:E.
  - apply negb_true_iff, Z.eqb_neq. intros H0.
    assert (Z.testbit (Z.land f (2 ^ k)) k = true) as Ht.
    { by rewrite Z.land_spec, E, Z.pow2_bits_true. }
    rewrite H0, Z.testbit_0_l in Ht. done.
  - apply negb_false_iff, Z.eqb_eq, Z.bits_inj_0. intros n. rewrite Z.land_spec.
    destruct (decide (n = k)) as [->|Hn]; [by rewrite E|].
    by rewrite Z.pow2_bits_false, andb_false_r by congruence.
Qed.

Lemma land_set f m i : Z.land m i = 0 → Z.land (Flags.set f m) i = Z.land f i.
Proof. intros Hm. unfold Flags.set. by rewrite Z.land_lor_distr_l, Hm, Z.lor_0_r. Qed.

Lemma land_clear f m i : Z.land m i = 0 → Z.land (Flags.clear f m) i = Z.land f i.
Proof.
  intros Hm. apply Z.bits_inj. intros n. unfold Flags.clear.
  rewrite !Z.land_spec, Z.ldiff_spec.
  assert (Z.testbit (Z.land m i) n = false) as Hn by by rewrite Hm, Z.testbit_0_l.
  rewrite Z.land_spec in Hn. destruct (Z.testbit f n), (Z.testbit m n), (Z.testbit i n); done.
Qed.

Lemma scheduled_bit e : scheduled e = Z.testbit (flags e) 1.
Proof. apply (isSet_bit _ 1). lia. Qed.

Lemma scheduled_set f : Z.testbit (Flags.set f Scheduled) 1 = true.
Proof. unfold Flags.set. rewrite Z.lor_spec. apply orb_true_r. Qed.

Lemma scheduled_clear f : Z.testbit (Flags.clear f Scheduled) 1 = false.
Proof. unfold Flags.clear. rewrite Z.ldiff_spec. apply andb_false_r. Qed.

(** ** What the flags say *)

(** Every event of the store is initialised, and those of [l], which belong to the
    queue [i], are the scheduled ones. *)
Definition status (i : Z) (l : list Z) (h : gmap Z Event) : Prop :=
  ∀ y e, h !! y = Some e →
    initialized e = true ∧ (scheduled e = true ↔ y ∈ l) ∧ (y ∈ l → queue e = Some i).

Lemma status_info i l h h' : same_info h h' → status i l h → status i l h'.
Proof.
  intros Hs Hst y e He. specialize (Hs y). rewrite He in Hs.
  destruct (h !! y) as [e0|] eqn:E; [|done]. specialize (Hst y e0 E).
  unfold info, initialized, scheduled in *. injection Hs as _ _ -> ->. done.
Qed.

Lemma status_insert i l l' h x e :
  status i l h → initialized e = true → (scheduled e = true ↔ x ∈ l') →
  (x ∈ l' → queue e = Some i) → (∀ y, y ≠ x → y ∈ l' ↔ y ∈ l) →
  status i l' (<[x := e]> h).
Proof.
  intros Hst Hi Hs Hq Hl y e' He'. rewrite lookup_insert in He'.
  case_decide as E; [injection He' as <-; by subst|]. rewrite Hl by done. by apply Hst.
Qed.

(** The queue [q] holds the agenda [l]. *)
Definition holds (q : t) (l : list (Z * (Z * Z))) : Prop :=
  ∃ bs, rep q bs ∧ entries (heap q) bs = l ∧ status (id q) (all bs) (heap q) ∧
        async_queue q = [].

(** The store may change where the bins do not look. *)
Lemma rep_frame q h bs :
  rep q bs → (∀ y, y ∈ all bs → nib h y = nib (heap q) y ∧ nb h y = nb (heap q) y ∧
                                 kof h y = kof (heap q) y) →
  rep (with_heap q h) bs ∧ entries h bs = entries (heap q) bs.
Proof.
  intros [Hh Hs Hnd Hk Hi] Hf.
  assert (∀ b, b ∈ bs → ∀ y, y ∈ elems b → y ∈ all bs) as Hin.
  { intros b Hb y Hy. apply list_elem_of_bind. by exists b. }
  split; [split|].
  - done.
  - eapply seg_frame; [| |exact Hs]; [intros y Hy; by apply Hf|].
    intros b Hb. apply Hf. by apply top_in_all.
  - done.
  - apply Forall_forall. intros b Hb. rewrite Forall_forall in Hk. specialize (Hk b Hb).
    apply Forall_forall. intros y Hy. unfold one_key in Hk. rewrite Forall_forall in Hk.
    cbn [with_heap with_head heap].
    destruct (Hf y) as (_ & _ & ->); [apply (Hin b Hb); by right|].
    destruct (Hf b.1) as (_ & _ & ->); [apply (Hin b Hb); left|]. by apply Hk.
  - cbn [with_heap with_head heap]. clear -Hi Hf. unfold increasing in *.
    induction Hi as [|b bs Hi IH Hall]; constructor.
    + apply IH. intros y Hy. apply Hf. rewrite all_cons. apply elem_of_app. by right.
    + rewrite Forall_forall in Hall |- *. intros c Hc.
      destruct (Hf b.1) as (_ & _ & ->); [rewrite all_cons; left|].
      destruct (Hf c.1) as (_ & _ & ->); [|by apply Hall].
      rewrite all_cons. apply elem_of_app. right. by apply top_in_all.
  - unfold entries. apply list_fmap_ext. intros i y Hy%list_elem_of_lookup_2.
    by destruct (Hf y Hy) as (_ & _ & ->).
Qed.

(** Flags are not links. *)
Lemma rep_flags q bs x e f :
  rep q bs → heap q !! x = Some e →
  rep (with_heap q (<[x := with_flags e f]> (heap q))) bs ∧
  entries (<[x := with_flags e f]> (heap q)) bs = entries (heap q) bs.
Proof.
  intros Hrep He. apply rep_frame; [done|]. intros y _. unfold nib, nb, kof.
  rewrite lookup_insert. case_decide; [subst|done]. by rewrite He.
Qed.

(** Events outside the queue. *)
Lemma rep_other q bs x e :
  rep q bs → x ∉ all bs →
  rep (with_heap q (<[x := e]> (heap q))) bs ∧
  entries (<[x := e]> (heap q)) bs = entries (heap q) bs.
Proof.
  intros Hrep Hx. apply rep_frame; [done|]. intros y Hy. unfold nib, nb, kof.
  rewrite lookup_insert_ne; [done|]. by intros <-.
Qed.

(** ** Operations *)

Definition status_but (x i : Z) (l : list Z) (h : gmap Z Event) : Prop :=
  ∀ y e, y ≠ x → h !! y = Some e →
    initialized e = true ∧ (scheduled e = true ↔ y ∈ l) ∧ (y ∈ l → queue e = Some i).

(** What [schedule] and [reschedule] share: the event gets its time, enters the
    queue and is marked. *)
Definition enter (q : t) (x : Z) (w : Tick) (g : Z → Z) : result t :=
  h ← put (heap q) x (λ e, setWhen e w (id q));
  q ← insert (with_heap q h) x;
  set_flags q x g.

Lemma enter_spec q bs x e w g :
  rep q bs → async_queue q = [] → x ∉ all bs → heap q !! x = Some e →
  status_but x (id q) (all bs) (heap q) → initialized e = true →
  (∀ f, Z.testbit (g f) 1 = true) → (∀ f, Z.land (g f) InitMask = Z.land f InitMask) →
  ∃ q', enter q x w g = Ok q' ∧ _curTick q' = _curTick q ∧
    holds q' (Agenda.insert (x, (w, priority e)) (entries (heap q) bs)).
Proof.
  intros Hrep Ha Hx He Hst Hi Hg1 Hg2. unfold enter. rewrite (put_Ok _ _ _ _ He). cbn [rbind].
  set (e1 := setWhen e w (id q)).
  destruct (rep_other q bs x e1 Hrep Hx) as [Hrep1 Hent1].
  destruct (insert_rep _ bs x e1 Hrep1) as (h2 & bs2 & -> & Hrep2 & Hsi & Hent2).
  { apply lookup_insert_eq. }
  { done. }
  cbn [rbind with_heap with_head heap] in *.
  destruct (same_info_lookup _ _ x e1 Hsi) as (e2 & He2 & Hinfo); [apply lookup_insert_eq|].
  assert (e2 = with_nextBin (with_nextInBin e1 (nextInBin e2)) (nextBin e2)) as Ee2.
  { destruct e2. unfold info in Hinfo. cbn in Hinfo. injection Hinfo as -> -> -> ->. done. }
  unfold set_flags. cbn [with_head heap]. rewrite (put_Ok _ _ _ _ He2). cbn [rbind].
  destruct (rep_flags _ bs2 x e2 (g (flags e2)) Hrep2 He2) as [Hrep3 Hent3].
  cbn [with_head heap] in Hrep3, Hent3.
  eexists. split; [done|]. split; [done|]. exists bs2. split; [done|].
  cbn [with_heap with_head heap id async_queue]. split; [by rewrite Hent3, Hent2, Hent1|].
  split; [|done].
  assert (∀ y, y ∈ all bs2 ↔ y = x ∨ y ∈ all bs) as Hin.
  { intros y. rewrite <- (entries_fst h2), Hent2, Agenda.insert_fst, entries_fst. cbn [fst].
    apply elem_of_cons. }
  intros y ey Hy. rewrite lookup_insert in Hy. case_decide as E.
  - subst y. injection Hy as <-. rewrite scheduled_bit, Hin. cbn [with_flags flags queue].
    rewrite Hg1. unfold initialized. cbn [with_flags flags]. rewrite Hg2, Ee2. naive_solver.
  - specialize (Hsi y). rewrite Hy, lookup_insert_ne in Hsi by congruence.
    destruct (heap q !! y) as [e0|] eqn:E0; [|done].
    destruct (Hst y e0) as (H1 & H2 & H3); [congruence|done|].
    unfold initialized, scheduled, info in *. injection Hsi as _ _ -> ->.
    rewrite Hin. naive_solver.
Qed.

Lemma holds_event q l x :
  holds q l → x ∈ l.*1 → ∃ e, heap q !! x = Some e ∧ scheduled e = true ∧
    initialized e = true ∧ queue e = Some (id q).
Proof.
  intros (bs & Hrep & <- & Hst & _). rewrite entries_fst. intros Hx.
  destruct (seg_present _ _ _ _ (rep_seg _ _ Hrep) Hx) as [e He].
  exists e. destruct (Hst x e He). naive_solver.
Qed.

Lemma schedule_refines q l x e w :
  holds q l → heap q !! x = Some e → x ∉ l.*1 → _curTick q ≤ w →
  ∃ q', schedule q x w false = Ok q' ∧ _curTick q' = _curTick q ∧
    holds q' (Agenda.insert (x, (w, priority e)) l).
Proof.
  intros (bs & Hrep & <- & Hst & Ha) He Hx Hw. rewrite entries_fst in Hx.
  destruct (Hst x e He) as (Hi & Hs & _).
  unfold schedule. rewrite (get_Ok _ _ _ He). cbn [rbind].
  rewrite (proj2 (Z.leb_le _ _) Hw). cbn [assert rbind].
  destruct (scheduled e); [by destruct Hx; apply Hs|]. rewrite Hi. cbn [negb assert rbind].
  apply (enter_spec q bs x e w (λ f, Flags.set f Scheduled)); try done.
  - intros y ey _. apply Hst.
  - apply scheduled_set.
  - intros f. by apply land_set.
Qed.

(** The event leaves the queue, still marked as scheduled. *)
Lemma remove_holds q l x e :
  holds q l → heap q !! x = Some e → x ∈ l.*1 →
  ∃ q' bs e', remove q x = Ok q' ∧ rep q' bs ∧ id q' = id q ∧ _curTick q' = _curTick q ∧
    async_queue q' = [] ∧ entries (heap q') bs = Agenda.remove x l ∧ x ∉ all bs ∧
    heap q' !! x = Some e' ∧ info e' = info e ∧ status_but x (id q) (all bs) (heap q').
Proof.
  intros (bs & Hrep & <- & Hst & Ha) He Hx. rewrite entries_fst in Hx.
  destruct (Hst x e He) as (Hi & _ & Hq).
  destruct (remove_rep q bs x e Hrep He (Hq Hx) Hx) as (h & bs' & Hr & Hrep' & Hsi & Hent).
  destruct (same_info_lookup _ _ _ _ Hsi He) as (e' & He' & Hinfo).
  exists (with_head q h (first bs' None)), bs', e'.
  assert (∀ y, y ∈ all bs' ↔ y ≠ x ∧ y ∈ all bs) as Hin.
  { intros y. rewrite <- (entries_fst h), Hent, Agenda.remove_fst, entries_fst.
    by rewrite list_elem_of_filter. }
  split_and!; try done; [rewrite Hin; naive_solver|].
  intros y ey Hne Hy. destruct (status_info _ _ _ _ Hsi Hst y ey Hy) as (H1 & H2 & H3).
  rewrite Hin. naive_solver.
Qed.

Lemma deschedule_refines q l x :
  holds q l → x ∈ l.*1 →
  ∃ q', deschedule q x true = Ok q' ∧ _curTick q' = _curTick q ∧ holds q' (Agenda.remove x l).
Proof.
  intros Hh Hx. destruct (holds_event q l x Hh Hx) as (e & He & Hs & Hi & _).
  destruct (remove_holds q l x e Hh He Hx)
    as (q1 & bs & e1 & Hr & Hrep & Hid & Ht & Ha & Hent & Hxb & He1 & Hinfo & Hst).
  unfold deschedule. rewrite (get_Ok _ _ _ He). cbn [rbind]. rewrite Hs, Hi.
  cbn [assert rbind]. rewrite Hr. cbn [rbind]. unfold set_flags.
  rewrite (put_Ok _ _ _ _ He1). cbn [rbind]. unfold release. cbn [with_heap with_head heap].
  rewrite (get_Ok (<[x := _]> _) x _ (lookup_insert_eq _ _ _)). cbn [rbind].
  set (e2 := with_flags e1 _).
  assert (scheduled e2 = false) as Hs2.
  { rewrite scheduled_bit. cbn [e2 with_flags flags]. apply scheduled_clear. }
  assert (initialized e2 = true) as Hi2.
  { unfold initialized, e2 in *. cbn [with_flags flags]. rewrite !land_clear by done.
    unfold info in Hinfo. by injection Hinfo as _ _ -> _. }
  destruct (rep_other q1 bs x e2 Hrep Hxb) as [Hrep2 Hent2].
  rewrite Hs2, andb_true_r. destruct (isManaged e2).
  - eexists. split; [done|]. split; [done|]. exists bs.
    destruct (rep_frame q1 (delete x (<[x := e2]> (heap q1))) bs Hrep) as [Hrep3 Hent3].
    { intros y Hy. unfold nib, nb, kof. rewrite delete_insert_eq, lookup_delete_ne; [done|].
      by intros <-. }
    split; [done|]. cbn [with_heap with_head heap async_queue id] in *.
    split; [by rewrite Hent3|]. split; [|done]. intros y ey Hy.
    rewrite lookup_delete_Some in Hy. destruct Hy as [Hne Hy].
    rewrite lookup_insert_ne in Hy by done. rewrite Hid. by apply Hst.
  - eexists. split; [done|]. split; [done|]. exists bs. split; [done|].
    cbn [with_heap with_head heap async_queue id] in *. split; [by rewrite Hent2|]. split; [|done].
    intros y ey Hy. rewrite lookup_insert in Hy. rewrite Hid. case_decide as E.
    + subst y. injection Hy as <-. rewrite Hs2. naive_solver.
    + apply Hst; [congruence|done].
Qed.

Lemma reschedule_refines q l x e w always :
  holds q l → heap q !! x = Some e → _curTick q ≤ w → (always = true ∨ x ∈ l.*1) →
  ∃ q', reschedule q x w always true = Ok q' ∧ _curTick q' = _curTick q ∧
    holds q' (Agenda.insert (x, (w, priority e)) (Agenda.remove x l)).
Proof.
  intros Hh He Hw Hal. pose proof Hh as (bs & Hrep & El & Hst & Ha).
  destruct (Hst x e He) as (Hi & Hs & _).
  assert (x ∈ l.*1 ↔ scheduled e = true) as Hxs by by rewrite Hs, <- El, entries_fst.
  unfold reschedule. rewrite (get_Ok _ _ _ He). cbn [rbind].
  rewrite (proj2 (Z.leb_le _ _) Hw), Hi. cbn [assert rbind].
  replace (always || scheduled e) with true
    by (destruct Hal as [->|Hx%Hxs]; [done|by rewrite Hx, orb_true_r]).
  cbn [assert rbind].
  set (g := λ f, Flags.set (Flags.clear f Squashed) Scheduled).
  assert (∀ f, Z.land (g f) InitMask = Z.land f InitMask) as Hg.
  { intros f. unfold g. by rewrite land_set, land_clear. }
  destruct (scheduled e) eqn:Es.
  - destruct (remove_holds q l x e Hh He (proj2 Hxs eq_refl))
      as (q1 & bs1 & e1 & -> & Hrep1 & Hid & Ht & Ha1 & Hent & Hxb & He1 & Hinfo & Hst1).
    cbn [rbind]. unfold info in Hinfo. injection Hinfo as Hw1 Hp1 Hf1 Hq1.
    destruct (enter_spec q1 bs1 x e1 w g) as (q2 & Hq2 & Ht2 & Hh2); try done.
    { by rewrite Hid. }
    { by rewrite <- Hi; unfold initialized; rewrite Hf1. }
    { intros f. apply scheduled_set. }
    exists q2. rewrite Hent, Hp1 in Hh2. rewrite Ht in Ht2. done.
  - cbn [rbind]. rewrite Agenda.remove_not_in by (intros Hx%Hxs; done).
    rewrite <- El. apply (enter_spec q bs x e w g); try done.
    + intros Hx%Hs. done.
    + intros y ey _. apply Hst.
    + intros f. apply scheduled_set.
Qed.

(** ** The operations as actions *)

Inductive action :=
| Schedule (x : Z) (w : Tick)
| Deschedule (x : Z)
| Reschedule (x : Z) (w : Tick) (always : bool).

Definition act (q : t) (a : action) : result t :=
  match a with
  | Schedule x w => schedule q x w false
  | Deschedule x => deschedule q x true
  | Reschedule x w always => reschedule q x w always true
  end.

(** When an action is allowed, given the agenda [l]. *)
Definition allowed (q : t) (l : list (Z * (Z * Z))) (a : action) : Prop :=
  match a with
  | Schedule x w => is_Some (heap q !! x) ∧ x ∉ l.*1 ∧ _curTick q ≤ w
  | Deschedule x => x ∈ l.*1
  | Reschedule x w always =>
      is_Some (heap q !! x) ∧ _curTick q ≤ w ∧ (always = true ∨ x ∈ l.*1)
  end.

(** What it does to the agenda. *)
Definition act_agenda (q : t) (a : action) (l : list (Z * (Z * Z))) : list (Z * (Z * Z)) :=
  match a with
  | Schedule x w => Agenda.insert (x, (w, (kof (heap q) x).2)) l
  | Deschedule x => Agenda.remove x l
  | Reschedule x w _ => Agenda.insert (x, (w, (kof (heap q) x).2)) (Agenda.remove x l)
  end.

Lemma act_allowed q l a :
  holds q l → allowed q l a →
  ∃ q', act q a = Ok q' ∧ _curTick q' = _curTick q ∧ holds q' (act_agenda q a l).
Proof.
  intros Hh Hal. destruct a as [x w|x|x w always]; cbn [act allowed act_agenda] in *.
  - destruct Hal as ([e He] & Hx & Hw). rewrite (kof_lookup _ _ _ He).
    by apply schedule_refines.
  - by apply deschedule_refines.
  - destruct Hal as ([e He] & Hw & Hx). rewrite (kof_lookup _ _ _ He).
    by apply reschedule_refines.
Qed.

Lemma get_inv h x e : get h x = Ok e → h !! x = Some e.
Proof. apply determinate_Ok. Qed.

Lemma holds_scheduled q l x e :
  holds q l → heap q !! x = Some e → scheduled e = true ↔ x ∈ l.*1.
Proof.
  intros (bs & _ & <- & Hst & _) He. rewrite entries_fst. by apply (Hst x e He).
Qed.

(** The assertions are the preconditions. *)
Lemma act_returns q l a q' : holds q l → act q a = Ok q' → allowed q l a.
Proof.
  intros Hh Ha. destruct a as [x w|x|x w always]; cbn [act allowed] in *.
  - unfold schedule in Ha. step_bind Ha as e He%get_inv.
    step_bind Ha as [] Hw%assert_Ok. step_bind Ha as [] Hs%assert_Ok. boolify.
    split_and!; [by exists e| |lia]. rewrite <- (holds_scheduled _ _ _ _ Hh He). by rewrite Hs.
  - unfold deschedule in Ha. step_bind Ha as e He%get_inv.
    step_bind Ha as [] Hs%assert_Ok. by apply (holds_scheduled _ _ _ _ Hh He).
  - unfold reschedule in Ha. step_bind Ha as e He%get_inv.
    step_bind Ha as [] Hw%assert_Ok. step_bind Ha as [] Hs%assert_Ok. boolify.
    split_and!; [by exists e|lia|]. rewrite <- (holds_scheduled _ _ _ _ Hh He).
    by apply orb_true_iff.
Qed.

(** C9: the event queue refines the agenda.  Scheduling, descheduling and
    rescheduling return exactly when the event is known, the time has not passed
    and the event is, or is not, in the queue as the operation demands; they then
    insert the event before the first one that is not earlier and take it out of
    its place, and leave the current tick alone.  The stale links between bins are
    never followed. *)
Theorem event_queue_refines q l a :
  holds q l →
  (allowed q l a ↔ ∃ q', act q a = Ok q') ∧
  (∀ q', act q a = Ok q' → holds q' (act_agenda q a l) ∧ _curTick q' = _curTick q).
Proof.
  intros Hh. split; [split|].
  - intros Hal. destruct (act_allowed q l a Hh Hal) as (q' & ? & _). by exists q'.
  - intros [q' Ha]. by eapply act_returns.
  - intros q' Ha. destruct (act_allowed q l a Hh (act_returns _ _ _ _ Hh Ha)) as (q1 & H1 & H2 & H3).
    rewrite Ha in H1. injection H1 as <-. done.
Qed.

(** ** Servicing events *)

Lemma pop_spec q x k l :
  holds q ((x, k) :: l) →
  ∃ q' e, pop q = Ok (x, q') ∧ _curTick q' = _curTick q ∧ holds q' l ∧
    heap q' !! x = Some e ∧ key e = k ∧ scheduled e = false.
Proof.
  intros (bs & Hrep & El & Hst & Ha). pose proof Hrep as [Hh Hs Hnd Hk Hi].
  destruct bs as [|[y r] bs]; [done|].
  pose proof El as Ey. injection Ey as -> Hkx _.
  destruct (seg_top _ _ _ _ Hs) as (e & He & Hnb). cbn [fst] in He.
  destruct (stack_top _ _ _ (proj1 Hs)) as (e' & He' & Hni). cbn [fst snd] in He', Hni.
  rewrite He in He'. injection He' as <-.
  set (e1 := with_flags e (Flags.clear (flags e) Scheduled)).
  destruct (rep_flags q _ x e (Flags.clear (flags e) Scheduled) Hrep He) as [Hrep1 Hent1].
  pose proof Hrep1 as [_ Hs1 Hnd1 Hk1 _]. cbn [with_heap with_head heap] in Hs1, Hk1, Hent1.
  apply Forall_cons in Hk1 as [Hkb _].
  destruct (removeItem_spec _ _ _ x Hs1 Hnd Hkb) as (h & bl & Hri & Hsi & Hs2 & Hrest & _); [left|].
  assert (pop q = Ok (x, with_head q h (first (bl ++ bs) None))) as ->.
  { unfold pop. rewrite Hh. cbn [first fst determinate rbind].
    rewrite (get_Ok _ _ _ He). cbn [rbind]. rewrite (put_Ok _ _ _ _ He). cbn [rbind].
    unfold removeItem in Hri. rewrite (get_Ok (<[x := e1]> _) _ e1) in Hri by apply lookup_insert_eq.
    cbn [rbind fst] in Hri. rewrite Z.eqb_refl in Hri. cbn [e1 with_flags nextInBin nextBin] in Hri.
    destruct (nextInBin e) as [n|]; [|by injection Hri as -> ->].
    step_bind Hri as h' Hput. injection Hri as -> <-. by rewrite Hput. }
  destruct (shrink _ h [] _ bs bl x Hrep1 Hsi ltac:(left) I Hs2 Hrest) as [Hrep2 Hent2].
  cbn [app with_heap with_head heap] in Hrep2, Hent2.
  destruct (same_info_lookup _ _ x e1 Hsi) as (e2 & He2 & Hinfo); [apply lookup_insert_eq|].
  unfold info in Hinfo. injection Hinfo as Hw Hp Hf Hq.
  exists (with_head q h (first (bl ++ bs) None)), e2. split_and!; try done.
  - exists (bl ++ bs). split; [done|]. cbn [with_head heap id async_queue].
    assert (x ∉ l.*1) as Hxl.
    { rewrite <- (entries_fst (heap q)), El in Hnd. by apply NoDup_cons in Hnd as [? _]. }
    assert (entries h (bl ++ bs) = l) as Hl by by rewrite Hent2, Hent1, El, Agenda.remove_head.
    split; [done|]. split; [|done].
    assert (all (bl ++ bs) = l.*1) as Hall by by rewrite <- Hl, entries_fst.
    rewrite Hall. apply (status_info _ _ _ _ Hsi).
    eapply status_insert; [exact Hst|..].
    + unfold initialized. cbn [with_flags flags]. rewrite land_clear by done.
      apply (Hst x e He).
    + rewrite scheduled_bit. cbn [with_flags flags]. rewrite scheduled_clear. by split.
    + done.
    + intros y Hy. rewrite <- (entries_fst (heap q)), El, fmap_cons, elem_of_cons.
      cbn [fst]. naive_solver.
  - unfold key. rewrite Hw, Hp. rewrite <- Hkx, (kof_lookup _ _ _ He). done.
  - rewrite scheduled_bit, Hf. cbn [e1 with_flags flags]. apply scheduled_clear.
Qed.

(** ** Time *)

Lemma holds_sorted q l : holds q l → Agenda.sorted l.
Proof.
  intros (bs & [_ _ _ Hk Hi] & <- & _). unfold Agenda.sorted, entries.
  induction Hi as [|b bs Hi IH Hall]; [constructor|].
  apply Forall_cons in Hk as [Hkb Hk]. rewrite all_cons, fmap_app. apply StronglySorted_app.
  assert (∀ y, y ∈ elems b → kof (heap q) y = kof (heap q) b.1) as Hb
    by (intros; by apply kof_in_bin).
  split_and!; [| |by apply IH].
  - intros x1 x2 (y & -> & Hy)%list_elem_of_fmap (z & -> & (c & Hz & Hc)%list_elem_of_bind)%list_elem_of_fmap.
    cbn [snd]. rewrite Forall_forall in Hall, Hk. specialize (Hall c Hc).
    rewrite (Hb y Hy), (kof_in_bin _ c z (Hk c Hc) Hz). unfold Agenda.before in *. lia.
  - clear -Hb. induction (elems b) as [|y l IH]; [constructor|]. rewrite fmap_cons. constructor.
    + apply IH. intros z Hz. apply Hb. by right.
    + apply Forall_fmap, Forall_forall. intros z Hz. cbn [snd compose].
      rewrite (Hb y), (Hb z) by (left || by right). apply Agenda.before_irrefl.
Qed.

(** The queue is well formed and holds no event of the past. *)
Definition in_time (q : t) : Prop :=
  ∃ l, holds q l ∧ Forall (λ y, _curTick q ≤ y.2.1) l.

(** What happens to a queue: the operations that handlers call, and the pieces of
    [serviceOne]. *)
Inductive step : t → t → Prop :=
| step_act a q q' : act q a = Ok q' → step q q'
| step_squash x q q' : set_flags q x (λ f, Flags.set f Squashed) = Ok q' → step q q'
| step_run x q q1 e :
    pop q = Ok (x, q1) → heap q1 !! x = Some e → step q (setCurTick q1 (when e))
| step_skip x q q1 q' :
    pop q = Ok (x, q1) → set_flags q1 x (λ f, Flags.clear f Squashed) = Ok q' → step q q'
| step_release x q q' : release q x = Ok q' → step q q'.

Lemma pop_inv q l x q1 :
  holds q l → pop q = Ok (x, q1) →
  ∃ k l' e, l = (x, k) :: l' ∧ holds q1 l' ∧ _curTick q1 = _curTick q ∧
    heap q1 !! x = Some e ∧ key e = k.
Proof.
  intros Hh Hp. destruct l as [|[y k] l'].
  - destruct Hh as ([|b bs] & Hrep & E & _); [|done].
    unfold pop in Hp. by rewrite (rep_head _ _ Hrep) in Hp.
  - destruct (pop_spec q y k l' Hh) as (q' & e & Hp' & Ht & Hh' & He & Hk & _).
    rewrite Hp in Hp'. injection Hp' as <- <-. by exists k, l', e.
Qed.

(** Public flags other than [Scheduled] do not matter to the queue. *)
Lemma set_flags_holds q l x g q' :
  holds q l → set_flags q x g = Ok q' →
  (∀ f, Z.testbit (g f) 1 = Z.testbit f 1) → (∀ f, Z.land (g f) InitMask = Z.land f InitMask) →
  holds q' l ∧ _curTick q' = _curTick q.
Proof.
  intros (bs & Hrep & El & Hst & Ha) Hs Hg1 Hg2. unfold set_flags, put in Hs.
  step_bind Hs as h Hh. step_bind Hh as e He%get_inv. injection Hh as <-. injection Hs as <-.
  split; [|done]. destruct (rep_flags q bs x e (g (flags e)) Hrep He) as [Hrep' Hent].
  exists bs. split; [done|]. cbn [with_heap with_head heap id async_queue].
  split; [by rewrite Hent|]. split; [|done].
  destruct (Hst x e He) as (H1 & H2 & H3).
  eapply status_insert; [exact Hst|..|done].
  - unfold initialized in *. cbn [with_flags flags]. by rewrite Hg2.
  - rewrite scheduled_bit in *. cbn [with_flags flags]. by rewrite Hg1.
  - done.
Qed.

Lemma release_holds q l x q' : holds q l → release q x = Ok q' → holds q' l ∧ _curTick q' = _curTick q.
Proof.
  intros (bs & Hrep & El & Hst & Ha) Hr. unfold release in Hr. step_bind Hr as e He%get_inv.
  destruct (isManaged e && negb (scheduled e)) eqn:Em; injection Hr as <-; [|by split; [exists bs|]].
  split; [|done]. boolify. destruct (Hst x e He) as (_ & Hs & _).
  assert (x ∉ all bs) as Hx by (intros Hx; apply Hs in Hx; congruence).
  destruct (rep_frame q (delete x (heap q)) bs Hrep) as [Hrep' Hent].
  { intros y Hy. unfold nib, nb, kof. rewrite lookup_delete_ne; [done|]. by intros <-. }
  exists bs. split; [done|]. cbn [with_heap with_head heap id async_queue].
  split; [by rewrite Hent|]. split; [|done]. intros y ey Hy.
  apply lookup_delete_Some in Hy as [_ Hy]. by apply Hst.
Qed.

Lemma act_in_time q l a :
  Forall (λ y, _curTick q ≤ y.2.1) l → allowed q l a →
  Forall (λ y, _curTick q ≤ y.2.1) (act_agenda q a l).
Proof.
  rewrite !Forall_forall. intros Hl Hal y Hy.
  destruct a as [x w|x|x w always]; cbn [act_agenda allowed] in *.
  - apply Agenda.elem_of_insert in Hy as [->|Hy]; [by apply Hal|by apply Hl].
  - apply list_elem_of_filter in Hy as [_ Hy]. by apply Hl.
  - apply Agenda.elem_of_insert in Hy as [->|Hy]; [by apply Hal|].
    apply list_elem_of_filter in Hy as [_ Hy]. by apply Hl.
Qed.

Lemma setCurTick_holds q l w : holds q l → holds (setCurTick q w) l.
Proof. intros (bs & [] & Hr). exists bs. split; [by split|done]. Qed.

Lemma step_in_time q q' : step q q' → in_time q → in_time q' ∧ _curTick q ≤ _curTick q'.
Proof.
  intros Hs (l & Hh & Hl).
  destruct Hs as [a q q' Ha|x q q' Hf|x q q1 e Hp He|x q q1 q' Hp Hf|x q q' Hr].
  - pose proof (act_returns _ _ _ _ Hh Ha) as Hal.
    destruct (act_allowed q l a Hh Hal) as (q1 & H1 & H2 & H3).
    rewrite Ha in H1. injection H1 as <-. split; [|lia]. eexists. split; [done|].
    rewrite H2. by apply act_in_time.
  - destruct (set_flags_holds q l x _ q' Hh Hf) as [Hh' Ht].
    { intros f. unfold Flags.set. rewrite Z.lor_spec. by rewrite orb_false_r. }
    { intros f. by apply land_set. }
    split; [|lia]. exists l. rewrite Ht. done.
  - destruct (pop_inv q l x q1 Hh Hp) as (k & l' & e' & -> & Hh' & Ht & He' & Hk).
    rewrite He in He'. injection He' as <-. apply Forall_cons in Hl as [Hx Hl].
    assert (when e = k.1) as Hw by by rewrite <- Hk.
    split; [|cbn [setCurTick _curTick]; cbn in Hx; lia].
    exists l'. split; [by apply setCurTick_holds|].
    cbn [setCurTick _curTick]. apply holds_sorted in Hh.
    apply StronglySorted_inv in Hh as [_ Hall]. eapply Forall_impl; [exact Hall|].
    cbn. intros y Hy. unfold Agenda.before in Hy. lia.
  - destruct (pop_inv q l x q1 Hh Hp) as (k & l' & e' & -> & Hh' & Ht & He' & Hk).
    apply Forall_cons in Hl as [_ Hl].
    destruct (set_flags_holds q1 l' x _ q' Hh' Hf) as [Hh2 Ht2].
    { intros f. unfold Flags.clear. rewrite Z.ldiff_spec. by rewrite andb_true_r. }
    { intros f. by apply land_clear. }
    split; [|lia]. exists l'. by rewrite Ht2, Ht.
  - destruct (release_holds q l x q' Hh Hr) as [Hh' Ht]. split; [|lia]. exists l. by rewrite Ht.
Qed.

Lemma steps_in_time q q' : rtc step q q' → in_time q → in_time q' ∧ _curTick q ≤ _curTick q'.
Proof.
  induction 1 as [|q q1 q2 Hs _ IH]; intros Hq; [split; [done|lia]|].
  destruct (step_in_time _ _ Hs Hq) as [H1 Ht]. destruct (IH H1) as [H2 Ht2]. split; [done|lia].
Qed.

(** [serviceOne] is made of such steps when the handler is. *)
Lemma serviceOne_steps process q r q' :
  (∀ x q q', process x q = Ok q' → rtc step q q') →
  serviceOne process q = Ok (r, q') → rtc step q q'.
Proof.
  intros Hproc Hs. unfold serviceOne in Hs. step_bind Hs as [x q1] Hp.
  step_bind Hs as e He%get_inv. destruct (negb (squashed e)).
  - step_bind Hs as q2 Hq2%Hproc. step_bind Hs as e2 He2.
    eapply rtc_l; [by eapply step_run|]. etransitivity; [exact Hq2|].
    destruct (isExitEvent e2).
    + step_bind Hs as [] _. injection Hs as _ <-. done.
    + step_bind Hs as q3 Hq3. injection Hs as _ <-. apply rtc_once. by eapply step_release.
  - step_bind Hs as q2 Hq2. step_bind Hs as q3 Hq3. injection Hs as _ <-.
    eapply rtc_l; [by eapply step_skip|]. apply rtc_once. by eapply step_release.
Qed.

Lemma in_time_next q :
  in_time q → empty q = false →
  ∃ n x q1, nextTick q = Ok n ∧ _curTick q ≤ n ∧ pop q = Ok (x, q1).
Proof.
  intros (l & Hh & Hl) He. destruct l as [|[x k] l].
  { destruct Hh as ([|b bs] & Hrep & E & _); [|done]. unfold empty in He.
    by rewrite (rep_head _ _ Hrep) in He. }
  destruct (pop_spec q x k l Hh) as (q1 & e & Hp & _). exists k.1, x, q1.
  destruct Hh as ([|[y r] bs] & Hrep & E & _); [done|]. injection E as -> Hk _.
  apply Forall_cons in Hl as [Hx _]. cbn in Hx. split_and!; [|done|done].
  destruct (seg_top _ _ _ _ (rep_seg _ _ Hrep)) as (ex & Hex & _). cbn [fst] in Hex.
  unfold nextTick. rewrite (rep_head _ _ Hrep). cbn [first fst determinate rbind].
  rewrite (get_Ok _ _ _ Hex). cbn [rbind]. by rewrite <- Hk, (kof_lookup _ _ _ Hex).
Qed.

(** The loop of the simulator, with handlers that use the queue's operations. *)
Definition loop_step (process : Z → t → result t) (q q' : t) : Prop :=
  ∃ r, sim_step process q = Ok (r, q').

(** C10: events run in order of time.  From a well-formed queue, through any number
    of iterations of the simulation loop with handlers that schedule, reschedule,
    deschedule and squash events, the queue stays well formed, time never goes back,
    no event of the past is ever in the queue, and the loop's assertions and the
    removal of the first event succeed as long as an event is left. *)
Theorem events_in_time process q0 q :
  (∀ x q q', process x q = Ok q' → rtc step q q') →
  in_time q0 → rtc (loop_step process) q0 q →
  in_time q ∧ _curTick q0 ≤ _curTick q ∧
  (empty q = false → ∃ n x q1, nextTick q = Ok n ∧ _curTick q ≤ n ∧ pop q = Ok (x, q1)).
Proof.
  intros Hproc H0 Hr. assert (rtc step q0 q) as Hs.
  { induction Hr as [|q0 q1 q2 [r Hs] _ IH]; [done|]. unfold sim_step in Hs.
    step_bind Hs as [] _. step_bind Hs as n Hn. step_bind Hs as [] _.
    assert (rtc step q0 q1) as H1 by by eapply serviceOne_steps.
    etransitivity; [exact H1|]. apply IH. by eapply steps_in_time. }
  destruct (steps_in_time _ _ Hs H0) as [Hq Ht]. split_and!; [done|done|].
  by apply in_time_next.
Qed.

(** ** [debugVerify] *)

Lemma not_before_test e t p :
  ¬ Agenda.before (key e) (t, p) →
  (when e <? t) = false ∧ ((when e =? t) && (priority e <? p)) = false.
Proof.
  unfold Agenda.before, key. cbn. intros Hn. split; [apply Z.ltb_ge; lia|].
  apply andb_false_iff. destruct (Z.eqb_spec (when e) t); [right; apply Z.ltb_ge; lia|by left].
Qed.

Lemma not_seen (x : Z) seen : x ∉ seen → existsb (Z.eqb x) seen = false.
Proof.
  induction seen as [|y seen IH]; [done|]. rewrite not_elem_of_cons. intros [Hy Hs].
  cbn. rewrite (proj2 (Z.eqb_neq _ _) Hy). by apply IH.
Qed.

Lemma verify_bin_spec fuel h x r t p seen :
  stack h x r → Forall (λ y, kof h y = kof h x) r → NoDup (x :: r) →
  (∀ y, y ∈ x :: r → y ∉ seen) → ¬ Agenda.before (kof h x) (t, p) → (length r < fuel)%nat →
  verify_bin (S fuel) h (Some x) t p seen =
    Ok (Some (kof h x, reverse (x :: r) ++ seen)).
Proof.
  revert x t p seen fuel. induction r as [|y r IH]; intros x t p seen fuel Hs Hk Hnd Hseen Hb Hf;
    destruct (stack_top _ _ _ Hs) as (e & He & Hni); cbn [verify_bin];
    rewrite (get_Ok _ _ _ He); cbn [rbind]; rewrite (kof_lookup _ _ _ He) in *;
    destruct (not_before_test e t p Hb) as [-> ->];
    rewrite not_seen by (apply Hseen; left); rewrite Hni; cbn [hd_error].
  - by destruct fuel.
  - destruct fuel as [|fuel]; [lia|]. destruct Hs as [_ Hs].
    apply Forall_cons in Hk as [Hky Hk]. apply NoDup_cons in Hnd as [Hx Hnd].
    change (verify_bin (S fuel) h (Some y) (when e) (priority e) (x :: seen) =
            Ok (Some (key e, reverse (x :: y :: r) ++ seen))).
    rewrite (IH y (when e) (priority e) (x :: seen) fuel); try done.
    + rewrite Hky, (reverse_cons (y :: r) x), <- app_assoc. done.
    + eapply Forall_impl; [exact Hk|]. cbn. intros z ->. by rewrite Hky.
    + intros z Hz. rewrite not_elem_of_cons. split; [by intros ->|]. apply Hseen. by right.
    + rewrite Hky. apply Agenda.before_irrefl.
    + cbn in Hf. lia.
Qed.

Lemma verify_bins_spec fuel h bs t p seen :
  seg h bs None → Forall (one_key h) bs → increasing h bs → NoDup (all bs) →
  (∀ y, y ∈ all bs → y ∉ seen) → (∀ b l, bs = b :: l → ¬ Agenda.before (kof h b.1) (t, p)) →
  (length bs < fuel)%nat →
  verify_bins fuel h (first bs None) t p seen = Ok true.
Proof.
  revert t p seen fuel. induction bs as [|[x r] bs IH];
    intros t p seen fuel Hs Hk Hi Hnd Hseen Hb Hf; [by destruct fuel|].
  destruct fuel as [|fuel]; [lia|].
  pose proof (bin_le_size _ _ _ _ Hs Hnd) as Hsz. destruct (seg_top _ _ _ _ Hs) as (e & He & Hnb).
  apply Forall_cons in Hk as [Hkb Hk]. rewrite all_cons in Hnd, Hseen.
  apply NoDup_app in Hnd as (Hnd & Hdis & Hnd2). destruct Hs as (Hst & _ & Hs).
  cbn [first verify_bins fst snd] in *.
  rewrite (verify_bin_spec (size h) h x r t p seen); try done.
  2:{ intros y Hy. apply Hseen. apply elem_of_app. by left. }
  2:{ by apply (Hb (x, r) bs). }
  cbn [rbind]. destruct (kof h x) as [t' p'] eqn:Ek. rewrite (get_Ok _ _ _ He). cbn [rbind].
  rewrite Hnb. pose proof Hi as [Hi2 Hall]%StronglySorted_inv.
  apply IH; try done; [| |cbn in Hf; lia].
  - intros y Hy [Hyr|Hys]%elem_of_app.
    + rewrite elem_of_reverse in Hyr. by apply (Hdis y).
    + apply (Hseen y); [apply elem_of_app; by right|done].
  - intros b l ->. apply Forall_cons in Hall as [Hxb _]. cbn [fst] in Hxb. rewrite Ek in Hxb.
    unfold Agenda.before in *. lia.
Qed.

(** [debugVerify] accepts a well-formed queue, except that it takes the first
    event for an inversion of priorities when it is due at tick 0 with a negative
    priority: the check starts from time and priority 0. *)
Theorem debugVerify_correct q l :
  holds q l → Forall (λ y, 0 ≤ y.2.1) l →
  debugVerify q = Ok (match l with
                      | (_, (0, p)) :: _ => 0 <=? p
                      | _ => true
                      end).
Proof.
  intros (bs & [Hh Hs Hnd Hk Hi] & <- & _) Hl. unfold debugVerify. rewrite Hh.
  destruct bs as [|[x r] bs]; [done|].
  change (entries (heap q) ((x, r) :: bs)) with
    ((x, kof (heap q) x) :: ((λ y, (y, kof (heap q) y)) <$> r ++ all bs)) in *.
  apply Forall_cons in Hl as [H0 _]. cbn [snd] in H0.
  destruct (kof (heap q) x) as [t p] eqn:Ek. cbn [fst] in H0.
  destruct (decide (Agenda.before (t, p) (0, 0))) as [Hb|Hb].
  - unfold Agenda.before in Hb. cbn in Hb. assert (t = 0) as -> by lia.
    rewrite (proj2 (Z.leb_gt 0 p)) by lia. cbn [first fst verify_bins verify_bin].
    destruct (seg_top _ _ _ _ Hs) as (e & He & _). cbn [fst] in He.
    rewrite (get_Ok _ _ _ He). cbn [rbind]. rewrite (kof_lookup _ _ _ He) in Ek.
    unfold key in Ek. injection Ek as -> ->. cbn [Z.ltb Z.compare Z.eqb andb].
    by rewrite (proj2 (Z.ltb_lt p 0)) by lia.
  - rewrite verify_bins_spec; try done.
    + unfold Agenda.before in Hb. cbn in Hb. destruct t as [|t|t]; try done.
      rewrite (proj2 (Z.leb_le 0 p)) by lia. done.
    + intros y _. apply not_elem_of_nil.
    + intros b l' [= <- <-]. cbn [fst]. by rewrite Ek.
    + pose proof (bins_le_size _ _ _ Hs Hnd). lia.
Qed.

(** A queue without events. *)
Lemma make_holds i h :
  map_Forall (λ _ e, initialized e = true ∧ scheduled e = false) h → holds (make i h) [].
Proof.
  intros Hh. exists []. split; [split; try done; constructor|]. split; [done|]. split; [|done].
  intros y e He. destruct (Hh y e He) as [-> ->]. split; [done|]. split; [|by intros ?%not_elem_of_nil].
  split; [done|by intros ?%not_elem_of_nil].
Qed.

(** ** Three events *)

Module EventExample.

Definition event (p : Z) : Event := mkEvent None None 0 p Initialized None.

Definition store : gmap Z Event := <[1 := event 0]> (<[2 := event (-5)]> (<[3 := event 0]> ∅)).

Definition q0 : t := make 7 store.

Lemma store_ok : map_Forall (λ _ e, initialized e = true ∧ scheduled e = false) store.
Proof. apply (bool_decide_unpack _). vm_compute. exact I. Qed.

Lemma q0_holds : holds q0 [].
Proof. apply make_holds, store_ok. Qed.

(** Events 1, 2 and 3 scheduled for tick 40, in this order. *)
Definition scheduled_q : result t :=
  q ← schedule q0 1 40 false; q ← schedule q 2 40 false; schedule q 3 40 false.

Definition q3 : t := match scheduled_q with Ok q => q | Err _ => q0 end.

Lemma q3_holds : holds q3 [(2, (40, -5)); (3, (40, 0)); (1, (40, 0))].
Proof.
  destruct (schedule_refines q0 [] 1 (event 0) 40 q0_holds) as (a & Ha & Ta & Ka);
    [done|by apply not_elem_of_nil|done|].
  destruct (schedule_refines a _ 2 (event (-5)) 40 Ka) as (b & Hb & Tb & Kb).
  { clear -Ha. vm_compute in Ha. injection Ha as <-. reflexivity. }
  { cbn. set_solver. }
  { rewrite Ta. done. }
  destruct (schedule_refines b _ 3 (event 0) 40 Kb) as (c & Hc & Tc & Kc).
  { clear -Ha Hb. vm_compute in Ha. injection Ha as <-. vm_compute in Hb. injection Hb as <-.
    reflexivity. }
  { cbn. set_solver. }
  { rewrite Tb, Ta. done. }
  assert (scheduled_q = Ok c) as E by by unfold scheduled_q; rewrite Ha; cbn [rbind]; rewrite Hb.
  unfold q3. rewrite E. exact Kc.
Qed.

Lemma event_queue_refines_witness :
  (∃ q', act q3 (Reschedule 3 50 false) = Ok q') ∧
  ∀ q', act q3 (Reschedule 3 50 false) = Ok q' →
    holds q' [(2, (40, -5)); (1, (40, 0)); (3, (50, 0))].
Proof.
  destruct (event_queue_refines q3 _ (Reschedule 3 50 false) q3_holds) as [[H1 _] H2].
  split.
  - apply H1. cbn. split; [by eexists|]. split; [by vm_compute|]. right. set_solver.
  - intros q' Hq'. exact (proj1 (H2 q' Hq')).
Defined.

Lemma q3_in_time : in_time q3.
Proof. eexists. split; [exact q3_holds|]. repeat constructor; by vm_compute. Qed.

Definition idle (x : Z) (q : t) : result t := Ok q.

Definition q4 : t := match sim_step idle q3 with Ok (_, q) => q | Err _ => q3 end.

Lemma q4_step : loop_step idle q3 q4.
Proof. eexists. vm_compute. reflexivity. Qed.

Lemma events_in_time_witness : in_time q4 ∧ _curTick q3 ≤ _curTick q4.
Proof.
  destruct (events_in_time idle q3 q4) as (H1 & H2 & _).
  - intros x q q' [= <-]. apply rtc_refl.
  - exact q3_in_time.
  - apply rtc_once. exact q4_step.
  - split; [exact H1|exact H2].
Defined.

Lemma debugVerify_correct_witness : debugVerify q3 = Ok true.
Proof.
  rewrite (debugVerify_correct q3 _ q3_holds); [reflexivity|]. repeat constructor; cbn; lia.
Defined.

End EventExample.
