(* ===== verification/Construction.v ===== *)
(** * The construction of the network

    [garnet/GarnetLink.{hh,cc}] and the part of [garnet/GarnetNetwork.cc] that
    answers the calls of the topology: [makeExtInLink], [makeExtOutLink],
    [makeInternalLink] and [init].

    The links, credit links and bridges are objects shared by pointers.  Here they
    live in a store and a pointer is an index of it; an object of the store has, beside its
    own state, the two pointers that wiring sets: the consumer it wakes up and the
    queue it takes flits from.  A router or an interface is kept with the
    link pointers of its ports. *)

From S2P Require Import Prelude.
From S2P Require Import IntMath.
From S2P Require Import NetDest.
From S2P Require Import Flit.
From S2P Require Import VirtualChannels.
From S2P Require Import Routing.
From S2P Require Import Clocking.
From S2P Require Import Links.
From S2P Require Import Pipeline.
From S2P Require Import Topology.
From S2P Require Import Bridge.
From S2P Require Import MessageBuffer.
From S2P Require Import NetworkInterface.
From S2P Require Import Network.

(** A [Consumer*]. *)
Inductive endpoint := AtRouter (k : Z) | AtInterface (k : Z) | AtLink (l : Z).

(** A [flitBuffer*]: the queue of an output unit, the credits of an input unit, the
    queues of the ports of an interface, the buffer of a link. *)
Inductive queue_ptr :=
| OutQueue (k o : Z) | CreditQueue (k i : Z)
| NiOutQueue (k p : Z) | NiCreditQueue (k p : Z)
| LinkBuffer (l : Z).

#[export] Instance endpoint_eq_dec : EqDecision endpoint.
Proof. solve_decision. Defined.
#[export] Instance queue_ptr_eq_dec : EqDecision queue_ptr.
Proof. solve_decision. Defined.

(** ** Links and bridges *)

(** A link or a credit link; or a bridge with the pointers to its link [nLink] and to
    its [coBridge]. *)
Inductive link_kind :=
| PlainLink (l : NetworkLink.t)
| BridgeLink (b : NetworkBridge.t) (nLink : Z) (coBridge : option Z).

Record link_object := mkLinkObject {
  lo_kind : link_kind;
  link_consumer : option endpoint;
  link_srcQueue : option queue_ptr;
}.

Notation LinkStore := (list link_object) (only parsing).

(** The [NetworkLink] part of an object. *)
Definition link_base (o : link_object) : NetworkLink.t :=
  match lo_kind o with PlainLink l => l | BridgeLink b _ _ => NetworkBridge.base b end.

Definition map_base (f : NetworkLink.t → NetworkLink.t) (k : link_kind) : link_kind :=
  match k with
  | PlainLink l => PlainLink (f l)
  | BridgeLink b n c =>
      BridgeLink (NetworkBridge.with_link b (f (NetworkBridge.base b))
                    (NetworkBridge.lastScheduledAt b)) n c
  end.

Definition get_base (s : LinkStore) (p : Z) : result NetworkLink.t :=
  o ← vget s p; Ok (link_base o).

Definition setLinkConsumer (s : LinkStore) (p : Z) (c : endpoint) : result LinkStore :=
  vupd s p (λ o, Ok (mkLinkObject (lo_kind o) (Some c) (link_srcQueue o))).

Definition setSourceQueue (s : LinkStore) (p : Z) (q : queue_ptr) : result LinkStore :=
  vupd s p (λ o, Ok (mkLinkObject (lo_kind o) (link_consumer o) (Some q))).

Definition setType (s : LinkStore) (p : Z) (ty : link_type) : result LinkStore :=
  vupd s p (λ o, Ok (mkLinkObject (map_base (λ l, NetworkLink.setType l ty) (lo_kind o))
                       (link_consumer o) (link_srcQueue o))).

(** [setVcsPerVnet], which is virtual: a bridge passes it on to its link.  The chain of
    links is as long as the store at most. *)
Fixpoint setVcs (fuel : nat) (s : LinkStore) (p n : Z) : result LinkStore :=
  match fuel with
  | O => Err OutOfFuel
  | S fuel' =>
      o ← vget s p;
      match lo_kind o with
      | PlainLink l =>
          vset s p (mkLinkObject (PlainLink (NetworkLink.setVcsPerVnet l n))
                      (link_consumer o) (link_srcQueue o))
      | BridgeLink b nLink co =>
          s ← vset s p (mkLinkObject (BridgeLink (NetworkBridge.setVcsPerVnet b n) nLink co)
                          (link_consumer o) (link_srcQueue o));
          setVcs fuel' s nLink n
      end
  end.

Definition setVcsPerVnet (s : LinkStore) (p n : Z) : result LinkStore :=
  setVcs (length s) s p n.

(** [NetworkBridge(p)] of the bridge that becomes the next object of the store. *)
Definition new_bridge (s : LinkStore) (base : NetworkLink.t) (nLink : Z) (vtype : CDCType)
    (cdc_latency serdes_latency : Cycles) : result (LinkStore * Z) :=
  nl ← get_base s nLink;
  b ← NetworkBridge.make base (NetworkLink.bitWidth nl) vtype cdc_latency serdes_latency;
  let this := zlen s in
  let s := s ++ [mkLinkObject (BridgeLink b nLink None) None None] in
  s ← (match vtype with
       | LINK_OBJECT =>
           s ← setLinkConsumer s nLink (AtLink this); setSourceQueue s this (LinkBuffer nLink)
       | _ => s ← setSourceQueue s nLink (LinkBuffer this); setLinkConsumer s this (AtLink nLink)
       end);
  Ok (s, this).

(** [initBridge]; only bridges are given to it. *)
Definition initBridge (s : LinkStore) (p coBrid : Z) (cdc_en serdes_en : bool)
    : result LinkStore :=
  vupd s p (λ o,
    match lo_kind o with
    | BridgeLink b n _ =>
        Ok (mkLinkObject (BridgeLink (NetworkBridge.initBridge b cdc_en serdes_en) n (Some coBrid))
              (link_consumer o) (link_srcQueue o))
    | PlainLink _ => Err Undefined
    end).

(** The pair of a network bridge and a credit bridge at one end of a link, set up
    against each other; a null pointer fails the assertion. *)
Definition init_pair (s : LinkStore) (net cred : option Z) (cdc serdes : bool)
    : result LinkStore :=
  match net, cred with
  | Some n, Some c => s ← initBridge s n c cdc serdes; initBridge s c n cdc serdes
  | _, _ => Err AssertFailed
  end.

(** ** [GarnetIntLink] and [GarnetExtLink] *)

Record GarnetIntLink := mkGarnetIntLink {
  gi_id : Z;
  m_network_link : Z;
  m_credit_link : Z;
  srcCdcEn : bool;
  dstCdcEn : bool;
  srcSerdesEn : bool;
  dstSerdesEn : bool;
  src_net_bridge : option Z;
  src_cred_bridge : option Z;
  dst_net_bridge : option Z;
  dst_cred_bridge : option Z;
}.

Definition srcBridgeEn (g : GarnetIntLink) : bool := srcCdcEn g || srcSerdesEn g.
Definition dstBridgeEn (g : GarnetIntLink) : bool := dstCdcEn g || dstSerdesEn g.

Definition init_int (s : LinkStore) (g : GarnetIntLink) : result LinkStore :=
  s ← (if srcBridgeEn g then
         init_pair s (src_net_bridge g) (src_cred_bridge g) (srcCdcEn g) (srcSerdesEn g)
       else Ok s);
  if dstBridgeEn g then
    init_pair s (dst_net_bridge g) (dst_cred_bridge g) (dstCdcEn g) (dstSerdesEn g)
  else Ok s.

(** One direction of an external link, which has two. *)
Record ext_direction := mkExtDirection {
  network_link : Z;
  credit_link : Z;
  ext_net_bridge : option Z;
  ext_cred_bridge : option Z;
  int_net_bridge : option Z;
  int_cred_bridge : option Z;
}.

Record GarnetExtLink := mkGarnetExtLink {
  ge_id : Z;
  dir_in : ext_direction;
  dir_out : ext_direction;
  extCdcEn : bool;
  intCdcEn : bool;
  extSerdesEn : bool;
  intSerdesEn : bool;
}.

Definition extBridgeEn (g : GarnetExtLink) : bool := extCdcEn g || extSerdesEn g.
Definition intBridgeEn (g : GarnetExtLink) : bool := intCdcEn g || intSerdesEn g.

Definition init_ext (s : LinkStore) (g : GarnetExtLink) : result LinkStore :=
  s ← (if extBridgeEn g then
         s ← init_pair s (ext_net_bridge (dir_in g)) (ext_cred_bridge (dir_in g))
               (extCdcEn g) (extSerdesEn g);
         init_pair s (ext_net_bridge (dir_out g)) (ext_cred_bridge (dir_out g))
           (extCdcEn g) (extSerdesEn g)
       else Ok s);
  if intBridgeEn g then
    s ← init_pair s (int_net_bridge (dir_in g)) (int_cred_bridge (dir_in g))
          (intCdcEn g) (intSerdesEn g);
    init_pair s (int_net_bridge (dir_out g)) (int_cred_bridge (dir_out g))
      (intCdcEn g) (intSerdesEn g)
  else Ok s.

(** ** The network *)

(** A router or an interface with the pointers of its ports: for an input port the
    link it consumes and the credit link it feeds, for an output port the link it
    feeds and the credit link it consumes. *)
Record router_object := mkRouterObject {
  ro_router : Router.t;
  ro_in : list (Z * Z);
  ro_out : list (Z * Z);
}.

Record interface_object := mkInterfaceObject {
  io_ni : NetworkInterface.t;
  io_in : list (Z * Z);
  io_out : list (Z * Z);
}.

Module Construction.

Record t := mk {
  routers : list router_object;
  nis : list interface_object;
  links : list link_object;
  m_networklinks : list Z;
  m_creditlinks : list Z;
  m_networkbridges : list Z;
  m_max_vcs_per_vnet : Z;
}.

Definition with_links (g : t) (s : LinkStore) : t :=
  mk (routers g) (nis g) s (m_networklinks g) (m_creditlinks g) (m_networkbridges g)
     (m_max_vcs_per_vnet g).

Definition push_links (g : t) (net cred vcs : Z) : t :=
  mk (routers g) (nis g) (links g) (m_networklinks g ++ [net]) (m_creditlinks g ++ [cred])
     (m_networkbridges g) (Z.max (m_max_vcs_per_vnet g) vcs).

Definition push_bridge (g : t) (b : Z) : t :=
  mk (routers g) (nis g) (links g) (m_networklinks g) (m_creditlinks g)
     (m_networkbridges g ++ [b]) (m_max_vcs_per_vnet g).

Definition get_vc_per_vnet (g : t) (k : Z) : result Z :=
  r ← vget (routers g) k; Ok (Router.m_vc_per_vnet (ro_router r)).

Section Construction.
  Context `{MachineTypes}.
  Variable c : NetConfig.

(** [m_routers[k]->addInPort(dirn, in_link, credit_link)] *)
Definition router_addInPort (g : t) (k : Z) (dirn : PortDirection) (in_link cred : Z)
    : result t :=
  ro ← vget (routers g) k;
  l ← get_base (links g) in_link;
  cl ← get_base (links g) cred;
  '(r, _, _) ← Router.addInPort (ro_router ro) dirn l cl;
  let i := zlen (ro_in ro) in
  let vcs := Router.m_vc_per_vnet (ro_router ro) in
  s ← setLinkConsumer (links g) in_link (AtRouter k);
  s ← setVcsPerVnet s in_link vcs;
  s ← setSourceQueue s cred (CreditQueue k i);
  s ← setVcsPerVnet s cred vcs;
  rs ← vset (routers g) k (mkRouterObject r (ro_in ro ++ [(in_link, cred)]) (ro_out ro));
  Ok (mk rs (nis g) s (m_networklinks g) (m_creditlinks g) (m_networkbridges g)
        (m_max_vcs_per_vnet g)).

(** [m_routers[k]->addOutPort(dirn, out_link, entry, weight, credit_link, consumerVcs)] *)
Definition router_addOutPort (g : t) (k : Z) (dirn : PortDirection) (out_link : Z)
    (entry : list NetDest.t) (weight cred consumerVcs : Z) : result t :=
  ro ← vget (routers g) k;
  l ← get_base (links g) out_link;
  cl ← get_base (links g) cred;
  '(r, _, _) ← Router.addOutPort c (ro_router ro) dirn l entry weight cl consumerVcs;
  let o := zlen (ro_out ro) in
  s ← setLinkConsumer (links g) cred (AtRouter k);
  s ← setVcsPerVnet s cred consumerVcs;
  s ← setSourceQueue s out_link (OutQueue k o);
  s ← setVcsPerVnet s out_link consumerVcs;
  rs ← vset (routers g) k (mkRouterObject r (ro_in ro) (ro_out ro ++ [(out_link, cred)]));
  Ok (mk rs (nis g) s (m_networklinks g) (m_creditlinks g) (m_networkbridges g)
        (m_max_vcs_per_vnet g)).

(** [m_nis[k]->addInPort(in_link, credit_link)] *)
Definition ni_addInPort (g : t) (k in_link cred : Z) : result t :=
  io ← vget (nis g) k;
  l ← get_base (links g) in_link;
  cl ← get_base (links g) cred;
  let '(n, _, _) := NetworkInterface.addInPort (io_ni io) l cl in
  let vcs := NetworkInterface.m_vc_per_vnet (io_ni io) in
  s ← setLinkConsumer (links g) in_link (AtInterface k);
  s ← setSourceQueue s cred (NiCreditQueue k (zlen (io_in io)));
  s ← (if vcs =? 0 then Ok s
       else s ← setVcsPerVnet s in_link vcs; setVcsPerVnet s cred vcs);
  ns ← vset (nis g) k (mkInterfaceObject n (io_in io ++ [(in_link, cred)]) (io_out io));
  Ok (mk (routers g) ns s (m_networklinks g) (m_creditlinks g) (m_networkbridges g)
        (m_max_vcs_per_vnet g)).

(** The incoming links of the ports added before learn the number of channels. *)
Fixpoint reset_inports (s : LinkStore) (ports : list (Z * Z)) (cred vcs : Z)
    : result LinkStore :=
  match ports with
  | [] => Ok s
  | (in_link, _) :: ports' =>
      s ← setVcsPerVnet s in_link vcs;
      s ← setVcsPerVnet s cred vcs;
      reset_inports s ports' cred vcs
  end.

(** [m_nis[k]->addOutPort(out_link, credit_link, router_id, consumerVcs)] *)
Definition ni_addOutPort (g : t) (k out_link cred router_id consumerVcs : Z) : result t :=
  io ← vget (nis g) k;
  l ← get_base (links g) out_link;
  cl ← get_base (links g) cred;
  '(n, _, _, first) ←
    NetworkInterface.addOutPort c (io_ni io) l cl router_id consumerVcs;
  let vcs := NetworkInterface.m_vc_per_vnet n in
  s ← (if (first : bool) then reset_inports (links g) (io_in io) cred vcs
       else Ok (links g));
  s ← setSourceQueue s out_link (NiOutQueue k (zlen (io_out io)));
  s ← setVcsPerVnet s out_link vcs;
  s ← setLinkConsumer s cred (AtInterface k);
  s ← setVcsPerVnet s cred vcs;
  ns ← vset (nis g) k (mkInterfaceObject n (io_in io) (io_out io ++ [(out_link, cred)]));
  Ok (mk (routers g) ns s (m_networklinks g) (m_creditlinks g) (m_networkbridges g)
        (m_max_vcs_per_vnet g)).

(** The end of a link an object is attached to: the link itself, or the bridge when
    one is enabled there. *)
Definition attach (enabled : bool) (net_bridge cred_bridge : option Z) (net cred : Z)
    : result (Z * Z) :=
  if enabled then
    n ← determinate net_bridge; b ← determinate cred_bridge; Ok (n, b)
  else Ok (net, cred).

Definition note_bridge (enabled : bool) (b : Z) (g : t) : t :=
  if enabled then push_bridge g b else g.

Definition makeExtInLink (net : Network.t) (g : t) (global_src dest : Z) (gl : GarnetExtLink)
    : result t :=
  local_src ← Network.getLocalNodeID net global_src;
  _ ← assert (local_src <? Network.m_nodes net);
  let d := dir_in gl in
  s ← setType (links g) (network_link d) EXT_IN_;
  vcs ← get_vc_per_vnet g dest;
  let g := push_links (with_links g s) (network_link d) (credit_link d) vcs in
  '(n, b) ← attach (extBridgeEn gl) (ext_net_bridge d) (ext_cred_bridge d)
              (network_link d) (credit_link d);
  g ← ni_addOutPort g local_src n b dest vcs;
  let g := note_bridge (extBridgeEn gl) n g in
  '(n, b) ← attach (intBridgeEn gl) (int_net_bridge d) (int_cred_bridge d)
              (network_link d) (credit_link d);
  g ← router_addInPort g dest "Local" n b;
  Ok (note_bridge (intBridgeEn gl) n g).

Definition makeExtOutLink (net : Network.t) (g : t) (src global_dest : Z)
    (gl : GarnetExtLink) (weight : Z) (entry : list NetDest.t) : result t :=
  local_dest ← Network.getLocalNodeID net global_dest;
  _ ← assert (local_dest <? Network.m_nodes net);
  _ ← assert (wrap32 src <? zlen (routers g));
  let d := dir_out gl in
  s ← setType (links g) (network_link d) EXT_OUT_;
  vcs ← get_vc_per_vnet g src;
  let g := push_links (with_links g s) (network_link d) (credit_link d) vcs in
  '(n, b) ← attach (extBridgeEn gl) (ext_net_bridge d) (ext_cred_bridge d)
              (network_link d) (credit_link d);
  g ← ni_addInPort g local_dest n b;
  let g := note_bridge (extBridgeEn gl) n g in
  '(n, b) ← attach (intBridgeEn gl) (int_net_bridge d) (int_cred_bridge d)
              (network_link d) (credit_link d);
  g ← router_addOutPort g src "Local" n entry weight b vcs;
  Ok (note_bridge (intBridgeEn gl) n g).

Definition makeInternalLink (g : t) (src dest : Z) (gl : GarnetIntLink) (weight : Z)
    (entry : list NetDest.t) (src_outport_dirn dst_inport_dirn : PortDirection)
    : result t :=
  s ← setType (links g) (m_network_link gl) INT_;
  dvcs ← get_vc_per_vnet g dest;
  svcs ← get_vc_per_vnet g src;
  let g := push_links (with_links g s) (m_network_link gl) (m_credit_link gl)
             (Z.max dvcs svcs) in
  '(n, b) ← attach (dstBridgeEn gl) (dst_net_bridge gl) (dst_cred_bridge gl)
              (m_network_link gl) (m_credit_link gl);
  g ← router_addInPort g dest dst_inport_dirn n b;
  let g := note_bridge (dstBridgeEn gl) n g in
  '(n, b) ← attach (srcBridgeEn gl) (src_net_bridge gl) (src_cred_bridge gl)
              (m_network_link gl) (m_credit_link gl);
  dvcs ← get_vc_per_vnet g dest;
  g ← router_addOutPort g src src_outport_dirn n entry weight b dvcs;
  Ok (note_bridge (srcBridgeEn gl) n g).

(** [safe_cast]: the Garnet link a link of the topology is. *)
Definition find_int (ls : list GarnetIntLink) (l : BasicLink.t) : result GarnetIntLink :=
  determinate (snd <$> list_find (λ g, gi_id g = BasicLink.m_id l) ls).

Definition find_ext (ls : list GarnetExtLink) (l : BasicLink.t) : result GarnetExtLink :=
  determinate (snd <$> list_find (λ g, ge_id g = BasicLink.m_id l) ls).

Definition answer (net : Network.t) (ints : list GarnetIntLink) (exts : list GarnetExtLink)
    (g : t) (call : link_call) : result t :=
  match call with
  | MakeExtIn src dest l entry =>
      gl ← find_ext exts l; makeExtInLink net g src dest gl
  | MakeExtOut src dest l entry =>
      gl ← find_ext exts l; makeExtOutLink net g src dest gl (BasicLink.m_weight l) entry
  | MakeInternal src dest l entry so di =>
      gl ← find_int ints l;
      makeInternalLink g src dest gl (BasicLink.m_weight l) entry so di
  end.

Fixpoint answer_all (net : Network.t) (ints : list GarnetIntLink)
    (exts : list GarnetExtLink) (g : t) (calls : list link_call) : result t :=
  match calls with
  | [] => Ok g
  | call :: calls' => g ← answer net ints exts g call; answer_all net ints exts g calls'
  end.

(** The links of [init()]: the calls of [createLinks]. *)
Definition create_links (net : Network.t) (top : Topology.t) (ints : list GarnetIntLink)
    (exts : list GarnetExtLink) (g : t) : result t :=
  calls ← Topology.createLinks top; answer_all net ints exts g calls.

(** The rows and columns of [init()]. *)
Definition mesh_size (g : t) (num_rows : Z) : result (Z * Z) :=
  if 0 <? num_rows then
    let cols := zlen (routers g) / num_rows in
    _ ← assert (num_rows * cols =? zlen (routers g));
    Ok (num_rows, cols)
  else Ok (-1, -1).

Definition get_router_id (net : Network.t) (g : t) (global_ni vnet : Z) : result Z :=
  local_ni ← Network.getLocalNodeID net global_ni;
  io ← vget (nis g) local_ni;
  NetworkInterface.get_router_id (io_ni io) vnet.

End Construction.

End Construction.
