(* ===== verification/Wiring.v ===== *)
(** * The construction wires the network

    What the calls of the topology leave behind: every port is attached to its links
    at both ends, no two channels share a port, and the network they build satisfies
    the assumptions of the credit protocol. *)

From S2P Require Import Prelude.
From S2P Require Import IntMath.
From S2P Require Import NetDest.
From S2P Require Import Flit.
From S2P Require Import VirtualChannels.
From S2P Require Import Routing.
From S2P Require Import Clocking.
From S2P Require Import Links.
From S2P Require Import Pipeline.
From S2P Require Import FlowControl.
From S2P Require Import CreditProtocol.
From S2P Require Import Topology.
From S2P Require Import Bridge.
From S2P Require Import MessageBuffer.
From S2P Require Import NetworkInterface.
From S2P Require Import Network.
From S2P Require Import Construction.

Import Construction.

(** ** Ports *)

(** A port of a router or of an interface: its owner, whether it is an input port,
    its number and its two links. *)
Record port := mkPort {
  p_end : endpoint;
  p_in : bool;
  p_idx : Z;
  p_link : Z;
  p_cred : Z;
}.

#[export] Instance port_eq_dec : EqDecision port.
Proof. solve_decision. Defined.

Definition ports_of (g : t) (e : endpoint) (input : bool) : option (list (Z * Z)) :=
  match e with
  | AtRouter k => (λ r, if input then ro_in r else ro_out r) <$> zlookup (routers g) k
  | AtInterface k => (λ n, if input then io_in n else io_out n) <$> zlookup (nis g) k
  | AtLink _ => None
  end.

Definition has_port (g : t) (P : port) : Prop :=
  ∃ l, ports_of g (p_end P) (p_in P) = Some l ∧
       zlookup l (p_idx P) = Some (p_link P, p_cred P).

(** The link a port takes flits or credits from, and the one it feeds. *)
Definition consumed (P : port) : Z := if p_in P then p_link P else p_cred P.
Definition sourced (P : port) : Z := if p_in P then p_cred P else p_link P.

(** The queue of a port that a link reads. *)
Definition port_queue (P : port) : option queue_ptr :=
  match p_end P with
  | AtRouter k => Some (if p_in P then CreditQueue k (p_idx P) else OutQueue k (p_idx P))
  | AtInterface k => Some (if p_in P then NiCreditQueue k (p_idx P) else NiOutQueue k (p_idx P))
  | AtLink _ => None
  end.

(** The two pointers of a link object. *)
Definition cons_of (s : list link_object) (p : Z) : option endpoint :=
  zlookup s p ≫= link_consumer.
Definition src_of (s : list link_object) (p : Z) : option queue_ptr :=
  zlookup s p ≫= link_srcQueue.

(** Every port is the consumer of the link it reads and feeds the link that reads
    its queue. *)
Definition consistent (g : t) : Prop :=
  ∀ P, has_port g P → cons_of (links g) (consumed P) = Some (p_end P) ∧
                      src_of (links g) (sourced P) = port_queue P.

Lemma has_port_fun g P Q :
  has_port g P → has_port g Q → p_end P = p_end Q → p_in P = p_in Q → p_idx P = p_idx Q → P = Q.
Proof.
  intros (l & Hl & HP) (l' & Hl' & HQ) E1 E2 E3. rewrite E1, E2 in Hl. rewrite Hl in Hl'.
  injection Hl' as <-. rewrite E3, HQ in HP. injection HP as E4 E5.
  destruct P, Q. cbn in *. by subst.
Qed.

(** A queue is read by one link only. *)
Lemma sourced_inj g P Q :
  consistent g → has_port g P → has_port g Q → sourced P = sourced Q → P = Q.
Proof.
  intros Hc HP HQ E. destruct (Hc P HP) as [_ HsP], (Hc Q HQ) as [_ HsQ].
  rewrite E, HsQ in HsP. pose proof HP as (l & Hl & _). pose proof HQ as (l' & Hl' & _).
  unfold port_queue, ports_of in *.
  destruct (p_end P) eqn:EP, (p_end Q) eqn:EQ, (p_in P) eqn:IP, (p_in Q) eqn:IQ; try done;
    injection HsP as -> E3; apply (has_port_fun g); congruence.
Qed.

(** ** What the operations on the store do to the pointers *)

Definition same_ptrs (s s' : list link_object) : Prop :=
  ∀ p, cons_of s' p = cons_of s p ∧ src_of s' p = src_of s p.

#[export] Instance same_ptrs_preorder : PreOrder same_ptrs.
Proof.
  split; [by intros s p|]. intros s1 s2 s3 H1 H2 p.
  destruct (H1 p) as [A1 B1], (H2 p) as [A2 B2]. split; congruence.
Qed.

Lemma vset_zlookup {A} (l : list A) i a l' j :
  vset l i a = Ok l' → zlookup l' j = if decide (i = j) then Some a else zlookup l j.
Proof. intros [Hi ->]%vset_Ok. by apply zlookup_insert. Qed.

Lemma vupd_inv {A} (l : list A) i f l' :
  vupd l i f = Ok l' → ∃ a a', zlookup l i = Some a ∧ f a = Ok a' ∧ vset l i a' = Ok l'.
Proof.
  unfold vupd. intros H. step_bind H as a Ha%vget_Ok. step_bind H as a' Ha'. by exists a, a'.
Qed.

Lemma same_ptrs_vset s p o o' s' :
  zlookup s p = Some o → link_consumer o' = link_consumer o →
  link_srcQueue o' = link_srcQueue o → vset s p o' = Ok s' → same_ptrs s s'.
Proof.
  intros Ho Hc Hs Hv q. unfold cons_of, src_of. rewrite !(vset_zlookup _ _ _ _ q Hv).
  case_decide; [subst|done]. rewrite Ho. cbn. by rewrite Hc, Hs.
Qed.

Lemma setType_ptrs s p ty s' : setType s p ty = Ok s' → same_ptrs s s'.
Proof. intros (o & o' & Ho & [= <-] & Hv)%vupd_inv. eapply same_ptrs_vset; [exact Ho|..|exact Hv]; done. Qed.

Lemma setVcs_ptrs fuel s p n s' : setVcs fuel s p n = Ok s' → same_ptrs s s'.
Proof.
  revert s p. induction fuel as [|fuel IH]; intros s p; cbn [setVcs]; [done|].
  intros H. step_bind H as o Ho%vget_Ok. destruct (lo_kind o) as [l|b nl co].
  - eapply same_ptrs_vset; [exact Ho|..|exact H]; done.
  - step_bind H as s1 Hs1. etransitivity; [|by eapply IH].
    eapply same_ptrs_vset; [exact Ho|..|exact Hs1]; done.
Qed.

Lemma setVcsPerVnet_ptrs s p n s' : setVcsPerVnet s p n = Ok s' → same_ptrs s s'.
Proof. apply setVcs_ptrs. Qed.

Lemma reset_inports_ptrs s ports cred vcs s' :
  reset_inports s ports cred vcs = Ok s' → same_ptrs s s'.
Proof.
  revert s. induction ports as [|[l cr] ports IH]; intros s; cbn [reset_inports];
    [by intros [= <-]|].
  intros H. step_bind H as s1 H1%setVcsPerVnet_ptrs. step_bind H as s2 H2%setVcsPerVnet_ptrs.
  etransitivity; [exact H1|]. etransitivity; [exact H2|]. by apply IH.
Qed.

(** The link [X] gets the consumer [e] and the link [Y] the source [q]. *)
Definition rewired (X : Z) (e : endpoint) (Y : Z) (q : queue_ptr) (s s' : list link_object)
    : Prop :=
  ∀ p, cons_of s' p = (if decide (p = X) then Some e else cons_of s p) ∧
       src_of s' p = (if decide (p = Y) then Some q else src_of s p).

Definition reconsumed (X : Z) (e : endpoint) (s s' : list link_object) : Prop :=
  ∀ p, cons_of s' p = (if decide (p = X) then Some e else cons_of s p) ∧ src_of s' p = src_of s p.

Definition resourced (Y : Z) (q : queue_ptr) (s s' : list link_object) : Prop :=
  ∀ p, cons_of s' p = cons_of s p ∧ src_of s' p = (if decide (p = Y) then Some q else src_of s p).

Lemma setLinkConsumer_ptrs s X e s' : setLinkConsumer s X e = Ok s' → reconsumed X e s s'.
Proof.
  intros (o & o' & Ho & [= <-] & Hv)%vupd_inv p. unfold cons_of, src_of.
  rewrite !(vset_zlookup _ _ _ _ p Hv).
  destruct (decide (X = p)) as [<-|Hne]; [rewrite decide_True by done; rewrite Ho; done|].
  by rewrite decide_False by congruence.
Qed.

Lemma setSourceQueue_ptrs s Y q s' : setSourceQueue s Y q = Ok s' → resourced Y q s s'.
Proof.
  intros (o & o' & Ho & [= <-] & Hv)%vupd_inv p. unfold cons_of, src_of.
  rewrite !(vset_zlookup _ _ _ _ p Hv).
  destruct (decide (Y = p)) as [<-|Hne]; [rewrite decide_True by done; rewrite Ho; done|].
  by rewrite decide_False by congruence.
Qed.

(** ** Adding a port *)

Definition adds (g : t) (P : port) (g' : t) : Prop :=
  (∀ R, has_port g' R ↔ has_port g R ∨ R = P) ∧
  ∃ q, port_queue P = Some q ∧
       rewired (consumed P) (p_end P) (sourced P) q (links g) (links g').

(** The ports of one owner and direction grow by one. *)
Lemma extended_ports g g' e b l0 x :
  ports_of g e b = Some l0 →
  (∀ e' b', ports_of g' e' b' =
     if decide ((e', b') = (e, b)) then Some (l0 ++ [x]) else ports_of g e' b') →
  ∀ R, has_port g' R ↔ has_port g R ∨ R = mkPort e b (zlen l0) x.1 x.2.
Proof.
  intros Hl0 Hp R. unfold has_port. rewrite Hp. destruct (decide _) as [E|E].
  - injection E as E1 E2. rewrite E1, E2, Hl0. split.
    + intros (l & [= <-] & Hz). unfold zlookup in *. destruct (Z.leb_spec 0 (p_idx R)); [|done].
      apply lookup_app_Some in Hz as [Hz|[Hlen Hz]].
      * left. by exists l0.
      * right. destruct (Z.to_nat (p_idx R) - length l0)%nat as [|n] eqn:En; [|by destruct n].
        cbn in Hz. injection Hz as ->. destruct R as [e' b' i l' c']. cbn in *. subst.
        unfold zlen. f_equal. lia.
    + intros [(l & [= <-] & Hz)| ->].
      * eexists. split; [done|]. apply zlookup_Some in Hz as [Hi Hz]. apply zlookup_Some.
        split; [done|]. by apply lookup_app_l_Some.
      * eexists. split; [done|]. cbn [p_idx p_link p_cred]. apply zlookup_Some.
        split; [unfold zlen; lia|]. unfold zlen. rewrite Nat2Z.id.
        rewrite lookup_app_r, Nat.sub_diag by done. by destruct x.
  - split; [by left|]. intros [Hr| ->]; [done|]. by cbn in E.
Qed.

(** The order in which the two pointers are written does not matter. *)
Lemma rewired_intro X e Y q s s1 s2 s3 s4 :
  reconsumed X e s s1 → same_ptrs s1 s2 → resourced Y q s2 s3 → same_ptrs s3 s4 →
  rewired X e Y q s s4.
Proof.
  intros H1 H2 H3 H4 p. destruct (H1 p) as [A1 B1], (H2 p) as [A2 B2], (H3 p) as [A3 B3],
    (H4 p) as [A4 B4]. by rewrite A4, A3, A2, A1, B4, B3, B2, B1.
Qed.

Lemma rewired_intro' X e Y q s s1 s2 s3 s4 :
  resourced Y q s s1 → same_ptrs s1 s2 → reconsumed X e s2 s3 → same_ptrs s3 s4 →
  rewired X e Y q s s4.
Proof.
  intros H1 H2 H3 H4 p. destruct (H1 p) as [A1 B1], (H2 p) as [A2 B2], (H3 p) as [A3 B3],
    (H4 p) as [A4 B4]. by rewrite A4, A3, A2, A1, B4, B3, B2, B1.
Qed.

Lemma router_ports_vset g k ro ro' rs e b :
  vset (routers g) k ro' = Ok rs → zlookup (routers g) k = Some ro →
  ports_of (mk rs (nis g) (links g) (m_networklinks g) (m_creditlinks g) (m_networkbridges g)
             (m_max_vcs_per_vnet g)) e b =
    if decide (e = AtRouter k) then Some (if b then ro_in ro' else ro_out ro')
    else ports_of g e b.
Proof.
  intros Hv Hro. destruct e as [k'|k'|l]; cbn [ports_of routers nis]; [|done|done].
  rewrite (vset_zlookup _ _ _ _ k' Hv).
  destruct (decide (k = k')) as [->|Hne]; [by rewrite decide_True|].
  by rewrite decide_False by congruence.
Qed.

Lemma ni_ports_vset g k io io' ns e b :
  vset (nis g) k io' = Ok ns → zlookup (nis g) k = Some io →
  ports_of (mk (routers g) ns (links g) (m_networklinks g) (m_creditlinks g)
             (m_networkbridges g) (m_max_vcs_per_vnet g)) e b =
    if decide (e = AtInterface k) then Some (if b then io_in io' else io_out io')
    else ports_of g e b.
Proof.
  intros Hv Hro. destruct e as [k'|k'|l]; cbn [ports_of routers nis]; [done| |done].
  rewrite (vset_zlookup _ _ _ _ k' Hv).
  destruct (decide (k = k')) as [->|Hne]; [by rewrite decide_True|].
  by rewrite decide_False by congruence.
Qed.

Section adds.
  Context `{MachineTypes}.
  Variable c : NetConfig.

Lemma router_addInPort_adds g k dirn l cr g' :
  router_addInPort g k dirn l cr = Ok g' → ∃ i, adds g (mkPort (AtRouter k) true i l cr) g'.
Proof.
  unfold router_addInPort. intros Ha. step_bind Ha as ro Hro%vget_Ok.
  step_bind Ha as bl _. step_bind Ha as bc _. step_bind Ha as [[r' l'] c'] _.
  step_bind Ha as s1 H1%setLinkConsumer_ptrs. step_bind Ha as s2 H2%setVcsPerVnet_ptrs.
  step_bind Ha as s3 H3%setSourceQueue_ptrs. step_bind Ha as s4 H4%setVcsPerVnet_ptrs.
  step_bind Ha as rs Hrs. injection Ha as <-. exists (zlen (ro_in ro)). split.
  - apply (extended_ports _ _ _ _ _ (l, cr)); [cbn [ports_of]; by rewrite Hro|].
    intros e b. etransitivity; [apply (router_ports_vset g k ro _ rs e b Hrs Hro)|].
    destruct (decide (e = AtRouter k)) as [->|Hne].
    + destruct b; [by rewrite decide_True|]. rewrite decide_False by congruence.
      cbn [ports_of]. by rewrite Hro.
    + by rewrite decide_False by congruence.
  - eexists. split; [done|]. by eapply rewired_intro.
Qed.

Lemma router_addOutPort_adds g k dirn l entry w cr vcs g' :
  router_addOutPort c g k dirn l entry w cr vcs = Ok g' →
  ∃ o, adds g (mkPort (AtRouter k) false o l cr) g'.
Proof.
  unfold router_addOutPort. intros Ha. step_bind Ha as ro Hro%vget_Ok.
  step_bind Ha as bl _. step_bind Ha as bc _. step_bind Ha as [[r' l'] c'] _.
  step_bind Ha as s1 H1%setLinkConsumer_ptrs. step_bind Ha as s2 H2%setVcsPerVnet_ptrs.
  step_bind Ha as s3 H3%setSourceQueue_ptrs. step_bind Ha as s4 H4%setVcsPerVnet_ptrs.
  step_bind Ha as rs Hrs. injection Ha as <-. exists (zlen (ro_out ro)). split.
  - apply (extended_ports _ _ _ _ _ (l, cr)); [cbn [ports_of]; by rewrite Hro|].
    intros e b. etransitivity; [apply (router_ports_vset g k ro _ rs e b Hrs Hro)|].
    destruct (decide (e = AtRouter k)) as [->|Hne].
    + destruct b; [|by rewrite decide_True]. rewrite decide_False by congruence.
      cbn [ports_of]. by rewrite Hro.
    + by rewrite decide_False by congruence.
  - eexists. split; [done|]. by eapply rewired_intro.
Qed.

Lemma ni_addInPort_adds g k l cr g' :
  ni_addInPort g k l cr = Ok g' → ∃ i, adds g (mkPort (AtInterface k) true i l cr) g'.
Proof.
  unfold ni_addInPort. intros Ha. step_bind Ha as io Hio%vget_Ok.
  step_bind Ha as bl _. step_bind Ha as bc _.
  destruct (NetworkInterface.addInPort (io_ni io) bl bc) as [[n' l'] c'].
  step_bind Ha as s1 H1%setLinkConsumer_ptrs. step_bind Ha as s2 H2%setSourceQueue_ptrs.
  step_bind Ha as s3 H3. assert (same_ptrs s2 s3) as Hs.
  { destruct (_ =? 0); [by injection H3 as <-|]. step_bind H3 as s4 H4%setVcsPerVnet_ptrs.
    apply setVcsPerVnet_ptrs in H3. by etransitivity. }
  step_bind Ha as ns Hns. injection Ha as <-. exists (zlen (io_in io)). split.
  - apply (extended_ports _ _ _ _ _ (l, cr)); [cbn [ports_of]; by rewrite Hio|].
    intros e b. etransitivity; [apply (ni_ports_vset g k io _ ns e b Hns Hio)|].
    destruct (decide (e = AtInterface k)) as [->|Hne].
    + destruct b; [by rewrite decide_True|]. rewrite decide_False by congruence.
      cbn [ports_of]. by rewrite Hio.
    + by rewrite decide_False by congruence.
  - eexists. split; [done|]. eapply rewired_intro; [exact H1|reflexivity|exact H2|exact Hs].
Qed.

Lemma ni_addOutPort_adds g k l cr rid vcs g' :
  ni_addOutPort c g k l cr rid vcs = Ok g' → ∃ o, adds g (mkPort (AtInterface k) false o l cr) g'.
Proof.
  unfold ni_addOutPort. intros Ha. step_bind Ha as io Hio%vget_Ok.
  step_bind Ha as bl _. step_bind Ha as bc _. step_bind Ha as [[[n' l'] c'] fst'] _.
  step_bind Ha as s0 H0. assert (same_ptrs (links g) s0) as Hs0.
  { destruct (fst' : bool); [by apply reset_inports_ptrs in H0|by injection H0 as <-]. }
  step_bind Ha as s1 H1%setSourceQueue_ptrs. step_bind Ha as s2 H2%setVcsPerVnet_ptrs.
  step_bind Ha as s3 H3%setLinkConsumer_ptrs. step_bind Ha as s4 H4%setVcsPerVnet_ptrs.
  step_bind Ha as ns Hns. injection Ha as <-. exists (zlen (io_out io)). split.
  - apply (extended_ports _ _ _ _ _ (l, cr)); [cbn [ports_of]; by rewrite Hio|].
    intros e b. etransitivity; [apply (ni_ports_vset g k io _ ns e b Hns Hio)|].
    destruct (decide (e = AtInterface k)) as [->|Hne].
    + destruct b; [|by rewrite decide_True]. rewrite decide_False by congruence.
      cbn [ports_of]. by rewrite Hio.
    + by rewrite decide_False by congruence.
  - eexists. split; [done|].
    assert (rewired cr (AtInterface k) l (NiOutQueue k (zlen (io_out io))) s0 s4) as Hr
      by by eapply rewired_intro'.
    intros p. destruct (Hr p) as [A B], (Hs0 p) as [A0 B0]. cbn [links].
    by rewrite A, B, A0, B0.
Qed.

(** ** A whole construction *)

(** A port a call asks for has no number yet; [placed Q i] is that port with number [i]. *)
Definition placed (Q : port) (i : Z) : port :=
  mkPort (p_end Q) (p_in Q) i (p_link Q) (p_cred Q).

Definition same_wiring (g g' : t) : Prop :=
  (∀ e b, ports_of g' e b = ports_of g e b) ∧ same_ptrs (links g) (links g').

#[local] Instance same_wiring_preorder : PreOrder same_wiring.
Proof.
  split; [by intros g; split|]. intros g1 g2 g3 [A1 B1] [A2 B2].
  split; [intros; by rewrite A2, A1|by etransitivity].
Qed.

Lemma same_wiring_ports g g' P : same_wiring g g' → has_port g' P ↔ has_port g P.
Proof. intros [Hp _]. unfold has_port. by rewrite Hp. Qed.

Lemma adds_same g g1 P g2 g3 :
  same_wiring g g1 → adds g1 P g2 → same_wiring g2 g3 → adds g P g3.
Proof.
  intros S1 [Hp (q & Hq & Hr)] S2. split.
  - intros R. by rewrite (same_wiring_ports _ _ _ S2), Hp, (same_wiring_ports _ _ _ S1).
  - exists q. split; [done|]. intros p. destruct S1 as [_ S1], S2 as [_ S2].
    destruct (S1 p) as [A1 B1], (S2 p) as [A2 B2], (Hr p) as [A B].
    by rewrite A2, B2, A, B, A1, B1.
Qed.

(** [g'] is [g] with one more port for each port of [Qs]. *)
Fixpoint grows (g : t) (Qs : list port) (g' : t) : Prop :=
  match Qs with
  | [] => same_wiring g g'
  | Q :: Qs' => ∃ g1 i, adds g (placed Q i) g1 ∧ grows g1 Qs' g'
  end.

Lemma grows_same g g1 Qs g' : same_wiring g g1 → grows g1 Qs g' → grows g Qs g'.
Proof.
  intros S1. destruct Qs as [|Q Qs]; cbn; [by etransitivity|].
  intros (g2 & i & Ha & Hg). exists g2, i. split; [|done].
  by eapply adds_same; [exact S1|exact Ha|].
Qed.

Lemma grows_app g Q1 g1 Q2 g' : grows g Q1 g1 → grows g1 Q2 g' → grows g (Q1 ++ Q2) g'.
Proof.
  revert g. induction Q1 as [|Q Q1 IH]; intros g; cbn; [by apply grows_same|].
  intros (g2 & i & Ha & Hg) H2. exists g2, i. split; [done|by apply IH].
Qed.

(** The ports are those asked for, each wired to its links. *)
Definition tracked (g : t) (Ps : list port) : Prop :=
  consistent g ∧ (∀ P, has_port g P → ∃ Q i, Q ∈ Ps ∧ P = placed Q i) ∧
  (∀ Q, Q ∈ Ps → ∃ i, has_port g (placed Q i)).

Lemma adds_tracked g Ps Q i g' :
  tracked g Ps → adds g (placed Q i) g' →
  consumed Q ∉ consumed <$> Ps → sourced Q ∉ sourced <$> Ps → tracked g' (Ps ++ [Q]).
Proof.
  intros (Hc & Hin & Hout) [Hp (q & Hq & Hr)] HX HY. split_and!.
  - intros R HR. destruct (Hr (consumed R)) as [A _], (Hr (sourced R)) as [_ B].
    rewrite A, B. apply Hp in HR as [HR| ->].
    + destruct (Hin R HR) as (Q' & j & HQ' & ->).
      rewrite !decide_False; [by apply Hc|intros E..];
        [apply HY|apply HX]; apply list_elem_of_fmap; by exists Q'.
    + by rewrite !decide_True.
  - intros R HR. apply Hp in HR as [HR| ->].
    + destruct (Hin R HR) as (Q' & j & HQ' & ->). exists Q', j. split; [|done].
      apply elem_of_app. by left.
    + exists Q, i. split; [|done]. apply elem_of_app. right. by apply list_elem_of_singleton.
  - intros R [HR| ->%list_elem_of_singleton]%elem_of_app.
    + destruct (Hout R HR) as [j Hj]. exists j. apply Hp. by left.
    + exists i. apply Hp. by right.
Qed.

Lemma same_wiring_tracked g g' Ps : same_wiring g g' → tracked g Ps → tracked g' Ps.
Proof.
  intros S1 (Hc & Hin & Hout). split_and!.
  - intros P HP%(same_wiring_ports _ _ _ S1). destruct S1 as [_ S1].
    destruct (S1 (consumed P)) as [A _], (S1 (sourced P)) as [_ B]. rewrite A, B. by apply Hc.
  - intros P HP%(same_wiring_ports _ _ _ S1). by apply Hin.
  - intros Q HQ. destruct (Hout Q HQ) as [i Hi]. exists i. by apply (same_wiring_ports _ _ _ S1).
Qed.

Lemma grows_tracked g Ps Qs g' :
  grows g Qs g' → tracked g Ps →
  NoDup (consumed <$> Ps ++ Qs) → NoDup (sourced <$> Ps ++ Qs) → tracked g' (Ps ++ Qs).
Proof.
  revert g Ps. induction Qs as [|Q Qs IH]; intros g Ps; cbn [grows].
  - rewrite app_nil_r. intros HS HT _ _. by eapply same_wiring_tracked.
  - intros (g1 & i & Ha & Hg) HT HX HY. rewrite cons_middle, app_assoc in HX, HY |- *.
    apply (IH g1); [done| |done|done]. eapply adds_tracked; [done|exact Ha|..].
    + rewrite !fmap_app in HX. apply NoDup_app in HX as [HX _].
      apply NoDup_app in HX as (_ & HX & _). intros E. apply (HX _ E). by left.
    + rewrite !fmap_app in HY. apply NoDup_app in HY as [HY _].
      apply NoDup_app in HY as (_ & HY & _). intros E. apply (HY _ E). by left.
Qed.

Lemma with_links_same g s n cr v :
  same_ptrs (links g) s → same_wiring g (push_links (with_links g s) n cr v).
Proof. intros Hs. by split; [intros [] b|]. Qed.

Lemma note_bridge_same e b g : same_wiring g (note_bridge e b g).
Proof. destruct e; [|done]. by split; [intros [] b'|]. Qed.

(** The ports a call of the topology asks for. *)
Definition ask_ports (net : Network.t) (ints : list GarnetIntLink) (exts : list GarnetExtLink)
    (call : link_call) : result (list port) :=
  match call with
  | MakeExtIn src dest l _ =>
      gl ← find_ext exts l; k ← Network.getLocalNodeID net src;
      let d := dir_in gl in
      '(n1, b1) ← attach (extBridgeEn gl) (ext_net_bridge d) (ext_cred_bridge d)
                    (network_link d) (credit_link d);
      '(n2, b2) ← attach (intBridgeEn gl) (int_net_bridge d) (int_cred_bridge d)
                    (network_link d) (credit_link d);
      Ok [mkPort (AtInterface k) false 0 n1 b1; mkPort (AtRouter dest) true 0 n2 b2]
  | MakeExtOut src dest l _ =>
      gl ← find_ext exts l; k ← Network.getLocalNodeID net dest;
      let d := dir_out gl in
      '(n1, b1) ← attach (extBridgeEn gl) (ext_net_bridge d) (ext_cred_bridge d)
                    (network_link d) (credit_link d);
      '(n2, b2) ← attach (intBridgeEn gl) (int_net_bridge d) (int_cred_bridge d)
                    (network_link d) (credit_link d);
      Ok [mkPort (AtInterface k) true 0 n1 b1; mkPort (AtRouter src) false 0 n2 b2]
  | MakeInternal src dest l _ _ _ =>
      gl ← find_int ints l;
      '(n1, b1) ← attach (dstBridgeEn gl) (dst_net_bridge gl) (dst_cred_bridge gl)
                    (m_network_link gl) (m_credit_link gl);
      '(n2, b2) ← attach (srcBridgeEn gl) (src_net_bridge gl) (src_cred_bridge gl)
                    (m_network_link gl) (m_credit_link gl);
      Ok [mkPort (AtRouter dest) true 0 n1 b1; mkPort (AtRouter src) false 0 n2 b2]
  end.

Definition call_ports net ints exts (calls : list link_call) : list port :=
  calls ≫= λ call, match ask_ports net ints exts call with Ok Ps => Ps | Err _ => [] end.

Lemma two_ports g g0 Q1 i g1 g1' Q2 j g2 g' :
  same_wiring g g0 → adds g0 (placed Q1 i) g1 → same_wiring g1 g1' →
  adds g1' (placed Q2 j) g2 → same_wiring g2 g' → grows g [Q1; Q2] g'.
Proof.
  intros S0 A1 S1 A2 S2. exists g1', i. split; [by eapply adds_same|].
  exists g', j. split; [|done]. by eapply adds_same; [reflexivity|exact A2|].
Qed.

Lemma answer_grows net ints exts g call g' :
  answer c net ints exts g call = Ok g' →
  ∃ Qs, ask_ports net ints exts call = Ok Qs ∧ grows g Qs g'.
Proof.
  destruct call as [src dest l en|src dest l en|src dest l en so di]; cbn [answer ask_ports];
    intros Ha; step_bind Ha as gl Hgl; rewrite Hgl; cbn [rbind].
  - unfold makeExtInLink in Ha. step_bind Ha as k Hk. rewrite Hk. cbn [rbind].
    step_bind Ha as [] _. step_bind Ha as s Hs%setType_ptrs. step_bind Ha as vcs _.
    step_bind Ha as [n1 b1] H1. rewrite H1. step_bind Ha as g1 [o A1]%ni_addOutPort_adds.
    step_bind Ha as [n2 b2] H2. rewrite H2. step_bind Ha as g2 [i A2]%router_addInPort_adds.
    injection Ha as <-. eexists. split; [reflexivity|].
    eapply (two_ports _ _ (mkPort _ _ 0 _ _) o _ _ (mkPort _ _ 0 _ _) i);
      [by apply with_links_same|exact A1|apply note_bridge_same|exact A2|apply note_bridge_same].
  - unfold makeExtOutLink in Ha. step_bind Ha as k Hk. rewrite Hk. cbn [rbind].
    step_bind Ha as [] _. step_bind Ha as [] _. step_bind Ha as s Hs%setType_ptrs.
    step_bind Ha as vcs _.
    step_bind Ha as [n1 b1] H1. rewrite H1. step_bind Ha as g1 [o A1]%ni_addInPort_adds.
    step_bind Ha as [n2 b2] H2. rewrite H2. step_bind Ha as g2 [i A2]%router_addOutPort_adds.
    injection Ha as <-. eexists. split; [reflexivity|].
    eapply (two_ports _ _ (mkPort _ _ 0 _ _) o _ _ (mkPort _ _ 0 _ _) i);
      [by apply with_links_same|exact A1|apply note_bridge_same|exact A2|apply note_bridge_same].
  - unfold makeInternalLink in Ha. step_bind Ha as s Hs%setType_ptrs.
    step_bind Ha as dvcs _. step_bind Ha as svcs _.
    step_bind Ha as [n1 b1] H1. rewrite H1. step_bind Ha as g1 [o A1]%router_addInPort_adds.
    step_bind Ha as [n2 b2] H2. rewrite H2. step_bind Ha as dvcs' _.
    step_bind Ha as g2 [i A2]%router_addOutPort_adds.
    injection Ha as <-. eexists. split; [reflexivity|].
    eapply (two_ports _ _ (mkPort _ _ 0 _ _) o _ _ (mkPort _ _ 0 _ _) i);
      [by apply with_links_same|exact A1|apply note_bridge_same|exact A2|apply note_bridge_same].
Qed.

Lemma answer_all_grows net ints exts g calls g' :
  answer_all c net ints exts g calls = Ok g' → grows g (call_ports net ints exts calls) g'.
Proof.
  revert g. induction calls as [|call calls IH]; intros g; cbn [answer_all].
  - intros [= <-]. cbn. reflexivity.
  - intros Ha. step_bind Ha as g1 (Qs & HQ & H1)%answer_grows.
    unfold call_ports. rewrite bind_cons, HQ. eapply grows_app; [exact H1|by apply IH].
Qed.

Definition no_ports (g : t) : Prop := ∀ P, ¬ has_port g P.

Lemma no_ports_tracked g : no_ports g → tracked g [].
Proof.
  intros Hn. split_and!; [by intros P HP%Hn|by intros P HP%Hn|].
  by intros Q HQ%not_elem_of_nil.
Qed.

Lemma answer_all_tracked net ints exts g calls g' :
  no_ports g → NoDup (consumed <$> call_ports net ints exts calls) →
  NoDup (sourced <$> call_ports net ints exts calls) →
  answer_all c net ints exts g calls = Ok g' → tracked g' (call_ports net ints exts calls).
Proof.
  intros Hn HX HY Ha%answer_all_grows.
  apply (grows_tracked g []); [done|by apply no_ports_tracked|done|done].
Qed.

(** C15: the calls of the topology wire the network.  When the links and bridges given
    to the calls are distinct, [makeExtInLink], [makeExtOutLink] and
    [makeInternalLink] leave exactly the ports asked for, at the link itself or at the
    bridge in front of it; each port is the consumer of the link it reads, the link it
    feeds reads the port's own queue, and no two ports feed the same link. *)
Theorem construction_wires net ints exts g calls g' :
  no_ports g → NoDup (consumed <$> call_ports net ints exts calls) →
  NoDup (sourced <$> call_ports net ints exts calls) →
  answer_all c net ints exts g calls = Ok g' →
  (∀ Q, Q ∈ call_ports net ints exts calls → ∃ i, has_port g' (placed Q i)) ∧
  (∀ P, has_port g' P →
     (∃ Q i, Q ∈ call_ports net ints exts calls ∧ P = placed Q i) ∧
     cons_of (links g') (consumed P) = Some (p_end P) ∧
     src_of (links g') (sourced P) = port_queue P ∧
     ∀ R, has_port g' R → sourced R = sourced P → R = P).
Proof.
  intros Hn HX HY Ha. destruct (answer_all_tracked _ _ _ _ _ _ Hn HX HY Ha) as (Hc & Hin & Hout).
  split; [exact Hout|]. intros P HP. destruct (Hc P HP). split_and!; [by apply Hin|done..|].
  intros R HR E. by eapply sourced_inj.
Qed.

End adds.
