(* ===== verification/BuiltNetwork.v ===== *)
(** * The network that the construction builds

    The routers and links left by the calls of the topology, put together as a network
    of the credit protocol: its channels are the internal links without bridges, and
    flow control holds in every state it reaches. *)

From S2P Require Import Prelude.
From S2P Require Import IntMath.
From S2P Require Import NetDest.
From S2P Require Import Flit.
From S2P Require Import VirtualChannels.
From S2P Require Import Routing.
From S2P Require Import Clocking.
From S2P Require Import Links.
From S2P Require Import Pipeline.
From S2P Require Import FlowControl.
From S2P Require Import CreditProtocol.
From S2P Require Import Topology.
From S2P Require Import Bridge.
From S2P Require Import MessageBuffer.
From S2P Require Import NetworkInterface.
From S2P Require Import Network.
From S2P Require Import Construction.
From S2P Require Import Wiring.

Import Construction.

(** ** Wiring does not touch the buffers of the links *)

Definition buffer_of (o : link_object) : FlitBuffer.t := NetworkLink.linkBuffer (link_base o).

Definition same_buffers (s s' : list link_object) : Prop :=
  ∀ p, buffer_of <$> zlookup s' p = buffer_of <$> zlookup s p.

#[export] Instance same_buffers_preorder : PreOrder same_buffers.
Proof. split; [by intros s p|]. intros s1 s2 s3 H1 H2 p. by rewrite H2. Qed.

Lemma same_buffers_vset s p o o' s' :
  zlookup s p = Some o → buffer_of o' = buffer_of o → vset s p o' = Ok s' → same_buffers s s'.
Proof.
  intros Ho Hb Hv q. rewrite (vset_zlookup _ _ _ _ q Hv). case_decide; [subst|done].
  rewrite Ho. cbn. by rewrite Hb.
Qed.

Lemma setLinkConsumer_buffers s p e s' : setLinkConsumer s p e = Ok s' → same_buffers s s'.
Proof. intros (o & o' & Ho & [= <-] & Hv)%vupd_inv. by eapply same_buffers_vset; [exact Ho| |exact Hv]. Qed.

Lemma setSourceQueue_buffers s p q s' : setSourceQueue s p q = Ok s' → same_buffers s s'.
Proof. intros (o & o' & Ho & [= <-] & Hv)%vupd_inv. by eapply same_buffers_vset; [exact Ho| |exact Hv]. Qed.

Lemma setType_buffers s p ty s' : setType s p ty = Ok s' → same_buffers s s'.
Proof.
  intros (o & o' & Ho & [= <-] & Hv)%vupd_inv. eapply same_buffers_vset; [done| |done].
  unfold buffer_of, link_base. by destruct o as [[] ? ?].
Qed.

Lemma setVcs_buffers fuel s p n s' : setVcs fuel s p n = Ok s' → same_buffers s s'.
Proof.
  revert s p. induction fuel as [|fuel IH]; intros s p; cbn [setVcs]; [done|].
  intros H. step_bind H as o Ho%vget_Ok. destruct (lo_kind o) as [l|b nl co] eqn:E.
  - eapply same_buffers_vset; [exact Ho| |exact H]. unfold buffer_of, link_base. by rewrite E.
  - step_bind H as s1 Hs1. etransitivity; [|by eapply IH].
    eapply same_buffers_vset; [exact Ho| |exact Hs1]. unfold buffer_of, link_base. by rewrite E.
Qed.

Lemma setVcsPerVnet_buffers s p n s' : setVcsPerVnet s p n = Ok s' → same_buffers s s'.
Proof. apply setVcs_buffers. Qed.

Lemma reset_inports_buffers s ports cred vcs s' :
  reset_inports s ports cred vcs = Ok s' → same_buffers s s'.
Proof.
  revert s. induction ports as [|[l cr] ports IH]; intros s; cbn [reset_inports];
    [by intros [= <-]|].
  intros H. step_bind H as s1 H1%setVcsPerVnet_buffers. step_bind H as s2 H2%setVcsPerVnet_buffers.
  etransitivity; [exact H1|]. etransitivity; [exact H2|]. by apply IH.
Qed.

Create HintDb buffers.
#[export] Hint Resolve setLinkConsumer_buffers setSourceQueue_buffers setType_buffers
  setVcsPerVnet_buffers reset_inports_buffers : buffers.

Definition empty_links (s : list link_object) : Prop := Forall (λ o, empty_buffer (buffer_of o)) s.

Lemma empty_links_same s s' : same_buffers s s' → empty_links s → empty_links s'.
Proof.
  intros Hs He. apply Forall_zlookup_intro. intros i o Ho. specialize (Hs i).
  rewrite Ho in Hs. destruct (zlookup s i) as [o0|] eqn:E; [|done]. injection Hs as Hs.
  rewrite Hs. by apply (Forall_zlookup _ _ _ _ He E).
Qed.

(** A chain of operations on the store. *)
Ltac chain_buffers :=
  repeat match goal with
  | H : _ = Ok ?s |- same_buffers _ ?s =>
      etransitivity; [|solve [eauto with buffers]]
  | |- same_buffers _ _ => reflexivity
  end.

(** ** Routers under construction *)

Definition router_ok (ro : router_object) : Prop :=
  fresh_router (ro_router ro) ∧
  length (Router.m_input_unit (ro_router ro)) = length (ro_in ro) ∧
  length (Router.m_output_unit (ro_router ro)) = length (ro_out ro).

Definition sound (g : t) : Prop := Forall router_ok (routers g) ∧ empty_links (links g).

Section built.
  Context `{MachineTypes}.
  Variable c : NetConfig.

Lemma router_addInPort_sound g k dirn l cr g' :
  router_addInPort g k dirn l cr = Ok g' → sound g → sound g'.
Proof.
  unfold router_addInPort. intros Ha [Hr Hl]. step_bind Ha as ro Hro%vget_Ok.
  step_bind Ha as bl _. step_bind Ha as bc _. step_bind Ha as [[r' l'] c'] HA.
  step_bind Ha as s1 H1. step_bind Ha as s2 H2. step_bind Ha as s3 H3. step_bind Ha as s4 H4.
  step_bind Ha as rs Hrs. injection Ha as <-.
  destruct (Forall_zlookup _ _ _ _ Hr Hro) as (Hf & Hi & Ho). split; cbn [routers links].
  - eapply Forall_vset; [exact Hr| |exact Hrs]. split; [by eapply addInPort_fresh|].
    unfold Router.addInPort in HA. step_bind HA as [] _. injection HA as <- _ _. cbn.
    rewrite !length_app. cbn. split; [lia|done].
  - eapply empty_links_same; [|exact Hl]. chain_buffers.
Qed.

Lemma router_addOutPort_sound g k dirn l entry w cr vcs g' :
  router_addOutPort c g k dirn l entry w cr vcs = Ok g' → sound g → sound g'.
Proof.
  unfold router_addOutPort. intros Ha [Hr Hl]. step_bind Ha as ro Hro%vget_Ok.
  step_bind Ha as bl _. step_bind Ha as bc _. step_bind Ha as [[r' l'] c'] HA.
  step_bind Ha as s1 H1. step_bind Ha as s2 H2. step_bind Ha as s3 H3. step_bind Ha as s4 H4.
  step_bind Ha as rs Hrs. injection Ha as <-.
  destruct (Forall_zlookup _ _ _ _ Hr Hro) as (Hf & Hi & Ho). split; cbn [routers links].
  - eapply Forall_vset; [exact Hr| |exact Hrs]. split; [by eapply addOutPort_fresh|].
    unfold Router.addOutPort in HA. step_bind HA as [] _. step_bind HA as u _.
    step_bind HA as ru _. injection HA as <- _ _. cbn. rewrite !length_app. cbn. split; [done|lia].
  - eapply empty_links_same; [|exact Hl]. chain_buffers.
Qed.

Lemma ni_addInPort_sound g k l cr g' : ni_addInPort g k l cr = Ok g' → sound g → sound g'.
Proof.
  unfold ni_addInPort. intros Ha [Hr Hl]. step_bind Ha as io _.
  step_bind Ha as bl _. step_bind Ha as bc _.
  destruct (NetworkInterface.addInPort (io_ni io) bl bc) as [[n' l'] c'].
  step_bind Ha as s1 H1. step_bind Ha as s2 H2. step_bind Ha as s3 H3.
  step_bind Ha as ns _. injection Ha as <-. split; [done|]. cbn [links].
  eapply empty_links_same; [|exact Hl].
  destruct (_ =? 0); [injection H3 as <-|step_bind H3 as s4 H4]; chain_buffers.
Qed.

Lemma ni_addOutPort_sound g k l cr rid vcs g' :
  ni_addOutPort c g k l cr rid vcs = Ok g' → sound g → sound g'.
Proof.
  unfold ni_addOutPort. intros Ha [Hr Hl]. step_bind Ha as io _.
  step_bind Ha as bl _. step_bind Ha as bc _. step_bind Ha as [[[n' l'] c'] fst'] _.
  step_bind Ha as s0 H0. step_bind Ha as s1 H1. step_bind Ha as s2 H2. step_bind Ha as s3 H3.
  step_bind Ha as s4 H4. step_bind Ha as ns _. injection Ha as <-. split; [done|]. cbn [links].
  eapply empty_links_same; [|exact Hl].
  destruct (fst' : bool); [|injection H0 as <-]; chain_buffers.
Qed.

Lemma with_links_sound g p ty s n cr v :
  setType (links g) p ty = Ok s → sound g → sound (push_links (with_links g s) n cr v).
Proof. intros Hs [Hr Hl]. split; [done|]. cbn. by eapply empty_links_same, Hl; eapply setType_buffers. Qed.

Lemma note_bridge_sound e b g : sound g → sound (note_bridge e b g).
Proof. by destruct e. Qed.

#[local] Hint Resolve router_addInPort_sound router_addOutPort_sound ni_addInPort_sound
  ni_addOutPort_sound with_links_sound note_bridge_sound : buffers.

Lemma answer_sound net ints exts g call g' :
  answer c net ints exts g call = Ok g' → sound g → sound g'.
Proof.
  destruct call as [src dest l en|src dest l en|src dest l en so di]; cbn [answer];
    intros Ha Hg; step_bind Ha as gl Hgl.
  - unfold makeExtInLink in Ha. step_bind Ha as k Hk. step_bind Ha as [] _.
    step_bind Ha as s Hs. step_bind Ha as vcs _. step_bind Ha as [n1 b1] _.
    step_bind Ha as g1 H1. step_bind Ha as [n2 b2] _. step_bind Ha as g2 H2.
    injection Ha as <-. eauto 6 with buffers.
  - unfold makeExtOutLink in Ha. step_bind Ha as k Hk. step_bind Ha as [] _.
    step_bind Ha as [] _. step_bind Ha as s Hs. step_bind Ha as vcs _.
    step_bind Ha as [n1 b1] _. step_bind Ha as g1 H1. step_bind Ha as [n2 b2] _.
    step_bind Ha as g2 H2. injection Ha as <-. eauto 6 with buffers.
  - unfold makeInternalLink in Ha. step_bind Ha as s Hs. step_bind Ha as dvcs _.
    step_bind Ha as svcs _. step_bind Ha as [n1 b1] _. step_bind Ha as g1 H1.
    step_bind Ha as [n2 b2] _. step_bind Ha as dvcs' _. step_bind Ha as g2 H2.
    injection Ha as <-. eauto 6 with buffers.
Qed.

Lemma answer_all_sound net ints exts g calls g' :
  answer_all c net ints exts g calls = Ok g' → sound g → sound g'.
Proof.
  revert g. induction calls as [|call calls IH]; intros g; cbn [answer_all];
    [by intros [= <-]|].
  intros Ha Hg. step_bind Ha as g1 H1. eapply IH; [exact Ha|]. by eapply answer_sound.
Qed.

(** ** The network *)

Fixpoint gather {A B} (f : A → result B) (l : list A) : result (list B) :=
  match l with
  | [] => Ok []
  | a :: l' => b ← f a; bs ← gather f l'; Ok (b :: bs)
  end.

Lemma gather_Ok {A B} (P : B → Prop) (f : A → result B) l :
  (∀ a, a ∈ l → ∃ b, f a = Ok b ∧ P b) →
  ∃ bs, gather f l = Ok bs ∧ Forall P bs ∧ length bs = length l.
Proof.
  induction l as [|a l IH]; intros Hf; [by exists []|]. cbn [gather].
  destruct (Hf a) as (b & -> & Hb); [by left|].
  destruct IH as (bs & -> & Hbs & Hl); [intros; apply Hf; by right|].
  exists (b :: bs). cbn. split; [done|]. split; [by constructor|by rewrite Hl].
Qed.

(** A router with the network links it consumes and the credit links it consumes, after
    [Router::init]. *)
Definition node_of (g : t) (ro : router_object) : result node :=
  ins ← gather (λ x, get_base (links g) x.1) (ro_in ro);
  creds ← gather (λ x, get_base (links g) x.2) (ro_out ro);
  Ok (mkNode (Router.init (ro_router ro)) ins creds).

Definition network_of (g : t) : result CreditProtocol.net := gather (node_of g) (routers g).

(** A network before the topology calls it: routers fresh from their constructor,
    interfaces without ports and empty links. *)
Definition just_created (g : t) : Prop :=
  Forall (λ ro, ∃ id lat vns vcs w clk,
    ro = mkRouterObject (Router.make id lat vns vcs w clk) [] []) (routers g) ∧
  Forall (λ io, io_in io = [] ∧ io_out io = []) (nis g) ∧ empty_links (links g).

Lemma just_created_no_ports g : just_created g → no_ports g.
Proof.
  intros (Hr & Hn & _) P (l & Hl & Hz). unfold ports_of in Hl.
  destruct (p_end P) as [k|k|k]; [| |done];
    apply fmap_Some in Hl as (x & Hx & ->).
  - destruct (Forall_zlookup _ _ _ _ Hr Hx) as (?&?&?&?&?&?& ->). cbn in Hz.
    apply zlookup_lt in Hz. destruct (p_in P); unfold zlen in Hz; cbn in Hz; lia.
  - destruct (Forall_zlookup _ _ _ _ Hn Hx) as [E1 E2]. rewrite E1, E2 in Hz.
    apply zlookup_lt in Hz. destruct (p_in P); unfold zlen in Hz; cbn in Hz; lia.
Qed.

Lemma just_created_sound g : just_created g → sound g.
Proof.
  intros (Hr & _ & Hl). split; [|done]. eapply Forall_impl; [exact Hr|].
  intros ro (?&?&?&?&?&?& ->). split; [apply make_fresh|done].
Qed.

Lemma get_base_consumed g P :
  sound g → consistent g → has_port g P →
  ∃ l, get_base (links g) (consumed P) = Ok l ∧ empty_buffer (NetworkLink.linkBuffer l).
Proof.
  intros [_ He] Hc HP. destruct (Hc P HP) as [Hx _]. apply bind_Some in Hx as (o & Ho & _).
  exists (link_base o). unfold get_base. rewrite (vget_intro _ _ _ Ho). split; [done|].
  apply (Forall_zlookup _ _ _ _ He Ho).
Qed.

Lemma elem_of_zlookup {A} (l : list A) a : a ∈ l → ∃ i, zlookup l i = Some a.
Proof.
  intros (i & Hi)%list_elem_of_lookup. exists (Z.of_nat i). apply zlookup_Some.
  split; [lia|by rewrite Nat2Z.id].
Qed.

Lemma network_of_fresh g :
  sound g → consistent g →
  ∃ n, network_of g = Ok n ∧ Forall fresh_node n ∧ length n = length (routers g).
Proof.
  intros Hs Hc. apply gather_Ok. intros ro (k & Hk)%elem_of_zlookup.
  destruct (gather_Ok (λ l, empty_buffer (NetworkLink.linkBuffer l))
    (λ x, get_base (links g) x.1) (ro_in ro)) as (ins & E1 & F1 & _).
  { intros [l cr] (i & Hi)%elem_of_zlookup.
    apply (get_base_consumed g (mkPort (AtRouter k) true i l cr)); [done..|].
    exists (ro_in ro). cbn. by rewrite Hk. }
  destruct (gather_Ok (λ l, empty_buffer (NetworkLink.linkBuffer l))
    (λ x, get_base (links g) x.2) (ro_out ro)) as (cs & E2 & F2 & _).
  { intros [l cr] (i & Hi)%elem_of_zlookup.
    apply (get_base_consumed g (mkPort (AtRouter k) false i l cr)); [done..|].
    exists (ro_out ro). cbn. by rewrite Hk. }
  unfold node_of. rewrite E1, E2. eexists. split; [reflexivity|]. split_and!; [|done..].
  destruct Hs as [Hr _]. destruct (Forall_zlookup _ _ _ _ Hr Hk) as [Hf _]. by apply init_fresh.
Qed.

(** ** Channels *)

(** An output port of a router and an input port of a router at the two ends of the same
    link, with the same credit link back. *)
Definition joined (g : t) (ch : chan) : Prop :=
  ∃ l cr, has_port g (mkPort (AtRouter (ch_src ch)) false (ch_out ch) l cr) ∧
          has_port g (mkPort (AtRouter (ch_dst ch)) true (ch_in ch) l cr).

Lemma joined_src g a b :
  consistent g → joined g a → joined g b → (ch_src a, ch_out a) = (ch_src b, ch_out b) → a = b.
Proof.
  intros Hc (l & cr & Ha1 & Ha2) (l' & cr' & Hb1 & Hb2) [= E1 E2].
  assert (mkPort (AtRouter (ch_src a)) false (ch_out a) l cr =
          mkPort (AtRouter (ch_src b)) false (ch_out b) l' cr') as [= _ _ -> ->].
  { apply (has_port_fun g); [done|done|cbn; congruence..]. }
  assert (mkPort (AtRouter (ch_dst a)) true (ch_in a) l' cr' =
          mkPort (AtRouter (ch_dst b)) true (ch_in b) l' cr') as [= E3 E4]
    by by apply (sourced_inj g).
  destruct a, b. cbn in *. by subst.
Qed.

Lemma joined_dst g a b :
  consistent g → joined g a → joined g b → (ch_dst a, ch_in a) = (ch_dst b, ch_in b) → a = b.
Proof.
  intros Hc (l & cr & Ha1 & Ha2) (l' & cr' & Hb1 & Hb2) [= E1 E2].
  assert (mkPort (AtRouter (ch_dst a)) true (ch_in a) l cr =
          mkPort (AtRouter (ch_dst b)) true (ch_in b) l' cr') as [= _ _ -> ->].
  { apply (has_port_fun g); [done|done|cbn; congruence..]. }
  assert (mkPort (AtRouter (ch_src a)) false (ch_out a) l' cr' =
          mkPort (AtRouter (ch_src b)) false (ch_out b) l' cr') as [= E3 E4]
    by by apply (sourced_inj g).
  destruct a, b. cbn in *. by subst.
Qed.

Lemma NoDup_fmap_on {A B} (f : A → B) (l : list A) :
  (∀ a b, a ∈ l → b ∈ l → f a = f b → a = b) → NoDup l → NoDup (f <$> l).
Proof.
  intros Hinj Hl. induction Hl as [|a l Ha Hl IH]; cbn; [constructor|]. constructor.
  - intros (b & E & Hb)%list_elem_of_fmap. apply Ha.
    rewrite (Hinj a b); [done|by left|by right|done].
  - apply IH. intros x y Hx Hy. apply Hinj; by right.
Qed.

Lemma joined_wired g cs :
  consistent g → NoDup cs → (∀ ch, ch ∈ cs → joined g ch) → wired cs.
Proof.
  intros Hc Hn Hj. split; apply NoDup_fmap_on; try done; intros a b Ha Hb E.
  - eapply joined_src; eauto.
  - eapply joined_dst; eauto.
Qed.

(** C6: the network that [GarnetNetwork] builds has exact flow control.  Starting from
    routers, interfaces and links as their constructors leave them, after the calls of the
    topology over distinct links the network is defined, has every router, and over any set of
    its channels, in every state it reaches, the credits of the sender, what is under way
    and what is buffered add up to the size of the receiver's buffer. *)
Theorem built_network_flow_control net ints exts g calls g' :
  just_created g → NoDup (consumed <$> call_ports net ints exts calls) →
  NoDup (sourced <$> call_ports net ints exts calls) →
  answer_all c net ints exts g calls = Ok g' →
  ∃ n0, network_of g' = Ok n0 ∧ length n0 = length (routers g') ∧
    ∀ cs n ch v s,
      NoDup cs → (∀ ch, ch ∈ cs → joined g' ch) → rtc (step cs) n0 n → ch ∈ cs →
      out_vc n ch v = Some s →
      OutVcState.m_credit_count s + in_flight n ch v + occupancy n ch v + returning n ch v =
        OutVcState.m_max_credit_count s ∧
      0 ≤ occupancy n ch v ≤ OutVcState.m_max_credit_count s.
Proof.
  intros Hg HX HY Ha.
  destruct (answer_all_tracked c _ _ _ _ _ _ (just_created_no_ports _ Hg) HX HY Ha) as (Hc & _).
  pose proof (answer_all_sound _ _ _ _ _ _ Ha (just_created_sound _ Hg)) as Hs.
  destruct (network_of_fresh g' Hs Hc) as (n0 & Hn & Hf & Hl). exists n0.
  split_and!; [done..|]. intros cs n ch v s Hcs Hj Hr Hch Hv.
  destruct (reachable_sum _ _ _ _ _ _ (joined_wired _ _ Hc Hcs Hj) Hf Hr Hch Hv) as [He [Hw _]].
  pose proof (pieces_nonneg n ch v). lia.
Qed.

End built.

(** ** Two routers built by the calls of the topology

    Two interfaces at two routers, an internal link from router 0 to router 1 and
    one back with bridges at its receiving end. *)

Module BuiltExample.
Import ExampleMachines TwoRouters.
#[local] Existing Instance machines.

Definition network : Network.t :=
  match Network.make 1 8 64 64 [(0, 0); (0, 1)] with
  | Ok net => net
  | Err _ => Network.mk 0 0 0 0 [] [] [] [] ∅
  end.

(** Twelve links: for each external link two pairs, for each internal link one. *)
Definition plain_links : list link_object :=
  replicate 12 (mkLinkObject (PlainLink TwoRouters.link) None None).

(** The bridges 12 and 13 in front of the links 10 and 11. *)
Definition store : result (list link_object) :=
  '(s, b) ← new_bridge plain_links TwoRouters.link 10 LINK_OBJECT 1 1;
  '(s, b') ← new_bridge s TwoRouters.link 11 OBJECT_LINK 1 1;
  Ok s.

Definition ints : list GarnetIntLink :=
  [mkGarnetIntLink 2 8 9 false false false false None None None None;
   mkGarnetIntLink 3 10 11 false true false false None None (Some 12) (Some 13)].

Definition plain_direction (n b : Z) : ext_direction := mkExtDirection n b None None None None.

Definition exts : list GarnetExtLink :=
  [mkGarnetExtLink 0 (plain_direction 0 1) (plain_direction 2 3) false false false false;
   mkGarnetExtLink 1 (plain_direction 4 5) (plain_direction 6 7) false false false false].

Definition before : t :=
  match (s ← store; s ← init_int s (default (mkGarnetIntLink 0 0 0 false false false false
                                       None None None None) (ints !! 1%nat)); Ok s) with
  | Ok s =>
      mk [mkRouterObject (Router.make 0 1 1 1 16 clock) [] [];
          mkRouterObject (Router.make 1 1 1 1 16 clock) [] []]
         [mkInterfaceObject (NetworkInterface.make 0 1 1000 clock) [] [];
          mkInterfaceObject (NetworkInterface.make 1 1 1000 clock) [] []]
         s [] [] [] 0
  | Err _ => mk [] [] [] [] [] [] 0
  end.

Definition basic (id : Z) : BasicLink.t := BasicLink.mk id 1 1 1 [].

Definition calls : list link_call :=
  [MakeExtIn 0 0 (basic 0) [dest 0 0]; MakeExtOut 0 0 (basic 0) [dest 0 0];
   MakeExtIn 1 1 (basic 1) [dest 0 1]; MakeExtOut 1 1 (basic 1) [dest 0 1];
   MakeInternal 0 1 (basic 2) [dest 0 1] "East" "West";
   MakeInternal 1 0 (basic 3) [dest 0 0] "West" "East"].

Definition built : result t := answer_all config network ints exts before calls.
Definition after : t := match built with Ok g => g | Err _ => before end.

Lemma built_after : answer_all config network ints exts before calls = Ok after.
Proof. vm_compute. reflexivity. Qed.

Lemma before_created : just_created before.
Proof.
  split_and!; repeat constructor; try reflexivity; do 6 eexists; reflexivity.
Qed.

Lemma consumed_nodup : NoDup (consumed <$> call_ports network ints exts calls).
Proof. apply (bool_decide_unpack _). vm_compute. exact I. Qed.

Lemma sourced_nodup : NoDup (sourced <$> call_ports network ints exts calls).
Proof. apply (bool_decide_unpack _). vm_compute. exact I. Qed.

(** The bridge in front of the second internal link is what router 0 consumes. *)
Lemma construction_wires_witness :
  cons_of (links after) 12 = Some (AtRouter 0) ∧
  ∃ i, has_port after (mkPort (AtRouter 0) true i 12 13).
Proof.
  destruct (construction_wires config network ints exts before calls after
    (just_created_no_ports _ before_created) consumed_nodup sourced_nodup built_after)
    as [Hports Hwired].
  destruct (Hports (mkPort (AtRouter 0) true 0 12 13)) as [i Hi].
  { apply (bool_decide_unpack _). vm_compute. exact I. }
  destruct (Hwired _ Hi) as (_ & Hc & _). split; [exact Hc|]. exists i. exact Hi.
Defined.

(** The channel of the first internal link: output port 1 of router 0, input port 1 of
    router 1. *)
Definition channel : chan := mkChan 0 1 1 1.

Lemma built_network_flow_control_witness :
  ∃ n s, network_of after = Ok n ∧ out_vc n channel 0 = Some s ∧
    OutVcState.m_credit_count s + in_flight n channel 0 + occupancy n channel 0 +
      returning n channel 0 = 4.
Proof.
  destruct (built_network_flow_control config network ints exts before calls after
    before_created consumed_nodup sourced_nodup built_after) as (n0 & Hn & _ & Hflow).
  destruct (out_vc n0 channel 0) as [s|] eqn:Es;
    [|vm_compute in Hn; injection Hn as <-; vm_compute in Es; discriminate].
  exists n0, s. split; [exact Hn|]. split; [exact Es|].
  destruct (Hflow [channel] n0 channel 0 s) as [-> _].
  - apply NoDup_singleton.
  - intros ch ->%list_elem_of_singleton. exists 8, 9. split; eexists; split;
      vm_compute; reflexivity.
  - apply rtc_refl.
  - apply list_elem_of_singleton. reflexivity.
  - exact Es.
  - vm_compute in Hn. injection Hn as <-. vm_compute in Es. injection Es as <-. reflexivity.
Defined.

End BuiltExample.
