(* ===== verification/RoutingTables.v ===== *)
(** * The routing tables that the construction fills

    Every call that gives a router an output port also gives its routing unit an entry
    and a weight: the three stay aligned, so the table of a router is read off the
    calls of the topology. *)

From S2P Require Import Prelude.
From S2P Require Import IntMath.
From S2P Require Import NetDest.
From S2P Require Import Flit.
From S2P Require Import VirtualChannels.
From S2P Require Import Routing.
From S2P Require Import Clocking.
From S2P Require Import Links.
From S2P Require Import Pipeline.
From S2P Require Import Topology.
From S2P Require Import TopologyFacts.
From S2P Require Import Bridge.
From S2P Require Import MessageBuffer.
From S2P Require Import NetworkInterface.
From S2P Require Import Network.
From S2P Require Import Construction.
From S2P Require Import Wiring.
From S2P Require Import BuiltNetwork.

Import Construction.

(** ** The table of a routing unit *)

(** The rows of [tb] hold the entries of the links [es], in order. *)
Definition table_of (vnets : Z) (tb : list (list NetDest.t)) (es : list (list NetDest.t))
    : Prop :=
  (es = [] ∧ tb = []) ∨
  (es ≠ [] ∧ zlen tb = vnets ∧
   ∀ v row, zlookup tb v = Some row → Forall2 (λ nd e, zlookup e v = Some nd) row es).

Lemma addRoute_table `{MachineTypes} vnets u entry u' es :
  0 < vnets → zlen entry = vnets → table_of vnets (RoutingUnit.m_routing_table u) es →
  RoutingUnit.addRoute u entry = Ok u' →
  RoutingUnit.m_weight_table u' = RoutingUnit.m_weight_table u ∧
  table_of vnets (RoutingUnit.m_routing_table u') (es ++ [entry]).
Proof.
  intros Hv He Ht Ha. unfold RoutingUnit.addRoute in Ha. rewrite He in Ha.
  set (tb0 := if _ <? _ then _ else _) in Ha.
  assert (zlen tb0 = vnets ∧ ∀ v row, zlookup tb0 v = Some row →
    Forall2 (λ nd e, zlookup e v = Some nd) row es) as [H0 Hrow].
  { destruct Ht as [[-> E]|(Hne & Hl & Hr)]; subst tb0.
    - rewrite E. rewrite (proj2 (Z.ltb_lt _ _)) by done. unfold vresize. rewrite resize_nil.
      split; [unfold zlen; rewrite length_replicate; lia|].
      intros v row [-> _]%zlookup_replicate. constructor.
    - rewrite Hl, Z.ltb_irrefl. done. }
  step_bind Ha as tb' Hf. injection Ha as <-. split; [done|]. right.
  split; [by destruct es|]. cbn [RoutingUnit.with_table RoutingUnit.m_routing_table].
  apply (for_range_inv (λ k tb, zlen tb = vnets ∧ ∀ v row, zlookup tb v = Some row →
    (v < k → ∃ row0 nd, row = row0 ++ [nd] ∧ zlookup tb0 v = Some row0 ∧
                        zlookup entry v = Some nd) ∧
    (k ≤ v → zlookup tb0 v = Some row))) in Hf as [H1 H2].
  - split; [done|]. intros v row Hz. pose proof (zlookup_lt _ _ _ Hz).
    destruct (H2 v row Hz) as [(row0 & nd & -> & Hz0 & Hnd) _]; [unfold zlen in *; lia|].
    apply Forall2_app; [by apply Hrow|]. by constructor.
  - intros k t1 t2 Hk [Hl Ht1] Hs. step_bind Hs as nd Hnd%vget_Ok.
    apply vupd_inv in Hs as (row & row' & Hz & [= <-] & Hset).
    apply vset_Ok in Hset as [Hr ->]. split; [by rewrite zlen_insert|].
    intros v rw. rewrite zlookup_insert by done. case_decide as E.
    + subst v. intros [= <-]. split; [|lia]. intros _. exists row, nd.
      split_and!; [done| |done]. apply (Ht1 k row Hz). lia.
    + intros Hz'. destruct (Ht1 v rw Hz') as [A B]. split; intros; [apply A|apply B]; lia.
  - split; [done|]. intros v row Hz. split; [|done]. apply zlookup_lt in Hz. lia.
Qed.

(** ** The calls that give router [k] an output port *)

Section tables.
  Context `{MachineTypes}.
  Variables (c : NetConfig) (net : Network.t).
  Variables (ints : list GarnetIntLink) (exts : list GarnetExtLink) (vnets : Z).

Record out_entry := mkOutEntry {
  oe_entry : list NetDest.t;
  oe_weight : Z;
  oe_links : Z * Z;
}.

Definition ok_or_none {A} (r : result A) : option A :=
  match r with Ok a => Some a | Err _ => None end.

(** The two links a call attaches to an output port. *)
Definition out_links (call : link_call) : result (Z * Z) :=
  match call with
  | MakeExtIn _ _ _ _ => Err Undefined
  | MakeExtOut _ _ l _ =>
      gl ← find_ext exts l;
      attach (intBridgeEn gl) (int_net_bridge (dir_out gl)) (int_cred_bridge (dir_out gl))
        (network_link (dir_out gl)) (credit_link (dir_out gl))
  | MakeInternal _ _ l _ _ _ =>
      gl ← find_int ints l;
      attach (srcBridgeEn gl) (src_net_bridge gl) (src_cred_bridge gl) (m_network_link gl)
        (m_credit_link gl)
  end.

Definition out_of (k : Z) (call : link_call) : option out_entry :=
  match call with
  | MakeExtIn _ _ _ _ => None
  | MakeExtOut src _ l entry | MakeInternal src _ l entry _ _ =>
      if decide (src = k)
      then mkOutEntry entry (BasicLink.m_weight l) <$> ok_or_none (out_links call)
      else None
  end.

Definition entry_of_call (call : link_call) : list NetDest.t :=
  match call with
  | MakeExtIn _ _ _ e | MakeExtOut _ _ _ e | MakeInternal _ _ _ e _ _ => e
  end.

(** What a router knows of its output ports. *)
Definition tab (g : t) (k : Z) : option (list (Z * Z) * RoutingUnit.t) :=
  (λ ro, (ro_out ro, Router.routingUnit (ro_router ro))) <$> zlookup (routers g) k.

Definition same_tab (x y : list (Z * Z) * RoutingUnit.t) : Prop :=
  x.1 = y.1 ∧ RoutingUnit.m_routing_table x.2 = RoutingUnit.m_routing_table y.2 ∧
  RoutingUnit.m_weight_table x.2 = RoutingUnit.m_weight_table y.2.

Lemma router_addInPort_tab g k dirn l cr g' :
  router_addInPort g k dirn l cr = Ok g' →
  ∀ k', option_Forall2 same_tab (tab g k') (tab g' k').
Proof.
  unfold router_addInPort. intros Ha. step_bind Ha as ro Hro%vget_Ok.
  step_bind Ha as bl _. step_bind Ha as bc _. step_bind Ha as [[r' l'] c'] Hadd.
  step_bind Ha as s1 _. step_bind Ha as s2 _. step_bind Ha as s3 _. step_bind Ha as s4 _.
  step_bind Ha as rs Hrs. injection Ha as <-. intros k'. unfold tab. cbn [routers].
  rewrite (vset_zlookup _ _ _ _ k' Hrs). case_decide as E.
  - subst k'. rewrite Hro. constructor. unfold Router.addInPort in Hadd.
    step_bind Hadd as [] _. injection Hadd as <- _ _. done.
  - destruct (zlookup (routers g) k'); constructor. done.
Qed.

Lemma router_addOutPort_tab g k dirn l entry w cr vcs g' :
  router_addOutPort c g k dirn l entry w cr vcs = Ok g' →
  ∃ ps u u', tab g k = Some (ps, u) ∧ RoutingUnit.addRoute u entry = Ok u' ∧
    ∀ k', if decide (k' = k)
          then ∃ y, tab g' k' = Some y ∧
                    same_tab (ps ++ [(l, cr)], RoutingUnit.addWeight u' w) y
          else tab g' k' = tab g k'.
Proof.
  unfold router_addOutPort. intros Ha. step_bind Ha as ro Hro%vget_Ok.
  step_bind Ha as bl _. step_bind Ha as bc _. step_bind Ha as [[r' l'] c'] Hadd.
  step_bind Ha as s1 _. step_bind Ha as s2 _. step_bind Ha as s3 _. step_bind Ha as s4 _.
  step_bind Ha as rs Hrs. injection Ha as <-. unfold Router.addOutPort in Hadd.
  step_bind Hadd as [] _. step_bind Hadd as ou _. step_bind Hadd as u' Hu.
  injection Hadd as <- _ _. exists (ro_out ro), (Router.routingUnit (ro_router ro)), u'.
  split_and!; [unfold tab; by rewrite Hro|exact Hu|]. intros k'. unfold tab. cbn [routers].
  rewrite (vset_zlookup _ _ _ _ k' Hrs). case_decide as E; [subst k'|].
  - rewrite decide_True by done. eexists. split; [reflexivity|]. done.
  - by rewrite decide_False by congruence.
Qed.

Lemma ni_addInPort_tab g k l cr g' k' : ni_addInPort g k l cr = Ok g' → tab g' k' = tab g k'.
Proof.
  unfold ni_addInPort. intros Ha. step_bind Ha as io _. step_bind Ha as bl _.
  step_bind Ha as bc _. destruct (NetworkInterface.addInPort (io_ni io) bl bc) as [[n' l'] c'].
  step_bind Ha as s1 _. step_bind Ha as s2 _. step_bind Ha as s3 _. step_bind Ha as ns _.
  by injection Ha as <-.
Qed.

Lemma ni_addOutPort_tab g k l cr rid vcs g' k' :
  ni_addOutPort c g k l cr rid vcs = Ok g' → tab g' k' = tab g k'.
Proof.
  unfold ni_addOutPort. intros Ha. step_bind Ha as io _. step_bind Ha as bl _.
  step_bind Ha as bc _. step_bind Ha as [[[n' l'] c'] f] _. step_bind Ha as s0 _.
  step_bind Ha as s1 _. step_bind Ha as s2 _. step_bind Ha as s3 _. step_bind Ha as s4 _.
  step_bind Ha as ns _. by injection Ha as <-.
Qed.

(** The tables agree with the output ports of the calls answered. *)
Definition tables (g : t) (calls : list link_call) : Prop :=
  ∀ k ps u, tab g k = Some (ps, u) →
    let outs := omap (out_of k) calls in
    ps = oe_links <$> outs ∧ RoutingUnit.m_weight_table u = oe_weight <$> outs ∧
    table_of vnets (RoutingUnit.m_routing_table u) (oe_entry <$> outs).

(** A call without an output port of a router. *)
Lemma tables_same g g' calls call :
  tables g calls → (∀ k, option_Forall2 same_tab (tab g k) (tab g' k)) →
  (∀ k, out_of k call = None) → tables g' (calls ++ [call]).
Proof.
  intros Ht Hs Hn k ps' u' Hk. pose proof (Hs k) as Hsk. rewrite Hk in Hsk.
  inversion Hsk as [[ps u] y (E1 & E2 & E3) Hg Ey|]. subst y. cbn in E1, E2, E3.
  rewrite omap_app. cbn [omap list_omap]. rewrite Hn, app_nil_r.
  rewrite <- E1, <- E2, <- E3. by apply Ht.
Qed.

(** A call that gives router [k] an output port. *)
Lemma tables_out g g1 g' calls call k entry w l cr dirn vcs :
  0 < vnets → zlen entry = vnets → tables g calls →
  (∀ k', option_Forall2 same_tab (tab g k') (tab g1 k')) →
  router_addOutPort c g1 k dirn l entry w cr vcs = Ok g' →
  (∀ k', out_of k' call = if decide (k = k') then Some (mkOutEntry entry w (l, cr)) else None) →
  tables g' (calls ++ [call]).
Proof.
  intros Hv He Ht Hs (ps1 & u1 & u2 & Hk1 & Hadd & Hg')%router_addOutPort_tab Ho k' ps' u' Hk'.
  rewrite omap_app. cbn [omap list_omap]. rewrite Ho. specialize (Hg' k').
  destruct (decide (k' = k)) as [->|Hne].
  - rewrite decide_True by done. rewrite !fmap_app. cbn [fmap list_fmap].
    pose proof (Hs k) as Hsk. rewrite Hk1 in Hsk.
    inversion Hsk as [[ps u] y (E1 & E2 & E3) Hg Ey|]. subst y. cbn in E1, E2, E3.
    destruct Hg' as ([? ?] & Hy & F1 & F2 & F3). rewrite Hk' in Hy. injection Hy as <- <-.
    cbn in F1, F2, F3. destruct (Ht k ps u) as (A & B & C); [done|].
    rewrite E2 in C. rewrite E3 in B. rewrite E1 in A.
    destruct (addRoute_table vnets u1 entry u2 _ Hv He C Hadd) as [G1 G2].
    rewrite <- F1, <- F2, <- F3, G1, A, B. done.
  - rewrite decide_False, app_nil_r by congruence. rewrite Hk' in Hg'.
    pose proof (Hs k') as Hsk. rewrite <- Hg' in Hsk.
    inversion Hsk as [[ps u] y (E1 & E2 & E3) Hg Ey|]. subst y. cbn in E1, E2, E3.
    rewrite <- E1, <- E2, <- E3. by apply Ht.
Qed.

Lemma same_tab_refl g g' : (∀ k, tab g' k = tab g k) →
  ∀ k, option_Forall2 same_tab (tab g k) (tab g' k).
Proof. intros E k. rewrite E. destruct (tab g k); constructor. done. Qed.

Lemma note_bridge_tab e b g k : tab (note_bridge e b g) k = tab g k.
Proof. by destruct e. Qed.

Lemma answer_tables g calls call g' :
  0 < vnets → zlen (entry_of_call call) = vnets → tables g calls →
  answer c net ints exts g call = Ok g' → tables g' (calls ++ [call]).
Proof.
  destruct call as [src dest l en|src dest l en|src dest l en so di]; cbn [answer entry_of_call];
    intros Hv He Ht Ha; step_bind Ha as gl Hgl.
  - unfold makeExtInLink in Ha. step_bind Ha as k _.
    step_bind Ha as [] _. step_bind Ha as s _. step_bind Ha as vcs _.
    step_bind Ha as [n1 b1] _. step_bind Ha as g1 A1. step_bind Ha as [n2 b2] _.
    step_bind Ha as g2 A2. injection Ha as <-. eapply tables_same; [exact Ht| |done].
    intros k'. rewrite note_bridge_tab.
    pose proof (router_addInPort_tab _ _ _ _ _ _ A2 k') as Hs.
    rewrite note_bridge_tab, (ni_addOutPort_tab _ _ _ _ _ _ _ k' A1) in Hs. exact Hs.
  - unfold makeExtOutLink in Ha. step_bind Ha as k _.
    step_bind Ha as [] _. step_bind Ha as [] _. step_bind Ha as s _. step_bind Ha as vcs _.
    step_bind Ha as [n1 b1] _. step_bind Ha as g1 A1. step_bind Ha as [n2 b2] Hat.
    step_bind Ha as g2 A2. injection Ha as <-.
    cut (tables g2 (calls ++ [MakeExtOut src dest l en])).
    { intros HT k' ps u Hk. rewrite note_bridge_tab in Hk. by apply HT. }
    eapply tables_out; [exact Hv|exact He|exact Ht| |exact A2|].
    + apply same_tab_refl. intros k'. rewrite note_bridge_tab.
      by rewrite (ni_addInPort_tab _ _ _ _ _ k' A1).
    + intros k'. unfold out_of, out_links. rewrite Hgl. cbn [rbind]. by rewrite Hat.
  - unfold makeInternalLink in Ha. step_bind Ha as s _.
    step_bind Ha as dvcs _. step_bind Ha as svcs _. step_bind Ha as [n1 b1] _.
    step_bind Ha as g1 A1. step_bind Ha as [n2 b2] Hat. step_bind Ha as dvcs' _.
    step_bind Ha as g2 A2. injection Ha as <-.
    cut (tables g2 (calls ++ [MakeInternal src dest l en so di])).
    { intros HT k' ps u Hk. rewrite note_bridge_tab in Hk. by apply HT. }
    eapply tables_out; [exact Hv|exact He|exact Ht| |exact A2|].
    + intros k'. rewrite note_bridge_tab. apply (router_addInPort_tab _ _ _ _ _ _ A1).
    + intros k'. unfold out_of, out_links. rewrite Hgl. cbn [rbind]. by rewrite Hat.
Qed.

Lemma answer_all_tables g done calls g' :
  0 < vnets → Forall (λ call, zlen (entry_of_call call) = vnets) calls → tables g done →
  answer_all c net ints exts g calls = Ok g' → tables g' (done ++ calls).
Proof.
  intros Hv HF. revert g done. induction HF as [|call calls He HF IH]; intros g done Ht;
    cbn [answer_all].
  - intros [= <-]. by rewrite app_nil_r.
  - intros Ha. step_bind Ha as g1 H1. rewrite cons_middle, app_assoc.
    eapply IH; [|exact Ha]. by eapply answer_tables.
Qed.

Lemma created_tables g : just_created g → tables g [].
Proof.
  intros (Hr & _) k ps u Hk. unfold tab in Hk.
  apply fmap_Some in Hk as (ro & Hro & E). injection E as -> ->.
  destruct (Forall_zlookup _ _ _ _ Hr Hro) as (?&?&?&?&?&?& ->). split_and!; [done..|by left].
Qed.

End tables.
