(* ===== verification/Delivery.v ===== *)
(** * The built network delivers

    The topology, the construction and the routing units together: a packet that
    follows the output ports the routers compute reaches the interface of its
    destination. *)

From S2P Require Import Prelude.
From S2P Require Import IntMath.
From S2P Require Import NetDest.
From S2P Require Import Flit.
From S2P Require Import VirtualChannels.
From S2P Require Import Routing.
From S2P Require Import Clocking.
From S2P Require Import Links.
From S2P Require Import Pipeline.
From S2P Require Import CreditProtocol.
From S2P Require Import Topology.
From S2P Require Import ShortestPath.
From S2P Require Import TopologyFacts.
From S2P Require Import Bridge.
From S2P Require Import MessageBuffer.
From S2P Require Import NetworkInterface.
From S2P Require Import Network.
From S2P Require Import Construction.
From S2P Require Import Wiring.
From S2P Require Import BuiltNetwork.
From S2P Require Import RoutingTables.

Import Construction.

(** ** Following a packet *)

(** The router or interface at the end of a link, through the bridges in front of and
    behind it. *)
Fixpoint follow (fuel : nat) (s : list link_object) (p : Z) : result endpoint :=
  match fuel with
  | O => Err OutOfFuel
  | S n =>
      o ← vget s p;
      e ← determinate (link_consumer o);
      match e with AtLink q => follow n s q | _ => Ok e end
  end.

(** What a router's choice depends on beside its table and the packet: the result of
    [rand()], and the input port with its direction. *)
Record choice := mkChoice { ch_rand : Z; ch_inport : Z; ch_dirn : string }.

Definition hop `{MachineTypes} (c : NetConfig) (g : t) (x : choice) (k : Z) (route : RouteInfo)
    : result endpoint :=
  ro ← vget (routers g) k;
  '(o, _) ← RoutingUnit.outportCompute c (ch_rand x) (Router.m_id (ro_router ro))
              (Router.routingUnit (ro_router ro)) route (ch_inport x) (ch_dirn x);
  '(l, _) ← vget (ro_out ro) o;
  follow 3 (links g) l.

(** The interface a packet in router [k] comes to in at most [fuel] hops, if any. *)
Fixpoint walk `{MachineTypes} (c : NetConfig) (g : t) (xs : nat → choice) (fuel : nat) (k : Z)
    (route : RouteInfo) : result (option Z) :=
  match fuel with
  | O => Ok None
  | S n =>
      e ← hop c g (xs O) k route;
      match e with
      | AtRouter k' => walk c g (λ m, xs (S m)) n k' route
      | AtInterface i => Ok (Some i)
      | AtLink _ => Err Undefined
      end
  end.

(** ** Bridges *)

(** In the store [s] the link [p] leads to [q] through at most [n] pointers from bridges
    and their links, none of which is in [X]. *)
Fixpoint carried (n : nat) (s : list link_object) (X : list Z) (p q : Z) : bool :=
  bool_decide (p = q) ||
  match n with
  | O => false
  | S n' =>
      negb (bool_decide (p ∈ X)) &&
      match cons_of s p with Some (AtLink m) => carried n' s X m q | _ => false end
  end.

Lemma carried_follow n s s' X p q e :
  (∀ x, x ∉ X → cons_of s' x = cons_of s x) → carried n s X p q = true →
  cons_of s' q = Some e → (∀ l, e ≠ AtLink l) → follow (S n) s' p = Ok e.
Proof.
  intros Hs Hc He Hne.
  assert (∀ n, follow (S n) s' q = Ok e) as Hq.
  { intros m. cbn [follow]. apply bind_Some in He as (o & Ho & He).
    rewrite (vget_intro _ _ _ Ho). cbn [rbind]. rewrite He. cbn [determinate rbind]. destruct e as [k|k|l]; [done|done|by destruct (Hne l)]. }
  revert p Hc. induction n as [|n IH]; intros p; cbn [carried]; rewrite orb_true_iff;
    (intros [->%bool_decide_eq_true|Hc]; [apply Hq|]); [done|].
  apply andb_true_iff in Hc as [Hx%negb_true_iff%bool_decide_eq_false Hc].
  destruct (cons_of s p) as [[k|k|m]|] eqn:E; try done.
  rewrite <- (Hs p Hx) in E. apply bind_Some in E as (o & Ho & E).
  change (follow (S (S n)) s' p = Ok e) with
    ((o ← vget s' p; e ← determinate (link_consumer o);
      match e with AtLink q => follow (S n) s' q | _ => Ok e end) = Ok e).
  rewrite (vget_intro _ _ _ Ho). cbn [rbind]. rewrite E. cbn [determinate rbind]. by apply IH.
Qed.

Lemma grows_consumers g Qs g' x :
  grows g Qs g' → x ∉ consumed <$> Qs → cons_of (links g') x = cons_of (links g) x.
Proof.
  revert g. induction Qs as [|Q Qs IH]; intros g; cbn [grows].
  - intros [_ Hs] _. by destruct (Hs x).
  - intros (g1 & i & [_ (q & _ & Hr)] & Hg). rewrite fmap_cons, not_elem_of_cons.
    intros [Hx Hn]. rewrite (IH _ Hg Hn). destruct (Hr x) as [-> _].
    by rewrite decide_False by done.
Qed.

(** ** Paths in the graph of the topology *)

(** [W] is the weight of a path of links that carry the virtual network [v]. *)
Inductive route_weight `{MachineTypes} (top : Topology.t) (v : Z) : Z → Z → Z → Prop :=
| rw_here i : route_weight top v i i 0
| rw_link i j f e W :
    e ∈ Topology.find (Topology.m_link_map top) (i, j) → carries (link e) v →
    route_weight top v j f W → route_weight top v i f (BasicLink.m_weight (link e) + W).

Section paths.
  Context `{MachineTypeLaws}.
  Variables (top : Topology.t) (w d : Matrix) (lat isw : Matrix) (v : Z).
  Notation nodes := (num_switches top).
  Hypothesis Htop : graph_wf top.
  Hypothesis Hv : 0 ≤ v < Topology.m_vnets top.
  Hypothesis Hm : Topology.initial_matrices top = Ok (w, lat, isw).
  Hypothesis (Hlw : link_weights nodes w v) (Hs : shortest nodes w d v).

Lemma route_weight_dist i f W :
  0 ≤ f < nodes → route_weight top v i f W → 0 ≤ i < nodes ∧ val d v i f ≤ W.
Proof.
  intros Hf. induction 1 as [i|i j f e W He Hc _ IH].
  - split; [done|]. rewrite (dist_self nodes w d v Hs Hlw) by done. done.
  - destruct (IH Hf) as [Hj Hd]. destruct (link_range top Htop i j e He) as [Hi _].
    split; [done|]. pose proof (dist_hop nodes w d v Hs i j f Hi Hj Hf).
    destruct (initial_matrices_spec top Htop w lat isw ltac:(lia) Hm) as (_ & _ & _ & Hcell).
    destruct (Hcell v i j Hv Hi Hj) as [Hw _]. rewrite <- (Hw e He Hc). lia.
Qed.

(** No link leaves an output queue. *)
Lemma queue_final j f :
  Topology.m_nodes top ≤ j < 2 * Topology.m_nodes top → 0 ≤ j < nodes → 0 ≤ f < nodes →
  val d v j f < INFINITE_LATENCY → j = f.
Proof.
  intros Hj Hjn Hf Hd. destruct (decide (j = f)) as [|Hne]; [done|].
  destruct (shortest_next nodes w d v Hs Hlw j f) as (x & Hx & [Hr1 Hr2] & _); [done..|].
  destruct (real_link_entry top Htop w lat isw v j x) as (e & He%find_in & _); [done..|lia|].
  destruct (gw_key top Htop _ _ _ He) as (_ & _ & _ & Hk & _). lia.
Qed.

End paths.

(** ** One hop *)

Section delivery.
  Context `{MachineTypeLaws}.
  Variables (c : NetConfig) (net : Network.t).
  Variables (ints : list GarnetIntLink) (exts : list GarnetExtLink).
  Variables (top : Topology.t) (calls : list link_call) (g0 g' : t).
  Notation nodes := (num_switches top).
  Notation n := (Topology.m_nodes top).
  Notation vnets := (Topology.m_vnets top).
  Notation asked := (call_ports net ints exts calls).

(** The link at the output port a call makes leads, maybe through bridges, to the link at
    the input port. *)
Definition bridged (s : list link_object) (X : list Z) (call : link_call) : bool :=
  match ask_ports net ints exts call with
  | Ok [P1; P2] =>
      let '(o, i) := if p_in P1 then (P2, P1) else (P1, P2) in
      carried 2 s X (p_link o) (p_link i)
  | _ => false
  end.

  Hypothesis Hgrow : grows g0 asked g'.
  Hypothesis Htrack : tracked g' asked.
  Hypothesis Hbridge : Forall (λ call, bridged (links g0) (consumed <$> asked) call = true) calls.

Lemma asked_in call Qs Q :
  call ∈ calls → ask_ports net ints exts call = Ok Qs → Q ∈ Qs → Q ∈ asked.
Proof.
  intros Hc HQs HQ. unfold call_ports. apply list_elem_of_bind. exists call.
  split; [|done]. by rewrite HQs.
Qed.

(** The ports at the two ends of a call. *)
Lemma ports_follow call P1 P2 :
  call ∈ calls → ask_ports net ints exts call = Ok [P1; P2] → p_in P1 = true →
  (∀ l, p_end P1 ≠ AtLink l) → follow 3 (links g') (p_link P2) = Ok (p_end P1).
Proof.
  intros Hc Hq Hin Hne. pose proof (proj1 (Forall_forall _ _) Hbridge _ Hc) as Hb.
  unfold bridged in Hb. rewrite Hq, Hin in Hb.
  eapply carried_follow; [|exact Hb| |done].
  - intros x Hx. by eapply grows_consumers.
  - destruct Htrack as (Hcons & _ & Hout).
    destruct (Hout P1) as [i Hi]; [eapply asked_in; [exact Hc|exact Hq|by left]|].
    destruct (Hcons _ Hi) as [Hcs _]. unfold consumed, placed in Hcs. cbn in Hcs.
    by rewrite Hin in Hcs.
Qed.

Lemma ports_router call P1 P2 k :
  call ∈ calls → ask_ports net ints exts call = Ok [P1; P2] → p_end P2 = AtRouter k →
  ∃ y, tab g' k = Some y.
Proof.
  intros Hc Hq He. destruct Htrack as (_ & _ & Hout).
  destruct (Hout P2) as [i (l & Hl & _)].
  { eapply asked_in; [exact Hc|exact Hq|right; by left]. }
  unfold placed in Hl. cbn [p_end p_in] in Hl. rewrite He in Hl. cbn [ports_of] in Hl.
  apply fmap_Some in Hl as (ro & Hro & _). unfold tab. rewrite Hro. by eexists.
Qed.

(** The other end of a link from router [k] to node [j]. *)
Definition end_of (j : Z) (ep : endpoint) : Prop :=
  (j < 2 * n ∧ ∃ l, Network.getLocalNodeID net (j - n) = Ok l ∧ ep = AtInterface l) ∨
  (2 * n ≤ j ∧ ep = AtRouter (j - 2 * n)).

  Variables (w d : Matrix) (L : Z → Z → LinkEntry → Prop).
  Hypothesis Hcalls : calls_for top w d L calls.

(** The output port a call makes. *)
Lemma call_port i j e call :
  call ∈ calls → call_for top w d i j e call → n ≤ i →
  ∃ x ep, out_of ints exts (i - 2 * n) call = Some x ∧
    oe_entry x = entry_of_call call ∧ oe_weight x = BasicLink.m_weight (link e) ∧
    (∃ y, tab g' (i - 2 * n) = Some y) ∧
    follow 3 (links g') (oe_links x).1 = Ok ep ∧ end_of j ep.
Proof.
  intros Hc (route & E & _) Hi.
  pose proof (proj1 (Forall_forall _ _) Hbridge _ Hc) as Hb. unfold bridged in Hb.
  destruct (ask_ports net ints exts call) as [Qs|] eqn:Hq; [|done]. clear Hb.
  pose proof Hq as Hask. unfold link_call_of in E.
  rewrite (proj2 (Z.ltb_ge _ _)) in E by done.
  destruct (Z.ltb_spec j (2 * n)) as [Hj|Hj]; subst call; cbn [ask_ports] in Hq.
  - step_bind Hq as gl Hgl. step_bind Hq as l Hl. step_bind Hq as [n1 b1] H1.
    step_bind Hq as [n2 b2] H2. injection Hq as <-.
    exists (mkOutEntry route (BasicLink.m_weight (link e)) (n2, b2)), (AtInterface l).
    cbn [out_of out_links entry_of_call oe_entry oe_weight oe_links fst].
    rewrite decide_True, Hgl by done. cbn [rbind]. rewrite H2. split_and!; try done.
    + by eapply ports_router.
    + by apply (ports_follow _ _ _ Hc Hask).
    + left. eauto.
  - step_bind Hq as gl Hgl. step_bind Hq as [n1 b1] H1.
    step_bind Hq as [n2 b2] H2. injection Hq as <-.
    exists (mkOutEntry route (BasicLink.m_weight (link e)) (n2, b2)), (AtRouter (j - 2 * n)).
    cbn [out_of out_links entry_of_call oe_entry oe_weight oe_links fst].
    rewrite decide_True, Hgl by done. cbn [rbind]. rewrite H2. split_and!; try done.
    + by eapply ports_router.
    + by apply (ports_follow _ _ _ Hc Hask).
    + by right.
Qed.

(** Every output port of router [k] was made by a call for a link of node [k + 2 n]. *)
Lemma out_of_call k call x :
  0 ≤ k → call ∈ calls → out_of ints exts k call = Some x →
  ∃ j e ep, e ∈ Topology.find (Topology.m_link_map top) (k + 2 * n, j) ∧
    call_for top w d (k + 2 * n) j e call ∧ oe_entry x = entry_of_call call ∧
    follow 3 (links g') (oe_links x).1 = Ok ep ∧ end_of j ep.
Proof.
  intros Hk Hc Hx. destruct Hcalls as [Hall _].
  destruct (Hall call Hc) as (i & j & e & He & Hf).
  assert (n ≤ i ∧ k = i - 2 * n) as [Hi ->].
  { pose proof Hf as (route & -> & _). unfold link_call_of in Hx.
    destruct (Z.ltb_spec i n); [done|]. split; [done|].
    destruct (j <? 2 * n); cbn [out_of] in Hx; by case_decide. }
  destruct (call_port i j e call Hc Hf Hi) as (x' & ep & Hx' & E1 & _ & _ & E2 & E3).
  rewrite Hx in Hx'. injection Hx' as <-.
  replace (i - 2 * n + 2 * n) with i by lia. by exists j, e, ep.
Qed.

  Variables (v : Z) (lat isw : Matrix) (ty num : Z).
  Hypothesis Htop : graph_wf top.
  Hypothesis Hn : n = MachineType_base_number MachineType_NUM.
  Hypothesis Hv : 0 ≤ v < vnets.
  Hypothesis Hm : Topology.initial_matrices top = Ok (w, lat, isw).
  Hypothesis (Hlw : link_weights nodes w v) (Hs : shortest nodes w d v).
  Hypothesis HL : ∀ i j e, 0 ≤ i < nodes → 0 ≤ j < nodes →
    e ∈ Topology.find (Topology.m_link_map top) (i, j) → real_on w v i j → L i j e.
  Hypothesis Htab : tables ints exts vnets g' calls.
  Hypothesis Hmach : machine ty num.
  Hypothesis Hfin : 0 ≤ dest_node ty num < nodes.

Lemma entry_of_call_for i j e call :
  call_for top w d i j e call →
  ∃ nd, zlookup (entry_of_call call) v = Some nd ∧
        entry_for w d (carries (link e) v) v i j nd.
Proof.
  intros (route & -> & _ & Hr).
  assert (entry_of_call (link_call_of top i j e route) = route) as ->; [|by apply Hr].
  unfold link_call_of. by destruct (i <? n), (j <? 2 * n).
Qed.

(** The rows of the table of router [k]. *)
Lemma table_row k ps u :
  tab g' k = Some (ps, u) → omap (out_of ints exts k) calls ≠ [] →
  let outs := omap (out_of ints exts k) calls in
  ps = oe_links <$> outs ∧ RoutingUnit.m_weight_table u = oe_weight <$> outs ∧
  ∃ row, zlookup (RoutingUnit.m_routing_table u) v = Some row ∧
         Forall2 (λ nd x, zlookup (oe_entry x) v = Some nd) row outs.
Proof.
  intros Hk Hne. destruct (Htab k ps u Hk) as (H1 & H2 & H3). split_and!; [done..|].
  destruct H3 as [[E _]|(_ & Hl & Hr)]; [by apply fmap_nil_inv in E|].
  destruct (zlookup_is_Some (RoutingUnit.m_routing_table u) v) as [row Hrow]; [lia|].
  exists row. split; [done|]. exact (proj1 (Forall2_fmap_r oe_entry _ _ _) (Hr v row Hrow)).
Qed.

Lemma elem_of_outs k x :
  x ∈ omap (out_of ints exts k) calls ↔ ∃ call, call ∈ calls ∧ out_of ints exts k call = Some x.
Proof. apply list_elem_of_omap. Qed.

(** Every row entry belongs to a link of the router. *)
Lemma row_entry k row o nd :
  0 ≤ k → Forall2 (λ nd x, zlookup (oe_entry x) v = Some nd) row
            (omap (out_of ints exts k) calls) →
  zlookup row o = Some nd →
  ∃ x j e ep, zlookup (omap (out_of ints exts k) calls) o = Some x ∧
    e ∈ Topology.find (Topology.m_link_map top) (k + 2 * n, j) ∧
    entry_for w d (carries (link e) v) v (k + 2 * n) j nd ∧
    follow 3 (links g') (oe_links x).1 = Ok ep ∧ end_of j ep.
Proof.
  intros Hk HF Ho. apply zlookup_Some in Ho as [Ho0 Ho].
  destruct (Forall2_lookup_l _ _ _ _ _ HF Ho) as (x & Hx & Hz).
  destruct (proj1 (elem_of_outs k x)) as (call & Hc & Hxc); [by eapply list_elem_of_lookup_2|].
  destruct (out_of_call k call x Hk Hc Hxc) as (j & e & ep & He & Hf & E1 & E2 & E3).
  exists x, j, e, ep. split_and!; [by apply zlookup_Some|done| |done..].
  destruct (entry_of_call_for _ _ _ _ Hf) as (nd' & Hz' & Hent).
  rewrite E1, Hz' in Hz. by injection Hz as ->.
Qed.

(** An entry for a link on a shortest path to the destination. *)
Lemma entry_to_destination k :
  0 ≤ k → 0 ≤ k + 2 * n < nodes → val d v (k + 2 * n) (dest_node ty num) < INFINITE_LATENCY →
  ∃ x nd y, x ∈ omap (out_of ints exts k) calls ∧ zlookup (oe_entry x) v = Some nd ∧
    NetDest.elem ty num nd ∧ oe_weight x ≤ INFINITE_ ∧ tab g' k = Some y.
Proof.
  intros Hk Hkn Hd. pose proof (gw_nodes top Htop) as Hn0.
  assert (dest_node ty num < 2 * n) as Hlt.
  { destruct Hmach as [Ht Hnum]. pose proof (global_range ty num Ht Hnum). unfold dest_node. lia. }
  destruct (shortest_next nodes w d v Hs Hlw (k + 2 * n) (dest_node ty num))
    as (j & Hj & [Hr1 Hr2] & Hon); [done|done|lia|done|].
  destruct (real_link_entry top Htop w lat isw v (k + 2 * n) j)
    as (e & He & Hcar & Hwt); [done..|lia|].
  assert (real_on w v (k + 2 * n) j) as Hreal by (split; lia).
  destruct Hcalls as [_ Hex]. destruct (Hex _ _ _ (HL _ _ _ Hkn Hj He Hreal)) as (call & Hc & Hf).
  destruct (call_port _ _ _ _ Hc Hf) as (x & ep & Hx & E1 & E2 & [y Hy] & _); [lia|].
  replace (k + 2 * n - 2 * n) with k in Hx, Hy by lia.
  destruct (entry_of_call_for _ _ _ _ Hf) as (nd & Hz & _ & Hent).
  exists x, nd, y. split_and!; [apply elem_of_outs; eauto|by rewrite E1| | |done].
  - by apply Hent.
  - rewrite E2, Hwt. unfold INFINITE_, INFINITE_LATENCY in *. lia.
Qed.

  Variables (route : RouteInfo) (ordered : bool).
  Hypothesis Hroute : vnet route = v.
  Hypothesis Hdest : NetDest.wf (net_dest route) ∧
    ∀ t m, NetDest.elem t m (net_dest route) ↔ t = ty ∧ m = num.
  Hypothesis Hord : isVNetOrdered c v = Ok ordered.
  Hypothesis Halg : m_routing_algorithm c ≠ 1 ∧ m_routing_algorithm c ≠ 2.

(** With the table algorithm every router looks its table up. *)
Lemma table_algorithm rnd my_id u inport dirn o :
  RoutingUnit.lookupRoutingTable c rnd u (vnet route) (net_dest route) = Ok o → 0 ≤ o →
  RoutingUnit.outportCompute c rnd my_id u route inport dirn = Ok (o, u).
Proof.
  intros Ho Hpos. unfold RoutingUnit.outportCompute. rewrite Ho. cbn [rbind].
  destruct (_ =? my_id); [done|]. destruct Halg as [H1 H2].
  rewrite (proj2 (Z.eqb_neq _ _) H1), (proj2 (Z.eqb_neq _ _) H2). cbn [rbind].
  by rewrite (proj2 (Z.eqb_neq o (-1))) by lia.
Qed.

(** The destination has one machine. *)
Lemma meets_destination nd :
  NetDest.wf nd →
  NetDest.intersectionIsNotEmpty (net_dest route) nd = Ok true ↔ NetDest.elem ty num nd.
Proof.
  intros Hndwf. destruct Hdest as [Hdwf Hdel].
  destruct (NetDest.intersectionIsNotEmpty_spec _ _ Hdwf Hndwf) as (b & -> & Hb).
  setoid_rewrite Hdel in Hb. split.
  - intros [= ->]. by destruct (proj1 Hb eq_refl) as (t & m & [-> ->] & ?).
  - intros Hin. f_equal. apply Hb. by exists ty, num.
Qed.

(** The router finds a link, and it leads to the destination. *)
Lemma lookup_finds k rnd :
  0 ≤ k → 0 ≤ k + 2 * n < nodes → val d v (k + 2 * n) (dest_node ty num) < INFINITE_LATENCY →
  0 ≤ rnd →
  let outs := omap (out_of ints exts k) calls in
  ∃ u row o nd, tab g' k = Some (oe_links <$> outs, u) ∧
    Forall2 (λ nd x, zlookup (oe_entry x) v = Some nd) row outs ∧
    RoutingUnit.lookupRoutingTable c rnd u v (net_dest route) = Ok o ∧
    zlookup row o = Some nd ∧ NetDest.elem ty num nd.
Proof.
  intros Hk Hkn Hd Hrnd outs.
  destruct (entry_to_destination k Hk Hkn Hd)
    as (x0 & nd0 & [ps u] & Hx0 & Hz0 & Hel0 & Hw0 & Ht).
  destruct (table_row k ps u Ht) as (-> & Hwt & row & Hrow & HF).
  { intros E. rewrite E in Hx0. by apply elem_of_nil in Hx0. }
  fold outs in Hwt, HF, Hx0, Ht.
  assert (Forall NetDest.wf row) as Hrwf.
  { apply Forall_zlookup_intro. intros i nd Hnd.
    by destruct (row_entry k row i nd Hk HF Hnd) as (? & ? & ? & ? & _ & _ & [? _] & _). }
  assert (RoutingUnit.row_wf (RoutingUnit.m_weight_table u) row) as Hwf.
  { split; [done|]. rewrite Hwt. unfold zlen.
    by rewrite length_fmap, (Forall2_length _ _ _ HF). }
  destruct (RoutingUnit.lookupRoutingTable_spec c rnd u v (net_dest route) row ordered)
    as [Hyes _]; [done|done|apply Hdest|done|done|].
  destruct Hyes as (o & Ho & (nd & Hnd & Hi) & _).
  - apply elem_of_zlookup in Hx0 as (i & Hi).
    apply zlookup_Some in Hi as [Hi0 Hi].
    destruct (Forall2_lookup_r _ _ _ _ _ HF Hi) as (nd & Hnd & Hz).
    rewrite Hz0 in Hz. injection Hz as <-. exists i, (oe_weight x0). split_and!; [| |done].
    + exists nd0. split; [by apply zlookup_Some|]. apply meets_destination; [|done].
      eapply Forall_lookup_1; [exact Hrwf|exact Hnd].
    + rewrite Hwt. apply zlookup_Some. by rewrite list_lookup_fmap, Hi.
  - apply meets_destination in Hi; [|by eapply Forall_zlookup]. by exists u, row, o, nd.
Qed.

(** The link found leads to a node from which the destination is nearer. *)
Lemma hop_spec x k :
  0 ≤ k → 0 ≤ k + 2 * n < nodes → val d v (k + 2 * n) (dest_node ty num) < INFINITE_LATENCY →
  0 ≤ ch_rand x →
  ∃ j ep, hop c g' x k route = Ok ep ∧ end_of j ep ∧ 0 ≤ j < nodes ∧ n ≤ j ∧
    0 < val w v (k + 2 * n) j ∧ on_shortest w d v (k + 2 * n) j (dest_node ty num).
Proof.
  intros Hk Hkn Hd Hrnd.
  destruct (lookup_finds k (ch_rand x) Hk Hkn Hd Hrnd)
    as (u & row & o & nd & Ht & HF & Ho & Hnd & Hel).
  destruct (row_entry k row o nd Hk HF Hnd)
    as (x1 & j & e & ep & Hx1 & He & [_ Hent] & Hfol & Hend).
  apply Hent in Hel as (_ & [Hr _] & _ & Hon). destruct (link_range top Htop _ _ _ He) as [_ Hj].
  destruct (gw_key top Htop _ _ _ (find_in _ _ _ He)) as (_ & Hnj & _).
  exists j, ep. split_and!; [|done|lia|lia|done|done|done].
  unfold hop. unfold tab in Ht. apply fmap_Some in Ht as (ro & Hro & E). injection E as E1 E2.
  rewrite (vget_intro _ _ _ Hro). cbn [rbind]. rewrite <- E2.
  rewrite (table_algorithm _ _ _ _ _ o); [|by rewrite Hroute|by apply zlookup_lt in Hnd as [? _]].
  cbn [rbind]. rewrite <- E1. apply zlookup_Some in Hx1 as [Ho0 Hx1].
  rewrite (vget_intro _ _ (oe_links x1)).
  - cbn [rbind]. by destruct (oe_links x1).
  - apply zlookup_Some. by rewrite list_lookup_fmap, Hx1.
Qed.

(** Hop by hop the packet comes to the interface of its destination. *)
Lemma walk_spec fuel : ∀ xs k,
  0 ≤ k → 0 ≤ k + 2 * n < nodes → val d v (k + 2 * n) (dest_node ty num) < INFINITE_LATENCY →
  val d v (k + 2 * n) (dest_node ty num) ≤ Z.of_nat fuel → (∀ m, 0 ≤ ch_rand (xs m)) →
  ∃ l, Network.getLocalNodeID net (MachineType_base_number ty + num) = Ok l ∧
       walk c g' xs fuel k route = Ok (Some l).
Proof.
  induction fuel as [|fuel IH]; intros xs k Hk Hkn Hd Hf Hxs;
    destruct (hop_spec (xs O) k Hk Hkn Hd (Hxs O))
      as (j & ep & Hhop & Hend & Hj & Hnj & Hpos & Hon); unfold on_shortest in Hon;
    pose proof (dist_nonneg nodes w d v Hs Hlw j _ Hj Hfin) as Hdj; [lia|].
  cbn [walk]. rewrite Hhop. cbn [rbind]. destruct Hend as [[Hlt (l & Hl & ->)]|[Hge ->]].
  - exists l. split; [|done]. rewrite <- Hl. f_equal.
    rewrite (queue_final top w d lat isw v Htop Hv Hm Hlw Hs j (dest_node ty num)) by lia.
    unfold dest_node. lia.
  - destruct (IH (λ m, xs (S m)) (j - 2 * n)) as (l & Hl & Hw); [lia|lia|..].
    + replace (j - 2 * n + 2 * n) with j by lia. lia.
    + replace (j - 2 * n + 2 * n) with j by lia. lia.
    + intros m. apply Hxs.
    + by exists l.
Qed.

End delivery.

(** ** The whole construction *)

Section built.
  Context `{MachineTypeLaws}.
  Variable c : NetConfig.

Lemma calls_entries top w d L calls :
  calls_for top w d L calls →
  Forall (λ call, zlen (entry_of_call call) = Topology.m_vnets top) calls.
Proof.
  intros [Hc _]. apply Forall_forall. intros call Hin.
  destruct (Hc call Hin) as (i & j & e & _ & route & -> & <- & _). f_equal.
  unfold link_call_of. by destruct (i <? Topology.m_nodes top), (j <? 2 * Topology.m_nodes top).
Qed.

(** C7: the network that is built from a topology delivers.  When [Topology]'s constructor
    accepts links between existing controllers and routers, all of positive weight, and the
    calls of [createLinks] are answered over distinct links, then from every router from
    which links that carry the virtual network lead to a controller, with a total weight [W]
    below [INFINITE_LATENCY], a packet for that controller, following the output ports that
    the routers compute from their tables and the links and bridges attached to these
    ports, comes to the controller's interface within [W] hops, whatever [rand()] returns
    and whichever input port it is taken from. *)
Theorem built_network_delivers nodes routers vnets ext_links int_links top calls net ints exts
    g g' route ordered ty num k W xs :
  Topology.make nodes routers vnets ext_links int_links = Ok top →
  0 < vnets → Forall ext_ok ext_links → Forall int_ok int_links →
  Topology.createLinks top = Ok calls →
  just_created g → NoDup (consumed <$> call_ports net ints exts calls) →
  NoDup (sourced <$> call_ports net ints exts calls) →
  Forall (λ call, bridged net ints exts (links g) (consumed <$> call_ports net ints exts calls)
                    call = true) calls →
  answer_all c net ints exts g calls = Ok g' →
  0 ≤ vnet route < vnets → isVNetOrdered c (vnet route) = Ok ordered →
  m_routing_algorithm c ≠ 1 ∧ m_routing_algorithm c ≠ 2 →
  machine ty num → NetDest.wf (net_dest route) →
  (∀ t m, NetDest.elem t m (net_dest route) ↔ t = ty ∧ m = num) →
  0 ≤ k → route_weight top (vnet route) (k + 2 * Topology.m_nodes top) (dest_node ty num) W →
  W < INFINITE_LATENCY → (∀ m, 0 ≤ ch_rand (xs m)) →
  ∃ l, Network.getLocalNodeID net (MachineType_base_number ty + num) = Ok l ∧
       walk c g' xs (Z.to_nat W) k route = Ok (Some l).
Proof.
  intros Hmake Hv He Hi Hcalls Hg HX HY Hb Ha Hvr Hord Halg Hma Hdwf Hdel Hk Hpath HW Hxs.
  destruct (make_graph_wf nodes routers vnets ext_links int_links top) as (Htop & Ev & En); [lia|done..|].
  rewrite <- Ev in Hv, Hvr. pose proof (global_range ty num (proj1 Hma) (proj2 Hma)) as Hglob.
  assert (0 ≤ k + 2 * Topology.m_nodes top < num_switches top) as Hkn.
  { inversion Hpath as [i E1 E2|i j f e W' Hl]; subst.
    - unfold dest_node in *. lia.
    - by apply (link_range top Htop) in Hl as [? _]. }
  assert (∀ t m, machine t m → 0 ≤ dest_node t m < num_switches top) as Hnodes.
  { intros t m [Ht Hm]. pose proof (global_range t m Ht Hm). unfold dest_node. lia. }
  destruct (createLinks_spec top calls Htop Hv Hcalls Hnodes)
    as (w & lat & isw & d & Hm & _ & Hlw & Hs & Hfor).
  destruct (route_weight_dist top w d lat isw _ Htop Hvr Hm (Hlw _ Hvr) (Hs _ Hvr) _ _ _
    (Hnodes _ _ Hma) Hpath) as [_ Hd].
  pose proof (dist_nonneg _ _ _ _ (Hs _ Hvr) (Hlw _ Hvr) _ _ Hkn (Hnodes _ _ Hma)) as Hd0.
  pose proof (answer_all_tables c net ints exts _ g [] calls g' Hv (calls_entries _ _ _ _ _ Hfor)
    (created_tables _ _ _ _ Hg) Ha) as Htab.
  pose proof (answer_all_tracked c _ _ _ _ _ _ (just_created_no_ports _ Hg) HX HY Ha) as Htr.
  apply answer_all_grows in Ha.
  eapply (walk_spec c net ints exts top calls g g' Ha Htr Hb w d _ Hfor (vnet route) lat isw
    ty num); [done|done|done|done|by apply Hlw|by apply Hs| |done|done|by apply Hnodes
    |reflexivity|done|exact Hord|done|done|done|lia|lia|done].
  intros i j e Hi' Hj' Hl Hr. split_and!; [lia..|done|]. by exists (vnet route).
Qed.

End built.

(** ** Two routers, from the topology to the delivery

    Controllers 0 and 1 of type 0 at routers 0 and 1.  The link from router 1 to router 0
    has bridges at its receiving end. *)

Module DeliveryExample.
Import ExampleMachines TwoRouters BuiltExample.
#[local] Existing Instance machines.
#[local] Existing Instance machines_laws.

Definition ext_links : list ExtLink :=
  [mkExtLink (basic 0) 0 0 0; mkExtLink (basic 1) 0 1 1].

Definition int_links : list IntLink :=
  [mkIntLink (basic 2) 0 1 "East" "West"; mkIntLink (basic 3) 1 0 "West" "East"].

Definition top : Topology.t :=
  match Topology.make 4 2 1 ext_links int_links with
  | Ok g => g
  | Err _ => Topology.mk 0 0 0 [] [] []
  end.

Definition links_made : list link_call :=
  match Topology.createLinks top with Ok cs => cs | Err _ => [] end.

(** The configuration of the two routers, with the table algorithm. *)
Definition table_config : NetConfig := mkNetConfig 1 2 0 4 4 [DATA_VNET_] [false].

Definition packet : RouteInfo := mkRoute 0 (dest 0 0) 1 1 0 0 0 false 0 0 0.

Lemma top_made : Topology.make 4 2 1 ext_links int_links = Ok top.
Proof. vm_compute. reflexivity. Qed.

Lemma links_made_ok : Topology.createLinks top = Ok links_made.
Proof. vm_compute. reflexivity. Qed.

Definition delivered : t :=
  match answer_all table_config network ints exts before links_made with
  | Ok g => g
  | Err _ => before
  end.

Lemma delivered_ok : answer_all table_config network ints exts before links_made = Ok delivered.
Proof. vm_compute. reflexivity. Qed.

Lemma dest_elem t m : NetDest.elem t m (dest 0 0) ↔ t = 0 ∧ m = 0.
Proof.
  split.
  - intros (s & [Ht Hs]%zlookup_Some & Hb). unfold RubySet.elem in Hb.
    destruct (Z.to_nat t) as [|[|]] eqn:E; cbn in Hs; try done; injection Hs as <-; cbn in Hb.
    + split; [lia|]. destruct m as [|m|m]; [done|by destruct m|done].
    + by rewrite Z.bits_0 in Hb.
  - intros [-> ->]. by eexists.
Qed.

(** From router 1 over the bridged link to router 0, and out to interface 0. *)
Lemma packet_path :
  route_weight top (vnet packet) (1 + 2 * Topology.m_nodes top) (dest_node 0 0) 2.
Proof.
  change (vnet packet) with 0. replace (dest_node 0 0) with 4 by done.
  replace (1 + 2 * Topology.m_nodes top) with 9 by (vm_compute; reflexivity).
  apply (rw_link top 0 9 8 4 (mkLinkEntry (basic 3) "West" "East") 1); [|by left|].
  { assert (Topology.find (Topology.m_link_map top) (9, 8) =
            [mkLinkEntry (basic 3) "West" "East"]) as -> by (vm_compute; reflexivity). by left. }
  apply (rw_link top 0 8 4 4 (mkLinkEntry (basic 0) "" "") 0); [|by left|].
  { assert (Topology.find (Topology.m_link_map top) (8, 4) = [mkLinkEntry (basic 0) "" ""])
      as -> by (vm_compute; reflexivity). by left. }
  apply rw_here.
Qed.

Lemma all_bridged :
  Forall (λ call, bridged network ints exts (links before)
            (consumed <$> call_ports network ints exts links_made) call = true) links_made.
Proof. apply (bool_decide_unpack _). vm_compute. exact I. Qed.

Lemma consumed_distinct : NoDup (consumed <$> call_ports network ints exts links_made).
Proof. apply (bool_decide_unpack _). vm_compute. exact I. Qed.

Lemma sourced_distinct : NoDup (sourced <$> call_ports network ints exts links_made).
Proof. apply (bool_decide_unpack _). vm_compute. exact I. Qed.

Lemma ext_links_ok : Forall ext_ok ext_links.
Proof. apply Forall_cons_2; [|apply Forall_cons_2; [|done]]; (split_and!; cbn; lia). Qed.

Lemma int_links_ok : Forall int_ok int_links.
Proof. apply Forall_cons_2; [|apply Forall_cons_2; [|done]]; (split_and!; cbn; lia). Qed.

Lemma built_network_delivers_witness :
  walk table_config delivered (λ _, mkChoice 7 0 "Local") 2 1 packet = Ok (Some 0).
Proof.
  destruct (built_network_delivers table_config 4 2 1 ext_links int_links top links_made network
    ints exts before delivered packet false 0 0 1 2 (λ _, mkChoice 7 0 "Local") top_made)
    as (l & Hl & Hw);
    [lia|exact ext_links_ok|exact int_links_ok|exact links_made_ok|exact before_created
    |exact consumed_distinct|exact sourced_distinct|exact all_bridged|exact delivered_ok
    |cbn; lia|reflexivity|split; discriminate|split; cbn; lia|apply RoutingExample.dest_wf; lia
    |exact dest_elem|lia|exact packet_path|reflexivity|intros m; cbn; lia|].
  vm_compute in Hl. injection Hl as <-. exact Hw.
Defined.

End DeliveryExample.
