(* ===== verification/Wormhole.v ===== *)
(** * The virtual-channel protocol

    Wormhole switching, abstractly: a node holds, for each virtual channel of each input
    port, the kinds of the flits buffered there and the output channel the packet has been
    given; for each virtual channel of each output port, whether it is free or taken; and
    the flits and the freeing credits on their way.  The transitions are what a router does
    to these views ([Pipeline]); the invariant is the discipline the code relies on: at any
    time a channel holds a piece of one packet, head first and tail last, and is given to
    the next packet after the tail has left its buffer.  [WormholeRouter] shows that the
    routers implement the transitions. *)

From S2P Require Import Prelude.
From S2P Require Import Flit.
From S2P Require Import CreditProtocol.

(** ** Packets *)

(** How much of a packet has been read. *)
Inductive phase := Fresh | Middle | Complete.

#[export] Instance phase_eq_dec : EqDecision phase.
Proof. solve_decision. Defined.

Definition read_flit (p : phase) (ty : flit_type) : option phase :=
  match p, ty with
  | Fresh, HEAD_ | Middle, BODY_ => Some Middle
  | Fresh, HEAD_TAIL_ | Middle, TAIL_ => Some Complete
  | _, _ => None
  end.

Fixpoint read (p : phase) (l : list flit_type) : option phase :=
  match l with [] => Some p | ty :: l' => read_flit p ty ≫= λ q, read q l' end.

Lemma read_app p l l' : read p (l ++ l') = read p l ≫= λ q, read q l'.
Proof.
  revert p. induction l as [|ty l IH]; intros p; cbn; [done|].
  destruct (read_flit p ty); cbn; [apply IH|done].
Qed.

Lemma read_flit_fresh p ty : read_flit p ty ≠ Some Fresh.
Proof. by destruct p, ty. Qed.

Lemma read_fresh p l : read p l = Some Fresh → p = Fresh ∧ l = [].
Proof.
  revert p. induction l as [|ty l IH]; intros p; cbn; [by intros [= ->]|].
  intros (q & Hq & [-> ->]%IH)%bind_Some. by apply read_flit_fresh in Hq.
Qed.

Lemma read_complete l p : read Complete l = Some p → l = [] ∧ p = Complete.
Proof. destruct l as [|ty l]; cbn; [by intros [= <-]|]. by destruct ty. Qed.

(** ** Views of a node *)

Record vc_view := mkVcView {
  vv_state : VC_state_type;
  vv_outport : Z;
  vv_outvc : Z;
  vv_flits : list flit_type;
}.

(** Input channels, the flits on the links into them and the freeing credits queued for
    the way back; output channels, the flits waiting for the links, the flits in the
    switch (by input port, output port and output channel) and the freeing credits that
    have come back. *)
Record node_view := mkNodeView {
  nv_in : Z → Z → vc_view;
  nv_link : Z → Z → list flit_type;
  nv_free : Z → Z → nat;
  nv_out : Z → Z → VC_state_type;
  nv_queue : Z → Z → list flit_type;
  nv_switch : Z → Z → Z → list flit_type;
  nv_credit : Z → Z → nat;
}.

Definition same1 {A} (f f' : Z → A) : Prop := ∀ x, f' x = f x.
Definition same2 {A} (f f' : Z → Z → A) : Prop := ∀ x y, f' x y = f x y.
Definition same3 {A} (f f' : Z → Z → Z → A) : Prop := ∀ x y z, f' x y z = f x y z.

Definition upd2 {A} (f f' : Z → Z → A) (x y : Z) (a : A) : Prop :=
  ∀ x' y', f' x' y' = if decide ((x', y') = (x, y)) then a else f x' y'.
Definition upd3 {A} (f f' : Z → Z → Z → A) (x y z : Z) (a : A) : Prop :=
  ∀ x' y' z', f' x' y' z' = if decide ((x', y', z') = (x, y, z)) then a else f x' y' z'.

(** ** What a router does, and an interface

    A router takes flits from its links, frees output channels, grants flits and moves them
    to the queues of the links.  An interface takes flits and frees output channels
    likewise, sends packets of one flit, and ejects such packets. *)

Inductive node_step (N N' : node_view) : Prop :=
| step_stay :
    same2 (nv_in N) (nv_in N') → same2 (nv_link N) (nv_link N') →
    same2 (nv_free N) (nv_free N') → same2 (nv_out N) (nv_out N') →
    same2 (nv_queue N) (nv_queue N') → same3 (nv_switch N) (nv_switch N') →
    same2 (nv_credit N) (nv_credit N') → node_step N N'
| step_arrive i v ty outport rest :
    nv_link N i v = ty :: rest →
    vv_state (nv_in N i v) = (if is_head ty then IDLE_ else ACTIVE_) →
    upd2 (nv_link N) (nv_link N') i v rest →
    upd2 (nv_in N) (nv_in N') i v
      (mkVcView ACTIVE_ (if is_head ty then outport else vv_outport (nv_in N i v))
         (vv_outvc (nv_in N i v)) (vv_flits (nv_in N i v) ++ [ty])) →
    same2 (nv_free N) (nv_free N') → same2 (nv_out N) (nv_out N') →
    same2 (nv_queue N) (nv_queue N') → same3 (nv_switch N) (nv_switch N') →
    same2 (nv_credit N) (nv_credit N') → node_step N N'
| step_free o w c :
    nv_credit N o w = S c → upd2 (nv_credit N) (nv_credit N') o w c →
    upd2 (nv_out N) (nv_out N') o w IDLE_ →
    same2 (nv_in N) (nv_in N') → same2 (nv_link N) (nv_link N') →
    same2 (nv_free N) (nv_free N') → same2 (nv_queue N) (nv_queue N') →
    same3 (nv_switch N) (nv_switch N') → node_step N N'
| step_grant i v o outvc w ty rest :
    nv_in N i v = mkVcView ACTIVE_ o outvc (ty :: rest) → w ≠ -1 →
    (outvc = w ∨ outvc = -1 ∧ nv_out N o w = IDLE_) →
    upd2 (nv_in N) (nv_in N') i v
      (if is_tail ty then mkVcView IDLE_ (-1) (-1) rest else mkVcView ACTIVE_ o w rest) →
    upd2 (nv_free N) (nv_free N') i v
      (nv_free N i v + if is_tail ty then 1 else 0)%nat →
    upd2 (nv_out N) (nv_out N') o w (if decide (outvc = -1) then ACTIVE_ else nv_out N o w) →
    upd3 (nv_switch N) (nv_switch N') i o w (nv_switch N i o w ++ [ty]) →
    same2 (nv_link N) (nv_link N') → same2 (nv_queue N) (nv_queue N') →
    same2 (nv_credit N) (nv_credit N') → node_step N N'
| step_traverse i o w ty rest :
    nv_switch N i o w = ty :: rest → upd3 (nv_switch N) (nv_switch N') i o w rest →
    upd2 (nv_queue N) (nv_queue N') o w (nv_queue N o w ++ [ty]) →
    same2 (nv_in N) (nv_in N') → same2 (nv_link N) (nv_link N') →
    same2 (nv_free N) (nv_free N') → same2 (nv_out N) (nv_out N') →
    same2 (nv_credit N) (nv_credit N') → node_step N N'
| step_send i o w :
    nv_out N o w = IDLE_ → upd2 (nv_out N) (nv_out N') o w ACTIVE_ →
    upd3 (nv_switch N) (nv_switch N') i o w (nv_switch N i o w ++ [HEAD_TAIL_]) →
    same2 (nv_in N) (nv_in N') → same2 (nv_link N) (nv_link N') →
    same2 (nv_free N) (nv_free N') → same2 (nv_queue N) (nv_queue N') →
    same2 (nv_credit N) (nv_credit N') → node_step N N'
| step_eject i v o rest :
    nv_in N i v = mkVcView ACTIVE_ o (-1) (HEAD_TAIL_ :: rest) →
    upd2 (nv_in N) (nv_in N') i v (mkVcView IDLE_ (-1) (-1) rest) →
    upd2 (nv_free N) (nv_free N') i v (S (nv_free N i v)) →
    same2 (nv_link N) (nv_link N') → same2 (nv_out N) (nv_out N') →
    same2 (nv_queue N) (nv_queue N') → same3 (nv_switch N) (nv_switch N') →
    same2 (nv_credit N) (nv_credit N') → node_step N N'.

(** ** The two ends of a channel *)

(** An output channel is held by the input channel whose packet it was given to. *)
Definition holds (N : node_view) (o w i v : Z) : Prop :=
  vv_state (nv_in N i v) = ACTIVE_ ∧ vv_outport (nv_in N i v) = o ∧
  vv_outvc (nv_in N i v) = w ∧ w ≠ -1.

Definition held (N : node_view) (o w : Z) : Prop := ∃ i v, holds N o w i v.

(** The flits in the switch for an output channel come from one input port, that of the
    holder if there is one. *)
Definition sole (N : node_view) (o w i0 : Z) : Prop :=
  (∀ i, i ≠ i0 → nv_switch N i o w = []) ∧ (∀ i v, holds N o w i v → i = i0).

(** The receiving end: how much of the packet has already left its buffer, and the flits
    that have not; the sending end: the flits sent but not yet on the link. *)
Record receiver := mkReceiver {
  rc_phase : phase;
  rc_flits : list flit_type;
  rc_free : nat;
}.

Record sender := mkSender {
  sd_state : VC_state_type;
  sd_held : Prop;
  sd_flits : list flit_type;
  sd_free : nat;
}.

Definition phase_of (x : vc_view) : phase :=
  if decide (vv_state x = ACTIVE_ ∧ vv_outvc x ≠ -1) then Middle else Fresh.

Definition receiver_of (N : node_view) (i v : Z) : receiver :=
  mkReceiver (phase_of (nv_in N i v)) (vv_flits (nv_in N i v) ++ nv_link N i v)
    (nv_free N i v).

Definition sender_of (N : node_view) (o w i0 : Z) : sender :=
  mkSender (nv_out N o w) (held N o w) (nv_queue N o w ++ nv_switch N i0 o w)
    (nv_credit N o w).

(** The flits of a channel are a piece of one packet.  A free channel has none of them and
    no freeing credit; a taken channel is held until the tail has been sent, and is freed
    by one credit after the tail has left the receiver's buffer. *)
Definition chan_ok (R : receiver) (S : sender) : Prop :=
  ∃ p, read (rc_phase R) (rc_flits R ++ sd_flits S) = Some p ∧
  let free := (rc_free R + sd_free S)%nat in
  match sd_state S with
  | IDLE_ => p = Fresh ∧ free = 0%nat ∧ ¬ sd_held S
  | ACTIVE_ => (sd_held S ∧ p = Middle ∧ free = 0%nat) ∨
               (¬ sd_held S ∧ p = Complete ∧ free = 0%nat) ∨
               (¬ sd_held S ∧ p = Fresh ∧ free = 1%nat)
  | VC_AB_ => False
  end.

(** An input channel: a free one is empty, one whose packet has no output channel yet
    holds the packet's head. *)
Definition vc_ok (x : vc_view) : Prop :=
  match vv_state x with
  | IDLE_ => vv_flits x = [] ∧ vv_outvc x = -1
  | ACTIVE_ => vv_outvc x = -1 → vv_flits x ≠ []
  | VC_AB_ => False
  end.

Definition node_ok (N : node_view) : Prop :=
  (∀ i v, vc_ok (nv_in N i v)) ∧
  (∀ o w i v i' v', holds N o w i v → holds N o w i' v' → i = i' ∧ v = v').

(** Every input channel obeys the protocol towards some sender, every output channel
    towards some receiver. *)
Definition in_ok (N : node_view) (i v : Z) : Prop := ∃ S, chan_ok (receiver_of N i v) S.
Definition out_ok (N : node_view) (o w : Z) : Prop :=
  ∃ R i0, sole N o w i0 ∧ chan_ok R (sender_of N o w i0).

(** ** Steps of a node keep the protocol *)

(** A receiver that behaves as well as another, towards every sender. *)
Definition receiver_sim (R R' : receiver) : Prop := ∀ S, chan_ok R S → chan_ok R' S.
Definition sender_sim (S S' : sender) : Prop := ∀ R, chan_ok R S → chan_ok R S'.

(** What a step of a node promises to the other ends of its channels. *)
Definition node_keeps_protocol (N N' : node_view) : Prop :=
  node_ok N' ∧
  (∀ i v, receiver_sim (receiver_of N i v) (receiver_of N' i v)) ∧
  (∀ o w i0, sole N o w i0 →
     ∃ i1, sole N' o w i1 ∧ sender_sim (sender_of N o w i0) (sender_of N' o w i1)).

Lemma chan_ok_sender R S S' :
  sd_state S' = sd_state S → (sd_held S' ↔ sd_held S) → sd_flits S' = sd_flits S →
  sd_free S' = sd_free S → chan_ok R S → chan_ok R S'.
Proof.
  intros E1 E2 E3 E4 (p & Hp & Hc). exists p. rewrite E1, E3, E4. split; [done|].
  revert Hc. cbn zeta. destruct (sd_state S); [|done|]; rewrite ?E2; done.
Qed.

Lemma holds_same N N' o w i v : nv_in N' i v = nv_in N i v → holds N' o w i v ↔ holds N o w i v.
Proof. unfold holds. by intros ->. Qed.

Lemma held_same N N' o w : same2 (nv_in N) (nv_in N') → held N' o w ↔ held N o w.
Proof.
  intros Hs. unfold held. split; intros (i & v & Hh); exists i, v;
    by apply (holds_same N N' o w i v (Hs i v)).
Qed.

(** The sending end when neither switch nor holders change. *)
Lemma sender_same N N' o w i0 :
  sole N o w i0 → (∀ i, nv_switch N' i o w = nv_switch N i o w) →
  (∀ i v, holds N' o w i v ↔ holds N o w i v) → nv_out N' o w = nv_out N o w →
  nv_queue N' o w = nv_queue N o w → nv_credit N' o w = nv_credit N o w →
  ∃ i1, sole N' o w i1 ∧ sender_sim (sender_of N o w i0) (sender_of N' o w i1).
Proof.
  intros [S1 S2] Hsw Hh Ho Hq Hc. exists i0. split.
  - split; [intros i Hi; rewrite Hsw; by apply S1|]. intros i v Hv%Hh. by eapply S2.
  - intros R. apply chan_ok_sender; cbn; [done| |by rewrite Hq, Hsw|done].
    unfold held. by setoid_rewrite Hh.
Qed.

Lemma receiver_same N N' i v :
  nv_in N' i v = nv_in N i v → nv_link N' i v = nv_link N i v → nv_free N' i v = nv_free N i v →
  receiver_sim (receiver_of N i v) (receiver_of N' i v).
Proof. intros E1 E2 E3. unfold receiver_of. rewrite E1, E2, E3. by intros S. Qed.

Lemma node_ok_same N N' : same2 (nv_in N) (nv_in N') → node_ok N → node_ok N'.
Proof.
  intros Hs [H1 H2]. split; [intros i v; rewrite Hs; apply H1|].
  intros o w i v i' v' Ha Hb. apply (H2 o w); by apply (holds_same N N').
Qed.

Ltac pair_cases :=
  repeat match goal with
  | |- context [decide ((?a, ?b) = (?c, ?d))] =>
      let E := fresh "E" in destruct (decide ((a, b) = (c, d))) as [E|E];
      [injection E as ? ?; subst|]
  end.

Lemma stay_keeps N N' :
  same2 (nv_in N) (nv_in N') → same2 (nv_link N) (nv_link N') →
  same2 (nv_free N) (nv_free N') → same2 (nv_out N) (nv_out N') →
  same2 (nv_queue N) (nv_queue N') → same3 (nv_switch N) (nv_switch N') →
  same2 (nv_credit N) (nv_credit N') → node_ok N → node_keeps_protocol N N'.
Proof.
  intros H1 H2 H3 H4 H5 H6 H7 Hok. split; [by eapply node_ok_same|]. split.
  - intros i v. by apply receiver_same.
  - intros o w i0 Hs. apply sender_same; try done. intros i v. by apply holds_same.
Qed.

Lemma arrive_keeps N N' i v ty outport rest :
  nv_link N i v = ty :: rest →
  vv_state (nv_in N i v) = (if is_head ty then IDLE_ else ACTIVE_) →
  upd2 (nv_link N) (nv_link N') i v rest →
  upd2 (nv_in N) (nv_in N') i v
    (mkVcView ACTIVE_ (if is_head ty then outport else vv_outport (nv_in N i v))
       (vv_outvc (nv_in N i v)) (vv_flits (nv_in N i v) ++ [ty])) →
  same2 (nv_free N) (nv_free N') → same2 (nv_out N) (nv_out N') →
  same2 (nv_queue N) (nv_queue N') → same3 (nv_switch N) (nv_switch N') →
  same2 (nv_credit N) (nv_credit N') → node_ok N → node_keeps_protocol N N'.
Proof.
  intros Hl Hst Hul Hui H3 H4 H5 H6 H7 [Hvc Huniq].
  assert (∀ o w i' v', holds N' o w i' v' ↔ holds N o w i' v') as Hh.
  { intros o w i' v'. unfold holds. rewrite Hui. pair_cases; [|done]. cbn. rewrite Hst.
    specialize (Hvc i v). unfold vc_ok in Hvc. rewrite Hst in Hvc.
    destruct (is_head ty); [|done]. destruct Hvc as [_ ->]. naive_solver. }
  split_and!.
  - split.
    + intros i' v'. rewrite Hui. pair_cases; [|apply Hvc]. intros _. cbn.
      by destruct (vv_flits (nv_in N i v)).
    + intros o w i1 v1 i2 v2 Ha%Hh Hb%Hh. by eapply Huniq.
  - intros i' v'. destruct (decide ((i', v') = (i, v))) as [E|E].
    + injection E as -> ->. intros S. unfold receiver_of.
      rewrite (Hui i v), (Hul i v), !decide_True, H3 by done. cbn [vv_flits].
      rewrite Hl, <- app_assoc. cbn [app].
      assert (phase_of (mkVcView ACTIVE_ (if is_head ty then outport else vv_outport (nv_in N i v))
        (vv_outvc (nv_in N i v)) (vv_flits (nv_in N i v) ++ [ty])) = phase_of (nv_in N i v)) as ->;
        [|done].
      unfold phase_of. cbn. rewrite Hst. specialize (Hvc i v). unfold vc_ok in Hvc.
      rewrite Hst in Hvc. destruct (is_head ty); [|done]. destruct Hvc as [_ ->].
      rewrite !decide_False by naive_solver. done.
    + apply receiver_same; [by rewrite Hui, decide_False|by rewrite Hul, decide_False|apply H3].
  - intros o w i0 Hs. by apply sender_same.
Qed.

(** A freeing credit is only on its way when the channel is taken, not held, and empty. *)
Lemma free_keeps N N' o w c :
  nv_credit N o w = S c → upd2 (nv_credit N) (nv_credit N') o w c →
  upd2 (nv_out N) (nv_out N') o w IDLE_ →
  same2 (nv_in N) (nv_in N') → same2 (nv_link N) (nv_link N') →
  same2 (nv_free N) (nv_free N') → same2 (nv_queue N) (nv_queue N') →
  same3 (nv_switch N) (nv_switch N') → node_ok N → node_keeps_protocol N N'.
Proof.
  intros Hc Huc Huo H1 H2 H3 H4 H5 Hok. split; [by eapply node_ok_same|]. split.
  - intros i v. by apply receiver_same.
  - intros o' w' i0 Hs. destruct (decide ((o', w') = (o, w))) as [E|E].
    + injection E as -> ->. exists i0. split.
      { destruct Hs as [S1 S2]. split; [intros i Hi; rewrite H5; by apply S1|].
        intros i v Hv. apply (S2 i v). by apply (holds_same N N'). }
      intros R (p & Hp & Hcase). exists p. cbn in *.
      rewrite H4, H5, Huc, Huo, !decide_True by done. rewrite (held_same N N' o w H1).
      split; [done|]. rewrite Hc in Hcase.
      destruct (nv_out N o w); [lia|done|].
      destruct Hcase as [(_ & _ & ?)|[(_ & _ & ?)|(? & -> & ?)]]; [lia|lia|].
      split_and!; [done|lia|done].
    + apply sender_same; try done; [intros i v; by apply holds_same|by rewrite Huo, decide_False|].
      by rewrite Huc, decide_False.
Qed.

Lemma traverse_keeps N N' i o w ty rest :
  nv_switch N i o w = ty :: rest → upd3 (nv_switch N) (nv_switch N') i o w rest →
  upd2 (nv_queue N) (nv_queue N') o w (nv_queue N o w ++ [ty]) →
  same2 (nv_in N) (nv_in N') → same2 (nv_link N) (nv_link N') →
  same2 (nv_free N) (nv_free N') → same2 (nv_out N) (nv_out N') →
  same2 (nv_credit N) (nv_credit N') → node_ok N → node_keeps_protocol N N'.
Proof.
  intros Hsw Hus Huq H1 H2 H3 H4 H5 Hok. split; [by eapply node_ok_same|]. split.
  - intros i' v. by apply receiver_same.
  - intros o' w' i0 Hs. destruct (decide ((o', w') = (o, w))) as [E|E].
    + injection E as -> ->. destruct Hs as [S1 S2].
      assert (i = i0) as <-.
      { destruct (decide (i = i0)) as [|Hne]; [done|]. by rewrite (S1 i Hne) in Hsw. }
      exists i. split.
      { split; [|intros i' v Hv; apply (S2 i' v); by apply (holds_same N N')].
        intros i' Hi'. rewrite Hus, decide_False by naive_solver. by apply S1. }
      intros R. apply chan_ok_sender; cbn; [done|by apply held_same| |done].
      by rewrite Huq, Hus, !decide_True, Hsw, <- app_assoc by done.
    + apply sender_same; try done; [|intros i' v; by apply holds_same|].
      * intros i'. rewrite Hus, decide_False; [done|naive_solver].
      * by rewrite Huq, decide_False.
Qed.

(** ** A grant *)

(** Whether the flit sent continues the packet or starts it is determined by the output
    channel of its packet. *)
Lemma next_flit N i v o outvc ty rest :
  nv_in N i v = mkVcView ACTIVE_ o outvc (ty :: rest) → in_ok N i v →
  ∃ p, read_flit (if decide (outvc = -1) then Fresh else Middle) ty = Some p ∧
       (if is_tail ty then p = Complete ∧ rest = [] ∧ nv_link N i v = [] else p = Middle).
Proof.
  intros Hv (S & p & Hp & _). unfold receiver_of, phase_of in Hp. rewrite Hv in Hp. cbn in Hp.
  assert ((if decide (ACTIVE_ = ACTIVE_ ∧ outvc ≠ -1) then Middle else Fresh) =
          (if decide (outvc = -1) then Fresh else Middle)) as Eph
    by (repeat case_decide; naive_solver).
  rewrite Eph in Hp. apply bind_Some in Hp as (q & Hq & Hp). exists q. split; [done|].
  destruct (decide (outvc = -1)), ty; try done; cbn in Hq; injection Hq as <-; cbn; try done;
    apply read_complete in Hp as [[[-> ->]%app_eq_nil _]%app_eq_nil _]; done.
Qed.

Lemma grant_receiver N N' i v o outvc w ty rest :
  nv_in N i v = mkVcView ACTIVE_ o outvc (ty :: rest) → w ≠ -1 → in_ok N i v →
  upd2 (nv_in N) (nv_in N') i v
    (if is_tail ty then mkVcView IDLE_ (-1) (-1) rest else mkVcView ACTIVE_ o w rest) →
  upd2 (nv_free N) (nv_free N') i v (nv_free N i v + if is_tail ty then 1 else 0)%nat →
  same2 (nv_link N) (nv_link N') →
  receiver_sim (receiver_of N i v) (receiver_of N' i v).
Proof.
  intros Hv Hw Hin Hui Huf Hl S (p & Hp & Hc).
  destruct (next_flit _ _ _ _ _ _ _ Hv Hin) as (q & Hq & Hty).
  unfold receiver_of in *. rewrite Hui, Huf, Hl, !decide_True by done.
  unfold phase_of in *. rewrite Hv in Hp.
  cbn in Hp, Hc |- *.
  assert ((if decide (ACTIVE_ = ACTIVE_ ∧ outvc ≠ -1) then Middle else Fresh) =
          (if decide (outvc = -1) then Fresh else Middle)) as Eph
    by (repeat case_decide; naive_solver).
  rewrite Eph, Hq in Hp. cbn in Hp. unfold chan_ok. cbn.
  destruct (is_tail ty); cbn.
  - destruct Hty as (-> & -> & Hlk). rewrite Hlk in *. cbn in *.
    apply read_complete in Hp as [Hsd ->]. rewrite Hsd.
    exists Fresh. cbn. split; [done|]. destruct (sd_state S); [naive_solver|done|].
    right. right. destruct Hc as [(_ & ? & _)|[(? & _ & ?)|(_ & ? & _)]]; [done| |done].
    split_and!; [done|done|lia].
  - subst q. rewrite decide_True by done. exists p. rewrite Nat.add_0_r. done.
Qed.

Lemma grant_holds N N' i v o outvc w ty rest :
  nv_in N i v = mkVcView ACTIVE_ o outvc (ty :: rest) → w ≠ -1 → (outvc = w ∨ outvc = -1) →
  upd2 (nv_in N) (nv_in N') i v
    (if is_tail ty then mkVcView IDLE_ (-1) (-1) rest else mkVcView ACTIVE_ o w rest) →
  ∀ o' w' i' v', holds N' o' w' i' v' ↔
    if decide ((i', v') = (i, v)) then is_tail ty = false ∧ o' = o ∧ w' = w
    else holds N o' w' i' v'.
Proof.
  intros Hv Hw Hoc Hui o' w' i' v'. unfold holds. rewrite Hui. pair_cases; [|done].
  destruct (is_tail ty); cbn; naive_solver.
Qed.

(** The sending end of the granted channel. *)
Lemma grant_sender N N' i v o outvc w ty rest i0 :
  node_ok N → nv_in N i v = mkVcView ACTIVE_ o outvc (ty :: rest) → w ≠ -1 → in_ok N i v →
  (outvc = w ∨ outvc = -1 ∧ nv_out N o w = IDLE_) → out_ok N o w →
  upd2 (nv_in N) (nv_in N') i v
    (if is_tail ty then mkVcView IDLE_ (-1) (-1) rest else mkVcView ACTIVE_ o w rest) →
  upd2 (nv_out N) (nv_out N') o w (if decide (outvc = -1) then ACTIVE_ else nv_out N o w) →
  upd3 (nv_switch N) (nv_switch N') i o w (nv_switch N i o w ++ [ty]) →
  same2 (nv_queue N) (nv_queue N') → same2 (nv_credit N) (nv_credit N') → sole N o w i0 →
  sole N' o w i ∧ sender_sim (sender_of N o w i0) (sender_of N' o w i).
Proof.
  intros [_ Huniq] Hv Hw Hin Hoc Hout Hui Huo Hus Hq Hcr [S1 S2].
  destruct (next_flit _ _ _ _ _ _ _ Hv Hin) as (p & Hp & Hty).
  pose proof (grant_holds N N' i v o outvc w ty rest Hv Hw ltac:(naive_solver) Hui) as Hh.
  (* Before: either nobody holds the channel and it is empty, or this packet does. *)
  assert ((outvc = -1 ∧ nv_out N o w = IDLE_ ∧ ¬ held N o w ∧
             ∀ i, nv_switch N i o w = []) ∨ (outvc = w ∧ holds N o w i v ∧ i = i0)) as Hcase.
  { destruct Hoc as [->|[-> Hidle]].
    - right. assert (holds N o w i v) as Hhold by (unfold holds; by rewrite Hv).
      split_and!; [done|done|by apply (S2 i v)].
    - left. destruct Hout as (R & i1 & [T1 _] & p' & Hp' & Hc). cbn in Hc, Hp'.
      rewrite Hidle in Hc. destruct Hc as (-> & _ & Hnh).
      apply read_fresh in Hp' as [_ [_ [_ Hsw]%app_eq_nil]%app_eq_nil].
      split_and!; try done. intros j. destruct (decide (j = i1)) as [->|]; [done|by apply T1]. }
  assert (sole N' o w i) as Hsole.
  { split.
    - intros j Hj. rewrite Hus, decide_False by naive_solver.
      destruct Hcase as [(_ & _ & _ & ->)|(_ & _ & ->)]; [done|by apply S1].
    - intros j u Hj%Hh. revert Hj. pair_cases; [done|]. intros Hj.
      destruct Hcase as [(_ & _ & Hnh & _)|(_ & _ & ->)]; [|by apply (S2 j u)].
      destruct Hnh. by exists j, u. }
  split; [done|]. intros R (q & Hq' & Hc). cbn in Hq', Hc.
  assert (held N' o w ↔ is_tail ty = false) as Hheld.
  { split.
    - intros (j & u & Hj%Hh). revert Hj. pair_cases; [naive_solver|]. intros Hj.
      destruct Hcase as [(_ & _ & Hnh & _)|(_ & Hhold & _)].
      + destruct Hnh. by exists j, u.
      + destruct (Huniq _ _ _ _ _ _ Hj Hhold) as [-> ->]. done.
    - intros Ht. exists i, v. apply Hh. by rewrite decide_True. }
  unfold chan_ok. cbn. rewrite Hq, Hus, Huo, Hcr, !decide_True by done.
  rewrite !app_assoc, read_app. cbn.
  destruct Hcase as [(-> & Hidle & Hnh & Hsw)|(-> & Hhold & ->)].
  - rewrite decide_True in Hp by done. rewrite decide_True by done. rewrite Hidle in Hc.
    rewrite (Hsw i0), app_nil_r in Hq'. rewrite (Hsw i), app_nil_r.
    destruct Hc as (-> & Hf & _). exists p. split.
    { rewrite Hq'. change (read_flit Fresh ty ≫= Some = Some p). by rewrite Hp. }
    rewrite !Hheld. destruct (is_tail ty); [right; left; split_and!; naive_solver|].
    left. subst p. done.
  - rewrite decide_False in Hp by done. rewrite decide_False by done. rewrite app_assoc in Hq'.
    assert (held N o w) as Hhd by (by exists i0, v).
    destruct (nv_out N o w) eqn:Eo; [naive_solver|done|].
    destruct Hc as [(_ & -> & Hf)|[(? & _)|(? & _)]]; [|done..].
    exists p. split.
    { rewrite Hq'. change (read_flit Middle ty ≫= Some = Some p). by rewrite Hp. }
    rewrite !Hheld. destruct (is_tail ty); [right; left; split_and!; naive_solver|].
    left. subst p. done.
Qed.

Lemma grant_keeps_protocol N N' i v o outvc w ty rest :
  nv_in N i v = mkVcView ACTIVE_ o outvc (ty :: rest) → w ≠ -1 →
  (outvc = w ∨ outvc = -1 ∧ nv_out N o w = IDLE_) →
  upd2 (nv_in N) (nv_in N') i v
    (if is_tail ty then mkVcView IDLE_ (-1) (-1) rest else mkVcView ACTIVE_ o w rest) →
  upd2 (nv_free N) (nv_free N') i v (nv_free N i v + if is_tail ty then 1 else 0)%nat →
  upd2 (nv_out N) (nv_out N') o w (if decide (outvc = -1) then ACTIVE_ else nv_out N o w) →
  upd3 (nv_switch N) (nv_switch N') i o w (nv_switch N i o w ++ [ty]) →
  same2 (nv_link N) (nv_link N') → same2 (nv_queue N) (nv_queue N') →
  same2 (nv_credit N) (nv_credit N') → node_ok N → in_ok N i v → out_ok N o w →
  node_keeps_protocol N N'.
Proof.
  intros Hv Hw Hoc Hui Huf Huo Hus Hl Hq Hcr Hok Hin Hout.
  pose proof (grant_holds N N' i v o outvc w ty rest Hv Hw ltac:(naive_solver) Hui) as Hh.
  destruct (next_flit _ _ _ _ _ _ _ Hv Hin) as (p & Hp & Hty).
  split_and!.
  - split.
    + intros i' v'. rewrite Hui. pair_cases; [|apply Hok].
      destruct (is_tail ty); unfold vc_ok; cbn; naive_solver.
    + intros o' w' i1 v1 i2 v2 H1%Hh H2%Hh. revert H1 H2. pair_cases; try done.
      * intros (_ & -> & ->) H2. exfalso.
        (* another holder of the granted channel *)
        destruct Hoc as [->|[-> Hidle]].
        -- assert (holds N o w i v) as Hhold by (unfold holds; by rewrite Hv).
           destruct Hok as [_ Hun]. destruct (Hun _ _ _ _ _ _ Hhold H2) as [-> ->]. done.
        -- destruct Hout as (R & i0 & _ & q & _ & Hc). cbn in Hc. rewrite Hidle in Hc.
           destruct Hc as (_ & _ & []). by exists i2, v2.
      * intros H1 (_ & -> & ->). exfalso. destruct Hoc as [->|[-> Hidle]].
        -- assert (holds N o w i v) as Hhold by (unfold holds; by rewrite Hv).
           destruct Hok as [_ Hun]. destruct (Hun _ _ _ _ _ _ Hhold H1) as [-> ->]. done.
        -- destruct Hout as (R & i0 & _ & q & _ & Hc). cbn in Hc. rewrite Hidle in Hc.
           destruct Hc as (_ & _ & []). by exists i1, v1.
      * intros H1 H2. destruct Hok as [_ Hun]. by eapply Hun.
  - intros i' v'. destruct (decide ((i', v') = (i, v))) as [E|E].
    + injection E as -> ->. by eapply grant_receiver.
    + apply receiver_same; [by rewrite Hui, decide_False|apply Hl|by rewrite Huf, decide_False].
  - intros o' w' i0 Hs. destruct (decide ((o', w') = (o, w))) as [E|E].
    + injection E as -> ->. exists i. by eapply grant_sender.
    + apply sender_same; [done| | |by rewrite Huo, decide_False|apply Hq|apply Hcr].
      * intros j. rewrite Hus, decide_False by naive_solver. done.
      * intros j u. rewrite Hh. pair_cases; [|done]. unfold holds. rewrite Hv. cbn.
        destruct Hoc as [->|[-> _]]; naive_solver.
Qed.

(** ** An interface *)

(** What is idle has no flits of a packet, so a packet of one flit can follow. *)
Lemma send_keeps N N' i o w :
  nv_out N o w = IDLE_ → upd2 (nv_out N) (nv_out N') o w ACTIVE_ →
  upd3 (nv_switch N) (nv_switch N') i o w (nv_switch N i o w ++ [HEAD_TAIL_]) →
  same2 (nv_in N) (nv_in N') → same2 (nv_link N) (nv_link N') →
  same2 (nv_free N) (nv_free N') → same2 (nv_queue N) (nv_queue N') →
  same2 (nv_credit N) (nv_credit N') → node_ok N → out_ok N o w → node_keeps_protocol N N'.
Proof.
  intros Hid Huo Hus H1 H2 H3 H4 H5 Hok (R0 & i1 & [T1 T2] & p0 & Hp0 & Hc0).
  cbn in Hp0, Hc0. rewrite Hid in Hc0. destruct Hc0 as (-> & _ & Hnh).
  apply read_fresh in Hp0 as [_ [_ [_ Hsw1]%app_eq_nil]%app_eq_nil].
  assert (∀ j, nv_switch N j o w = []) as Hsw.
  { intros j. destruct (decide (j = i1)) as [->|]; [done|by apply T1]. }
  split; [by eapply node_ok_same|]. split.
  - intros i' v. by apply receiver_same.
  - intros o' w' i0 Hs. destruct (decide ((o', w') = (o, w))) as [E|E].
    + injection E as -> ->. exists i. split.
      { split; [intros j Hj; by rewrite Hus, decide_False by naive_solver|].
        intros j u Hj. exfalso. apply Hnh. exists j, u. by apply (holds_same N N'). }
      intros R (p & Hp & Hc). cbn in Hp, Hc. rewrite Hid in Hc. destruct Hc as (-> & Hf & _).
      apply read_fresh in Hp as [Hph [Hrf [Hq _]%app_eq_nil]%app_eq_nil].
      exists Complete. cbn. rewrite Huo, Hus, H4, H5, !decide_True, Hph, Hrf, Hq, (Hsw i) by done.
      split; [done|]. right. left. by rewrite (held_same N N' o w H1).
    + apply sender_same; [done| | |by rewrite Huo, decide_False|apply H4|apply H5].
      * intros j. by rewrite Hus, decide_False by naive_solver.
      * intros j u. by apply holds_same.
Qed.

Lemma eject_keeps N N' i v o rest :
  nv_in N i v = mkVcView ACTIVE_ o (-1) (HEAD_TAIL_ :: rest) →
  upd2 (nv_in N) (nv_in N') i v (mkVcView IDLE_ (-1) (-1) rest) →
  upd2 (nv_free N) (nv_free N') i v (S (nv_free N i v)) →
  same2 (nv_link N) (nv_link N') → same2 (nv_out N) (nv_out N') →
  same2 (nv_queue N) (nv_queue N') → same3 (nv_switch N) (nv_switch N') →
  same2 (nv_credit N) (nv_credit N') → node_ok N → in_ok N i v → node_keeps_protocol N N'.
Proof.
  intros Hv Hui Huf Hl H2 H3 H4 H5 [Hvc Huniq] Hin.
  assert (∀ o' w' i' v', holds N' o' w' i' v' ↔ holds N o' w' i' v') as Hh.
  { intros o' w' i' v'. unfold holds. rewrite Hui. pair_cases; [|done]. rewrite Hv. naive_solver. }
  split_and!.
  - split.
    + intros i' v'. rewrite Hui. pair_cases; [|apply Hvc].
      destruct (next_flit _ _ _ _ _ _ _ Hv Hin) as (p & _ & _ & -> & _). done.
    + intros o' w' i1 v1 i2 v2 Ha%Hh Hb%Hh. by eapply Huniq.
  - intros i' v'. destruct (decide ((i', v') = (i, v))) as [E|E].
    + injection E as -> ->.
      eapply (grant_receiver N N' i v o (-1) 0 HEAD_TAIL_ rest); try done.
      intros x y. rewrite Huf. by case_decide; [rewrite Nat.add_1_r|].
    + apply receiver_same; [by rewrite Hui, decide_False|apply Hl|by rewrite Huf, decide_False].
  - intros o' w' i0 Hs. apply sender_same; try done; intros; apply Hh || apply H4.
Qed.

Lemma node_step_keeps N N' :
  node_step N N' → node_ok N → (∀ i v, in_ok N i v) → (∀ o w, out_ok N o w) →
  node_keeps_protocol N N'.
Proof.
  intros Hs Hok Hin Hout. destruct Hs.
  - by apply stay_keeps.
  - by eapply arrive_keeps.
  - by eapply free_keeps.
  - by eapply grant_keeps_protocol.
  - by eapply traverse_keeps.
  - by eapply send_keeps.
  - by eapply eject_keeps.
Qed.

(** ** Packets of one flit *)

(** No other flits are on their way, which is so when the interfaces send no other. *)
Definition single (l : list flit_type) : Prop := Forall (λ ty, ty = HEAD_TAIL_) l.

Definition node_single (N : node_view) : Prop :=
  (∀ i v, single (vv_flits (nv_in N i v))) ∧ (∀ i v, single (nv_link N i v)) ∧
  (∀ o w, single (nv_queue N o w)) ∧ (∀ i o w, single (nv_switch N i o w)).

Lemma single_cons ty l : single (ty :: l) ↔ ty = HEAD_TAIL_ ∧ single l.
Proof. unfold single. by rewrite Forall_cons. Qed.

Lemma single_snoc l ty : single l → ty = HEAD_TAIL_ → single (l ++ [ty]).
Proof. intros Hl ->. apply Forall_app. split; [done|by constructor]. Qed.

Lemma node_step_single N N' : node_step N N' → node_single N → node_single N'.
Proof.
  intros Hs (H1 & H2 & H3 & H4).
  destruct Hs as [S1 S2 S3 S4 S5 S6 S7|i v ty outport rest Hl _ Ul Ui S1 S2 S3 S4 S5
    |o w c _ _ _ S1 S2 S3 S4 S5|i v o outvc w ty rest Hv _ _ Ui _ _ Us S1 S2 S3
    |i o w ty rest Hsw Us Uq S1 S2 S3 S4 S5|i o w _ _ Us S1 S2 S3 S4 S5
    |i v o rest Hv Ui _ S1 S2 S3 S4 S5].
  - split_and!; intros; rewrite ?S1, ?S2, ?S5, ?S6; done.
  - pose proof (H2 i v) as Ht. rewrite Hl in Ht. apply single_cons in Ht as [Ht Hr].
    split_and!; intros; rewrite ?Ui, ?Ul, ?S3, ?S4; try done; case_decide; try done.
    by apply single_snoc.
  - split_and!; intros; rewrite ?S1, ?S2, ?S4, ?S5; done.
  - pose proof (H1 i v) as Ht. rewrite Hv in Ht. apply single_cons in Ht as [Ht Hr].
    split_and!; intros; rewrite ?Ui, ?Us, ?S1, ?S2; try done; case_decide; try done.
    + by destruct (is_tail ty).
    + by apply single_snoc.
  - pose proof (H4 i o w) as Ht. rewrite Hsw in Ht. apply single_cons in Ht as [Ht Hr].
    split_and!; intros; rewrite ?Uq, ?Us, ?S1, ?S2; try done; case_decide; try done.
    by apply single_snoc.
  - split_and!; intros; rewrite ?Us, ?S1, ?S2, ?S4; try done; case_decide; try done.
    by apply single_snoc.
  - pose proof (H1 i v) as Ht. rewrite Hv in Ht. apply single_cons in Ht as [Ht Hr].
    split_and!; intros; rewrite ?Ui, ?S1, ?S3, ?S4; try done; by case_decide.
Qed.

(** ** The network *)

Section network.
  Variable cs : list chan.
  Implicit Types a : Z → node_view.

Definition chan_inv a (c : chan) (w : Z) : Prop :=
  ∃ i0, sole (a (ch_src c)) (ch_out c) w i0 ∧
        chan_ok (receiver_of (a (ch_dst c)) (ch_in c) w)
                (sender_of (a (ch_src c)) (ch_out c) w i0).

(** The ports of no channel, which are attached to interfaces. *)
Definition edge_in (k i : Z) : Prop := ∀ c, c ∈ cs → (ch_dst c, ch_in c) ≠ (k, i).
Definition edge_out (k o : Z) : Prop := ∀ c, c ∈ cs → (ch_src c, ch_out c) ≠ (k, o).

(** The interfaces obey the protocol. *)
Definition edges_ok a : Prop :=
  (∀ k i v, edge_in k i → in_ok (a k) i v) ∧ (∀ k o w, edge_out k o → out_ok (a k) o w).

Record net_ok a : Prop := {
  no_node k : node_ok (a k);
  no_chan c w : c ∈ cs → chan_inv a c w;
  no_edge : edges_ok a;
}.

Lemma edge_in_dec k i : (∃ c, c ∈ cs ∧ (ch_dst c, ch_in c) = (k, i)) ∨ edge_in k i.
Proof.
  destruct (decide (Exists (λ c, (ch_dst c, ch_in c) = (k, i)) cs)) as [He|He].
  - left. by apply Exists_exists in He.
  - right. intros c Hc E. apply He, Exists_exists. by exists c.
Qed.

Lemma edge_out_dec k o : (∃ c, c ∈ cs ∧ (ch_src c, ch_out c) = (k, o)) ∨ edge_out k o.
Proof.
  destruct (decide (Exists (λ c, (ch_src c, ch_out c) = (k, o)) cs)) as [He|He].
  - left. by apply Exists_exists in He.
  - right. intros c Hc E. apply He, Exists_exists. by exists c.
Qed.

Lemma net_in_ok a k i v : net_ok a → in_ok (a k) i v.
Proof.
  intros Ha. destruct (edge_in_dec k i) as [(c & Hc & [= <- <-])|He].
  - destruct (no_chan _ Ha c v Hc) as (i0 & _ & Hok). by eexists.
  - by apply (no_edge _ Ha).
Qed.

Lemma net_out_ok a k o w : net_ok a → out_ok (a k) o w.
Proof.
  intros Ha. destruct (edge_out_dec k o) as [(c & Hc & [= <- <-])|He].
  - destruct (no_chan _ Ha c w Hc) as (i0 & Hs & Hok). by eexists _, i0.
  - by apply (no_edge _ Ha).
Qed.

Lemma net_node_step a a' k :
  net_ok a → node_step (a k) (a' k) → (∀ j, j ≠ k → a' j = a j) → net_ok a'.
Proof.
  intros Ha Hs Hj.
  destruct (node_step_keeps _ _ Hs (no_node _ Ha k)) as (H1 & H2 & H3);
    [intros; by apply net_in_ok|intros; by apply net_out_ok|].
  assert (∀ j i v, receiver_sim (receiver_of (a j) i v) (receiver_of (a' j) i v)) as Hr.
  { intros j i v. destruct (decide (j = k)) as [->|Hne]; [apply H2|]. rewrite Hj by done. by intros S. }
  assert (∀ j o w i0, sole (a j) o w i0 → ∃ i1, sole (a' j) o w i1 ∧
    sender_sim (sender_of (a j) o w i0) (sender_of (a' j) o w i1)) as Hsd.
  { intros j o w i0. destruct (decide (j = k)) as [->|Hne]; [apply H3|]. rewrite Hj by done.
    intros Hsl. exists i0. split; [done|by intros R]. }
  split.
  - intros j. destruct (decide (j = k)) as [->|Hne]; [done|]. rewrite Hj by done. apply Ha.
  - intros c w Hc. destruct (no_chan _ Ha c w Hc) as (i0 & Hsl & Hok).
    destruct (Hsd _ _ _ _ Hsl) as (i1 & Hsl' & Hsim). exists i1. split; [done|].
    by apply Hr, Hsim.
  - split.
    + intros j i v _. destruct (net_in_ok a j i v Ha) as [S Hok]. exists S. by apply Hr.
    + intros j o w _. destruct (net_out_ok a j o w Ha) as (R & i0 & Hsl & Hok).
      destruct (Hsd _ _ _ _ Hsl) as (i1 & Hsl' & Hsim). exists R, i1. split; [done|]. by apply Hsim.
Qed.

Lemma net_node_run a a' k :
  net_ok a → rtc node_step (a k) (a' k) → (∀ j, j ≠ k → a' j = a j) → net_ok a'.
Proof.
  intros Ha Hr. remember (a k) as N eqn:HN. remember (a' k) as N' eqn:HN'.
  revert a Ha HN. induction Hr as [N|N N1 N' Hs Hr IH]; intros a Ha -> Hj.
  - apply (net_node_step a a' k); [done| |done]. rewrite <- HN'. by apply step_stay.
  - set (a1 := λ j, if decide (j = k) then N1 else a j).
    assert (a1 k = N1) as E by (unfold a1; by rewrite decide_True).
    apply (IH HN' a1); [|done|].
    + apply (net_node_step a a1 k); [done|by rewrite E|]. intros j Hne. unfold a1.
      by rewrite decide_False.
    + intros j Hne. unfold a1. rewrite decide_False by done. by apply Hj.
Qed.

(** The network with one node replaced, in which all packets have one flit. *)
Definition net_single a : Prop := ∀ k, node_single (a k).

Definition with_node a (k : Z) (N : node_view) (j : Z) : node_view :=
  if decide (j = k) then N else a j.

Definition good a (k : Z) (N : node_view) : Prop :=
  net_ok (with_node a k N) ∧ net_single (with_node a k N).

Lemma with_node_eq a k N : with_node a k N k = N.
Proof. unfold with_node. by rewrite decide_True. Qed.

Lemma good_step a k N N' : good a k N → node_step N N' → good a k N'.
Proof.
  intros [Ha Hs] Hst. split.
  - apply (net_node_step (with_node a k N) _ k); [done|by rewrite !with_node_eq|].
    intros j Hj. unfold with_node. by rewrite !decide_False.
  - intros j. destruct (decide (j = k)) as [->|Hj].
    + rewrite with_node_eq. eapply node_step_single; [exact Hst|].
      specialize (Hs k). by rewrite with_node_eq in Hs.
    + specialize (Hs j). unfold with_node in *. by rewrite decide_False in * by done.
Qed.

Lemma good_run a k N N' : good a k N → rtc node_step N N' → good a k N'.
Proof. intros Hg. induction 1 as [|N N1 N' Hs _ IH]; [done|]. apply IH. by eapply good_step. Qed.

(** A network that is as good with the nodes it has. *)
Lemma good_self a a' k N :
  good a k N → a' k = N → (∀ j, j ≠ k → a' j = a j) → net_ok a' ∧ net_single a'.
Proof.
  intros [Ha Hs] Hk Hj. split.
  - apply (net_node_step (with_node a k N) a' k); [done| |].
    + rewrite with_node_eq, Hk. by apply step_stay.
    + intros j Hne. unfold with_node. rewrite decide_False by done. by apply Hj.
  - intros j. specialize (Hs j). unfold with_node in Hs.
    destruct (decide (j = k)) as [->|Hne]; [by rewrite Hk|by rewrite Hj].
Qed.

Lemma good_node a k : net_ok a → net_single a → good a k (a k).
Proof.
  intros Ha Hs. split.
  - apply (net_node_step a _ k); [done|rewrite with_node_eq; by apply step_stay|].
    intros j Hne. unfold with_node. by rewrite decide_False.
  - intros j. unfold with_node. by case_decide; [subst|].
Qed.

(** What neither links nor interfaces change. *)
Definition same_routers a a' : Prop :=
  ∀ k, same2 (nv_in (a k)) (nv_in (a' k)) ∧ same2 (nv_out (a k)) (nv_out (a' k)) ∧
       same3 (nv_switch (a k)) (nv_switch (a' k)).

Lemma same_routers_sole a a' k o w i0 : same_routers a a' → sole (a k) o w i0 → sole (a' k) o w i0.
Proof.
  intros Hs [S1 S2]. destruct (Hs k) as (H1 & _ & H3). split.
  - intros i Hi. rewrite H3. by apply S1.
  - intros i v Hh. apply (S2 i v). by apply (holds_same (a k) (a' k)).
Qed.

Lemma same_routers_sender a a' k o w i0 R :
  same_routers a a' → nv_credit (a' k) o w = nv_credit (a k) o w →
  nv_queue (a' k) o w = nv_queue (a k) o w →
  chan_ok R (sender_of (a k) o w i0) → chan_ok R (sender_of (a' k) o w i0).
Proof.
  intros Hs Hc Hq. destruct (Hs k) as (H1 & H2 & H3). apply chan_ok_sender; cbn;
    [apply H2|by apply held_same|by rewrite Hq, H3|done].
Qed.

Lemma same_routers_receiver a a' k i v :
  same_routers a a' → nv_link (a' k) i v = nv_link (a k) i v →
  nv_free (a' k) i v = nv_free (a k) i v →
  receiver_of (a' k) i v = receiver_of (a k) i v.
Proof.
  intros Hs Hl Hf. destruct (Hs k) as (H1 & _). unfold receiver_of. by rewrite H1, Hl, Hf.
Qed.

(** A change outside the routers that keeps one channel and touches no other port. *)
Lemma wire_step a a' c :
  wired cs → c ∈ cs → net_ok a → same_routers a a' →
  (∀ k i, (k, i) ≠ (ch_dst c, ch_in c) → ∀ v, nv_link (a' k) i v = nv_link (a k) i v ∧
     nv_free (a' k) i v = nv_free (a k) i v) →
  (∀ k o, (k, o) ≠ (ch_src c, ch_out c) → ∀ w, nv_queue (a' k) o w = nv_queue (a k) o w ∧
     nv_credit (a' k) o w = nv_credit (a k) o w) →
  (∀ w, chan_inv a c w → chan_inv a' c w) → net_ok a'.
Proof.
  intros Hw Hc Ha Hs Hi Ho Hci. split.
  - intros k. destruct (Hs k) as (H1 & _). by eapply node_ok_same, Ha.
  - intros c' w Hc'. destruct (decide (c' = c)) as [->|Hne]; [by apply Hci, Ha|].
    destruct (no_chan _ Ha c' w Hc') as (i0 & Hsl & Hok). exists i0.
    split; [by eapply same_routers_sole|].
    assert ((ch_dst c', ch_in c') ≠ (ch_dst c, ch_in c)) as E1
      by (intros E; by apply Hne, (wired_dst cs)).
    assert ((ch_src c', ch_out c') ≠ (ch_src c, ch_out c)) as E2
      by (intros E; by apply Hne, (wired_src cs)).
    rewrite (same_routers_receiver a a') by (done || by apply Hi).
    by apply (same_routers_sender a a'); [|apply Ho..|].
  - split.
    + intros k i v He. destruct (proj1 (no_edge _ Ha) k i v He) as [S Hok]. exists S.
      rewrite (same_routers_receiver a a'); [done|done|apply Hi|apply Hi];
        intros E; by apply (He c).
    + intros k o w He. destruct (proj2 (no_edge _ Ha) k o w He) as (R & i0 & Hsl & Hok).
      exists R, i0. split; [by eapply same_routers_sole|].
      apply (same_routers_sender a a'); [done|apply Ho|apply Ho|done]; intros E; by apply (He c).
Qed.

(** A link moves the oldest flit of the sender's queue to its end. *)
Lemma link_step a a' c w ty rest :
  wired cs → c ∈ cs → net_ok a → same_routers a a' →
  nv_queue (a (ch_src c)) (ch_out c) w = ty :: rest →
  (∀ k o' w', nv_queue (a' k) o' w' =
     if decide ((k, o', w') = (ch_src c, ch_out c, w)) then rest else nv_queue (a k) o' w') →
  (∀ k i v, nv_link (a' k) i v =
     if decide ((k, i, v) = (ch_dst c, ch_in c, w)) then nv_link (a k) i v ++ [ty]
     else nv_link (a k) i v) →
  (∀ k, same2 (nv_free (a k)) (nv_free (a' k))) →
  (∀ k, same2 (nv_credit (a k)) (nv_credit (a' k))) → net_ok a'.
Proof.
  intros Hw Hc Ha Hs Hq Hq' Hl Hf Hcr. eapply wire_step; [done|exact Hc|exact Ha|done|..].
  - intros k i Hne v. split; [|apply Hf]. rewrite Hl, decide_False; [done|naive_solver].
  - intros k o Hne v. split; [|apply Hcr]. rewrite Hq', decide_False; [done|naive_solver].
  - intros v (i0 & Hsl & p & Hp & Hok). exists i0. split; [by eapply same_routers_sole|].
    destruct (Hs (ch_dst c)) as (D1 & _), (Hs (ch_src c)) as (S1 & S2 & S3).
    exists p. cbn in *. rewrite D1, Hq', Hl, S3, S2, Hcr, Hf. split.
    + destruct (decide (v = w)) as [->|Hne].
      * rewrite !decide_True by done. rewrite Hq in Hp. rewrite <- Hp. f_equal.
        by rewrite <- !app_assoc.
      * rewrite !decide_False by naive_solver. done.
    + assert (held (a' (ch_src c)) (ch_out c) v ↔ held (a (ch_src c)) (ch_out c) v) as Hh
        by by apply held_same.
      destruct (nv_out _ _ _); [|done|]; rewrite !Hh; done.
Qed.

(** Neither kind of step brings flits of another type. *)
Lemma same_routers_single a a' :
  same_routers a a' → (∀ k, same2 (nv_link (a k)) (nv_link (a' k))) →
  (∀ k, same2 (nv_queue (a k)) (nv_queue (a' k))) → net_single a → net_single a'.
Proof.
  intros R L Q Hs k. destruct (R k) as (I & _ & S), (Hs k) as (H1 & H2 & H3 & H4).
  split_and!; intros; [rewrite I|rewrite L|rewrite Q|rewrite S]; auto.
Qed.

Lemma link_step_single a a' c w ty rest :
  same_routers a a' → nv_queue (a (ch_src c)) (ch_out c) w = ty :: rest →
  (∀ k o' w', nv_queue (a' k) o' w' =
     if decide ((k, o', w') = (ch_src c, ch_out c, w)) then rest else nv_queue (a k) o' w') →
  (∀ k i v, nv_link (a' k) i v =
     if decide ((k, i, v) = (ch_dst c, ch_in c, w)) then nv_link (a k) i v ++ [ty]
     else nv_link (a k) i v) →
  net_single a → net_single a'.
Proof.
  intros R Hq Hq' Hl Hs.
  destruct (Hs (ch_src c)) as (_ & _ & Hsq & _). specialize (Hsq (ch_out c) w). rewrite Hq in Hsq.
  apply single_cons in Hsq as [Hty Hr]. intros k.
  destruct (R k) as (I & _ & S), (Hs k) as (H1 & H2 & H3 & H4). split_and!; intros.
  - rewrite I. auto.
  - rewrite Hl. case_decide; [|done]. by apply single_snoc.
  - rewrite Hq'. by case_decide.
  - rewrite S. auto.
Qed.

(** A credit link moves a freeing credit back. *)
Lemma credit_step a a' c w m :
  wired cs → c ∈ cs → net_ok a → same_routers a a' →
  nv_free (a (ch_dst c)) (ch_in c) w = S m →
  (∀ k i v, nv_free (a' k) i v =
     if decide ((k, i, v) = (ch_dst c, ch_in c, w)) then m else nv_free (a k) i v) →
  (∀ k o' w', nv_credit (a' k) o' w' =
     if decide ((k, o', w') = (ch_src c, ch_out c, w)) then S (nv_credit (a k) o' w')
     else nv_credit (a k) o' w') →
  (∀ k, same2 (nv_link (a k)) (nv_link (a' k))) →
  (∀ k, same2 (nv_queue (a k)) (nv_queue (a' k))) → net_ok a'.
Proof.
  intros Hw Hc Ha Hs Hm Hf Hcr Hl Hq. eapply wire_step; [done|exact Hc|exact Ha|done|..].
  - intros k i Hne v. split; [apply Hl|]. rewrite Hf, decide_False; [done|naive_solver].
  - intros k o Hne v. split; [apply Hq|]. rewrite Hcr, decide_False; [done|naive_solver].
  - intros v (i0 & Hsl & p & Hp & Hok). exists i0. split; [by eapply same_routers_sole|].
    destruct (Hs (ch_dst c)) as (D1 & _), (Hs (ch_src c)) as (S1 & S2 & S3).
    exists p. cbn in *. rewrite D1, Hl, Hq, S3, S2. split; [done|].
    assert ((nv_free (a' (ch_dst c)) (ch_in c) v + nv_credit (a' (ch_src c)) (ch_out c) v =
      nv_free (a (ch_dst c)) (ch_in c) v + nv_credit (a (ch_src c)) (ch_out c) v)%nat) as ->.
    { rewrite Hf, Hcr. destruct (decide (v = w)) as [->|Hne].
      - rewrite !decide_True by done. lia.
      - rewrite !decide_False by naive_solver. done. }
    assert (held (a' (ch_src c)) (ch_out c) v ↔ held (a (ch_src c)) (ch_out c) v) as Hh
      by by apply held_same.
    destruct (nv_out _ _ _); [|done|]; rewrite !Hh; done.
Qed.

(** Interfaces change their ports only. *)
Lemma edge_step a a' :
  net_ok a → same_routers a a' → edges_ok a' →
  (∀ k i v, ¬ edge_in k i → nv_link (a' k) i v = nv_link (a k) i v ∧
     nv_free (a' k) i v = nv_free (a k) i v) →
  (∀ k o w, ¬ edge_out k o → nv_queue (a' k) o w = nv_queue (a k) o w ∧
     nv_credit (a' k) o w = nv_credit (a k) o w) → net_ok a'.
Proof.
  intros Ha Hs He Hi Ho. split; [|intros c w Hc|done].
  - intros k. destruct (Hs k) as (H1 & _). by eapply node_ok_same, Ha.
  - destruct (no_chan _ Ha c w Hc) as (i0 & Hsl & Hok). exists i0.
    split; [by eapply same_routers_sole|].
    assert (¬ edge_in (ch_dst c) (ch_in c)) as E1 by (intros E; by apply (E c)).
    assert (¬ edge_out (ch_src c) (ch_out c)) as E2 by (intros E; by apply (E c)).
    rewrite (same_routers_receiver a a') by (done || by apply Hi).
    by apply (same_routers_sender a a'); [|apply Ho..|].
Qed.

(** Nothing changes. *)
Lemma same_step a a' :
  net_ok a → same_routers a a' →
  (∀ k, same2 (nv_link (a k)) (nv_link (a' k)) ∧ same2 (nv_free (a k)) (nv_free (a' k)) ∧
        same2 (nv_queue (a k)) (nv_queue (a' k)) ∧ same2 (nv_credit (a k)) (nv_credit (a' k))) →
  net_ok a'.
Proof.
  intros Ha Hs Hw. assert (edges_ok a') as He.
  { destruct (no_edge _ Ha) as [E1 E2]. split.
    - intros k i v Hk. destruct (E1 k i v Hk) as [S Hok]. exists S.
      by rewrite (same_routers_receiver a a') by (done || apply Hw).
    - intros k o w Hk. destruct (E2 k o w Hk) as (R & i0 & Hsl & Hok). exists R, i0.
      split; [by eapply same_routers_sole|].
      by apply (same_routers_sender a a'); [|apply Hw..|]. }
  apply (edge_step a a'); [done..| |]; intros k p v _; split; apply Hw.
Qed.

(** ** Before anything has moved *)

Definition blank (N : node_view) : Prop :=
  (∀ i v, nv_in N i v = mkVcView IDLE_ (-1) (-1) []) ∧ (∀ i v, nv_link N i v = []) ∧
  (∀ i v, nv_free N i v = 0%nat) ∧ (∀ o w, nv_out N o w = IDLE_) ∧
  (∀ o w, nv_queue N o w = []) ∧ (∀ i o w, nv_switch N i o w = []) ∧
  (∀ o w, nv_credit N o w = 0%nat).

Definition blank_receiver : receiver := mkReceiver Fresh [] 0.
Definition blank_sender (P : Prop) : sender := mkSender IDLE_ P [] 0.

Lemma blank_holds N o w i v : blank N → ¬ holds N o w i v.
Proof. intros (Hi & _) (Hs & _). by rewrite Hi in Hs. Qed.

Lemma blank_receiver_of N i v : blank N → receiver_of N i v = blank_receiver.
Proof.
  intros (Hi & Hl & Hf & _). unfold receiver_of. rewrite Hi, Hl, Hf. unfold phase_of.
  by rewrite decide_False by naive_solver.
Qed.

Lemma blank_sender_of N o w : blank N → sender_of N o w 0 = blank_sender (held N o w).
Proof. intros (_ & _ & _ & Ho & Hq & Hs & Hc). unfold sender_of. by rewrite Ho, Hq, Hs, Hc. Qed.

Lemma blank_sole N o w : blank N → sole N o w 0.
Proof. intros Hb. split; [intros i _; apply Hb|]. by intros i v ?%blank_holds. Qed.

Lemma blank_chan P : ¬ P → chan_ok blank_receiver (blank_sender P).
Proof. intros Hp. by exists Fresh. Qed.

Lemma blank_ok a : (∀ k, blank (a k)) → net_ok a.
Proof.
  intros Hb. assert (∀ k o w, ¬ held (a k) o w) as Hh.
  { intros k o w (i & v & Hh). by apply blank_holds in Hh. }
  split; [intros k|intros c w Hc|].
  - split; [|by intros o w i v i' v' ?%blank_holds]. intros i v. destruct (Hb k) as (-> & _).
    by unfold vc_ok.
  - exists 0. split; [by apply blank_sole|].
    rewrite blank_receiver_of, blank_sender_of by done. by apply blank_chan.
  - split.
    + intros k i v _. exists (blank_sender False). rewrite blank_receiver_of by done.
      apply blank_chan. tauto.
    + intros k o w _. exists blank_receiver, 0. split; [by apply blank_sole|].
      rewrite blank_sender_of by done. by apply blank_chan.
Qed.

(** ** What the invariant says *)

(** No more than one input channel holds an output channel, which is taken then. *)
Lemma net_exclusive a k o w i v i' v' :
  net_ok a → holds (a k) o w i v → holds (a k) o w i' v' →
  i = i' ∧ v = v' ∧ nv_out (a k) o w = ACTIVE_.
Proof.
  intros Ha H1 H2. destruct (no_node _ Ha k) as [_ Hu].
  destruct (Hu _ _ _ _ _ _ H1 H2) as [-> ->]. split_and!; [done..|].
  destruct (net_out_ok a k o w Ha) as (R & i0 & _ & p & _ & Hc). cbn in Hc.
  destruct (nv_out (a k) o w); [|done|done]. destruct Hc as (_ & _ & []). by exists i', v'.
Qed.

(** The flit that comes next into an input channel finds it in the state it has to be
    in: free for a head, taken otherwise. *)
Lemma net_arrival a k i v ty rest :
  net_ok a → nv_link (a k) i v = ty :: rest →
  vv_state (nv_in (a k) i v) = if is_head ty then IDLE_ else ACTIVE_.
Proof.
  intros Ha Hl. destruct (net_in_ok a k i v Ha) as (S & p & Hp & _).
  destruct (no_node _ Ha k) as [Hvc _]. specialize (Hvc i v).
  unfold receiver_of, phase_of in Hp. cbn in Hp. rewrite Hl in Hp. unfold vc_ok in Hvc.
  destruct (vv_state (nv_in (a k) i v)) eqn:Es; [|done|].
  - destruct Hvc as [E _]. rewrite E, decide_False in Hp by naive_solver. cbn in Hp.
    by destruct ty.
  - destruct (decide (vv_outvc (nv_in (a k) i v) = -1)) as [E|E].
    + rewrite decide_False in Hp by naive_solver. specialize (Hvc E).
      destruct (vv_flits (nv_in (a k) i v)) as [|ty' l]; [done|]. cbn in Hp.
      apply bind_Some in Hp as (q & Hq & Hp). rewrite !read_app in Hp.
      destruct (is_head ty) eqn:Eh; [|done]. exfalso.
      apply bind_Some in Hp as (q2 & Hp & _). apply bind_Some in Hp as (q3 & Hl3 & Hp).
      assert (q3 ≠ Fresh) as Hq3.
      { intros ->. apply read_fresh in Hl3 as [-> _]. by destruct ty'. }
      cbn in Hp. by destruct q3, ty.
    + rewrite decide_True in Hp by done. rewrite !read_app in Hp.
      apply bind_Some in Hp as (q2 & Hp & _). apply bind_Some in Hp as (q3 & Hl3 & Hp).
      destruct (is_head ty) eqn:Eh; [|done]. exfalso.
      assert (q3 ≠ Fresh) as Hq3 by (intros ->; by apply read_fresh in Hl3 as [? _]).
      cbn in Hp. by destruct q3, ty.
Qed.

(** When a tail is at the head of an input channel, nothing is behind it. *)
Lemma net_tail_last a k i v ty rest :
  net_ok a → vv_flits (nv_in (a k) i v) = ty :: rest → is_tail ty = true → rest = [].
Proof.
  intros Ha Hl Ht. destruct (net_in_ok a k i v Ha) as (S & p & Hp & _).
  unfold receiver_of in Hp. cbn in Hp. rewrite Hl in Hp. cbn in Hp.
  apply bind_Some in Hp as (q & Hq & Hp).
  assert (q = Complete) as ->.
  { destruct ty; try discriminate Ht; destruct (phase_of _); by inversion Hq. }
  by apply read_complete in Hp as [[[-> _]%app_eq_nil _]%app_eq_nil _].
Qed.

(** In such a network an input channel holds a flit at most, and that is a packet whose
    channel was free when it came. *)
Lemma good_one_flit a k N i v :
  good a k N → ∀ ty rest, vv_flits (nv_in N i v) = ty :: rest → ty = HEAD_TAIL_ ∧ rest = [].
Proof.
  intros [Ha Hs] ty rest Hf. specialize (Hs k). rewrite with_node_eq in Hs.
  destruct Hs as (H1 & _). specialize (H1 i v). rewrite Hf in H1.
  apply single_cons in H1 as [-> _]. split; [done|].
  by apply (net_tail_last _ k i v HEAD_TAIL_ rest Ha); rewrite ?with_node_eq.
Qed.

Lemma good_arrival a k N i v ty rest :
  good a k N → nv_link N i v = ty :: rest → ty = HEAD_TAIL_ ∧ vv_state (nv_in N i v) = IDLE_.
Proof.
  intros [Ha Hs] Hl. specialize (Hs k). rewrite with_node_eq in Hs.
  destruct Hs as (_ & H2 & _). specialize (H2 i v). rewrite Hl in H2.
  apply single_cons in H2 as [-> _]. split; [done|].
  pose proof (net_arrival (with_node a k N) k i v HEAD_TAIL_ rest Ha) as Hst.
  rewrite with_node_eq in Hst. by apply Hst.
Qed.

End network.
