(* ===== verification/WormholeRouter.v ===== *)
(** * Routers obey the virtual-channel protocol

    The view of a router, of the links into it and of the credit links into it, and the
    proof that everything [Router::wakeup] does is a sequence of the transitions of
    [Wormhole]: a simulation of the pipeline of [Pipeline] by the abstract protocol. *)

From S2P Require Import Prelude.
From S2P Require Import IntMath.
From S2P Require Import NetDest.
From S2P Require Import Flit.
From S2P Require Import VirtualChannels.
From S2P Require Import Routing.
From S2P Require Import Clocking.
From S2P Require Import Links.
From S2P Require Import Pipeline.
From S2P Require Import FlowControl.
From S2P Require Import CreditProtocol.
From S2P Require Import Allocation.
From S2P Require Import Wormhole.

(** ** Changes at one place of a view *)

Section look_at.
  Context {A B : Type} (d : B).
  Implicit Types (l : list A) (i j : Z) (a : A).

Lemma look_upd2 (g : Z → A → B) l i a a' l' v y :
  replaced l i a' l' → zlookup l i = Some a →
  (∀ v', g v' a' = if decide (v' = v) then y else g v' a) →
  upd2 (λ j v', look d (g v') l j) (λ j v', look d (g v') l' j) i v y.
Proof.
  intros Hs Ha Hg j v'. cbn. rewrite (look_replaced _ _ _ _ _ _ j Hs).
  destruct (decide (j = i)) as [->|Hne]; [|by rewrite decide_False by naive_solver].
  rewrite Hg. destruct (decide (v' = v)) as [->|Hne]; [by rewrite decide_True|].
  rewrite decide_False by naive_solver. by rewrite (look_Some _ _ _ _ _ Ha).
Qed.

Lemma look_upd3 (g : Z → Z → A → B) l i a a' l' o v y :
  replaced l i a' l' → zlookup l i = Some a →
  (∀ o' v', g o' v' a' = if decide ((o', v') = (o, v)) then y else g o' v' a) →
  upd3 (λ j o' v', look d (g o' v') l j) (λ j o' v', look d (g o' v') l' j) i o v y.
Proof.
  intros Hs Ha Hg j o' v'. cbn. rewrite (look_replaced _ _ _ _ _ _ j Hs).
  destruct (decide (j = i)) as [->|Hne]; [|by rewrite decide_False by naive_solver].
  rewrite Hg. destruct (decide ((o', v') = (o, v))) as [[= -> ->]|Hne]; [by rewrite decide_True|].
  rewrite decide_False by naive_solver. by rewrite (look_Some _ _ _ _ _ Ha).
Qed.
End look_at.

(** ** Views of buffers and units *)

(** The kinds of the flits of channel [v] in a buffer, and of those for channel [v] of
    output port [o] in a switch buffer. *)
Definition vc_types (v : Z) (b : FlitBuffer.t) : list flit_type :=
  flit_m_type <$> filter (λ f, flit_m_vc f = v) (FlitBuffer.m_buffer b).

Definition port_types (o v : Z) (b : FlitBuffer.t) : list flit_type :=
  flit_m_type <$> filter (λ f, flit_m_outport f = Some o ∧ flit_m_vc f = v)
                    (FlitBuffer.m_buffer b).

(** The freeing credits of channel [v] in a queue. *)
Definition frees (v : Z) (b : FlitBuffer.t) : nat :=
  length (filter (λ f, flit_m_is_free_signal f = Some true ∧ flit_m_vc f = v)
            (FlitBuffer.m_buffer b)).

Definition view_of (c : VirtualChannel.t) : vc_view :=
  mkVcView (VirtualChannel.get_state c) (VirtualChannel.m_output_port c)
    (VirtualChannel.m_output_vc c) (flit_m_type <$> VirtualChannel.flits c).

Definition no_vc : vc_view := mkVcView IDLE_ (-1) (-1) [].

Definition in_vc (v : Z) (u : InputUnit.t) : vc_view :=
  look no_vc view_of (InputUnit.virtualChannels u) v.

Definition out_state (w : Z) (u : OutputUnit.t) : VC_state_type :=
  look IDLE_ OutVcState.m_vc_state (OutputUnit.outVcState u) w.

Lemma vc_types_insert v b f :
  vc_types v (FlitBuffer.insert b f) =
    vc_types v b ++ (if decide (flit_m_vc f = v) then [flit_m_type f] else []).
Proof.
  unfold vc_types. cbn. rewrite filter_app, fmap_app, filter_cons, filter_nil.
  by case_decide.
Qed.

Lemma vc_types_getTopFlit v b f b' :
  FlitBuffer.getTopFlit b = Ok (f, b') →
  vc_types v b = (if decide (flit_m_vc f = v) then [flit_m_type f] else []) ++ vc_types v b'.
Proof.
  intros [Hb _]%FlitBuffer.getTopFlit_Ok. unfold vc_types. rewrite Hb, filter_cons.
  by case_decide.
Qed.

Lemma port_types_insert o v b f :
  port_types o v (FlitBuffer.insert b f) =
    port_types o v b ++
    (if decide (flit_m_outport f = Some o ∧ flit_m_vc f = v) then [flit_m_type f] else []).
Proof.
  unfold port_types. cbn. rewrite filter_app, fmap_app, filter_cons, filter_nil.
  by destruct (decide _).
Qed.

Lemma port_types_getTopFlit o v b f b' :
  FlitBuffer.getTopFlit b = Ok (f, b') →
  port_types o v b =
    (if decide (flit_m_outport f = Some o ∧ flit_m_vc f = v) then [flit_m_type f] else []) ++
    port_types o v b'.
Proof.
  intros [Hb _]%FlitBuffer.getTopFlit_Ok. unfold port_types. rewrite Hb, filter_cons.
  by destruct (decide _).
Qed.

Lemma frees_insert v b f :
  frees v (FlitBuffer.insert b f) =
    (frees v b + if decide (flit_m_is_free_signal f = Some true ∧ flit_m_vc f = v)
                 then 1 else 0)%nat.
Proof.
  unfold frees. cbn. rewrite filter_app, length_app, filter_cons, filter_nil.
  by destruct (decide _).
Qed.

Lemma frees_getTopFlit v b f b' :
  FlitBuffer.getTopFlit b = Ok (f, b') →
  frees v b = ((if decide (flit_m_is_free_signal f = Some true ∧ flit_m_vc f = v)
                then 1 else 0) + frees v b')%nat.
Proof.
  intros [Hb _]%FlitBuffer.getTopFlit_Ok. unfold frees. rewrite Hb, filter_cons.
  by destruct (decide _).
Qed.

(** ** The view of a router *)

Definition units_view (ins : list InputUnit.t) (outs : list OutputUnit.t)
    (sw ibs cbs : list FlitBuffer.t) : node_view :=
  mkNodeView (λ i v, look no_vc (in_vc v) ins i)
    (λ i v, look [] (vc_types v) ibs i)
    (λ i v, look 0%nat (λ u, frees v (InputUnit.creditQueue u)) ins i)
    (λ o w, look IDLE_ (out_state w) outs o)
    (λ o w, look [] (λ u, vc_types w (OutputUnit.outBuffer u)) outs o)
    (λ i o w, look [] (port_types o w) sw i)
    (λ o w, look 0%nat (frees w) cbs o).

Section router.
  Context `{MachineTypes}.
  Implicit Types r : Router.t.

Definition switch_of r : list FlitBuffer.t :=
  CrossbarSwitch.switchBuffers (Router.crossbarSwitch r).

Definition router_view r (ibs cbs : list FlitBuffer.t) : node_view :=
  units_view (Router.m_input_unit r) (Router.m_output_unit r) (switch_of r) ibs cbs.

(** Several transitions of a node. *)
Definition node_run : node_view → node_view → Prop := rtc node_step.

Lemma same_units_view r r' ibs cbs :
  Router.m_input_unit r' = Router.m_input_unit r →
  Router.m_output_unit r' = Router.m_output_unit r →
  Router.crossbarSwitch r' = Router.crossbarSwitch r →
  router_view r' ibs cbs = router_view r ibs cbs.
Proof. unfold router_view, switch_of. by intros -> -> ->. Qed.

Lemma run_eq N N' : N' = N → node_run N N'.
Proof. intros ->. done. Qed.

(** ** Input units *)

Lemma upd_vc_view u c f u' :
  InputUnit.upd_vc u c f = Ok u' →
  InputUnit.creditQueue u' = InputUnit.creditQueue u ∧
  ∃ x, zlookup (InputUnit.virtualChannels u) c = Some x ∧
    zlookup (InputUnit.virtualChannels u') c = Some (f x) ∧
    ∀ v, in_vc v u' = if decide (v = c) then view_of (f x) else in_vc v u.
Proof.
  intros (x & Hx & Hs%vset_replaced & Hq)%upd_vc_Ok. split; [done|]. exists x.
  split_and!; [done|by eapply replaced_eq|]. intros v. by apply look_replaced.
Qed.

Lemma route_compute_alloc e r rt i d o r' :
  Router.route_compute e r rt i d = Ok (o, r') →
  Router.switchAllocator r' = Router.switchAllocator r.
Proof.
  unfold Router.route_compute. intros Hr. by step_bind Hr as [? ?] _; injection Hr as <- <-.
Qed.

(** What a router keeps while a unit is awake. *)
Definition same_rest r r' : Prop :=
  Router.crossbarSwitch r' = Router.crossbarSwitch r ∧
  Router.switchAllocator r' = Router.switchAllocator r.

(** The channel that takes the flit. *)
Definition arrived (x : vc_view) (ty : flit_type) (outport : Z) : vc_view :=
  mkVcView ACTIVE_ (if is_head ty then outport else vv_outport x) (vv_outvc x)
    (vv_flits x ++ [ty]).

(** The head of a packet makes its channel active and gives it an output port. *)
Lemma head_effect e r f u x u1 r1 :
  zlookup (InputUnit.virtualChannels u) (flit_m_vc f) = Some x →
  (if is_head (flit_m_type f) then
     _ ← assert (bool_decide (VirtualChannel.get_state x = IDLE_));
     u ← InputUnit.set_vc_active u (flit_m_vc f) (curTick e);
     '(outport, r) ← Router.route_compute e r (flit_m_route f)
                       (InputUnit.m_id u) (InputUnit.m_direction u);
     u ← InputUnit.grant_outport u (flit_m_vc f) outport;
     Ok (u, r)
   else
     _ ← assert (bool_decide (VirtualChannel.get_state x = ACTIVE_));
     Ok (u, r)) = Ok (u1, r1) →
  VirtualChannel.get_state x = (if is_head (flit_m_type f) then IDLE_ else ACTIVE_) ∧
  Router.m_input_unit r1 = Router.m_input_unit r ∧
  Router.m_output_unit r1 = Router.m_output_unit r ∧ same_rest r r1 ∧
  InputUnit.creditQueue u1 = InputUnit.creditQueue u ∧
  ∃ outport x1, zlookup (InputUnit.virtualChannels u1) (flit_m_vc f) = Some x1 ∧
    (∀ v, v ≠ flit_m_vc f → in_vc v u1 = in_vc v u) ∧
    VirtualChannel.flits x1 = VirtualChannel.flits x ∧
    VirtualChannel.get_state x1 = ACTIVE_ ∧
    VirtualChannel.m_output_vc x1 = VirtualChannel.m_output_vc x ∧
    VirtualChannel.m_output_port x1 =
      (if is_head (flit_m_type f) then outport else VirtualChannel.m_output_port x).
Proof.
  intros Hx Hh. destruct (is_head _).
  - step_bind Hh as [] Ha%assert_Ok%bool_decide_eq_true.
    step_bind Hh as ua (Hqa & xa & Hxa & Hxa' & Hva)%upd_vc_view.
    step_bind Hh as [op ra] Hra. step_bind Hh as ub (Hqb & xb & Hxb & Hxb' & Hvb)%upd_vc_view.
    injection Hh as <- <-. pose proof (route_compute_alloc _ _ _ _ _ _ _ Hra) as Hsa.
    apply route_compute_units in Hra as (? & ? & ?).
    rewrite Hx in Hxa. injection Hxa as <-. rewrite Hxa' in Hxb. injection Hxb as <-.
    split_and!; try done; [congruence|]. eexists op, _. split; [exact Hxb'|].
    split_and!; try done. intros v Hv. by rewrite Hvb, decide_False, Hva, decide_False.
  - step_bind Hh as [] Ha%assert_Ok%bool_decide_eq_true. injection Hh as <- <-.
    split_and!; try done. by exists 0, x.
Qed.

Lemma schedule_effect e r n r' (b : bool) :
  (if b then Ok r else Router.schedule_wakeup e r n) = Ok r' →
  Router.m_input_unit r' = Router.m_input_unit r ∧
  Router.m_output_unit r' = Router.m_output_unit r ∧ same_rest r r'.
Proof.
  destruct b; [by intros [= <-]|]. by intros (? & ? & ? & ?)%schedule_wakeup_units.
Qed.

Lemma input_wakeup_effect e r p b r' b' :
  Router.input_wakeup e r p b = Ok (r', b') →
  (r' = r ∧ b' = b) ∨
  ∃ f u u' outport, FlitBuffer.getTopFlit b = Ok (f, b') ∧
    zlookup (Router.m_input_unit r) p = Some u ∧
    vv_state (in_vc (flit_m_vc f) u) = (if is_head (flit_m_type f) then IDLE_ else ACTIVE_) ∧
    replaced (Router.m_input_unit r) p u' (Router.m_input_unit r') ∧
    Router.m_output_unit r' = Router.m_output_unit r ∧ same_rest r r' ∧
    InputUnit.creditQueue u' = InputUnit.creditQueue u ∧
    ∀ v, in_vc v u' = if decide (v = flit_m_vc f)
                      then arrived (in_vc v u) (flit_m_type f) outport else in_vc v u.
Proof.
  unfold Router.input_wakeup. destruct (FlitBuffer.isReady b _); [|intros [= <- <-]; by left].
  intros Hw. right. step_bind Hw as [f b1] Hf. step_bind Hw as [] _.
  step_bind Hw as u Hu%vget_Ok. step_bind Hw as x Hx%vget_Ok.
  step_bind Hw as [u1 r1] Hhead.
  apply (head_effect e r (increment_hops f)) in Hhead
    as (Hst & Hi1 & Ho1 & Hr1 & Hq1 & outport & x1 & Hx1 & Hv1 & Hfl & Hac & Hvc & Hop); [|done].
  step_bind Hw as [] _. step_bind Hw as u2 (Hq2 & x2 & Hx2 & _ & Hv2)%upd_vc_view.
  step_bind Hw as ws _. step_bind Hw as rs _. step_bind Hw as r2 Hr2. step_bind Hw as r3 Hr3.
  step_bind Hw as r4 Hr4. injection Hw as <- <-.
  apply setInputUnit_Ok in Hr2 as (Hs2%vset_replaced & Ho2 & Hx2' & Ha2).
  apply schedule_effect in Hr3 as (Hi3 & Ho3 & Hr3).
  assert (Router.m_input_unit r4 = Router.m_input_unit r3 ∧
    Router.m_output_unit r4 = Router.m_output_unit r3 ∧ same_rest r3 r4) as (Hi4 & Ho4 & Hr4').
  { destruct (FlitBuffer.isReady b1 _); cbn in Hr4; [|by injection Hr4 as <-].
    by apply (schedule_effect e r3 1 r4 false). }
  cbn in *. rewrite Hx1 in Hx2. injection Hx2 as <-.
  exists f, u, (InputUnit.with_counters u2 ws rs), outport.
  split_and!; [done|done| | |congruence| | |].
  - unfold in_vc. by rewrite (look_Some _ _ _ _ _ Hx).
  - intros j. rewrite Hi4, Hi3, Hs2, Hi1. done.
  - destruct Hr1, Hr3, Hr4'. split; congruence.
  - cbn. congruence.
  - intros v. change (in_vc v (InputUnit.with_counters u2 ws rs)) with (in_vc v u2).
    rewrite Hv2. case_decide as Hv; [|by apply Hv1]. subst v.
    unfold in_vc. rewrite (look_Some _ _ _ _ _ Hx). unfold arrived, view_of. cbn.
    unfold VirtualChannel.flits in *. cbn. rewrite Hfl, fmap_app. cbn.
    unfold VirtualChannel.get_state in *. cbn. by rewrite Hac, Hvc, Hop.
Qed.

Lemma input_loop_step e p r bs r' bs' cbs :
  Router.input_loop e p (r, bs) = Ok (r', bs') →
  node_step (router_view r bs cbs) (router_view r' bs' cbs) ∧
  Router.switchAllocator r' = Router.switchAllocator r.
Proof.
  cbn. intros Hl. step_bind Hl as b Hb%vget_Ok. step_bind Hl as [r1 b1] Hw.
  step_bind Hl as bs1 Hbs%vset_replaced. injection Hl as <- <-.
  destruct (input_wakeup_effect _ _ _ _ _ _ Hw)
    as [[-> ->]|(f & u & u' & op & Hf & Hu & Hst & Hi & Ho & [Hx Ha] & Hq & Hv)].
  - split; [|done]. apply step_stay; intros ? ?; try done. cbn.
    by eapply look_same.
  - split; [|done]. eapply (step_arrive _ _ p (flit_m_vc f) (flit_m_type f) op
      (vc_types (flit_m_vc f) b1)); cbn.
    + rewrite (look_Some _ _ _ _ _ Hb), (vc_types_getTopFlit _ _ _ _ Hf).
      by rewrite decide_True.
    + by rewrite (look_Some _ _ _ _ _ Hu).
    + eapply look_upd2; [exact Hbs|exact Hb|]. intros v.
      rewrite (vc_types_getTopFlit v _ _ _ Hf).
      by destruct (decide (v = flit_m_vc f)) as [->|Hne]; [|rewrite decide_False by done].
    + eapply look_upd2; [exact Hi|exact Hu|]. intros v. rewrite Hv, (look_Some _ _ _ _ _ Hu).
      by destruct (decide (v = flit_m_vc f)) as [->|Hne].
    + intros i v. cbn. eapply look_same; [exact Hi|exact Hu|]. by rewrite Hq.
    + intros o w. cbn. by rewrite Ho.
    + intros o w. cbn. by rewrite Ho.
    + intros i o w. unfold switch_of. cbn. by rewrite Hx.
    + by intros o w.
Qed.

(** ** Output units *)

Lemma upd_state u c (g : OutVcState.t → result OutVcState.t) os w st :
  vupd (OutputUnit.outVcState u) c g = Ok os →
  (∀ o o', g o = Ok o' → OutVcState.m_vc_state o' = st o) →
  ∃ o, zlookup (OutputUnit.outVcState u) c = Some o ∧
  out_state w (OutputUnit.with_vcs u os) = if decide (w = c) then st o else out_state w u.
Proof.
  unfold vupd, out_state. intros Ho Hg. step_bind Ho as o Hl%vget_Ok. step_bind Ho as o' Ho'.
  exists o. split; [done|]. cbn. apply vset_replaced in Ho.
  rewrite (look_replaced _ _ _ _ _ _ w Ho). by rewrite (Hg _ _ Ho').
Qed.

Lemma set_vc_state_view u st c tm u' w :
  OutputUnit.set_vc_state u st c tm = Ok u' →
  OutputUnit.outBuffer u' = OutputUnit.outBuffer u ∧
  out_state w u' = if decide (w = c) then st else out_state w u.
Proof.
  unfold OutputUnit.set_vc_state. intros Hs. step_bind Hs as os Hos. injection Hs as <-.
  split; [done|]. destruct (upd_state u c _ os w (λ _, st) Hos) as (o & _ & ->); [|done].
  by intros o o' [= <-].
Qed.

Lemma same_state_view u c g os w :
  vupd (OutputUnit.outVcState u) c g = Ok os →
  (∀ o o', g o = Ok o' → OutVcState.m_vc_state o' = OutVcState.m_vc_state o) →
  out_state w (OutputUnit.with_vcs u os) = out_state w u.
Proof.
  intros Ho Hg. destruct (upd_state u c g os w OutVcState.m_vc_state Ho Hg) as (o & Hl & ->).
  case_decide; [|done]. subst. unfold out_state. by rewrite (look_Some _ _ _ _ _ Hl).
Qed.

Lemma increment_credit_view u c u' w :
  OutputUnit.increment_credit u c = Ok u' →
  OutputUnit.outBuffer u' = OutputUnit.outBuffer u ∧ out_state w u' = out_state w u.
Proof.
  unfold OutputUnit.increment_credit. intros Hs. step_bind Hs as os Hos. injection Hs as <-.
  split; [done|]. eapply same_state_view; [done|].
  by intros o o' (? & ? & ? & ? & _)%OutVcState.increment_credit_Ok.
Qed.

Lemma decrement_credit_view u c u' w :
  OutputUnit.decrement_credit u c = Ok u' →
  OutputUnit.outBuffer u' = OutputUnit.outBuffer u ∧ out_state w u' = out_state w u.
Proof.
  unfold OutputUnit.decrement_credit. intros Hs. step_bind Hs as os Hos. injection Hs as <-.
  split; [done|]. eapply same_state_view; [done|].
  by intros o o' (? & ? & ? & ? & _)%OutVcState.decrement_credit_Ok.
Qed.

(** A credit that frees its channel makes it idle; another one changes no state. *)
Lemma output_wakeup_effect cur clk u b u' b' :
  OutputUnit.wakeup cur clk u b = Ok (u', b') →
  OutputUnit.outBuffer u' = OutputUnit.outBuffer u ∧
  ((∀ w, frees w b' = frees w b ∧ out_state w u' = out_state w u) ∨
   ∃ c, ∀ w, frees w b = ((if decide (w = c) then 1 else 0) + frees w b')%nat ∧
             out_state w u' = if decide (w = c) then IDLE_ else out_state w u).
Proof.
  unfold OutputUnit.wakeup. destruct (FlitBuffer.isReady b _); [|intros [= <- <-]; auto].
  intros Hw. step_bind Hw as [f b1] Hf. step_bind Hw as u1 Hu1.
  step_bind Hw as fr Hfr%determinate_Ok. step_bind Hw as u2 Hu2.
  assert (b' = b1 ∧ OutputUnit.outBuffer u' = OutputUnit.outBuffer u2 ∧
    ∀ w, out_state w u' = out_state w u2) as (-> & Hq & Hs).
  { destruct (FlitBuffer.isReady b1 _); [step_bind Hw as k _|]; by injection Hw as <- <-. }
  pose proof (λ w, increment_credit_view _ _ _ w Hu1) as H1.
  destruct fr.
  - pose proof (λ w, set_vc_state_view _ _ _ _ _ w Hu2) as H2. split.
    { rewrite Hq. destruct (H2 0) as [-> _]. apply (H1 0). }
    right. exists (flit_m_vc f). intros w. destruct (H1 w) as [_ E1], (H2 w) as [_ E2].
    rewrite Hs, E2, E1, (frees_getTopFlit w _ _ _ Hf), Hfr. split; [|done].
    f_equal. by repeat case_decide; naive_solver.
  - injection Hu2 as <-. split; [rewrite Hq; apply (H1 0)|]. left. intros w.
    destruct (H1 w) as [_ E1]. rewrite Hs, E1, (frees_getTopFlit w _ _ _ Hf), Hfr.
    rewrite decide_False by naive_solver. done.
Qed.

Lemma output_loop_step e p r bs r' bs' ibs :
  Router.output_loop e p (r, bs) = Ok (r', bs') →
  node_step (router_view r ibs bs) (router_view r' ibs bs') ∧
  Router.switchAllocator r' = Router.switchAllocator r.
Proof.
  cbn. intros Hl. step_bind Hl as b Hb%vget_Ok. step_bind Hl as u Hu%vget_Ok.
  step_bind Hl as [u1 b1] Hw. step_bind Hl as r1 Hr1. step_bind Hl as bs1 Hbs%vset_replaced.
  injection Hl as <- <-. apply setOutputUnit_Ok in Hr1 as (Hs%vset_replaced & Hi & Hx & Ha).
  split; [|done]. destruct (output_wakeup_effect _ _ _ _ _ _ Hw) as [Hq Hcase].
  assert (same2 (nv_queue (router_view r ibs bs)) (nv_queue (router_view r1 ibs bs1))) as Hqq.
  { intros o w. cbn. eapply look_same; [exact Hs|exact Hu|by rewrite Hq]. }
  assert (same3 (nv_switch (router_view r ibs bs)) (nv_switch (router_view r1 ibs bs1))) as Hsw.
  { intros i o w. unfold router_view, switch_of. cbn. by rewrite Hx. }
  destruct Hcase as [Hsame|[c Hc]].
  - apply step_stay; try done; intros o w; cbn; rewrite ?Hi; try done.
    + eapply look_same; [exact Hs|exact Hu|apply Hsame].
    + eapply look_same; [exact Hbs|exact Hb|apply Hsame].
  - apply (step_free _ _ p c (frees c b1)); try done; cbn; try (intros o w; cbn; by rewrite Hi).
    + rewrite (look_Some _ _ _ _ _ Hb). destruct (Hc c) as [-> _]. by rewrite decide_True.
    + eapply look_upd2; [exact Hbs|exact Hb|]. intros w. destruct (Hc w) as [-> _].
      by destruct (decide (w = c)) as [->|Hne].
    + eapply look_upd2; [exact Hs|exact Hu|apply Hc].
Qed.

(** ** A grant *)

Lemma first_idle_view u cur c n w :
  OutputUnit.first_idle u cur c n = Ok (Some w) → out_state w u = IDLE_.
Proof.
  revert c. induction n as [|n IH]; intros c; [done|]. cbn [OutputUnit.first_idle].
  intros Hf. step_bind Hf as b Hb. destruct b; [|by eapply IH]. injection Hf as <-.
  unfold OutputUnit.is_vc_idle in Hb. step_bind Hb as o Ho%vget_Ok.
  injection Hb as [Hs%bool_decide_eq_true _]%andb_true_iff.
  unfold out_state. by rewrite (look_Some _ _ _ _ _ Ho).
Qed.

Definition with_outvc (x : vc_view) (w : Z) : vc_view :=
  mkVcView (vv_state x) (vv_outport x) w (vv_flits x).

Lemma vc_allocate_effect e r o i c oc r' u :
  zlookup (Router.m_input_unit r) i = Some u →
  Router.vc_allocate e r o i c = Ok (oc, r') →
  oc ≠ -1 ∧ same_rest r r' ∧
  (∃ ou ou', zlookup (Router.m_output_unit r) o = Some ou ∧
     replaced (Router.m_output_unit r) o ou' (Router.m_output_unit r') ∧
     OutputUnit.outBuffer ou' = OutputUnit.outBuffer ou ∧ out_state oc ou = IDLE_ ∧
     ∀ w, out_state w ou' = if decide (w = oc) then ACTIVE_ else out_state w ou) ∧
  ∃ u', replaced (Router.m_input_unit r) i u' (Router.m_input_unit r') ∧
    InputUnit.creditQueue u' = InputUnit.creditQueue u ∧
    ∀ v, in_vc v u' = if decide (v = c) then with_outvc (in_vc v u) oc else in_vc v u.
Proof.
  unfold Router.vc_allocate. intros Hu Hw. step_bind Hw as vn _.
  step_bind Hw as ou Hou%getOutputUnit_Ok. step_bind Hw as [oc1 ou1] Hsel.
  step_bind Hw as r1 Hr1. step_bind Hw as [] Hne%assert_Ok. step_bind Hw as iu Hiu%getInputUnit_Ok.
  step_bind Hw as iu1 (Hq & x & Hx & _ & Hv)%upd_vc_view. step_bind Hw as r2 Hr2.
  injection Hw as <- <-. apply negb_true_iff, Z.eqb_neq in Hne.
  apply setOutputUnit_Ok in Hr1 as (Hs1%vset_replaced & Hi1 & Hx1 & Ha1).
  apply setInputUnit_Ok in Hr2 as (Hs2%vset_replaced & Ho2 & Hx2 & Ha2).
  rewrite Hi1, Hu in Hiu. injection Hiu as <-.
  unfold OutputUnit.select_free_vc in Hsel. step_bind Hsel as w Hidle.
  destruct w as [w|]; [|by injection Hsel as <- <-]. apply first_idle_view in Hidle.
  step_bind Hsel as ou2 Hou2. injection Hsel as <- <-.
  split_and!; [done|split; congruence| |].
  - exists ou, ou2. rewrite Ho2. split_and!; [done..| |done|].
    + by apply (set_vc_state_view _ _ _ _ _ 0) in Hou2 as [-> _].
    + intros w'. by apply (set_vc_state_view _ _ _ _ _ w') in Hou2 as [_ ->].
  - exists iu1. rewrite <- Hi1. split_and!; [done..|]. intros v. rewrite Hv.
    case_decide; [|done]. subst. unfold in_vc. by rewrite (look_Some _ _ _ _ _ Hx).
Qed.

(** The output channel of the packet: the one it has, or a free one. *)
Lemma outvc_effect e r o i c outvc oc r1 u ou :
  zlookup (Router.m_input_unit r) i = Some u →
  zlookup (Router.m_output_unit r) o = Some ou →
  vv_outvc (in_vc c u) = outvc →
  (if outvc =? -1 then Router.vc_allocate e r o i c else Ok (outvc, r)) = Ok (oc, r1) →
  oc ≠ -1 ∧ same_rest r r1 ∧ (outvc = oc ∨ outvc = -1 ∧ out_state oc ou = IDLE_) ∧
  (∃ ou', replaced (Router.m_output_unit r) o ou' (Router.m_output_unit r1) ∧
     OutputUnit.outBuffer ou' = OutputUnit.outBuffer ou ∧
     ∀ w, out_state w ou' =
       if decide (w = oc) then (if decide (outvc = -1) then ACTIVE_ else out_state oc ou)
       else out_state w ou) ∧
  ∃ u', replaced (Router.m_input_unit r) i u' (Router.m_input_unit r1) ∧
    InputUnit.creditQueue u' = InputUnit.creditQueue u ∧
    ∀ v, in_vc v u' = if decide (v = c) then with_outvc (in_vc v u) oc else in_vc v u.
Proof.
  intros Hu Hou Hvc Hr. destruct (Z.eqb_spec outvc (-1)) as [E|E].
  - destruct (vc_allocate_effect _ _ _ _ _ _ _ _ Hu Hr)
      as (Hne & Hsr & (ou0 & ou' & Hou0 & Ho & Hb & Hid & Hst) & Hin).
    rewrite Hou in Hou0. injection Hou0 as <-.
    split_and!; [done|done|by right| |done]. exists ou'. split_and!; [done..|].
    intros w. rewrite Hst. by rewrite (decide_True (P := outvc = -1)).
  - injection Hr as -> ->. split_and!; [congruence|done|by left| |].
    + exists ou. split_and!; [by apply replaced_self|done|]. intros w.
      rewrite (decide_False (P := oc = -1)) by done. by case_decide; subst.
    + exists u. split_and!; [by apply replaced_self|done|]. intros v. case_decide; [|done].
      subst v. rewrite <- Hvc. by destruct (in_vc c u).
Qed.

Lemma getTopFlit_view u c f u' :
  InputUnit.getTopFlit u c = Ok (f, u') →
  InputUnit.creditQueue u' = InputUnit.creditQueue u ∧
  ∃ rest, vv_flits (in_vc c u) = flit_m_type f :: rest ∧
    ∀ v, in_vc v u' = if decide (v = c)
      then mkVcView (vv_state (in_vc v u)) (vv_outport (in_vc v u)) (vv_outvc (in_vc v u)) rest
      else in_vc v u.
Proof.
  unfold InputUnit.getTopFlit. intros Hg. step_bind Hg as x Hx%vget_Ok.
  step_bind Hg as [f' x'] Hf. step_bind Hg as vcs Hs%vset_replaced. injection Hg as <- <-.
  split; [done|]. apply VirtualChannel.vc_getTopFlit_Ok in Hf as (Hfl & Hst & Hop & Hvc & _).
  exists (flit_m_type <$> VirtualChannel.flits x'). unfold in_vc. cbn.
  rewrite (look_Some _ _ _ _ _ Hx). cbn. rewrite Hfl. split; [done|]. intros v.
  rewrite (look_replaced _ _ _ _ _ _ v Hs). case_decide; [|done]. subst v.
  rewrite (look_Some _ _ _ _ _ Hx). unfold view_of, VirtualChannel.get_state. cbn.
  by rewrite Hst, Hop, Hvc.
Qed.

(** The tail frees its channel. *)
Lemma tail_effect (free : bool) u c cur u' :
  (if free then
     ready ← InputUnit.isReady u c cur;
     _ ← assert (negb ready);
     InputUnit.set_vc_idle u c cur
   else Ok u) = Ok u' →
  InputUnit.creditQueue u' = InputUnit.creditQueue u ∧
  ∀ v, in_vc v u' = if decide (v = c)
    then (if free then mkVcView IDLE_ (-1) (-1) (vv_flits (in_vc v u)) else in_vc v u)
    else in_vc v u.
Proof.
  destruct free; [|intros [= <-]; split; [done|]; intros v; by case_decide].
  intros Hw. step_bind Hw as b _. step_bind Hw as [] _.
  apply upd_vc_view in Hw as (Hq & x & Hx & _ & Hv). split; [done|]. intros v. rewrite Hv.
  case_decide; [|done]. subst. unfold in_vc. by rewrite (look_Some _ _ _ _ _ Hx).
Qed.

Lemma grant_switch_view r i f r' :
  Router.grant_switch r i f = Ok r' →
  Router.m_input_unit r' = Router.m_input_unit r ∧
  Router.m_output_unit r' = Router.m_output_unit r ∧
  ∃ b, zlookup (switch_of r) i = Some b ∧
       replaced (switch_of r) i (FlitBuffer.insert b f) (switch_of r').
Proof.
  unfold Router.grant_switch, CrossbarSwitch.update_sw_winner, vupd, switch_of. intros Hw.
  step_bind Hw as x Hx. injection Hw as <-. step_bind Hx as bs Hbs. injection Hx as <-.
  step_bind Hbs as b Hb%vget_Ok. step_bind Hbs as b' Hb'. injection Hb' as <-.
  split_and!; [done..|]. exists b. split; [done|]. by apply vset_replaced.
Qed.

(** What a grant does to the channel, whose packet may have no output channel yet. *)
Definition granted_vc (ty : flit_type) (x : vc_view) (o w : Z) (rest : list flit_type)
    : vc_view :=
  if is_tail ty then mkVcView IDLE_ (-1) (-1) rest else mkVcView (vv_state x) o w rest.

Lemma grant_view_effect e r o i r' c u ou :
  zlookup (Router.m_input_unit r) i = Some u →
  zlookup (Router.m_output_unit r) o = Some ou →
  zlookup (SwitchAllocator.m_vc_winners (Router.switchAllocator r)) i = Some c →
  vv_outport (in_vc c u) = o →
  Router.grant e r o i = Ok r' →
  ∃ ty rest w u' ou' b g, vv_flits (in_vc c u) = ty :: rest ∧ w ≠ -1 ∧
    (vv_outvc (in_vc c u) = w ∨ vv_outvc (in_vc c u) = -1 ∧ out_state w ou = IDLE_) ∧
    replaced (Router.m_input_unit r) i u' (Router.m_input_unit r') ∧
    (∀ v, in_vc v u' = if decide (v = c) then granted_vc ty (in_vc c u) o w rest
                       else in_vc v u) ∧
    (∀ v, frees v (InputUnit.creditQueue u') = if decide (v = c)
       then (frees c (InputUnit.creditQueue u) + if is_tail ty then 1 else 0)%nat
       else frees v (InputUnit.creditQueue u)) ∧
    replaced (Router.m_output_unit r) o ou' (Router.m_output_unit r') ∧
    OutputUnit.outBuffer ou' = OutputUnit.outBuffer ou ∧
    (∀ w', out_state w' ou' = if decide (w' = w)
       then (if decide (vv_outvc (in_vc c u) = -1) then ACTIVE_ else out_state w ou)
       else out_state w' ou) ∧
    zlookup (switch_of r) i = Some b ∧
    replaced (switch_of r) i (FlitBuffer.insert b g) (switch_of r') ∧
    flit_m_outport g = Some o ∧ flit_m_vc g = w ∧ flit_m_type g = ty.
Proof.
  intros Hu Hou Hwin Hop Hw. unfold Router.grant in Hw.
  step_bind Hw as iu0 Hiu0%getInputUnit_Ok. step_bind Hw as c0 Hc0%vget_Ok.
  rewrite Hu in Hiu0. injection Hiu0 as <-. rewrite Hwin in Hc0. injection Hc0 as <-.
  step_bind Hw as oc0 Hoc0. step_bind Hw as [w r1] Hr1.
  assert (vv_outvc (in_vc c u) = oc0) as Hvc.
  { unfold InputUnit.get_outvc in Hoc0. step_bind Hoc0 as x Hx%vget_Ok. injection Hoc0 as <-.
    unfold in_vc. by rewrite (look_Some _ _ _ _ _ Hx). }
  destruct (outvc_effect _ _ _ _ _ _ _ _ _ _ Hu Hou Hvc Hr1)
    as (Hne & [Hx1 Ha1] & Hcase & (ou1 & Ho1 & Hb1 & Hst1) & u1 & Hi1 & Hq1 & Hv1).
  step_bind Hw as iu Hiu%getInputUnit_Ok. rewrite (replaced_eq _ _ _ _ Hi1) in Hiu.
  injection Hiu as <-. step_bind Hw as [f u2] (Hq2 & rest & Hfl & Hv2)%getTopFlit_view.
  step_bind Hw as oux Houx%getOutputUnit_Ok. rewrite (replaced_eq _ _ _ _ Ho1) in Houx.
  injection Houx as <-. step_bind Hw as ou2 Hou2. step_bind Hw as r2 Hr2.
  step_bind Hw as r3 Hr3. step_bind Hw as u3 (Hq3 & Hv3)%tail_effect. step_bind Hw as r4 Hr4.
  step_bind Hw as reqs _. step_bind Hw as rri _. step_bind Hw as rrv _. injection Hw as <-.
  apply setOutputUnit_Ok in Hr2 as (Ho2%vset_replaced & Hi2 & Hx2 & _).
  apply grant_switch_view in Hr3 as (Hi3 & Ho3 & b & Hb & Hs3).
  apply setInputUnit_Ok in Hr4 as (Hi4%vset_replaced & Ho4 & Hx4 & _). cbn in Hi4, Ho4, Hx4.
  eexists (flit_m_type f), rest, w, _, ou2, b, _.
  assert (vv_flits (in_vc c u) = flit_m_type f :: rest) as Hfl'.
  { rewrite Hv1, decide_True in Hfl by done. done. }
  split_and!; [done|done|by rewrite Hvc| | | | | | | | | | |].
  - cbn. rewrite Hi3, Hi2 in Hi4. by eapply replaced_trans.
  - intros v.
    change (in_vc v (InputUnit.increment_credit e u3 c (is_tail (flit_m_type f)) (curTick e)))
      with (in_vc v u3). rewrite Hv3, Hv2, Hv1. unfold granted_vc.
    destruct (decide (v = c)) as [->|Hne']; [|by destruct (is_tail _)].
    cbn. rewrite Hop. by destruct (is_tail _).
  - intros v. unfold InputUnit.increment_credit.
    cbn [InputUnit.creditQueue InputUnit.with_creditQueue].
    rewrite frees_insert, Hq3, Hq2, Hq1. cbn [new_Credit flit_m_is_free_signal flit_m_vc].
    destruct (decide (v = c)) as [->|Hne'].
    + f_equal. destruct (is_tail _); repeat case_decide; naive_solver.
    + rewrite decide_False by naive_solver. lia.
  - cbn. rewrite Ho4, Ho3. by eapply replaced_trans.
  - destruct (decrement_credit_view _ _ _ 0 Hou2) as [-> _]. done.
  - intros w'. destruct (decrement_credit_view _ _ _ w' Hou2) as [_ ->]. rewrite Hst1.
    by rewrite Hvc.
  - unfold switch_of in *. by rewrite Hx2, Hx1 in Hb.
  - unfold switch_of in *. cbn. rewrite Hx4. by rewrite Hx2, Hx1 in Hs3.
  - done.
  - done.
  - done.
Qed.

(** The crossbar buffer of a port. *)
Lemma port_types_same2 o w b g :
  flit_m_outport g = Some o → flit_m_vc g = w →
  ∀ o' w', port_types o' w' (FlitBuffer.insert b g) =
    if decide ((o', w') = (o, w)) then port_types o w b ++ [flit_m_type g] else port_types o' w' b.
Proof.
  intros Ho Hw o' w'. rewrite port_types_insert, Ho, Hw.
  destruct (decide ((o', w') = (o, w))) as [[= -> ->]|Hne]; [by rewrite decide_True|].
  rewrite decide_False by naive_solver. apply app_nil_r.
Qed.

Lemma grant_step e r o i r' ibs cbs c u :
  zlookup (Router.m_input_unit r) i = Some u →
  zlookup (SwitchAllocator.m_vc_winners (Router.switchAllocator r)) i = Some c →
  vv_state (in_vc c u) = ACTIVE_ → vv_outport (in_vc c u) = o →
  Router.grant e r o i = Ok r' →
  node_step (router_view r ibs cbs) (router_view r' ibs cbs) ∧
  ∀ j, j ≠ i → zlookup (Router.m_input_unit r') j = zlookup (Router.m_input_unit r) j.
Proof.
  intros Hu Hwin Hst Hop Hg.
  assert (∃ ou, zlookup (Router.m_output_unit r) o = Some ou) as [ou Hou].
  { unfold Router.grant in Hg. step_bind Hg as ? _. step_bind Hg as ? _. step_bind Hg as oc _.
    step_bind Hg as [w r1] Hr1. destruct (oc =? -1).
    - unfold Router.vc_allocate in Hr1. step_bind Hr1 as ? _.
      step_bind Hr1 as ou Hou%getOutputUnit_Ok. by exists ou.
    - injection Hr1 as <- <-. step_bind Hg as ? _. step_bind Hg as [? ?] _.
      step_bind Hg as ou Hou%getOutputUnit_Ok. by exists ou. }
  destruct (grant_view_effect _ _ _ _ _ _ _ _ Hu Hou Hwin Hop Hg)
    as (ty & rest & w & u' & ou' & b & g & Hfl & Hne & Hcase & Hi & Hv & Hfr & Ho & Hq & Hs &
        Hb & Hsw & Hgo & Hgv & Hgt).
  split; [|intros j Hj; by rewrite Hi, decide_False].
  destruct (in_vc c u) as [st op oc fl] eqn:Ec. cbn in Hst, Hop, Hfl, Hcase, Hs. subst st op fl.
  apply (step_grant _ _ i c o oc w ty rest); cbn; try done; try (by intros ? ?).
  - by rewrite (look_Some _ _ _ _ _ Hu).
  - rewrite (look_Some _ _ _ _ _ Hou). done.
  - eapply look_upd2; [exact Hi|exact Hu|exact Hv].
  - rewrite (look_Some _ _ _ _ _ Hu).
    eapply (look_upd2 _ (λ v u, frees v (InputUnit.creditQueue u)));
      [exact Hi|exact Hu|exact Hfr].
  - rewrite (look_Some _ _ _ _ _ Hou). eapply look_upd2; [exact Ho|exact Hou|exact Hs].
  - rewrite (look_Some _ _ _ _ _ Hb). rewrite <- Hgt.
    eapply look_upd3; [exact Hsw|exact Hb|by apply port_types_same2].
  - intros o' w'. cbn. eapply look_same; [exact Ho|exact Hou|by rewrite Hq].
Qed.

(** ** Switch allocation *)

(** A request is for a channel that is active and wants the port. *)
Definition vc_wants r (i c o : Z) : Prop :=
  ∃ u, zlookup (Router.m_input_unit r) i = Some u ∧
       vv_state (in_vc c u) = ACTIVE_ ∧ vv_outport (in_vc c u) = o.

Lemma request_ok_wants e r i c o : request_ok e r i c o → vc_wants r i c o.
Proof.
  intros (u & oc & Hu%getInputUnit_Ok & Hn & Ho & _). exists u. split; [done|].
  unfold InputUnit.need_stage, InputUnit.get_outport in *. step_bind Hn as x Hx%vget_Ok.
  step_bind Ho as y Hy%vget_Ok. rewrite Hx in Hy. injection Hy as <-. injection Ho as <-.
  apply VirtualChannel.need_stage_true in Hn as [Ha _].
  unfold in_vc. by rewrite (look_Some _ _ _ _ _ Hx).
Qed.

(** Every request waiting to be granted is such a request. *)
Definition requests_ok r : Prop :=
  ∀ i o, 0 ≤ o → zlookup (SwitchAllocator.m_port_requests (Router.switchAllocator r)) i = Some o →
    ∃ c, zlookup (SwitchAllocator.m_vc_winners (Router.switchAllocator r)) i = Some c ∧
         vc_wants r i c o.

Lemma arbitrate_inports_view e r r' :
  sa_idle (Router.switchAllocator r) → Router.arbitrate_inports e r = Ok r' →
  (∀ ibs cbs, router_view r' ibs cbs = router_view r ibs cbs) ∧ requests_ok r'.
Proof.
  intros Hidle (s' & -> & _ & _ & Hreq)%arbitrate_inports_requested. split; [done|].
  intros i o Ho Hi. destruct (Hreq i o Hi) as [Hold|(c & Hc & Hok)].
  - pose proof (Forall_zlookup _ _ _ _ Hidle Hold). cbn in *. lia.
  - exists c. split; [done|]. by apply (request_ok_wants e r).
Qed.

Lemma pick_inport_requests reqs n o c k i :
  Router.pick_inport reqs n o c k = Ok (Some i) → zlookup reqs i = Some o.
Proof.
  revert c. induction k as [|k IH]; intros c; [done|]. cbn [Router.pick_inport]. intros Hp.
  step_bind Hp as q Hq%vget_Ok. destruct (Z.eqb_spec q o) as [->|_]; [|by eapply IH].
  by injection Hp as <-.
Qed.

Lemma arbitrate_outport_step e o r r' ibs cbs :
  0 ≤ o → requests_ok r → Router.arbitrate_outport e o r = Ok r' →
  node_run (router_view r ibs cbs) (router_view r' ibs cbs) ∧ requests_ok r'.
Proof.
  intros Ho Hr Ha. unfold Router.arbitrate_outport in Ha. step_bind Ha as c0 _.
  step_bind Ha as w Hw. destruct w as [i|]; [|by injection Ha as <-].
  apply pick_inport_requests in Hw.
  destruct (Hr i o Ho Hw) as (c & Hc & u & Hu & Hst & Hop).
  destruct (grant_step _ _ _ _ _ ibs cbs _ _ Hu Hc Hst Hop Ha) as [Hs Hj].
  split; [by apply rtc_once|].
  apply grant_effect in Ha as (_ & _ & Hwin & Hreq%vset_replaced & _).
  intros i' o' Ho'. rewrite Hreq, Hwin. case_decide as Hi; [intros [= <-]; lia|].
  intros Hi'. destruct (Hr i' o' Ho' Hi') as (c' & Hc' & u' & Hu' & Hw').
  exists c'. split; [done|]. exists u'. by rewrite Hj.
Qed.

(** Loops whose iterations are transitions, with an invariant. *)
Lemma for_range_run {S} (v : S → node_view) (Q : S → Prop) (f : Z → S → result S) n s s' :
  (∀ i t t', 0 ≤ i → Q t → f i t = Ok t' → node_run (v t) (v t') ∧ Q t') →
  Q s → for_range 0 n f s = Ok s' → node_run (v s) (v s') ∧ Q s'.
Proof.
  intros Hf Hq. apply (for_range_inv (λ _ t, node_run (v s) (v t) ∧ Q t)); [|done].
  intros i t t' Hi [H1 H2] Hs. destruct (Hf i t t' (proj1 Hi) H2 Hs) as [H3 H4].
  split; [by etransitivity|done].
Qed.

Lemma arbitrate_outports_run e r r' ibs cbs :
  requests_ok r → Router.arbitrate_outports e r = Ok r' →
  node_run (router_view r ibs cbs) (router_view r' ibs cbs).
Proof.
  intros Hr Ha. apply (for_range_run (λ r, router_view r ibs cbs) requests_ok) in Ha as [? _];
    [done| |done]. intros o t t' Ho Ht. by apply arbitrate_outport_step.
Qed.

Lemma check_for_wakeup_same e r r' :
  Router.check_for_wakeup e r = Ok r' →
  Router.m_input_unit r' = Router.m_input_unit r ∧
  Router.m_output_unit r' = Router.m_output_unit r ∧ same_rest r r'.
Proof.
  unfold Router.check_for_wakeup. intros Hw. case_in Hw; [by injection Hw as <-|].
  step_bind Hw as b _. destruct b; [|by injection Hw as <-].
  by apply schedule_wakeup_units in Hw as (? & ? & ? & ?).
Qed.

Lemma sa_wakeup_run e r r' ibs cbs :
  sa_idle (Router.switchAllocator r) → Router.sa_wakeup e r = Ok r' →
  node_run (router_view r ibs cbs) (router_view r' ibs cbs) ∧
  sa_idle (Router.switchAllocator r').
Proof.
  intros Hidle Hw. unfold Router.sa_wakeup in Hw. step_bind Hw as r1 Hr1. step_bind Hw as r2 Hr2.
  destruct (arbitrate_inports_view _ _ _ Hidle Hr1) as [H1 Hreq].
  apply check_for_wakeup_same in Hw as (Hi & Ho & Hx & Ha).
  rewrite Ha. split; [|apply clear_request_vector_idle].
  apply (arbitrate_outports_run _ _ _ ibs cbs Hreq) in Hr2. rewrite H1 in Hr2.
  rewrite (same_units_view _ _ _ _ Hi Ho Hx). exact Hr2.
Qed.

(** ** The crossbar *)

Lemma traverse_step e i r r' ibs cbs :
  Router.traverse e i r = Ok r' →
  node_run (router_view r ibs cbs) (router_view r' ibs cbs) ∧
  Router.switchAllocator r' = Router.switchAllocator r.
Proof.
  unfold Router.traverse. intros Hw. step_bind Hw as b Hb%vget_Ok.
  destruct (negb _); [by injection Hw as <-|]. step_bind Hw as f Hf.
  destruct (is_stage _ _ _); [|by injection Hw as <-].
  step_bind Hw as o Ho%determinate_Ok. step_bind Hw as ou Hou%getOutputUnit_Ok.
  step_bind Hw as r1 Hr1. step_bind Hw as [g b'] Hg. step_bind Hw as bs Hbs%vset_replaced.
  injection Hw as <-.
  assert (g = f) as ->.
  { unfold FlitBuffer.peekTopFlit in Hf. apply determinate_Ok in Hf.
    apply FlitBuffer.getTopFlit_Ok in Hg as [Hg _]. rewrite Hg in Hf. by injection Hf. }
  apply setOutputUnit_Ok in Hr1 as (Hs%vset_replaced & Hi & Hx & Ha). split; [|done].
  apply rtc_once. set (w := flit_m_vc f).
  apply (step_traverse _ _ i o w (flit_m_type f) (port_types o w b')); cbn;
    try (by intros ? ?); try (intros ? ?; cbn; by rewrite Hi).
  - change (CrossbarSwitch.switchBuffers (Router.crossbarSwitch r)) with (switch_of r) in Hb.
    rewrite (look_Some _ _ _ _ _ Hb), (port_types_getTopFlit _ _ _ _ _ Hg).
    by rewrite decide_True.
  - eapply (look_upd3 _ port_types); [exact Hbs|exact Hb|]. intros o' w'.
    rewrite (port_types_getTopFlit o' w' _ _ _ Hg), Ho.
    destruct (decide ((o', w') = (o, w))) as [[= -> ->]|Hne]; [done|].
    by rewrite decide_False by naive_solver.
  - rewrite (look_Some _ _ _ _ _ Hou).
    eapply (look_upd2 _ (λ w u, vc_types w (OutputUnit.outBuffer u))); [exact Hs|exact Hou|].
    intros w'. unfold OutputUnit.insert_flit.
    cbn [OutputUnit.outBuffer OutputUnit.with_outBuffer].
    rewrite vc_types_insert. cbn [set_time advance_stage flit_m_vc flit_m_type].
    destruct (decide (w' = w)) as [->|Hne]; [by rewrite decide_True|].
    rewrite decide_False by naive_solver. apply app_nil_r.
  - intros o' w'. cbn. eapply look_same; [exact Hs|exact Hou|done].
Qed.

(** ** A wake-up of the router *)

(** A wake-up of the router changes the allocator in its one allocation only. *)
Lemma router_wakeup_allocates e r ibs cbs r' ibs' cbs' :
  Router.wakeup e r ibs cbs = Ok (r', ibs', cbs') →
  ∃ r1 r2, Router.switchAllocator r1 = Router.switchAllocator r ∧
    Router.sa_wakeup e r1 = Ok r2 ∧ Router.switchAllocator r' = Router.switchAllocator r2.
Proof.
  intros Hw. unfold Router.wakeup in Hw. step_bind Hw as [] _.
  step_bind Hw as [r1 ib1] H1. step_bind Hw as [r2 cb1] H2. step_bind Hw as r3 H3.
  step_bind Hw as r4 H4. injection Hw as <- <- <-. exists r2, r3. split_and!; [|done|].
  - apply (for_range_inv (λ _ st, Router.switchAllocator st.1 = Router.switchAllocator r)) in H1;
      [|intros p [t b] [t' b'] _ Ht [_ Ha]%(input_loop_step _ _ _ _ _ _ cbs); cbn in *; congruence
       |done].
    apply (for_range_inv (λ _ st, Router.switchAllocator st.1 = Router.switchAllocator r)) in H2;
      [done| |done].
    intros p [t b] [t' b'] _ Ht [_ Ha]%(output_loop_step _ _ _ _ _ _ ib1). cbn in *. congruence.
  - apply (for_range_inv (λ _ t, Router.switchAllocator t = Router.switchAllocator r3)) in H4;
      [done| |done].
    intros i t t' _ Ht [_ Ha]%(traverse_step _ _ _ _ ib1 cb1). congruence.
Qed.

Lemma router_wakeup_run e r ibs cbs r' ibs' cbs' :
  sa_idle (Router.switchAllocator r) → Router.wakeup e r ibs cbs = Ok (r', ibs', cbs') →
  node_run (router_view r ibs cbs) (router_view r' ibs' cbs') ∧
  sa_idle (Router.switchAllocator r').
Proof.
  intros Hidle Hw. unfold Router.wakeup in Hw. step_bind Hw as [] _.
  step_bind Hw as [r1 ib1] H1. step_bind Hw as [r2 cb1] H2. step_bind Hw as r3 H3.
  step_bind Hw as r4 H4. injection Hw as <- <- <-.
  apply (for_range_run (λ st, router_view st.1 st.2 cbs)
    (λ st, sa_idle (Router.switchAllocator st.1))) in H1 as [H1 Hi1]; [| |done].
  2: { intros p [t b] [t' b'] _ Ht [Hs Ha]%(input_loop_step _ _ _ _ _ _ cbs).
       split; [by apply rtc_once|cbn in *; by rewrite Ha]. }
  apply (for_range_run (λ st, router_view st.1 ib1 st.2)
    (λ st, sa_idle (Router.switchAllocator st.1))) in H2 as [H2 Hi2]; [| |done].
  2: { intros p [t b] [t' b'] _ Ht [Hs Ha]%(output_loop_step _ _ _ _ _ _ ib1).
       split; [by apply rtc_once|cbn in *; by rewrite Ha]. }
  destruct (sa_wakeup_run _ _ _ ib1 cb1 Hi2 H3) as [H3' Hi3].
  apply (for_range_run (λ r, router_view r ib1 cb1)
    (λ r, sa_idle (Router.switchAllocator r))) in H4 as [H4 Hi4]; [| |done].
  2: { intros i t t' _ Ht [Hs Ha]%(traverse_step _ _ _ _ ib1 cb1).
       split; [done|by rewrite Ha]. }
  split; [|done]. cbn in *. by do 3 (etransitivity; [eassumption|]).
Qed.

End router.
