(* ===== verification/PacketIntegrity.v ===== *)
(** * Packets stay together

    The virtual-channel protocol of [Wormhole] across the network of [CreditProtocol]:
    routers and links that are woken in any order keep it, as long as the network
    interfaces keep it at their ports.  So in every state the flits of a channel are a
    piece of one packet, an output channel serves one packet at a time, and the assertions
    about the states of channels that [InputUnit::wakeup] and [SwitchAllocator] make cannot
    fail. *)

From S2P Require Import Prelude.
From S2P Require Import IntMath.
From S2P Require Import NetDest.
From S2P Require Import Flit.
From S2P Require Import VirtualChannels.
From S2P Require Import Routing.
From S2P Require Import Clocking.
From S2P Require Import Links.
From S2P Require Import Pipeline.
From S2P Require Import FlowControl.
From S2P Require Import CreditProtocol.
From S2P Require Import Allocation.
From S2P Require Import Wormhole.
From S2P Require Import WormholeRouter.

Section integrity.
  Context `{MachineTypes}.

(** ** The view of a network *)

Definition node_view_of (d : node) : node_view :=
  router_view (nd_router d) (NetworkLink.linkBuffer <$> nd_in d)
    (NetworkLink.linkBuffer <$> nd_credit d).

Definition no_view : node_view := units_view [] [] [] [] [].

Definition views (n : net) (k : Z) : node_view := look no_view node_view_of n k.

Lemma views_Some n k d : zlookup n k = Some d → views n k = node_view_of d.
Proof. apply look_Some. Qed.

(** ** Wake-ups of routers *)

Lemma link_buffers (ls : list NetworkLink.t) bs :
  length bs = length ls → NetworkLink.linkBuffer <$> with_buffers ls bs = bs.
Proof.
  unfold with_buffers. revert bs. induction ls as [|l ls IH]; intros [|b bs]; try done.
  intros Hl. cbn. f_equal. apply IH. by injection Hl.
Qed.

(** No request is pending between wake-ups. *)
Definition idle_node (d : node) : Prop := sa_idle (Router.switchAllocator (nd_router d)).

Lemma wake_router_views e k n n' :
  Forall idle_node n → wake_router e k n = Ok n' →
  rtc node_step (views n k) (views n' k) ∧ (∀ j, j ≠ k → views n' j = views n j) ∧
  Forall idle_node n'.
Proof.
  intros Hidle Hw. unfold wake_router in Hw. step_bind Hw as d Hd.
  step_bind Hw as [[r ibs] cbs] Hr. pose proof (Forall_zlookup _ _ _ _ Hidle (proj1 (vget_Ok _ _ _) Hd)) as Hi.
  destruct (router_wakeup_lengths _ _ _ _ _ _ _ Hr) as [Hli Hlc]. rewrite length_fmap in Hli, Hlc.
  destruct (router_wakeup_run _ _ _ _ _ _ _ Hi Hr) as [Hrun Hi'].
  split_and!; [| |eapply Forall_vset; [exact Hidle| |exact Hw]; exact Hi'].
  - apply vset_replaced in Hw. apply vget_Ok in Hd.
    rewrite (views_Some _ _ _ Hd), (views_Some _ _ _ (replaced_eq _ _ _ _ Hw)).
    unfold node_view_of at 2. cbn [nd_router nd_in nd_credit]. by rewrite !link_buffers.
  - intros j Hj. unfold views. by rewrite (look_replaced _ _ _ _ _ _ j (vset_replaced _ _ _ _ Hw)), decide_False.
Qed.

(** ** Changes of the wires *)

(** [g] with [h] at port [p] of node [k]. *)
Definition put {A} (g : Z → Z → Z → A) (k p : Z) (h : Z → A) : Z → Z → Z → A :=
  λ k' p' v, if decide ((k', p') = (k, p)) then h v else g k' p' v.

(** The routers are those of [n]; the links and queues are given. *)
Record wires (n n' : net) (L : Z → Z → Z → list flit_type) (F : Z → Z → Z → nat)
    (Q : Z → Z → Z → list flit_type) (C : Z → Z → Z → nat) : Prop := {
  wires_routers : same_routers (views n) (views n');
  wires_idle : Forall idle_node n → Forall idle_node n';
  wires_link k i v : nv_link (views n' k) i v = L k i v;
  wires_free k i v : nv_free (views n' k) i v = F k i v;
  wires_queue k o w : nv_queue (views n' k) o w = Q k o w;
  wires_credit k o w : nv_credit (views n' k) o w = C k o w;
}.

(** The links, queues and credits of all nodes. *)
Definition links_in (a : Z → node_view) : Z → Z → Z → list flit_type := λ k, nv_link (a k).
Definition frees_in (a : Z → node_view) : Z → Z → Z → nat := λ k, nv_free (a k).
Definition queues_in (a : Z → node_view) : Z → Z → Z → list flit_type := λ k, nv_queue (a k).
Definition credits_in (a : Z → node_view) : Z → Z → Z → nat := λ k, nv_credit (a k).

Definition links_of (n : net) : Z → Z → Z → list flit_type := links_in (views n).
Definition frees_of (n : net) : Z → Z → Z → nat := frees_in (views n).
Definition queues_of (n : net) : Z → Z → Z → list flit_type := queues_in (views n).
Definition credits_of (n : net) : Z → Z → Z → nat := credits_in (views n).

(** The same of the views alone. *)
Record rewired (a a' : Z → node_view) (L : Z → Z → Z → list flit_type) (F : Z → Z → Z → nat)
    (Q : Z → Z → Z → list flit_type) (C : Z → Z → Z → nat) : Prop := {
  rw_routers : same_routers a a';
  rw_link k i v : nv_link (a' k) i v = L k i v;
  rw_free k i v : nv_free (a' k) i v = F k i v;
  rw_queue k o w : nv_queue (a' k) o w = Q k o w;
  rw_credit k o w : nv_credit (a' k) o w = C k o w;
}.

(** Views of the elements of a list, the one of node [k] at position [pos k]. *)
Section table.
  Context {X : Type} (f : X → node_view) (pos : Z → Z).
  Context (pos_inj : ∀ k k', pos k = pos k' → k = k').
  Implicit Types (l : list X) (d : X).

Definition table l (k : Z) : node_view := look no_view f l (pos k).

(** A view of one port where one node is replaced. *)
Lemma table_put {A} (g : node_view → Z → Z → A) l k d d' l' p h :
  zlookup l (pos k) = Some d → replaced l (pos k) d' l' →
  (∀ p' v, g (f d') p' v = if decide (p' = p) then h v else g (f d) p' v) →
  ∀ k' p' v, g (table l' k') p' v = put (λ k, g (table l k)) k p h k' p' v.
Proof.
  intros Hd Hn Hg k' p' v. unfold put, table. rewrite (look_replaced _ _ _ _ _ _ _ Hn).
  destruct (decide (k' = k)) as [->|Hne].
  - rewrite (decide_True (P := pos k = pos k)) by done. rewrite Hg, (look_Some _ _ _ _ _ Hd).
    destruct (decide (p' = p)) as [->|Hne]; [by rewrite decide_True|].
    by rewrite decide_False by naive_solver.
  - by rewrite !decide_False by naive_solver.
Qed.

Lemma table_same {A} (g : node_view → Z → Z → A) l k d d' l' :
  zlookup l (pos k) = Some d → replaced l (pos k) d' l' →
  (∀ p v, g (f d') p v = g (f d) p v) →
  ∀ k' p v, g (table l' k') p v = g (table l k') p v.
Proof.
  intros Hd Hn Hg k' p v. unfold table. rewrite (look_replaced _ _ _ _ _ _ _ Hn).
  case_decide as E; [|done]. apply pos_inj in E. subst. by rewrite Hg, (look_Some _ _ _ _ _ Hd).
Qed.

Lemma table_routers l k d d' l' :
  zlookup l (pos k) = Some d → replaced l (pos k) d' l' →
  same2 (nv_in (f d)) (nv_in (f d')) → same2 (nv_out (f d)) (nv_out (f d')) →
  same3 (nv_switch (f d)) (nv_switch (f d')) → same_routers (table l) (table l').
Proof.
  intros Hd Hn Hi Ho Hs j. unfold table. rewrite (look_replaced _ _ _ _ _ _ _ Hn).
  case_decide as E; [|done]. apply pos_inj in E. subst. by rewrite (look_Some _ _ _ _ _ Hd).
Qed.

End table.

Lemma views_put {A} (g : node_view → Z → Z → A) n k d d' n' p h :
  zlookup n k = Some d → replaced n k d' n' →
  (∀ p' v, g (node_view_of d') p' v = if decide (p' = p) then h v else g (node_view_of d) p' v) →
  ∀ k' p' v, g (views n' k') p' v = put (λ k, g (views n k)) k p h k' p' v.
Proof. by apply (table_put node_view_of (λ k, k)). Qed.

Lemma views_same {A} (g : node_view → Z → Z → A) n k d d' n' :
  zlookup n k = Some d → replaced n k d' n' →
  (∀ p v, g (node_view_of d') p v = g (node_view_of d) p v) →
  ∀ k' p v, g (views n' k') p v = g (views n k') p v.
Proof. by apply (table_same node_view_of (λ k, k)). Qed.

Lemma views_routers n k d d' n' :
  zlookup n k = Some d → replaced n k d' n' →
  (∀ i v, nv_in (node_view_of d') i v = nv_in (node_view_of d) i v) →
  (∀ o w, nv_out (node_view_of d') o w = nv_out (node_view_of d) o w) →
  switch_of (nd_router d') = switch_of (nd_router d) →
  same_routers (views n) (views n').
Proof.
  intros Hd Hn Hi Ho Hs. apply (table_routers node_view_of (λ k, k) (λ k k' H, H) n k d d' n'); try done.
  intros i o w. cbn. by rewrite Hs.
Qed.

Lemma fmap_replaced {A B} (f : A → B) l i a l' :
  replaced l i a l' → replaced (f <$> l) i (f a) (f <$> l').
Proof.
  intros Hr j. specialize (Hr j). unfold zlookup in *. destruct (0 <=? j).
  - rewrite !list_lookup_fmap, Hr. by case_decide.
  - by case_decide.
Qed.

Lemma set_in_link_wires k i l n n' :
  set_in_link k i l n = Ok n' →
  wires n n' (put (links_of n) k i (λ v, vc_types v (NetworkLink.linkBuffer l)))
    (frees_of n) (queues_of n) (credits_of n).
Proof.
  unfold set_in_link. intros Hs. step_bind Hs as d Hd. step_bind Hs as ls Hls%vset_replaced.
  apply vget_Ok in Hd. apply (fmap_replaced NetworkLink.linkBuffer) in Hls.
  split; [|intros Hi; eapply Forall_vset; [exact Hi| |exact Hs]; apply (Forall_zlookup _ _ _ _ Hi Hd)|..];
    apply vset_replaced in Hs.
  - by eapply views_routers.
  - eapply views_put; [done..|]. intros i' v. cbn. by apply look_replaced.
  - by eapply views_same.
  - by eapply views_same.
  - by eapply views_same.
Qed.

Lemma set_credit_link_wires k o l n n' :
  set_credit_link k o l n = Ok n' →
  wires n n' (links_of n) (frees_of n) (queues_of n)
    (put (credits_of n) k o (λ w, frees w (NetworkLink.linkBuffer l))).
Proof.
  unfold set_credit_link. intros Hs. step_bind Hs as d Hd. step_bind Hs as ls Hls%vset_replaced.
  apply vget_Ok in Hd. apply (fmap_replaced NetworkLink.linkBuffer) in Hls.
  split; [|intros Hi; eapply Forall_vset; [exact Hi| |exact Hs]; apply (Forall_zlookup _ _ _ _ Hi Hd)|..];
    apply vset_replaced in Hs.
  - by eapply views_routers.
  - by eapply views_same.
  - by eapply views_same.
  - by eapply views_same.
  - eapply views_put; [done..|]. intros o' w. cbn. by apply look_replaced.
Qed.

Lemma set_outBuffer_wires k o q n n' :
  set_outBuffer k o q n = Ok n' →
  wires n n' (links_of n) (frees_of n) (put (queues_of n) k o (λ w, vc_types w q))
    (credits_of n).
Proof.
  unfold set_outBuffer. intros Hs. step_bind Hs as d Hd%vget_Ok.
  step_bind Hs as u Hu%getOutputUnit_Ok.
  step_bind Hs as r (Hr%vset_replaced & Hi & Hx & Ha)%setOutputUnit_Ok.
  split; [|intros Hf; eapply Forall_vset; [exact Hf| |exact Hs];
           unfold idle_node; cbn; rewrite Ha; apply (Forall_zlookup _ _ _ _ Hf Hd)|..];
    apply vset_replaced in Hs.
  - eapply views_routers; [done..| | |]; cbn.
    + by rewrite Hi.
    + intros o' w. by eapply look_same.
    + unfold switch_of. by rewrite Hx.
  - by eapply views_same.
  - eapply views_same; [done..|]. cbn. by rewrite Hi.
  - eapply views_put; [done..|]. intros o' w. cbn. by rewrite (look_replaced _ _ _ _ _ _ o' Hr).
  - by eapply views_same.
Qed.

Lemma set_creditQueue_wires k i q n n' :
  set_creditQueue k i q n = Ok n' →
  wires n n' (links_of n) (put (frees_of n) k i (λ v, frees v q)) (queues_of n)
    (credits_of n).
Proof.
  unfold set_creditQueue. intros Hs. step_bind Hs as d Hd%vget_Ok.
  step_bind Hs as u Hu%getInputUnit_Ok.
  step_bind Hs as r (Hr%vset_replaced & Ho & Hx & Ha)%setInputUnit_Ok.
  split; [|intros Hf; eapply Forall_vset; [exact Hf| |exact Hs];
           unfold idle_node; cbn; rewrite Ha; apply (Forall_zlookup _ _ _ _ Hf Hd)|..];
    apply vset_replaced in Hs.
  - eapply views_routers; [done..| | |]; cbn.
    + intros i' v. by eapply look_same.
    + by rewrite Ho.
    + unfold switch_of. by rewrite Hx.
  - by eapply views_same.
  - eapply views_put; [done..|]. intros i' v. cbn. by rewrite (look_replaced _ _ _ _ _ _ i' Hr).
  - eapply views_same; [done..|]. cbn. by rewrite Ho.
  - by eapply views_same.
Qed.

(** ** Wake-ups of links *)

Lemma get_outBuffer_view k o n q :
  get_outBuffer k o n = Ok q → ∀ w, nv_queue (views n k) o w = vc_types w q.
Proof.
  unfold get_outBuffer. intros Hg w. step_bind Hg as d Hd%vget_Ok.
  step_bind Hg as u Hu%getOutputUnit_Ok. injection Hg as <-. rewrite (views_Some _ _ _ Hd).
  cbn. by rewrite (look_Some _ _ _ _ _ Hu).
Qed.

Lemma get_creditQueue_view k i n q :
  get_creditQueue k i n = Ok q → ∀ v, nv_free (views n k) i v = frees v q.
Proof.
  unfold get_creditQueue. intros Hg v. step_bind Hg as d Hd%vget_Ok.
  step_bind Hg as u Hu%getInputUnit_Ok. injection Hg as <-. rewrite (views_Some _ _ _ Hd).
  cbn. by rewrite (look_Some _ _ _ _ _ Hu).
Qed.

Lemma look_fmap {A B C} (x : C) (g : B → C) (f : A → B) l i :
  look x g (f <$> l) i = look x (g ∘ f) l i.
Proof.
  unfold look, zlookup. destruct (0 <=? i); [|done]. rewrite list_lookup_fmap.
  by destruct (l !! Z.to_nat i).
Qed.

Lemma get_in_link_view k i n l :
  get_in_link k i n = Ok l →
  ∀ v, nv_link (views n k) i v = vc_types v (NetworkLink.linkBuffer l).
Proof.
  unfold get_in_link. intros Hg v. step_bind Hg as d Hd%vget_Ok. apply vget_Ok in Hg.
  rewrite (views_Some _ _ _ Hd). cbn. by rewrite look_fmap, (look_Some _ _ _ _ _ Hg).
Qed.

Lemma get_credit_link_view k o n l :
  get_credit_link k o n = Ok l →
  ∀ w, nv_credit (views n k) o w = frees w (NetworkLink.linkBuffer l).
Proof.
  unfold get_credit_link. intros Hg v. step_bind Hg as d Hd%vget_Ok. apply vget_Ok in Hg.
  rewrite (views_Some _ _ _ Hd). cbn. by rewrite look_fmap, (look_Some _ _ _ _ _ Hg).
Qed.

(** What a wake-up of a link leaves of its source [q] and its buffer [b]. *)
Definition moved (q b q' b' : FlitBuffer.t) : Prop :=
  (q' = q ∧ b' = b) ∨
  ∃ f t, FlitBuffer.getTopFlit q = Ok (f, q') ∧ b' = FlitBuffer.insert b (set_time f t).

(** What a link holds after a wake-up, for each channel: nothing has moved, or the oldest
    flit [f] of its source has. *)
Lemma link_wakeup_cases cur l q l' q' sch :
  NetworkLink.wakeup cur l (Some q) = Ok (l', q', sch) →
  moved q (NetworkLink.linkBuffer l) q' (NetworkLink.linkBuffer l').
Proof.
  intros (l1 & Hcase & -> & _)%LinkFacts.wakeup_Ok.
  destruct Hcase as [[_ Ht]|(_ & -> & -> & _)]; [right|by left].
  apply LinkFacts.transfer_Ok in Ht as (f & Hf & -> & _). eauto.
Qed.

Lemma same_routers_trans a1 a2 a3 :
  same_routers a1 a2 → same_routers a2 a3 → same_routers a1 a3.
Proof.
  intros H1 H2 k. destruct (H1 k) as (A1 & A2 & A3), (H2 k) as (B1 & B2 & B3).
  split_and!; [intros x y; by rewrite B1|intros x y; by rewrite B2|intros x y z; by rewrite B3].
Qed.

(** A port whose contents are written back. *)
Lemma put_same {A} (g : Z → Z → Z → A) k p h :
  (∀ v, h v = g k p v) → ∀ k' p' v, put g k p h k' p' v = g k' p' v.
Proof. intros Hh k' p' v. unfold put. case_decide as E; [|done]. injection E as -> ->. apply Hh. Qed.

(** A port where one channel changes. *)
Lemma put_one {A} (g : Z → Z → Z → A) k p h v y :
  (∀ v', h v' = if decide (v' = v) then y else g k p v') →
  ∀ k' p' v', put g k p h k' p' v' =
    if decide ((k', p', v') = (k, p, v)) then y else g k' p' v'.
Proof.
  intros Hh k' p' v'. unfold put. destruct (decide ((k', p') = (k, p))) as [[= -> ->]|Hne].
  - rewrite Hh. destruct (decide (v' = v)) as [->|Hne]; [by rewrite decide_True|].
    by rewrite decide_False by naive_solver.
  - by rewrite decide_False by naive_solver.
Qed.

Lemma link_moves cs a a1 a' c q b q' b' :
  wired cs → c ∈ cs → net_ok cs a → moved q b q' b' →
  (∀ w, nv_queue (a (ch_src c)) (ch_out c) w = vc_types w q) →
  (∀ v, nv_link (a (ch_dst c)) (ch_in c) v = vc_types v b) →
  rewired a a1 (put (links_in a) (ch_dst c) (ch_in c) (λ v, vc_types v b'))
    (frees_in a) (queues_in a) (credits_in a) →
  rewired a1 a' (links_in a1) (frees_in a1)
    (put (queues_in a1) (ch_src c) (ch_out c) (λ w, vc_types w q')) (credits_in a1) →
  net_ok cs a' ∧ (net_single a → net_single a').
Proof.
  intros Hw Hc Ha Hm Hqv Hlv [R1 L1 F1 Q1 C1] [R2 L2 F2 Q2 C2].
  assert (same_routers a a') as R by by eapply same_routers_trans.
  assert (∀ k i v, nv_link (a' k) i v =
    put (links_in a) (ch_dst c) (ch_in c) (λ v, vc_types v b') k i v) as L.
  { intros. rewrite L2. apply L1. }
  assert (∀ k o w, nv_queue (a' k) o w =
    put (queues_in a) (ch_src c) (ch_out c) (λ w, vc_types w q') k o w) as Q.
  { intros. rewrite Q2. unfold put. case_decide; [done|]. apply Q1. }
  assert (∀ k, same2 (nv_free (a k)) (nv_free (a' k))) as F.
  { intros k i v. rewrite F2. apply F1. }
  assert (∀ k, same2 (nv_credit (a k)) (nv_credit (a' k))) as C.
  { intros k i v. rewrite C2. apply C1. }
  destruct Hm as [[-> ->]|(f & t & Hf & ->)].
  - assert (∀ k, same2 (nv_link (a k)) (nv_link (a' k)) ∧ same2 (nv_queue (a k)) (nv_queue (a' k)))
      as HLQ.
    { intros k. split; intros x v; [rewrite L|rewrite Q]; rewrite put_same; try done;
        intros v'; symmetry; [apply Hlv|apply Hqv]. }
    split; [|apply same_routers_single; [done|apply HLQ..]].
    apply (same_step cs a); [done..|]. intros k. split_and!; [apply HLQ|apply F|apply HLQ|apply C].
  - assert (nv_queue (a (ch_src c)) (ch_out c) (flit_m_vc f) =
      flit_m_type f :: vc_types (flit_m_vc f) q') as Hq.
    { rewrite Hqv, (vc_types_getTopFlit _ _ _ _ Hf). by rewrite decide_True. }
    assert (∀ k o w, nv_queue (a' k) o w =
      if decide ((k, o, w) = (ch_src c, ch_out c, flit_m_vc f)) then vc_types (flit_m_vc f) q'
      else nv_queue (a k) o w) as Hq'.
    { intros k o w. rewrite Q. rewrite (put_one _ _ _ _ (flit_m_vc f) (vc_types (flit_m_vc f) q'));
        [done|]. intros w'. unfold queues_in. rewrite Hqv, (vc_types_getTopFlit w' _ _ _ Hf).
      by destruct (decide (w' = flit_m_vc f)) as [->|]; [|rewrite decide_False by done]. }
    assert (∀ k i v, nv_link (a' k) i v =
      if decide ((k, i, v) = (ch_dst c, ch_in c, flit_m_vc f)) then nv_link (a k) i v ++ [flit_m_type f]
      else nv_link (a k) i v) as Hl'.
    { intros k i v. rewrite L. rewrite (put_one _ _ _ _ (flit_m_vc f)
        (nv_link (a (ch_dst c)) (ch_in c) (flit_m_vc f) ++ [flit_m_type f])).
      - unfold links_in. by case_decide as E; [injection E as -> -> ->|].
      - intros v'. rewrite vc_types_insert. unfold links_in. rewrite !Hlv.
        cbn [set_time flit_m_vc flit_m_type].
        destruct (decide (v' = flit_m_vc f)) as [->|]; [by rewrite decide_True|].
        rewrite decide_False by done. apply app_nil_r. }
    split; [by eapply link_step|]. intros Hs. eapply link_step_single; eassumption.
Qed.

(** What changes at a port of a node belongs to the wires around the routers. *)
Lemma wires_rewired n n' L F Q C : wires n n' L F Q C → rewired (views n) (views n') L F Q C.
Proof. by intros []. Qed.

Lemma wake_link_keeps cs e c n n' :
  wired cs → c ∈ cs → Forall idle_node n → net_ok cs (views n) →
  wake_link e c n = Ok n' → net_ok cs (views n') ∧ Forall idle_node n'.
Proof.
  intros Hw Hc Hi Ha Hwk. unfold wake_link in Hwk. step_bind Hwk as q Hq.
  step_bind Hwk as l Hl. step_bind Hwk as [[l' q'] sch] Hlw%link_wakeup_cases.
  step_bind Hwk as n1 H1%set_in_link_wires. apply set_outBuffer_wires in Hwk as H2.
  split; [|by apply (wires_idle _ _ _ _ _ _ H2), (wires_idle _ _ _ _ _ _ H1)].
  eapply link_moves; [exact Hw|exact Hc|exact Ha|exact Hlw| | |by eapply wires_rewired..].
  - by apply get_outBuffer_view.
  - by apply get_in_link_view.
Qed.

(** Per channel, the freeing credits of a queue the oldest credit of which is taken, and of
    a buffer it is put in. *)
Definition freeing (f : flit) : bool := bool_decide (flit_m_is_free_signal f = Some true).

Lemma frees_take v q f q' :
  FlitBuffer.getTopFlit q = Ok (f, q') →
  frees v q = ((if decide (v = flit_m_vc f) then if freeing f then 1 else 0 else 0) +
               frees v q')%nat.
Proof.
  intros Hf. rewrite (frees_getTopFlit v _ _ _ Hf). unfold freeing. f_equal.
  by case_bool_decide; repeat case_decide; naive_solver.
Qed.

Lemma frees_put v b f t :
  frees v (FlitBuffer.insert b (set_time f t)) =
    (frees v b + if decide (v = flit_m_vc f) then if freeing f then 1 else 0 else 0)%nat.
Proof.
  rewrite frees_insert. unfold freeing. f_equal. cbn [set_time flit_m_is_free_signal flit_m_vc].
  by case_bool_decide; repeat case_decide; naive_solver.
Qed.

Lemma credit_moves cs a a1 a' c q b q' b' :
  wired cs → c ∈ cs → net_ok cs a → moved q b q' b' →
  (∀ v, nv_free (a (ch_dst c)) (ch_in c) v = frees v q) →
  (∀ w, nv_credit (a (ch_src c)) (ch_out c) w = frees w b) →
  rewired a a1 (links_in a) (frees_in a) (queues_in a)
    (put (credits_in a) (ch_src c) (ch_out c) (λ w, frees w b')) →
  rewired a1 a' (links_in a1) (put (frees_in a1) (ch_dst c) (ch_in c) (λ v, frees v q'))
    (queues_in a1) (credits_in a1) →
  net_ok cs a' ∧ (net_single a → net_single a').
Proof.
  intros Hw Hc Ha Hm Hqv Hlv [R1 L1 F1 Q1 C1] [R2 L2 F2 Q2 C2].
  assert (same_routers a a') as R by by eapply same_routers_trans.
  assert (∀ k o w, nv_credit (a' k) o w =
    put (credits_in a) (ch_src c) (ch_out c) (λ w, frees w b') k o w) as C.
  { intros. rewrite C2. apply C1. }
  assert (∀ k i v, nv_free (a' k) i v =
    put (frees_in a) (ch_dst c) (ch_in c) (λ v, frees v q') k i v) as F.
  { intros. rewrite F2. unfold put. case_decide; [done|]. apply F1. }
  assert (∀ k, same2 (nv_link (a k)) (nv_link (a' k))) as L.
  { intros k i v. rewrite L2. apply L1. }
  assert (∀ k, same2 (nv_queue (a k)) (nv_queue (a' k))) as Q.
  { intros k i v. rewrite Q2. apply Q1. }
  split; [|by apply same_routers_single].
  assert ((∀ v, frees v q' = frees v q) ∧ (∀ w, frees w b' = frees w b) ∨
    ∃ v, (∀ v', frees v' q = if decide (v' = v) then S (frees v q') else frees v' q') ∧
      ∀ w, frees w b' = if decide (w = v) then S (frees v b) else frees w b)
    as [[Hq' Hl']|(v & Hq' & Hl')].
  { destruct Hm as [[-> ->]|(f & t & Hf & ->)]; [by left|].
    destruct (freeing f) eqn:Efr; [right; exists (flit_m_vc f)|left]; split; intros v.
    - rewrite (frees_take _ _ _ _ Hf), Efr. by case_decide; subst.
    - rewrite frees_put, Efr. case_decide; subst; lia.
    - rewrite (frees_take v _ _ _ Hf), Efr. by case_decide.
    - rewrite frees_put, Efr. case_decide; lia. }
  - apply (same_step cs a); [done..|]. intros k. split_and!; [apply L| |apply Q|].
    + intros i v. rewrite F, put_same; [done|]. intros v'. rewrite Hq'. symmetry. apply Hqv.
    + intros o w. rewrite C, put_same; [done|]. intros v'. rewrite Hl'. symmetry. apply Hlv.
  - apply (credit_step cs a _ c v (frees v q')); try done.
    + by rewrite Hqv, Hq', decide_True.
    + intros k i v0. rewrite F, (put_one _ _ _ _ v (frees v q')); [done|].
      intros v'. unfold frees_in. rewrite Hqv, Hq'. by case_decide; subst.
    + intros k o w. rewrite C.
      rewrite (put_one _ _ _ _ v (S (nv_credit (a (ch_src c)) (ch_out c) v))).
      * unfold credits_in. by case_decide as E; [injection E as -> -> ->|].
      * intros w'. rewrite Hl'. unfold credits_in. by rewrite !Hlv.
Qed.

Lemma wake_credit_link_keeps cs e c n n' :
  wired cs → c ∈ cs → Forall idle_node n → net_ok cs (views n) →
  wake_credit_link e c n = Ok n' → net_ok cs (views n') ∧ Forall idle_node n'.
Proof.
  intros Hw Hc Hi Ha Hwk. unfold wake_credit_link in Hwk. step_bind Hwk as q Hq.
  step_bind Hwk as l Hl. step_bind Hwk as [[l' q'] sch] Hlw%link_wakeup_cases.
  step_bind Hwk as n1 H1%set_credit_link_wires. apply set_creditQueue_wires in Hwk as H2.
  split; [|by apply (wires_idle _ _ _ _ _ _ H2), (wires_idle _ _ _ _ _ _ H1)].
  eapply credit_moves; [exact Hw|exact Hc|exact Ha|exact Hlw| | |by eapply wires_rewired..].
  - by apply get_creditQueue_view.
  - by apply get_credit_link_view.
Qed.

(** ** Runs of the network *)

(** An interface changes a link or a queue of a port that belongs to no channel. *)
Definition interface_step (cs : list chan) (n n' : net) : Prop :=
  (∃ k i l, edge_in cs k i ∧ set_in_link k i l n = Ok n') ∨
  (∃ k o l, edge_out cs k o ∧ set_credit_link k o l n = Ok n') ∨
  (∃ k o q, edge_out cs k o ∧ set_outBuffer k o q n = Ok n') ∨
  (∃ k i q, edge_in cs k i ∧ set_creditQueue k i q n = Ok n').

(** The event is one of the network. *)
Definition event_of (cs : list chan) (ev : event) : Prop :=
  match ev with WakeRouter _ => True | WakeLink c | WakeCreditLink c => c ∈ cs end.

(** A step whose interfaces send whole packets and free channels once: after every step
    of an interface, the ports of the network obey the protocol towards some sender or
    receiver. *)
Inductive disciplined (cs : list chan) (n n' : net) : Prop :=
| disciplined_wake e ev :
    event_of cs ev → wake e ev n = Ok n' → disciplined cs n n'
| disciplined_interface :
    interface_step cs n n' → edges_ok cs (views n') → disciplined cs n n'.

(** Disciplined steps are steps of [CreditProtocol]. *)
Lemma disciplined_step cs n n' : disciplined cs n n' → step cs n n'.
Proof.
  intros [e ev Hev Hw|Hi _].
  - destruct ev; [by eapply step_router|by eapply step_link|by eapply step_credit_link].
  - destruct Hi as [(k & i & l & He & Hs)|[(k & o & l & He & Hs)|[(k & o & q & He & Hs)|(k & i & q & He & Hs)]]];
      [by eapply step_ni_in|by eapply step_ni_credit|by eapply step_ni_out
      |by eapply step_ni_creditQueue].
Qed.

(** The invariant: the protocol, and no request pending in an allocator. *)
Definition orderly (cs : list chan) (n : net) : Prop :=
  net_ok cs (views n) ∧ Forall idle_node n.

Lemma wake_orderly cs e ev n n' :
  wired cs → event_of cs ev → orderly cs n → wake e ev n = Ok n' → orderly cs n'.
Proof.
  intros Hw Hev [Ha Hi] Hwk. destruct ev as [k|c|c]; cbn in *.
  - destruct (wake_router_views _ _ _ _ Hi Hwk) as (Hr & Hj & Hi'). split; [|done].
    by eapply net_node_run.
  - by eapply wake_link_keeps.
  - by eapply wake_credit_link_keeps.
Qed.

(** Interfaces touch their ports only. *)
Lemma interface_frame cs n n' :
  interface_step cs n n' →
  same_routers (views n) (views n') ∧ (Forall idle_node n → Forall idle_node n') ∧
  (∀ k i v, ¬ edge_in cs k i → nv_link (views n' k) i v = nv_link (views n k) i v ∧
     nv_free (views n' k) i v = nv_free (views n k) i v) ∧
  (∀ k o w, ¬ edge_out cs k o → nv_queue (views n' k) o w = nv_queue (views n k) o w ∧
     nv_credit (views n' k) o w = nv_credit (views n k) o w).
Proof.
  assert (∀ A (g : Z → Z → Z → A) k p h k' p' v (P : Z → Z → Prop),
    P k p → ¬ P k' p' → put g k p h k' p' v = g k' p' v) as Hput.
  { intros A g k p h k' p' v P Hp Hn. unfold put. rewrite decide_False; [done|].
    intros [= -> ->]. done. }
  intros [(k & i & l & He & Hs)|[(k & o & l & He & Hs)|[(k & o & q & He & Hs)|(k & i & q & He & Hs)]]];
    [apply set_in_link_wires in Hs as [R I L F Q C]|apply set_credit_link_wires in Hs as [R I L F Q C]
    |apply set_outBuffer_wires in Hs as [R I L F Q C]|apply set_creditQueue_wires in Hs as [R I L F Q C]];
    (split_and!; [done|done|intros k' p' v Hn..]); rewrite ?L, ?F, ?Q, ?C;
    split; try done; by eapply Hput.
Qed.

Lemma set_in_link_edges cs n n' k i l :
  net_ok cs (views n) → edge_in cs k i → set_in_link k i l n = Ok n' →
  (∀ v, in_ok (views n' k) i v) → edges_ok cs (views n').
Proof.
  intros Ha Hk [R _ L F Q C]%set_in_link_wires Hin.
  destruct (no_edge _ _ Ha) as [E1 E2]. split.
  - intros k' i' v He. destruct (decide ((k', i') = (k, i))) as [[= -> ->]|Hne]; [apply Hin|].
    destruct (E1 k' i' v He) as [S Hok]. exists S.
    rewrite (same_routers_receiver (views n)); [done|done| |apply F].
    rewrite L. unfold put. by rewrite decide_False.
  - intros k' o w He. destruct (E2 k' o w He) as (R0 & i0 & Hs & Hok). exists R0, i0.
    split; [by eapply same_routers_sole|]. by apply (same_routers_sender (views n)).
Qed.

Lemma disciplined_orderly cs n n' :
  wired cs → orderly cs n → disciplined cs n n' → orderly cs n'.
Proof.
  intros Hw Ho [e ev Hev Hwk|Hi He]; [by eapply wake_orderly|].
  destruct Ho as [Ha Hidle]. destruct (interface_frame _ _ _ Hi) as (R & I & Hin & Hout).
  split; [|by apply I]. by apply (edge_step cs (views n)).
Qed.

(** ** Networks that have not run *)

Lemma look_default {A B} (x : B) (f : A → B) l i :
  Forall (λ a, f a = x) l → look x f l i = x.
Proof.
  intros Hl. unfold look. destruct (zlookup l i) eqn:E; [|done].
  by apply (Forall_zlookup _ _ _ _ Hl E).
Qed.

Lemma empty_views b :
  empty_buffer b → (∀ v, vc_types v b = []) ∧ (∀ o v, port_types o v b = []) ∧
  (∀ v, frees v b = 0%nat).
Proof. unfold empty_buffer, vc_types, port_types, frees. by intros ->. Qed.

Lemma fresh_node_blank d : fresh_node d → blank (node_view_of d).
Proof.
  intros ((Hi & Ho & Hx & _) & Hl & Hc).
  split_and!; intros; cbn; rewrite ?look_fmap; apply look_default;
    (eapply Forall_impl; [eassumption|]); cbn.
  - intros u [Hu _]. apply look_default. eapply Forall_impl; [exact Hu|]. by intros c ->.
  - intros l He. by apply empty_views.
  - intros u [_ He]. by apply empty_views.
  - intros u [_ Hu]. apply look_default. eapply Forall_impl; [exact Hu|]. by intros s (_ & -> & _).
  - intros u [He _]. by apply empty_views.
  - intros b He. by apply empty_views.
  - intros l He. by apply empty_views.
Qed.

Lemma no_view_blank : blank no_view.
Proof. split_and!; intros; by apply look_default, Forall_nil. Qed.

Lemma fresh_orderly cs n : Forall fresh_node n → orderly cs n.
Proof.
  intros Hf. split.
  - apply blank_ok. intros k. unfold views, look. destruct (zlookup n k) as [d|] eqn:Hd.
    + apply fresh_node_blank, (Forall_zlookup _ _ _ _ Hf Hd).
    + apply no_view_blank.
  - eapply Forall_impl; [exact Hf|]. by intros d ((_ & _ & _ & Hq) & _).
Qed.

Lemma reachable_orderly cs n0 n :
  wired cs → Forall fresh_node n0 → rtc (disciplined cs) n0 n → orderly cs n.
Proof.
  intros Hw Hf%(fresh_orderly cs). induction 1 as [|n1 n2 n3 Hs _ IH]; [done|].
  apply IH. by eapply disciplined_orderly.
Qed.

(** ** What the code relies on *)

(** The flits of channel [w] of [c], oldest first: those the receiver buffers, those on the
    link, those in the sender's queue and those its input port [i] has in the switch. *)
Definition channel_flits (n : net) (c : chan) (w i : Z) : list flit_type :=
  vv_flits (nv_in (views n (ch_dst c)) (ch_in c) w) ++
  nv_link (views n (ch_dst c)) (ch_in c) w ++
  nv_queue (views n (ch_src c)) (ch_out c) w ++ nv_switch (views n (ch_src c)) i (ch_out c) w.

(** C3: packets stay together.  In every state the network reaches by waking routers and
    links in any order, with interfaces that keep the protocol at their ports, the flits of
    every channel and virtual channel, from the receiver's buffer back to the switch of the
    sender, are a contiguous piece of one packet, head first and tail last, that begins
    where the packet has been read to; they come from one input port of the sender; and a
    channel that is free for the next packet has none of them. *)
Theorem packet_integrity cs n0 n c w :
  wired cs → Forall fresh_node n0 → rtc (disciplined cs) n0 n → c ∈ cs →
  ∃ i p, (∀ j, j ≠ i → nv_switch (views n (ch_src c)) j (ch_out c) w = []) ∧
    read (phase_of (nv_in (views n (ch_dst c)) (ch_in c) w)) (channel_flits n c w i) = Some p ∧
    (nv_out (views n (ch_src c)) (ch_out c) w = IDLE_ → channel_flits n c w i = []).
Proof.
  intros Hw Hf Hr Hc. destruct (reachable_orderly _ _ _ Hw Hf Hr) as [Ha _].
  destruct (no_chan _ _ Ha c w Hc) as (i & [Hs _] & p & Hp & Hcase). exists i, p.
  assert (rc_flits (receiver_of (views n (ch_dst c)) (ch_in c) w) ++
          sd_flits (sender_of (views n (ch_src c)) (ch_out c) w i) = channel_flits n c w i) as E.
  { cbn. unfold channel_flits. by rewrite <- app_assoc. }
  rewrite E in Hp. split_and!; [done|exact Hp|]. intros Hid. cbn in Hcase. rewrite Hid in Hcase.
  destruct Hcase as (-> & _). by apply read_fresh in Hp as [_ ?].
Qed.

(** An output channel serves one packet at a time.  In every such state no two input
    channels of a router have been given the same channel of the same output port, and the
    one that has been is marked as taken. *)
Theorem output_channel_exclusive cs n0 n k o w i v i' v' :
  wired cs → Forall fresh_node n0 → rtc (disciplined cs) n0 n →
  holds (views n k) o w i v → holds (views n k) o w i' v' →
  i = i' ∧ v = v' ∧ nv_out (views n k) o w = ACTIVE_.
Proof.
  intros Hw Hf Hr H1 H2. destruct (reachable_orderly _ _ _ Hw Hf Hr) as [Ha _].
  by eapply net_exclusive.
Qed.

Lemma view_at n k d i u v x :
  zlookup n k = Some d → zlookup (Router.m_input_unit (nd_router d)) i = Some u →
  zlookup (InputUnit.virtualChannels u) v = Some x → nv_in (views n k) i v = view_of x.
Proof.
  intros Hd Hu Hx. rewrite (views_Some _ _ _ Hd). cbn. rewrite (look_Some _ _ _ _ _ Hu).
  unfold in_vc. by rewrite (look_Some _ _ _ _ _ Hx).
Qed.

Lemma link_at n k d i l f b :
  zlookup n k = Some d → zlookup (nd_in d) i = Some l →
  FlitBuffer.getTopFlit (NetworkLink.linkBuffer l) = Ok (f, b) →
  nv_link (views n k) i (flit_m_vc f) = flit_m_type f :: vc_types (flit_m_vc f) b.
Proof.
  intros Hd Hl Hf. rewrite (views_Some _ _ _ Hd). cbn. rewrite look_fmap.
  rewrite (look_Some _ _ _ _ _ Hl). cbn. rewrite (vc_types_getTopFlit _ _ _ _ Hf).
  by rewrite decide_True.
Qed.

(** The assertions on the states of channels cannot fail.  In every such state the flit
    that is next on a link into a router finds the channel it names in the state
    [InputUnit::wakeup] asserts, free for the head of a packet and active for the others;
    and when the flit that is next in a channel is a tail, the channel is empty behind it,
    as [SwitchAllocator::arbitrate_outports] asserts before it frees the channel. *)
Theorem channel_assertions_hold cs n0 n k d i u v x :
  wired cs → Forall fresh_node n0 → rtc (disciplined cs) n0 n →
  zlookup n k = Some d → zlookup (Router.m_input_unit (nd_router d)) i = Some u →
  zlookup (InputUnit.virtualChannels u) v = Some x →
  (∀ l f b, zlookup (nd_in d) i = Some l →
     FlitBuffer.getTopFlit (NetworkLink.linkBuffer l) = Ok (f, b) → flit_m_vc f = v →
     VirtualChannel.get_state x = if is_head (flit_m_type f) then IDLE_ else ACTIVE_) ∧
  (∀ f x' t, VirtualChannel.getTopFlit x = Ok (f, x') → is_tail (flit_m_type f) = true →
     VirtualChannel.isReady x' t = false).
Proof.
  intros Hw Hf Hr Hd Hu Hx. destruct (reachable_orderly _ _ _ Hw Hf Hr) as [Ha _].
  pose proof (view_at _ _ _ _ _ _ _ Hd Hu Hx) as Hv. split.
  - intros l f b Hl Hg <-. pose proof (link_at _ _ _ _ _ _ _ Hd Hl Hg) as Hlk.
    apply (net_arrival _ _ _ _ _ _ _ Ha) in Hlk. by rewrite Hv in Hlk.
  - intros f x' t Hg Ht. apply VirtualChannel.vc_getTopFlit_Ok in Hg as (Hfl & _).
    assert (flit_m_type <$> VirtualChannel.flits x' = []) as He.
    { apply (net_tail_last _ _ k i v (flit_m_type f) _ Ha); [|done].
      rewrite Hv. cbn. by rewrite Hfl. }
    apply fmap_nil_inv in He. unfold VirtualChannel.isReady, FlitBuffer.isReady.
    by unfold VirtualChannel.flits in He; rewrite He.
Qed.

End integrity.

(** ** Two routers in a row

    The routers of [TwoRouters]: the interface puts a packet of two flits on its link,
    router 0 sends the head and keeps the channel for the tail, and the link carries it. *)

Module IntegrityExample.
Import ExampleMachines TwoRouters.
#[local] Existing Instance machines.

Definition packet_flit (id : Z) : flit :=
  new_flit 0 id 0 0 (mkRoute 0 (dest 1 1) 0 0 1 1 0 false 0 0 0) 2 None 32 16 1000.

Definition packet_link : NetworkLink.t :=
  NetworkLink.with_buffer link
    (FlitBuffer.mk [packet_flit 0; packet_flit 1] INFINITE_).

Definition sent : net := get (set_in_link 0 0 packet_link start).

Definition halfway : net :=
  get (run [(1000, WakeRouter 0); (2000, WakeLink the_chan)] (Ok sent)).

Lemma edge_0 : edge_in [the_chan] 0 0.
Proof. by intros c ->%list_elem_of_singleton. Qed.

Lemma look_one {A B} (x : B) (f : A → B) a i :
  look x f [a] i = if decide (i = 0) then f a else x.
Proof.
  unfold look, zlookup. case_decide as E; [by subst|]. destruct (Z.leb_spec 0 i); [|done].
  destruct (Z.to_nat i) eqn:En; [lia|done].
Qed.

Lemma sent_in_ok v : in_ok (views sent 0) 0 v.
Proof.
  assert (views sent 0 = node_view_of
    (default (mkNode (Router.make 0 0 0 0 0 clock) [] []) (zlookup sent 0))) as ->.
  { apply views_Some. vm_compute. reflexivity. }
  set (d := default _ _). vm_compute in d. subst d.
  unfold in_ok, receiver_of, node_view_of, router_view, units_view.
  cbn [nv_in nv_link nv_free nd_router nd_in nd_credit Router.m_input_unit].
  rewrite look_fmap, !look_one, !decide_True by done. unfold in_vc. cbn [InputUnit.virtualChannels].
  rewrite look_one. destruct (decide (v = 0)) as [->|Hv].
  - exists (mkSender ACTIVE_ False [] 0), Complete. vm_compute. split; [reflexivity|tauto].
  - exists (mkSender IDLE_ False [] 0), Fresh. cbn. rewrite !decide_False by lia. split_and!; [reflexivity|reflexivity|reflexivity|tauto].
Qed.

Lemma sent_disciplined : disciplined [the_chan] start sent.
Proof.
  assert (set_in_link 0 0 packet_link start = Ok sent) as Hs by (vm_compute; reflexivity).
  apply disciplined_interface.
  - left. exists 0, 0, packet_link. split; [apply edge_0|exact Hs].
  - eapply set_in_link_edges; [apply (fresh_orderly _ _ start_fresh)|apply edge_0|exact Hs|].
    apply sent_in_ok.
Qed.

Lemma halfway_reachable : rtc (disciplined [the_chan]) start halfway.
Proof.
  eapply rtc_l; [exact sent_disciplined|].
  eapply rtc_l; [|eapply rtc_once].
  - eapply (disciplined_wake _ _ _ (env 1000) (WakeRouter 0)); [done|].
    vm_compute. reflexivity.
  - eapply (disciplined_wake _ _ _ (env 2000) (WakeLink the_chan)); [by left|].
    vm_compute. reflexivity.
Qed.

Lemma packet_integrity_witness :
  ∃ i p, read Fresh (channel_flits halfway the_chan 0 i) = Some p ∧
         channel_flits halfway the_chan 0 0 = [HEAD_].
Proof.
  destruct (packet_integrity [the_chan] start halfway the_chan 0 chan_wired start_fresh
    halfway_reachable (list_elem_of_here _ _)) as (i & p & _ & Hp & _).
  exists i, p. split; [exact Hp|vm_compute; reflexivity].
Defined.

Lemma halfway_holds : holds (views halfway 0) 0 0 0 0.
Proof. vm_compute. split_and!; [reflexivity|reflexivity|reflexivity|discriminate]. Qed.

Lemma output_channel_exclusive_witness :
  holds (views halfway 0) 0 0 0 0 ∧ nv_out (views halfway 0) 0 0 = ACTIVE_.
Proof.
  split; [exact halfway_holds|].
  apply (output_channel_exclusive [the_chan] start halfway 0 0 0 0 0 0 0
    chan_wired start_fresh halfway_reachable halfway_holds halfway_holds).
Defined.

Definition node_1 : node :=
  default (mkNode (Router.make 0 0 0 0 0 clock) [] []) (zlookup halfway 1).
Definition unit_1 : InputUnit.t :=
  default (InputUnit.make 0 EmptyString 0 0) (zlookup (Router.m_input_unit (nd_router node_1)) 0).
Definition vc_1 : VirtualChannel.t :=
  default VirtualChannel.make (zlookup (InputUnit.virtualChannels unit_1) 0).

Lemma channel_assertions_hold_witness :
  ∃ l f b, zlookup (nd_in node_1) 0 = Some l ∧
    FlitBuffer.getTopFlit (NetworkLink.linkBuffer l) = Ok (f, b) ∧ is_head (flit_m_type f) = true ∧
    VirtualChannel.get_state vc_1 = IDLE_.
Proof.
  destruct (channel_assertions_hold [the_chan] start halfway 1 node_1 0 unit_1 0 vc_1
    chan_wired start_fresh halfway_reachable) as [Ha _]; [vm_compute; reflexivity..|].
  destruct (zlookup (nd_in node_1) 0) as [l|] eqn:El; [|vm_compute in El; discriminate].
  destruct (FlitBuffer.getTopFlit (NetworkLink.linkBuffer l)) as [[f b]|] eqn:Ef;
    [|vm_compute in El; injection El as <-; vm_compute in Ef; discriminate].
  exists l, f, b. assert (flit_m_vc f = 0 ∧ is_head (flit_m_type f) = true) as [Hv Hh].
  { vm_compute in El. injection El as <-. vm_compute in Ef. injection Ef as <- <-.
    split; reflexivity. }
  split; [reflexivity|]. split; [exact Ef|]. split; [exact Hh|].
  rewrite (Ha l f b eq_refl Ef Hv), Hh. reflexivity.
Defined.

End IntegrityExample.
