(* ===== verification/ClosedNetwork.v ===== *)
(** * Routers and interfaces together

    The network of [CreditProtocol] with the network interfaces attached: a closed system,
    in which every flit comes from an interface and ends in one.  Routers are numbered from
    0 up; the interface at position [j] of [m_nis] has the number [-1 - j] as the end of a
    channel, so that a channel, with its network link and its credit link, may join two
    routers or a router and an interface.  The system evolves by wake-ups of routers, of
    interfaces and of links, in any order and at any ticks, and by what other objects do to
    an interface: the network hands it records of the trace, and the coherence controllers
    use its message buffers. *)

From S2P Require Import Prelude.
From S2P Require Import IntMath.
From S2P Require Import NetDest.
From S2P Require Import Flit.
From S2P Require Import VirtualChannels.
From S2P Require Import Routing.
From S2P Require Import Clocking.
From S2P Require Import Links.
From S2P Require Import Pipeline.
From S2P Require Import MessageBuffer.
From S2P Require Import Statistics.
From S2P Require Import NetworkInterface.
From S2P Require Import CreditProtocol.

Section closed_network.
  Context `{MachineTypes}.

(** An interface with the network links its input ports consume and the credit links its
    output ports consume. *)
Record station := mkStation {
  st_ni : NetworkInterface.t;
  st_in : list NetworkLink.t;
  st_credit : list NetworkLink.t;
}.

(** The statistics and the messages are shared by the interfaces. *)
Record system := mkSystem {
  sy_routers : net;
  sy_stations : list station;
  sy_stats : NetStats.t;
  sy_store : Store;
}.

Definition with_routers (s : system) (n : net) : system :=
  mkSystem n (sy_stations s) (sy_stats s) (sy_store s).

Definition with_stations (s : system) (l : list station) : system :=
  mkSystem (sy_routers s) l (sy_stats s) (sy_store s).

(** The position of an interface that is the end of a channel. *)
Definition station_of (k : Z) : Z := -1 - k.

(** A change of the routers, of an interface. *)
Definition on_routers (f : net → result net) (s : system) : result system :=
  n ← f (sy_routers s); Ok (with_routers s n).

Definition on_station (k : Z) (f : station → result station) (s : system) : result system :=
  l ← vupd (sy_stations s) (station_of k) f; Ok (with_stations s l).

(** ** The ports of an interface *)

Definition ni_queue (o : Z) (st : station) : result FlitBuffer.t :=
  p ← vget (NetworkInterface.outPorts (st_ni st)) o; Ok (NetworkInterface.outFlitQueue p).

Definition set_ni_queue (o : Z) (q : FlitBuffer.t) (st : station) : result station :=
  let n := st_ni st in
  ps ← vupd (NetworkInterface.outPorts n) o
         (λ p, Ok (NetworkInterface.with_outFlitQueue p q));
  Ok (mkStation (NetworkInterface.with_ports n ps (NetworkInterface.inPorts n))
        (st_in st) (st_credit st)).

Definition ni_credits_out (i : Z) (st : station) : result FlitBuffer.t :=
  p ← vget (NetworkInterface.inPorts (st_ni st)) i; Ok (NetworkInterface.outCreditQueue p).

Definition with_outCreditQueue (p : NetworkInterface.InputPort) (q : FlitBuffer.t)
    : NetworkInterface.InputPort :=
  NetworkInterface.mkInputPort (NetworkInterface.ip_vnets p) q
    (NetworkInterface.ip_bitWidth p) (NetworkInterface.m_stall_queue p)
    (NetworkInterface.messageEnqueuedThisCycle p).

Definition set_ni_credits_out (i : Z) (q : FlitBuffer.t) (st : station) : result station :=
  let n := st_ni st in
  ps ← vupd (NetworkInterface.inPorts n) i (λ p, Ok (with_outCreditQueue p q));
  Ok (mkStation (NetworkInterface.with_ports n (NetworkInterface.outPorts n) ps)
        (st_in st) (st_credit st)).

Definition set_ni_link (i : Z) (l : NetworkLink.t) (st : station) : result station :=
  ls ← vset (st_in st) i l; Ok (mkStation (st_ni st) ls (st_credit st)).

Definition set_ni_credit_link (o : Z) (l : NetworkLink.t) (st : station) : result station :=
  ls ← vset (st_credit st) o l; Ok (mkStation (st_ni st) (st_in st) ls).

(** ** The two ends of a channel *)

Definition of_station {A} (k : Z) (f : station → result A) (s : system) : result A :=
  st ← vget (sy_stations s) (station_of k); f st.

Definition get_queue (k o : Z) (s : system) : result FlitBuffer.t :=
  if 0 <=? k then get_outBuffer k o (sy_routers s) else of_station k (ni_queue o) s.

Definition set_queue (k o : Z) (q : FlitBuffer.t) (s : system) : result system :=
  if 0 <=? k then on_routers (set_outBuffer k o q) s else on_station k (set_ni_queue o q) s.

Definition get_link (k i : Z) (s : system) : result NetworkLink.t :=
  if 0 <=? k then get_in_link k i (sy_routers s)
  else of_station k (λ st, vget (st_in st) i) s.

Definition set_link (k i : Z) (l : NetworkLink.t) (s : system) : result system :=
  if 0 <=? k then on_routers (set_in_link k i l) s else on_station k (set_ni_link i l) s.

Definition get_credits (k i : Z) (s : system) : result FlitBuffer.t :=
  if 0 <=? k then get_creditQueue k i (sy_routers s) else of_station k (ni_credits_out i) s.

Definition set_credits (k i : Z) (q : FlitBuffer.t) (s : system) : result system :=
  if 0 <=? k then on_routers (set_creditQueue k i q) s
  else on_station k (set_ni_credits_out i q) s.

Definition get_back_link (k o : Z) (s : system) : result NetworkLink.t :=
  if 0 <=? k then get_credit_link k o (sy_routers s)
  else of_station k (λ st, vget (st_credit st) o) s.

Definition set_back_link (k o : Z) (l : NetworkLink.t) (s : system) : result system :=
  if 0 <=? k then on_routers (set_credit_link k o l) s
  else on_station k (set_ni_credit_link o l) s.

(** ** Wake-ups *)

(** The network link of a channel moves a flit of its sender's queue, the credit link a
    credit of its receiver's queue. *)
Definition wake_channel (cur : Tick) (c : chan) (s : system) : result system :=
  q ← get_queue (ch_src c) (ch_out c) s;
  l ← get_link (ch_dst c) (ch_in c) s;
  '(l, q, _) ← NetworkLink.wakeup cur l (Some q);
  s ← set_link (ch_dst c) (ch_in c) l s;
  set_queue (ch_src c) (ch_out c) q s.

Definition wake_channel_credit (cur : Tick) (c : chan) (s : system) : result system :=
  q ← get_credits (ch_dst c) (ch_in c) s;
  l ← get_back_link (ch_src c) (ch_out c) s;
  '(l, q, _) ← NetworkLink.wakeup cur l (Some q);
  s ← set_back_link (ch_src c) (ch_out c) l s;
  set_credits (ch_dst c) (ch_in c) q s.

Definition wake_station (e : NiEnv) (j : Z) (s : system) : result system :=
  st ← vget (sy_stations s) j;
  '(n, stats, store, ibs, cbs) ←
    NetworkInterface.wakeup e (st_ni st) (sy_stats s) (sy_store s)
      (NetworkLink.linkBuffer <$> st_in st) (NetworkLink.linkBuffer <$> st_credit st);
  l ← vset (sy_stations s) j
        (mkStation n (with_buffers (st_in st) ibs) (with_buffers (st_credit st) cbs));
  Ok (mkSystem (sy_routers s) l stats store).

(** The interface at position [j] becomes [f] of it. *)
Definition on_ni (j : Z) (f : NetworkInterface.t → result NetworkInterface.t) (s : system)
    : result system :=
  l ← vupd (sy_stations s) j
        (λ st, n ← f (st_ni st); Ok (mkStation n (st_in st) (st_credit st)));
  Ok (with_stations s l).

Inductive system_step (cs : list chan) (s s' : system) : Prop :=
| wakes_router e k :
    on_routers (wake_router e k) s = Ok s' → system_step cs s s'
| wakes_station e j : wake_station e j s = Ok s' → system_step cs s s'
| wakes_channel cur c :
    c ∈ cs → wake_channel cur c s = Ok s' → system_step cs s s'
| wakes_channel_credit cur c :
    c ∈ cs → wake_channel_credit cur c s = Ok s' → system_step cs s s'
| gets_record cur j r :
    on_ni j (λ n, NetworkInterface.enqueueTracePacket cur n r) s = Ok s' → system_step cs s s'
| gets_callback cur j :
    on_ni j (NetworkInterface.dequeueCallback cur) s = Ok s' → system_step cs s s'
| uses_buffers j ins outs store s1 :
    on_ni j (λ n, Ok (NetworkInterface.with_nodes n ins outs
                        (NetworkInterface.m_stall_count n))) s = Ok s1 →
    s' = mkSystem (sy_routers s1) (sy_stations s1) (sy_stats s1) store →
    system_step cs s s'.

End closed_network.
