(* ===== verification/WormholeInterface.v ===== *)
(** * Interfaces obey the virtual-channel protocol

    The view of a network interface with one output port, the links into it and the credit
    links into it, and the proof that what [NetworkInterface::wakeup] does is a sequence of
    the transitions of [Wormhole], in a network in which all packets have one flit.  This is
    the case when every flit comes from an interface: the only flits
    [NetworkInterface::transferTraceRecordsToInjectionQueue] makes are heads and tails at
    once. *)

From S2P Require Import Prelude.
From S2P Require Import IntMath.
From S2P Require Import NetDest.
From S2P Require Import Flit.
From S2P Require Import VirtualChannels.
From S2P Require Import Clocking.
From S2P Require Import Links.
From S2P Require Import MessageBuffer.
From S2P Require Import Statistics.
From S2P Require Import NetworkInterface.
From S2P Require Import InterfaceFlow.
From S2P Require Import Pipeline.
From S2P Require Import CreditProtocol.
From S2P Require Import Wormhole.
From S2P Require Import WormholeRouter.

Import NetworkInterface.

(** ** The view of an interface *)

Definition types_of (fs : list flit) : list flit_type := flit_m_type <$> fs.

Definition of_vc (v : Z) (fs : list flit) : list flit := filter (λ f, flit_m_vc f = v) fs.

Lemma of_vc_app v l l' : of_vc v (l ++ l') = of_vc v l ++ of_vc v l'.
Proof. apply filter_app. Qed.

Lemma of_vc_cons v f l : of_vc v (f :: l) = (if decide (flit_m_vc f = v) then [f] else []) ++ of_vc v l.
Proof. unfold of_vc. rewrite filter_cons. by case_decide. Qed.

(** A channel of an input port is taken while a flit of it is stalled. *)
Definition stall_view (v : Z) (p : InputPort) : vc_view :=
  match types_of (of_vc v (m_stall_queue p)) with
  | [] => no_vc
  | l => mkVcView ACTIVE_ (-1) (-1) l
  end.

(** The flits that wait in the queue of an output channel are what a router has in its
    switch. *)
Definition ni_view (n : t) (ibs cbs : list FlitBuffer.t) : node_view :=
  mkNodeView (λ i v, look no_vc (stall_view v) (inPorts n) i)
    (λ i v, look [] (vc_types v) ibs i)
    (λ i v, look 0%nat (λ p, frees v (outCreditQueue p)) (inPorts n) i)
    (λ o w, if decide (o = 0) then look IDLE_ OutVcState.m_vc_state (outVcState n) w else IDLE_)
    (λ o w, look [] (λ p, vc_types w (outFlitQueue p)) (outPorts n) o)
    (λ i o w, if decide (i = 0 ∧ o = 0)
              then look [] (λ q, types_of (FlitBuffer.m_buffer q)) (niOutVcs n) w else [])
    (λ o w, look 0%nat (frees w) cbs o).

(** One output port; the flits in the queue of a channel carry its number; and the flits
    to be injected are packets of their own. *)
Record ni_ok (n : t) : Prop := {
  ni_one_port : length (outPorts n) = 1%nat;
  ni_tagged : tagged n;
  ni_single : single (types_of (m_trace_injection_queue n));
}.

Lemma same_ni_units_view n n' ibs cbs : same_units n n' → ni_view n' ibs cbs = ni_view n ibs cbs.
Proof. unfold ni_view. by intros (-> & -> & -> & ->). Qed.

Lemma same_units_ok n n' :
  same_units n n' → m_trace_injection_queue n' = m_trace_injection_queue n → ni_ok n → ni_ok n'.
Proof.
  intros (Ho & _ & _ & Hq) Hi [H1 H2 H3]. split; [by rewrite Ho| |by rewrite Hi].
  unfold tagged. by rewrite Hq.
Qed.

(** ** The injection queue *)

Section injection.
  Context `{MachineTypes}.

Lemma calculate_from_queue cur vnet k n r n' :
  calculate_from cur vnet k n = Ok (r, n') →
  m_trace_injection_queue n' = m_trace_injection_queue n ∧
  ∀ vc, r = Some vc → look IDLE_ OutVcState.m_vc_state (outVcState n') vc = IDLE_.
Proof.
  revert n. induction k as [|k IH]; intros n; cbn [calculate_from]; [by intros [= <- <-]|].
  intros Hc. step_bind Hc as d _. step_bind Hc as al _. step_bind Hc as o Ho%vget_Ok.
  destruct (OutVcState.isInState o IDLE_ cur) eqn:E; [|by apply IH in Hc].
  step_bind Hc as bu _. injection Hc as <- <-. split; [done|]. intros vc [= <-].
  rewrite (look_Some _ _ _ _ _ Ho). by apply andb_true_iff in E as [?%bool_decide_eq_true _].
Qed.

Lemma calculateVC_queue cur n vnet vc n' :
  calculateVC cur n vnet = Ok (vc, n') →
  m_trace_injection_queue n' = m_trace_injection_queue n ∧
  (vc ≠ -1 → look IDLE_ OutVcState.m_vc_state (outVcState n') vc = IDLE_).
Proof.
  unfold calculateVC. intros Hc. step_bind Hc as [r n1] (Hq & Hr)%calculate_from_queue.
  destruct r as [w|]; [injection Hc as <- <-; auto|].
  step_bind Hc as b _. step_bind Hc as bu _. step_bind Hc as [] _. by injection Hc as <- <-.
Qed.

Definition rr_single (st : rr_state) : Prop := single (types_of st.2).

Lemma emit_single cur o recs i r st st' :
  rr_single st → emit cur o recs i r st = Ok st' → rr_single st'.
Proof.
  destruct st as [[routes s] q]. intros Hs. cbn [emit]. intros He. step_bind He as rc _.
  destruct (i <? _); [|by injection He as <-]. step_bind He as route _. step_bind He as rts _.
  destruct (NetStats.getNextPacketID s) as [id s1]. injection He as <-.
  unfold rr_single, types_of. cbn. rewrite fmap_app. by apply single_snoc.
Qed.

Lemma round_robin_single cur o recs st st' :
  rr_single st → round_robin cur o recs st = Ok st' → rr_single st'.
Proof.
  intros Hs. apply (for_range_inv (λ _, rr_single)); [|done]. intros i t t' _ Ht.
  apply (for_range_inv (λ _, rr_single)); [|done]. intros r u u' _. apply emit_single.
Qed.

Lemma transfer_ok e n s n' s' :
  transferTraceRecordsToInjectionQueue e n s = Ok (n', s') → ni_ok n → ni_ok n'.
Proof.
  intros Ht Hok. pose proof (transfer_units _ _ _ _ _ Ht) as (Ho & _ & _ & Hq).
  unfold transferTraceRecordsToInjectionQueue in Ht.
  destruct (m_trace_record_queue n) as [|first q]; [by injection Ht as <- <-|].
  destruct (same_time _ _) as [recs rest]. step_bind Ht as nx _.
  destruct (getOutportForVnet n (tr_vnet nx)); [|done]. step_bind Ht as o _.
  step_bind Ht as rs _. step_bind Ht as [[rs' s1] q1] Hr. injection Ht as <- <-.
  destruct Hok as [H1 H2 H3]. split; [done|done|]. cbn.
  by apply (round_robin_single _ _ _ (rs, s, m_trace_injection_queue n) _ H3) in Hr.
Qed.

End injection.

(** ** Sending *)

(** The single output port. *)
Lemma one_port n p (o : OutputPort) : ni_ok n → zlookup (outPorts n) p = Some o → p = 0.
Proof.
  intros [Hl _ _] Ho%zlookup_lt. unfold zlen in Ho. rewrite Hl in Ho. lia.
Qed.

Lemma one_port_outs n outs p (f : OutputPort → result OutputPort) :
  ni_ok n → vupd (outPorts n) p f = Ok outs → p = 0 ∧ length outs = 1%nat.
Proof.
  intros Hn Hu. pose proof (vupd_same_length _ _ _ _ Hu) as Hl. unfold zlen in Hl.
  rewrite (ni_one_port _ Hn) in Hl. split; [|lia].
  unfold vupd in Hu. step_bind Hu as o Ho%vget_Ok. by eapply one_port.
Qed.

Lemma injectTraceFlit_step cur n s vnet vc n' s' ibs cbs :
  ni_ok n → look IDLE_ OutVcState.m_vc_state (outVcState n) vc = IDLE_ →
  injectTraceFlit cur n s vnet vc = Ok (n', s') →
  ni_ok n' ∧ node_step (ni_view n ibs cbs) (ni_view n' ibs cbs).
Proof.
  intros Hn Hid Hi. destruct (injectTraceFlit_sends _ _ _ _ _ _ _ Hi (ni_tagged _ Hn)) as (Ht & _).
  unfold injectTraceFlit in Hi. step_bind Hi as f Hf%determinate_Ok.
  destruct Hn as [H1 H2 H3]. destruct (m_trace_injection_queue n) as [|g fs]; [done|].
  injection Hf as ->. apply single_cons in H3 as [Hty H3].
  step_bind Hi as vcs Hvcs. step_bind Hi as times _. step_bind Hi as os Hos.
  step_bind Hi as s1 _. step_bind Hi as s2 _. injection Hi as <- <-. split; [by split|].
  unfold vupd in Hvcs, Hos. cbn in Hvcs, Hos.
  step_bind Hvcs as q Hq%vget_Ok. step_bind Hos as o Ho%vget_Ok.
  apply vset_replaced in Hvcs, Hos.
  apply (step_send _ _ 0 0 vc); cbn; try done; try by intros ? ?.
  - intros o' w. cbn. destruct (decide (o' = 0)) as [->|Hne]; [|by rewrite decide_False by naive_solver].
    rewrite (look_replaced _ _ _ _ _ _ w Hos).
    destruct (decide (w = vc)) as [->|Hne]; [by rewrite decide_True|by rewrite decide_False by naive_solver].
  - intros i o' w. cbn. rewrite (look_Some _ _ _ _ _ Hq).
    destruct (decide (i = 0 ∧ o' = 0)) as [[-> ->]|Hne]; [|by rewrite decide_False by naive_solver].
    rewrite (look_replaced _ _ _ _ _ _ w Hvcs).
    destruct (decide (w = vc)) as [->|Hne]; [|by rewrite decide_False by naive_solver].
    rewrite decide_True by done. unfold types_of. cbn. rewrite fmap_app. cbn. by rewrite Hty.
Qed.

Lemma scheduleFlit_effect cur n f n' :
  ni_ok n → scheduleFlit cur n f = Ok n' →
  ∃ o outs, zlookup (outPorts n) 0 = Some o ∧ replaced (outPorts n) 0
    (with_outFlitQueue o (FlitBuffer.insert (outFlitQueue o) f)) outs ∧ length outs = 1%nat ∧
  ∃ ev, n' = schedule_link (with_ports n outs (inPorts n)) ev.
Proof.
  intros Hn. unfold scheduleFlit. destruct (getOutportForVnet n _) as [p|]; [|done].
  intros Hs. step_bind Hs as outs Ho. injection Hs as <-.
  destruct (one_port_outs _ _ _ _ Hn Ho) as [-> Hl]. unfold vupd in Ho.
  step_bind Ho as o Hlk%vget_Ok. step_bind Ho as o' Ho'. injection Ho' as <-.
  apply vset_replaced in Ho. eauto 10.
Qed.

Lemma send_from_step cur n port vc n' ibs cbs :
  ni_ok n → send_from cur n port vc = Ok n' →
  ni_ok n' ∧ node_step (ni_view n ibs cbs) (ni_view n' ibs cbs).
Proof.
  intros Hn Hs. destruct (send_from_sends _ _ _ _ _ Hs (ni_tagged _ Hn)) as (Ht & _).
  unfold send_from in Hs. step_bind Hs as outs Houts. step_bind Hs as os Hos.
  step_bind Hs as q Hq%vget_Ok. step_bind Hs as [f q'] Hf. step_bind Hs as vcs Hvcs%vset_replaced.
  step_bind Hs as n1 Hn1. destruct (one_port_outs _ _ _ _ Hn Houts) as [-> Hl].
  apply FlitBuffer.getTopFlit_Ok in Hf as [Hf _].
  assert (flit_m_vc f = vc) as Hfv.
  { pose proof (ni_tagged _ Hn vc q Hq) as Hall. rewrite Hf in Hall. by apply Forall_cons in Hall as [? _]. }
  set (n0 := with_vcs _ vcs _) in Hn1.
  assert (ni_ok n0) as Hn0.
  { split; [done| |apply (ni_single _ Hn)]. intros v g Hg. cbn in Hg.
    rewrite Hvcs in Hg. case_decide; [|by apply (ni_tagged _ Hn)]. injection Hg as <-. subst v.
    pose proof (ni_tagged _ Hn vc q Hq) as Hall. rewrite Hf in Hall. by apply Forall_cons in Hall as [_ ?]. }
  destruct (scheduleFlit_effect _ _ _ _ Hn0 Hn1) as (o & outs' & Ho & Hro & Hl' & ev & ->).
  assert (outPorts n' = outs' ∧ inPorts n' = inPorts n ∧ outVcState n' = os ∧ niOutVcs n' = vcs ∧
    m_trace_injection_queue n' = m_trace_injection_queue n) as (Eo & Ei & Es & Ev & Et).
  { destruct (is_tail _); [step_bind Hs as times _|]; by injection Hs as <-. }
  split.
  { split; [by rewrite Eo|done|by rewrite Et; apply (ni_single _ Hn)]. }
  unfold vupd in Houts. step_bind Houts as o0 Ho0%vget_Ok. step_bind Houts as o0' Eo0.
  injection Eo0 as <-. apply vset_replaced in Houts.
  pose proof (replaced_eq _ _ _ _ Houts) as Ho'. change (outPorts n0) with outs in Ho, Hro.
  rewrite Ho' in Ho. injection Ho as <-. cbn in Hro. pose proof (replaced_trans _ _ _ _ _ _ Houts Hro) as Hro'.
  apply (step_traverse _ _ 0 0 vc (flit_m_type f) (types_of (FlitBuffer.m_buffer q'))); cbn;
    rewrite ?Eo, ?Ei, ?Es, ?Ev; try done; try by intros ? ?.
  - rewrite (look_Some _ _ _ _ _ Hq). unfold types_of. by rewrite Hf.
  - intros i o' w. cbn. destruct (decide (i = 0 ∧ o' = 0)) as [[-> ->]|Hne];
      [|by rewrite decide_False by naive_solver].
    rewrite (look_replaced _ _ _ _ _ _ w Hvcs).
    destruct (decide (w = vc)) as [->|Hne]; [by rewrite decide_True|by rewrite decide_False by naive_solver].
  - rewrite (look_Some _ _ _ _ _ Ho0).
    eapply (look_upd2 _ (λ w p, vc_types w (outFlitQueue p))); [exact Hro'|exact Ho0|].
    intros w. cbn [with_outFlitQueue outFlitQueue set_vcRoundRobin].
    rewrite vc_types_insert. cbn [set_time flit_m_vc flit_m_type]. rewrite Hfv.
    destruct (decide (w = vc)) as [->|Hne]; [by rewrite decide_True|].
    rewrite decide_False by naive_solver. apply app_nil_r.
  - intros o' w. cbn. case_decide; [|done].
    unfold vupd in Hos. step_bind Hos as s Hs0%vget_Ok. step_bind Hos as s' Hs'.
    apply vset_replaced in Hos. eapply look_same; [exact Hos|exact Hs0|].
    by apply OutVcState.decrement_credit_Ok in Hs' as (_ & _ & _ & ? & _).
Qed.

(** ** Operations that leave the flits alone *)

(** Neither the ports and channels change, nor the flits to be injected. *)
Definition same_flits (n n' : t) : Prop :=
  same_units n n' ∧ m_trace_injection_queue n' = m_trace_injection_queue n.

#[export] Instance same_flits_preorder : PreOrder same_flits.
Proof.
  split; [by intros n|]. intros n1 n2 n3 [U1 Q1] [U2 Q2]. split; [by etransitivity|congruence].
Qed.

Lemma same_flits_ok n n' : same_flits n n' → ni_ok n → ni_ok n'.
Proof. intros [Hu Hq]. by apply same_units_ok. Qed.

Section same_flits.
  Context `{MachineTypes}.

Lemma deliver_flits e n vnet m n' : deliver e n vnet m = Ok n' → same_flits n n'.
Proof.
  intros Hd. split; [by eapply deliver_units|].
  unfold deliver, set_out_buffer in Hd. by inv_result.
Qed.

Lemma set_out_buffer_flits n vnet b n' : set_out_buffer n vnet b = Ok n' → same_flits n n'.
Proof.
  intros Hd. split; [by eapply set_out_buffer_units|]. unfold set_out_buffer in Hd. by inv_result.
Qed.

Lemma slot_available_flits e n vnet ok n' : slot_available e n vnet = Ok (ok, n') → same_flits n n'.
Proof.
  intros Hs. split; [by eapply slot_available_units|]. unfold slot_available, set_out_buffer in Hs.
  step_bind Hs as b _. destruct (MessageBuffer.areNSlotsAvailable _ _ _) as [ok1 b1]. by inv_result.
Qed.

Lemma add_stall_flits n vnet k n' : add_stall n vnet k = Ok n' → same_flits n n'.
Proof.
  intros Hs. split; [by eapply add_stall_units|]. unfold add_stall in Hs. by inv_result.
Qed.

Lemma unregister_flits n n' vnet (count : Z) :
  (if count =? 0 then
     b ← out_buffer n vnet;
     set_out_buffer n vnet (MessageBuffer.unregisterDequeueCallback b)
   else Ok n) = Ok n' → same_flits n n'.
Proof.
  case_match; [|by intros [= <-]]. intros H1. step_bind H1 as b _. by eapply set_out_buffer_flits.
Qed.

Lemma scheduleEvent_flits cur n c n' : scheduleEvent cur n c = Ok n' → same_flits n n'.
Proof.
  intros Hs. split; [by eapply scheduleEvent_units|]. unfold scheduleEvent in Hs. by inv_result.
Qed.

Lemma in_ready_flits e n b r n' : in_ready e n b = Ok (r, n') → same_flits n n'.
Proof.
  unfold in_ready. intros H1. step_bind H1 as [rd ag] _. step_bind H1 as n1 Hn.
  injection H1 as <- <-. destruct ag; [by eapply scheduleEvent_flits|by injection Hn as <-].
Qed.

Lemma any_message_flits e bs n r n' : any_message e bs n = Ok (r, n') → same_flits n n'.
Proof.
  revert n. induction bs as [|[b|] bs IH]; intros n H1; cbn [any_message] in H1.
  - by injection H1 as <- <-.
  - step_bind H1 as [rd n1] Hr%in_ready_flits. etransitivity; [exact Hr|].
    destruct rd; [by injection H1 as <- <-|by eapply IH].
  - by eapply IH.
Qed.

Lemma checkReschedule_flits e n ib cb n' : checkReschedule e n ib cb = Ok n' → same_flits n n'.
Proof.
  unfold checkReschedule. intros H1. step_bind H1 as [w n1] Hw%any_message_flits.
  etransitivity; [exact Hw|]. case_in H1; [by eapply scheduleEvent_flits|by injection H1 as <-].
Qed.

Lemma credit_out_flits cur i n n' : credit_out cur i n = Ok n' → same_flits n n'.
Proof. unfold credit_out. intros H1. step_bind H1 as p _. case_in H1; by injection H1 as <-. Qed.

Lemma calculateVC_flits cur n vnet vc n' : calculateVC cur n vnet = Ok (vc, n') → same_flits n n'.
Proof.
  intros Hc. split; [by eapply calculateVC_units|]. by apply calculateVC_queue in Hc as [? _].
Qed.

Lemma flitisize_all_flits e o m vnet k many ds n s st ok n' s' st' :
  flitisize_all e o m vnet k many ds (n, s, st) = Ok (ok, (n', s', st')) → same_flits n n'.
Proof.
  revert n s st. induction ds as [|d ds IH]; intros n s st H1; cbn [flitisize_all] in H1.
  - by injection H1 as <- <- <- <-.
  - step_bind H1 as [vc n1] Hc%calculateVC_flits. etransitivity; [exact Hc|].
    destruct (vc =? -1); [by injection H1 as <- <- <- <-|].
    step_bind H1 as [[n2 s2] st2] H2. etransitivity; [|by eapply IH].
    unfold flitisize_one in H2. step_bind H2 as msg _. step_bind H2 as [dest st3] _.
    step_bind H2 as dr _. step_bind H2 as s3 _. step_bind H2 as s4 _.
    destruct (NetStats.getNextPacketID s4) as [pid s5]. step_bind H2 as s6 _.
    step_bind H2 as n3 Hn3. injection H2 as <- <- <-.
    unfold magicSend in Hn3. case_in Hn3; [by eapply deliver_flits|by injection Hn3 as <-].
Qed.

Lemma take_messages_flits e vnet k n s st n' s' st' :
  take_messages e vnet k (n, s, st) = Ok (n', s', st') → same_flits n n'.
Proof.
  revert vnet n s st. induction k as [|k IH]; intros vnet n s st H1; cbn [take_messages] in H1.
  - by injection H1 as <- <- <-.
  - step_bind H1 as ob _. destruct ob as [b|]; [|by eapply IH].
    step_bind H1 as [rd n1] Hr%in_ready_flits. etransitivity; [exact Hr|].
    destruct rd; [|by eapply IH]. step_bind H1 as m _.
    step_bind H1 as [ok [[n2 s2] st2]] Hf.
    assert (same_flits n1 n2) as Hf'.
    { unfold flitisizeMessage in Hf. step_bind Hf as msg _. step_bind Hf as ds _.
      destruct (getOutportForVnet n1 vnet); [|done]. step_bind Hf as o _.
      by eapply flitisize_all_flits. }
    etransitivity; [exact Hf'|]. destruct ok; [|by injection H1 as <- <- <-].
    step_bind H1 as [[dl b1] cb] _. step_bind H1 as ins _.
    etransitivity; [|apply (IH _ _ _ _ H1)]. by destruct cb.
Qed.

End same_flits.

(** ** Receiving *)

(** Input port [i], which is [p], becomes [p']; nothing else changes. *)
Record port_becomes (n : t) (i : Z) (p p' : InputPort) (n' : t) : Prop := {
  pb_port : zlookup (inPorts n) i = Some p;
  pb_ports : replaced (inPorts n) i p' (inPorts n');
  pb_outs : outPorts n' = outPorts n;
  pb_states : outVcState n' = outVcState n;
  pb_vcs : niOutVcs n' = niOutVcs n;
  pb_queue : m_trace_injection_queue n' = m_trace_injection_queue n;
}.

Lemma port_becomes_trans n i p p1 n1 p1' p2 n2 :
  port_becomes n i p p1 n1 → port_becomes n1 i p1' p2 n2 →
  p1' = p1 ∧ port_becomes n i p p2 n2.
Proof.
  intros [A1 A2 A3 A4 A5 A6] [B1 B2 B3 B4 B5 B6].
  rewrite (replaced_eq _ _ _ _ A2) in B1. injection B1 as ->. split; [done|].
  split; [done|by eapply replaced_trans|congruence..].
Qed.

Lemma same_flits_becomes n i p n' :
  same_flits n n' → zlookup (inPorts n) i = Some p → port_becomes n i p p n'.
Proof.
  intros [(Ho & Hi & Hs & Hv) Hq] Hp. split; [done| |done..]. rewrite Hi. by apply replaced_self.
Qed.

Lemma upd_inport_becomes n i f n' :
  upd_inport n i f = Ok n' → ∃ p, port_becomes n i p (f p) n'.
Proof.
  unfold upd_inport, vupd. intros Hu. step_bind Hu as ins Hi. injection Hu as <-.
  step_bind Hi as p Hp%vget_Ok. step_bind Hi as p' Hp'. injection Hp' as <-. exists p.
  apply vset_replaced in Hi. by split.
Qed.

Lemma port_becomes_ok n i p p' n' : port_becomes n i p p' n' → ni_ok n → ni_ok n'.
Proof.
  intros [_ _ Ho Hs Hv Hq] [H1 H2 H3]. split; [by rewrite Ho| |by rewrite Hq].
  unfold tagged. by rewrite Hv.
Qed.

(** The flits a port stalls and the freeing credits it owes are all the network sees. *)
Lemma port_becomes_same n i p p' n' ibs cbs :
  port_becomes n i p p' n' → (∀ v, stall_view v p' = stall_view v p) →
  (∀ v, frees v (outCreditQueue p') = frees v (outCreditQueue p)) →
  node_step (ni_view n ibs cbs) (ni_view n' ibs cbs).
Proof.
  intros [Hp Hr Ho Hs Hv _] Hst Hfr. apply step_stay; cbn; rewrite ?Ho, ?Hs, ?Hv; try by intros ? ?.
  - intros i' v. cbn. by eapply look_same.
  - intros i' v. cbn. by eapply look_same.
Qed.

Lemma stall_view_nil v p :
  of_vc v (m_stall_queue p) = [] ↔ stall_view v p = no_vc.
Proof.
  unfold stall_view, types_of. destruct (of_vc _ _) as [|f fs]; cbn; naive_solver.
Qed.

(** The credit that frees channel [v]. *)
Lemma frees_credit v' q route v cur :
  frees v' (FlitBuffer.insert q (new_Credit route v true cur)) =
    if decide (v' = v) then S (frees v q) else frees v' q.
Proof.
  rewrite frees_insert. cbn. destruct (decide (v' = v)) as [->|Hne].
  - rewrite decide_True by done. lia.
  - rewrite decide_False by naive_solver. lia.
Qed.

(** A stalled flit leaves for the coherence controller. *)
Lemma eject_good cs a k n i p p' n' f before rest route cur ibs cbs :
  good cs a k (ni_view n ibs cbs) → port_becomes n i p p' n' →
  m_stall_queue p = before ++ f :: rest → m_stall_queue p' = before ++ rest →
  outCreditQueue p' =
    FlitBuffer.insert (outCreditQueue p) (new_Credit route (flit_m_vc f) true cur) →
  good cs a k (ni_view n' ibs cbs).
Proof.
  intros Hg Hpb Hq Hq' Hc. set (v := flit_m_vc f) in *. destruct Hpb as [Hp Hr Ho Hs Hv _].
  assert (nv_in (ni_view n ibs cbs) i v = stall_view v p) as Hin.
  { cbn. by rewrite (look_Some _ _ _ _ _ Hp). }
  assert (of_vc v (before ++ f :: rest) = of_vc v before ++ f :: of_vc v rest) as HF.
  { rewrite of_vc_app, of_vc_cons. by rewrite decide_True. }
  assert (of_vc v before = [] ∧ of_vc v rest = [] ∧ flit_m_type f = HEAD_TAIL_) as (Hb & Hrs & Hty).
  { assert (vv_flits (stall_view v p) = types_of (of_vc v (before ++ f :: rest))) as E.
    { unfold stall_view. rewrite Hq. by destruct (types_of _). }
    rewrite HF in E. unfold types_of in E. rewrite fmap_app in E.
    destruct (of_vc v before) as [|g gs]; cbn in E; rewrite <- Hin in E.
    - apply (good_one_flit _ _ _ _ _ _ Hg) in E as [-> E]. by apply fmap_nil_inv in E.
    - apply (good_one_flit _ _ _ _ _ _ Hg) in E as [_ E]. by destruct gs. }
  assert (stall_view v p = mkVcView ACTIVE_ (-1) (-1) [HEAD_TAIL_]) as Hsv.
  { unfold stall_view. rewrite Hq. rewrite HF, Hb, Hrs. unfold types_of. cbn. by rewrite Hty. }
  eapply good_step; [exact Hg|].
  apply (step_eject _ _ i v (-1) []); cbn; rewrite ?Ho, ?Hs, ?Hv; try by intros ? ?.
  - by rewrite (look_Some _ _ _ _ _ Hp).
  - eapply look_upd2; [exact Hr|exact Hp|]. intros v'. case_decide as Hv'.
    + subst v'. apply stall_view_nil. by rewrite Hq', of_vc_app, Hb, Hrs.
    + unfold stall_view. rewrite Hq, Hq', !of_vc_app, of_vc_cons.
      by rewrite (decide_False (P := flit_m_vc f = v')) by naive_solver.
  - rewrite (look_Some _ _ _ _ _ Hp).
    eapply (look_upd2 _ (λ v p, frees v (outCreditQueue p))); [exact Hr|exact Hp|].
    intros v'. cbn. rewrite Hc. apply frees_credit.
Qed.

(** The interface [n] at node [k] of a network that is as it should be. *)
Definition ni_good (cs : list chan) (a : Z → node_view) (k : Z) (ibs cbs : list FlitBuffer.t)
    (n : t) : Prop :=
  ni_ok n ∧ good cs a k (ni_view n ibs cbs).

Section receiving.
  Context `{MachineTypes}.
  Variables (cs : list chan) (a : Z → node_view) (k : Z).
  Implicit Types (n : t) (ibs cbs : list FlitBuffer.t).

Lemma same_flits_good ibs cbs n n' :
  same_flits n n' → ni_good cs a k ibs cbs n → ni_good cs a k ibs cbs n'.
Proof.
  intros Hs [Hn Hg]. split; [by eapply same_flits_ok|].
  destruct Hs as [Hu _]. by rewrite (same_ni_units_view _ _ _ _ Hu).
Qed.

Lemma upd_inport_good ibs cbs n i f n' :
  upd_inport n i f = Ok n' → (∀ p, m_stall_queue (f p) = m_stall_queue p) →
  (∀ p, outCreditQueue (f p) = outCreditQueue p) →
  ni_good cs a k ibs cbs n → ni_good cs a k ibs cbs n'.
Proof.
  intros (p & Hp)%upd_inport_becomes Hst Hq [Hn Hg]. split; [by eapply port_becomes_ok|].
  eapply good_step; [exact Hg|]. eapply port_becomes_same; [exact Hp|..].
  - intros v. unfold stall_view. by rewrite Hst.
  - intros v. by rewrite Hq.
Qed.

Lemma unstall_good ibs cbs e store i before rest f n s n' s' :
  stall_of n i = Some (before ++ f :: rest) → ni_good cs a k ibs cbs n →
  unstall e store i (before ++ rest) f (n, s) = Ok (n', s') → ni_good cs a k ibs cbs n'.
Proof.
  intros Hq [Hn Hg] Hu. unfold unstall in Hu. step_bind Hu as n1 H1%deliver_flits.
  step_bind Hu as n2 (p2 & H2)%upd_inport_becomes. step_bind Hu as s1 _.
  step_bind Hu as n3 (p3 & H3)%upd_inport_becomes. step_bind Hu as n4 H4%add_stall_flits.
  step_bind Hu as count _. step_bind Hu as n5 H5%unregister_flits.
  step_bind Hu as n6 (p6 & H6)%upd_inport_becomes. injection Hu as <- <-.
  unfold stall_of in Hq. destruct (zlookup (inPorts n) i) as [p|] eqn:Hp; [|done].
  injection Hq as Hq. pose proof (same_flits_becomes _ _ _ _ H1 Hp) as B1.
  destruct (port_becomes_trans _ _ _ _ _ _ _ _ B1 H2) as [-> B2].
  destruct (port_becomes_trans _ _ _ _ _ _ _ _ B2 H3) as [-> B3].
  pose proof (same_flits_becomes _ _ _ _ H4 (replaced_eq _ _ _ _ (pb_ports _ _ _ _ _ B3))) as B4.
  destruct (port_becomes_trans _ _ _ _ _ _ _ _ B3 B4) as [_ B4'].
  pose proof (same_flits_becomes _ _ _ _ H5 (replaced_eq _ _ _ _ (pb_ports _ _ _ _ _ B4'))) as B5.
  destruct (port_becomes_trans _ _ _ _ _ _ _ _ B4' B5) as [_ B5'].
  destruct (port_becomes_trans _ _ _ _ _ _ _ _ B5' H6) as [-> B6].
  split; [by eapply port_becomes_ok|]. eapply eject_good; [exact Hg|exact B6|exact Hq|done|done].
Qed.

Lemma stall_of_flits n n' i : same_flits n n' → stall_of n' i = stall_of n i.
Proof. intros [Hu _]. by apply stall_of_units. Qed.

Lemma unstall_first_good ibs cbs e store i before fs n s n' s' :
  stall_of n i = Some (before ++ fs) → ni_good cs a k ibs cbs n →
  unstall_first e store i before fs (n, s) = Ok (n', s') → ni_good cs a k ibs cbs n'.
Proof.
  revert before n s. induction fs as [|f fs IH]; intros before n s Hq Hg Hu;
    cbn [unstall_first] in Hu; [by injection Hu as <- <-|].
  step_bind Hu as [ok n1] Hok%slot_available_flits.
  pose proof (same_flits_good ibs cbs _ _ Hok Hg) as Hg1.
  rewrite <- (stall_of_flits _ _ i Hok) in Hq. destruct ok.
  - by eapply unstall_good.
  - eapply IH; [|exact Hg1|exact Hu]. by rewrite Hq, <- app_assoc.
Qed.

Lemma checkStallQueue_good ibs cbs e store n s n' s' :
  ni_good cs a k ibs cbs n → checkStallQueue e store (n, s) = Ok (n', s') →
  ni_good cs a k ibs cbs n'.
Proof.
  intros Hg Hc. unfold checkStallQueue in Hc.
  apply (for_range_inv (λ _ st, ni_good cs a k ibs cbs st.1)) in Hc; [done| |done].
  intros i [m ms] [m' ms'] _ Hm Hc1. unfold check_port in Hc1. cbn in Hm.
  step_bind Hc1 as m1 Hm1. step_bind Hc1 as p Hp%vget_Ok.
  apply (upd_inport_good ibs cbs) in Hm1; [|done..].
  eapply unstall_first_good; [|exact Hm1|exact Hc1]. unfold stall_of. by rewrite Hp.
Qed.

(** A packet that arrives: it is delivered at once, or stalled. *)
Definition arrived_view (N : node_view) (i v : Z) (rest : list flit_type) : node_view :=
  mkNodeView
    (λ i' v', if decide ((i', v') = (i, v)) then mkVcView ACTIVE_ (-1) (-1) [HEAD_TAIL_]
              else nv_in N i' v')
    (λ i' v', if decide ((i', v') = (i, v)) then rest else nv_link N i' v')
    (nv_free N) (nv_out N) (nv_queue N) (nv_switch N) (nv_credit N).

Lemma arrive_good N i v ty rest :
  good cs a k N → nv_link N i v = ty :: rest → (∀ v, nv_in N i v = no_vc ∨ vv_state (nv_in N i v) = ACTIVE_) →
  ty = HEAD_TAIL_ ∧ nv_in N i v = no_vc ∧ good cs a k (arrived_view N i v rest).
Proof.
  intros Hg Hl Hv. destruct (good_arrival _ _ _ _ _ _ _ _ Hg Hl) as [-> Hst].
  assert (nv_in N i v = no_vc) as Hno by (destruct (Hv v) as [|E]; [done|by rewrite Hst in E]).
  split_and!; [done|done|]. eapply good_step; [exact Hg|].
  apply (step_arrive _ _ i v HEAD_TAIL_ (-1) rest); try done; try by intros ? ?.
  intros i' v'. cbn. by rewrite Hno.
Qed.

Lemma stall_view_states v p : stall_view v p = no_vc ∨ vv_state (stall_view v p) = ACTIVE_.
Proof. unfold stall_view. destruct (types_of _); [by left|by right]. Qed.

Lemma receive_tail_good ibs ibs' cbs e store i f b b' n s n' s' :
  ni_good cs a k ibs cbs n → zlookup ibs i = Some b → FlitBuffer.getTopFlit b = Ok (f, b') →
  replaced ibs i b' ibs' →
  receive_tail e store i (set_dequeue_time f (ni_cur e)) (n, s) = Ok (n', s') →
  ni_good cs a k ibs' cbs n'.
Proof.
  intros [Hn Hg] Hb Hf Hbs Hr. set (v := flit_m_vc f). unfold receive_tail in Hr.
  step_bind Hr as p Hp%vget_Ok.
  assert (nv_link (ni_view n ibs cbs) i v = flit_m_type f :: vc_types v b') as Hl.
  { cbn. rewrite (look_Some _ _ _ _ _ Hb), (vc_types_getTopFlit _ _ _ _ Hf). by rewrite decide_True. }
  destruct (arrive_good _ _ _ _ _ Hg Hl) as (Hty & Hno & Hg1).
  { intros v'. cbn. rewrite (look_Some _ _ _ _ _ Hp). apply stall_view_states. }
  assert (stall_view v p = no_vc) as Hsv.
  { cbn in Hno. by rewrite (look_Some _ _ _ _ _ Hp) in Hno. }
  step_bind Hr as [ok n1] Hok.
  assert (same_flits n n1) as U1.
  { destruct (messageEnqueuedThisCycle p); [by injection Hok as <- <-|by eapply slot_available_flits]. }
  pose proof (same_flits_becomes _ _ _ _ U1 Hp) as B1.
  assert (∀ v', vc_types v' b = if decide (v' = v) then flit_m_type f :: vc_types v b' else vc_types v' b')
    as Htypes.
  { intros v'. rewrite (vc_types_getTopFlit v' _ _ _ Hf). unfold v.
    destruct (decide (v' = flit_m_vc f)) as [->|]; [by rewrite decide_True|by rewrite decide_False]. }
  assert (∀ i' v', look [] (vc_types v') ibs' i' = if decide ((i', v') = (i, v)) then vc_types v b'
    else look [] (vc_types v') ibs i') as Hlk.
  { intros i' v'. rewrite (look_replaced _ _ _ _ _ _ i' Hbs).
    destruct (decide (i' = i)) as [->|Hne]; [|by rewrite decide_False by naive_solver].
    rewrite (look_Some _ _ _ _ _ Hb), Htypes.
    destruct (decide (v' = v)) as [->|Hne]; [by rewrite decide_True|by rewrite decide_False by naive_solver]. }
  destruct ok.
  - step_bind Hr as [n2 s2] H2.
    assert (same_flits n1 n2) as U2.
    { case_in H2; [step_bind H2 as n4 Hn4%deliver_flits; by injection H2 as <- <-|].
      step_bind H2 as s4 _. by injection H2 as <- <-. }
    pose proof (same_flits_becomes _ _ _ _ U2 (replaced_eq _ _ _ _ (pb_ports _ _ _ _ _ B1))) as B2.
    destruct (port_becomes_trans _ _ _ _ _ _ _ _ B1 B2) as [_ B2'].
    step_bind Hr as n3 (p3 & B3)%upd_inport_becomes. step_bind Hr as s3 _. injection Hr as <- <-.
    destruct (port_becomes_trans _ _ _ _ _ _ _ _ B2' B3) as [-> B].
    split; [by eapply port_becomes_ok|]. eapply good_step; [exact Hg1|].
    destruct B as [_ Hri Ho Hs Hv _].
    apply (step_eject _ _ i v (-1) []); cbn; rewrite ?Ho, ?Hs, ?Hv; try by intros ? ?.
    + by rewrite decide_True.
    + intros i' v'. cbn. rewrite (look_same _ _ _ _ _ _ _ i' Hri Hp) by done.
      case_decide as E; [|done]. injection E as -> ->. by rewrite (look_Some _ _ _ _ _ Hp).
    + rewrite (look_Some _ _ _ _ _ Hp).
      eapply (look_upd2 _ (λ v p, frees v (outCreditQueue p))); [exact Hri|exact Hp|].
      intros v'. apply frees_credit.
  - step_bind Hr as n2 (p2 & B2)%upd_inport_becomes. step_bind Hr as n3 U3%add_stall_flits.
    step_bind Hr as b0 _. step_bind Hr as n4 U4%set_out_buffer_flits. injection Hr as <- <-.
    destruct (port_becomes_trans _ _ _ _ _ _ _ _ B1 B2) as [-> B].
    assert (same_flits n2 n4) as U by by etransitivity.
    pose proof (same_flits_becomes _ _ _ _ U (replaced_eq _ _ _ _ (pb_ports _ _ _ _ _ B))) as B3.
    destruct (port_becomes_trans _ _ _ _ _ _ _ _ B B3) as [_ B4].
    split; [by eapply port_becomes_ok|]. eapply good_step; [exact Hg1|].
    destruct B4 as [_ Hri Ho Hs Hv _].
    apply step_stay; cbn; rewrite ?Ho, ?Hs, ?Hv; try by intros ? ?.
    + intros i' v'. cbn. rewrite (look_replaced _ _ _ _ _ _ i' Hri).
      destruct (decide (i' = i)) as [->|Hne]; [|by rewrite decide_False by naive_solver].
      rewrite (look_Some _ _ _ _ _ Hp). unfold stall_view at 1. cbn [m_stall_queue with_stall_queue].
      rewrite of_vc_app, of_vc_cons. cbn [flit_m_vc set_dequeue_time].
      destruct (decide (v' = v)) as [->|Hne].
      * rewrite !decide_True by done. apply stall_view_nil in Hsv. rewrite Hsv.
        unfold types_of. cbn. by rewrite Hty.
      * rewrite !decide_False by naive_solver. by rewrite app_nil_r.
    + intros i' v'. cbn. eapply look_same; [exact Hri|exact Hp|done].
Qed.

(** Only packets of one flit come, so every flit is a tail. *)
Lemma receive_port_good cbs e store i n s ibs n' s' ibs' :
  ni_good cs a k ibs cbs n → receive_port e store i (n, s, ibs) = Ok (n', s', ibs') →
  ni_good cs a k ibs' cbs n'.
Proof.
  unfold receive_port. intros Hg H1. step_bind H1 as b Hb%vget_Ok.
  destruct (FlitBuffer.isReady b _); [|by injection H1 as <- <- <-].
  step_bind H1 as [f b'] Hf. step_bind H1 as bs Hbs%vset_replaced. step_bind H1 as p Hp%vget_Ok.
  step_bind H1 as [] _. step_bind H1 as [n1 s1] Hr. injection H1 as <- <- <-.
  assert (flit_m_type f = HEAD_TAIL_) as Hty.
  { destruct Hg as [_ Hg].
    apply (good_arrival _ _ _ _ i (flit_m_vc f) (flit_m_type f) (vc_types (flit_m_vc f) b') Hg).
    cbn. rewrite (look_Some _ _ _ _ _ Hb), (vc_types_getTopFlit _ _ _ _ Hf). by rewrite decide_True. }
  change (is_tail (flit_m_type (set_dequeue_time f (ni_cur e)))) with (is_tail (flit_m_type f)) in Hr.
  rewrite Hty in Hr. change (is_tail HEAD_TAIL_) with true in Hr. cbv iota in Hr.
  by eapply receive_tail_good.
Qed.

(** A credit frees its channel, or not. *)
Lemma credit_port_good ibs cur n cbs n' cbs' :
  ni_good cs a k ibs cbs n → credit_port cur 0 (n, cbs) = Ok (n', cbs') →
  ni_good cs a k ibs cbs' n'.
Proof.
  unfold credit_port. intros [Hn Hg] H1. step_bind H1 as b Hb%vget_Ok.
  destruct (FlitBuffer.isReady b _); [|by injection H1 as <- <-].
  step_bind H1 as [c b'] Hc. step_bind H1 as bs Hbs%vset_replaced.
  step_bind H1 as os Hos. step_bind H1 as fr Hfr%determinate_Ok. step_bind H1 as os' Hos'.
  injection H1 as <- <-. split; [destruct Hn; by split|]. eapply good_step; [exact Hg|].
  assert (∀ w, look IDLE_ OutVcState.m_vc_state os w = look IDLE_ OutVcState.m_vc_state (outVcState n) w)
    as Hs.
  { intros w. unfold vupd in Hos. step_bind Hos as o Ho%vget_Ok. step_bind Hos as o' Ho'.
    apply vset_replaced in Hos. eapply look_same; [exact Hos|exact Ho|].
    by apply OutVcState.increment_credit_Ok in Ho' as (_ & _ & _ & ? & _). }
  assert (∀ w, frees w b = ((if decide (flit_m_is_free_signal c = Some true ∧ flit_m_vc c = w)
    then 1 else 0) + frees w b')%nat) as Hfb by (intros w; by apply frees_getTopFlit).
  destruct fr.
  - unfold vupd in Hos'. step_bind Hos' as o Ho%vget_Ok. apply vset_replaced in Hos'.
    apply (step_free _ _ 0 (flit_m_vc c) (frees (flit_m_vc c) b')); cbn; try by intros ? ?.
    + rewrite (look_Some _ _ _ _ _ Hb), Hfb. by rewrite !decide_True.
    + eapply look_upd2; [exact Hbs|exact Hb|]. intros w. rewrite Hfb.
      destruct (decide (w = flit_m_vc c)) as [->|Hne]; [done|].
      by rewrite decide_False by naive_solver.
    + intros o' w. cbn. destruct (decide (o' = 0)) as [->|Hne];
        [|by rewrite decide_False by naive_solver].
      rewrite (look_replaced _ _ _ _ _ _ w Hos').
      destruct (decide (w = flit_m_vc c)) as [->|Hne]; [by rewrite decide_True|].
      rewrite Hs, decide_False by naive_solver. done.
  - injection Hos' as <-. apply step_stay; cbn; try by intros ? ?.
    + intros o w. cbn. by rewrite Hs.
    + intros o w. cbn. eapply look_same; [exact Hbs|exact Hb|]. rewrite Hfb.
      rewrite decide_False by naive_solver. done.
Qed.

(** ** The wake-up *)

Lemma schedule_from_good ibs cbs c cur vc m n n' :
  ni_good cs a k ibs cbs n → schedule_from c cur 0 vc m n = Ok n' → ni_good cs a k ibs cbs n'.
Proof.
  revert vc. induction m as [|m IH]; intros vc Hg H1; cbn [schedule_from] in H1;
    [by injection H1 as <-|].
  step_bind H1 as tv _. step_bind H1 as o _.
  destruct (isVnetSupported (op_vnets o) tv); [|by eapply IH].
  step_bind H1 as can _. destruct can; [|by eapply IH].
  destruct Hg as [Hn Hg]. destruct (send_from_step _ _ _ _ _ ibs cbs Hn H1) as [Hn' Hs].
  split; [done|]. by eapply good_step.
Qed.

Lemma scheduleOutputLink_good ibs cbs c cur n n' :
  ni_good cs a k ibs cbs n → scheduleOutputLink c cur n = Ok n' → ni_good cs a k ibs cbs n'.
Proof.
  unfold scheduleOutputLink. intros Hg. pose proof (ni_one_port _ (proj1 Hg)) as ->.
  apply (for_range_inv (λ _, ni_good cs a k ibs cbs)); [|done]. intros i m m' Hi Hm H1.
  assert (i = 0) as -> by lia. unfold scheduleOutputPort in H1. step_bind H1 as o _.
  by eapply schedule_from_good.
Qed.

Lemma inject_trace_good ibs cbs e n s n' s' :
  ni_good cs a k ibs cbs n → inject_trace e n s = Ok (n', s') → ni_good cs a k ibs cbs n'.
Proof.
  unfold inject_trace. intros [Hn Hg] H1. step_bind H1 as [n1 s1] Ht.
  assert (ni_good cs a k ibs cbs n1) as [Hn1 Hg1].
  { destruct (m_trace_injection_queue n) eqn:Eq, (m_trace_record_queue n);
      try by injection Ht as <- <-.
    split; [by eapply transfer_ok|]. by rewrite (same_ni_units_view _ _ _ _ (transfer_units _ _ _ _ _ Ht)). }
  destruct (m_trace_injection_queue n1) as [|f q]; [by injection H1 as <- <-|].
  step_bind H1 as [vc n2] Hvc. pose proof (calculateVC_queue _ _ _ _ _ Hvc) as [_ Hid].
  pose proof (same_flits_good ibs cbs _ _ (calculateVC_flits _ _ _ _ _ Hvc) (conj Hn1 Hg1)) as [Hn2 Hg2].
  destruct (Z.eqb_spec vc (-1)) as [->|Hne]; cbn in H1; [by injection H1 as <- <-|].
  destruct (injectTraceFlit_step _ _ _ _ _ _ _ ibs cbs Hn2 (Hid Hne) H1) as [Hn' Hs].
  split; [done|]. by eapply good_step.
Qed.

(** A wake-up of the interface at node [k] of a network that is as it should be. *)
Lemma ni_wakeup_good e n s store ibs cbs n' s' store' ibs' cbs' :
  ni_good cs a k ibs cbs n →
  wakeup e n s store ibs cbs = Ok (n', s', store', ibs', cbs') →
  ni_good cs a k ibs' cbs' n'.
Proof.
  intros Hg H1. unfold wakeup in H1. step_bind H1 as u _.
  step_bind H1 as [[n1 s1] st1] Hinj. step_bind H1 as n2 Hsend.
  step_bind H1 as [n3 s3] Hst. step_bind H1 as [[n4 s4] ib] Hrecv.
  step_bind H1 as [n5 cb] Hcred. step_bind H1 as n6 Hco. step_bind H1 as n7 Hre.
  injection H1 as <- <- <- <- <-.
  assert (ni_good cs a k ibs cbs n1) as H1.
  { destruct (negb (ni_trace e)).
    - by eapply same_flits_good, Hg; eapply take_messages_flits.
    - step_bind Hinj as [m ms] Hi. injection Hinj as <- <- <-. by eapply inject_trace_good. }
  pose proof (scheduleOutputLink_good _ _ _ _ _ _ H1 Hsend) as H2.
  pose proof (checkStallQueue_good _ _ _ _ _ _ _ _ H2 Hst) as H3.
  apply (for_range_inv (λ _ st, ni_good cs a k st.2 cbs st.1.1)) in Hrecv as H4; [| |done].
  2:{ intros i [[m ms] bs] [[m' ms'] bs'] _ Hm Hm1. by eapply receive_port_good. }
  cbn in H4. rewrite (ni_one_port _ (proj1 H4)) in Hcred.
  apply (for_range_inv (λ _ st, ni_good cs a k ib st.2 st.1)) in Hcred as H5; [| |done].
  2:{ intros i [m bs] [m' bs'] Hi Hm Hm1. assert (i = 0) as -> by lia.
      by eapply credit_port_good. }
  cbn in H5. eapply same_flits_good; [by eapply checkReschedule_flits|].
  apply (for_range_inv (λ _, ni_good cs a k ib cb)) in Hco; [done| |done].
  intros i m m' _ Hm Hm1. by eapply same_flits_good, Hm; eapply credit_out_flits.
Qed.

(** A wake-up neither adds nor removes links. *)
Lemma ni_wakeup_lengths e n s store ibs cbs n' s' store' ibs' cbs' :
  wakeup e n s store ibs cbs = Ok (n', s', store', ibs', cbs') →
  length ibs' = length ibs ∧ length cbs' = length cbs.
Proof.
  intros H1. unfold wakeup in H1. step_bind H1 as u _.
  step_bind H1 as [[n1 s1] st1] _. step_bind H1 as n2 _.
  step_bind H1 as [n3 s3] _. step_bind H1 as [[n4 s4] ib] Hrecv.
  step_bind H1 as [n5 cb] Hcred. step_bind H1 as n6 _. step_bind H1 as n7 _.
  injection H1 as <- <- <- <- <-. split.
  - apply (for_range_inv (λ _ st, length st.2 = length ibs)) in Hrecv; [done| |done].
    intros i [[m ms] bs] [[m' ms'] bs'] _ Hm Hr. cbn in *. rewrite <- Hm.
    unfold receive_port in Hr. step_bind Hr as b _. case_in Hr; [|by injection Hr as <- <- <-].
    step_bind Hr as [f b'] _. step_bind Hr as bs1 [_ ->]%vset_Ok. step_bind Hr as p _.
    step_bind Hr as [] _. step_bind Hr as [n8 s8] _. injection Hr as <- <- <-.
    by rewrite length_insert.
  - apply (for_range_inv (λ _ st, length st.2 = length cbs)) in Hcred; [done| |done].
    intros i [m bs] [m' bs'] _ Hm Hr. cbn in *. rewrite <- Hm.
    unfold credit_port in Hr. step_bind Hr as b _. case_in Hr; [|by injection Hr as <- <-].
    step_bind Hr as [f b'] _. step_bind Hr as bs1 [_ ->]%vset_Ok. step_bind Hr as os _.
    step_bind Hr as fr _. step_bind Hr as os' _. injection Hr as <- <-. by rewrite length_insert.
Qed.

End receiving.
