(* ===== verification/ClosedIntegrity.v ===== *)
(** * Packets in the closed system

    The virtual-channel protocol of [Wormhole] across the system of [ClosedNetwork]: routers
    and interfaces that are woken in any order, with the links between them, keep it, and no
    assumption on the interfaces is left.  Every flit is a packet of its own, so a virtual
    channel carries one flit at a time. *)

From S2P Require Import Prelude.
From S2P Require Import IntMath.
From S2P Require Import NetDest.
From S2P Require Import Flit.
From S2P Require Import VirtualChannels.
From S2P Require Import Routing.
From S2P Require Import Clocking.
From S2P Require Import Links.
From S2P Require Import Pipeline.
From S2P Require Import MessageBuffer.
From S2P Require Import Statistics.
From S2P Require Import NetworkInterface.
From S2P Require Import InterfaceFlow.
From S2P Require Import FlowControl.
From S2P Require Import CreditProtocol.
From S2P Require Import Allocation.
From S2P Require Import Wormhole.
From S2P Require Import WormholeRouter.
From S2P Require Import PacketIntegrity.
From S2P Require Import ClosedNetwork.
From S2P Require Import WormholeInterface.

Section closed.
  Context `{MachineTypes}.
  Implicit Types (s : system) (st : station).

(** ** The view of a system *)

Definition station_view st : node_view :=
  ni_view (st_ni st) (NetworkLink.linkBuffer <$> st_in st)
    (NetworkLink.linkBuffer <$> st_credit st).

Definition stations_table : list station → Z → node_view := table station_view station_of.

Definition sviews s (k : Z) : node_view :=
  if 0 <=? k then views (sy_routers s) k else stations_table (sy_stations s) k.

Lemma station_of_inj k k' : station_of k = station_of k' → k = k'.
Proof. unfold station_of. lia. Qed.

Lemma sviews_router s k d : zlookup (sy_routers s) k = Some d → sviews s k = node_view_of d.
Proof.
  intros Hd. unfold sviews. apply zlookup_lt in Hd as Hk. rewrite (proj2 (Z.leb_le 0 k)) by lia.
  by apply views_Some.
Qed.

Lemma sviews_station s k st :
  zlookup (sy_stations s) (station_of k) = Some st → sviews s k = station_view st.
Proof.
  intros Hd. unfold sviews. apply zlookup_lt in Hd as Hk. unfold station_of in Hk.
  rewrite (proj2 (Z.leb_gt 0 k)) by lia. by apply look_Some.
Qed.

(** Between wake-ups no request is pending in an allocator, and the interfaces have one
    output port and packets of one flit. *)
Definition units_ok s : Prop :=
  Forall idle_node (sy_routers s) ∧ Forall (λ st, ni_ok (st_ni st)) (sy_stations s).

Record closed_ok (cs : list chan) s : Prop := {
  co_net : net_ok cs (sviews s);
  co_single : net_single (sviews s);
  co_units : units_ok s;
}.

(** ** Changes of the wires *)

(** A change of the routers, or of the interfaces. *)
Lemma split_rewired (P : Z → bool) b b' d d' L F Q C L0 F0 Q0 C0 L1 F1 Q1 C1 :
  rewired b b' L0 F0 Q0 C0 → rewired d d' L1 F1 Q1 C1 →
  (∀ j p v, L j p v = if P j then L0 j p v else L1 j p v) →
  (∀ j p v, F j p v = if P j then F0 j p v else F1 j p v) →
  (∀ j p v, Q j p v = if P j then Q0 j p v else Q1 j p v) →
  (∀ j p v, C j p v = if P j then C0 j p v else C1 j p v) →
  rewired (λ j, if P j then b j else d j) (λ j, if P j then b' j else d' j) L F Q C.
Proof.
  intros [R0 ? ? ? ?] [R1 ? ? ? ?] EL EF EQ EC.
  split; [intros j; by destruct (P j)|intros j p v; rewrite ?EL, ?EF, ?EQ, ?EC; by destruct (P j)..].
Qed.

Lemma rewired_refl a : rewired a a (links_in a) (frees_in a) (queues_in a) (credits_in a).
Proof. by split. Qed.

(** [g] with what [x] puts at port [p] of node [k]. *)
Definition patch {A} (k p : Z) (x : option (Z → A)) (g : Z → Z → Z → A) : Z → Z → Z → A :=
  match x with Some h => put g k p h | None => g end.

(** A view that is patched where the nodes of [P] are. *)
Lemma patch_split {A} (P : Z → bool) (g : node_view → Z → Z → A) b d k p x :
  ∀ j q v,
  patch k p x (λ j, g (if P j then b j else d j)) j q v =
    if P j then (if P k then patch k p x (λ j, g (b j)) else λ j, g (b j)) j q v
    else (if P k then λ j, g (d j) else patch k p x (λ j, g (d j))) j q v.
Proof.
  intros j q v. destruct x as [h|]; cbn [patch]; [|by destruct (P k), (P j)]. unfold put.
  destruct (P k) eqn:Ek, (P j) eqn:Ej; try done; case_decide as E; try done;
    injection E as -> ->; congruence.
Qed.

(** A change of the wires of [s] at port [p] of node [k]. *)
Definition swires s s' k p l f q c : Prop :=
  rewired (sviews s) (sviews s') (patch k p l (links_in (sviews s)))
    (patch k p f (frees_in (sviews s))) (patch k p q (queues_in (sviews s)))
    (patch k p c (credits_in (sviews s))) ∧
  (units_ok s → units_ok s').

Lemma router_swires s n' k p l f q c :
  (0 <=? k) = true →
  wires (sy_routers s) n' (patch k p l (links_of (sy_routers s)))
    (patch k p f (frees_of (sy_routers s))) (patch k p q (queues_of (sy_routers s)))
    (patch k p c (credits_of (sy_routers s))) →
  swires s (with_routers s n') k p l f q c.
Proof.
  intros Hk Hw. split.
  2:{ intros [Hi Hn]. split; [by apply (wires_idle _ _ _ _ _ _ Hw)|done]. }
  apply wires_rewired in Hw.
  eapply split_rewired; [exact Hw|apply rewired_refl|intros j i v..].
  - etransitivity; [apply (patch_split (Z.leb 0) nv_link)|by rewrite Hk].
  - etransitivity; [apply (patch_split (Z.leb 0) nv_free)|by rewrite Hk].
  - etransitivity; [apply (patch_split (Z.leb 0) nv_queue)|by rewrite Hk].
  - etransitivity; [apply (patch_split (Z.leb 0) nv_credit)|by rewrite Hk].
Qed.

(** The same for one node. *)
Definition patch1 {A} (p : Z) (x : option (Z → A)) (g : Z → Z → A) : Z → Z → A :=
  match x with Some h => λ p' v, if decide (p' = p) then h v else g p' v | None => g end.

Lemma table_patch {A} (g : node_view → Z → Z → A) ls k st st' ls' p x :
  zlookup ls (station_of k) = Some st → replaced ls (station_of k) st' ls' →
  (∀ p' v, g (station_view st') p' v = patch1 p x (g (station_view st)) p' v) →
  ∀ k' p' v, g (stations_table ls' k') p' v =
    patch k p x (λ k, g (stations_table ls k)) k' p' v.
Proof.
  intros Hst Hr Hg. destruct x as [h|]; cbn in *.
  - by apply (table_put _ _ station_of_inj g _ _ _ _ _ _ _ Hst Hr).
  - by apply (table_same _ _ station_of_inj g _ _ _ _ _ Hst Hr).
Qed.

Lemma station_swires s k p l f q c st st' ls' :
  (0 <=? k) = false → vget (sy_stations s) (station_of k) = Ok st →
  vset (sy_stations s) (station_of k) st' = Ok ls' →
  same2 (nv_in (station_view st)) (nv_in (station_view st')) →
  same2 (nv_out (station_view st)) (nv_out (station_view st')) →
  same3 (nv_switch (station_view st)) (nv_switch (station_view st')) →
  (∀ i v, nv_link (station_view st') i v = patch1 p l (nv_link (station_view st)) i v) →
  (∀ i v, nv_free (station_view st') i v = patch1 p f (nv_free (station_view st)) i v) →
  (∀ o w, nv_queue (station_view st') o w = patch1 p q (nv_queue (station_view st)) o w) →
  (∀ o w, nv_credit (station_view st') o w = patch1 p c (nv_credit (station_view st)) o w) →
  (ni_ok (st_ni st) → ni_ok (st_ni st')) →
  swires s (with_stations s ls') k p l f q c.
Proof.
  intros Hk Hst Hset HI HO HS HL HF HQ HC Hok. apply vget_Ok in Hst. split.
  2:{ intros [Hi Hn]. split; [done|]. eapply Forall_vset; [exact Hn| |exact Hset].
      apply Hok, (Forall_zlookup _ _ _ _ Hn Hst). }
  apply vset_replaced in Hset.
  assert (rewired (stations_table (sy_stations s)) (stations_table ls')
    (patch k p l (links_in (stations_table (sy_stations s))))
    (patch k p f (frees_in (stations_table (sy_stations s))))
    (patch k p q (queues_in (stations_table (sy_stations s))))
    (patch k p c (credits_in (stations_table (sy_stations s))))) as Hw.
  { split; [by apply (table_routers _ _ station_of_inj _ _ _ _ _ Hst Hset)|by eapply table_patch..]. }
  eapply split_rewired; [apply rewired_refl|exact Hw|intros j i v..].
  - etransitivity; [apply (patch_split (Z.leb 0) nv_link)|by rewrite Hk].
  - etransitivity; [apply (patch_split (Z.leb 0) nv_free)|by rewrite Hk].
  - etransitivity; [apply (patch_split (Z.leb 0) nv_queue)|by rewrite Hk].
  - etransitivity; [apply (patch_split (Z.leb 0) nv_credit)|by rewrite Hk].
Qed.

Lemma set_link_wires k i l s s' :
  set_link k i l s = Ok s' →
  swires s s' k i (Some (λ v, vc_types v (NetworkLink.linkBuffer l))) None None None.
Proof.
  unfold set_link. destruct (0 <=? k) eqn:Hk; intros Hs.
  - unfold on_routers in Hs. step_bind Hs as n Hn. injection Hs as <-.
    apply router_swires; [done|]. by apply set_in_link_wires.
  - unfold on_station, vupd in Hs. step_bind Hs as ls Hls. injection Hs as <-.
    step_bind Hls as st Hst. step_bind Hls as st' Hst'. unfold set_ni_link in Hst'.
    step_bind Hst' as ins Hi%vset_replaced. injection Hst' as <-.
    apply (fmap_replaced NetworkLink.linkBuffer) in Hi.
    eapply station_swires; [done|exact Hst|exact Hls|done..| |done|done|done|done].
    intros i' v. cbn. by apply look_replaced.
Qed.

Lemma set_back_link_wires k o l s s' :
  set_back_link k o l s = Ok s' →
  swires s s' k o None None None (Some (λ w, frees w (NetworkLink.linkBuffer l))).
Proof.
  unfold set_back_link. destruct (0 <=? k) eqn:Hk; intros Hs.
  - unfold on_routers in Hs. step_bind Hs as n Hn. injection Hs as <-.
    apply router_swires; [done|]. by apply set_credit_link_wires.
  - unfold on_station, vupd in Hs. step_bind Hs as ls Hls. injection Hs as <-.
    step_bind Hls as st Hst. step_bind Hls as st' Hst'. unfold set_ni_credit_link in Hst'.
    step_bind Hst' as ins Hi%vset_replaced. injection Hst' as <-.
    apply (fmap_replaced NetworkLink.linkBuffer) in Hi.
    eapply station_swires; [done|exact Hst|exact Hls|done..| |done].
    intros i' v. cbn. by apply look_replaced.
Qed.

Lemma set_queue_wires k o q s s' :
  set_queue k o q s = Ok s' → swires s s' k o None None (Some (λ w, vc_types w q)) None.
Proof.
  unfold set_queue. destruct (0 <=? k) eqn:Hk; intros Hs.
  - unfold on_routers in Hs. step_bind Hs as n Hn. injection Hs as <-.
    apply router_swires; [done|]. by apply set_outBuffer_wires.
  - unfold on_station, vupd in Hs. step_bind Hs as ls Hls. injection Hs as <-.
    step_bind Hls as st Hst. step_bind Hls as st' Hst'. unfold set_ni_queue in Hst'.
    step_bind Hst' as ps Hps. injection Hst' as <-. pose proof (vupd_same_length _ _ _ _ Hps) as Hl.
    unfold vupd in Hps. step_bind Hps as p Hp. step_bind Hps as p' Hp'. injection Hp' as <-.
    apply vset_replaced in Hps.
    eapply station_swires; [done|exact Hst|exact Hls|done..| |done|].
    + intros o' w. cbn. by rewrite (look_replaced _ _ _ _ _ _ o' Hps).
    + intros [H1 H2 H3]. split; [|done..]. unfold zlen in Hl. cbn. lia.
Qed.

Lemma set_credits_wires k i q s s' :
  set_credits k i q s = Ok s' → swires s s' k i None (Some (λ v, frees v q)) None None.
Proof.
  unfold set_credits. destruct (0 <=? k) eqn:Hk; intros Hs.
  - unfold on_routers in Hs. step_bind Hs as n Hn. injection Hs as <-.
    apply router_swires; [done|]. by apply set_creditQueue_wires.
  - unfold on_station, vupd in Hs. step_bind Hs as ls Hls. injection Hs as <-.
    step_bind Hls as st Hst. step_bind Hls as st' Hst'. unfold set_ni_credits_out in Hst'.
    step_bind Hst' as ps Hps. injection Hst' as <-.
    unfold vupd in Hps. step_bind Hps as p Hp%vget_Ok. step_bind Hps as p' Hp'. injection Hp' as <-.
    apply vset_replaced in Hps.
    eapply station_swires; [done|exact Hst|exact Hls| |done|done|done| |done|done|].
    + intros i' v. cbn. by eapply look_same.
    + intros i' v. cbn. by rewrite (look_replaced _ _ _ _ _ _ i' Hps).
    + by intros [H1 H2 H3].
Qed.

(** ** Wake-ups of links *)

Lemma get_queue_view k o s q :
  get_queue k o s = Ok q → ∀ w, nv_queue (sviews s k) o w = vc_types w q.
Proof.
  unfold get_queue, of_station. destruct (0 <=? k) eqn:Hk; intros Hg w.
  - unfold sviews. rewrite Hk. by apply get_outBuffer_view.
  - step_bind Hg as st Hst%vget_Ok. rewrite (sviews_station _ _ _ Hst).
    unfold ni_queue in Hg. step_bind Hg as p Hp%vget_Ok. injection Hg as <-. cbn.
    by rewrite (look_Some _ _ _ _ _ Hp).
Qed.

Lemma get_credits_view k i s q :
  get_credits k i s = Ok q → ∀ v, nv_free (sviews s k) i v = frees v q.
Proof.
  unfold get_credits, of_station. destruct (0 <=? k) eqn:Hk; intros Hg v.
  - unfold sviews. rewrite Hk. by apply get_creditQueue_view.
  - step_bind Hg as st Hst%vget_Ok. rewrite (sviews_station _ _ _ Hst).
    unfold ni_credits_out in Hg. step_bind Hg as p Hp%vget_Ok. injection Hg as <-. cbn.
    by rewrite (look_Some _ _ _ _ _ Hp).
Qed.

Lemma get_link_view k i s l :
  get_link k i s = Ok l → ∀ v, nv_link (sviews s k) i v = vc_types v (NetworkLink.linkBuffer l).
Proof.
  unfold get_link, of_station. destruct (0 <=? k) eqn:Hk; intros Hg v.
  - unfold sviews. rewrite Hk. by apply get_in_link_view.
  - step_bind Hg as st Hst%vget_Ok. rewrite (sviews_station _ _ _ Hst).
    apply vget_Ok in Hg. cbn. by rewrite look_fmap, (look_Some _ _ _ _ _ Hg).
Qed.

Lemma get_back_link_view k o s l :
  get_back_link k o s = Ok l →
  ∀ w, nv_credit (sviews s k) o w = frees w (NetworkLink.linkBuffer l).
Proof.
  unfold get_back_link, of_station. destruct (0 <=? k) eqn:Hk; intros Hg w.
  - unfold sviews. rewrite Hk. by apply get_credit_link_view.
  - step_bind Hg as st Hst%vget_Ok. rewrite (sviews_station _ _ _ Hst).
    apply vget_Ok in Hg. cbn. by rewrite look_fmap, (look_Some _ _ _ _ _ Hg).
Qed.

Variable cs : list chan.
Hypothesis cs_wired : wired cs.

Lemma wake_channel_ok cur c s s' :
  c ∈ cs → closed_ok cs s → wake_channel cur c s = Ok s' → closed_ok cs s'.
Proof.
  intros Hc [Ha Hs Hu] Hw. unfold wake_channel in Hw. step_bind Hw as q Hq.
  step_bind Hw as l Hl. step_bind Hw as [[l' q'] sch] Hm%link_wakeup_cases.
  step_bind Hw as s1 [W1 U1]%set_link_wires. apply set_queue_wires in Hw as [W2 U2].
  destruct (link_moves cs _ _ _ c _ _ _ _ cs_wired Hc Ha Hm (get_queue_view _ _ _ _ Hq)
    (get_link_view _ _ _ _ Hl) W1 W2) as [Ha' Hs']. split; auto.
Qed.

Lemma wake_channel_credit_ok cur c s s' :
  c ∈ cs → closed_ok cs s → wake_channel_credit cur c s = Ok s' → closed_ok cs s'.
Proof.
  intros Hc [Ha Hs Hu] Hw. unfold wake_channel_credit in Hw. step_bind Hw as q Hq.
  step_bind Hw as l Hl. step_bind Hw as [[l' q'] sch] Hm%link_wakeup_cases.
  step_bind Hw as s1 [W1 U1]%set_back_link_wires. apply set_credits_wires in Hw as [W2 U2].
  destruct (credit_moves cs _ _ _ c _ _ _ _ cs_wired Hc Ha Hm (get_credits_view _ _ _ _ Hq)
    (get_back_link_view _ _ _ _ Hl) W1 W2) as [Ha' Hs']. split; auto.
Qed.

(** ** Wake-ups of routers and interfaces *)

Lemma wake_router_ok e k s s' :
  closed_ok cs s → on_routers (wake_router e k) s = Ok s' → closed_ok cs s'.
Proof.
  intros [Ha Hs [Hi Hn]] Hw. unfold on_routers in Hw. step_bind Hw as n Hwk. injection Hw as <-.
  destruct (wake_router_views _ _ _ _ Hi Hwk) as (Hrun & Hj & Hi').
  assert ((0 <=? k) = true) as Hk.
  { unfold wake_router in Hwk. step_bind Hwk as d Hd%vget_Ok. apply zlookup_lt in Hd.
    apply Z.leb_le. lia. }
  assert (good cs (sviews s) k (sviews s k)) as Hg by by apply good_node.
  assert (good cs (sviews s) k (views n k)) as Hg'.
  { eapply good_run; [exact Hg|]. unfold sviews. by rewrite Hk. }
  destruct (good_self _ _ (sviews (with_routers s n)) _ _ Hg') as [Ha' Hs'];
    [by unfold sviews; rewrite Hk| |by split].
  intros j Hne. unfold sviews. cbn. destruct (0 <=? j); [by apply Hj|done].
Qed.

(** An interface that is replaced by one as good. *)
Lemma station_ok s j st st' ls' stats store :
  closed_ok cs s → vget (sy_stations s) j = Ok st → vset (sy_stations s) j st' = Ok ls' →
  (ni_good cs (sviews s) (-1 - j) (NetworkLink.linkBuffer <$> st_in st)
     (NetworkLink.linkBuffer <$> st_credit st) (st_ni st) →
   ni_good cs (sviews s) (-1 - j) (NetworkLink.linkBuffer <$> st_in st')
     (NetworkLink.linkBuffer <$> st_credit st') (st_ni st')) →
  closed_ok cs (mkSystem (sy_routers s) ls' stats store).
Proof.
  intros [Ha Hs [Hi Hn]] Hst Hset Hg. apply vget_Ok in Hst.
  assert (station_of (-1 - j) = j) as Hp by (unfold station_of; lia).
  assert (sviews s (-1 - j) = station_view st) as Hv by (apply sviews_station; by rewrite Hp).
  destruct Hg as [Hok Hg].
  { split; [apply (Forall_zlookup _ _ _ _ Hn Hst)|].
    change (good cs (sviews s) (-1 - j) (station_view st)). rewrite <- Hv. by apply good_node. }
  pose proof (vset_replaced _ _ _ _ Hset) as Hr.
  destruct (good_self _ _ (sviews (mkSystem (sy_routers s) ls' stats store)) _ _ Hg) as [Ha' Hs'].
  - apply sviews_station. cbn. rewrite Hp. by apply (replaced_eq _ _ _ _ Hr).
  - intros i Hne. unfold sviews. cbn. destruct (0 <=? i); [done|].
    unfold stations_table, table. rewrite (look_replaced _ _ _ _ _ _ _ Hr), decide_False; [done|].
    unfold station_of. lia.
  - split; [done|done|]. split; [done|]. by eapply Forall_vset.
Qed.

Lemma wake_station_ok e j s s' :
  closed_ok cs s → wake_station e j s = Ok s' → closed_ok cs s'.
Proof.
  intros Hok Hw. unfold wake_station in Hw. step_bind Hw as st Hst.
  step_bind Hw as [[[[n stats] store] ibs] cbs] Hn. step_bind Hw as ls Hls. injection Hw as <-.
  eapply station_ok; [exact Hok|exact Hst|exact Hls|]. cbn. intros Hg.
  destruct (ni_wakeup_lengths _ _ _ _ _ _ _ _ _ _ _ Hn) as [L1 L2]. rewrite length_fmap in L1, L2.
  rewrite !link_buffers by done. by eapply ni_wakeup_good.
Qed.

Lemma on_ni_ok j f s s' :
  (∀ n n', f n = Ok n' → same_flits n n') → closed_ok cs s → on_ni j f s = Ok s' →
  closed_ok cs s'.
Proof.
  intros Hf Hok Hw. unfold on_ni in Hw. step_bind Hw as ls Hls. injection Hw as <-.
  unfold vupd in Hls. step_bind Hls as st Hst. step_bind Hls as st' Hst'.
  step_bind Hst' as n' Hn%Hf. injection Hst' as <-.
  eapply station_ok; [exact Hok|exact Hst|exact Hls|]. by apply same_flits_good.
Qed.

Lemma step_ok s s' : closed_ok cs s → system_step cs s s' → closed_ok cs s'.
Proof.
  intros Hok [e k Hw|e j Hw|cur c Hc Hw|cur c Hc Hw|cur j r Hw|cur j Hw|j ins outs store s1 Hw ->].
  - by eapply wake_router_ok.
  - by eapply wake_station_ok.
  - by eapply wake_channel_ok.
  - by eapply wake_channel_credit_ok.
  - eapply on_ni_ok; [|exact Hok|exact Hw]. cbn. intros n n' Hn. unfold NetworkInterface.enqueueTracePacket in Hn.
    apply scheduleEvent_flits in Hn. by etransitivity.
  - eapply on_ni_ok; [|exact Hok|exact Hw]. intros n n' Hn.
    unfold NetworkInterface.dequeueCallback in Hn. by inv_result.
  - eapply on_ni_ok in Hw as [Ha Hs Hu]; [by split|by intros n n' [= <-]|exact Hok].
Qed.

(** ** Systems that have not run *)

(** An interface with one output port, and its credit link, that holds no flit and whose
    channels are free; it may have records of the trace and messages to send. *)
Definition fresh_station st : Prop :=
  let n := st_ni st in
  length (NetworkInterface.outPorts n) = 1%nat ∧
  Forall (λ p, empty_buffer (NetworkInterface.outFlitQueue p)) (NetworkInterface.outPorts n) ∧
  Forall (λ p, empty_buffer (NetworkInterface.outCreditQueue p) ∧
               NetworkInterface.m_stall_queue p = []) (NetworkInterface.inPorts n) ∧
  Forall fresh_out_vc (NetworkInterface.outVcState n) ∧
  Forall empty_buffer (NetworkInterface.niOutVcs n) ∧
  NetworkInterface.m_trace_injection_queue n = [] ∧
  Forall (λ l, empty_buffer (NetworkLink.linkBuffer l)) (st_in st) ∧
  Forall (λ l, empty_buffer (NetworkLink.linkBuffer l)) (st_credit st) ∧
  length (st_credit st) = 1%nat.

Definition fresh_system s : Prop :=
  Forall fresh_node (sy_routers s) ∧ Forall fresh_station (sy_stations s).

Lemma fresh_station_blank st : fresh_station st → blank (station_view st).
Proof.
  intros (_ & Ho & Hi & Hv & Hq & _ & Hl & Hc & _).
  split_and!; intros; cbn; rewrite ?look_fmap.
  - apply look_default. eapply Forall_impl; [exact Hi|]. intros p [_ Hp]. unfold stall_view. by rewrite Hp.
  - apply look_default. eapply Forall_impl; [exact Hl|]. intros l He. by apply empty_views.
  - apply look_default. eapply Forall_impl; [exact Hi|]. intros p [He _]. by apply empty_views.
  - case_decide; [|done]. apply look_default. eapply Forall_impl; [exact Hv|]. by intros x (_ & -> & _).
  - apply look_default. eapply Forall_impl; [exact Ho|]. intros p He. by apply empty_views.
  - case_decide; [|done]. apply look_default. eapply Forall_impl; [exact Hq|].
    unfold empty_buffer. by intros b ->.
  - apply look_default. eapply Forall_impl; [exact Hc|]. intros l He. by apply empty_views.
Qed.

Lemma fresh_station_ok st : fresh_station st → ni_ok (st_ni st).
Proof.
  intros (H1 & _ & _ & _ & Hq & Hi & _). split; [done| |by rewrite Hi; constructor].
  intros v q Hv. rewrite (Forall_zlookup _ _ _ _ Hq Hv). constructor.
Qed.

Lemma blank_single N : blank N → node_single N.
Proof.
  intros (H1 & H2 & _ & _ & H5 & H6 & _). split_and!; intros;
    rewrite ?H1, ?H2, ?H5, ?H6; constructor.
Qed.

Lemma fresh_closed_ok s : fresh_system s → closed_ok cs s.
Proof.
  intros [Hr Hn].
  assert (∀ k, blank (sviews s k)) as Hb.
  { intros k. unfold sviews. destruct (0 <=? k).
    - unfold views, look. destruct (zlookup _ k) as [d|] eqn:Hd; [|apply no_view_blank].
      apply fresh_node_blank, (Forall_zlookup _ _ _ _ Hr Hd).
    - unfold stations_table, table, look. destruct (zlookup _ _) as [st|] eqn:Hd;
        [|apply no_view_blank]. apply fresh_station_blank, (Forall_zlookup _ _ _ _ Hn Hd). }
  split; [by apply blank_ok|intros k; by apply blank_single|].
  split; [|eapply Forall_impl; [exact Hn|apply fresh_station_ok]].
  eapply Forall_impl; [exact Hr|]. by intros d ((_ & _ & _ & Hq) & _).
Qed.

Lemma reachable_closed_ok s0 s :
  fresh_system s0 → rtc (system_step cs) s0 s → closed_ok cs s.
Proof.
  intros Hf%fresh_closed_ok. induction 1 as [|s1 s2 s3 Hs _ IH]; [done|].
  apply IH. by eapply step_ok.
Qed.

(** ** What the code relies on *)

(** The flits of channel [w] of [c], as in [channel_flits], and its freeing credits on the
    way back. *)
Definition system_flits s (c : chan) (w i : Z) : list flit_type :=
  vv_flits (nv_in (sviews s (ch_dst c)) (ch_in c) w) ++
  nv_link (sviews s (ch_dst c)) (ch_in c) w ++
  nv_queue (sviews s (ch_src c)) (ch_out c) w ++ nv_switch (sviews s (ch_src c)) i (ch_out c) w.

Definition system_frees s (c : chan) (w : Z) : nat :=
  (nv_free (sviews s (ch_dst c)) (ch_in c) w + nv_credit (sviews s (ch_src c)) (ch_out c) w)%nat.

Lemma read_single p l q :
  single l → read p l = Some q → l = [] ∧ q = p ∨ l = [HEAD_TAIL_] ∧ p = Fresh ∧ q = Complete.
Proof.
  destruct l as [|ty l]; intros Hs Hr; [by injection Hr as ->; left|].
  apply single_cons in Hs as [-> _]. cbn in Hr. destruct p; try done. cbn in Hr.
  apply read_complete in Hr as [-> ->]. by right.
Qed.

(** C4: one packet per channel, with nothing assumed of the interfaces.  In every state
    that the closed system reaches, by waking routers, interfaces and links in any order at
    any ticks, giving records of the trace to interfaces and letting controllers use the
    message buffers, every virtual channel of every channel carries one flit at most, from
    the buffer of its receiver back to the switch, or the output queues, of its sender.
    That flit is a packet of its own, comes from one input port, and its channel is marked
    as taken; when the channel is free again, there is neither a flit nor a freeing credit;
    there is never more than one freeing credit, and none while the flit is there. *)
Theorem closed_packet_integrity s0 s c w :
  fresh_system s0 → rtc (system_step cs) s0 s → c ∈ cs →
  ∃ i, (∀ j, j ≠ i → nv_switch (sviews s (ch_src c)) j (ch_out c) w = []) ∧
    match nv_out (sviews s (ch_src c)) (ch_out c) w with
    | IDLE_ => system_flits s c w i = [] ∧ system_frees s c w = 0%nat
    | ACTIVE_ => system_flits s c w i = [] ∧ (system_frees s c w ≤ 1)%nat ∨
                 system_flits s c w i = [HEAD_TAIL_] ∧ system_frees s c w = 0%nat
    | VC_AB_ => False
    end.
Proof.
  intros Hf Hr Hc. destruct (reachable_closed_ok _ _ Hf Hr) as [Ha Hs _].
  destruct (no_chan _ _ Ha c w Hc) as (i & [Hsw _] & p & Hp & Hcase). exists i. split; [done|].
  cbn in Hcase. fold (system_frees s c w) in Hcase.
  assert (rc_flits (receiver_of (sviews s (ch_dst c)) (ch_in c) w) ++
          sd_flits (sender_of (sviews s (ch_src c)) (ch_out c) w i) = system_flits s c w i) as E.
  { cbn. unfold system_flits. by rewrite <- app_assoc. }
  rewrite E in Hp. apply read_single in Hp.
  2:{ destruct (Hs (ch_dst c)) as (S1 & S2 & _), (Hs (ch_src c)) as (_ & _ & S3 & S4).
      unfold system_flits, single. rewrite !Forall_app. split_and!; [apply S1|apply S2|apply S3|apply S4]. }
  destruct (nv_out _ _ _); [|done|].
  - destruct Hcase as (-> & -> & _). by destruct Hp as [[-> _]|(_ & _ & ?)].
  - destruct Hp as [[-> _]|(-> & _ & ->)]; [left|right].
    + split; [done|]. destruct Hcase as [(_ & _ & ->)|[(_ & _ & ->)|(_ & _ & ->)]]; lia.
    + split; [done|]. by destruct Hcase as [(_ & ? & _)|[(_ & _ & ->)|(_ & ? & _)]].
Qed.


End closed.

(** ** Two routers between two interfaces

    The routers of [TwoRouters], with an interface that injects packets into router 0 and
    one that takes them from router 1. *)

Module ClosedExample.
Import ExampleMachines TwoRouters.
#[local] Existing Instance machines.

Definition build_station (id : Z) : result station :=
  b ← MessageBuffer.setConsumer (MessageBuffer.make 0 0 true rand_disabled false);
  '(n, _, credit_link, _) ←
    NetworkInterface.addOutPort config (NetworkInterface.make id 1 50000 clock) link link 0 1;
  let '(n, in_link, _) := NetworkInterface.addInPort n link link in
  n ← NetworkInterface.addNode n [None] [Some b];
  Ok (mkStation n [in_link] [credit_link]).

Definition stations : list station :=
  match st0 ← build_station 0; st1 ← build_station 3; Ok [st0; st1] with
  | Ok l => l
  | Err _ => []
  end.

Definition closed_start : system :=
  mkSystem start stations (NetStats.with_trace (NetStats.make 1 2 (-1)) 0 3 0 (Some false) false) ∅.

(** The interfaces are the ends -1 and -2 of the channels. *)
Definition injection : chan := mkChan (-1) 0 0 0.
Definition ejection : chan := mkChan 1 0 (-2) 0.
Definition closed_chans : list chan := [injection; the_chan; ejection].

Inductive action :=
| GetRecord (r : NetworkTraceRecord)
| WakesRouter (k : Z)
| WakesStation (j : Z)
| WakesChannel (c : chan)
| WakesCredits (c : chan).

Definition ni_env (j cur : Z) : NiEnv :=
  mkNiEnv config cur true (mkRubyFlags false false) (λ _ _, 1)
    (λ ni _, Ok (if ni =? 3 then 1 else 0)) (RouteInfo0 []) j.

Definition perform (t : Tick) (x : action) (s : system) : result system :=
  match x with
  | GetRecord r => on_ni 0 (λ n, NetworkInterface.enqueueTracePacket t n r) s
  | WakesRouter k => on_routers (wake_router (TwoRouters.env t) k) s
  | WakesStation j => wake_station (ni_env j t) j s
  | WakesChannel c => wake_channel t c s
  | WakesCredits c => wake_channel_credit t c s
  end.

Fixpoint perform_all (xs : list (Tick * action)) (s : system) : result system :=
  match xs with
  | [] => Ok s
  | (t, x) :: xs' => s ← perform t x s; perform_all xs' s
  end.

Definition wire_known (x : action) : Prop :=
  match x with WakesChannel c | WakesCredits c => c ∈ closed_chans | _ => True end.

Lemma perform_all_reachable xs s s' :
  Forall (λ x, wire_known x.2) xs → perform_all xs s = Ok s' → rtc (system_step closed_chans) s s'.
Proof.
  revert s. induction xs as [|[t x] xs IH]; intros s Hx Hp; cbn in Hp.
  - by injection Hp as <-.
  - apply Forall_cons in Hx as [Hk Hx]. step_bind Hp as s1 H1.
    eapply rtc_l; [|by apply IH]. destruct x; cbn in Hk, H1.
    + by eapply gets_record.
    + by eapply wakes_router.
    + by eapply wakes_station.
    + by eapply wakes_channel.
    + by eapply wakes_channel_credit.
Qed.

(** A packet of one flit, and a record after it. *)
Definition packet_record (time : Z) : NetworkTraceRecord :=
  mkTraceRecord true time 0 0 3 1 0 1 0 0 1.

(** The packet is on the link to router 1; it is on the link to the second interface. *)
Definition halfway_there : list (Tick * action) :=
  [(1000, GetRecord (packet_record 1)); (1000, GetRecord (packet_record 9));
   (2000, WakesStation 0); (3000, WakesChannel injection); (4000, WakesRouter 0);
   (5000, WakesChannel the_chan)].

Definition all_the_way : list (Tick * action) :=
  halfway_there ++ [(6000, WakesRouter 1); (7000, WakesChannel ejection)].

Definition state_after (xs : list (Tick * action)) : system :=
  match perform_all xs closed_start with Ok s => s | Err _ => closed_start end.

Lemma closed_wired : wired closed_chans.
Proof. split; repeat constructor; vm_compute; set_solver. Qed.

Lemma closed_fresh : fresh_system closed_start.
Proof. split; [exact start_fresh|]. repeat (constructor || split); vm_compute; try done; lia. Qed.

Lemma known : Forall (λ x, wire_known x.2) all_the_way.
Proof. repeat constructor; cbn; unfold closed_chans; set_solver. Qed.

Lemma half_reachable : rtc (system_step closed_chans) closed_start (state_after halfway_there).
Proof.
  apply (perform_all_reachable halfway_there); [|vm_compute; reflexivity].
  exact (proj1 (proj1 (Forall_app _ _ _) known)).
Qed.

Lemma all_reachable : rtc (system_step closed_chans) closed_start (state_after all_the_way).
Proof. apply (perform_all_reachable all_the_way); [apply known|vm_compute; reflexivity]. Qed.

Lemma on_link s c w i ty rest :
  nv_link (sviews s (ch_dst c)) (ch_in c) w = ty :: rest → system_flits s c w i ≠ [].
Proof. unfold system_flits. intros -> [_ [? _]%app_eq_nil]%app_eq_nil. done. Qed.

(** The channel between the routers carries the packet, and router 0 owes the interface the
    credit that frees the channel it came by. *)
Lemma closed_packet_integrity_witness :
  ∃ i j, system_flits (state_after halfway_there) the_chan 0 i = [HEAD_TAIL_] ∧
    system_flits (state_after halfway_there) injection 0 j = [] ∧
    (system_frees (state_after halfway_there) injection 0 ≤ 1)%nat.
Proof.
  destruct (closed_packet_integrity closed_chans closed_wired closed_start
    (state_after halfway_there) the_chan 0 closed_fresh half_reachable) as (i & Hi & Hc);
    [right; left|].
  destruct (closed_packet_integrity closed_chans closed_wired closed_start
    (state_after halfway_there) injection 0 closed_fresh half_reachable) as (j & Hj & Hd);
    [left|].
  assert (nv_out (sviews (state_after halfway_there) (ch_src the_chan)) (ch_out the_chan) 0 = ACTIVE_)
    as Ea by (vm_compute; reflexivity).
  assert (nv_out (sviews (state_after halfway_there) (ch_src injection)) (ch_out injection) 0 = ACTIVE_)
    as Eb by (vm_compute; reflexivity).
  rewrite Ea in Hc. rewrite Eb in Hd. exists i, j. split.
  - destruct Hc as [[Hn _]|[Hf _]]; [|exact Hf]. exfalso.
    refine (on_link _ _ _ _ HEAD_TAIL_ [] _ Hn). vm_compute. reflexivity.
  - destruct Hd as [Hd|[_ Hf]]; [exact Hd|]. vm_compute in Hf. discriminate Hf.
Defined.

Definition node_1 : node :=
  default (mkNode (Router.make 0 0 0 0 0 clock) [] [])
    (zlookup (sy_routers (state_after halfway_there)) 1).

Definition station_1 : station := default (mkStation (NetworkInterface.make 0 0 0 clock) [] [])
  (zlookup (sy_stations (state_after all_the_way)) 1).

Lemma node_1_at : zlookup (sy_routers (state_after halfway_there)) 1 = Some node_1.
Proof. vm_compute. reflexivity. Qed.

Lemma station_1_at : zlookup (sy_stations (state_after all_the_way)) 1 = Some station_1.
Proof. vm_compute. reflexivity. Qed.


End ClosedExample.
