(* ===== verification/ClosedCredit.v ===== *)
(** * Flow control of the closed system

    The credit protocol of [CreditProtocol] across the system of [ClosedNetwork]: routers and
    interfaces as the ends of the channels, nothing assumed of either.  What the wake-up of a
    router conserves comes from [FlowControl], what the wake-up of an interface does from
    [InterfaceFlow], and what a link does from [Links]. *)

From S2P Require Import Prelude.
From S2P Require Import IntMath.
From S2P Require Import NetDest.
From S2P Require Import Flit.
From S2P Require Import VirtualChannels.
From S2P Require Import Routing.
From S2P Require Import Clocking.
From S2P Require Import Links.
From S2P Require Import Pipeline.
From S2P Require Import MessageBuffer.
From S2P Require Import Statistics.
From S2P Require Import NetworkInterface.
From S2P Require Import InterfaceFlow.
From S2P Require Import FlowControl.
From S2P Require Import CreditProtocol.
From S2P Require Import PacketIntegrity.
From S2P Require Import ClosedNetwork.
From S2P Require Import WormholeInterface.
From S2P Require Import ClosedIntegrity.

(** ** What an interface keeps of its channels *)

Module NiKeeps.
Import NetworkInterface.

(** No size of a channel changes and no credit count leaves its range. *)
Definition ni_keeps (n n' : t) : Prop := Forall2 vc_keeps (outVcState n) (outVcState n').

#[export] Instance ni_keeps_preorder : PreOrder ni_keeps.
Proof. unfold ni_keeps. split; [by intros n|]. intros n1 n2 n3 H1 H2. by etransitivity. Qed.

Lemma keeps_units n n' : same_units n n' → ni_keeps n n'.
Proof. intros (_ & _ & E & _). unfold ni_keeps. by rewrite E. Qed.

Lemma keeps_sending n n' : same_sending n n' → ni_keeps n n'.
Proof. intros (_ & E & _ & _). unfold ni_keeps. by rewrite E. Qed.

Lemma keeps_vupd os p g os' :
  vupd os p g = Ok os' → (∀ o o', g o = Ok o' → vc_keeps o o') → Forall2 vc_keeps os os'.
Proof.
  unfold vupd. intros H1 Hg. step_bind H1 as o Ho. step_bind H1 as o' Ho'.
  eapply (Forall2_vset vc_keeps); eauto.
Qed.

Lemma setState_keeps o st tm : vc_keeps o (OutVcState.setState o st tm).
Proof. split; [done|]. by intros [? ?]. Qed.

Lemma injectTraceFlit_keeps cur n s vnet vc n' s' :
  injectTraceFlit cur n s vnet vc = Ok (n', s') → ni_keeps n n'.
Proof.
  unfold injectTraceFlit. intros H1. step_bind H1 as f Hf. step_bind H1 as vcs Hvcs.
  step_bind H1 as times Htm. step_bind H1 as os Hos. step_bind H1 as s1 Hs1.
  step_bind H1 as s2 Hs2. injection H1 as <- <-. unfold ni_keeps.
  eapply keeps_vupd; [exact Hos|]. intros o o' [= <-]. apply setState_keeps.
Qed.

Lemma send_from_keeps cur n port vc n' : send_from cur n port vc = Ok n' → ni_keeps n n'.
Proof.
  unfold send_from. intros H1. step_bind H1 as outs Houts. step_bind H1 as os Hos.
  step_bind H1 as q Hq. step_bind H1 as [f q'] Hf. step_bind H1 as vcs Hvcs.
  step_bind H1 as n1 (_ & Ho & _)%scheduleFlit_sent.
  assert (Forall2 vc_keeps (outVcState n) (outVcState n1)) as Hk.
  { rewrite Ho. eapply keeps_vupd; [exact Hos|].
    intros o o' (Hc & Hp & Hm & _)%OutVcState.decrement_credit_Ok. split; [done|].
    unfold OutVcState.wf. lia. }
  destruct (is_tail (flit_m_type f)).
  - step_bind H1 as times Htm. by injection H1 as <-.
  - by injection H1 as <-.
Qed.

Lemma schedule_from_keeps c cur port vc k n n' :
  schedule_from c cur port vc k n = Ok n' → ni_keeps n n'.
Proof.
  revert vc. induction k as [|k IH]; intros vc H1; cbn [schedule_from] in H1.
  - by injection H1 as <-.
  - step_bind H1 as tv Htv. step_bind H1 as o Ho.
    destruct (isVnetSupported (op_vnets o) tv); [|by eapply IH].
    step_bind H1 as can Hcan. destruct can; [by eapply send_from_keeps|by eapply IH].
Qed.

Lemma scheduleOutputLink_keeps c cur n n' : scheduleOutputLink c cur n = Ok n' → ni_keeps n n'.
Proof.
  unfold scheduleOutputLink. intros H1.
  eapply (for_range_inv (λ _ m, ni_keeps n m)) in H1; [done| |done].
  intros i m m' _ Hm H2. etransitivity; [exact Hm|]. unfold scheduleOutputPort in H2.
  step_bind H2 as o Ho. by eapply schedule_from_keeps.
Qed.

Lemma credit_port_keeps cur i n bufs n' bufs' :
  credit_port cur i (n, bufs) = Ok (n', bufs') → ni_keeps n n'.
Proof.
  unfold credit_port. intros H1. step_bind H1 as buf Hbuf.
  destruct (FlitBuffer.isReady buf cur); [|by injection H1 as <- <-].
  step_bind H1 as [c buf'] Hc. step_bind H1 as bufs1 Hb1. step_bind H1 as os Hos.
  step_bind H1 as free Hfree. step_bind H1 as os1 Hos1. injection H1 as <- <-.
  unfold ni_keeps. etransitivity.
  - eapply keeps_vupd; [exact Hos|]. intros o o' (? & ? & ? & _)%OutVcState.increment_credit_Ok.
    split; [done|]. unfold OutVcState.wf. lia.
  - cbn [outVcState with_outVcState]. destruct free; [|by injection Hos1 as <-].
    eapply keeps_vupd; [exact Hos1|]. intros o o' [= <-]. apply setState_keeps.
Qed.

Section wakeup.
  Context `{MachineTypes}.

Lemma inject_trace_keeps e n s n' s' : inject_trace e n s = Ok (n', s') → ni_keeps n n'.
Proof.
  unfold inject_trace. intros H1. step_bind H1 as [n1 s1] Ht.
  etransitivity.
  { apply keeps_units. instantiate (1 := n1).
    destruct (m_trace_injection_queue n), (m_trace_record_queue n);
      solve [by injection Ht as <- <- | by eapply transfer_units]. }
  destruct (m_trace_injection_queue n1) as [|f q]; [by injection H1 as <- <-|].
  step_bind H1 as [vc n2] Hvc%calculateVC_units%keeps_units. etransitivity; [exact Hvc|].
  destruct (negb (vc =? -1)); [by eapply injectTraceFlit_keeps|by injection H1 as <- <-].
Qed.

Lemma wakeup_keeps e n s store ibs cbs n' s' store' ibs' cbs' :
  wakeup e n s store ibs cbs = Ok (n', s', store', ibs', cbs') → ni_keeps n n'.
Proof.
  intros H1. unfold wakeup in H1. step_bind H1 as u Hu.
  step_bind H1 as [[n1 s1] st1] Hinj. step_bind H1 as n2 Hsend%scheduleOutputLink_keeps.
  step_bind H1 as [n3 s3] [Hst%keeps_sending _]%checkStallQueue_owes.
  step_bind H1 as [[n4 s4] ib] Hrecv. step_bind H1 as [n5 cb] Hcred.
  step_bind H1 as n6 Hco. step_bind H1 as n7 Hre%checkReschedule_units%keeps_units.
  injection H1 as <- <- <- <- <-.
  assert (ni_keeps n n1) as Hn1.
  { destruct (negb (ni_trace e)); [by apply take_messages_units, keeps_units in Hinj|].
    step_bind Hinj as [n8 s8] Hi%inject_trace_keeps. by injection Hinj as <- <- <-. }
  apply (for_range_inv (λ _ st, ni_keeps n3 st.1.1)) in Hrecv; [| |done].
  2:{ intros i [[m ms] bs] [[m' ms'] bs'] _ Hm [Hs%keeps_sending _]%receive_port_owes.
      by etransitivity. }
  apply (for_range_inv (λ _ st, ni_keeps n4 st.1)) in Hcred; [| |done].
  2:{ intros i [m bs] [m' bs'] _ Hm Hs%credit_port_keeps. by etransitivity. }
  apply (for_range_inv (λ _ m, ni_keeps n5 m)) in Hco; [| |done].
  2:{ intros i m m' _ Hm Hs%credit_out_units%keeps_units. by etransitivity. }
  cbn in Hrecv, Hcred.
  etransitivity; [exact Hn1|]. etransitivity; [exact Hsend|]. etransitivity; [exact Hst|].
  etransitivity; [exact Hrecv|]. etransitivity; [exact Hcred|]. by etransitivity.
Qed.

End wakeup.

End NiKeeps.

Import NiKeeps.

Section closed_credit.
  Context `{MachineTypes}.
  Implicit Types (s : system) (st : station).

(** ** What the ends of a channel hold *)

(** The credits an interface holds for virtual channel [v] of its output port, the flits
    it has sent, the credits on their way to it; the flits on their way to an input port,
    those held back there, the credits it owes. *)
Definition port_credits (o v : Z) st : Z :=
  if decide (o = 0) then ni_credits (st_ni st) v else 0.

Definition port_sent (o v : Z) st : Z :=
  at_ (λ p, nvc v (NetworkInterface.outFlitQueue p)) (NetworkInterface.outPorts (st_ni st)) o.

Definition station_out (o v : Z) st : Z :=
  port_credits o v st + port_sent o v st + at_ (link_nvc v) (st_credit st) o.

Definition station_in (i v : Z) st : Z :=
  down_slots (st_ni st) i v + at_ (link_nvc v) (st_in st) i.

(** What is [f] of a router or [g] of an interface. *)
Definition at_end (f : node → Z) (g : station → Z) s (k : Z) : Z :=
  if 0 <=? k then at_ f (sy_routers s) k else at_ g (sy_stations s) (station_of k).

Definition s_out s (k o v : Z) : Z := at_end (node_out o v) (station_out o v) s k.

Definition s_in s (k i v : Z) : Z := at_end (node_in i v) (station_in i v) s k.

Definition system_slots s (c : chan) (v : Z) : Z :=
  s_out s (ch_src c) (ch_out c) v + s_in s (ch_dst c) (ch_in c) v.

(** [s'] holds [x v] more at input port [i] of [k]; at output port [o]. *)
Definition s_in_change (k i : Z) (x : Z → Z) s s' : Prop :=
  (∀ k' o v, s_out s' k' o v = s_out s k' o v) ∧
  (∀ k' i' v, s_in s' k' i' v =
     s_in s k' i' v + if decide ((k', i') = (k, i)) then x v else 0).

Definition s_out_change (k o : Z) (x : Z → Z) s s' : Prop :=
  (∀ k' i v, s_in s' k' i v = s_in s k' i v) ∧
  (∀ k' o' v, s_out s' k' o' v =
     s_out s k' o' v + if decide ((k', o') = (k, o)) then x v else 0).

(** A change of the routers is a change of the system. *)
Lemma routers_in_change s n' k i x :
  (0 <=? k) = true → in_change k i x (sy_routers s) n' → s_in_change k i x s (with_routers s n').
Proof.
  intros Hk [Ho Hi]. unfold s_in_change, s_out, s_in, at_end. cbn.
  split; intros k' p v; destruct (0 <=? k') eqn:Hk'; auto.
  rewrite decide_False; [lia|]. intros [= -> ->]. congruence.
Qed.

Lemma routers_out_change s n' k o x :
  (0 <=? k) = true → out_change k o x (sy_routers s) n' → s_out_change k o x s (with_routers s n').
Proof.
  intros Hk [Hi Ho]. unfold s_out_change, s_out, s_in, at_end. cbn.
  split; intros k' p v; destruct (0 <=? k') eqn:Hk'; auto.
  rewrite decide_False; [lia|]. intros [= -> ->]. congruence.
Qed.

(** A change of one interface. *)
Lemma station_change (f : Z → station → Z) s k st st' ls' k' p p' (x : Z) :
  vget (sy_stations s) (station_of k) = Ok st → vset (sy_stations s) (station_of k) st' = Ok ls' →
  f p' st' = f p' st + (if decide (p' = p) then x else 0) →
  at_ (f p') ls' (station_of k') =
    at_ (f p') (sy_stations s) (station_of k') + if decide ((k', p') = (k, p)) then x else 0.
Proof.
  intros Hst Hset Hf. rewrite (at_vset _ _ _ _ _ (station_of k') Hset), <- if_decide_pair.
  destruct (decide (k' = k)) as [->|Hne].
  - rewrite decide_True by done. by rewrite (at_vget _ _ _ _ Hst).
  - rewrite decide_False; [lia|]. intros E%station_of_inj. done.
Qed.

Lemma station_same (f : station → Z) s k st st' ls' k' :
  vget (sy_stations s) (station_of k) = Ok st → vset (sy_stations s) (station_of k) st' = Ok ls' →
  f st' = f st → at_ f ls' (station_of k') = at_ f (sy_stations s) (station_of k').
Proof.
  intros Hst Hset Hf. rewrite (at_vset _ _ _ _ _ (station_of k') Hset).
  case_decide as E; [|done]. by rewrite E, (at_vget _ _ _ _ Hst).
Qed.

Lemma station_in_change s k i st st' ls' (x : Z → Z) :
  (0 <=? k) = false →
  vget (sy_stations s) (station_of k) = Ok st → vset (sy_stations s) (station_of k) st' = Ok ls' →
  (∀ o v, station_out o v st' = station_out o v st) →
  (∀ i' v, station_in i' v st' = station_in i' v st + if decide (i' = i) then x v else 0) →
  s_in_change k i x s (with_stations s ls').
Proof.
  intros Hk Hst Hset Ho Hi. unfold s_in_change, s_out, s_in, at_end. cbn.
  split; intros k' p v; destruct (0 <=? k') eqn:Hk'.
  - done.
  - by eapply station_same.
  - rewrite decide_False; [lia|]. intros [= -> ->]. congruence.
  - by eapply (station_change (λ i, station_in i v)).
Qed.

Lemma station_out_change s k o st st' ls' (x : Z → Z) :
  (0 <=? k) = false →
  vget (sy_stations s) (station_of k) = Ok st → vset (sy_stations s) (station_of k) st' = Ok ls' →
  (∀ i v, station_in i v st' = station_in i v st) →
  (∀ o' v, station_out o' v st' = station_out o' v st + if decide (o' = o) then x v else 0) →
  s_out_change k o x s (with_stations s ls').
Proof.
  intros Hk Hst Hset Hi Ho. unfold s_out_change, s_out, s_in, at_end. cbn.
  split; intros k' p v; destruct (0 <=? k') eqn:Hk'.
  - done.
  - by eapply station_same.
  - rewrite decide_False; [lia|]. intros [= -> ->]. congruence.
  - by eapply (station_change (λ o, station_out o v)).
Qed.

(** ** The pieces the links touch *)

Lemma set_link_change k i l s s' l0 :
  get_link k i s = Ok l0 → set_link k i l s = Ok s' →
  s_in_change k i (λ v, link_nvc v l - link_nvc v l0) s s'.
Proof.
  unfold get_link, set_link, of_station. destruct (0 <=? k) eqn:Hk; intros Hg Hs.
  - unfold on_routers in Hs. step_bind Hs as n Hn. injection Hs as <-.
    apply routers_in_change; [done|]. by eapply set_in_link_change.
  - unfold on_station, vupd in Hs. step_bind Hs as ls Hls. injection Hs as <-.
    step_bind Hls as st Hst. rewrite Hst in Hg. cbn [rbind] in Hg. step_bind Hls as st' Hst'.
    unfold set_ni_link in Hst'. step_bind Hst' as ins Hi. injection Hst' as <-.
    eapply station_in_change; [done|exact Hst|exact Hls|done|]. intros i' v. unfold station_in. cbn.
    rewrite (at_vset _ _ _ _ _ i' Hi). case_decide; [|lia]. subst. rewrite (at_vget _ _ _ _ Hg). lia.
Qed.

Lemma set_back_link_change k o l s s' l0 :
  get_back_link k o s = Ok l0 → set_back_link k o l s = Ok s' →
  s_out_change k o (λ v, link_nvc v l - link_nvc v l0) s s'.
Proof.
  unfold get_back_link, set_back_link, of_station. destruct (0 <=? k) eqn:Hk; intros Hg Hs.
  - unfold on_routers in Hs. step_bind Hs as n Hn. injection Hs as <-.
    apply routers_out_change; [done|]. by eapply set_credit_link_change.
  - unfold on_station, vupd in Hs. step_bind Hs as ls Hls. injection Hs as <-.
    step_bind Hls as st Hst. rewrite Hst in Hg. cbn [rbind] in Hg. step_bind Hls as st' Hst'.
    unfold set_ni_credit_link in Hst'. step_bind Hst' as ins Hi. injection Hst' as <-.
    eapply station_out_change; [done|exact Hst|exact Hls|done|]. intros o' v. unfold station_out. cbn.
    rewrite (at_vset _ _ _ _ _ o' Hi). unfold port_credits, port_sent. cbn.
    destruct (decide (o' = o)) as [->|]; [|lia]. rewrite (at_vget _ _ _ _ Hg). lia.
Qed.

Lemma set_queue_change k o q s s' q0 :
  get_queue k o s = Ok q0 → set_queue k o q s = Ok s' →
  s_out_change k o (λ v, nvc v q - nvc v q0) s s'.
Proof.
  unfold get_queue, set_queue, of_station. destruct (0 <=? k) eqn:Hk; intros Hg Hs.
  - unfold on_routers in Hs. step_bind Hs as n Hn. injection Hs as <-.
    apply routers_out_change; [done|]. by eapply set_outBuffer_change.
  - unfold on_station, vupd in Hs. step_bind Hs as ls Hls. injection Hs as <-.
    step_bind Hls as st Hst. rewrite Hst in Hg. cbn [rbind] in Hg. step_bind Hls as st' Hst'.
    unfold ni_queue in Hg. step_bind Hg as p0 Hp0. injection Hg as <-.
    unfold set_ni_queue, vupd in Hst'. step_bind Hst' as ps Hps. injection Hst' as <-.
    step_bind Hps as p Hp. same_result. step_bind Hps as p' Hp'. injection Hp' as <-.
    eapply station_out_change; [done|exact Hst|exact Hls|done|]. intros o' v.
    unfold station_out, port_credits, port_sent. cbn. rewrite (at_vset _ _ _ _ _ o' Hps).
    destruct (decide (o' = o)) as [->|]; [|unfold ni_credits; cbn; lia].
    rewrite (at_vget _ _ _ _ Hp0). unfold ni_credits. cbn. lia.
Qed.

Lemma set_credits_change k i q s s' q0 :
  get_credits k i s = Ok q0 → set_credits k i q s = Ok s' →
  s_in_change k i (λ v, nvc v q - nvc v q0) s s'.
Proof.
  unfold get_credits, set_credits, of_station. destruct (0 <=? k) eqn:Hk; intros Hg Hs.
  - unfold on_routers in Hs. step_bind Hs as n Hn. injection Hs as <-.
    apply routers_in_change; [done|]. by eapply set_creditQueue_change.
  - unfold on_station, vupd in Hs. step_bind Hs as ls Hls. injection Hs as <-.
    step_bind Hls as st Hst. rewrite Hst in Hg. cbn [rbind] in Hg. step_bind Hls as st' Hst'.
    unfold ni_credits_out in Hg. step_bind Hg as p0 Hp0. injection Hg as <-.
    unfold set_ni_credits_out, vupd in Hst'. step_bind Hst' as ps Hps. injection Hst' as <-.
    step_bind Hps as p Hp. same_result. step_bind Hps as p' Hp'. injection Hp' as <-.
    eapply station_in_change; [done|exact Hst|exact Hls|done|]. intros i' v.
    unfold station_in, down_slots. cbn. rewrite (at_vset _ _ _ _ _ i' Hps).
    destruct (decide (i' = i)) as [->|]; [|lia]. rewrite (at_vget _ _ _ _ Hp0).
    unfold port_slots. cbn. lia.
Qed.

(** A link that is replaced leaves the queues alone. *)
Lemma on_station_ni k f s s' k' :
  (∀ st st', f st = Ok st' → st_ni st' = st_ni st) → on_station k f s = Ok s' →
  sy_routers s' = sy_routers s ∧
  st_ni <$> zlookup (sy_stations s') k' = st_ni <$> zlookup (sy_stations s) k'.
Proof.
  unfold on_station, vupd. intros Hf Hs. step_bind Hs as ls Hls. injection Hs as <-.
  step_bind Hls as st Hst%vget_Ok. step_bind Hls as st' Hst'%Hf. split; [done|]. cbn.
  apply vset_replaced in Hls. rewrite Hls. case_decide; [|done]. subst. rewrite Hst. cbn.
  by rewrite Hst'.
Qed.

Lemma get_queue_same k o s s' :
  (∀ j, nd_router <$> zlookup (sy_routers s') j = nd_router <$> zlookup (sy_routers s) j) →
  (∀ j, st_ni <$> zlookup (sy_stations s') j = st_ni <$> zlookup (sy_stations s) j) →
  get_queue k o s' = get_queue k o s.
Proof.
  intros Hr Hn. unfold get_queue, of_station, vget. destruct (0 <=? k).
  - apply get_outBuffer_routers. apply Hr.
  - specialize (Hn (station_of k)).
    destruct (zlookup (sy_stations s') _), (zlookup (sy_stations s) _); cbn in *; try done.
    injection Hn as Hn. unfold ni_queue. by rewrite Hn.
Qed.

Lemma get_credits_same k i s s' :
  (∀ j, nd_router <$> zlookup (sy_routers s') j = nd_router <$> zlookup (sy_routers s) j) →
  (∀ j, st_ni <$> zlookup (sy_stations s') j = st_ni <$> zlookup (sy_stations s) j) →
  get_credits k i s' = get_credits k i s.
Proof.
  intros Hr Hn. unfold get_credits, of_station, vget. destruct (0 <=? k).
  - apply get_creditQueue_routers. apply Hr.
  - specialize (Hn (station_of k)).
    destruct (zlookup (sy_stations s') _), (zlookup (sy_stations s) _); cbn in *; try done.
    injection Hn as Hn. unfold ni_credits_out. by rewrite Hn.
Qed.

Lemma set_link_units k i l s s' :
  set_link k i l s = Ok s' →
  (∀ j, nd_router <$> zlookup (sy_routers s') j = nd_router <$> zlookup (sy_routers s) j) ∧
  (∀ j, st_ni <$> zlookup (sy_stations s') j = st_ni <$> zlookup (sy_stations s) j).
Proof.
  unfold set_link. destruct (0 <=? k); intros Hs.
  - unfold on_routers in Hs. step_bind Hs as n Hn. injection Hs as <-. split; [|done].
    intros j. by eapply set_in_link_routers.
  - split; intros j; edestruct (on_station_ni k (set_ni_link i l) s s' j) as [E1 E2];
      [|exact Hs|by rewrite E1| |exact Hs|done]; unfold set_ni_link;
      intros st st' Hst; step_bind Hst as x Hx; by injection Hst as <-.
Qed.

Lemma set_back_link_units k o l s s' :
  set_back_link k o l s = Ok s' →
  (∀ j, nd_router <$> zlookup (sy_routers s') j = nd_router <$> zlookup (sy_routers s) j) ∧
  (∀ j, st_ni <$> zlookup (sy_stations s') j = st_ni <$> zlookup (sy_stations s) j).
Proof.
  unfold set_back_link. destruct (0 <=? k); intros Hs.
  - unfold on_routers in Hs. step_bind Hs as n Hn. injection Hs as <-. split; [|done].
    intros j. by eapply set_credit_link_routers.
  - split; intros j; edestruct (on_station_ni k (set_ni_credit_link o l) s s' j) as [E1 E2];
      [|exact Hs|by rewrite E1| |exact Hs|done]; unfold set_ni_credit_link;
      intros st st' Hst; step_bind Hst as x Hx; by injection Hst as <-.
Qed.

(** ** Every step conserves the slots of every channel *)

Variable cs : list chan.
Hypothesis cs_wired : wired cs.

Lemma s_changes_cancel c s s1 s2 (x y : Z → Z) :
  c ∈ cs →
  (s_in_change (ch_dst c) (ch_in c) x s s1 ∧ s_out_change (ch_src c) (ch_out c) y s1 s2 ∨
   s_out_change (ch_src c) (ch_out c) y s s1 ∧ s_in_change (ch_dst c) (ch_in c) x s1 s2) →
  (∀ v, x v + y v = 0) →
  ∀ c' v, c' ∈ cs → system_slots s2 c' v = system_slots s c' v.
Proof.
  intros Hc Hch Hxy c' v Hc'. unfold system_slots. specialize (Hxy v).
  assert (s_in s2 (ch_dst c') (ch_in c') v = s_in s (ch_dst c') (ch_in c') v +
            (if decide ((ch_dst c', ch_in c') = (ch_dst c, ch_in c)) then x v else 0) ∧
          s_out s2 (ch_src c') (ch_out c') v = s_out s (ch_src c') (ch_out c') v +
            (if decide ((ch_src c', ch_out c') = (ch_src c, ch_out c)) then y v else 0))
    as [-> ->].
  { destruct Hch as [[[Ho1 Hi1] [Hi2 Ho2]]|[[Hi1 Ho1] [Ho2 Hi2]]]; split;
      rewrite ?Ho2, ?Hi2, ?Hi1, ?Ho1; done. }
  destruct (decide (c' = c)) as [->|Hne].
  - rewrite !decide_True by done. lia.
  - rewrite !decide_False; [lia|intros He; apply Hne..];
      first [by apply (wired_src cs)|by apply (wired_dst cs)].
Qed.

Lemma wake_channel_slots cur c s s' :
  c ∈ cs → wake_channel cur c s = Ok s' →
  ∀ c' v, c' ∈ cs → system_slots s' c' v = system_slots s c' v.
Proof.
  intros Hc Hw. unfold wake_channel in Hw. step_bind Hw as q Hq. step_bind Hw as l Hl.
  step_bind Hw as [[l' q'] sch] Hwk. step_bind Hw as s1 Hs1.
  destruct (set_link_units _ _ _ _ _ Hs1) as [Hr Hn].
  rewrite <- (get_queue_same _ (ch_out c) _ _ Hr Hn) in Hq.
  eapply s_changes_cancel; [done| |].
  - left. split; [by eapply set_link_change|by eapply set_queue_change].
  - intros v. apply (LinkFacts.wakeup_conserves v) in Hwk. unfold link_nvc. cbn. lia.
Qed.

Lemma wake_channel_credit_slots cur c s s' :
  c ∈ cs → wake_channel_credit cur c s = Ok s' →
  ∀ c' v, c' ∈ cs → system_slots s' c' v = system_slots s c' v.
Proof.
  intros Hc Hw. unfold wake_channel_credit in Hw. step_bind Hw as q Hq. step_bind Hw as l Hl.
  step_bind Hw as [[l' q'] sch] Hwk. step_bind Hw as s1 Hs1.
  destruct (set_back_link_units _ _ _ _ _ Hs1) as [Hr Hn].
  rewrite <- (get_credits_same _ (ch_in c) _ _ Hr Hn) in Hq.
  eapply s_changes_cancel; [done| |].
  - right. split; [by eapply set_back_link_change|by eapply set_credits_change].
  - intros v. apply (LinkFacts.wakeup_conserves v) in Hwk. unfold link_nvc. cbn. lia.
Qed.

(** The only element of a list. *)
Lemma sum_over_one {A} (f : A → Z) l : length l = 1%nat → sum_over f l = at_ f l 0.
Proof. destruct l as [|a [|]]; try done. intros _. unfold sum_over, at_, zlookup. simpl. lia. Qed.

Lemma at_beyond {A} (f : A → Z) l o : length l = 1%nat → o ≠ 0 → at_ f l o = 0.
Proof.
  intros Hl Ho. apply at_none. destruct (zlookup l o) eqn:E; [|done]. apply zlookup_lt in E.
  unfold zlen in E. lia.
Qed.

Lemma station_out_slots st o v :
  length (NetworkInterface.outPorts (st_ni st)) = 1%nat → length (st_credit st) = 1%nat →
  station_out o v st = if decide (o = 0) then
    up_slots (st_ni st) v + sum_over (nvc v) (NetworkLink.linkBuffer <$> st_credit st) else 0.
Proof.
  intros Hp Hc. unfold station_out, port_credits, port_sent, up_slots, ni_sent.
  case_decide as Ho; [subst|by rewrite !at_beyond].
  rewrite (sum_over_one _ (NetworkInterface.outPorts _)), sum_over_one, <- link_buffers_at;
    [lia|by rewrite length_fmap|done].
Qed.

(** The interfaces have one credit link. *)
Definition one_link s : Prop := Forall (λ st, length (st_credit st) = 1%nat) (sy_stations s).

(** An interface that is replaced by one with the same slots. *)
Lemma station_slots s j st st' ls' stats store :
  vget (sy_stations s) j = Ok st → vset (sy_stations s) j st' = Ok ls' →
  (∀ o v, station_out o v st' = station_out o v st) →
  (∀ i v, station_in i v st' = station_in i v st) →
  ∀ c v, system_slots (mkSystem (sy_routers s) ls' stats store) c v = system_slots s c v.
Proof.
  intros Hst Hset Ho Hi c v. unfold system_slots, s_out, s_in, at_end. cbn.
  assert (∀ f : station → Z, f st' = f st → ∀ k, at_ f ls' k = at_ f (sy_stations s) k) as Hf.
  { intros f Hf k. rewrite (at_vset _ _ _ _ _ k Hset). case_decide as E; [|done].
    by rewrite E, (at_vget _ _ _ _ Hst). }
  by rewrite !Hf.
Qed.

Lemma wake_station_slots e j s s' :
  closed_ok cs s → one_link s → wake_station e j s = Ok s' →
  (∀ c v, system_slots s' c v = system_slots s c v) ∧ one_link s'.
Proof.
  intros Hok H1 Hw. pose proof Hw as Hw'. unfold wake_station in Hw. step_bind Hw as st Hst.
  step_bind Hw as [[[[n stats] store] ibs] cbs] Hn. step_bind Hw as ls Hls. injection Hw as <-.
  pose proof (Forall_zlookup _ _ _ _ H1 (proj1 (vget_Ok _ _ _) Hst)) as Hl. cbn in Hl.
  pose proof (Forall_zlookup _ _ _ _ (proj2 (co_units _ _ Hok)) (proj1 (vget_Ok _ _ _) Hst)) as Hni.
  destruct (wake_station_ok cs e j s _ Hok Hw') as [_ _ [_ Hu']].
  pose proof (replaced_eq _ _ _ _ (vset_replaced _ _ _ _ Hls)) as Hr.
  pose proof (Forall_zlookup _ _ _ _ Hu' Hr) as Hni'. cbn in Hni, Hni'.
  destruct (ni_wakeup_lengths _ _ _ _ _ _ _ _ _ _ _ Hn) as [L1 L2]. rewrite length_fmap in L1, L2.
  destruct (interface_flow_control _ _ _ _ _ _ _ _ _ _ _ (ni_tagged _ Hni) Hn) as (_ & Hup & Hdn).
  assert (length (with_buffers (st_credit st) cbs) = 1%nat) as Hl'.
  { unfold with_buffers. rewrite length_zip_with. lia. }
  split; [|eapply Forall_vset; [exact H1| |exact Hls]; exact Hl'].
  eapply station_slots; [exact Hst|exact Hls|..].
  - intros o v. rewrite !station_out_slots; cbn [st_ni st_credit];
      [|exact (ni_one_port _ Hni)|done|exact (ni_one_port _ Hni')|done].
    case_decide; [|done]. rewrite link_buffers by done. apply Hup.
  - intros i v. unfold station_in. cbn. rewrite with_buffers_at, link_buffers_at by done. apply Hdn.
Qed.

Lemma on_ni_slots j f s s' :
  (∀ n n', f n = Ok n' → same_flits n n') → on_ni j f s = Ok s' →
  (∀ c v, system_slots s' c v = system_slots s c v) ∧ (one_link s → one_link s').
Proof.
  intros Hf Hw. unfold on_ni in Hw. step_bind Hw as ls Hls. injection Hw as <-.
  unfold vupd in Hls. step_bind Hls as st Hst. step_bind Hls as st' Hst'.
  step_bind Hst' as n' [(Ho & Hi & Hv & _) _]%Hf. injection Hst' as <-. split.
  - eapply (station_slots s j st _ ls (sy_stats s) (sy_store s)); [exact Hst|exact Hls|..];
      intros p v; unfold station_out, station_in, port_credits, port_sent, ni_credits, down_slots;
      cbn; by rewrite ?Ho, ?Hi, ?Hv.
  - intros H1. eapply Forall_vset; [exact H1| |exact Hls]. cbn.
    exact (Forall_zlookup _ _ _ _ H1 (proj1 (vget_Ok _ _ _) Hst)).
Qed.

(** ** Every step keeps the sizes of the channels *)

Definition station_keeps st st' : Prop :=
  ni_keeps (st_ni st) (st_ni st') ∧ length (st_credit st') = length (st_credit st).

Definition system_keeps s s' : Prop :=
  Forall2 node_keeps (sy_routers s) (sy_routers s') ∧
  Forall2 station_keeps (sy_stations s) (sy_stations s').

#[local] Instance node_keeps_pre : PreOrder node_keeps.
Proof. unfold node_keeps. split; [by intros d|]. intros d1 d2 d3 H1 H2. by etransitivity. Qed.

#[local] Instance station_keeps_pre : PreOrder station_keeps.
Proof.
  split; [by intros st|]. intros s1 s2 s3 [K1 L1] [K2 L2]. split; [by etransitivity|congruence].
Qed.

#[local] Instance system_keeps_pre : PreOrder system_keeps.
Proof.
  split; [by intros s|]. intros s1 s2 s3 [R1 S1] [R2 S2]. split; by etransitivity.
Qed.

Lemma system_keeps_one_link s s' : system_keeps s s' → one_link s → one_link s'.
Proof.
  intros [_ Hk] H1. unfold one_link in *. induction Hk as [|st st' l l' [_ E] _ IH]; [done|].
  apply Forall_cons in H1 as [E1 H1]. constructor; [congruence|auto].
Qed.

Lemma routers_keep s n' :
  Forall2 node_keeps (sy_routers s) n' → system_keeps s (with_routers s n').
Proof. by split. Qed.

Lemma on_station_keeps k f s s' :
  (∀ st st', f st = Ok st' → station_keeps st st') → on_station k f s = Ok s' → system_keeps s s'.
Proof.
  unfold on_station, vupd. intros Hf Hs. step_bind Hs as ls Hls. injection Hs as <-.
  step_bind Hls as st Hst. step_bind Hls as st' Hst'%Hf. split; [done|].
  by eapply (Forall2_vset station_keeps).
Qed.

Lemma set_link_keeps k i l s s' : set_link k i l s = Ok s' → system_keeps s s'.
Proof.
  unfold set_link. destruct (0 <=? k); intros Hs.
  - unfold on_routers in Hs. step_bind Hs as n Hn%set_in_link_keeps. by injection Hs as <-.
  - eapply on_station_keeps; [|exact Hs]. unfold set_ni_link. intros st st' Hst.
    step_bind Hst as x Hx. by injection Hst as <-.
Qed.

Lemma set_queue_keeps k o q s s' : set_queue k o q s = Ok s' → system_keeps s s'.
Proof.
  unfold set_queue. destruct (0 <=? k); intros Hs.
  - unfold on_routers in Hs. step_bind Hs as n Hn%set_outBuffer_keeps. by injection Hs as <-.
  - eapply on_station_keeps; [|exact Hs]. unfold set_ni_queue. intros st st' Hst.
    step_bind Hst as x Hx. injection Hst as <-. split; [|done]. by unfold ni_keeps.
Qed.

Lemma set_back_link_keeps k o l s s' : set_back_link k o l s = Ok s' → system_keeps s s'.
Proof.
  unfold set_back_link. destruct (0 <=? k); intros Hs.
  - unfold on_routers in Hs. step_bind Hs as n Hn%set_credit_link_keeps. by injection Hs as <-.
  - eapply on_station_keeps; [|exact Hs]. unfold set_ni_credit_link. intros st st' Hst.
    step_bind Hst as x [_ ->]%vset_Ok. injection Hst as <-. split; [done|]. cbn. apply length_insert.
Qed.

Lemma set_credits_keeps k i q s s' : set_credits k i q s = Ok s' → system_keeps s s'.
Proof.
  unfold set_credits. destruct (0 <=? k); intros Hs.
  - unfold on_routers in Hs. step_bind Hs as n Hn%set_creditQueue_keeps. by injection Hs as <-.
  - eapply on_station_keeps; [|exact Hs]. unfold set_ni_credits_out. intros st st' Hst.
    step_bind Hst as x Hx. injection Hst as <-. split; [|done]. by unfold ni_keeps.
Qed.

Lemma on_ni_keeps j f s s' :
  (∀ n n', f n = Ok n' → same_flits n n') → on_ni j f s = Ok s' → system_keeps s s'.
Proof.
  unfold on_ni, vupd. intros Hf Hs. step_bind Hs as ls Hls. injection Hs as <-.
  step_bind Hls as st Hst. step_bind Hls as st' Hst'. step_bind Hst' as n [Hn _]%Hf.
  injection Hst' as <-. split; [done|].
  eapply (Forall2_vset station_keeps); [exact Hst| |exact Hls]. split; [by apply keeps_units|done].
Qed.

(** The steps of other objects on an interface. *)
Lemma record_same_flits cur r n n' :
  NetworkInterface.enqueueTracePacket cur n r = Ok n' → same_flits n n'.
Proof.
  unfold NetworkInterface.enqueueTracePacket. intros Hn%scheduleEvent_flits. by etransitivity.
Qed.

Lemma callback_same_flits cur n n' :
  NetworkInterface.dequeueCallback cur n = Ok n' → same_flits n n'.
Proof. unfold NetworkInterface.dequeueCallback. intros Hn. by inv_result. Qed.

Lemma system_step_keeps s s' : system_step cs s s' → system_keeps s s'.
Proof.
  intros [e k Hw|e j Hw|cur c Hc Hw|cur c Hc Hw|cur j r Hw|cur j Hw|j ins outs store s1 Hw ->].
  - unfold on_routers in Hw. step_bind Hw as n Hn. injection Hw as <-. apply routers_keep.
    apply (step_keeps cs). by eapply step_router.
  - unfold wake_station in Hw. step_bind Hw as st Hst.
    step_bind Hw as [[[[n stats] store] ibs] cbs] Hn. step_bind Hw as ls Hls. injection Hw as <-.
    destruct (ni_wakeup_lengths _ _ _ _ _ _ _ _ _ _ _ Hn) as [_ L2]. rewrite length_fmap in L2.
    apply wakeup_keeps in Hn. split; [done|].
    eapply (Forall2_vset station_keeps); [exact Hst| |exact Hls]. split; [done|]. cbn.
    unfold with_buffers. rewrite length_zip_with. lia.
  - unfold wake_channel in Hw. step_bind Hw as q _. step_bind Hw as l _.
    step_bind Hw as [[l' q'] sch] _. step_bind Hw as s1 Hs1%set_link_keeps.
    etransitivity; [exact Hs1|by eapply set_queue_keeps].
  - unfold wake_channel_credit in Hw. step_bind Hw as q _. step_bind Hw as l _.
    step_bind Hw as [[l' q'] sch] _. step_bind Hw as s1 Hs1%set_back_link_keeps.
    etransitivity; [exact Hs1|by eapply set_credits_keeps].
  - eapply on_ni_keeps; [|exact Hw]. apply record_same_flits.
  - eapply on_ni_keeps; [|exact Hw]. apply callback_same_flits.
  - apply on_ni_keeps in Hw as [? ?]; [by split|]. by intros n n' [= <-].
Qed.

Lemma system_step_slots s s' c v :
  closed_ok cs s → one_link s → system_step cs s s' → c ∈ cs →
  system_slots s' c v = system_slots s c v.
Proof.
  intros Hok H1 Hs Hc.
  destruct Hs as [e k Hw|e j Hw|cur c' Hc' Hw|cur c' Hc' Hw|cur j r Hw|cur j Hw
    |j ins outs store s1 Hw ->].
  - unfold on_routers in Hw. step_bind Hw as n Hn. injection Hw as <-.
    destruct (wake_router_same _ _ _ _ Hn) as [Ho Hi].
    unfold system_slots, s_out, s_in, at_end. cbn. by rewrite Ho, Hi.
  - by apply (wake_station_slots e j s s').
  - by apply (wake_channel_slots cur c').
  - by apply (wake_channel_credit_slots cur c').
  - eapply on_ni_slots; [|exact Hw]. apply record_same_flits.
  - eapply on_ni_slots; [|exact Hw]. apply callback_same_flits.
  - apply on_ni_slots in Hw as [Hsl _]; [|by intros n n' [= <-]]. rewrite <- Hsl. done.
Qed.

Lemma reachable_slots s0 s c v :
  fresh_system s0 → rtc (system_step cs) s0 s → c ∈ cs →
  system_slots s c v = system_slots s0 c v ∧ system_keeps s0 s ∧ one_link s.
Proof.
  intros Hf Hr Hc. assert (one_link s0) as H1.
  { eapply Forall_impl; [exact (proj2 Hf)|]. intros st (_ & _ & _ & _ & _ & _ & _ & _ & E). exact E. }
  apply fresh_closed_ok with (cs := cs) in Hf.
  induction Hr as [|s1 s2 s3 Hs _ IH]; [done|].
  pose proof (system_step_keeps _ _ Hs) as Hk.
  destruct IH as (E & K & L); [by eapply step_ok|by eapply system_keeps_one_link|].
  split_and!; [|by etransitivity|done]. rewrite E. by apply system_step_slots.
Qed.

(** ** The protocol *)

(** What the sender of [c] knows of virtual channel [v]. *)
Definition sender_vc s (c : chan) (v : Z) : option OutVcState.t :=
  if 0 <=? ch_src c then out_vc (sy_routers s) c v
  else zlookup (sy_stations s) (station_of (ch_src c)) ≫= λ st,
       if decide (ch_out c = 0) then zlookup (NetworkInterface.outVcState (st_ni st)) v else None.

(** The flits on their way, those the receiver has buffered, or holds back, and the credits
    on their way. *)
Definition under_way s (c : chan) (v : Z) : Z :=
  at_end (λ d, switched (nd_router d) (ch_out c) v + outq (nd_router d) (ch_out c) v)
    (port_sent (ch_out c) v) s (ch_src c) +
  at_end (λ d, at_ (link_nvc v) (nd_in d) (ch_in c))
    (λ st, at_ (link_nvc v) (st_in st) (ch_in c)) s (ch_dst c).

Definition held s (c : chan) (v : Z) : Z :=
  at_end (λ d, buffered (nd_router d) (ch_in c) v)
    (λ st, at_ (λ p, stalled v (NetworkInterface.m_stall_queue p))
             (NetworkInterface.inPorts (st_ni st)) (ch_in c)) s (ch_dst c).

Definition owed s (c : chan) (v : Z) : Z :=
  at_end (λ d, creditq (nd_router d) (ch_in c) v)
    (λ st, at_ (λ p, nvc v (NetworkInterface.outCreditQueue p))
             (NetworkInterface.inPorts (st_ni st)) (ch_in c)) s (ch_dst c) +
  at_end (λ d, at_ (link_nvc v) (nd_credit d) (ch_out c))
    (λ st, at_ (link_nvc v) (st_credit st) (ch_out c)) s (ch_src c).

Lemma at_add {A} (f g : A → Z) l i : at_ (λ a, f a + g a) l i = at_ f l i + at_ g l i.
Proof. unfold at_. destruct (zlookup l i); lia. Qed.

Lemma at_end_add f f' g g' s k :
  at_end (λ d, f d + f' d) (λ st, g st + g' st) s k = at_end f g s k + at_end f' g' s k.
Proof. unfold at_end. destruct (0 <=? k); apply at_add. Qed.

Lemma at_end_ext f f' g g' s k :
  (∀ d, f d = f' d) → (∀ st, g st = g' st) → at_end f g s k = at_end f' g' s k.
Proof.
  intros Hf Hg. unfold at_end, at_. destruct (0 <=? k).
  - destruct (zlookup (sy_routers s) k); [apply Hf|done].
  - destruct (zlookup (sy_stations s) _); [apply Hg|done].
Qed.

Lemma at_end_nonneg f g s k : (∀ d, 0 ≤ f d) → (∀ st, 0 ≤ g st) → 0 ≤ at_end f g s k.
Proof. intros Hf Hg. unfold at_end. destruct (0 <=? k); by apply at_nonneg. Qed.

Lemma system_slots_split s c v o :
  sender_vc s c v = Some o →
  system_slots s c v = OutVcState.m_credit_count o + under_way s c v + held s c v + owed s c v.
Proof.
  intros Ho. unfold system_slots.
  assert (s_in s (ch_dst c) (ch_in c) v =
    at_end (λ d, buffered (nd_router d) (ch_in c) v)
      (λ st, at_ (λ p, stalled v (NetworkInterface.m_stall_queue p))
               (NetworkInterface.inPorts (st_ni st)) (ch_in c)) s (ch_dst c) +
    at_end (λ d, creditq (nd_router d) (ch_in c) v)
      (λ st, at_ (λ p, nvc v (NetworkInterface.outCreditQueue p))
               (NetworkInterface.inPorts (st_ni st)) (ch_in c)) s (ch_dst c) +
    at_end (λ d, at_ (link_nvc v) (nd_in d) (ch_in c))
      (λ st, at_ (link_nvc v) (st_in st) (ch_in c)) s (ch_dst c)) as ->.
  { rewrite <- !at_end_add. apply at_end_ext; [done|]. intros st. unfold station_in, down_slots.
    rewrite <- at_add. f_equal. unfold at_, port_slots. destruct (zlookup _ _); lia. }
  assert (s_out s (ch_src c) (ch_out c) v = OutVcState.m_credit_count o +
    at_end (λ d, switched (nd_router d) (ch_out c) v + outq (nd_router d) (ch_out c) v)
      (port_sent (ch_out c) v) s (ch_src c) +
    at_end (λ d, at_ (link_nvc v) (nd_credit d) (ch_out c))
      (λ st, at_ (link_nvc v) (st_credit st) (ch_out c)) s (ch_src c)) as ->.
  2:{ unfold under_way, held, owed. lia. }
  unfold s_out, at_end, sender_vc, out_vc in *. destruct (0 <=? ch_src c).
  - apply bind_Some in Ho as (d & Hd & (u & Hu & Hv)%bind_Some).
    rewrite !(at_lookup _ _ _ _ Hd). unfold node_out, out_slots, credits.
    rewrite (at_lookup _ _ _ _ Hu). unfold unit_credits. rewrite (at_lookup _ _ _ _ Hv).
    change (λ l, nvc v (NetworkLink.linkBuffer l)) with (link_nvc v). lia.
  - apply bind_Some in Ho as (st & Hst & Ho). case_decide as E; [|done].
    rewrite !(at_lookup _ _ _ _ Hst). unfold station_out, port_credits.
    rewrite decide_True by done. unfold ni_credits. by rewrite (at_lookup _ _ _ _ Ho).
Qed.

Lemma parts_nonneg s c v : 0 ≤ under_way s c v ∧ 0 ≤ held s c v ∧ 0 ≤ owed s c v.
Proof.
  unfold under_way, held, owed, port_sent, stalled, switched, outq, buffered, creditq,
    unit_outq, unit_buffered, unit_creditq, link_nvc.
  split_and!; repeat (apply Z.add_nonneg_nonneg || apply at_end_nonneg || apply at_nonneg || intros);
    auto using sum_over_nonneg, for_port_nonneg, zlen_nonneg, nvc_nonneg, at_nonneg.
Qed.

(** A system that has not run holds all the credits. *)
Lemma fresh_station_in i v st : fresh_station st → station_in i v st = 0.
Proof.
  intros (_ & _ & Hi & _ & _ & _ & Hl & _). unfold station_in, down_slots. rewrite !at_zero; [done|..].
  - eapply Forall_impl; [exact Hl|]. intros l. apply nvc_zero.
  - eapply Forall_impl; [exact Hi|]. intros p [He Hq]. unfold port_slots, stalled.
    by rewrite Hq, nvc_zero.
Qed.

Lemma fresh_station_out v st o :
  fresh_station st → zlookup (NetworkInterface.outVcState (st_ni st)) v = Some o →
  station_out 0 v st = OutVcState.m_max_credit_count o ∧ OutVcState.wf o.
Proof.
  intros (_ & Hq & _ & Hv & _ & _ & _ & Hc & _) Ho.
  destruct (Forall_zlookup _ _ _ _ Hv Ho) as (Hw & _ & E). split; [|done].
  unfold station_out, port_credits, port_sent, ni_credits. cbn [decide].
  rewrite decide_True, (at_lookup _ _ _ _ Ho), !at_zero, E by
    first [done | eapply Forall_impl; [exact Hq|intros p He; by apply nvc_zero]
          | eapply Forall_impl; [exact Hc|intros l He; by apply nvc_zero]]. lia.
Qed.

Lemma fresh_system_slots s c v o :
  fresh_system s → sender_vc s c v = Some o →
  system_slots s c v = OutVcState.m_max_credit_count o ∧ OutVcState.wf o.
Proof.
  intros [Hr Hn] Ho. unfold system_slots.
  assert (s_in s (ch_dst c) (ch_in c) v = 0) as ->.
  { unfold s_in, at_end. destruct (0 <=? ch_dst c); apply at_zero.
    - eapply Forall_impl; [exact Hr|]. intros. by apply fresh_node_in.
    - eapply Forall_impl; [exact Hn|]. intros. by apply fresh_station_in. }
  rewrite Z.add_0_r. unfold s_out, at_end, sender_vc, out_vc in *. destruct (0 <=? ch_src c).
  - apply bind_Some in Ho as (d & Hd & (u & Hu & Hv)%bind_Some). rewrite (at_lookup _ _ _ _ Hd).
    by apply (fresh_node_out _ _ _ u); [apply (Forall_zlookup _ _ _ _ Hr Hd)|..].
  - apply bind_Some in Ho as (st & Hst & Ho). case_decide as E; [|done]. rewrite E.
    rewrite (at_lookup _ _ _ _ Hst). by apply fresh_station_out; [apply (Forall_zlookup _ _ _ _ Hn Hst)|].
Qed.

Lemma sender_vc_keeps s s' c v o' :
  system_keeps s s' → sender_vc s' c v = Some o' →
  ∃ o, sender_vc s c v = Some o ∧ vc_keeps o o'.
Proof.
  intros [Hr Hn]. unfold sender_vc. destruct (0 <=? ch_src c); [by apply out_vc_keeps|].
  intros (st' & Hst' & Ho')%bind_Some. case_decide; [|done].
  destruct (Forall2_zlookup_r _ _ _ _ _ Hn Hst') as (st & Hst & Hk & _).
  destruct (Forall2_zlookup_r _ _ _ _ _ Hk Ho') as (o & Ho & Hok).
  exists o. by rewrite Hst.
Qed.

(** C2: flow control of the closed system is exact.  In every state that the system reaches
    by waking routers, interfaces and links in any order at any ticks, with records of the
    trace and messages coming in as they like, the sender of every channel, be it a router or
    an interface, has the credits that are neither spent on a flit under way, nor on a flit
    the receiver has buffered or holds back, nor on their way back: together they are the
    size of the receiver's buffer.  So no buffer of a router and no stall queue of an
    interface overflows, although nothing checks it, and the assertion of the sender on a
    credit that comes back cannot fail. *)
Theorem closed_flow_control s0 s c v o :
  fresh_system s0 → rtc (system_step cs) s0 s → c ∈ cs → sender_vc s c v = Some o →
  OutVcState.m_credit_count o + under_way s c v + held s c v + owed s c v =
    OutVcState.m_max_credit_count o ∧
  0 ≤ OutVcState.m_credit_count o ∧ 0 ≤ held s c v ≤ OutVcState.m_max_credit_count o ∧
  (∀ l f q, get_back_link (ch_src c) (ch_out c) s = Ok l →
     FlitBuffer.getTopFlit (NetworkLink.linkBuffer l) = Ok (f, q) → flit_m_vc f = v →
     ∃ o', OutVcState.increment_credit o = Ok o' ∧
       OutVcState.m_credit_count o' = OutVcState.m_credit_count o + 1).
Proof.
  intros Hf Hr Hc Ho. destruct (reachable_slots _ _ c v Hf Hr Hc) as (E & K & _).
  destruct (sender_vc_keeps _ _ _ _ _ K Ho) as (o0 & Ho0 & Hmax & Hwf).
  destruct (fresh_system_slots _ _ _ _ Hf Ho0) as [E0 Hw0].
  rewrite (system_slots_split _ _ _ _ Ho), E0 in E. destruct (Hwf Hw0) as [Hw _].
  pose proof (parts_nonneg s c v) as (P1 & P2 & P3).
  split_and!; [lia|lia|lia|lia|]. intros l f q Hl Hq Hv.
  assert (1 ≤ owed s c v) as H1.
  { unfold owed. match goal with |- 1 ≤ ?a + ?b => assert (0 ≤ a ∧ 1 ≤ b) end; [|lia]. split.
    - apply at_end_nonneg; intros; apply at_nonneg; intros; apply nvc_nonneg.
    - unfold get_back_link, get_credit_link, of_station, at_end in *.
      assert (1 ≤ link_nvc v l) as Hn.
      { unfold link_nvc. rewrite (nvc_getTopFlit v _ _ _ Hq), bool_decide_eq_true_2 by done.
        pose proof (nvc_nonneg v q). cbn. lia. }
      destruct (0 <=? ch_src c); step_bind Hl as d Hd;
        by rewrite (at_vget _ _ _ _ Hd), (at_vget _ _ _ _ Hl). }
  unfold OutVcState.increment_credit.
  destruct (Z.leb_spec (OutVcState.m_credit_count o + 1) (OutVcState.m_max_credit_count o));
    [|lia]. by eexists.
Qed.

End closed_credit.

(** ** The credit of a packet

    Router 0 of [ClosedExample] has passed the packet on, and the credit for the slot it left
    is on the link back to the interface. *)

Module CreditExample.
Import ExampleMachines TwoRouters ClosedExample.
#[local] Existing Instance machines.

Definition credit_back : list (Tick * action) :=
  halfway_there ++ [(6000, WakesCredits injection)].

Lemma credit_known : Forall (λ x, wire_known x.2) credit_back.
Proof. repeat constructor; cbn; unfold closed_chans; set_solver. Qed.

Lemma credit_reachable : rtc (system_step closed_chans) closed_start (state_after credit_back).
Proof. apply (perform_all_reachable credit_back); [apply credit_known|vm_compute; reflexivity]. Qed.

Definition the_sender : OutVcState.t :=
  default (OutVcState.mk 0 0 IDLE_ 0 0) (sender_vc (state_after credit_back) injection 0).

Definition the_link : NetworkLink.t :=
  match get_back_link (-1) 0 (state_after credit_back) with Ok l => l | Err _ => link end.

Definition the_credit : flit * FlitBuffer.t :=
  match FlitBuffer.getTopFlit (NetworkLink.linkBuffer the_link) with
  | Ok p => p
  | Err _ => (the_flit, FlitBuffer.empty)
  end.

Lemma sender_found : sender_vc (state_after credit_back) injection 0 = Some the_sender.
Proof. vm_compute. reflexivity. Qed.

Lemma link_found : get_back_link (-1) 0 (state_after credit_back) = Ok the_link.
Proof. vm_compute. reflexivity. Qed.

Lemma credit_found :
  FlitBuffer.getTopFlit (NetworkLink.linkBuffer the_link) = Ok (the_credit.1, the_credit.2).
Proof. vm_compute. reflexivity. Qed.

Lemma credit_numbers :
  OutVcState.m_credit_count the_sender = 3 ∧ flit_m_vc the_credit.1 = 0.
Proof. vm_compute. split; reflexivity. Qed.

(** The interface has three of its four credits and can take the fourth. *)
Lemma closed_flow_control_witness :
  OutVcState.m_credit_count the_sender + under_way (state_after credit_back) injection 0 +
    held (state_after credit_back) injection 0 + owed (state_after credit_back) injection 0 =
    OutVcState.m_max_credit_count the_sender ∧
  ∃ o', OutVcState.increment_credit the_sender = Ok o' ∧ OutVcState.m_credit_count o' = 4.
Proof.
  destruct (closed_flow_control closed_chans closed_wired closed_start (state_after credit_back)
    injection 0 the_sender closed_fresh credit_reachable (list_elem_of_here _ _) sender_found)
    as (E & _ & _ & Hi).
  split; [exact E|].
  destruct (Hi the_link the_credit.1 the_credit.2 link_found credit_found (proj2 credit_numbers))
    as (o' & Eo & En).
  exists o'. split; [exact Eo|]. rewrite En, (proj1 credit_numbers). reflexivity.
Defined.

End CreditExample.
