(* ===== verification/NetworkAccess.v ===== *)
(** * What reads and resets the whole network

    The part of [garnet/GarnetNetwork.cc] that visits every object of the network:
    [collateStats] with the registration of the phase statistics, [resetStats],
    [functionalRead] and [functionalWrite], and the rest of [init]. *)

From S2P Require Import Prelude.
From S2P Require Import IntMath.
From S2P Require Import NetDest.
From S2P Require Import Flit.
From S2P Require Import VirtualChannels.
From S2P Require Import Routing.
From S2P Require Import Clocking.
From S2P Require Import Links.
From S2P Require Import Pipeline.
From S2P Require Import Topology.
From S2P Require Import Bridge.
From S2P Require Import MessageBuffer.
From S2P Require Import Statistics.
From S2P Require Import NetworkInterface.
From S2P Require Import Network.
From S2P Require Import Construction.
From S2P Require Import CreditProtocol.
From S2P Require Import BuiltNetwork.

Import Construction.

Module NetworkAccess.

(** ** Phase statistics *)

Definition MAX_NETWORKS : Z := 20.
Definition MAX_INPUTS : Z := 20.
Definition MAX_PHASES : Z := 500.

(** [m_phase_latency_stats] *)
Notation PhaseStats := (gmap (Z * Z * Z) Z) (only parsing).

(** The loops of [regStats] that register the phase statistics, from the inside. *)
Fixpoint register_phases (net inp phase : Z) (n : nat) (stats : PhaseStats) : PhaseStats :=
  match n with
  | O => stats
  | S n' => register_phases net inp (phase + 1) n' (<[(net, inp, phase) := 0]> stats)
  end.

Fixpoint register_inputs (net inp : Z) (n : nat) (stats : PhaseStats) : PhaseStats :=
  match n with
  | O => stats
  | S n' =>
      register_inputs net (inp + 1) n' (register_phases net inp 0 (Z.to_nat MAX_PHASES) stats)
  end.

Fixpoint register_networks (net : Z) (n : nat) (stats : PhaseStats) : PhaseStats :=
  match n with
  | O => stats
  | S n' =>
      register_networks (net + 1) n' (register_inputs net 0 (Z.to_nat MAX_INPUTS) stats)
  end.

Definition registered : PhaseStats := register_networks 0 (Z.to_nat MAX_NETWORKS) ∅.

(** The last loop of [collateStats]; a key that is not registered gets a warning only. *)
Definition collate_phase (key : Z * Z * Z) (latencies : list Tick) (stats : PhaseStats)
    : PhaseStats :=
  match latencies with
  | [] => stats
  | x :: l =>
      match stats !! key with
      | Some _ => <[key := NetStats.max_of x l]> stats
      | None => stats
      end
  end.

Definition collate_phases (phases : gmap (Z * Z * Z) (list Tick)) (stats : PhaseStats)
    : PhaseStats :=
  map_fold collate_phase stats phases.

(** ** Link statistics *)

(** The totals of [collateStats]; the averages, which divide by the simulated time as
    doubles, are left out. *)
Record link_totals := mkLinkTotals {
  m_total_ext_in_link_utilization : Z;
  m_total_ext_out_link_utilization : Z;
  m_total_int_link_utilization : Z;
}.

Definition add_activity (l : NetworkLink.t) (s : link_totals) : link_totals :=
  let activity := NetworkLink.m_link_utilized l in
  match NetworkLink.m_type l with
  | EXT_IN_ => mkLinkTotals (m_total_ext_in_link_utilization s + activity)
                 (m_total_ext_out_link_utilization s) (m_total_int_link_utilization s)
  | EXT_OUT_ => mkLinkTotals (m_total_ext_in_link_utilization s)
                  (m_total_ext_out_link_utilization s + activity) (m_total_int_link_utilization s)
  | INT_ => mkLinkTotals (m_total_ext_in_link_utilization s)
              (m_total_ext_out_link_utilization s) (m_total_int_link_utilization s + activity)
  | _ => s
  end.

Fixpoint collate_links (g : t) (ls : list Z) (s : link_totals) : result link_totals :=
  match ls with
  | [] => Ok s
  | p :: ls' => l ← get_base (links g) p; collate_links g ls' (add_activity l s)
  end.

(** What the routers' [collateStats] report. *)
Fixpoint collate_routers (rs : list router_object) : result (list (Z * Z * Z * Z * Z)) :=
  match rs with
  | [] => Ok []
  | ro :: rs' =>
      x ← Router.collateStats (ro_router ro); xs ← collate_routers rs'; Ok (x :: xs)
  end.

Definition collateStats (g : t) (s : NetStats.t) (totals : link_totals) (stats : PhaseStats)
    : result (link_totals * list (Z * Z * Z * Z * Z) * PhaseStats) :=
  totals ← collate_links g (m_networklinks g) totals;
  rs ← collate_routers (routers g);
  Ok (totals, rs, collate_phases (NetStats.m_packet_phase_latencies s) stats).

(** ** Resetting *)

Definition reset_router (ro : router_object) : router_object :=
  mkRouterObject (Router.resetStats (ro_router ro)) (ro_in ro) (ro_out ro).

Fixpoint reset_links (s : list link_object) (ps : list Z) : result (list link_object) :=
  match ps with
  | [] => Ok s
  | p :: ps' =>
      s ← vupd s p (λ o, Ok (mkLinkObject (map_base NetworkLink.resetStats (lo_kind o))
                              (link_consumer o) (link_srcQueue o)));
      reset_links s ps'
  end.

Definition resetStats (g : t) : result t :=
  let g := mk (reset_router <$> routers g) (nis g) (links g) (m_networklinks g)
             (m_creditlinks g) (m_networkbridges g) (m_max_vcs_per_vnet g) in
  s ← reset_links (links g) (m_networklinks g);
  s ← reset_links s (m_creditlinks g);
  Ok (with_links g s).

(** ** Functional accesses *)

Section functional.
  Context {P : Type}.
  Variable msg_functionalRead : nat → P → bool * P.
  Variable msg_functionalWrite : nat → P → bool * P.

(** The packet is threaded through the objects; [read] becomes true when one answers. *)
Fixpoint read_each {A} (f : A → P → result (bool * P)) (l : list A) (read : bool) (p : P)
    : result (bool * P) :=
  match l with
  | [] => Ok (read, p)
  | a :: l' => '(r, p) ← f a p; read_each f l' (if (r : bool) then true else read) p
  end.

Fixpoint write_each {A} (f : A → P → result (Z * P)) (l : list A) (num : Z) (p : P)
    : result (Z * P) :=
  match l with
  | [] => Ok (num, p)
  | a :: l' => '(n, p) ← f a p; write_each f l' (num + n) p
  end.

Definition read_link (g : t) (l : Z) (p : P) : result (bool * P) :=
  b ← get_base (links g) l; NetworkLink.functionalRead msg_functionalRead b p.

Definition write_link (g : t) (l : Z) (p : P) : result (Z * P) :=
  b ← get_base (links g) l; NetworkLink.functionalWrite msg_functionalWrite b p.

Definition functionalRead (g : t) (p : P) : result (bool * P) :=
  '(read, p) ← read_each (λ ro, Router.functionalRead msg_functionalRead (ro_router ro))
                 (routers g) false p;
  '(read, p) ← read_each (λ io, NetworkInterface.functionalRead msg_functionalRead (io_ni io))
                 (nis g) read p;
  '(read, p) ← read_each (read_link g) (m_networklinks g) read p;
  read_each (read_link g) (m_networkbridges g) read p.

Definition functionalWrite (g : t) (p : P) : result (Z * P) :=
  '(num, p) ← write_each (λ ro, Router.functionalWrite msg_functionalWrite (ro_router ro))
                (routers g) 0 p;
  '(num, p) ← write_each (λ io, NetworkInterface.functionalWrite msg_functionalWrite (io_ni io))
                (nis g) num p;
  write_each (write_link g) (m_networklinks g) num p.

End functional.

(** ** [init] *)

Section init.
  Context `{MachineTypes}.
  Variable c : NetConfig.

(** The message buffers by their numbers. *)
Fixpoint queues (buffers : gmap Z MessageBuffer.t) (qs : list (option Z))
    : result (list (option MessageBuffer.t)) :=
  match qs with
  | [] => Ok []
  | None :: qs' => l ← queues buffers qs'; Ok (None :: l)
  | Some q :: qs' =>
      b ← determinate (buffers !! q); l ← queues buffers qs'; Ok (Some b :: l)
  end.

Definition add_node (net : Network.t) (buffers : gmap Z MessageBuffer.t) (i : Z) (g : t)
    : result t :=
  io ← vget (nis g) i;
  ins ← vget (Network.m_toNetQueues net) i;
  outs ← vget (Network.m_fromNetQueues net) i;
  ins ← queues buffers ins;
  outs ← queues buffers outs;
  n ← NetworkInterface.addNode (io_ni io) ins outs;
  ns ← vset (nis g) i (mkInterfaceObject n (io_in io) (io_out io));
  Ok (mk (routers g) ns (links g) (m_networklinks g) (m_creditlinks g) (m_networkbridges g)
        (m_max_vcs_per_vnet g)).

(** [init()], without the fault model; the numbers of rows and columns are returned. *)
Definition init (net : Network.t) (buffers : gmap Z MessageBuffer.t) (top : Topology.t)
    (ints : list GarnetIntLink) (exts : list GarnetExtLink) (num_rows : Z) (g : t)
    : result (t * (Z * Z)) :=
  g ← for_range 0 (Z.to_nat (Network.m_nodes net)) (add_node net buffers) g;
  g ← create_links c net top ints exts g;
  size ← mesh_size g num_rows;
  Ok (g, size).

End init.

End NetworkAccess.

(** ** Facts *)

Module AccessFacts.
Import NetworkAccess.

(** *** Phase statistics *)

(** Deciding which of two sets of keys a key lies in. *)
Ltac decide_keys := repeat case_decide; try done; exfalso; lia.

Lemma lookup_register_phases net inp phase n stats k :
  register_phases net inp phase n stats !! k =
    if decide (k.1.1 = net ∧ k.1.2 = inp ∧ phase ≤ k.2 < phase + Z.of_nat n)
    then Some 0 else stats !! k.
Proof.
  revert phase stats. induction n as [|n IH]; intros phase stats; cbn [register_phases].
  - rewrite decide_False by lia. done.
  - rewrite IH. destruct k as [[ni ii] p]. cbn [fst snd].
    destruct (decide (ni = net ∧ ii = inp ∧ p = phase)) as [(-> & -> & ->)|Hne].
    + rewrite lookup_insert_eq. decide_keys.
    + rewrite lookup_insert_ne by (intros E; apply Hne; split_and!; congruence). decide_keys.
Qed.

Lemma lookup_register_inputs net inp n stats k :
  register_inputs net inp n stats !! k =
    if decide (k.1.1 = net ∧ inp ≤ k.1.2 < inp + Z.of_nat n ∧ 0 ≤ k.2 < MAX_PHASES)
    then Some 0 else stats !! k.
Proof.
  revert inp stats. induction n as [|n IH]; intros inp stats; cbn [register_inputs].
  - rewrite decide_False by (intros (_ & ? & _); lia). done.
  - rewrite IH, lookup_register_phases. destruct k as [[ni ii] p]. cbn [fst snd].
    unfold MAX_PHASES in *. decide_keys.
Qed.

Lemma lookup_register_networks net n stats k :
  register_networks net n stats !! k =
    if decide (net ≤ k.1.1 < net + Z.of_nat n ∧ 0 ≤ k.1.2 < MAX_INPUTS ∧ 0 ≤ k.2 < MAX_PHASES)
    then Some 0 else stats !! k.
Proof.
  revert net stats. induction n as [|n IH]; intros net stats; cbn [register_networks].
  - rewrite decide_False by (intros [? _]; lia). done.
  - rewrite IH, lookup_register_inputs. destruct k as [[ni ii] p]. cbn [fst snd].
    unfold MAX_PHASES, MAX_INPUTS in *. decide_keys.
Qed.

(** The keys that [regStats] registers. *)
Definition in_limits (k : Z * Z * Z) : Prop :=
  0 ≤ k.1.1 < MAX_NETWORKS ∧ 0 ≤ k.1.2 < MAX_INPUTS ∧ 0 ≤ k.2 < MAX_PHASES.

#[export] Instance in_limits_dec k : Decision (in_limits k).
Proof. apply _. Defined.

Lemma lookup_registered k : registered !! k = if decide (in_limits k) then Some 0 else None.
Proof.
  unfold registered. rewrite lookup_register_networks. unfold in_limits, MAX_NETWORKS.
  change (Z.of_nat (Z.to_nat 20)) with 20. rewrite Z.add_0_l. by rewrite lookup_empty.
Qed.

Lemma max_of_spec x l :
  NetStats.max_of x l ∈ x :: l ∧ ∀ y, y ∈ x :: l → y ≤ NetStats.max_of x l.
Proof.
  revert x. unfold NetStats.max_of. induction l as [|y l IH]; intros x; cbn [foldl].
  - split; [by left|]. by intros z ->%list_elem_of_singleton.
  - destruct (IH (x `max` y)) as [Hin Hle].
    assert (x `max` y ≤ foldl Z.max (x `max` y) l) as Hm by (apply Hle; by left). split.
    + apply elem_of_cons in Hin as [E|Hin]; [|by right; right].
      destruct (Z.max_spec x y) as [[_ Em]|[_ Em]]; rewrite E, Em; [right|]; by left.
    + intros z [->|[->|Hz]%elem_of_cons]%elem_of_cons; [lia..|]. apply Hle. by right.
Qed.

(** What a key reports, given the statistic before and the latencies recorded. *)
Definition report (old : option Z) (ls : list Tick) : option Z :=
  match ls, old with
  | x :: l, Some _ => Some (NetStats.max_of x l)
  | _, _ => old
  end.

Lemma lookup_collate_phases phases stats k :
  collate_phases phases stats !! k = report (stats !! k) (default [] (phases !! k)).
Proof.
  revert k. unfold collate_phases.
  refine (map_fold_weak_ind
    (λ r m, ∀ k, r !! k = report (stats !! k) (default [] (m !! k))) collate_phase stats _ _ phases);
    [intros k; by rewrite lookup_empty|].
  intros i ls m r Hi IH k. unfold collate_phase.
  destruct (decide (i = k)) as [<-|Hne].
  - rewrite lookup_insert_eq. pose proof (IH i) as Ei. rewrite Hi in Ei. cbn [default] in Ei |- *.
    destruct ls as [|x l]; [by rewrite Ei|]. rewrite Ei. cbn [report].
    destruct (stats !! i); [by rewrite lookup_insert_eq|done].
  - rewrite lookup_insert_ne by done. destruct ls as [|x l]; [by apply IH|].
    destruct (r !! i); [rewrite lookup_insert_ne by done|]; by apply IH.
Qed.

(** The latencies of a sequence of recordings. *)
Definition record_phase (s : NetStats.t) (x : (Z * Z * Z) * Tick) : NetStats.t :=
  NetStats.add_phase_latency s x.1.1.1 x.1.1.2 x.1.2 x.2.

Definition latencies_of (k : Z * Z * Z) (rs : list ((Z * Z * Z) * Tick)) : list Tick :=
  snd <$> filter (λ x, x.1 = k) rs.

Lemma record_phases s rs k :
  default [] (NetStats.m_packet_phase_latencies (foldl record_phase s rs) !! k) =
    default [] (NetStats.m_packet_phase_latencies s !! k) ++ latencies_of k rs.
Proof.
  revert s. induction rs as [|[[[n i] p] lat] rs IH]; intros s; cbn [foldl].
  - by rewrite app_nil_r.
  - rewrite IH. unfold latencies_of. rewrite filter_cons. cbn [fst].
    unfold record_phase, NetStats.add_phase_latency.
    change (NetStats.m_packet_phase_latencies (NetStats.with_phases ?s ?m)) with m. cbn [fst snd].
    destruct (decide ((n, i, p) = k)) as [<-|Hne].
    + rewrite lookup_insert_eq. cbn. by rewrite <- app_assoc.
    + by rewrite lookup_insert_ne.
Qed.

(** C24: the phase statistics report the slowest packet of each phase.  Whatever latencies
    the interfaces recorded, after [collateStats] the statistic of a phase within the
    registered limits is the largest latency recorded for it, zero if there is none, and
    phases beyond the limits are not reported. *)
Theorem phase_statistics_correct g vnets rts max_packets rs totals totals' routers' stats' :
  collateStats g (foldl record_phase (NetStats.make vnets rts max_packets) rs) totals registered
    = Ok (totals', routers', stats') →
  ∀ k, (in_limits k → latencies_of k rs = [] → stats' !! k = Some 0) ∧
       (in_limits k → latencies_of k rs ≠ [] →
          ∃ m, stats' !! k = Some m ∧ m ∈ latencies_of k rs ∧
               ∀ x, x ∈ latencies_of k rs → x ≤ m) ∧
       (¬ in_limits k → stats' !! k = None).
Proof.
  unfold collateStats. intros Hc k. step_bind Hc as tt' _. step_bind Hc as rr' _.
  injection Hc as _ _ <-. rewrite lookup_collate_phases, record_phases, lookup_registered.
  cbn [NetStats.make NetStats.m_packet_phase_latencies]. rewrite lookup_empty. cbn [default app].
  split_and!; intros Hk; [rewrite decide_True by done..|rewrite decide_False by done].
  - by intros ->.
  - destruct (latencies_of k rs) as [|x l]; [done|]. intros _. cbn [report].
    destruct (max_of_spec x l) as [H1 H2]. by exists (NetStats.max_of x l).
  - by destruct (latencies_of k rs).
Qed.

(** *** Functional accesses *)

(** A traversal that threads the packet and combines the answers. *)
Section visit.
  Context {M P : Type} (op : M → M → M) (e : M).
  Hypothesis op_assoc : ∀ a b c, op (op a b) c = op a (op b c).
  Hypothesis op_l : ∀ a, op e a = a.
  Hypothesis op_r : ∀ a, op a e = a.

Fixpoint visit {A} (f : A → P → result (M * P)) (l : list A) (acc : M * P) : result (M * P) :=
  match l with
  | [] => Ok acc
  | a :: l' => '(m, p) ← f a acc.2; visit f l' (op acc.1 m, p)
  end.

Lemma visit_app {A} (f : A → P → result (M * P)) l1 l2 acc :
  visit f (l1 ++ l2) acc = (x ← visit f l1 acc; visit f l2 x).
Proof.
  revert acc. induction l1 as [|a l1 IH]; intros acc; cbn; [done|].
  destruct (f a acc.2) as [[m p]|]; cbn; [apply IH|done].
Qed.

Lemma visit_shift {A} (f : A → P → result (M * P)) l m p :
  visit f l (m, p) = ('(m', p') ← visit f l (e, p); Ok (op m m', p')).
Proof.
  revert m p. induction l as [|a l IH]; intros m p; cbn; [by rewrite op_r|].
  destruct (f a p) as [[m1 p1]|]; cbn; [|done]. rewrite (IH (op m m1)), (IH (op e m1)).
  destruct (visit f l (e, p1)) as [[m2 p2]|]; cbn; [|done]. by rewrite op_l, op_assoc.
Qed.

(** Visiting objects is visiting their parts, one after the other. *)
Lemma visit_concat {A B} (f : A → P → result (M * P)) (h : B → P → result (M * P))
    (parts : A → list B) l acc :
  (∀ a p, a ∈ l → f a p = visit h (parts a) (e, p)) →
  visit f l acc = visit h (l ≫= parts) acc.
Proof.
  revert acc. induction l as [|a l IH]; intros acc Hf; [done|].
  rewrite bind_cons, visit_app. cbn [visit]. destruct acc as [m p]. cbn [fst snd].
  rewrite (Hf a p) by by left. rewrite (visit_shift h (parts a) m p).
  destruct (visit h (parts a) (e, p)) as [[m1 p1]|]; cbn; [|done].
  apply IH. intros. apply Hf. by right.
Qed.

Lemma foldl_visit {A} (f : A → P → result (M * P)) (k : M → M → M) l acc :
  (∀ a b, k a b = op a b) →
  foldl (λ acc a, '(x, p) ← acc; '(r, p) ← f a p; Ok (k x r, p)) (Ok acc) l = visit f l acc.
Proof.
  intros Hk. revert acc. induction l as [|a l IH]; intros [m p]; cbn; [done|].
  destruct (f a p) as [[m1 p1]|x]; cbn; [rewrite Hk; apply IH|].
  clear IH. induction l as [|b l IH]; cbn; [done|apply IH].
Qed.

Lemma for_each_visit {A} (f : A → P → result (M * P)) l acc :
  (r ← for_each (λ a st, st' ← ('(r, p) ← f a st.2; Ok (op st.1 r, p)); Ok (a, st')) l acc;
   Ok r.2) = visit f l acc.
Proof.
  revert acc. induction l as [|a l IH]; intros [m p]; cbn; [done|].
  destruct (f a p) as [[m1 p1]|x]; cbn; [|done]. rewrite <- IH.
  by destruct (for_each _ l (op m m1, p1)) as [[? ?]|].
Qed.

End visit.

(** The flits an access of a router, of an interface and of a link passes, in its order. *)
Definition router_flits (r : Router.t) : list flit :=
  (CrossbarSwitch.switchBuffers (Router.crossbarSwitch r) ≫= FlitBuffer.m_buffer) ++
  (Router.m_input_unit r ≫= λ u, InputUnit.virtualChannels u ≫= VirtualChannel.flits) ++
  (Router.m_output_unit r ≫= λ u, FlitBuffer.m_buffer (OutputUnit.outBuffer u)).

Definition ni_flits (n : NetworkInterface.t) : list flit :=
  (NetworkInterface.niOutVcs n ≫= FlitBuffer.m_buffer) ++
  (NetworkInterface.outPorts n ≫= λ o, FlitBuffer.m_buffer (NetworkInterface.outFlitQueue o)).

Definition link_flits (g : t) (l : Z) : list flit :=
  match get_base (links g) l with
  | Ok b => FlitBuffer.m_buffer (NetworkLink.linkBuffer b)
  | Err _ => []
  end.

(** *** Where flits are *)

(** The containers of flits in the objects of a network. *)
Inductive container :=
| SwitchBuffer
| InputChannel
| OutputBuffer
| InterfaceChannel
| InterfaceOutQueue
| InterfaceStallQueue
| TraceInjectionQueue
| LinkBuffer
| BridgeBuffer.

#[global] Instance container_eq_dec : EqDecision container.
Proof. solve_decision. Defined.

Definition all_in (c : container) (fs : list flit) : list (container * flit) := pair c <$> fs.

Definition router_contents (r : Router.t) : list (container * flit) :=
  all_in SwitchBuffer
    (CrossbarSwitch.switchBuffers (Router.crossbarSwitch r) ≫= FlitBuffer.m_buffer) ++
  all_in InputChannel
    (Router.m_input_unit r ≫= λ u, InputUnit.virtualChannels u ≫= VirtualChannel.flits) ++
  all_in OutputBuffer
    (Router.m_output_unit r ≫= λ u, FlitBuffer.m_buffer (OutputUnit.outBuffer u)).

Definition ni_contents (n : NetworkInterface.t) : list (container * flit) :=
  all_in InterfaceChannel (NetworkInterface.niOutVcs n ≫= FlitBuffer.m_buffer) ++
  all_in InterfaceOutQueue
    (NetworkInterface.outPorts n ≫= λ o, FlitBuffer.m_buffer (NetworkInterface.outFlitQueue o)) ++
  all_in InterfaceStallQueue (NetworkInterface.inPorts n ≫= NetworkInterface.m_stall_queue) ++
  all_in TraceInjectionQueue (NetworkInterface.m_trace_injection_queue n).

(** All flits of the network with the container each is in. *)
Definition contents (g : t) : list (container * flit) :=
  (routers g ≫= λ ro, router_contents (ro_router ro)) ++
  (nis g ≫= λ io, ni_contents (io_ni io)) ++
  all_in LinkBuffer (m_networklinks g ≫= link_flits g) ++
  all_in BridgeBuffer (m_networkbridges g ≫= link_flits g).

(** The flits in the containers [cs]. *)
Definition flits_at (cs : container → bool) (g : t) : list flit :=
  (filter (λ x, cs x.1 = true) (contents g)).*2.

(** A write reaches neither the queues in front of and behind an interface nor the
    bridges; a read reaches the bridges. *)
Definition written (c : container) : bool :=
  match c with
  | InterfaceStallQueue | TraceInjectionQueue | BridgeBuffer => false
  | _ => true
  end.

Definition readable (c : container) : bool :=
  match c with InterfaceStallQueue | TraceInjectionQueue => false | _ => true end.

Lemma at_bind {A} cs (f : A → list (container * flit)) l :
  (filter (λ x, cs x.1 = true) (l ≫= f)).*2 = l ≫= λ a, (filter (λ x, cs x.1 = true) (f a)).*2.
Proof.
  induction l as [|a l IH]; [done|]. rewrite !bind_cons, filter_app, fmap_app. by f_equal.
Qed.

Lemma at_all_in (cs : container → bool) c fs :
  (filter (λ x, cs x.1 = true) (all_in c fs)).*2 = if cs c then fs else [].
Proof.
  unfold all_in. induction fs as [|f fs IH]; [by destruct (cs c)|]. cbn [fmap list_fmap].
  rewrite filter_cons. cbn [fst]. destruct (cs c) eqn:E.
  - rewrite decide_True by done. cbn. by f_equal.
  - rewrite decide_False by done. exact IH.
Qed.

Lemma router_contents_at cs r :
  (filter (λ x, cs x.1 = true) (router_contents r)).*2 =
  (if cs SwitchBuffer
   then CrossbarSwitch.switchBuffers (Router.crossbarSwitch r) ≫= FlitBuffer.m_buffer else []) ++
  (if cs InputChannel
   then Router.m_input_unit r ≫= λ u, InputUnit.virtualChannels u ≫= VirtualChannel.flits
   else []) ++
  (if cs OutputBuffer
   then Router.m_output_unit r ≫= λ u, FlitBuffer.m_buffer (OutputUnit.outBuffer u) else []).
Proof. unfold router_contents. by rewrite !filter_app, !fmap_app, !at_all_in. Qed.

Lemma ni_contents_at cs n :
  cs InterfaceChannel = true → cs InterfaceOutQueue = true →
  cs InterfaceStallQueue = false → cs TraceInjectionQueue = false →
  (filter (λ x, cs x.1 = true) (ni_contents n)).*2 = ni_flits n.
Proof.
  intros E1 E2 E3 E4. unfold ni_contents, ni_flits.
  by rewrite !filter_app, !fmap_app, !at_all_in, E1, E2, E3, E4, !app_nil_r.
Qed.

Lemma written_flits g :
  flits_at written g =
  (routers g ≫= λ ro, router_flits (ro_router ro)) ++ (nis g ≫= λ io, ni_flits (io_ni io)) ++
  (m_networklinks g ≫= link_flits g).
Proof.
  unfold flits_at, contents. rewrite !filter_app, !fmap_app, !at_bind, !at_all_in, app_nil_r.
  f_equal; [|f_equal]; apply list_bind_ext; try done; intros a.
  - by rewrite router_contents_at.
  - by rewrite ni_contents_at.
Qed.

Lemma readable_flits g :
  flits_at readable g = flits_at written g ++ (m_networkbridges g ≫= link_flits g).
Proof.
  rewrite written_flits. unfold flits_at, contents.
  rewrite !filter_app, !fmap_app, !at_bind, !at_all_in, <- !app_assoc.
  f_equal; [|f_equal]; try apply list_bind_ext; try done; intros a.
  - by rewrite router_contents_at.
  - by rewrite ni_contents_at.
Qed.

Definition valid_links (g : t) : Prop :=
  ∀ l, l ∈ m_networklinks g ++ m_networkbridges g → ∃ b, get_base (links g) l = Ok b.

Section access.
  Context {P : Type}.
  Variable rd : nat → P → bool * P.
  Variable wr : nat → P → bool * P.

(** Reading and writing one flit after the other. *)
Definition read_flits (fs : list flit) (p : P) : result (bool * P) :=
  read_each (flit_functionalRead rd) fs false p.

Definition write_flit (f : flit) (p : P) : result (Z * P) :=
  '(w, p) ← flit_functionalWrite wr f p; Ok (if (w : bool) then 1 else 0, p).

Definition write_flits (fs : list flit) (p : P) : result (Z * P) :=
  write_each write_flit fs 0 p.

#[local] Notation rvisit := (visit orb).
#[local] Notation wvisit := (visit Z.add).

Lemma read_each_visit {A} (f : A → P → result (bool * P)) l b p :
  read_each f l b p = rvisit f l (b, p).
Proof.
  revert b p. induction l as [|a l IH]; intros b p; cbn; [done|].
  destruct (f a p) as [[[] p1]|]; cbn; [..|done]; rewrite IH; by destruct b.
Qed.

Lemma write_each_visit {A} (f : A → P → result (Z * P)) l n p :
  write_each f l n p = wvisit f l (n, p).
Proof.
  revert n p. induction l as [|a l IH]; intros n p; cbn; [done|].
  destruct (f a p) as [[m p1]|]; cbn; [apply IH|done].
Qed.

Lemma if_orb (a b : bool) : (if b then true else a) = a || b.
Proof. by destruct a, b. Qed.

Lemma buffer_read b p :
  FlitBuffer.functionalRead rd b p =
    rvisit (flit_functionalRead rd) (FlitBuffer.m_buffer b) (false, p).
Proof. apply (foldl_visit orb _ (λ a b, if b then true else a)). apply if_orb. Qed.

Lemma buffer_write b p :
  FlitBuffer.functionalWrite wr b p = wvisit write_flit (FlitBuffer.m_buffer b) (0, p).
Proof.
  rewrite <- (foldl_visit Z.add write_flit Z.add) by done. unfold FlitBuffer.functionalWrite.
  generalize (Ok (0, p) : result (Z * P)).
  induction (FlitBuffer.m_buffer b) as [|f l IH]; intros acc; cbn; [done|]. rewrite IH. f_equal.
  destruct acc as [[n q]|]; cbn; [|done]. unfold write_flit.
  destruct (flit_functionalWrite wr f q) as [[[] q']|]; cbn; [done| |done]. by rewrite Z.add_0_r.
Qed.

Lemma orb_assoc_r (a b c : bool) : (a || b) || c = a || (b || c).
Proof. by destruct a, b. Qed.
Lemma orb_l (a : bool) : false || a = a.
Proof. done. Qed.
Lemma orb_r (a : bool) : a || false = a.
Proof. by destruct a. Qed.
Lemma zadd_assoc_r (a b c : Z) : (a + b) + c = a + (b + c).
Proof. lia. Qed.

Lemma rvisit_concat {A B} (f : A → P → result (bool * P)) (h : B → P → result (bool * P)) parts l acc :
  (∀ a p, a ∈ l → f a p = rvisit h (parts a) (false, p)) → rvisit f l acc = rvisit h (l ≫= parts) acc.
Proof. apply (visit_concat orb false orb_assoc_r orb_l orb_r). Qed.

Lemma wvisit_concat {A B} (f : A → P → result (Z * P)) (h : B → P → result (Z * P)) parts l acc :
  (∀ a p, a ∈ l → f a p = wvisit h (parts a) (0, p)) → wvisit f l acc = wvisit h (l ≫= parts) acc.
Proof. apply (visit_concat Z.add 0 zadd_assoc_r Z.add_0_l Z.add_0_r). Qed.

Lemma router_read r p :
  Router.functionalRead rd r p = rvisit (flit_functionalRead rd) (router_flits r) (false, p).
Proof.
  unfold Router.functionalRead, router_flits. rewrite visit_app.
  replace (CrossbarSwitch.functionalRead rd (Router.crossbarSwitch r) p) with
    (rvisit (flit_functionalRead rd)
      (CrossbarSwitch.switchBuffers (Router.crossbarSwitch r) ≫= FlitBuffer.m_buffer) (false, p)).
  2: { symmetry. etransitivity; [apply (foldl_visit orb _ (λ a b, if b then true else a)), if_orb|].
       apply rvisit_concat. intros. apply buffer_read. }
  destruct (visit _ _ _ (false, p)) as [acc|]; cbn [rbind]; [|done].
  rewrite (foldl_visit orb _ (λ a b : bool, if b then true else a)) by apply if_orb.
  rewrite (rvisit_concat (InputUnit.functionalRead rd) (flit_functionalRead rd)
    (λ u, InputUnit.virtualChannels u ≫= VirtualChannel.flits)).
  2: { intros u q _. unfold InputUnit.functionalRead.
       rewrite (foldl_visit orb _ (λ a b : bool, if b then true else a)) by apply if_orb.
       apply rvisit_concat. intros. apply buffer_read. }
  rewrite visit_app. destruct (visit _ _ _ acc) as [acc'|]; cbn [rbind]; [|done].
  rewrite (foldl_visit orb _ (λ a b : bool, if b then true else a)) by apply if_orb.
  apply rvisit_concat. intros. apply buffer_read.
Qed.

Lemma router_write r p :
  Router.functionalWrite wr r p = wvisit write_flit (router_flits r) (0, p).
Proof.
  unfold Router.functionalWrite, router_flits. rewrite visit_app.
  replace (CrossbarSwitch.functionalWrite wr (Router.crossbarSwitch r) p) with
    (wvisit write_flit
      (CrossbarSwitch.switchBuffers (Router.crossbarSwitch r) ≫= FlitBuffer.m_buffer) (0, p)).
  2: { symmetry. etransitivity; [by apply (foldl_visit Z.add _ Z.add)|].
       apply wvisit_concat. intros. apply buffer_write. }
  destruct (visit _ _ _ (0, p)) as [acc|]; cbn [rbind]; [|done].
  rewrite (foldl_visit Z.add _ Z.add _ _ (λ a b, eq_refl)).
  rewrite (wvisit_concat (InputUnit.functionalWrite wr) write_flit (λ u, InputUnit.virtualChannels u ≫= VirtualChannel.flits)).
  2: { intros u q _. unfold InputUnit.functionalWrite. rewrite (foldl_visit Z.add _ Z.add _ _ (λ a b, eq_refl)).
       apply wvisit_concat. intros. apply buffer_write. }
  rewrite visit_app. destruct (visit _ _ _ acc) as [acc'|]; cbn [rbind]; [|done].
  rewrite (foldl_visit Z.add _ Z.add _ _ (λ a b, eq_refl)).
  apply wvisit_concat. intros. apply buffer_write.
Qed.

Lemma bind_snd {A M} (m : result (A * M)) (k : M → result M) :
  ('(_, st) ← m; k st) = (st ← (r ← m; Ok r.2); k st).
Proof. by destruct m as [[]|]. Qed.

Lemma ni_read n p :
  NetworkInterface.functionalRead rd n p =
    rvisit (flit_functionalRead rd) (ni_flits n) (false, p).
Proof.
  unfold NetworkInterface.functionalRead, ni_flits. rewrite visit_app.
  rewrite bind_snd, (for_each_visit orb (FlitBuffer.functionalRead rd)).
  rewrite (rvisit_concat (FlitBuffer.functionalRead rd) (flit_functionalRead rd) FlitBuffer.m_buffer)
    by (intros; apply buffer_read).
  destruct (visit _ _ _ (false, p)) as [acc|]; cbn [rbind]; [|done].
  rewrite (bind_snd _ Ok), (for_each_visit orb
    (λ o, FlitBuffer.functionalRead rd (NetworkInterface.outFlitQueue o))).
  rewrite (rvisit_concat _ (flit_functionalRead rd)
    (λ o, FlitBuffer.m_buffer (NetworkInterface.outFlitQueue o))) by (intros; apply buffer_read).
  by destruct (visit _ _ _ acc).
Qed.

Lemma ni_write n p :
  NetworkInterface.functionalWrite wr n p = wvisit write_flit (ni_flits n) (0, p).
Proof.
  unfold NetworkInterface.functionalWrite, ni_flits. rewrite visit_app.
  rewrite bind_snd, (for_each_visit Z.add (FlitBuffer.functionalWrite wr)).
  rewrite (wvisit_concat (FlitBuffer.functionalWrite wr) write_flit FlitBuffer.m_buffer)
    by (intros; apply buffer_write).
  destruct (visit _ _ _ (0, p)) as [acc|]; cbn [rbind]; [|done].
  rewrite (bind_snd _ Ok), (for_each_visit Z.add
    (λ o, FlitBuffer.functionalWrite wr (NetworkInterface.outFlitQueue o))).
  rewrite (wvisit_concat _ write_flit
    (λ o, FlitBuffer.m_buffer (NetworkInterface.outFlitQueue o))) by (intros; apply buffer_write).
  by destruct (visit _ _ _ acc).
Qed.

(** *** Written flits are counted *)

Lemma write_flits_count accepts fs n p :
  (∀ m q, wr m q = (accepts m, q)) → Forall (λ f, is_Some (flit_m_msg_ptr f)) fs →
  write_each write_flit fs n p =
    Ok (n + zlen (filter (λ f, accepts <$> flit_m_msg_ptr f = Some true) fs), p).
Proof.
  intros Hwr. revert n. induction fs as [|f fs IH]; intros n Hf.
  { cbn. unfold zlen. cbn. by rewrite Z.add_0_r. }
  apply Forall_cons in Hf as [[m Hm] Hf]. cbn [write_each].
  unfold write_flit, flit_functionalWrite. rewrite Hm. cbn [determinate rbind]. rewrite Hwr.
  cbn [rbind]. rewrite IH by done. rewrite filter_cons, Hm. cbn [fmap option_fmap option_map].
  destruct (accepts m).
  - rewrite decide_True by done. rewrite zlen_cons. f_equal. f_equal. lia.
  - rewrite decide_False by done. by rewrite Z.add_0_r.
Qed.

Lemma write_flits_null fs n p :
  Exists (λ f, flit_m_msg_ptr f = None) fs → write_each write_flit fs n p = Err Undefined.
Proof.
  intros He. revert n p. induction fs as [|f fs IH]; intros n p; [by inversion He|].
  cbn [write_each]. unfold write_flit, flit_functionalWrite.
  destruct (flit_m_msg_ptr f) as [m|] eqn:Hm; [|done]. cbn [determinate rbind].
  apply Exists_cons in He as [He|He]; [congruence|]. destruct (wr m p) as [w q]. cbn [rbind].
  by apply IH.
Qed.

(** C26: what the functional accesses of the network reach.  Of all the flits in it
    [functionalWrite] writes each one in the routers, in the output channels and queues
    of the interfaces and on the links, in this order; [functionalRead] reads the same
    flits and then those in the bridges; neither reaches the flits in the stall queues
    and the trace injection queues of the interfaces.  A write that leaves the packet as
    it is returns the number of flits it reaches whose message it changes, and is
    undefined when one of them has no message, as the flits of a trace do.  The links and
    bridges the network lists have to exist ([valid_links]). *)
Theorem functional_access_flits g p :
  valid_links g →
  functionalWrite wr g p = write_flits (flits_at written g) p ∧
  functionalRead rd g p = read_flits (flits_at readable g) p ∧
  (∀ accepts, (∀ m q, wr m q = (accepts m, q)) →
     Forall (λ f, is_Some (flit_m_msg_ptr f)) (flits_at written g) →
     functionalWrite wr g p =
       Ok (zlen (filter (λ f, accepts <$> flit_m_msg_ptr f = Some true) (flits_at written g)), p)) ∧
  (Exists (λ f, flit_m_msg_ptr f = None) (flits_at written g) →
     functionalWrite wr g p = Err Undefined).
Proof.
  intros Hv. assert (∀ l q, l ∈ m_networklinks g ++ m_networkbridges g →
    read_link rd g l q = rvisit (flit_functionalRead rd) (link_flits g l) (false, q) ∧
    write_link wr g l q = wvisit write_flit (link_flits g l) (0, q)) as Hl.
  { intros l q [b Hb]%Hv. unfold read_link, write_link, link_flits. rewrite Hb.
    split; [apply buffer_read|apply buffer_write]. }
  assert (functionalWrite wr g p = write_flits (flits_at written g) p) as Hw.
  { rewrite written_flits. unfold functionalWrite, write_flits.
    rewrite !write_each_visit, !visit_app.
    rewrite (wvisit_concat _ write_flit (λ ro, router_flits (ro_router ro)))
      by (intros; apply router_write).
    destruct (visit _ _ _ (0, p)) as [[n1 p1]|]; cbn [rbind]; [|done].
    rewrite write_each_visit, visit_app.
    rewrite (wvisit_concat _ write_flit (λ io, ni_flits (io_ni io))) by (intros; apply ni_write).
    destruct (visit _ _ _ (n1, p1)) as [[n2 p2]|]; cbn [rbind]; [|done].
    rewrite write_each_visit. apply wvisit_concat. intros l q Hin. apply Hl.
    apply elem_of_app. by left. }
  rewrite Hw. split_and!; [done| | |].
  - rewrite readable_flits, written_flits. unfold functionalRead, read_flits.
    rewrite <- !app_assoc. rewrite !read_each_visit, !visit_app.
    rewrite (rvisit_concat _ (flit_functionalRead rd) (λ ro, router_flits (ro_router ro)))
      by (intros; apply router_read).
    destruct (visit _ _ _ (false, p)) as [[n1 p1]|]; cbn [rbind]; [|done].
    rewrite read_each_visit, visit_app.
    rewrite (rvisit_concat _ (flit_functionalRead rd) (λ io, ni_flits (io_ni io)))
      by (intros; apply ni_read).
    destruct (visit _ _ _ (n1, p1)) as [[n2 p2]|]; cbn [rbind]; [|done].
    rewrite read_each_visit, visit_app.
    rewrite (rvisit_concat _ (flit_functionalRead rd) (link_flits g) (m_networklinks g)).
    2: { intros l q Hin. apply Hl. apply elem_of_app. by left. }
    destruct (visit _ _ _ (n2, p2)) as [[n3 p3]|]; cbn [rbind]; [|done].
    rewrite read_each_visit. apply rvisit_concat. intros l q Hin. apply Hl.
    apply elem_of_app. by right.
  - intros accepts Ha Hf. unfold write_flits.
    by rewrite (write_flits_count accepts _ 0 p Ha Hf), Z.add_0_l.
  - intros He. unfold write_flits. by apply write_flits_null.
Qed.

End access.

End AccessFacts.

(** ** The two routers *)

Module AccessExample.
Import NetworkAccess AccessFacts.
#[local] Existing Instance ExampleMachines.machines.

(** Two packets of phase 3 and one of a phase beyond the limits. *)
Definition recorded : list ((Z * Z * Z) * Tick) :=
  [((1, 0, 3), 70); ((1, 0, 500), 99); ((1, 0, 3), 40)].

Definition statistics : NetStats.t := foldl record_phase (NetStats.make 1 2 (-1)) recorded.

Lemma phase_statistics_correct_witness :
  ∃ totals rs stats, collateStats BuiltExample.after statistics (mkLinkTotals 0 0 0) registered =
                       Ok (totals, rs, stats) ∧
    stats !! (1, 0, 3) = Some 70 ∧ stats !! (1, 0, 4) = Some 0 ∧ stats !! (1, 0, 500) = None.
Proof.
  destruct (collate_links BuiltExample.after (m_networklinks BuiltExample.after)
    (mkLinkTotals 0 0 0)) as [totals|] eqn:Et; [|vm_compute in Et; discriminate].
  destruct (collate_routers (routers BuiltExample.after)) as [rs|] eqn:Er;
    [|vm_compute in Er; discriminate].
  assert (collateStats BuiltExample.after statistics (mkLinkTotals 0 0 0) registered =
    Ok (totals, rs, collate_phases (NetStats.m_packet_phase_latencies statistics) registered))
    as Hc by (unfold collateStats; rewrite Et, Er; reflexivity).
  pose proof (phase_statistics_correct BuiltExample.after 1 2 (-1) recorded _ _ _ _ Hc) as Hk.
  exists totals, rs. eexists. split; [exact Hc|]. split; [|split].
  - destruct (Hk (1, 0, 3)) as (_ & H1 & _).
    destruct H1 as (m & Hm & Hin & Hle); [split_and!; done|done|].
    rewrite Hm. f_equal. apply Z.le_antisymm; [|apply Hle; left].
    unfold latencies_of in Hin. vm_compute in Hin.
    apply elem_of_cons in Hin as [->|Hin%list_elem_of_singleton]; [|subst m]; done.
  - destruct (Hk (1, 0, 4)) as (H0 & _). apply H0; [split_and!; done|reflexivity].
  - destruct (Hk (1, 0, 500)) as (_ & _ & H2). apply H2. intros (_ & _ & _ & H3). done.
Defined.

(** A flit of message 5 on the link from router 0 to router 1 and one in the bridge of the
    link back. *)
Definition message_flit : flit :=
  new_flit 0 0 0 0 (mkRoute 0 (ExampleMachines.dest 1 1) 0 0 1 1 0 false 0 0 0) 1 (Some 5%nat)
    16 16 1000.

Definition put_flit (s : list link_object) (p : Z) : result (list link_object) :=
  vupd s p (λ o, Ok (mkLinkObject
    (map_base (λ l, NetworkLink.with_buffer l
       (FlitBuffer.insert (NetworkLink.linkBuffer l) message_flit)) (lo_kind o))
    (link_consumer o) (link_srcQueue o))).

Definition loaded : t :=
  match (s ← put_flit (links BuiltExample.after) 8; put_flit s 12) with
  | Ok s => with_links BuiltExample.after s
  | Err _ => BuiltExample.after
  end.

(** The packet counts the messages it meets: the write meets one, the read both. *)
Definition count (_ : nat) (p : Z) : bool * Z := (true, p + 1).

(** And one in the stall queue of interface 0. *)
Definition stalled (g : t) : t :=
  match vupd (nis g) 0 (λ io,
          n ← NetworkInterface.upd_inport (io_ni io) 0
                (λ p, NetworkInterface.with_stall_queue p [message_flit]);
          Ok (mkInterfaceObject n (io_in io) (io_out io))) with
  | Ok ns => mk (routers g) ns (links g) (m_networklinks g) (m_creditlinks g)
               (m_networkbridges g) (m_max_vcs_per_vnet g)
  | Err _ => g
  end.

Lemma functional_access_flits_witness :
  let g := stalled loaded in
  contents g = [(InterfaceStallQueue, message_flit); (LinkBuffer, message_flit);
                (BridgeBuffer, message_flit)] ∧
  functionalWrite (λ m q, (Nat.eqb m 5, q)) g 7 = Ok (1, 7) ∧
  functionalRead count g 0 = read_flits count [message_flit; message_flit] 0 ∧
  functionalRead count g 0 = Ok (true, 2).
Proof.
  intros g. assert (valid_links g) as Hv.
  { intros l Hl. destruct (get_base (links g) l) as [b|] eqn:E; [by exists b|].
    exfalso. vm_compute in Hl.
    repeat (apply elem_of_cons in Hl as [->|Hl]; [vm_compute in E; discriminate|]).
    by apply not_elem_of_nil in Hl. }
  assert (flits_at written g = [message_flit]) as Ew by (vm_compute; reflexivity).
  assert (flits_at readable g = [message_flit; message_flit]) as Er by (vm_compute; reflexivity).
  destruct (functional_access_flits count (λ m q, (Nat.eqb m 5, q)) g 7 Hv) as (_ & _ & H3 & _).
  destruct (functional_access_flits count (λ m q, (Nat.eqb m 5, q)) g 0 Hv) as (_ & H2 & _).
  split; [vm_compute; reflexivity|]. split; [|split; [|vm_compute; reflexivity]].
  - rewrite (H3 (λ m, Nat.eqb m 5)); [|reflexivity|].
    + rewrite Ew. vm_compute. reflexivity.
    + rewrite Ew. constructor; [by eexists|constructor].
  - rewrite H2, Er. reflexivity.
Defined.

End AccessExample.
