(* ===== verification/SimpleSwitch.v ===== *)
(** * Switches of the simple network

    [network/simple/{PerfectSwitch,Throttle,Switch}] and
    [network/simple/routing/WeightBased]: the network model that moves whole messages from
    message buffer to message buffer.  A perfect switch takes messages from its incoming
    buffers and puts them, or copies of them, into the buffers of its output ports; a
    throttle per output port passes them on within the bandwidth of the link.

    The objects share message buffers, and a buffer knows the consumer it wakes: buffers and
    switches live in one state [t], a pointer to a buffer is its index in [buffers], the null
    pointer is [None].  The messages are objects too ([messages]); a [Message.t] holds a
    reference to one.  What a buffer asks of an object outside the network, to wake a
    controller or to call it back, is appended to [requests].

    [random_mt.random(0, 0xff)] of [WeightBased] is an argument.  Of the statistics the
    counters are modelled, the accumulated utilisation, which is floating point, is not. *)

From S2P Require Import Prelude.
From S2P Require Import IntMath.
From S2P Require Import NetDest.
From S2P Require Import Flit.
From S2P Require Import Clocking.
From S2P Require Import MessageBuffer.
From S2P Require Import Network.

#[export] Instance MessageSizeType_eq_dec : EqDecision MessageSizeType.
Proof. solve_decision. Defined.

(** An [int] an expression evaluates to, undefined when it overflows. *)
Definition as_int (x : Z) : result Z :=
  if (- 2 ^ 31 <=? x) && (x <? 2 ^ 31) then Ok x else Err Undefined.

Notation BufferPtr := (option Z) (only parsing).

(** ** Routing by weight *)

Module WeightBased.

Record LinkInfo := mkLinkInfo {
  m_link_id : Z;
  m_routing_entry : NetDest.t;
  m_out_buffers : list BufferPtr;
  m_order : Z;
  m_weight : Z;
}.

(** The parameter [adaptive_routing] and the links in the order they are tried. *)
Record t := mk { adaptive_routing : bool; m_links : list LinkInfo }.

Record RouteInfo := mkRouteInfo { m_destinations : NetDest.t; ri_link_id : Z }.

(** The comparison of the tuples in [sortLinks]. *)
Definition before (a b : LinkInfo) : bool :=
  if m_order a =? m_order b then
    if m_weight a =? m_weight b then m_link_id a <? m_link_id b
    else m_weight a <? m_weight b
  else m_order a <? m_order b.

(** [std::sort]: the link numbers differ, so the order of the result is determined. *)
Fixpoint insert_link (x : LinkInfo) (l : list LinkInfo) : list LinkInfo :=
  match l with
  | [] => [x]
  | y :: l' => if before x y then x :: l else y :: insert_link x l'
  end.

Definition sortLinks (l : list LinkInfo) : list LinkInfo := foldr insert_link [] l.

Definition addOutPort (r : t) (link_id : Z) (m_out_buffer : list BufferPtr)
    (routing_table_entry : NetDest.t) (link_weight : Z) : result t :=
  _ ← assert (link_id =? zlen (m_links r));
  Ok (mk (adaptive_routing r)
        (sortLinks (m_links r ++
           [mkLinkInfo link_id routing_table_entry m_out_buffer 0 link_weight]))).

Definition with_order (l : LinkInfo) (o : Z) : LinkInfo :=
  mkLinkInfo (m_link_id l) (m_routing_entry l) (m_out_buffers l) o (m_weight l).

Section routing.
  Context `{MachineTypes}.

(** [findRoute]: the links are tried in order, each takes the destinations it leads to. *)
Fixpoint findRoute (links : list LinkInfo) (msg_dsts : NetDest.t) : result (list RouteInfo) :=
  match links with
  | [] => _ ← assert (NetDest.count msg_dsts =? 0); Ok []
  | l :: links' =>
      hit ← NetDest.intersectionIsNotEmpty msg_dsts (m_routing_entry l);
      if (hit : bool) then
        dsts ← NetDest.AND msg_dsts (m_routing_entry l);
        rest ← NetDest.removeNetDest msg_dsts (m_routing_entry l);
        out ← findRoute links' rest;
        Ok (mkRouteInfo dsts (m_link_id l) :: out)
      else findRoute links' msg_dsts
  end.

End routing.

End WeightBased.

(** ** The state *)

(** The object that consumes the messages of a buffer. *)
Inductive buffer_consumer :=
| PerfectSwitchOf (switch : Z)
| ThrottleOf (switch throttle : Z)
| Controller (id : Z).

#[export] Instance buffer_consumer_eq_dec : EqDecision buffer_consumer.
Proof. solve_decision. Defined.

Record NetBuffer := mkNetBuffer {
  nb_buffer : MessageBuffer.t;
  nb_consumer : option buffer_consumer;
  m_vnet_id : Z;
  m_input_link_id : Z;
  m_routing_priority : Z;
}.

(** What the network reads of a message besides the fields of its base class. *)
Record NetMsg := mkNetMsg { nm_destination : NetDest.t; nm_size : MessageSizeType }.

(** What is asked of objects outside the network. *)
Inductive request :=
| ControllerAt (id : Z) (time : Tick)
| ControllerNextCycle (id : Z)
| CallBack (buffer : Z).

Module Throttle.

Record Stats := mkStats {
  msg_counts : MessageSizeType → Z → Z;
  total_msg_count : Z;
  total_msg_bytes : Z;
  total_data_msg_bytes : Z;
  total_msg_wait_time : Z;
  total_stall_cy : Z;
  total_bw_sat_cy : Z;
}.

Record t := mk {
  m_in : list Z;
  m_out : list BufferPtr;
  m_vnets : Z;
  m_units_remaining : list (list Z);
  m_node : Z;
  m_physical_vnets : bool;
  m_link_bandwidth_multiplier : list Z;
  m_vnet_channels : list Z;
  m_link_latency : Cycles;
  m_wakeups_wo_switch : Z;
  m_endpoint_bandwidth : Z;
  consumer : Consumer.t;
  throttleStats : Stats;
}.

End Throttle.

Module PerfectSwitch.

Record OutputPort := mkOutputPort { latency : Tick; op_buffers : list Z }.

Record t := mk {
  m_in : list (list BufferPtr);
  m_out : list OutputPort;
  m_in_prio : list (list Z);
  m_in_prio_groups : list (list (list Z));
  m_virtual_networks : Z;
  m_wakeups_wo_switch : Z;
  m_pending_message_count : list Z;
  consumer : Consumer.t;
}.

End PerfectSwitch.

Module Switch.

Record t := mk {
  perfectSwitch : PerfectSwitch.t;
  throttles : list Throttle.t;
  m_int_routing_latency : Cycles;
  m_ext_routing_latency : Cycles;
  m_routing_unit : WeightBased.t;
  m_num_connected_buffers : Z;
  m_port_buffers : list Z;
  clk : Clocked.t;
}.

End Switch.

Record snet := mkSnet {
  net_base : Network.t;
  switches : gmap Z Switch.t;
  buffers : list NetBuffer;
  messages : gmap nat NetMsg;
  m_int_link_buffers : list Z;
  net_endpoint_bandwidth : Z;
  physical_vnets_channels : list Z;
  physical_vnets_bandwidth : list Z;
  requests : list request;
}.

(** What a wake-up reads of other objects: the tick, the flags of the Ruby system,
    [random_time()] for a buffer and its message counter, and the random numbers of
    [WeightBased] for a message and a link. *)
Record SnEnv := mkSnEnv {
  sn_cur : Tick;
  sn_flags : RubyFlags;
  sn_rnd : Z → Z → Tick;
  sn_random : nat → Z → Z;
}.

(** Setters. *)
Definition with_switches (s : snet) (m : gmap Z Switch.t) : snet :=
  mkSnet (net_base s) m (buffers s) (messages s) (m_int_link_buffers s)
    (net_endpoint_bandwidth s) (physical_vnets_channels s) (physical_vnets_bandwidth s)
    (requests s).

Definition with_buffers (s : snet) (l : list NetBuffer) : snet :=
  mkSnet (net_base s) (switches s) l (messages s) (m_int_link_buffers s)
    (net_endpoint_bandwidth s) (physical_vnets_channels s) (physical_vnets_bandwidth s)
    (requests s).

Definition with_messages (s : snet) (m : gmap nat NetMsg) : snet :=
  mkSnet (net_base s) (switches s) (buffers s) m (m_int_link_buffers s)
    (net_endpoint_bandwidth s) (physical_vnets_channels s) (physical_vnets_bandwidth s)
    (requests s).

Definition ask (s : snet) (r : request) : snet :=
  mkSnet (net_base s) (switches s) (buffers s) (messages s) (m_int_link_buffers s)
    (net_endpoint_bandwidth s) (physical_vnets_channels s) (physical_vnets_bandwidth s)
    (requests s ++ [r]).

Definition get_switch (s : snet) (k : Z) : result Switch.t := determinate (switches s !! k).

Definition put_switch (s : snet) (k : Z) (sw : Switch.t) : snet :=
  with_switches s (<[k := sw]> (switches s)).

Definition with_perfectSwitch (sw : Switch.t) (p : PerfectSwitch.t) : Switch.t :=
  Switch.mk p (Switch.throttles sw) (Switch.m_int_routing_latency sw)
    (Switch.m_ext_routing_latency sw) (Switch.m_routing_unit sw)
    (Switch.m_num_connected_buffers sw) (Switch.m_port_buffers sw) (Switch.clk sw).

Definition with_throttles (sw : Switch.t) (l : list Throttle.t) : Switch.t :=
  Switch.mk (Switch.perfectSwitch sw) l (Switch.m_int_routing_latency sw)
    (Switch.m_ext_routing_latency sw) (Switch.m_routing_unit sw)
    (Switch.m_num_connected_buffers sw) (Switch.m_port_buffers sw) (Switch.clk sw).

Definition with_routing_unit (sw : Switch.t) (r : WeightBased.t) : Switch.t :=
  Switch.mk (Switch.perfectSwitch sw) (Switch.throttles sw) (Switch.m_int_routing_latency sw)
    (Switch.m_ext_routing_latency sw) r
    (Switch.m_num_connected_buffers sw) (Switch.m_port_buffers sw) (Switch.clk sw).

(** A change of the perfect switch, of a throttle, of switch [k]. *)
Definition on_perfect (k : Z) (f : PerfectSwitch.t → result PerfectSwitch.t) (s : snet)
    : result snet :=
  sw ← get_switch s k; p ← f (Switch.perfectSwitch sw);
  Ok (put_switch s k (with_perfectSwitch sw p)).

Definition on_throttle (k j : Z) (f : Throttle.t → result Throttle.t) (s : snet) : result snet :=
  sw ← get_switch s k; l ← vupd (Switch.throttles sw) j f;
  Ok (put_switch s k (with_throttles sw l)).

Definition pm_with_consumer (p : PerfectSwitch.t) (c : Consumer.t) : PerfectSwitch.t :=
  PerfectSwitch.mk (PerfectSwitch.m_in p) (PerfectSwitch.m_out p) (PerfectSwitch.m_in_prio p)
    (PerfectSwitch.m_in_prio_groups p) (PerfectSwitch.m_virtual_networks p)
    (PerfectSwitch.m_wakeups_wo_switch p) (PerfectSwitch.m_pending_message_count p) c.

Definition pm_with_pending (p : PerfectSwitch.t) (l : list Z) : PerfectSwitch.t :=
  PerfectSwitch.mk (PerfectSwitch.m_in p) (PerfectSwitch.m_out p) (PerfectSwitch.m_in_prio p)
    (PerfectSwitch.m_in_prio_groups p) (PerfectSwitch.m_virtual_networks p)
    (PerfectSwitch.m_wakeups_wo_switch p) l (PerfectSwitch.consumer p).

Definition pm_with_wakeups (p : PerfectSwitch.t) (n : Z) : PerfectSwitch.t :=
  PerfectSwitch.mk (PerfectSwitch.m_in p) (PerfectSwitch.m_out p) (PerfectSwitch.m_in_prio p)
    (PerfectSwitch.m_in_prio_groups p) (PerfectSwitch.m_virtual_networks p) n
    (PerfectSwitch.m_pending_message_count p) (PerfectSwitch.consumer p).

Definition pm_with_ports (p : PerfectSwitch.t) (ins : list (list BufferPtr))
    (outs : list PerfectSwitch.OutputPort) (prio : list (list Z)) (groups : list (list (list Z)))
    : PerfectSwitch.t :=
  PerfectSwitch.mk ins outs prio groups (PerfectSwitch.m_virtual_networks p)
    (PerfectSwitch.m_wakeups_wo_switch p) (PerfectSwitch.m_pending_message_count p)
    (PerfectSwitch.consumer p).

Definition th_with (t : Throttle.t) (units : list (list Z)) (wakeups : Z) (c : Consumer.t)
    (st : Throttle.Stats) : Throttle.t :=
  Throttle.mk (Throttle.m_in t) (Throttle.m_out t) (Throttle.m_vnets t) units
    (Throttle.m_node t) (Throttle.m_physical_vnets t) (Throttle.m_link_bandwidth_multiplier t)
    (Throttle.m_vnet_channels t) (Throttle.m_link_latency t) wakeups
    (Throttle.m_endpoint_bandwidth t) c st.

Definition th_with_units (t : Throttle.t) (units : list (list Z)) : Throttle.t :=
  th_with t units (Throttle.m_wakeups_wo_switch t) (Throttle.consumer t)
    (Throttle.throttleStats t).

Definition th_with_consumer (t : Throttle.t) (c : Consumer.t) : Throttle.t :=
  th_with t (Throttle.m_units_remaining t) (Throttle.m_wakeups_wo_switch t) c
    (Throttle.throttleStats t).

Definition th_with_stats (t : Throttle.t) (st : Throttle.Stats) : Throttle.t :=
  th_with t (Throttle.m_units_remaining t) (Throttle.m_wakeups_wo_switch t)
    (Throttle.consumer t) st.

(** ** Consumers *)

(** A request to the consumer [c]: a switch or throttle is scheduled as [f] says, an object
    outside is asked. *)
Definition schedule (f : Clocked.t → Consumer.t → result Consumer.t) (ask_it : Z → request)
    (c : buffer_consumer) (s : snet) : result snet :=
  match c with
  | PerfectSwitchOf k =>
      sw ← get_switch s k;
      on_perfect k (λ p, x ← f (Switch.clk sw) (PerfectSwitch.consumer p);
                         Ok (pm_with_consumer p x)) s
  | ThrottleOf k j =>
      sw ← get_switch s k;
      on_throttle k j (λ t, x ← f (Switch.clk sw) (Throttle.consumer t);
                            Ok (th_with_consumer t x)) s
  | Controller i => Ok (ask s (ask_it i))
  end.

(** [m_consumer->scheduleEventAbsolute(time)], [m_consumer->scheduleEvent(Cycles(1))] *)
Definition schedule_absolute (cur time : Tick) : buffer_consumer → snet → result snet :=
  schedule (λ em c, Consumer.scheduleEventAbsolute em cur c time) (λ i, ControllerAt i time).

Definition schedule_next (cur : Tick) : buffer_consumer → snet → result snet :=
  schedule (λ em c, Consumer.scheduleEvent em cur c 1) ControllerNextCycle.

(** [storeEventInfo]: only perfect switches keep it. *)
Definition storeEventInfo (info : Z) (c : buffer_consumer) (s : snet) : result snet :=
  match c with
  | PerfectSwitchOf k =>
      on_perfect k
        (λ p, l ← vupd (PerfectSwitch.m_pending_message_count p) info (λ n, Ok (n + 1));
              Ok (pm_with_pending p l)) s
  | _ => Ok s
  end.

(** ** Buffers *)

Definition get_buffer (s : snet) (b : Z) : result NetBuffer := vget (buffers s) b.

Definition with_nb (n : NetBuffer) (b : MessageBuffer.t) : NetBuffer :=
  mkNetBuffer b (nb_consumer n) (m_vnet_id n) (m_input_link_id n) (m_routing_priority n).

Definition put_buffer (s : snet) (b : Z) (mb : MessageBuffer.t) : result snet :=
  l ← vupd (buffers s) b (λ n, Ok (with_nb n mb)); Ok (with_buffers s l).

(** [setConsumer(c)], [setIncomingLink(port)], [setVnet(net)] *)
Definition setConsumer (b : Z) (c : buffer_consumer) (s : snet) : result snet :=
  l ← vupd (buffers s) b
        (λ n, mb ← MessageBuffer.setConsumer (nb_buffer n);
              Ok (mkNetBuffer mb (Some c) (m_vnet_id n) (m_input_link_id n)
                    (m_routing_priority n)));
  Ok (with_buffers s l).

Definition set_link_and_vnet (b port net : Z) (s : snet) : result snet :=
  l ← vupd (buffers s) b
        (λ n, Ok (mkNetBuffer (nb_buffer n) (nb_consumer n) net port (m_routing_priority n)));
  Ok (with_buffers s l).

Definition isReady (cur now : Tick) (b : Z) (s : snet) : result (bool * snet) :=
  n ← get_buffer s b;
  '(ready, again) ← MessageBuffer.isReady (nb_buffer n) now;
  s ← (if (again : bool) then
         c ← determinate (nb_consumer n); schedule_next cur c s
       else Ok s);
  Ok (ready, s).

Definition areNSlotsAvailable (now : Tick) (k b : Z) (s : snet) : result (bool * snet) :=
  n ← get_buffer s b;
  let '(ok, mb) := MessageBuffer.areNSlotsAvailable (nb_buffer n) k now in
  s ← put_buffer s b mb;
  Ok (ok, s).

(** [getSize(now)] of the buffers of a link, which may be null pointers. *)
Fixpoint queue_length (now : Tick) (bs : list BufferPtr) (s : snet) : result (Z * snet) :=
  match bs with
  | [] => Ok (0, s)
  | p :: bs' =>
      b ← determinate p;
      n ← get_buffer s b;
      let '(size, mb) := MessageBuffer.getSize (nb_buffer n) now in
      s ← put_buffer s b mb;
      '(rest, s) ← queue_length now bs' s;
      Ok (size + rest, s)
  end.

Definition enqueue (e : SnEnv) (now : Tick) (b : Z) (m : Message.t) (delta : Tick) (s : snet)
    : result snet :=
  n ← get_buffer s b;
  '(mb, arrival) ← MessageBuffer.enqueue (sn_flags e)
                     (sn_rnd e b (MessageBuffer.m_msg_counter (nb_buffer n)))
                     (nb_buffer n) (Some m) now delta false;
  s ← put_buffer s b mb;
  c ← determinate (nb_consumer n);
  s ← schedule_absolute (sn_cur e) arrival c s;
  storeEventInfo (m_vnet_id n) c s.

(** [dequeue(now)]: the message as it is left. *)
Definition dequeue (e : SnEnv) (now : Tick) (b : Z) (s : snet) : result (Message.t * snet) :=
  n ← get_buffer s b;
  m ← MessageBuffer.peekMsgPtr (nb_buffer n);
  '(_, mb, callback) ← MessageBuffer.dequeue (nb_buffer n) now (sn_cur e) true;
  m ← Message.updateDelayedTicks m now;
  s ← put_buffer s b mb;
  Ok (m, if (callback : bool) then ask s (CallBack b) else s).

(** ** Throttles *)

Definition MESSAGE_SIZE_MULTIPLIER : Z := 1000.
Definition PRIORITY_SWITCH_LIMIT : Z := 128.

Definition network_message_to_size (s : snet) (x : NetMsg) : result Z :=
  size ← Network.MessageSizeType_to_int (net_base s) (nm_size x);
  as_int (size * MESSAGE_SIZE_MULTIPLIER).

Definition no_stats : Throttle.Stats := Throttle.mkStats (λ _ _, 0) 0 0 0 0 0 0.

(** The two constructors: without and with physical virtual networks. *)
Definition make_throttle (node link_latency link_bandwidth_multiplier endpoint_bandwidth : Z)
    : result Throttle.t :=
  _ ← assert (0 <? link_bandwidth_multiplier);
  Ok (Throttle.mk [] [] 0 [] node false [link_bandwidth_multiplier] [] link_latency 0
        endpoint_bandwidth Consumer.make no_stats).

Definition make_physical_throttle (node link_latency : Z)
    (vnet_channels vnet_bandwidth_multiplier : list Z) (endpoint_bandwidth : Z)
    : result Throttle.t :=
  _ ← assert (forallb (Z.ltb 0) vnet_bandwidth_multiplier);
  _ ← assert (forallb (Z.ltb 0) vnet_channels);
  _ ← assert (zlen vnet_bandwidth_multiplier =? zlen vnet_channels);
  Ok (Throttle.mk [] [] 0 [] node true vnet_bandwidth_multiplier vnet_channels link_latency 0
        endpoint_bandwidth Consumer.make no_stats).

Definition getLinkBandwidth (t : Throttle.t) (vnet : Z) : result Z :=
  bw ← vget (Throttle.m_link_bandwidth_multiplier t)
         (if Throttle.m_physical_vnets t then vnet else 0);
  _ ← assert (0 <? bw);
  as_int (Throttle.m_endpoint_bandwidth t * bw).

Definition getChannelCnt (t : Throttle.t) (vnet : Z) : result Z :=
  if Throttle.m_physical_vnets t then vget (Throttle.m_vnet_channels t) vnet else Ok 1.

(** The summand of virtual network [i]. *)
Definition vnet_bandwidth (t : Throttle.t) (i : Z) : result Z :=
  bw ← getLinkBandwidth t i; n ← getChannelCnt t i; as_int (bw * n).

Definition getTotalLinkBandwidth (t : Throttle.t) : result Z :=
  sum ← vnet_bandwidth t 0;
  if Throttle.m_physical_vnets t then
    for_range 1 (Z.to_nat (Throttle.m_vnets t - 1))
      (λ i sum, x ← vnet_bandwidth t i; as_int (sum + x)) sum
  else Ok sum.

(** The loop of [addLinks] from virtual network [vnet] on: the buffers of the switch get
    throttle [j] of switch [k] as consumer. *)
Fixpoint addLinks_from (k j vnet : Z) (in_vec : list Z) (out_vec : list BufferPtr) (s : snet)
    (t : Throttle.t) : result (snet * Throttle.t) :=
  match in_vec, out_vec with
  | in_ptr :: in_vec', out_ptr :: out_vec' =>
      n ← getChannelCnt t vnet;
      let t := Throttle.mk (Throttle.m_in t ++ [in_ptr]) (Throttle.m_out t ++ [out_ptr])
                 (Throttle.m_vnets t)
                 (Throttle.m_units_remaining t ++ [replicate (Z.to_nat n) 0])
                 (Throttle.m_node t) (Throttle.m_physical_vnets t)
                 (Throttle.m_link_bandwidth_multiplier t) (Throttle.m_vnet_channels t)
                 (Throttle.m_link_latency t) (Throttle.m_wakeups_wo_switch t)
                 (Throttle.m_endpoint_bandwidth t) (Throttle.consumer t)
                 (Throttle.throttleStats t) in
      s ← setConsumer in_ptr (ThrottleOf k j) s;
      addLinks_from k j (vnet + 1) in_vec' out_vec' s t
  | _, _ => Ok (s, t)
  end.

Definition addLinks (k j : Z) (in_vec : list Z) (out_vec : list BufferPtr) (s : snet)
    (t : Throttle.t) : result (snet * Throttle.t) :=
  _ ← assert (zlen in_vec =? zlen out_vec);
  '(s, t) ← addLinks_from k j 0 in_vec out_vec s t;
  let t := Throttle.mk (Throttle.m_in t) (Throttle.m_out t) (zlen in_vec)
             (Throttle.m_units_remaining t) (Throttle.m_node t) (Throttle.m_physical_vnets t)
             (Throttle.m_link_bandwidth_multiplier t) (Throttle.m_vnet_channels t)
             (Throttle.m_link_latency t) (Throttle.m_wakeups_wo_switch t)
             (Throttle.m_endpoint_bandwidth t) (Throttle.consumer t)
             (Throttle.throttleStats t) in
  _ ← assert (zlen (Throttle.m_link_bandwidth_multiplier t) =?
              if Throttle.m_physical_vnets t then Throttle.m_vnets t else 1);
  Ok (s, t).

Definition get_throttle (s : snet) (k j : Z) : result Throttle.t :=
  sw ← get_switch s k; vget (Switch.throttles sw) j.

(** [m_switch->clockEdge()] *)
Definition switch_edge (cur : Tick) (s : snet) (k : Z) : result Tick :=
  sw ← get_switch s k; Ok (Clocked.clockEdge (Switch.clk sw) cur 0).

Definition set_count (f : MessageSizeType → Z → Z) (ty : MessageSizeType) (v n : Z)
    : MessageSizeType → Z → Z :=
  λ ty' v', if bool_decide (ty' = ty) && (v' =? v) then n else f ty' v'.

(** The counters for a message of [bytes] bytes that waited for [wait] ticks; [control] is
    the size of a control message. *)
Definition count_message (ty : MessageSizeType) (vnet bytes control : Z) (wait : Tick)
    (st : Throttle.Stats) : Throttle.Stats :=
  Throttle.mkStats
    (set_count (Throttle.msg_counts st) ty vnet (Throttle.msg_counts st ty vnet + 1))
    (Throttle.total_msg_count st + 1) (Throttle.total_msg_bytes st + bytes)
    (Throttle.total_data_msg_bytes st + wrap32 (bytes - control))
    (Throttle.total_msg_wait_time st + wait) (Throttle.total_stall_cy st)
    (Throttle.total_bw_sat_cy st).

Section operate_throttle.
  Variables (e : SnEnv) (k j vnet : Z) (now : Tick) (inp outp : Z).

(** [hasPendingWork()] *)
Definition hasPendingWork (units : Z) (s : snet) : result (bool * snet) :=
  '(ready, s) ← isReady (sn_cur e) now inp s; Ok (ready || (0 <? units), s).

(** The head of the incoming buffer moves to the outgoing one; its size in units. *)
Definition move_message (s : snet) : result (Z * snet) :=
  n ← get_buffer s inp;
  m ← MessageBuffer.peekMsgPtr (nb_buffer n);
  x ← determinate (messages s !! Message.msg_ref m);
  units ← network_message_to_size s x;
  '(m', s) ← dequeue e now inp s;
  t ← get_throttle s k j;
  sw ← get_switch s k;
  s ← enqueue e now outp m' (Clocked.cyclesToTicks (Switch.clk sw) (Throttle.m_link_latency t)) s;
  bytes ← Network.MessageSizeType_to_int (net_base s) (nm_size x);
  control ← Network.MessageSizeType_to_int (net_base s) Control;
  s ← on_throttle k j
        (λ t, Ok (th_with_stats t
           (count_message (nm_size x) vnet bytes control (now - Message.m_LastEnqueueTime m)
              (Throttle.throttleStats t)))) s;
  Ok (units, s).

(** The [while] loop of [operateVnet] on the units the current message still needs and the
    two bandwidths; [None] when it is not over after [fuel] iterations. *)
Fixpoint transfer_loop (fuel : nat) (units bw total : Z) (s : snet)
    : option (result (Z * Z * Z * snet)) :=
  match fuel with
  | O => None
  | S fuel' =>
      if 0 <? bw then
        '(pending, s) ⇐ hasPendingWork units s;
        if (pending : bool) then
          '(ok, s) ⇐ areNSlotsAvailable now 1 outp s;
          if (ok : bool) then
            '(units, s) ⇐
              (if units =? 0 then
                 '(ready, s) ← isReady (sn_cur e) now inp s;
                 if (ready : bool) then move_message s else Ok (units, s)
               else Ok (units, s));
            let spent := Z.min units bw in
            transfer_loop fuel' (units - spent) (bw - spent) (total - spent) s
          else Some (Ok (units, bw, total, s))
        else Some (Ok (units, bw, total, s))
      else Some (Ok (units, bw, total, s))
  end.

(** An iteration ends the message it works on or the bandwidth, so there are no more of them
    than messages in the buffer, and two. *)
Definition transfer_fuel (s : snet) : result nat :=
  n ← get_buffer s inp;
  Ok (S (S (length (MessageBuffer.m_prio_heap (nb_buffer n))))).

End operate_throttle.

(** What a wake-up of a throttle keeps: the bandwidth that is left, and its two flags. *)
Record budget := mkBudget { total_bw_remaining : Z; bw_saturated : bool; output_blocked : bool }.

Definition set_units (t : Throttle.t) (vnet channel units : Z) : result Throttle.t :=
  l ← vupd (Throttle.m_units_remaining t) vnet (λ us, vset us channel units);
  Ok (th_with_units t l).

(** [operateVnet] for the channel [channel] of virtual network [vnet] *)
Definition throttle_operateVnet (e : SnEnv) (k j vnet channel : Z) (st : budget * snet)
    : result (budget * snet) :=
  let '(bd, s) := st in
  t ← get_throttle s k j;
  inp ← vget (Throttle.m_in t) vnet;
  out ← vget (Throttle.m_out t) vnet;
  match out with
  | None => Ok (bd, s)
  | Some outp =>
      us ← vget (Throttle.m_units_remaining t) vnet;
      units ← vget us channel;
      _ ← assert (0 <=? units);
      now ← switch_edge (sn_cur e) s k;
      bw ← (if Throttle.m_physical_vnets t then getLinkBandwidth t vnet
            else Ok (total_bw_remaining bd));
      fuel ← transfer_fuel inp s;
      '(units, bw, total, s) ←
        settled (transfer_loop e k j vnet now inp outp fuel units bw (total_bw_remaining bd) s);
      s ← on_throttle k j (λ t, set_units t vnet channel units) s;
      _ ← assert (0 <=? units);
      _ ← assert (0 <=? bw);
      _ ← assert (0 <=? total);
      '(pending, s) ← hasPendingWork e now inp units s;
      if (pending : bool) then
        '(fine, s) ← (if bw =? 0 then Ok (true, s)
                      else '(ok, s) ← areNSlotsAvailable now 1 outp s; Ok (negb ok, s));
        _ ← assert fine;
        '(blocked, s) ← (if output_blocked bd then Ok (true, s)
                         else '(ok, s) ← areNSlotsAvailable now 1 outp s; Ok (negb ok, s));
        Ok (mkBudget total (bw_saturated bd || (bw =? 0)) blocked, s)
      else Ok (mkBudget total (bw_saturated bd) (output_blocked bd), s)
  end.

(** The channels of a virtual network in turn. *)
Definition throttle_channels (e : SnEnv) (k j vnet : Z) (st : budget * snet)
    : result (budget * snet) :=
  t ← get_throttle st.2 k j;
  n ← getChannelCnt t vnet;
  for_range 0 (Z.to_nat n) (λ channel, throttle_operateVnet e k j vnet channel) st.

Definition count_cycle (stalled saturated : bool) (st : Throttle.Stats) : Throttle.Stats :=
  Throttle.mkStats (Throttle.msg_counts st) (Throttle.total_msg_count st)
    (Throttle.total_msg_bytes st) (Throttle.total_data_msg_bytes st)
    (Throttle.total_msg_wait_time st)
    (Throttle.total_stall_cy st + if stalled then 1 else 0)
    (Throttle.total_bw_sat_cy st + if saturated then 1 else 0).

(** [Throttle::wakeup()] of throttle [j] of switch [k] *)
Definition throttle_wakeup (e : SnEnv) (k j : Z) (s : snet) : result snet :=
  t ← get_throttle s k j;
  total ← getTotalLinkBandwidth t;
  _ ← assert (0 <? total);
  let n := Throttle.m_wakeups_wo_switch t + 1 in
  let iteration_direction := PRIORITY_SWITCH_LIMIT <? n in
  s ← on_throttle k j
        (λ t, Ok (th_with t (Throttle.m_units_remaining t) (if iteration_direction then 0 else n)
                    (Throttle.consumer t) (Throttle.throttleStats t))) s;
  let vnets := Throttle.m_vnets t in
  '(bd, s) ←
    for_range 0 (Z.to_nat vnets)
      (λ i, throttle_channels e k j (if iteration_direction then i else vnets - 1 - i))
      (mkBudget total false false, s);
  s ← on_throttle k j
        (λ t, Ok (th_with_stats t (count_cycle (output_blocked bd) (bw_saturated bd)
                                     (Throttle.throttleStats t)))) s;
  if bw_saturated bd || output_blocked bd then schedule_next (sn_cur e) (ThrottleOf k j) s
  else Ok s.

(** ** Perfect switches *)

(** [PerfectSwitch(sid, sw, virt_nets)] after [init] *)
Definition make_perfect (virt_nets : Z) : PerfectSwitch.t :=
  PerfectSwitch.mk [] [] [] [] virt_nets 0 (replicate (Z.to_nat virt_nets) 0) Consumer.make.

(** [std::sort] by routing priority.  The order it gives buffers of the same priority is
    unspecified; libstdc++ sorts as many as 16 elements by insertion, which keeps the order
    they were added in. *)
Fixpoint insert_prio (prio : Z → Z) (b : Z) (l : list Z) : list Z :=
  match l with
  | [] => [b]
  | x :: l' => if prio x <=? prio b then x :: insert_prio prio b l' else b :: l
  end.

Definition sort_prio (prio : Z → Z) (l : list Z) : list Z :=
  foldl (λ acc b, insert_prio prio b acc) [] l.

(** The loop that groups the sorted buffers, with [cur_prio] and the groups so far. *)
Fixpoint group_from (prio : Z → Z) (cur_prio : Z) (l : list Z) (groups : list (list Z))
    (back : list Z) : list (list Z) :=
  match l with
  | [] => groups ++ [back]
  | b :: l' =>
      if negb (prio b =? cur_prio) then group_from prio cur_prio l' (groups ++ [back]) [b]
      else group_from prio cur_prio l' groups (back ++ [b])
  end.

Definition group_by_priority (prio : Z → Z) (l : list Z) : list (list Z) :=
  match l with
  | [] => []
  | b :: _ => group_from prio (prio b) l [] []
  end.

(** [v] extended by empty elements up to index [i]. *)
Definition extend_to {A} (i : Z) (v : list (list A)) : list (list A) :=
  v ++ replicate (Z.to_nat (i + 1 - zlen v)) [].

Definition priority_of (s : snet) (b : Z) : Z :=
  match zlookup (buffers s) b with Some n => m_routing_priority n | None => 0 end.

Definition updatePriorityGroups (s : snet) (vnet b : Z) (p : PerfectSwitch.t)
    : result PerfectSwitch.t :=
  prio ← vupd (extend_to vnet (PerfectSwitch.m_in_prio p)) vnet
           (λ l, Ok (sort_prio (priority_of s) (l ++ [b])));
  sorted ← vget prio vnet;
  groups ← vset (extend_to vnet (PerfectSwitch.m_in_prio_groups p)) vnet
             (group_by_priority (priority_of s) sorted);
  Ok (pm_with_ports p (PerfectSwitch.m_in p) (PerfectSwitch.m_out p) prio groups).

(** The loop of [addInPort] from index [i] of the vector on. *)
Fixpoint addInPort_from (k port i : Z) (ins : list BufferPtr) (s : snet) : result snet :=
  match ins with
  | [] => Ok s
  | None :: ins' => addInPort_from k port (i + 1) ins' s
  | Some b :: ins' =>
      s ← setConsumer b (PerfectSwitchOf k) s;
      s ← set_link_and_vnet b port i s;
      s ← on_perfect k (updatePriorityGroups s i b) s;
      addInPort_from k port (i + 1) ins' s
  end.

Definition addInPort (k : Z) (ins : list BufferPtr) (s : snet) : result snet :=
  sw ← get_switch s k;
  let port := zlen (PerfectSwitch.m_in (Switch.perfectSwitch sw)) in
  s ← on_perfect k
        (λ p, Ok (pm_with_ports p (PerfectSwitch.m_in p ++ [ins]) (PerfectSwitch.m_out p)
                    (PerfectSwitch.m_in_prio p) (PerfectSwitch.m_in_prio_groups p))) s;
  addInPort_from k port 0 ins s.

(** [addOutPort] of the perfect switch *)
Definition perfect_addOutPort (k : Z) (out : list Z) (routing_table_entry : NetDest.t)
    (routing_latency : Tick) (link_weight : Z) (s : snet) : result snet :=
  sw ← get_switch s k;
  let p := Switch.perfectSwitch sw in
  r ← WeightBased.addOutPort (Switch.m_routing_unit sw) (zlen (PerfectSwitch.m_out p))
        (Some <$> out) routing_table_entry link_weight;
  let p := pm_with_ports p (PerfectSwitch.m_in p)
             (PerfectSwitch.m_out p ++ [PerfectSwitch.mkOutputPort routing_latency out])
             (PerfectSwitch.m_in_prio p) (PerfectSwitch.m_in_prio_groups p) in
  Ok (put_switch s k (with_perfectSwitch (with_routing_unit sw r) p)).

Definition inBuffer (p : PerfectSwitch.t) (in_port vnet : Z) : result BufferPtr :=
  ins ← vget (PerfectSwitch.m_in p) in_port;
  if zlen ins <=? vnet then Ok None else vget ins vnet.

Section routing.
  Context `{MachineTypes}.

(** The loop of [route] that finds how clogged the links are. *)
Fixpoint order_links (e : SnEnv) (now : Tick) (ref : nat) (links : list WeightBased.LinkInfo)
    (s : snet) : result (list WeightBased.LinkInfo * snet) :=
  match links with
  | [] => Ok ([], s)
  | l :: links' =>
      '(n, s) ← queue_length now (WeightBased.m_out_buffers l) s;
      let o := Z.lor (Z.shiftl n 8) (sn_random e ref (WeightBased.m_link_id l)) in
      '(ls, s) ← order_links e now ref links' s;
      Ok (WeightBased.with_order l o :: ls, s)
  end.

(** [route] of the routing unit of switch [k], for the message [ref] with destination
    [dest]. *)
Definition route (e : SnEnv) (k : Z) (ref : nat) (dest : NetDest.t) (deterministic : bool)
    (s : snet) : result (list WeightBased.RouteInfo * snet) :=
  sw ← get_switch s k;
  let r := Switch.m_routing_unit sw in
  '(links, s) ←
    (if WeightBased.adaptive_routing r then
       now ← switch_edge (sn_cur e) s k;
       '(ls, s) ←
         (if deterministic then
            Ok ((λ l, WeightBased.with_order l 0) <$> WeightBased.m_links r, s)
          else order_links e now ref (WeightBased.m_links r) s);
       Ok (WeightBased.sortLinks ls, s)
     else Ok (WeightBased.m_links r, s));
  sw ← get_switch s k;
  let s := put_switch s k
             (with_routing_unit sw (WeightBased.mk (WeightBased.adaptive_routing r) links)) in
  out ← WeightBased.findRoute links dest;
  Ok (out, s).

(** The buffer of virtual network [vnet] of an outgoing link. *)
Definition out_buffer (p : PerfectSwitch.t) (link vnet : Z)
    : result (PerfectSwitch.OutputPort * Z) :=
  o ← vget (PerfectSwitch.m_out p) link;
  b ← vget (PerfectSwitch.op_buffers o) vnet;
  Ok (o, b).

(** The check for resources: every outgoing queue is asked. *)
Fixpoint enough_slots (now : Tick) (p : PerfectSwitch.t) (vnet : Z)
    (links : list WeightBased.RouteInfo) (s : snet) : result (bool * snet) :=
  match links with
  | [] => Ok (true, s)
  | r :: links' =>
      '(_, b) ← out_buffer p (WeightBased.ri_link_id r) vnet;
      '(ok, s) ← areNSlotsAvailable now 1 b s;
      '(rest, s) ← enough_slots now p vnet links' s;
      Ok ((ok : bool) && rest, s)
  end.

(** [clone()]: a new object with the contents [x]. *)
Definition clone (m : Message.t) (x : NetMsg) (s : snet) : Message.t * snet :=
  let ref := fresh (dom (messages s)) in
  (Message.mk ref (Message.m_time m) (Message.m_LastEnqueueTime m) (Message.m_DelayedTicks m)
     (Message.m_msg_counter m),
   with_messages s (<[ref := x]> (messages s))).

(** One outgoing queue gets the message [m] with the destinations of the link. *)
Definition send_to (e : SnEnv) (now : Tick) (p : PerfectSwitch.t) (vnet : Z)
    (r : WeightBased.RouteInfo) (m : Message.t) (s : snet) : result snet :=
  '(o, b) ← out_buffer p (WeightBased.ri_link_id r) vnet;
  x ← determinate (messages s !! Message.msg_ref m);
  let s := with_messages s
             (<[Message.msg_ref m := mkNetMsg (WeightBased.m_destinations r) (nm_size x)]>
                (messages s)) in
  enqueue e now b m (PerfectSwitch.latency o) s.

(** The links after the first get copies of the unmodified message [m0] with contents [x0]. *)
Fixpoint send_copies (e : SnEnv) (now : Tick) (p : PerfectSwitch.t) (vnet : Z)
    (m0 : Message.t) (x0 : NetMsg) (links : list WeightBased.RouteInfo) (s : snet)
    : result snet :=
  match links with
  | [] => Ok s
  | r :: links' =>
      let '(m, s) := clone m0 x0 s in
      s ← send_to e now p vnet r m s;
      send_copies e now p vnet m0 x0 links' s
  end.

(** One iteration of the loop of [operateMessageBuffer] with a ready message: whether the
    loop goes on. *)
Definition forward_message (e : SnEnv) (k vnet b : Z) (now : Tick) (s : snet)
    : result (bool * snet) :=
  n ← get_buffer s b;
  m ← MessageBuffer.peekMsgPtr (nb_buffer n);
  x ← determinate (messages s !! Message.msg_ref m);
  ordered ← vget (Network.m_ordered (net_base s)) vnet;
  '(output_links, s) ← route e k (Message.msg_ref m) (nm_destination x) ordered s;
  sw ← get_switch s k;
  let p := Switch.perfectSwitch sw in
  '(enough, s) ← enough_slots now p vnet output_links s;
  if negb enough then
    s ← schedule_next (sn_cur e) (PerfectSwitchOf k) s;
    Ok (false, s)
  else
    '(m', s) ← dequeue e now b s;
    s ← on_perfect k
          (λ p, l ← vupd (PerfectSwitch.m_pending_message_count p) vnet (λ n, Ok (n - 1));
                Ok (pm_with_pending p l)) s;
    s ← (match output_links with
         | [] => Ok s
         | r :: links' =>
             s ← send_to e now p vnet r m' s;
             send_copies e now p vnet m x links' s
         end);
    Ok (true, s).

(** The [while] loop of [operateMessageBuffer(buffer, vnet)]; [None] when it is not over
    after [fuel] iterations. *)
Fixpoint operate_loop (fuel : nat) (e : SnEnv) (k vnet b : Z) (now : Tick) (s : snet)
    : option (result snet) :=
  match fuel with
  | O => None
  | S fuel' =>
      '(ready, s) ⇐ isReady (sn_cur e) now b s;
      if (ready : bool) then
        '(go_on, s) ⇐ forward_message e k vnet b now s;
        if (go_on : bool) then operate_loop fuel' e k vnet b now s else Some (Ok s)
      else Some (Ok s)
  end.

(** Every iteration that goes on takes a message out of the buffer. *)
Definition operateMessageBuffer (e : SnEnv) (k vnet b : Z) (s : snet) : result snet :=
  now ← switch_edge (sn_cur e) s k;
  n ← get_buffer s b;
  settled
    (operate_loop (S (length (MessageBuffer.m_prio_heap (nb_buffer n)))) e k vnet b now s).

(** The index of the buffer of [ins] with the least ready time, the first of them, 0 if
    there is no message; [i] is the index of the head of [ins]. *)
Fixpoint oldest (s : snet) (ins : list Z) (i lowest start : Z) : result Z :=
  match ins with
  | [] => Ok start
  | b :: ins' =>
      n ← get_buffer s b;
      let ready_time := MessageBuffer.readyTime (nb_buffer n) in
      if ready_time <? lowest then oldest s ins' (i + 1) ready_time i
      else oldest s ins' (i + 1) lowest start
  end.

(** A group of buffers of the same priority, starting with the oldest message. *)
Definition operate_group (e : SnEnv) (k vnet : Z) (ins : list Z) (s : snet) : result snet :=
  start ← oldest s ins 0 MaxTick 0;
  for_range 0 (length ins)
    (λ i s, b ← vget ins ((i + start) mod zlen ins); operateMessageBuffer e k vnet b s) s.

(** [operateVnet(vnet)] *)
Definition operateVnet (e : SnEnv) (k vnet : Z) (s : snet) : result snet :=
  sw ← get_switch s k;
  let p := Switch.perfectSwitch sw in
  pending ← vget (PerfectSwitch.m_pending_message_count p) vnet;
  if pending =? 0 then Ok s
  else
    groups ← vget (PerfectSwitch.m_in_prio_groups p) vnet;
    foldl (λ acc ins, s ← acc; operate_group e k vnet ins s) (Ok s) groups.

(** [PerfectSwitch::wakeup()] of switch [k] *)
Definition perfect_wakeup (e : SnEnv) (k : Z) (s : snet) : result snet :=
  sw ← get_switch s k;
  let p := Switch.perfectSwitch sw in
  let n := PerfectSwitch.m_wakeups_wo_switch p + 1 in
  let invert := PRIORITY_SWITCH_LIMIT <? n in
  s ← on_perfect k (λ p, Ok (pm_with_wakeups p (if invert then 0 else n))) s;
  let vnets := PerfectSwitch.m_virtual_networks p in
  for_range 0 (Z.to_nat vnets)
    (λ i, operateVnet e k (if invert then i else vnets - 1 - i)) s.

End routing.
