(* ===== verification/SimpleNetwork.v ===== *)
(** * The simple network

    [network/simple/{Switch,SimpleNetwork,SimpleLink}]: how switches get their ports and how
    the topology links them, and the functional accesses.  [SimpleSwitch] has the state and
    the wake-ups.  [m_switches] is a hash table: the order the functional accesses visit it
    in is an argument. *)

From S2P Require Import Prelude.
From S2P Require Import IntMath.
From S2P Require Import NetDest.
From S2P Require Import Flit.
From S2P Require Import Clocking.
From S2P Require Import MessageBuffer.
From S2P Require Import Network.
From S2P Require Import SimpleSwitch.

(** ** [Switch] *)

(** [Switch(p)] *)
Definition make_switch (virt_nets int_routing_latency ext_routing_latency : Z)
    (adaptive : bool) (port_buffers : list Z) (clk : Clocked.t) : Switch.t :=
  Switch.mk (make_perfect virt_nets) [] int_routing_latency ext_routing_latency
    (WeightBased.mk adaptive []) 0 port_buffers clk.

(** [n] of the port buffers, from [m_num_connected_buffers] on. *)
Fixpoint take_port_buffers (n : nat) (sw : Switch.t) : result (list Z * Switch.t) :=
  match n with
  | O => Ok ([], sw)
  | S n' =>
      _ ← assert (Switch.m_num_connected_buffers sw <? zlen (Switch.m_port_buffers sw));
      b ← vget (Switch.m_port_buffers sw) (Switch.m_num_connected_buffers sw);
      '(bs, sw) ← take_port_buffers n'
                    (Switch.mk (Switch.perfectSwitch sw) (Switch.throttles sw)
                       (Switch.m_int_routing_latency sw) (Switch.m_ext_routing_latency sw)
                       (Switch.m_routing_unit sw) (Switch.m_num_connected_buffers sw + 1)
                       (Switch.m_port_buffers sw) (Switch.clk sw));
      Ok (b :: bs, sw)
  end.

(** [Switch::addOutPort]; the parameters of the network are read from [s]. *)
Definition addOutPort (k : Z) (out : list BufferPtr) (routing_table_entry : NetDest.t)
    (link_latency link_weight bw_multiplier : Z) (is_external : bool) (s : snet)
    : result snet :=
  sw ← get_switch s k;
  let j := zlen (Switch.throttles sw) in
  th ← (if (0 <? zlen (physical_vnets_channels s)) && negb (zlen out =? 0) then
          make_physical_throttle j link_latency (physical_vnets_channels s)
            (vresize bw_multiplier (zlen out) (physical_vnets_bandwidth s))
            (net_endpoint_bandwidth s)
        else make_throttle j link_latency bw_multiplier (net_endpoint_bandwidth s));
  '(intermediateBuffers, sw) ← take_port_buffers (length out) sw;
  let s := put_switch s k sw in
  let routing_latency :=
    Clocked.cyclesToTicks (Switch.clk sw)
      (if is_external then Switch.m_ext_routing_latency sw
       else Switch.m_int_routing_latency sw) in
  s ← perfect_addOutPort k intermediateBuffers routing_table_entry routing_latency link_weight s;
  '(s, th) ← addLinks k j intermediateBuffers out s th;
  sw ← get_switch s k;
  Ok (put_switch s k (with_throttles sw (Switch.throttles sw ++ [th]))).

(** ** [SimpleNetwork] *)

(** [SimpleNetwork(p)]; the switches are given by their router numbers. *)
Definition make (net : Network.t) (endpoint_bandwidth : Z) (routers : list (Z * Switch.t))
    (bufs : list NetBuffer) (channels bandwidth : list Z) (vnets : Z) : result snet :=
  let physical_vnets := 0 <? zlen channels in
  _ ← fatal_if (physical_vnets && negb (zlen channels =? vnets));
  _ ← fatal_if (negb physical_vnets && negb (zlen bandwidth =? 0));
  _ ← fatal_if (negb (zlen bandwidth =? vnets) && negb (zlen bandwidth =? 0));
  Ok (mkSnet net (foldl (λ m r, <[r.1 := r.2]> m) ∅ routers) bufs ∅ [] endpoint_bandwidth
        channels bandwidth []).

Definition with_net_base (s : snet) (n : Network.t) : snet :=
  mkSnet n (switches s) (buffers s) (messages s) (m_int_link_buffers s)
    (net_endpoint_bandwidth s) (physical_vnets_channels s) (physical_vnets_bandwidth s)
    (requests s).

Definition with_fromNetQueues (n : Network.t) (qs : list (list BufferPtr)) : Network.t :=
  Network.mk (Network.m_nodes n) (Network.m_virtual_networks n) (Network.m_control_msg_size n)
    (Network.m_data_msg_size n) (Network.m_toNetQueues n) qs (Network.m_ordered n)
    (Network.m_vnet_type_names n) (Network.globalToLocalMap n).

(** [SimpleExtLink] and [SimpleIntLink], with what they have of [BasicLink]. *)
Record SimpleLink := mkSimpleLink {
  sl_latency : Cycles;
  sl_weight : Z;
  sl_bw_multiplier : Z;
  sl_buffers : list Z;
}.

(** [getLocalNodeID(id)] and the assertion on it *)
Definition local_node (s : snet) (id : Z) : result Z :=
  l ← Network.getLocalNodeID (net_base s) id;
  _ ← assert (l <? Network.m_nodes (net_base s));
  Ok l.

Definition makeExtOutLink (src global_dest : Z) (link : SimpleLink)
    (routing_table_entry : list NetDest.t) (s : snet) : result snet :=
  local_dest ← local_node s global_dest;
  _ ← assert (bool_decide (is_Some (switches s !! src)));
  let num_vnets := Network.m_virtual_networks (net_base s) in
  q ← vget (Network.m_fromNetQueues (net_base s)) local_dest;
  _ ← assert (zlen q <=? num_vnets);
  let q := vresize None num_vnets q in
  qs ← vset (Network.m_fromNetQueues (net_base s)) local_dest q;
  let s := with_net_base s (with_fromNetQueues (net_base s) qs) in
  entry ← vget routing_table_entry 0;
  addOutPort src q entry (sl_latency link) 0 (sl_bw_multiplier link) true s.

Definition makeExtInLink (global_src dest : Z) (s : snet) : result snet :=
  local_src ← local_node s global_src;
  q ← vget (Network.m_toNetQueues (net_base s)) local_src;
  addInPort dest q s.

Definition makeInternalLink (src dest : Z) (link : SimpleLink)
    (routing_table_entry : list NetDest.t) (s : snet) : result snet :=
  s ← addInPort dest (Some <$> sl_buffers link) s;
  entry ← vget routing_table_entry 0;
  s ← addOutPort src (Some <$> sl_buffers link) entry (sl_latency link) (sl_weight link)
        (sl_bw_multiplier link) false s;
  Ok (mkSnet (net_base s) (switches s) (buffers s) (messages s)
        (m_int_link_buffers s ++ sl_buffers link) (net_endpoint_bandwidth s)
        (physical_vnets_channels s) (physical_vnets_bandwidth s) (requests s)).

(** ** Functional accesses *)

Section functional.
  Context {P : Type}.
  Variable access : nat → P → bool * P.

(** The buffers in turn until one answers. *)
Fixpoint read_first (s : snet) (bs : list Z) (p : P) : result (bool * P) :=
  match bs with
  | [] => Ok (false, p)
  | b :: bs' =>
      n ← get_buffer s b;
      let '(hit, p) := MessageBuffer.functionalRead access (nb_buffer n) p in
      if (hit : bool) then Ok (true, p) else read_first s bs' p
  end.

(** All of them: whether one has answered. *)
Fixpoint read_mask (s : snet) (bs : list Z) (read : bool) (p : P) : result (bool * P) :=
  match bs with
  | [] => Ok (read, p)
  | b :: bs' =>
      n ← get_buffer s b;
      let '(hit, p) := MessageBuffer.functionalReadMask access (nb_buffer n) p in
      read_mask s bs' ((hit : bool) || read) p
  end.

Fixpoint write_all (s : snet) (bs : list Z) (num_functional_writes : Z) (p : P)
    : result (Z * P) :=
  match bs with
  | [] => Ok (num_functional_writes, p)
  | b :: bs' =>
      n ← get_buffer s b;
      let '(k, p) := MessageBuffer.functionalWrite access (nb_buffer n) p in
      write_all s bs' (num_functional_writes + k) p
  end.

(** [Switch::functionalRead(pkt)], [functionalRead(pkt, mask)], [functionalWrite(pkt)] *)
Definition switch_functionalRead (s : snet) (k : Z) (p : P) : result (bool * P) :=
  sw ← get_switch s k; read_first s (Switch.m_port_buffers sw) p.

Definition switch_functionalReadMask (s : snet) (k : Z) (p : P) : result (bool * P) :=
  sw ← get_switch s k; read_mask s (Switch.m_port_buffers sw) false p.

Definition switch_functionalWrite (s : snet) (k : Z) (p : P) : result (Z * P) :=
  sw ← get_switch s k; write_all s (Switch.m_port_buffers sw) 0 p.

(** Those of the network; [order] lists the switches in the order of [m_switches]. *)
Fixpoint functionalRead (order : list Z) (s : snet) (p : P) : result (bool * P) :=
  match order with
  | [] => read_first s (m_int_link_buffers s) p
  | k :: order' =>
      '(hit, p) ← switch_functionalRead s k p;
      if (hit : bool) then Ok (true, p) else functionalRead order' s p
  end.

Fixpoint functionalReadMask_from (order : list Z) (s : snet) (read : bool) (p : P)
    : result (bool * P) :=
  match order with
  | [] => read_mask s (m_int_link_buffers s) read p
  | k :: order' =>
      '(hit, p) ← switch_functionalReadMask s k p;
      functionalReadMask_from order' s ((hit : bool) || read) p
  end.

Definition functionalReadMask (order : list Z) (s : snet) (p : P) : result (bool * P) :=
  functionalReadMask_from order s false p.

Fixpoint functionalWrite_from (order : list Z) (s : snet) (n : Z) (p : P) : result (Z * P) :=
  match order with
  | [] => write_all s (m_int_link_buffers s) n p
  | k :: order' =>
      '(m, p) ← switch_functionalWrite s k p;
      functionalWrite_from order' s (n + m) p
  end.

Definition functionalWrite (order : list Z) (s : snet) (p : P) : result (Z * P) :=
  functionalWrite_from order s 0 p.

End functional.
