(* ===== verification/Destinations.v ===== *)
(** * Operations on destinations

    What [AND], [removeNetDest] and [count] of [NetDest] compute on well-formed
    destinations, in terms of the machines they contain. *)

From S2P Require Import Prelude.
From S2P Require Import NetDest.

Import NetDest.

Section destinations.
  Context `{MachineTypes}.

(** ** Sets *)

Lemma set_removeSet s o :
  RubySet.wf s → RubySet.m_nSize s = RubySet.m_nSize o →
  ∃ r, RubySet.removeSet s o = Ok r ∧ RubySet.wf r ∧ RubySet.m_nSize r = RubySet.m_nSize s ∧
       ∀ i, RubySet.elem i r ↔ RubySet.elem i s ∧ ¬ RubySet.elem i o.
Proof.
  intros [Hn Hb] Hs. unfold RubySet.removeSet. rewrite Hs, Z.eqb_refl. cbn.
  assert (∀ i, Z.testbit (Z.ldiff (RubySet.bits s) (RubySet.bits o)) i = true ↔
    Z.testbit (RubySet.bits s) i = true ∧ ¬ Z.testbit (RubySet.bits o) i = true) as Hi.
  { intros i. rewrite Z.ldiff_spec, andb_true_iff, negb_true_iff, not_true_iff_false. done. }
  eexists. split; [done|]. split; [|done]. split; cbn; [lia|]. intros i [Hx _]%Hi.
  specialize (Hb _ Hx). lia.
Qed.

Lemma set_AND s o :
  RubySet.wf s → RubySet.m_nSize s = RubySet.m_nSize o →
  ∃ r, RubySet.AND s o = Ok r ∧ RubySet.wf r ∧ RubySet.m_nSize r = RubySet.m_nSize s ∧
       ∀ i, RubySet.elem i r ↔ RubySet.elem i s ∧ RubySet.elem i o.
Proof.
  intros [Hn Hb] Hs. unfold RubySet.AND, RubySet.make. rewrite Hs, Z.eqb_refl. cbn.
  destruct (Z.ltb_spec NUMBER_BITS_PER_SET (RubySet.m_nSize o)); [lia|]. cbn.
  assert (∀ i, Z.testbit (Z.land (RubySet.bits s) (RubySet.bits o)) i = true ↔
    Z.testbit (RubySet.bits s) i = true ∧ Z.testbit (RubySet.bits o) i = true) as Hi.
  { intros i. rewrite Z.land_spec, andb_true_iff. done. }
  eexists. split; [done|]. split; [|done]. split; cbn; [lia|]. intros i [Hx _]%Hi.
  specialize (Hb _ Hx). lia.
Qed.

Lemma set_count_zero s : RubySet.wf s → RubySet.count s = 0 ↔ ∀ i, ¬ RubySet.elem i s.
Proof.
  intros [Hn Hb]. unfold RubySet.count, RubySet.popcount, zlen, RubySet.elem. split.
  - intros Hz i Hi. specialize (Hb _ Hi).
    assert (i ∈ filter (λ i, Z.testbit (RubySet.bits s) i = true)
      (seqZ 0 (Z.of_nat (Z.to_nat NUMBER_BITS_PER_SET)))) as Hin.
    { apply list_elem_of_filter. split; [done|]. apply elem_of_seqZ. lia. }
    destruct (filter _ _); [by apply not_elem_of_nil in Hin|]. cbn in Hz. lia.
  - intros Hi. destruct (filter _ _) as [|i l] eqn:E; [done|].
    assert (i ∈ filter (λ i, Z.testbit (RubySet.bits s) i = true)
      (seqZ 0 (Z.of_nat (Z.to_nat NUMBER_BITS_PER_SET)))) as Hin by (rewrite E; left).
    apply list_elem_of_filter in Hin as [Hin _]. by apply Hi in Hin.
Qed.

Lemma set_count_nonneg s : 0 ≤ RubySet.count s.
Proof. unfold RubySet.count, RubySet.popcount, zlen. lia. Qed.

(** ** Loops over the sets *)

(** A loop that fills [r] with what [f] makes of the sets of [d] and [e]. *)
Lemma fill_sets (f : RubySet.t → RubySet.t → result RubySet.t) d e r (P : Z → RubySet.t → Prop)
    (own : bool) :
  zlen d = zlen e → zlen r = zlen d → (own = true → r = d) →
  (∀ i s o, zlookup d i = Some s → zlookup e i = Some o → ∃ x, f s o = Ok x ∧ P i x) →
  ∃ r', for_range 0 (length d)
          (λ i r, s ← vget (if own then r else d) i; o ← vget e i; s' ← f s o; vset r i s') r = Ok r' ∧
        zlen r' = zlen d ∧ ∀ i x, zlookup r' i = Some x → P i x.
Proof.
  intros Hl Hr Hown Hf.
  destruct (for_range_total
    (λ k r', zlen r' = zlen d ∧ (∀ i x, zlookup r' i = Some x → 0 ≤ i < k → P i x) ∧
             ∀ i, k ≤ i → own = true → zlookup r' i = zlookup d i)
    (λ i r, s ← vget (if own then r else d) i; o ← vget e i; s' ← f s o; vset r i s')
    (length d) 0 r) as (r' & Hr' & Hlen & Hp & _).
  - intros i r1 Hi (Hl1 & Hp1 & Ho1). fold (zlen d) in Hi.
    destruct (zlookup_is_Some d i) as [s Hs]; [lia|].
    destruct (zlookup_is_Some e i) as [o Ho]; [lia|].
    destruct (Hf i s o Hs Ho) as (x & Hx & Px).
    assert (vget (if own then r1 else d) i = Ok s) as ->.
    { destruct own; apply vget_Ok; [|done]. by rewrite Ho1 by (done || lia). }
    rewrite (vget_intro _ _ _ Ho). cbn [rbind]. rewrite Hx. cbn [rbind].
    exists (<[Z.to_nat i := x]> r1). split; [apply vset_Ok; split; [lia|done]|].
    split; [by rewrite zlen_insert|]. split.
    + intros j y. rewrite zlookup_insert by lia. case_decide as E.
      * intros [= <-] _. by subst.
      * intros Hy Hj. apply (Hp1 j y Hy). lia.
    + intros j Hj Hown'. rewrite zlookup_insert by lia. rewrite decide_False by lia.
      apply Ho1; [lia|done].
  - split; [done|]. split; [intros; lia|]. intros i _ Ho. by rewrite (Hown Ho).
  - exists r'. split; [done|]. split; [done|]. intros i x Hx. apply (Hp i x Hx).
    apply zlookup_lt in Hx. unfold zlen in *. lia.
Qed.

(** What a loop over well-formed destinations makes, set by set. *)
Lemma combined f d e r own (Q : Prop → Prop → Prop) :
  wf d → wf e → zlen r = zlen d → (own = true → r = d) →
  (∀ s o, RubySet.wf s → RubySet.m_nSize s = RubySet.m_nSize o →
     ∃ x, f s o = Ok x ∧ RubySet.wf x ∧ RubySet.m_nSize x = RubySet.m_nSize s ∧
          ∀ i, RubySet.elem i x ↔ Q (RubySet.elem i s) (RubySet.elem i o)) →
  ∃ r', for_range 0 (length d)
          (λ i r, s ← vget (if own : bool then r else d) i; o ← vget e i; s' ← f s o; vset r i s') r
          = Ok r' ∧ wf r' ∧
        ∀ ty num, elem ty num r' ↔
          ∃ s o, zlookup d ty = Some s ∧ zlookup e ty = Some o ∧
                 Q (RubySet.elem num s) (RubySet.elem num o).
Proof.
  intros [Hd Hwd] [He Hwe] Hr Hown Hf.
  destruct (fill_sets f d e r
    (λ i x, ∃ s o, zlookup d i = Some s ∧ zlookup e i = Some o ∧ RubySet.wf x ∧
       RubySet.m_nSize x = RubySet.m_nSize s ∧
       ∀ j, RubySet.elem j x ↔ Q (RubySet.elem j s) (RubySet.elem j o)) own)
    as (r' & Hr' & Hl & Hp); [lia|done|done| |].
  { intros i s o Hs Ho. destruct (Hwd _ _ Hs) as [Ws Ns], (Hwe _ _ Ho) as [Wo No].
    destruct (Hf s o Ws) as (x & Hx & Wx & Nx & Ex); [congruence|]. exists x. split; [done|].
    by exists s, o. }
  exists r'. split; [done|]. split.
  - split; [lia|]. intros i x Hx. destruct (Hp i x Hx) as (s & o & Hs & _ & Wx & Nx & _).
    destruct (Hwd _ _ Hs) as [_ Ns]. split; [done|congruence].
  - intros ty num. split.
    + intros (x & Hx & Hn). destruct (Hp ty x Hx) as (s & o & Hs & Ho & _ & _ & Ex).
      exists s, o. split_and!; [done|done|]. by apply Ex.
    + intros (s & o & Hs & Ho & Hq). apply zlookup_lt in Hs as Hlt.
      destruct (zlookup_is_Some r' ty) as [x Hx]; [lia|]. exists x. split; [done|].
      destruct (Hp ty x Hx) as (s' & o' & Hs' & Ho' & _ & _ & Ex). apply Ex. congruence.
Qed.

(** ** Destinations *)

Lemma removeNetDest_spec d e :
  wf d → wf e →
  ∃ r, removeNetDest d e = Ok r ∧ wf r ∧ ∀ ty num, elem ty num r ↔ elem ty num d ∧ ¬ elem ty num e.
Proof.
  intros Hd He. pose proof Hd as [Hld _]. pose proof He as [Hle _].
  destruct (combined RubySet.removeSet d e d true (λ p q, p ∧ ¬ q)) as (r & Hr & Hw & Hs);
    [done..|intros s o; apply set_removeSet|].
  exists r. split; [|split; [done|]].
  - unfold removeNetDest, combine. rewrite Hld, Hle, Z.eqb_refl. exact Hr.
  - intros ty num. rewrite Hs. unfold elem. split.
    + intros (s & o & Hs' & Ho & Hp & Hq). split; [by exists s|]. intros (o' & Ho' & Hn). congruence.
    + intros [(s & Hs' & Hn) Hq]. apply zlookup_lt in Hs' as Hlt.
      destruct (zlookup_is_Some e ty) as [o Ho]; [lia|]. exists s, o. split_and!; try done.
      intros Hn'. apply Hq. by exists o.
Qed.

Lemma AND_spec `{!MachineTypeLaws} d e :
  wf d → wf e →
  ∃ r, AND d e = Ok r ∧ wf r ∧ ∀ ty num, elem ty num r ↔ elem ty num d ∧ elem ty num e.
Proof.
  intros Hd He. pose proof Hd as [Hld _]. pose proof He as [Hle _].
  destruct make_empty as (z & Hz & [Hlz _] & _).
  destruct (combined RubySet.AND d e z false and) as (r & Hr & Hw & Hs);
    [done|done|congruence|done|intros s o; apply set_AND|].
  exists r. split; [|split; [done|]].
  - unfold AND, combine_into. rewrite Hld, Hle, Z.eqb_refl, Hz. exact Hr.
  - intros ty num. rewrite Hs. unfold elem. split.
    + intros (s & o & Hs' & Ho & Hp & Hq). split; [by exists s|by exists o].
    + intros [(s & Hs' & Hn) (o & Ho & Hn')]. by exists s, o.
Qed.

Lemma count_sum (d : list RubySet.t) : count d = sum_over RubySet.count d.
Proof.
  unfold count. rewrite <- (Z.add_0_l (sum_over _ d)). generalize 0 as n.
  induction d as [|s d IH]; intros n; cbn; [lia|]. rewrite IH. unfold sum_over. cbn. lia.
Qed.

Lemma count_zero d : wf d → count d = 0 ↔ ∀ ty num, ¬ elem ty num d.
Proof.
  intros [_ Hw]. rewrite count_sum.
  assert (∀ i s, d !! i = Some s → RubySet.wf s) as Hws.
  { intros i s Hs. apply (Hw (Z.of_nat i)). apply zlookup_Some. by rewrite Nat2Z.id; split; [lia|]. }
  assert (sum_over RubySet.count d = 0 ↔ ∀ i s, d !! i = Some s → RubySet.count s = 0) as ->.
  { clear. induction d as [|s d IH]; [split; [done|done]|].
    change (sum_over RubySet.count (s :: d)) with (RubySet.count s + sum_over RubySet.count d).
    pose proof (set_count_nonneg s). pose proof (sum_over_nonneg RubySet.count d set_count_nonneg).
    split.
    - intros Hz [|i] x Hx; [injection Hx as <-; lia|]. apply (proj1 IH ltac:(lia) i x Hx).
    - intros Hi. rewrite (Hi 0%nat s eq_refl), (proj2 IH); [done|].
      intros i x Hx. by apply (Hi (S i)). }
  split.
  - intros Hz ty num (s & [_ Hs]%zlookup_Some & Hn).
    by apply (proj1 (set_count_zero s (Hws _ _ Hs)) (Hz _ _ Hs) num).
  - intros Hn i s Hs. apply (set_count_zero s (Hws _ _ Hs)). intros num Hx.
    apply (Hn (Z.of_nat i) num). exists s. split; [|done].
    apply zlookup_Some. by rewrite Nat2Z.id; split; [lia|].
Qed.

End destinations.
