(* ===== verification/SimpleRouting.v ===== *)
(** * The routing of the simple network splits messages

    [WeightBased::findRoute] gives every destination of a message to one link. *)

From S2P Require Import Prelude.
From S2P Require Import NetDest.
From S2P Require Import Destinations.
From S2P Require Import SimpleSwitch.

Import WeightBased.

(** ** Membership as a boolean *)

Definition has (ty num : Z) (d : NetDest.t) : bool :=
  match zlookup d ty with Some s => Z.testbit (RubySet.bits s) num | None => false end.

Lemma has_elem ty num d : has ty num d = true ↔ NetDest.elem ty num d.
Proof.
  unfold has, NetDest.elem, RubySet.elem. split.
  - destruct (zlookup d ty) as [s|]; [|done]. intros Hs. by exists s.
  - by intros (s & -> & Hs).
Qed.

Lemma has_eq ty num d e (b : bool) :
  (NetDest.elem ty num d ↔ NetDest.elem ty num e ∧ b = true) → has ty num d = has ty num e && b.
Proof. intros Hd. apply eq_true_iff_eq. by rewrite andb_true_iff, !has_elem. Qed.

(** ** Splitting *)

(** The parts of a message that go to machine [num] of type [ty], and the links that lead
    there. *)
Definition parts_with (ty num : Z) (out : list RouteInfo) : list RouteInfo :=
  filter (λ r, has ty num (m_destinations r) = true) out.

Definition links_to (ty num : Z) (links : list LinkInfo) : list LinkInfo :=
  filter (λ l, has ty num (m_routing_entry l) = true) links.

Section splitting.
  Context `{MachineTypeLaws}.

Definition entries_wf (links : list LinkInfo) : Prop :=
  Forall (λ l, NetDest.wf (m_routing_entry l)) links.

(** What a link takes and what it leaves. *)
Lemma split_at d e :
  NetDest.wf d → NetDest.wf e →
  ∃ hit a r, NetDest.intersectionIsNotEmpty d e = Ok hit ∧ NetDest.AND d e = Ok a ∧
    NetDest.removeNetDest d e = Ok r ∧ NetDest.wf a ∧ NetDest.wf r ∧
    (hit = true ↔ ∃ ty num, has ty num a = true) ∧
    (∀ ty num, has ty num a = has ty num d && has ty num e) ∧
    (∀ ty num, has ty num r = has ty num d && negb (has ty num e)).
Proof.
  intros Hd He. destruct (NetDest.intersectionIsNotEmpty_spec d e Hd He) as (hit & Hh & Hs).
  destruct (AND_spec d e Hd He) as (a & Ha & Wa & Sa).
  destruct (removeNetDest_spec d e Hd He) as (r & Hr & Wr & Sr).
  exists hit, a, r. split_and!; try done.
  - rewrite Hs. setoid_rewrite has_elem. by setoid_rewrite Sa.
  - intros ty num. apply has_eq. rewrite Sa. by rewrite has_elem.
  - intros ty num. apply has_eq. rewrite Sr. by rewrite negb_true_iff, <- not_true_iff_false, has_elem.
Qed.

(** The result of [findRoute] on destinations [d]. *)
Record split_of (links : list LinkInfo) (d : NetDest.t) (out : list RouteInfo) : Prop := {
  so_order : (ri_link_id <$> out) `sublist_of` (m_link_id <$> links);
  so_wf : Forall (λ r, NetDest.wf (m_destinations r)) out;
  so_nonempty : Forall (λ r, ∃ ty num, has ty num (m_destinations r) = true) out;
  so_parts ty num :
    ri_link_id <$> parts_with ty num out =
      if has ty num d then take 1 (m_link_id <$> links_to ty num links) else [];
}.

Lemma findRoute_split links d out :
  NetDest.wf d → entries_wf links → findRoute links d = Ok out → split_of links d out.
Proof.
  intros Hd Hl. revert d out Hd. induction Hl as [|l links Hw _ IH]; intros d out Hd Hf;
    cbn [findRoute] in Hf.
  - step_bind Hf as [] Hc%assert_Ok. injection Hf as <-. apply Z.eqb_eq in Hc.
    split; [done|done|done|]. intros ty num. cbn.
    by destruct (has ty num d).
  - destruct (split_at d _ Hd Hw) as (hit & a & r & E1 & E2 & E3 & Wa & Wr & Hh & Ha & Hr).
    rewrite E1 in Hf. cbn [rbind] in Hf. destruct hit.
    + rewrite E2, E3 in Hf. cbn [rbind] in Hf. step_bind Hf as out' Hout. injection Hf as <-.
      destruct (IH r out' Wr Hout) as [O1 O2 O3 O4]. split; cbn [fmap list_fmap ri_link_id].
      * by apply sublist_skip.
      * by constructor.
      * constructor; [by apply Hh|done].
      * intros ty num. unfold parts_with, links_to in *. rewrite !filter_cons. cbn [m_destinations].
        specialize (O4 ty num). rewrite Hr in O4. rewrite Ha.
        destruct (has ty num d); cbn [andb] in *.
        2:{ rewrite decide_False by done. exact O4. }
        destruct (has ty num (m_routing_entry l)); cbn [negb] in *.
        -- rewrite !decide_True by done. rewrite !fmap_cons, O4. done.
        -- rewrite !decide_False by done. exact O4.
    + destruct (IH d out Hd Hf) as [O1 O2 O3 O4]. split; [by apply sublist_cons|done|done|].
      intros ty num. rewrite O4. destruct (has ty num d) eqn:E; [|done].
      unfold links_to. rewrite filter_cons.
      destruct (decide (has ty num (m_routing_entry l) = true)) as [Et|]; [|done].
      exfalso. assert (false = true); [|done]. apply Hh. exists ty, num. by rewrite Ha, E, Et.
Qed.

(** It succeeds exactly when the links cover the destinations. *)
Lemma findRoute_total links d :
  NetDest.wf d → entries_wf links →
  (∃ out, findRoute links d = Ok out) ↔
  ∀ ty num, has ty num d = true → links_to ty num links ≠ [].
Proof.
  intros Hd Hl. revert d Hd. induction Hl as [|l links Hw _ IH]; intros d Hd; cbn [findRoute].
  - split.
    + intros (out & Hf) ty num Hn. step_bind Hf as [] Hc%assert_Ok. apply Z.eqb_eq in Hc.
      exfalso. apply (proj1 (count_zero d Hd) Hc ty num). by apply has_elem.
    + intros Hn. exists []. rewrite (proj2 (count_zero d Hd)); [done|].
      intros ty num Hx%has_elem. by apply (Hn ty num Hx).
  - destruct (split_at d _ Hd Hw) as (hit & a & r & E1 & E2 & E3 & Wa & Wr & Hh & Ha & Hr).
    rewrite E1. cbn [rbind]. unfold links_to. setoid_rewrite filter_cons. destruct hit.
    + rewrite E2, E3. cbn [rbind].
      assert ((∃ out, (out ← findRoute links r; Ok (mkRouteInfo a (m_link_id l) :: out)) = Ok out) ↔
              ∃ out, findRoute links r = Ok out) as ->.
      { split; intros (out & Ho).
        - step_bind Ho as out' Ho'. by exists out'.
        - rewrite Ho. by eexists. }
      rewrite (IH r Wr). split; intros Hn ty num Hx.
      * case_decide as E; [done|]. apply (Hn ty num). rewrite Hr, Hx.
        by destruct (has ty num (m_routing_entry l)).
      * rewrite Hr in Hx. apply andb_true_iff in Hx as [Hx Hne%negb_true_iff].
        specialize (Hn ty num Hx). by rewrite Hne in Hn.
    + rewrite (IH d Hd). split; intros Hn ty num Hx.
      * case_decide; [done|]. by apply (Hn ty num).
      * specialize (Hn ty num Hx). case_decide as E; [|done]. exfalso.
        assert (false = true); [|done]. apply Hh. exists ty, num. by rewrite Ha, Hx, E.
Qed.

(** C18: a message is split over the links.  [findRoute] succeeds exactly when every
    destination of the message is in the routing entry of some link.  Then every part goes
    to a link of its own, in the order of the links, and has a destination; and each
    destination of the message is in one part, that of the first link that leads there, and
    no other machine is in any part. *)
Theorem route_splits links d :
  NetDest.wf d → entries_wf links →
  ((∃ out, findRoute links d = Ok out) ↔
   ∀ ty num, has ty num d = true → links_to ty num links ≠ []) ∧
  ∀ out, findRoute links d = Ok out →
    (ri_link_id <$> out) `sublist_of` (m_link_id <$> links) ∧
    Forall (λ r, ∃ ty num, has ty num (m_destinations r) = true) out ∧
    ∀ ty num, ri_link_id <$> parts_with ty num out =
      if has ty num d then take 1 (m_link_id <$> links_to ty num links) else [].
Proof.
  intros Hd Hl. split; [by apply findRoute_total|]. intros out Ho.
  by destruct (findRoute_split links d out Hd Hl Ho).
Qed.

End splitting.

(** ** An example *)

Module SplitExample.
Import ExampleMachines.
#[local] Existing Instance machines.

(** The directories (type 1) in [bits], no cache. *)
Definition directories (bits : Z) : NetDest.t := [RubySet.mk 2 0; RubySet.mk 2 bits].

(** Link 0 leads to directory 0, link 1 to both. *)
Definition links : list LinkInfo :=
  [mkLinkInfo 0 (directories 1) [] 0 1; mkLinkInfo 1 (directories 3) [] 0 2].

Lemma set_wf bits : 0 ≤ bits < 4 → RubySet.wf (RubySet.mk 2 bits).
Proof.
  intros Hb. split; cbn; [lia|]. intros i Hi.
  destruct (Z.lt_ge_cases i 0) as [Hn|Hn]; [by rewrite Z.testbit_neg_r in Hi|].
  split; [done|]. destruct (Z.lt_ge_cases i 2) as [|Hn2]; [done|].
  rewrite (Z.bits_above_log2 bits i) in Hi; [done|lia|].
  assert (Z.log2 bits ≤ 1); [|lia]. apply (Z.log2_le_mono bits 3). lia.
Qed.

Lemma directories_wf bits : 0 ≤ bits < 4 → NetDest.wf (directories bits).
Proof.
  intros Hb. split; [done|]. intros i s [Hi Hs]%zlookup_Some.
  destruct (Z.to_nat i) as [|[|n]]; [injection Hs as <-|injection Hs as <-|done];
    (split; [by apply set_wf|reflexivity]).
Qed.

Lemma route_splits_witness :
  ∃ out, findRoute links (directories 3) = Ok out ∧
    ri_link_id <$> parts_with 1 0 out = [0] ∧ ri_link_id <$> parts_with 1 1 out = [1].
Proof.
  destruct (@route_splits machines machines_laws links (directories 3)) as [_ Hs].
  - apply directories_wf. lia.
  - constructor; [|constructor; [|constructor]]; apply directories_wf; lia.
  - eexists. split; [vm_compute; reflexivity|].
    destruct (Hs _ ltac:(vm_compute; reflexivity)) as (_ & _ & Hp).
    split; [exact (Hp 1 0)|exact (Hp 1 1)].
Defined.

End SplitExample.
