(* ===== verification/SimpleFrame.v ===== *)
(** * What the operations of the simple network change

    The invariants of the simple network speak of a part of its state: who consumes a
    buffer, its virtual network and the messages in it, the messages themselves, the
    counters of pending messages, and how the switches are connected.  This file says
    which of it an operation of [SimpleSwitch] changes: nothing ([quiet]), the counter of
    a switch ([counted]), or the contents of one buffer ([took], [put]). *)

From S2P Require Import Prelude.
From S2P Require Import NetDest.
From S2P Require Import Flit.
From S2P Require Import Clocking.
From S2P Require Import MessageBuffer.
From S2P Require Import Network.
From S2P Require Import SimpleSwitch.

Import BufferFacts.

(** ** Views *)

Record bview := mkBview {
  bv_consumer : option buffer_consumer;
  bv_connected : bool;
  bv_vnet : Z;
  bv_refs : list nat;
}.

Definition view_of (n : NetBuffer) : bview :=
  mkBview (nb_consumer n) (MessageBuffer.has_consumer (nb_buffer n)) (m_vnet_id n)
    (refs (nb_buffer n)).

Definition bviews (s : snet) : list bview := view_of <$> buffers s.

(** The counter of pending messages of switch [k] for virtual network [v]. *)
Definition pend (s : snet) (k v : Z) : option Z :=
  switches s !! k ≫= λ sw,
    zlookup (PerfectSwitch.m_pending_message_count (Switch.perfectSwitch sw)) v.

(** How a switch is connected: what only the construction of the network changes. *)
Definition pview (p : PerfectSwitch.t) :=
  (PerfectSwitch.m_in p, PerfectSwitch.m_out p, PerfectSwitch.m_in_prio p,
   PerfectSwitch.m_in_prio_groups p, PerfectSwitch.m_virtual_networks p).

Definition tview (t : Throttle.t) :=
  (Throttle.m_in t, Throttle.m_out t, Throttle.m_vnets t, Throttle.m_physical_vnets t,
   Throttle.m_link_bandwidth_multiplier t, Throttle.m_vnet_channels t,
   Throttle.m_endpoint_bandwidth t).

Definition swview (sw : Switch.t) :=
  (pview (Switch.perfectSwitch sw), tview <$> Switch.throttles sw, Switch.m_port_buffers sw,
   Switch.m_num_connected_buffers sw, Switch.clk sw).

(** The links of a routing unit, whatever their order and their load. *)
Definition rview (l : WeightBased.LinkInfo) : Z * NetDest.t :=
  (WeightBased.m_link_id l, WeightBased.m_routing_entry l).

Definition routes (sw : Switch.t) : list (Z * NetDest.t) :=
  rview <$> WeightBased.m_links (Switch.m_routing_unit sw).

Record same_switch (sw sw' : Switch.t) : Prop := {
  ss_view : swview sw' = swview sw;
  ss_routes : routes sw' ≡ₚ routes sw;
}.

#[export] Instance same_switch_preorder : PreOrder same_switch.
Proof.
  split; [by split|]. intros a b c [V1 R1] [V2 R2]. split; [congruence|by rewrite R2].
Qed.

(** The network is connected as before. *)
Record frame (s s' : snet) : Prop := {
  fr_base : net_base s' = net_base s;
  fr_switches k : option_relation same_switch (λ _, False) (λ _, False)
                    (switches s !! k) (switches s' !! k);
}.

#[export] Instance frame_preorder : PreOrder frame.
Proof.
  split.
  - intros s. split; [done|]. intros k. by destruct (switches s !! k).
  - intros a b c [B1 S1] [B2 S2]. split; [congruence|]. intros k.
    specialize (S1 k). specialize (S2 k).
    destruct (switches a !! k), (switches b !! k), (switches c !! k); cbn in *; try done.
    by etrans.
Qed.

Lemma frame_same s s' : net_base s' = net_base s → switches s' = switches s → frame s s'.
Proof. intros Hb Hs. split; [done|]. intros k. rewrite Hs. by destruct (switches s !! k). Qed.

Lemma frame_switch s s' k sw :
  frame s s' → switches s !! k = Some sw →
  ∃ sw', switches s' !! k = Some sw' ∧ same_switch sw sw'.
Proof.
  intros [_ Hs] Hk. specialize (Hs k). rewrite Hk in Hs.
  destruct (switches s' !! k) as [sw'|]; [by exists sw'|done].
Qed.

Lemma frame_switch_back s s' k sw' :
  frame s s' → switches s' !! k = Some sw' →
  ∃ sw, switches s !! k = Some sw ∧ same_switch sw sw'.
Proof.
  intros [_ Hs] Hk. specialize (Hs k). rewrite Hk in Hs.
  destruct (switches s !! k) as [sw|]; [by exists sw|done].
Qed.

Record quiet (s s' : snet) : Prop := {
  qu_frame : frame s s';
  qu_buffers : bviews s' = bviews s;
  qu_messages : messages s' = messages s;
  qu_pend k v : pend s' k v = pend s k v;
}.

#[export] Instance quiet_preorder : PreOrder quiet.
Proof.
  split; [by split|]. intros a b c [F1 B1 M1 P1] [F2 B2 M2 P2]. split; [by etrans|congruence..|].
  intros k v. by rewrite P2, P1.
Qed.

(** The counter of switch [k] for virtual network [v] changes by [d]. *)
Record counted (k v d : Z) (s s' : snet) : Prop := {
  co_frame : frame s s';
  co_buffers : bviews s' = bviews s;
  co_messages : messages s' = messages s;
  co_pend k' v' :
    pend s' k' v' =
      if decide (k' = k ∧ v' = v) then Z.add d <$> pend s k' v' else pend s k' v';
}.

(** The first message of buffer [b], with reference [r], is gone. *)
Record took (b : Z) (r : nat) (s s' : snet) : Prop := {
  to_frame : frame s s';
  to_messages : messages s' = messages s;
  to_pend k v : pend s' k v = pend s k v;
  to_buffers :
    ∃ c on v h, zlookup (bviews s) b = Some (mkBview c on v (r :: h)) ∧
                bviews s' = <[Z.to_nat b := mkBview c on v h]> (bviews s);
}.

(** A message with reference [r] is put into buffer [b], and counted if it is one of a
    switch. *)
Record put (b : Z) (r : nat) (s s' : snet) : Prop := {
  pu_frame : frame s s';
  pu_messages : messages s' = messages s;
  pu_buffers :
    ∃ c v h h', zlookup (bviews s) b = Some (mkBview (Some c) true v h) ∧ h' ≡ₚ r :: h ∧
                bviews s' = <[Z.to_nat b := mkBview (Some c) true v h']> (bviews s) ∧
                ∀ k w, pend s' k w =
                  if decide (c = PerfectSwitchOf k ∧ w = v) then Z.add 1 <$> pend s k w
                  else pend s k w;
}.

(** ** Switches *)

Lemma get_switch_Ok s k sw : get_switch s k = Ok sw ↔ switches s !! k = Some sw.
Proof. apply determinate_Ok. Qed.

(** Switch [k] becomes [sw']. *)
Lemma put_switch_frame s k sw sw' :
  switches s !! k = Some sw → same_switch sw sw' → frame s (put_switch s k sw').
Proof.
  intros Hk Hs. split; [done|]. intros k'. cbn. destruct (decide (k' = k)) as [->|Hne].
  - by rewrite lookup_insert_eq, Hk.
  - rewrite lookup_insert_ne by done. by destruct (switches s !! k').
Qed.

Lemma pend_put_switch s k sw' k' v :
  pend (put_switch s k sw') k' v =
    if decide (k' = k)
    then zlookup (PerfectSwitch.m_pending_message_count (Switch.perfectSwitch sw')) v
    else pend s k' v.
Proof.
  unfold pend. cbn. case_decide as E; [subst|by rewrite lookup_insert_ne].
  by rewrite lookup_insert_eq.
Qed.

Lemma put_switch_quiet s k sw sw' :
  switches s !! k = Some sw → same_switch sw sw' →
  PerfectSwitch.m_pending_message_count (Switch.perfectSwitch sw') =
    PerfectSwitch.m_pending_message_count (Switch.perfectSwitch sw) →
  quiet s (put_switch s k sw').
Proof.
  intros Hk Hs Hp. split; [by eapply put_switch_frame|done|done|].
  intros k' v. rewrite pend_put_switch. case_decide; [|done]. subst.
  unfold pend. by rewrite Hk, Hp.
Qed.

Lemma on_perfect_quiet k f s s' :
  (∀ p p', f p = Ok p' → pview p' = pview p ∧
     PerfectSwitch.m_pending_message_count p' = PerfectSwitch.m_pending_message_count p) →
  on_perfect k f s = Ok s' → quiet s s'.
Proof.
  intros Hf Hs. unfold on_perfect in Hs. step_bind Hs as sw Hk%get_switch_Ok.
  step_bind Hs as p Hp. injection Hs as <-. apply Hf in Hp as [Hv Hc].
  eapply put_switch_quiet; [done| |done]. split; [|done].
  unfold swview, with_perfectSwitch. cbn. by rewrite Hv.
Qed.

Lemma on_throttle_quiet k j f s s' :
  (∀ t t', f t = Ok t' → tview t' = tview t) → on_throttle k j f s = Ok s' → quiet s s'.
Proof.
  intros Hf Hs. unfold on_throttle in Hs. step_bind Hs as sw Hk%get_switch_Ok.
  step_bind Hs as l Hl. injection Hs as <-.
  assert (tview <$> l = tview <$> Switch.throttles sw) as Hv.
  2:{ eapply put_switch_quiet; [done| |done]. split; [|done].
      unfold swview, with_throttles. cbn. by rewrite Hv. }
  unfold vupd in Hl. step_bind Hl as t Ht%vget_Ok%zlookup_Some.
  step_bind Hl as t' Ht'%Hf. apply vset_Ok in Hl as [_ ->].
  rewrite list_fmap_insert, Ht'. apply list_insert_id. by rewrite list_lookup_fmap, (proj2 Ht).
Qed.

(** [m_pending_message_count[v] += d] *)
Lemma on_perfect_counted k v d f s s' :
  (∀ n, f n = Ok (d + n)) →
  on_perfect k (λ p, l ← vupd (PerfectSwitch.m_pending_message_count p) v f;
                     Ok (pm_with_pending p l)) s = Ok s' →
  counted k v d s s'.
Proof.
  intros Hf Hs. unfold on_perfect in Hs. step_bind Hs as sw Hk%get_switch_Ok.
  step_bind Hs as p Hp. injection Hs as <-. step_bind Hp as l Hl. injection Hp as <-.
  split; [eapply put_switch_frame; [done|by split]|done|done|].
  intros k' v'. rewrite pend_put_switch. unfold pend.
  destruct (decide (k' = k)) as [->|Hne].
  2:{ rewrite decide_False by (intros [? _]; done). done. }
  rewrite Hk. cbn [Switch.perfectSwitch with_perfectSwitch PerfectSwitch.m_pending_message_count
    pm_with_pending mbind option_bind].
  unfold vupd in Hl. step_bind Hl as n Hn%vget_Ok. rewrite Hf in Hl. step_bind Hl as n' Hn'.
  injection Hn' as <-. apply vset_Ok in Hl as [Hr ->]. rewrite zlookup_insert by done.
  destruct (decide (v = v')) as [->|Hv].
  - rewrite decide_True by done. by rewrite Hn.
  - rewrite decide_False by (intros [_ ?]; congruence). done.
Qed.

(** ** Message buffers *)

Lemma push_heap_refs m h :
  Message.msg_ref <$> MessageBuffer.push_heap m h ≡ₚ Message.msg_ref m :: (Message.msg_ref <$> h).
Proof.
  induction h as [|x h IH]; cbn [MessageBuffer.push_heap]; [done|].
  destruct (Message.gt m x); [|done]. cbn. rewrite IH. constructor.
Qed.

Lemma enqueue_refs fl rnd b m now delta bp b' tick :
  MessageBuffer.enqueue fl rnd b (Some m) now delta bp = Ok (b', tick) →
  refs b' ≡ₚ Message.msg_ref m :: refs b ∧
  MessageBuffer.has_consumer b = true ∧ MessageBuffer.has_consumer b' = true.
Proof.
  unfold MessageBuffer.enqueue. intros He. destruct (if _ <? now then _ else _) as [msgs te].
  destruct (MessageBuffer.arrival fl rnd b now delta) as [ar la].
  step_bind He as [] _. step_bind He as [] _. step_bind He as [] _. step_bind He as m0 Hm0.
  injection Hm0 as <-. step_bind He as [] _. step_bind He as m1 Hm1. step_bind He as [] _.
  step_bind He as [] Hc%assert_Ok. injection He as <- <-.
  unfold Message.updateDelayedTicks in Hm1. step_bind Hm1 as [] _. injection Hm1 as <-.
  split; [|by split]. unfold refs. cbn. by rewrite push_heap_refs.
Qed.

Lemma dequeue_head_gone b now cur dec d b' cb :
  MessageBuffer.dequeue b now cur dec = Ok (d, b', cb) →
  ∃ m, MessageBuffer.m_prio_heap b = m :: MessageBuffer.m_prio_heap b' ∧
       MessageBuffer.has_consumer b' = MessageBuffer.has_consumer b.
Proof.
  unfold MessageBuffer.dequeue. intros Hd. step_bind Hd as [ready x] _.
  step_bind Hd as [] _. step_bind Hd as m Hm%determinate_Ok. step_bind Hd as m' _.
  destruct (MessageBuffer.m_prio_heap b) as [|m0 h] eqn:Hh; [done|]. injection Hm as ->.
  destruct (MessageBuffer.m_time_last_time_pop b <? now), dec; injection Hd as <- <- <-; cbn;
    rewrite Hh; by exists m.
Qed.

(** ** Consumers and buffers *)

Lemma quiet_same s s' :
  net_base s' = net_base s → switches s' = switches s → bviews s' = bviews s →
  messages s' = messages s → quiet s s'.
Proof.
  intros Hb Hs Hv Hm. split; [by apply frame_same|done|done|].
  intros k v. unfold pend. by rewrite Hs.
Qed.

Lemma schedule_quiet f g c s s' : schedule f g c s = Ok s' → quiet s s'.
Proof.
  destruct c as [k|k j|i]; cbn [schedule]; intros Hs.
  - step_bind Hs as sw _. revert Hs. apply on_perfect_quiet. intros p p' Hp.
    step_bind Hp as c _. by injection Hp as <-.
  - step_bind Hs as sw _. revert Hs. apply on_throttle_quiet. intros t t' Ht.
    step_bind Ht as c _. by injection Ht as <-.
  - injection Hs as <-. by apply quiet_same.
Qed.

Lemma get_buffer_view s b n :
  get_buffer s b = Ok n → zlookup (bviews s) b = Some (view_of n).
Proof.
  intros [Hb Hn]%vget_Ok%zlookup_Some. apply zlookup_Some. split; [done|].
  unfold bviews. by rewrite list_lookup_fmap, Hn.
Qed.

Lemma put_buffer_Ok s b mb s' :
  put_buffer s b mb = Ok s' ↔
  ∃ n, get_buffer s b = Ok n ∧
       s' = with_buffers s (<[Z.to_nat b := with_nb n mb]> (buffers s)).
Proof.
  unfold put_buffer, vupd, get_buffer. split.
  - intros Hs. step_bind Hs as l Hl. injection Hs as <-. step_bind Hl as n Hn.
    exists n. split; [done|]. cbn in Hl. by apply vset_Ok in Hl as [_ ->].
  - intros (n & Hn & ->). rewrite Hn. cbn.
    rewrite vset_intro; [done|]. apply vget_Ok in Hn. by eapply zlookup_lt.
Qed.

Lemma bviews_put s b n mb :
  bviews (with_buffers s (<[Z.to_nat b := with_nb n mb]> (buffers s))) =
  <[Z.to_nat b := mkBview (nb_consumer n) (MessageBuffer.has_consumer mb) (m_vnet_id n) (refs mb)]>
    (bviews s).
Proof. unfold bviews. cbn [with_buffers buffers]. by rewrite list_fmap_insert. Qed.

(** The buffer records something but keeps its messages. *)
Lemma put_buffer_quiet s b n mb s' :
  get_buffer s b = Ok n → refs mb = refs (nb_buffer n) →
  MessageBuffer.has_consumer mb = MessageBuffer.has_consumer (nb_buffer n) →
  put_buffer s b mb = Ok s' → quiet s s'.
Proof.
  intros Hn Hr Hc (n' & Hn' & ->)%put_buffer_Ok. same_result.
  apply quiet_same; [done|done| |done].
  rewrite bviews_put, Hr, Hc. apply get_buffer_view, zlookup_Some in Hn as [_ Hn].
  by apply list_insert_id.
Qed.

Lemma isReady_quiet cur now b s r s' : isReady cur now b s = Ok (r, s') → quiet s s'.
Proof.
  unfold isReady. intros Hs. step_bind Hs as n _. step_bind Hs as [ready again] _.
  step_bind Hs as s1 Hs1. injection Hs as <- <-. destruct again; [|by injection Hs1 as <-].
  step_bind Hs1 as c _. by apply schedule_quiet in Hs1.
Qed.

Lemma areNSlotsAvailable_quiet now k b s r s' :
  areNSlotsAvailable now k b s = Ok (r, s') → quiet s s'.
Proof.
  unfold areNSlotsAvailable. intros Hs. step_bind Hs as n Hn.
  destruct (MessageBuffer.areNSlotsAvailable _ _ _) as [ok mb] eqn:E.
  step_bind Hs as s1 Hs1. injection Hs as <- <-. eapply put_buffer_quiet; [done|..|done];
    unfold MessageBuffer.areNSlotsAvailable in E; repeat case_in E; by simplify_eq.
Qed.

Lemma queue_length_quiet now bs s r s' : queue_length now bs s = Ok (r, s') → quiet s s'.
Proof.
  revert s r s'. induction bs as [|p bs IH]; intros s r s' Hs; cbn [queue_length] in Hs.
  - by injection Hs as <- <-.
  - step_bind Hs as b _. step_bind Hs as n Hn.
    destruct (MessageBuffer.getSize _ _) as [size mb] eqn:E.
    step_bind Hs as s1 Hs1. step_bind Hs as [rest s2] Hs2. injection Hs as <- <-.
    etrans; [|by eapply IH]. eapply put_buffer_quiet; [done|..|done];
      unfold MessageBuffer.getSize in E; repeat case_in E; by simplify_eq.
Qed.

Lemma storeEventInfo_pend v c s s' :
  storeEventInfo v c s = Ok s' →
  frame s s' ∧ bviews s' = bviews s ∧ messages s' = messages s ∧
  ∀ k w, pend s' k w =
    if decide (c = PerfectSwitchOf k ∧ w = v) then Z.add 1 <$> pend s k w else pend s k w.
Proof.
  destruct c as [k|k j|i]; cbn [storeEventInfo].
  - intros Hs. apply (on_perfect_counted k v 1) in Hs as [F B M P]; [|intros n; f_equal; lia].
    split_and!; [done..|]. intros k' w. rewrite P.
    destruct (decide (k' = k ∧ w = v)) as [[-> ->]|Hne]; [by rewrite decide_True|].
    rewrite decide_False; [done|]. intros [[= ->] ->]. by apply Hne.
  - intros [= <-]. split_and!; [done..|]. intros k' w. by rewrite decide_False by (by intros []).
  - intros [= <-]. split_and!; [done..|]. intros k' w. by rewrite decide_False by (by intros []).
Qed.

Lemma enqueue_put e now b m delta s s' :
  enqueue e now b m delta s = Ok s' → put b (Message.msg_ref m) s s'.
Proof.
  unfold enqueue. intros Hs. step_bind Hs as n Hn. step_bind Hs as [mb tick] Hmb.
  step_bind Hs as s1 Hs1. step_bind Hs as c Hc%determinate_Ok. step_bind Hs as s2 Hs2.
  apply put_buffer_Ok in Hs1 as (n' & Hn' & ->). same_result.
  apply enqueue_refs in Hmb as (Hr & Hon & Hon').
  apply schedule_quiet in Hs2 as [F2 B2 M2 P2].
  apply storeEventInfo_pend in Hs as (F3 & B3 & M3 & P3).
  split.
  - etrans; [|exact F3]. etrans; [|exact F2]. by apply frame_same.
  - by rewrite M3, M2.
  - exists c, (m_vnet_id n), (refs (nb_buffer n)), (refs mb). split_and!; [|done| |].
    + rewrite (get_buffer_view _ _ _ Hn). unfold view_of. by rewrite Hc, Hon.
    + by rewrite B3, B2, bviews_put, Hc, Hon'.
    + intros k w. rewrite P3, P2. done.
Qed.

Lemma dequeue_took e now b s m s' :
  dequeue e now b s = Ok (m, s') →
  took b (Message.msg_ref m) s s' ∧
  ∃ n m0, get_buffer s b = Ok n ∧ head (MessageBuffer.m_prio_heap (nb_buffer n)) = Some m0 ∧
          Message.msg_ref m = Message.msg_ref m0.
Proof.
  unfold dequeue. intros Hs. step_bind Hs as n Hn. step_bind Hs as m0 Hm0%determinate_Ok.
  step_bind Hs as [[d mb] cb] Hd. step_bind Hs as m' Hm'. step_bind Hs as s1 Hs1.
  injection Hs as <- <-. unfold Message.updateDelayedTicks in Hm'. step_bind Hm' as [] _.
  injection Hm' as <-. cbn [Message.msg_ref].
  apply put_buffer_Ok in Hs1 as (n' & Hn' & ->). same_result.
  apply dequeue_head_gone in Hd as (m1 & Hh & Hc). rewrite Hh in Hm0. injection Hm0 as ->.
  split; [|exists n, m0; by rewrite Hh].
  assert (took b (Message.msg_ref m0) s
            (with_buffers s (<[Z.to_nat b := with_nb n mb]> (buffers s)))) as Ht.
  { split; [by apply frame_same|done|done|].
    exists (nb_consumer n), (MessageBuffer.has_consumer (nb_buffer n)), (m_vnet_id n), (refs mb).
    split; [|by rewrite bviews_put, Hc].
    rewrite (get_buffer_view _ _ _ Hn). unfold view_of, refs. by rewrite Hh. }
  destruct cb; [|done]. destruct Ht as [F M P B]. split; [|done..].
  etrans; [exact F|]. by apply frame_same.
Qed.

(** ** Routing *)

Lemma insert_link_perm x l : WeightBased.insert_link x l ≡ₚ x :: l.
Proof.
  induction l as [|y l IH]; cbn; [done|]. destruct (WeightBased.before x y); [done|].
  rewrite IH. constructor.
Qed.

Lemma sortLinks_perm l : WeightBased.sortLinks l ≡ₚ l.
Proof.
  unfold WeightBased.sortLinks. induction l as [|x l IH]; cbn; [done|].
  rewrite insert_link_perm. by f_equiv.
Qed.

Lemma order_links_same e now ref links s links' s' :
  order_links e now ref links s = Ok (links', s') →
  quiet s s' ∧ rview <$> links' = rview <$> links.
Proof.
  revert s links' s'. induction links as [|l links IH]; intros s links' s' Hs;
    cbn [order_links] in Hs.
  - by injection Hs as <- <-.
  - step_bind Hs as [n s1] Hs1%queue_length_quiet. step_bind Hs as [ls s2] Hs2.
    apply IH in Hs2 as [Hq Hl]. injection Hs as <- <-. split; [by etrans|].
    rewrite !fmap_cons, Hl. done.
Qed.

Section routing.
  Context `{MachineTypes}.

Lemma route_quiet e k ref dest det s out s' :
  route e k ref dest det s = Ok (out, s') →
  quiet s s' ∧ ∃ sw, switches s' !! k = Some sw ∧
    WeightBased.findRoute (WeightBased.m_links (Switch.m_routing_unit sw)) dest = Ok out.
Proof.
  unfold route. intros Hs. step_bind Hs as sw Hk%get_switch_Ok.
  step_bind Hs as [links s1] Hl. step_bind Hs as sw1 Hk1%get_switch_Ok.
  step_bind Hs as out' Hout. injection Hs as <- <-.
  assert (quiet s s1 ∧ rview <$> links ≡ₚ routes sw) as [Hq Hp].
  { revert Hl. case_match eqn:E.
    - intros Hl. step_bind Hl as now _. step_bind Hl as [ls s2] Hls. injection Hl as <- <-.
      rewrite sortLinks_perm. destruct det.
      + injection Hls as <- <-. split; [done|].
        by rewrite <- list_fmap_compose.
      + apply order_links_same in Hls as [Hq Hp]. split; [done|]. by rewrite Hp.
    - by intros [= <- <-]. }
  destruct (frame_switch _ _ _ _ (qu_frame _ _ Hq) Hk) as (sw1' & Hk1' & [Hv Hr]).
  rewrite Hk1 in Hk1'. injection Hk1' as <-. split.
  - etrans; [exact Hq|]. eapply put_switch_quiet; [done| |done]. split; [done|].
    unfold routes at 1. cbn. by rewrite Hp, Hr.
  - eexists. split; [cbn; apply lookup_insert_eq|]. exact Hout.
Qed.

Lemma enough_slots_quiet now p v links s r s' :
  enough_slots now p v links s = Ok (r, s') → quiet s s'.
Proof.
  revert s r s'. induction links as [|l links IH]; intros s r s' Hs; cbn [enough_slots] in Hs.
  - by injection Hs as <- <-.
  - step_bind Hs as [o b] _. step_bind Hs as [ok s1] Hs1%areNSlotsAvailable_quiet.
    step_bind Hs as [rest s2] Hs2%IH. injection Hs as <- <-. by etrans.
Qed.

End routing.
