(* ===== verification/SimpleInvariant.v ===== *)
(** * Messages of the simple network

    The invariant of the simple network: every message is in one buffer, the counters of
    pending messages are right, and a switch takes messages only from buffers it consumes.
    A message travels through the hands of a switch or a throttle, which hold it between
    [dequeue] and [enqueue]: the invariant says so with the list of the messages held. *)

From S2P Require Import Prelude.
From S2P Require Import NetDest.
From S2P Require Import MessageBuffer.
From S2P Require Import SimpleSwitch.
From S2P Require Import SimpleRouting.
From S2P Require Import SimpleFrame.

(** ** Sums and permutations *)

Lemma sum_over_perm {A} (f : A → Z) l l' : l ≡ₚ l' → sum_over f l = sum_over f l'.
Proof. unfold sum_over. induction 1; cbn; lia. Qed.

Lemma sum_over_cons {A} (f : A → Z) x l : sum_over f (x :: l) = f x + sum_over f l.
Proof. done. Qed.

Lemma sum_over_ext_in {A} (f g : A → Z) l :
  (∀ x, x ∈ l → f x = g x) → sum_over f l = sum_over g l.
Proof.
  unfold sum_over. induction l as [|x l IH]; intros Hf; cbn; [done|].
  rewrite Hf, IH; [done| |left]. intros y Hy. apply Hf. by right.
Qed.

(** ** What is where *)

(** The messages in the buffers. *)
Definition held (bvs : list bview) : list nat := concat (bv_refs <$> bvs).

(** The messages that wait for virtual network [v] of switch [k]. *)
Definition waiting (bvs : list bview) (k v : Z) : Z :=
  sum_over (λ b, if decide (bv_consumer b = Some (PerfectSwitchOf k) ∧ bv_vnet b = v)
                 then zlen (bv_refs b) else 0) bvs.

(** Buffer [b] belongs to consumer [c], for virtual network [v]. *)
Definition owned (s : snet) (b : Z) (c : buffer_consumer) (v : Z) : Prop :=
  ∃ on h, zlookup (bviews s) b = Some (mkBview (Some c) on v h).

(** Whether message [r] goes to machine [num] of type [ty]. *)
Definition addressed (ms : gmap nat NetMsg) (ty num : Z) (r : nat) : Z :=
  match ms !! r with
  | Some x => if has ty num (nm_destination x) then 1 else 0
  | None => 0
  end.

(** The copies under way to machine [num] of type [ty], those in hand included. *)
Definition carried (hand : list nat) (s : snet) (ty num : Z) : Z :=
  sum_over (addressed (messages s) ty num) (hand ++ held (bviews s)).

Lemma held_insert bvs b bv bv' :
  zlookup bvs b = Some bv →
  bv_refs bv ++ held (<[Z.to_nat b := bv']> bvs) ≡ₚ bv_refs bv' ++ held bvs.
Proof.
  intros [_ Hb]%zlookup_Some. revert Hb. generalize (Z.to_nat b). unfold held.
  induction bvs as [|x bvs IH]; intros [|n] Hn; [done..|injection Hn as ->|]; cbn.
  - apply Permutation_app_swap_app.
  - rewrite Permutation_app_swap_app, (IH n Hn). apply Permutation_app_swap_app.
Qed.

Lemma waiting_insert bvs b bv bv' k v :
  zlookup bvs b = Some bv → bv_consumer bv' = bv_consumer bv → bv_vnet bv' = bv_vnet bv →
  waiting (<[Z.to_nat b := bv']> bvs) k v =
    waiting bvs k v +
    if decide (bv_consumer bv = Some (PerfectSwitchOf k) ∧ bv_vnet bv = v)
    then zlen (bv_refs bv') - zlen (bv_refs bv) else 0.
Proof.
  intros [_ Hb]%zlookup_Some Hc Hv. unfold waiting. rewrite (sum_over_insert _ _ _ _ _ Hb).
  rewrite Hc, Hv. case_decide; lia.
Qed.

(** ** The invariant *)

Section invariant.
  Context `{MachineTypes}.

(** The ports of switch [k] are its own, and its routing entries well-formed. *)
Record ports_ok (s : snet) (k : Z) (sw : Switch.t) : Prop := {
  po_prio v l b :
    zlookup (PerfectSwitch.m_in_prio (Switch.perfectSwitch sw)) v = Some l → b ∈ l →
    owned s b (PerfectSwitchOf k) v;
  po_groups v gs g b :
    zlookup (PerfectSwitch.m_in_prio_groups (Switch.perfectSwitch sw)) v = Some gs → g ∈ gs →
    b ∈ g → owned s b (PerfectSwitchOf k) v;
  po_throttles j t v b :
    zlookup (Switch.throttles sw) j = Some t → zlookup (Throttle.m_in t) v = Some b →
    ∃ w, owned s b (ThrottleOf k j) w;
  po_routes : Forall (λ r, NetDest.wf r.2) (routes sw);
}.

Record inv (hand : list nat) (s : snet) : Prop := {
  in_once : NoDup (hand ++ held (bviews s));
  in_stored r :
    r ∈ hand ++ held (bviews s) →
    ∃ x, messages s !! r = Some x ∧ NetDest.wf (nm_destination x);
  in_pending k v n : pend s k v = Some n → n = waiting (bviews s) k v;
  in_ports k sw : switches s !! k = Some sw → ports_ok s k sw;
  in_connected b bv : zlookup (bviews s) b = Some bv →
    (bv_connected bv = true ↔ is_Some (bv_consumer bv)) ∧
    (bv_connected bv = false → bv_refs bv = []);
}.

(** *** The ports stay in order *)

(** The buffers keep their consumers and virtual networks. *)
Definition same_owners (s s' : snet) : Prop :=
  ∀ b c v, owned s b c v → owned s' b c v.

Lemma ports_frame s s' k sw sw' :
  same_owners s s' → same_switch sw sw' → ports_ok s k sw → ports_ok s' k sw'.
Proof.
  intros Ho [Hv Hr] [P1 P2 P3 P4]. unfold swview, pview in Hv.
  injection Hv as E1 E2 E3 E4 E5 E6 E7 E8 E9. split.
  - intros v l b. rewrite E3. intros Hl Hb. apply Ho. by eapply P1.
  - intros v gs g b. rewrite E4. intros Hl Hg Hb. apply Ho. by eapply P2.
  - intros j t v b [Hj Ht]%zlookup_Some Hb.
    assert ((tview <$> Switch.throttles sw') !! Z.to_nat j = Some (tview t)) as Ht'
      by (by rewrite list_lookup_fmap, Ht).
    rewrite E6, list_lookup_fmap in Ht'.
    destruct (Switch.throttles sw !! Z.to_nat j) as [t0|] eqn:E0; [|done].
    injection Ht' as Hin _. rewrite <- Hin in Hb.
    destruct (P3 j t0 v b) as [w Hw]; [by apply zlookup_Some|done|].
    exists w. by apply Ho.
  - by rewrite Hr.
Qed.

Lemma ports_all s s' :
  same_owners s s' → frame s s' → (∀ k sw, switches s !! k = Some sw → ports_ok s k sw) →
  ∀ k sw', switches s' !! k = Some sw' → ports_ok s' k sw'.
Proof.
  intros Ho Hf Hp k sw' Hk. destruct (frame_switch_back _ _ _ _ Hf Hk) as (sw & Hk' & Hs).
  eapply ports_frame; [done|done|by apply Hp].
Qed.

Lemma same_owners_buffers s s' : bviews s' = bviews s → same_owners s s'.
Proof. intros Hb b c v. unfold owned. by rewrite Hb. Qed.

Lemma same_owners_insert s s' b c on v h on' h' :
  zlookup (bviews s) b = Some (mkBview c on v h) →
  bviews s' = <[Z.to_nat b := mkBview c on' v h']> (bviews s) → same_owners s s'.
Proof.
  intros Hb Hs b' c' v' (on1 & h1 & Hb'). unfold owned. rewrite Hs.
  apply zlookup_lt in Hb as Hlt. rewrite zlookup_insert by done.
  case_decide as E; [|by exists on1, h1]. subst b'. rewrite Hb in Hb'. simplify_eq.
  by exists on', h'.
Qed.

(** *** Steps *)

(** What a change of one buffer gives. *)
Lemma connected_insert s s' b bv' :
  (∀ b bv, zlookup (bviews s) b = Some bv →
     (bv_connected bv = true ↔ is_Some (bv_consumer bv)) ∧
     (bv_connected bv = false → bv_refs bv = [])) →
  bviews s' = <[Z.to_nat b := bv']> (bviews s) →
  0 ≤ b < zlen (bviews s) →
  (bv_connected bv' = true ↔ is_Some (bv_consumer bv')) →
  (bv_connected bv' = false → bv_refs bv' = []) →
  ∀ b bv, zlookup (bviews s') b = Some bv →
     (bv_connected bv = true ↔ is_Some (bv_consumer bv)) ∧
     (bv_connected bv = false → bv_refs bv = []).
Proof.
  intros Hc -> Hb H1 H2 b0 bv. rewrite zlookup_insert by done.
  case_decide; [by intros [= <-]|apply Hc].
Qed.

Lemma inv_quiet l s s' : quiet s s' → inv l s → inv l s'.
Proof.
  intros [F B M P] [I1 I2 I3 I4 I5]. split.
  - by rewrite B.
  - by rewrite B, M.
  - intros k v n. rewrite P, B. apply I3.
  - apply (ports_all s s'); [by apply same_owners_buffers|done|done].
  - by rewrite B.
Qed.

Lemma carried_quiet l s s' ty num : quiet s s' → carried l s' ty num = carried l s ty num.
Proof. intros [F B M P]. unfold carried. by rewrite B, M. Qed.

Lemma took_held b r s s' :
  took b r s s' → held (bviews s) ≡ₚ r :: held (bviews s').
Proof.
  intros [_ _ _ (c & on & v & h & Hb & Hs)].
  pose proof (held_insert (bviews s) b _ (mkBview c on v h) Hb) as Hp. cbn [bv_refs] in Hp.
  rewrite <- Hs in Hp. apply (Permutation_app_inv_l h). rewrite <- Hp. cbn. apply Permutation_middle.
Qed.

Lemma took_carried l b r s s' ty num :
  took b r s s' → carried (r :: l) s' ty num = carried l s ty num.
Proof.
  intros Ht. pose proof (took_held _ _ _ _ Ht) as Hp. unfold carried.
  rewrite (to_messages _ _ _ _ Ht). apply sum_over_perm. rewrite Hp. apply Permutation_middle.
Qed.

(** The message taken was waiting for switch [k] on [v], or for no switch. *)
Lemma took_inv l b r c v0 s s1 s2 :
  inv l s → owned s b c v0 → took b r s s1 → frame s1 s2 → bviews s2 = bviews s1 →
  messages s2 = messages s1 →
  (∀ k v, pend s2 k v =
     if decide (c = PerfectSwitchOf k ∧ v0 = v) then Z.add (-1) <$> pend s1 k v else pend s1 k v) →
  inv (r :: l) s2.
Proof.
  intros [I1 I2 I3 I4 I5] (on0 & h0 & Hown) Ht F B M P. pose proof (took_held _ _ _ _ Ht) as Hh.
  destruct Ht as [F1 M1 P1 (c' & on & v' & h & Hb & Hs)]. rewrite Hown in Hb. simplify_eq.
  assert (r :: l ++ held (bviews s2) ≡ₚ l ++ held (bviews s)) as Hp.
  { rewrite B, Hh. apply Permutation_middle. }
  split.
  - cbn. by rewrite Hp.
  - intros r' Hr'. rewrite M, M1. apply I2. by rewrite <- Hp.
  - intros k v n. rewrite P, P1, B, Hs.
    rewrite (waiting_insert _ _ _ _ k v Hown) by done. cbn [bv_consumer bv_vnet bv_refs].
    rewrite zlen_cons.
    destruct (decide (c = PerfectSwitchOf k ∧ v' = v)) as [[-> ->]|Hne].
    + rewrite decide_True by done. destruct (pend s k v) as [m|] eqn:E; [|done].
      intros [= <-]. rewrite <- (I3 _ _ _ E). lia.
    + rewrite decide_False by (intros [[= ->] ->]; by apply Hne). rewrite Z.add_0_r. apply I3.
  - apply (ports_all s s2); [|by etrans|done].
    intros b' c' w. unfold owned. rewrite B. by eapply same_owners_insert.
  - rewrite B. eapply connected_insert; [done|done|by eapply zlookup_lt| |];
      cbn; [by apply (I5 _ _ Hown)|]. intros Hon. by destruct (I5 _ _ Hown) as [_ Hd]; specialize (Hd Hon).
Qed.

Lemma put_held b r s s' : put b r s s' → held (bviews s') ≡ₚ r :: held (bviews s).
Proof.
  intros [_ _ (c & v & h & h' & Hb & Hh & Hs & _)].
  pose proof (held_insert (bviews s) b _ (mkBview (Some c) true v h') Hb) as Hp. cbn [bv_refs] in Hp.
  rewrite <- Hs in Hp. apply (Permutation_app_inv_l h). rewrite Hp, Hh. cbn. apply Permutation_middle.
Qed.

Lemma put_carried l b r s s' ty num :
  put b r s s' → carried l s' ty num = carried (r :: l) s ty num.
Proof.
  intros Ht. pose proof (put_held _ _ _ _ Ht) as Hp. unfold carried.
  rewrite (pu_messages _ _ _ _ Ht). apply sum_over_perm. rewrite Hp. symmetry. apply Permutation_middle.
Qed.

Lemma put_inv l b r s s' : inv (r :: l) s → put b r s s' → inv l s'.
Proof.
  intros [I1 I2 I3 I4 I5] Ht. pose proof (put_held _ _ _ _ Ht) as Hh.
  destruct Ht as [F M (c & v0 & h & h' & Hb & Hh' & Hs & P)].
  assert (l ++ held (bviews s') ≡ₚ (r :: l) ++ held (bviews s)) as Hp.
  { rewrite Hh. symmetry. apply Permutation_middle. }
  split.
  - by rewrite Hp.
  - intros r' Hr'. rewrite M. apply I2. by rewrite <- Hp.
  - intros k v n. rewrite P, Hs. rewrite (waiting_insert _ _ _ _ k v Hb) by done.
    cbn [bv_consumer bv_vnet bv_refs].
    assert (zlen h' = zlen h + 1) as ->.
    { unfold zlen. rewrite Hh'. cbn. lia. }
    destruct (decide (c = PerfectSwitchOf k ∧ v = v0)) as [[-> ->]|Hne].
    + rewrite decide_True by done. destruct (pend s k v0) as [m|] eqn:E; [|done].
      intros [= <-]. rewrite <- (I3 _ _ _ E). lia.
    + rewrite decide_False by (intros [[= ->] ->]; by apply Hne). rewrite Z.add_0_r. apply I3.
  - apply (ports_all s s'); [|done|done]. by eapply same_owners_insert.
  - eapply connected_insert; [done|done|by eapply zlookup_lt| |]; cbn; [|done].
    split; [by eexists|done].
Qed.

(** The contents of a message in hand change. *)
Lemma relabel_inv l r x s :
  inv (r :: l) s → NetDest.wf (nm_destination x) →
  inv (r :: l) (with_messages s (<[r := x]> (messages s))).
Proof.
  intros [I1 I2 I3 I4 I5] Hx. split; [done| |done| |done].
  - intros r' Hr'. cbn. destruct (decide (r' = r)) as [->|Hne].
    + rewrite lookup_insert_eq. by exists x.
    + rewrite lookup_insert_ne by done. by apply I2.
  - apply (ports_all s); [by apply same_owners_buffers|by apply frame_same|done].
Qed.

Lemma relabel_carried l r x s ty num :
  inv (r :: l) s →
  carried (r :: l) (with_messages s (<[r := x]> (messages s))) ty num =
    carried (r :: l) s ty num - addressed (messages s) ty num r +
    if has ty num (nm_destination x) then 1 else 0.
Proof.
  intros [I1 _ _ _ _]. cbn [app] in I1. apply NoDup_cons in I1 as [Hr _].
  unfold carried. change (bviews (with_messages _ _)) with (bviews s).
  cbn [with_messages messages app]. rewrite !sum_over_cons.
  assert (addressed (<[r := x]> (messages s)) ty num r =
          if has ty num (nm_destination x) then 1 else 0) as ->.
  { unfold addressed. by rewrite lookup_insert_eq. }
  rewrite (sum_over_ext_in (addressed (<[r := x]> (messages s)) ty num)
    (addressed (messages s) ty num)).
  - lia.
  - intros r' Hr'. unfold addressed. by rewrite lookup_insert_ne by set_solver.
Qed.

(** A new message comes to hand, one in hand is dropped. *)
Lemma new_inv l r x s :
  inv l s → r ∉ dom (messages s) → NetDest.wf (nm_destination x) →
  inv (r :: l) (with_messages s (<[r := x]> (messages s))).
Proof.
  intros [I1 I2 I3 I4 I5] Hr Hx.
  assert (∀ r', r' ∈ l ++ held (bviews s) → r' ≠ r) as Hne.
  { intros r' Hr' ->. destruct (I2 _ Hr') as (y & Hy & _). apply Hr. by apply elem_of_dom_2 in Hy. }
  split; [|..|done| |done].
  - cbn. apply NoDup_cons. split; [|done]. intros Hin. by apply (Hne r).
  - intros r' [->|Hr']%elem_of_cons; cbn.
    + rewrite lookup_insert_eq. by exists x.
    + rewrite lookup_insert_ne by (by intros ->; apply (Hne _ Hr')). by apply I2.
  - apply (ports_all s); [by apply same_owners_buffers|by apply frame_same|done].
Qed.

Lemma new_carried l r x s ty num :
  inv l s → r ∉ dom (messages s) →
  carried (r :: l) (with_messages s (<[r := x]> (messages s))) ty num =
    carried l s ty num + if has ty num (nm_destination x) then 1 else 0.
Proof.
  intros [_ I2 _ _ _] Hr. unfold carried.
  change (bviews (with_messages _ _)) with (bviews s).
  cbn [with_messages messages app]. rewrite sum_over_cons.
  assert (addressed (<[r := x]> (messages s)) ty num r =
          if has ty num (nm_destination x) then 1 else 0) as ->.
  { unfold addressed. by rewrite lookup_insert_eq. }
  rewrite (sum_over_ext_in (addressed (<[r := x]> (messages s)) ty num)
    (addressed (messages s) ty num)).
  - lia.
  - intros r' Hr'. unfold addressed. rewrite lookup_insert_ne; [done|]. intros ->.
    destruct (I2 _ Hr') as (y & Hy & _). apply Hr. by apply elem_of_dom_2 in Hy.
Qed.

Lemma drop_inv l r s : inv (r :: l) s → inv l s.
Proof.
  intros [I1 I2 I3 I4 I5]. split; [|..|done|done|done].
  - cbn in I1. by apply NoDup_cons in I1 as [_ ?].
  - intros r' Hr'. apply I2. by right.
Qed.

Lemma drop_carried l r s ty num :
  carried (r :: l) s ty num = addressed (messages s) ty num r + carried l s ty num.
Proof. done. Qed.

End invariant.
