(* ===== verification/SimpleConservation.v ===== *)
(** * Conservation of messages in the simple network

    The wake-ups of switches and throttles keep the invariant of [SimpleInvariant], and the
    number of copies under way to every machine. *)

From S2P Require Import Prelude.
From S2P Require Import NetDest.
From S2P Require Import MessageBuffer.
From S2P Require Import SimpleSwitch.
From S2P Require Import SimpleRouting.
From S2P Require Import SimpleFrame.
From S2P Require Import SimpleInvariant.

Section conservation.
  Context `{MachineTypeLaws}.

(** ** Steps that lose nothing *)

Record kept (s s' : snet) : Prop := {
  kp_frame : frame s s';
  kp_owners : same_owners s s';
  kp_inv : inv [] s → inv [] s' ∧ ∀ ty num, carried [] s' ty num = carried [] s ty num;
}.

#[local] Instance kept_preorder : PreOrder kept.
Proof.
  split.
  - intros s. split; [done|by intros b c v|done].
  - intros a b c [F1 O1 I1] [F2 O2 I2]. split; [by etrans|by intros x y z Hx; apply O2, O1|].
    intros Ha. destruct (I1 Ha) as [Hb E1], (I2 Hb) as [Hc E2]. split; [done|].
    intros ty num. by rewrite E2.
Qed.

Lemma quiet_kept s s' : quiet s s' → kept s s'.
Proof.
  intros Hq. split; [apply Hq|apply same_owners_buffers, Hq|].
  intros Hi. split; [by eapply inv_quiet|]. intros ty num. by apply carried_quiet.
Qed.

Lemma took_owners b r s s' : took b r s s' → same_owners s s'.
Proof. intros [_ _ _ (c & on & v & h & Hb & Hs)]. by eapply same_owners_insert. Qed.

Lemma put_owners b r s s' : put b r s s' → same_owners s s'.
Proof. intros [_ _ (c & v & h & h' & Hb & _ & Hs & _)]. by eapply same_owners_insert. Qed.

Lemma for_range_kept f a n s s' :
  (∀ i t t', a ≤ i < a + Z.of_nat n → kept s t → f i t = Ok t' → kept t t') →
  for_range a n f s = Ok s' → kept s s'.
Proof.
  intros Hf. apply (for_range_inv (λ _ t, kept s t)); [|done].
  intros i t t' Hi Ht Hft. etrans; [done|]. by eapply Hf.
Qed.

(** ** Throttles *)

Lemma on_throttle_stats_quiet k j f s s' :
  on_throttle k j (λ t, Ok (th_with_stats t (f t))) s = Ok s' → quiet s s'.
Proof. apply on_throttle_quiet. by intros t t' [= <-]. Qed.

Lemma move_message_kept e k j vnet now inp outp w s u s' :
  owned s inp (ThrottleOf k j) w →
  move_message e k j vnet now inp outp s = Ok (u, s') → kept s s'.
Proof.
  intros Ho Hs. unfold move_message in Hs. step_bind Hs as n _. step_bind Hs as m _.
  step_bind Hs as x _. step_bind Hs as units _. step_bind Hs as [m' s1] Hd.
  step_bind Hs as t _. step_bind Hs as sw _. step_bind Hs as s2 Hp%enqueue_put.
  step_bind Hs as bytes _. step_bind Hs as control _.
  step_bind Hs as s3 Hq%on_throttle_stats_quiet. injection Hs as _ <-.
  apply dequeue_took in Hd as [Ht _]. etrans; [|by apply quiet_kept]. split.
  - etrans; [by destruct Ht|by destruct Hp].
  - intros b c v Hb. eapply put_owners, took_owners; done.
  - intros Hi. split.
    + eapply put_inv; [|done]. eapply (took_inv [] inp _ _ _ s s1 s1); [done|done|done|done..|].
      intros k' v'. by rewrite decide_False by (by intros []).
    + intros ty num. by rewrite (put_carried _ _ _ _ _ _ _ Hp), (took_carried _ _ _ _ _ _ _ Ht).
Qed.

Lemma hasPendingWork_quiet e now inp units s r s' :
  hasPendingWork e now inp units s = Ok (r, s') → quiet s s'.
Proof.
  unfold hasPendingWork. intros Hs. step_bind Hs as [ready s1] Hs1%isReady_quiet.
  by injection Hs as _ <-.
Qed.

Lemma transfer_loop_kept e k j vnet now inp outp w fuel units bw total s r s' :
  owned s inp (ThrottleOf k j) w →
  transfer_loop e k j vnet now inp outp fuel units bw total s = Some (Ok (r, s')) →
  kept s s'.
Proof.
  revert units bw total s. induction fuel as [|fuel IH]; intros units bw total s Ho Hs;
    cbn [transfer_loop] in Hs; [done|].
  destruct (0 <? bw); [|by injection Hs as _ <-].
  step_bind Hs as [pending s1] Hq1%hasPendingWork_quiet%quiet_kept.
  destruct pending; [|by injection Hs as _ <-].
  step_bind Hs as [ok s2] Hq2%areNSlotsAvailable_quiet%quiet_kept.
  destruct ok; [|injection Hs as _ <-; by etrans].
  step_bind Hs as [u s3] Hm.
  assert (kept s2 s3) as Hk.
  { destruct (units =? 0); [|by injection Hm as _ <-].
    step_bind Hm as [ready s4] Hq4%isReady_quiet%quiet_kept.
    destruct ready; [|by injection Hm as _ <-]. etrans; [done|].
    eapply move_message_kept; [|done]. by apply Hq4, Hq2, Hq1. }
  etrans; [exact Hq1|]. etrans; [exact Hq2|]. etrans; [exact Hk|].
  eapply IH; [|done]. by apply Hk, Hq2, Hq1.
Qed.

Lemma get_throttle_Ok s k j t :
  get_throttle s k j = Ok t →
  ∃ sw, switches s !! k = Some sw ∧ zlookup (Switch.throttles sw) j = Some t.
Proof.
  unfold get_throttle. intros Hs. step_bind Hs as sw Hk%get_switch_Ok. apply vget_Ok in Hs.
  by exists sw.
Qed.

Lemma throttle_operateVnet_kept e k j vnet ch bd s bd' s' :
  inv [] s → throttle_operateVnet e k j vnet ch (bd, s) = Ok (bd', s') → kept s s'.
Proof.
  intros Hi Hs. unfold throttle_operateVnet in Hs.
  step_bind Hs as t (sw & Hk & Hj)%get_throttle_Ok. step_bind Hs as inp Hin%vget_Ok.
  destruct (po_throttles _ _ _ (in_ports _ _ Hi _ _ Hk) _ _ _ _ Hj Hin) as [w Ho].
  step_bind Hs as out _. destruct out as [outp|]; [|by injection Hs as _ <-].
  step_bind Hs as us _. step_bind Hs as units _. step_bind Hs as [] _. step_bind Hs as now _.
  step_bind Hs as bw _. step_bind Hs as fuel _.
  step_bind Hs as [[[u b] total] s1] Hl%settled_Ok.
  apply (transfer_loop_kept _ _ _ _ _ _ _ w _ _ _ _ _ (u, b, total) _ Ho) in Hl.
  step_bind Hs as s2 Hu. apply on_throttle_quiet, quiet_kept in Hu.
  2:{ intros t1 t2 Ht. unfold set_units in Ht. step_bind Ht as l _. by injection Ht as <-. }
  step_bind Hs as [] _. step_bind Hs as [] _. step_bind Hs as [] _.
  step_bind Hs as [pending s3] Hq%hasPendingWork_quiet%quiet_kept.
  etrans; [exact Hl|]. etrans; [exact Hu|]. etrans; [exact Hq|].
  destruct pending; [|by injection Hs as _ <-].
  step_bind Hs as [fine s4] H4. step_bind Hs as [] _. step_bind Hs as [blocked s5] H5.
  injection Hs as _ <-. transitivity s4.
  - destruct (b =? 0); [by injection H4 as _ <-|].
    step_bind H4 as [ok s6] H6%areNSlotsAvailable_quiet%quiet_kept. by injection H4 as _ <-.
  - destruct (output_blocked bd); [by injection H5 as _ <-|].
    step_bind H5 as [ok s6] H6%areNSlotsAvailable_quiet%quiet_kept. by injection H5 as _ <-.
Qed.

Lemma for_range_kept_pair {A} (f : Z → A * snet → result (A * snet)) a n st st' :
  (∀ i t t', a ≤ i < a + Z.of_nat n → kept st.2 t.2 → f i t = Ok t' → kept t.2 t'.2) →
  for_range a n f st = Ok st' → kept st.2 st'.2.
Proof.
  intros Hf. apply (for_range_inv (λ _ t, kept st.2 t.2)); [|done].
  intros i t t' Hi Ht Hft. etrans; [done|]. by eapply Hf.
Qed.

Lemma throttle_wakeup_kept e k j s s' :
  inv [] s → throttle_wakeup e k j s = Ok s' → kept s s'.
Proof.
  intros Hi Hs. unfold throttle_wakeup in Hs. step_bind Hs as t _. step_bind Hs as total _.
  step_bind Hs as [] _. step_bind Hs as s1 H1.
  apply on_throttle_quiet, quiet_kept in H1; [|by intros t1 t2 [= <-]].
  step_bind Hs as [bd s2] H2. apply for_range_kept_pair in H2.
  2:{ intros i [bd1 u] [bd2 u'] _ Hk Hc. cbn [snd] in *. unfold throttle_channels in Hc.
      step_bind Hc as t1 _. step_bind Hc as n _.
      change (kept (bd1, u).2 (bd2, u').2). revert Hc. apply for_range_kept_pair.
      intros c [bd3 w] [bd4 w'] _ Hk' Hv. cbn [snd] in *.
      eapply throttle_operateVnet_kept; [|exact Hv]. by apply Hk', Hk, H1. }
  cbn [snd] in H2. step_bind Hs as s3 H3%on_throttle_stats_quiet%quiet_kept.
  etrans; [exact H1|]. etrans; [exact H2|]. etrans; [exact H3|].
  destruct (bw_saturated bd || output_blocked bd); [|by injection Hs as <-].
  apply quiet_kept. eapply schedule_quiet. exact Hs.
Qed.

(** ** Switches *)

(** The parts of a message add up to the message. *)
Lemma parts_add_up links d out ty num :
  NetDest.wf d → entries_wf links → WeightBased.findRoute links d = Ok out →
  sum_over (λ r, if has ty num (WeightBased.m_destinations r) then 1 else 0) out =
    if has ty num d then 1 else 0.
Proof.
  intros Hd Hl Hf. destruct (findRoute_split links d out Hd Hl Hf) as [_ _ _ Hp].
  specialize (Hp ty num). apply (f_equal zlen) in Hp.
  transitivity (zlen (WeightBased.ri_link_id <$> parts_with ty num out)).
  - unfold parts_with. clear. induction out as [|r out IH]; [done|].
    rewrite sum_over_cons, IH, filter_cons. destruct (has ty num _) eqn:E.
    + rewrite decide_True by done. rewrite fmap_cons, zlen_cons. done.
    + rewrite decide_False by done. done.
  - rewrite Hp. destruct (has ty num d) eqn:E; [|done].
    pose proof (proj1 (findRoute_total links d Hd Hl) (ex_intro _ out Hf) ty num E) as Hne.
    by destruct (links_to ty num links).
Qed.

(** The copies that [out] makes. *)
Definition parts_sum (out : list WeightBased.RouteInfo) (ty num : Z) : Z :=
  sum_over (λ r, if has ty num (WeightBased.m_destinations r) then 1 else 0) out.

(** A message in hand is sent along a link. *)
Lemma send_to_sent e now p vnet r m s s' :
  NetDest.wf (WeightBased.m_destinations r) →
  send_to e now p vnet r m s = Ok s' →
  frame s s' ∧ same_owners s s' ∧
  (inv [Message.msg_ref m] s → inv [] s' ∧ ∀ ty num,
     carried [] s' ty num = carried [Message.msg_ref m] s ty num -
       addressed (messages s) ty num (Message.msg_ref m) +
       if has ty num (WeightBased.m_destinations r) then 1 else 0).
Proof.
  intros Hr Hs. unfold send_to in Hs. step_bind Hs as [o b] _. step_bind Hs as x Hx%determinate_Ok.
  apply enqueue_put in Hs as Hp. split_and!.
  - etrans; [|by destruct Hp]. by apply frame_same.
  - intros b' c v Hb. eapply put_owners; [done|]. exact Hb.
  - intros Hi. split.
    + eapply put_inv; [|done]. by apply relabel_inv.
    + intros ty num. rewrite (put_carried _ _ _ _ _ _ _ Hp). by rewrite relabel_carried.
Qed.

Lemma send_copies_sent e now p vnet m0 x0 links s s' :
  NetDest.wf (nm_destination x0) →
  Forall (λ r, NetDest.wf (WeightBased.m_destinations r)) links →
  send_copies e now p vnet m0 x0 links s = Ok s' →
  frame s s' ∧ same_owners s s' ∧
  (inv [] s → inv [] s' ∧ ∀ ty num,
     carried [] s' ty num = carried [] s ty num + parts_sum links ty num).
Proof.
  intros Hx Hl. revert s. induction Hl as [|r links Hr Hl IH]; intros s Hs; cbn [send_copies] in Hs.
  - injection Hs as <-. split_and!; [done|by intros b c v|]. intros Hi. split; [done|].
    intros ty num. unfold parts_sum. cbn. lia.
  - destruct (clone m0 x0 s) as [m s1] eqn:Ec. unfold clone in Ec. injection Ec as Em Es.
    step_bind Hs as s2 (F2 & O2 & I2)%send_to_sent; [|done]. apply IH in Hs as (F3 & O3 & I3).
    pose proof (is_fresh (dom (messages s))) as Hf. subst m s1. cbn [Message.msg_ref] in *.
    split_and!.
    + etrans; [|done]. etrans; [|done]. by apply frame_same.
    + intros b c v Hb. apply O3, O2. exact Hb.
    + intros Hi. destruct I2 as [I2 C2]; [by apply new_inv|]. destruct (I3 I2) as [I4 C3].
      split; [done|]. intros ty num. rewrite C3, C2, new_carried by done.
      unfold addressed. cbn [with_messages messages]. rewrite lookup_insert_eq.
      unfold parts_sum. rewrite sum_over_cons. lia.
Qed.

Lemma inv_entries s k sw :
  inv [] s → switches s !! k = Some sw →
  entries_wf (WeightBased.m_links (Switch.m_routing_unit sw)).
Proof.
  intros Hi Hk. pose proof (po_routes _ _ _ (in_ports _ _ Hi _ _ Hk)) as Hr.
  unfold routes in Hr. rewrite Forall_fmap in Hr. exact Hr.
Qed.

(** A message is dequeued from a buffer of switch [k] and counted. *)
Lemma dequeue_counted e now b k vnet s m s1 s2 :
  owned s b (PerfectSwitchOf k) vnet →
  dequeue e now b s = Ok (m, s1) →
  on_perfect k (λ p, l ← vupd (PerfectSwitch.m_pending_message_count p) vnet (λ n, Ok (n - 1));
                     Ok (pm_with_pending p l)) s1 = Ok s2 →
  frame s s2 ∧ same_owners s s2 ∧ messages s2 = messages s ∧
  (inv [] s → inv [Message.msg_ref m] s2 ∧
     ∀ ty num, carried [Message.msg_ref m] s2 ty num = carried [] s ty num).
Proof.
  intros Ho [Ht _]%dequeue_took Hc.
  apply (on_perfect_counted k vnet (-1)) in Hc as [F B M P]; [|intros n; f_equal; lia].
  split_and!.
  - etrans; [by destruct Ht|done].
  - intros b' c v Hb. apply (same_owners_buffers _ _ B). by eapply took_owners.
  - rewrite M. apply Ht.
  - intros Hi. split.
    + eapply took_inv; [done..|]. intros k' v. rewrite P.
      destruct (decide (k' = k ∧ v = vnet)) as [[-> ->]|Hne]; [by rewrite decide_True|].
      rewrite decide_False; [done|]. intros [[= ->] ->]. by apply Hne.
    + intros ty num. rewrite <- (took_carried [] _ _ _ _ ty num Ht).
      unfold carried. by rewrite M, B.
Qed.

Lemma forward_message_kept e k vnet b now s r s' :
  inv [] s → owned s b (PerfectSwitchOf k) vnet →
  forward_message e k vnet b now s = Ok (r, s') → kept s s'.
Proof.
  intros Hi Ho Hs. unfold forward_message in Hs. step_bind Hs as n Hn.
  step_bind Hs as m Hm%determinate_Ok. step_bind Hs as x Hx%determinate_Ok.
  step_bind Hs as ordered _. step_bind Hs as [out s1] (Q1 & sw & Hk & Hf)%route_quiet.
  step_bind Hs as sw' _. step_bind Hs as [enough s2] Q2%enough_slots_quiet.
  assert (quiet s s2) as Q by (by etrans). clear Q2.
  destruct enough; cbn [negb] in Hs.
  2:{ step_bind Hs as s3 H3. injection Hs as _ <-. etrans; [by apply quiet_kept|].
      apply quiet_kept. eapply schedule_quiet. exact H3. }
  step_bind Hs as [m' s3] Hd. step_bind Hs as s4 Hc. step_bind Hs as s5 H5. injection Hs as _ <-.
  assert (inv [] s2) as Hi2 by (by eapply inv_quiet).
  assert (owned s2 b (PerfectSwitchOf k) vnet) as Ho2
    by (by apply (same_owners_buffers s s2); [apply Q|]).
  destruct (dequeue_took _ _ _ _ _ _ Hd) as [Ht (n2 & m0 & Hn2 & Hm0 & Er)].
  assert (Message.msg_ref m' = Message.msg_ref m) as Em.
  { rewrite Er. apply get_buffer_view in Hn, Hn2. rewrite (qu_buffers _ _ Q), Hn in Hn2.
    injection Hn2 as _ _ _ Hr. unfold BufferFacts.refs in Hr.
    destruct (MessageBuffer.m_prio_heap (nb_buffer n)) as [|y ys],
      (MessageBuffer.m_prio_heap (nb_buffer n2)) as [|z zs]; try done.
    cbn in *. congruence. }
  destruct (in_stored _ _ Hi2 (Message.msg_ref m')) as (x' & Hx' & Hw).
  { cbn. rewrite (took_held _ _ _ _ Ht). left. }
  rewrite (qu_messages _ _ Q), Em, Hx in Hx'. injection Hx' as <-.
  destruct (frame_switch_back _ _ _ _ (qu_frame _ _ Q1) Hk) as (sw0 & Hk0 & _).
  assert (entries_wf (WeightBased.m_links (Switch.m_routing_unit sw))) as He.
  { eapply inv_entries; [|exact Hk]. by eapply inv_quiet. }
  pose proof (so_wf _ _ _ (findRoute_split _ _ _ Hw He Hf)) as Hwf.
  destruct (dequeue_counted _ _ _ _ _ _ _ _ _ Ho2 Hd Hc) as (F4 & O4 & M4 & I4).
  destruct (I4 Hi2) as [Hi4 C4].
  assert (frame s4 s5 ∧ same_owners s4 s5 ∧ inv [] s5 ∧ ∀ ty num,
    carried [] s5 ty num = carried [Message.msg_ref m'] s4 ty num -
      addressed (messages s4) ty num (Message.msg_ref m') + parts_sum out ty num)
    as (F5 & O5 & Hi5 & C5).
  { destruct out as [|ri links]; [injection H5 as <-|].
    - split_and!; [done|by intros b' c v|by eapply drop_inv|]. intros ty num.
      rewrite drop_carried. unfold parts_sum. cbn. lia.
    - apply Forall_cons in Hwf as [Hwr Hwl]. step_bind H5 as s6 (F6 & O6 & I6)%send_to_sent; [|done].
      destruct (I6 Hi4) as [Hi6 C6]. apply send_copies_sent in H5 as (F7 & O7 & I7); [|done..].
      destruct (I7 Hi6) as [Hi7 C7]. split_and!; [by etrans|by intros b' c v Hb; apply O7, O6|done|].
      intros ty num. rewrite C7, C6. unfold parts_sum. rewrite sum_over_cons. lia. }
  split.
  - etrans; [by apply Q|]. by etrans.
  - intros b' c v Hb. apply O5, O4. by apply (same_owners_buffers s s2); [apply Q|].
  - intros _. split; [done|]. intros ty num. rewrite C5, C4, (carried_quiet _ _ _ _ _ Q).
    unfold parts_sum. rewrite (parts_add_up _ _ _ ty num Hw He Hf).
    unfold addressed. rewrite M4, (qu_messages _ _ Q), Em, Hx. lia.
Qed.

Lemma operate_loop_kept fuel e k vnet b now s s' :
  inv [] s → owned s b (PerfectSwitchOf k) vnet →
  operate_loop fuel e k vnet b now s = Some (Ok s') → kept s s'.
Proof.
  revert s. induction fuel as [|fuel IH]; intros s Hi Ho Hs; cbn [operate_loop] in Hs; [done|].
  step_bind Hs as [ready s1] Q1%isReady_quiet%quiet_kept.
  destruct ready; [|by injection Hs as <-].
  step_bind Hs as [go_on s2] Hf. apply forward_message_kept in Hf; [|by apply Q1..].
  etrans; [exact Q1|]. destruct go_on; [|by injection Hs as <-].
  etrans; [exact Hf|]. apply IH in Hs; [done|by apply Hf, Q1|by apply Hf, Q1].
Qed.

Lemma operate_group_kept e k vnet ins s s' :
  inv [] s → (∀ b, b ∈ ins → owned s b (PerfectSwitchOf k) vnet) →
  operate_group e k vnet ins s = Ok s' → kept s s'.
Proof.
  intros Hi Ho Hs. unfold operate_group in Hs. step_bind Hs as start _.
  revert Hs. apply for_range_kept. intros i t t' _ Ht Hf. step_bind Hf as b Hb%vget_Ok.
  unfold operateMessageBuffer in Hf. step_bind Hf as now _. step_bind Hf as n _.
  apply settled_Ok, operate_loop_kept in Hf; [done|by apply Ht|]. apply Ht, Ho.
  apply zlookup_Some in Hb as [_ Hb]. by eapply list_elem_of_lookup_2.
Qed.

Lemma operateVnet_kept e k vnet s s' :
  inv [] s → operateVnet e k vnet s = Ok s' → kept s s'.
Proof.
  intros Hi Hs. unfold operateVnet in Hs. step_bind Hs as sw Hk%get_switch_Ok.
  step_bind Hs as pending _. destruct (pending =? 0); [by injection Hs as <-|].
  step_bind Hs as groups Hg%vget_Ok.
  pose proof (λ g b, po_groups _ _ _ (in_ports _ _ Hi _ _ Hk) vnet groups g b Hg) as Ho.
  clear Hg. assert (∃ s0, kept s s0 ∧ foldl (λ acc ins, s ← acc; operate_group e k vnet ins s)
    (Ok s0) groups = Ok s') as (s0 & Hk0 & Hs0) by (by exists s). clear Hs.
  revert s0 Hk0 Hs0. induction groups as [|g groups IH]; intros s0 Hk0 Hs0; [by injection Hs0 as <-|].
  cbn [foldl rbind] in Hs0. destruct (operate_group e k vnet g s0) as [s1|er] eqn:E.
  - apply (IH (λ g' b Hg', Ho g' b (proj2 (elem_of_cons _ _ _) (or_intror Hg'))) s1); [|done].
    etrans; [exact Hk0|]. eapply operate_group_kept; [by apply Hk0| |exact E].
    intros b Hb. apply Hk0. apply (Ho g b); [left|done].
  - exfalso. clear -Hs0. induction groups; [done|]. by apply IHgroups.
Qed.

Lemma perfect_wakeup_kept e k s s' :
  inv [] s → perfect_wakeup e k s = Ok s' → kept s s'.
Proof.
  intros Hi Hs. unfold perfect_wakeup in Hs. step_bind Hs as sw _. step_bind Hs as s1 H1.
  apply on_perfect_quiet, quiet_kept in H1; [|by intros p p' [= <-]].
  etrans; [exact H1|]. revert Hs. apply for_range_kept. intros i t t' _ Ht Hv.
  eapply operateVnet_kept; [|exact Hv]. by apply Ht, H1.
Qed.

End conservation.
