(* ===== verification/SimpleGroups.v ===== *)
(** * The priority groups of a switch

    [updatePriorityGroups] keeps the incoming buffers of a virtual network sorted by
    routing priority, and splits them into groups. *)

From S2P Require Import Prelude.
From S2P Require Import SimpleSwitch.

(** ** Sorting *)

Lemma insert_prio_perm prio b l : insert_prio prio b l ≡ₚ b :: l.
Proof.
  induction l as [|x l IH]; cbn; [done|]. destruct (prio x <=? prio b); [|done].
  rewrite IH. constructor.
Qed.

Lemma foldl_insert_perm prio acc l :
  foldl (λ acc b, insert_prio prio b acc) acc l ≡ₚ acc ++ l.
Proof.
  revert acc. induction l as [|x l IH]; intros acc; cbn; [by rewrite app_nil_r|].
  rewrite IH, insert_prio_perm. cbn. by rewrite <- Permutation_middle.
Qed.

Lemma sort_prio_perm prio l : sort_prio prio l ≡ₚ l.
Proof. unfold sort_prio. by rewrite foldl_insert_perm. Qed.

Definition by_prio (prio : Z → Z) (a b : Z) : Prop := prio a ≤ prio b.

Lemma insert_prio_sorted prio b l :
  StronglySorted (by_prio prio) l → StronglySorted (by_prio prio) (insert_prio prio b l).
Proof.
  induction 1 as [|x l Hs IH Hall]; cbn; [by repeat constructor|].
  destruct (Z.leb_spec (prio x) (prio b)).
  - constructor; [done|]. rewrite insert_prio_perm. by constructor.
  - constructor; [by constructor|]. constructor; [unfold by_prio; lia|].
    eapply Forall_impl; [exact Hall|]. unfold by_prio. lia.
Qed.

Lemma sort_prio_sorted prio l : StronglySorted (by_prio prio) (sort_prio prio l).
Proof.
  unfold sort_prio. assert (StronglySorted (by_prio prio) []) as H by constructor.
  revert H. generalize ([] : list Z) as acc. induction l as [|x l IH]; intros acc Ha; cbn; [done|].
  by apply IH, insert_prio_sorted.
Qed.

(** ** Grouping *)

Lemma group_from_concat prio cur l groups back :
  concat (group_from prio cur l groups back) = concat groups ++ back ++ l.
Proof.
  revert groups back. induction l as [|b l IH]; intros groups back; cbn.
  - by rewrite concat_app.
  - destruct (negb _); rewrite IH; [|by rewrite <- app_assoc].
    rewrite concat_app. cbn. by rewrite app_nil_r, <- app_assoc.
Qed.

Lemma group_by_priority_concat prio l : concat (group_by_priority prio l) = l.
Proof. destruct l as [|b l]; [done|]. unfold group_by_priority. by rewrite group_from_concat. Qed.

(** The buffers after those of the first priority: each is a group. *)
Lemma group_from_others prio cur l groups back :
  Forall (λ b, prio b ≠ cur) l →
  group_from prio cur l groups back = groups ++ back :: ((λ b, [b]) <$> l).
Proof.
  intros Hl. revert groups back. induction Hl as [|b l Hb Hl IH]; intros groups back; cbn; [done|].
  destruct (Z.eqb_spec (prio b) cur); [done|]. cbn. by rewrite IH, <- app_assoc.
Qed.

Lemma group_from_sorted prio cur l back :
  StronglySorted (by_prio prio) l → Forall (λ b, cur ≤ prio b) l →
  group_from prio cur l [] back =
    (back ++ filter (λ b, prio b = cur) l) :: ((λ b, [b]) <$> filter (λ b, prio b ≠ cur) l).
Proof.
  intros Hs. revert back. induction Hs as [|b l Hs IH Hall]; intros back Hcur; cbn [group_from].
  - by rewrite app_nil_r.
  - apply Forall_cons in Hcur as [Hb Hcur]. rewrite !filter_cons.
    destruct (Z.eqb_spec (prio b) cur) as [E|E]; cbn [negb].
    + rewrite decide_True, decide_False by (done || by intros []). by rewrite IH, <- app_assoc.
    + assert (Forall (λ b, prio b ≠ cur) (b :: l)) as Hne.
      { constructor; [done|]. eapply Forall_impl; [exact Hall|]. unfold by_prio. lia. }
      apply Forall_cons in Hne as [_ Hne].
      rewrite decide_False, decide_True by done. rewrite group_from_others by done.
      assert (filter (λ b, prio b = cur) l = []) as ->.
      { clear -Hne. induction Hne; [done|]. rewrite filter_cons. by rewrite decide_False. }
      assert (filter (λ b, prio b ≠ cur) l = l) as ->.
      { clear -Hne. induction Hne; [done|]. rewrite filter_cons. rewrite decide_True by done. by f_equal. }
      by rewrite app_nil_r.
Qed.

(** ** Vectors that are extended *)

Lemma zlookup_extend {A} i (v : list (list A)) j l :
  zlookup (extend_to i v) j = Some l → zlookup v j = Some l ∨ l = [].
Proof.
  rewrite !zlookup_Some. intros [Hj Hl]. unfold extend_to in Hl.
  apply lookup_app_Some in Hl as [?|[_ [-> _]%lookup_replicate]]; [by left|by right].
Qed.

Lemma extend_to_keeps {A} i (v : list (list A)) j l :
  zlookup v j = Some l → zlookup (extend_to i v) j = Some l.
Proof.
  rewrite !zlookup_Some. intros [Hj Hl]. split; [done|]. unfold extend_to.
  by apply lookup_app_l_Some.
Qed.

Lemma extend_to_zlen {A} i (v : list (list A)) : 0 ≤ i → i < zlen (extend_to i v).
Proof.
  intros Hi. unfold extend_to. rewrite zlen_app. unfold zlen. rewrite length_replicate. lia.
Qed.

(** ** [updatePriorityGroups] *)

(** The buffers of virtual network [vnet] so far. *)
Definition prio_ports (p : PerfectSwitch.t) (vnet : Z) : list Z :=
  look [] id (PerfectSwitch.m_in_prio p) vnet.

Definition prio_groups (p : PerfectSwitch.t) (vnet : Z) : list (list Z) :=
  look [] id (PerfectSwitch.m_in_prio_groups p) vnet.

Lemma updatePriorityGroups_Ok s vnet b p p' :
  updatePriorityGroups s vnet b p = Ok p' →
  let sorted := sort_prio (priority_of s) (prio_ports p vnet ++ [b]) in
  ∃ prio groups,
    p' = pm_with_ports p (PerfectSwitch.m_in p) (PerfectSwitch.m_out p) prio groups ∧
    replaced (extend_to vnet (PerfectSwitch.m_in_prio p)) vnet sorted prio ∧
    replaced (extend_to vnet (PerfectSwitch.m_in_prio_groups p)) vnet
      (group_by_priority (priority_of s) sorted) groups.
Proof.
  intros Hs. unfold updatePriorityGroups in Hs. step_bind Hs as prio Hp. step_bind Hs as l Hl.
  step_bind Hs as groups Hg. injection Hs as <-. unfold vupd in Hp. step_bind Hp as l0 Hl0%vget_Ok.
  step_bind Hp as l1 Hl1. injection Hl1 as <-. apply vset_replaced in Hp, Hg.
  apply vget_Ok in Hl. rewrite (replaced_eq _ _ _ _ Hp) in Hl. injection Hl as <-.
  assert (l0 = prio_ports p vnet) as ->; [|by exists prio, groups].
  unfold prio_ports, look. destruct (zlookup (PerfectSwitch.m_in_prio p) vnet) as [l1|] eqn:E.
  - rewrite (extend_to_keeps _ _ _ _ E) in Hl0. by injection Hl0 as <-.
  - apply zlookup_extend in Hl0 as [Hl0| ->]; [congruence|done].
Qed.

(** The groups [updatePriorityGroups] makes.  Whatever the buffers a switch already has
    for a virtual network, after a buffer is added its buffers are those and the new one, in
    the order of their priority, and the groups are a division of that list into pieces.
    But only the buffers of the first priority share a group: every other buffer is a group
    by itself, also when others have its priority, because the priority that the loop
    compares with is never updated. *)
Theorem priority_groups s vnet b p p' :
  updatePriorityGroups s vnet b p = Ok p' →
  let prio := priority_of s in
  let ports := prio_ports p' vnet in
  ports ≡ₚ prio_ports p vnet ++ [b] ∧
  StronglySorted (by_prio prio) ports ∧
  concat (prio_groups p' vnet) = ports ∧
  ∃ first rest,
    ports = first :: rest ∧
    prio_groups p' vnet =
      filter (λ x, prio x = prio first) ports ::
      ((λ x, [x]) <$> filter (λ x, prio x ≠ prio first) ports).
Proof.
  intros (prio & groups & -> & Hp & Hg)%updatePriorityGroups_Ok. cbn zeta.
  assert (prio_ports (pm_with_ports p (PerfectSwitch.m_in p) (PerfectSwitch.m_out p) prio groups)
            vnet = sort_prio (priority_of s) (prio_ports p vnet ++ [b])) as ->.
  { unfold prio_ports at 1. cbn. by rewrite (look_Some _ _ _ _ _ (replaced_eq _ _ _ _ Hp)). }
  assert (prio_groups (pm_with_ports p (PerfectSwitch.m_in p) (PerfectSwitch.m_out p) prio groups)
            vnet = group_by_priority (priority_of s)
                     (sort_prio (priority_of s) (prio_ports p vnet ++ [b]))) as ->.
  { unfold prio_groups. cbn. by rewrite (look_Some _ _ _ _ _ (replaced_eq _ _ _ _ Hg)). }
  pose proof (sort_prio_perm (priority_of s) (prio_ports p vnet ++ [b])) as Hperm.
  pose proof (sort_prio_sorted (priority_of s) (prio_ports p vnet ++ [b])) as Hsort.
  destruct (sort_prio _ _) as [|x l] eqn:E.
  { apply Permutation_nil_l in Hperm. by destruct (prio_ports p vnet). }
  split_and!; [done|done|apply group_by_priority_concat|].
  exists x, l. split; [done|]. unfold group_by_priority.
  rewrite group_from_sorted; [done|done|].
  apply StronglySorted_inv in Hsort as [_ Hall]. constructor; [done|].
  eapply Forall_impl; [exact Hall|done].
Qed.
