(* ===== verification/SimpleRuns.v ===== *)
(** * Runs of the simple network

    What can happen to a simple network: the topology makes its links, controllers put
    messages into it and take them out, switches and throttles wake up, in any order.  No
    copy of a message is lost or made up in any run. *)

From S2P Require Import Prelude.
From S2P Require Import NetDest.
From S2P Require Import Clocking.
From S2P Require Import MessageBuffer.
From S2P Require Import Network.
From S2P Require Import SimpleSwitch.
From S2P Require Import SimpleNetwork.
From S2P Require Import SimpleRouting.
From S2P Require Import SimpleGroups.
From S2P Require Import SimpleFrame.
From S2P Require Import SimpleInvariant.
From S2P Require Import SimpleConservation.

Section runs.
  Context `{MachineTypeLaws}.

(** ** Construction *)

(** The links of switch [k] change, nothing else. *)
Lemma inv_switch l s k sw sw' :
  inv l s → switches s !! k = Some sw → ports_ok s k sw' →
  PerfectSwitch.m_pending_message_count (Switch.perfectSwitch sw') =
    PerfectSwitch.m_pending_message_count (Switch.perfectSwitch sw) →
  inv l (put_switch s k sw').
Proof.
  intros [I1 I2 I3 I4 I5] Hk Hp Hc. split; [done|done| | |done].
  - intros k' v n. rewrite pend_put_switch. case_decide as E; [|apply I3]. subst k'.
    rewrite Hc. intros Hn. apply (I3 k v). unfold pend. rewrite Hk. exact Hn.
  - intros k' sw1. cbn. destruct (decide (k' = k)) as [->|Hne].
    + rewrite lookup_insert_eq. intros [= <-]. apply (ports_frame s _ k sw' sw'); [by intros b c v|done|done].
    + rewrite lookup_insert_ne by done. intros Hk'. apply (ports_frame s _ k' sw1 sw1); [by intros b c v|done|].
      by apply I4.
Qed.

(** A buffer without consumer gets one. *)
Lemma inv_connect l s s' b on v v' c h :
  inv l s → zlookup (bviews s) b = Some (mkBview None on v h) →
  bviews s' = <[Z.to_nat b := mkBview (Some c) true v' h]> (bviews s) →
  switches s' = switches s → net_base s' = net_base s → messages s' = messages s →
  inv l s' ∧ same_owners s s' ∧ owned s' b c v'.
Proof.
  intros [I1 I2 I3 I4 I5] Hb Hs Hsw Hn Hm.
  destruct (I5 _ _ Hb) as [Hon He]. cbn in Hon, He.
  assert (h = []) as ->.
  { apply He. destruct on; [|done]. by destruct (proj1 Hon eq_refl). }
  apply zlookup_lt in Hb as Hlt.
  assert (held (bviews s') ≡ₚ held (bviews s)) as Hh.
  { pose proof (held_insert (bviews s) b _ (mkBview (Some c) true v' []) Hb) as Hp. cbn in Hp.
    by rewrite Hs. }
  assert (same_owners s s') as Ho.
  { intros b' c' w (on' & h' & Hb'). unfold owned. rewrite Hs, zlookup_insert by done.
    case_decide as E; [|by exists on', h']. subst b'. rewrite Hb in Hb'. by simplify_eq. }
  split_and!; [|done|exists true, []; by rewrite Hs, zlookup_insert_eq].
  split.
  - cbn. by rewrite Hh.
  - intros r. cbn. rewrite Hh, Hm. apply I2.
  - intros k w n. unfold pend. rewrite Hsw. intros Hp%I3. rewrite Hp. symmetry.
    unfold waiting. rewrite Hs. apply zlookup_Some in Hb as [_ Hb].
    rewrite (sum_over_insert _ _ _ _ _ Hb). cbn [bv_refs]. change (zlen []) with 0.
    repeat case_decide; lia.
  - apply (ports_all s s'); [done|by apply frame_same|done].
  - eapply connected_insert; [done|done|done| |]; cbn; [|done]. split; [by eexists|done].
Qed.

Lemma setConsumer_Ok b c s s' :
  inv [] s → setConsumer b c s = Ok s' →
  ∃ on v h, zlookup (bviews s) b = Some (mkBview None on v h) ∧
    bviews s' = <[Z.to_nat b := mkBview (Some c) true v h]> (bviews s) ∧
    switches s' = switches s ∧ net_base s' = net_base s ∧ messages s' = messages s.
Proof.
  intros Hi Hs. unfold setConsumer in Hs. step_bind Hs as l Hl. injection Hs as <-.
  unfold vupd in Hl. step_bind Hl as n Hn. step_bind Hl as n' Hn'. step_bind Hn' as mb Hmb.
  injection Hn' as <-. apply vset_Ok in Hl as [_ ->].
  unfold MessageBuffer.setConsumer in Hmb. step_bind Hmb as [] Hc%fatal_if_Ok. injection Hmb as <-.
  pose proof (get_buffer_view s b n Hn) as Hb. unfold view_of in Hb.
  destruct (in_connected _ _ Hi _ _ Hb) as [Hon _]. cbn in Hon. rewrite Hc in Hon.
  exists false, (m_vnet_id n), (BufferFacts.refs (nb_buffer n)). split_and!; [|  |done..].
  - rewrite Hb, Hc. f_equal. f_equal. destruct (nb_consumer n) as [c'|]; [|done].
    by specialize (proj2 Hon (ex_intro _ c' eq_refl)).
  - unfold bviews. cbn [with_buffers buffers]. by rewrite list_fmap_insert.
Qed.

Lemma set_link_and_vnet_Ok b port net s s' bv :
  zlookup (bviews s) b = Some bv → set_link_and_vnet b port net s = Ok s' →
  bviews s' = <[Z.to_nat b := mkBview (bv_consumer bv) (bv_connected bv) net (bv_refs bv)]>
                (bviews s) ∧
  switches s' = switches s ∧ net_base s' = net_base s ∧ messages s' = messages s.
Proof.
  intros Hb Hs. unfold set_link_and_vnet in Hs. step_bind Hs as l Hl. injection Hs as <-.
  unfold vupd in Hl. step_bind Hl as n Hn. step_bind Hl as n' Hn'. injection Hn' as <-.
  apply vset_Ok in Hl as [_ ->]. apply (get_buffer_view s b n) in Hn. rewrite Hb in Hn.
  injection Hn as ->. split_and!; [|done..].
  unfold bviews. cbn [with_buffers buffers]. by rewrite list_fmap_insert.
Qed.

(** What the construction keeps. *)
Record built (s s' : snet) : Prop := {
  bu_inv : inv [] s';
  bu_owners : same_owners s s';
  bu_carried ty num : carried [] s' ty num = carried [] s ty num;
}.

Lemma built_refl s : inv [] s → built s s.
Proof. intros Hi. by split; [|intros b c v|]. Qed.

Lemma built_trans s1 s2 s3 : built s1 s2 → built s2 s3 → built s1 s3.
Proof.
  intros [I1 O1 C1] [I2 O2 C2]. split; [done| |].
  - intros b c v Hb. by apply O2, O1.
  - intros ty num. by rewrite C2.
Qed.

Lemma carried_connect s s' b on v v' c h ty num :
  zlookup (bviews s) b = Some (mkBview None on v h) →
  bviews s' = <[Z.to_nat b := mkBview (Some c) true v' h]> (bviews s) →
  messages s' = messages s → carried [] s' ty num = carried [] s ty num.
Proof.
  intros Hb Hs Hm. unfold carried. rewrite Hm. apply sum_over_perm.
  apply (Permutation_app_inv_l h). rewrite Hs.
  exact (held_insert (bviews s) b _ (mkBview (Some c) true v' h) Hb).
Qed.

Lemma connect_built s s' b on v v' c h :
  inv [] s → zlookup (bviews s) b = Some (mkBview None on v h) →
  bviews s' = <[Z.to_nat b := mkBview (Some c) true v' h]> (bviews s) →
  switches s' = switches s → net_base s' = net_base s → messages s' = messages s →
  built s s' ∧ owned s' b c v'.
Proof.
  intros Hi Hb Hs Hsw Hn Hm.
  destruct (inv_connect [] s s' b on v v' c h Hi Hb Hs Hsw Hn Hm) as (Hi' & Ho & Hw).
  split; [|done]. split; [done|done|].
  intros ty num. by eapply carried_connect.
Qed.

(** Switch [k] gets links. *)
Lemma switch_built s k sw sw' :
  inv [] s → switches s !! k = Some sw → ports_ok s k sw' →
  PerfectSwitch.m_pending_message_count (Switch.perfectSwitch sw') =
    PerfectSwitch.m_pending_message_count (Switch.perfectSwitch sw) →
  built s (put_switch s k sw').
Proof. intros Hi Hk Hp Hc. split; [by eapply inv_switch|by intros b c v|done]. Qed.

(** *** Incoming ports *)

Lemma updatePriorityGroups_built s k i b s' :
  inv [] s → owned s b (PerfectSwitchOf k) i →
  on_perfect k (updatePriorityGroups s i b) s = Ok s' → built s s'.
Proof.
  intros Hi Ho Hs. unfold on_perfect in Hs. step_bind Hs as sw Hk%get_switch_Ok.
  step_bind Hs as p (prio & groups & -> & Hp & Hg)%updatePriorityGroups_Ok. injection Hs as <-.
  destruct (in_ports _ _ Hi _ _ Hk) as [P1 P2 P3 P4].
  set (sorted := sort_prio _ _) in *.
  assert (∀ x, x ∈ sorted → owned s x (PerfectSwitchOf k) i) as Hsorted.
  { intros x. unfold sorted. rewrite sort_prio_perm. intros [Hx| ->%list_elem_of_singleton]%elem_of_app;
      [|done].
    unfold prio_ports, look in Hx. destruct (zlookup _ i) as [l|] eqn:E; [|by apply elem_of_nil in Hx].
    by eapply P1. }
  eapply switch_built; [done|done| |done]. split.
  - intros v l x Hl Hx. cbn in Hl. rewrite Hp in Hl. case_decide as E.
    + injection Hl as <-. subst v. by apply Hsorted.
    + apply zlookup_extend in Hl as [Hl| ->]; [by eapply P1|by apply elem_of_nil in Hx].
  - intros v gs g x Hl Hgs Hx. cbn in Hl. rewrite Hg in Hl. case_decide as E.
    + injection Hl as <-. subst v. apply Hsorted.
      rewrite <- (group_by_priority_concat (priority_of s) sorted). apply list_elem_of_In, in_concat.
      exists g. by rewrite <- !list_elem_of_In.
    + apply zlookup_extend in Hl as [Hl| ->]; [by eapply P2|by apply elem_of_nil in Hgs].
  - exact P3.
  - exact P4.
Qed.

Lemma addInPort_from_built k port i ins s s' :
  inv [] s → addInPort_from k port i ins s = Ok s' → built s s'.
Proof.
  revert i s. induction ins as [|[b|] ins IH]; intros i s Hi Hs; cbn [addInPort_from] in Hs.
  - injection Hs as <-. by apply built_refl.
  - step_bind Hs as s1 (on & v & h & Hb & B1 & S1 & N1 & M1)%setConsumer_Ok; [|done].
    step_bind Hs as s2 H2.
    assert (zlookup (bviews s1) b = Some (mkBview (Some (PerfectSwitchOf k)) true v h)) as Hb1.
    { rewrite B1, zlookup_insert_eq; [done|]. by eapply zlookup_lt. }
    apply (set_link_and_vnet_Ok _ _ _ _ _ _ Hb1) in H2 as (B2 & S2 & N2 & M2). cbn in B2.
    rewrite B1, list_insert_insert_eq in B2.
    destruct (connect_built s s2 b on v i (PerfectSwitchOf k) h) as [Hbu Ho]; [done|done|done|congruence..|].
    step_bind Hs as s3 H3. apply updatePriorityGroups_built in H3; [|by destruct Hbu|done].
    apply IH in Hs; [|by destruct H3]. eapply built_trans; [done|]. by eapply built_trans.
  - by eapply IH.
Qed.

Lemma addInPort_built k ins s s' : inv [] s → addInPort k ins s = Ok s' → built s s'.
Proof.
  intros Hi Hs. unfold addInPort in Hs. step_bind Hs as sw Hk. step_bind Hs as s1 H1.
  assert (built s s1) as Hb.
  { unfold on_perfect in H1. rewrite Hk in H1. injection H1 as <-. apply get_switch_Ok in Hk.
    eapply switch_built; [done|done| |done].
    by destruct (in_ports _ _ Hi _ _ Hk) as [P1 P2 P3 P4]. }
  apply addInPort_from_built in Hs; [|by destruct Hb]. by eapply built_trans.
Qed.

(** *** Outgoing ports *)

Lemma take_port_buffers_Ok n sw bs sw' :
  take_port_buffers n sw = Ok (bs, sw') →
  Switch.perfectSwitch sw' = Switch.perfectSwitch sw ∧
  Switch.throttles sw' = Switch.throttles sw ∧
  Switch.m_routing_unit sw' = Switch.m_routing_unit sw.
Proof.
  revert sw bs sw'. induction n as [|n IH]; intros sw bs sw' Hs; cbn [take_port_buffers] in Hs.
  - by injection Hs as _ <-.
  - step_bind Hs as [] _. step_bind Hs as b _. step_bind Hs as [bs' sw1] Hsw. injection Hs as _ <-.
    by apply IH in Hsw.
Qed.

(** The links of a throttle belong to it. *)
Lemma addLinks_from_built k j vnet ins outs s t s' t' :
  inv [] s → (∀ v b, zlookup (Throttle.m_in t) v = Some b → ∃ w, owned s b (ThrottleOf k j) w) →
  addLinks_from k j vnet ins outs s t = Ok (s', t') →
  built s s' ∧ switches s' = switches s ∧
  (∀ v b, zlookup (Throttle.m_in t') v = Some b → ∃ w, owned s' b (ThrottleOf k j) w) ∧
  (length ins = length outs → ∀ b, b ∈ ins → ∃ w, owned s' b (ThrottleOf k j) w).
Proof.
  revert vnet outs s t. induction ins as [|b ins IH]; intros vnet outs s t Hi Ht Hs;
    cbn [addLinks_from] in Hs.
  { injection Hs as <- <-. split_and!; [by apply built_refl|done|done|].
    intros _ b Hb. by apply elem_of_nil in Hb. }
  destruct outs as [|o outs].
  { injection Hs as <- <-. split_and!; [by apply built_refl|done|done|done]. }
  step_bind Hs as n _.
  step_bind Hs as s1 (on & v & h & Hb & B1 & S1 & N1 & M1)%setConsumer_Ok; [|done].
  destruct (connect_built s s1 b on v v (ThrottleOf k j) h) as [Hbu Ho]; [done..|].
  apply IH in Hs as (Hbu' & S' & Ht' & Hall); [|by destruct Hbu|].
  - split_and!; [by eapply built_trans|congruence|done|].
    intros [= Hlen] b' [->|Hb']%elem_of_cons; [exists v; by apply Hbu'|by apply Hall].
  - cbn. intros v' b' [Hv' Hl]%zlookup_Some. apply lookup_snoc_Some in Hl as [[_ Hl]|[_ <-]].
    + destruct (Ht v' b') as [w Hw]; [by apply zlookup_Some|]. exists w. by apply Hbu.
    + by exists v.
Qed.

Lemma perfect_addOutPort_built k out entry lat weight s s' :
  inv [] s → NetDest.wf entry → perfect_addOutPort k out entry lat weight s = Ok s' →
  built s s' ∧ ∃ sw sw', switches s !! k = Some sw ∧ switches s' = <[k := sw']> (switches s) ∧
    Switch.throttles sw' = Switch.throttles sw ∧
    PerfectSwitch.m_out (Switch.perfectSwitch sw') =
      PerfectSwitch.m_out (Switch.perfectSwitch sw) ++ [PerfectSwitch.mkOutputPort lat out].
Proof.
  intros Hi He Hs. unfold perfect_addOutPort in Hs. step_bind Hs as sw Hk%get_switch_Ok.
  step_bind Hs as r Hr. injection Hs as <-.
  destruct (in_ports _ _ Hi _ _ Hk) as [P1 P2 P3 P4]. split.
  - eapply switch_built; [done|done| |done]. split; [exact P1|exact P2|exact P3|].
    unfold WeightBased.addOutPort in Hr. step_bind Hr as [] _. injection Hr as <-.
    unfold routes. cbn. rewrite sortLinks_perm, fmap_app. apply Forall_app. split; [exact P4|].
    apply Forall_singleton. exact He.
  - by eexists _, _.
Qed.

(** The new port of switch [k]: up to the last step, which adds the throttle [th]. *)
Lemma addOutPort_Ok k out entry lat weight bw ext s s' :
  inv [] s → NetDest.wf entry →
  SimpleNetwork.addOutPort k out entry lat weight bw ext s = Ok s' →
  ∃ sw s1 sw1 th o,
    switches s !! k = Some sw ∧ built s s1 ∧ switches s1 = <[k := sw1]> (switches s) ∧
    s' = put_switch s1 k (with_throttles sw1 (Switch.throttles sw1 ++ [th])) ∧
    Switch.throttles sw1 = Switch.throttles sw ∧
    PerfectSwitch.m_out (Switch.perfectSwitch sw1) =
      PerfectSwitch.m_out (Switch.perfectSwitch sw) ++ [o] ∧
    let mine b := ∃ w, owned s1 b (ThrottleOf k (zlen (Switch.throttles sw))) w in
    (∀ v b, zlookup (Throttle.m_in th) v = Some b → mine b) ∧
    ∀ b, b ∈ PerfectSwitch.op_buffers o → mine b.
Proof.
  intros Hi He Hs. unfold SimpleNetwork.addOutPort in Hs. step_bind Hs as sw Hk%get_switch_Ok.
  step_bind Hs as th Hth.
  assert (Throttle.m_in th = []) as Hin.
  { destruct ((0 <? _) && _).
    - unfold make_physical_throttle in Hth. do 3 step_bind Hth as [] _. by injection Hth as <-.
    - unfold make_throttle in Hth. step_bind Hth as [] _. by injection Hth as <-. }
  clear Hth. step_bind Hs as [bufs sw1] (E1 & E2 & E3)%take_port_buffers_Ok.
  assert (built s (put_switch s k sw1)) as B0.
  { eapply switch_built; [done|done| |by rewrite E1].
    destruct (in_ports _ _ Hi _ _ Hk) as [P1 P2 P3 P4]. split; unfold routes; by rewrite ?E1, ?E2, ?E3. }
  step_bind Hs as s2 H2.
  apply perfect_addOutPort_built in H2 as (B2 & sw1' & sw2 & Hk1 & S2 & T2 & O2); [|by destruct B0|done].
  cbn in Hk1, S2. rewrite lookup_insert_eq in Hk1. injection Hk1 as <-. rewrite insert_insert_eq in S2.
  step_bind Hs as [s3 th3] H3. step_bind Hs as sw3 Hk3%get_switch_Ok. injection Hs as <-.
  unfold addLinks in H3. step_bind H3 as [] Hlen%assert_Ok. step_bind H3 as [s4 th4] H4.
  step_bind H3 as [] _. injection H3 as <- <-.
  apply addLinks_from_built in H4 as (B4 & S4 & Ht4 & Hall); [|by destruct B2|].
  2:{ intros v b [_ Hb]%zlookup_Some. by rewrite Hin in Hb. }
  rewrite S4, S2, lookup_insert_eq in Hk3. injection Hk3 as <-.
  eexists sw, s4, sw2, _, _. split; [done|].
  split; [eapply built_trans; [exact B0|]; by eapply built_trans|].
  split; [by rewrite S4, S2|]. split; [done|]. split; [by rewrite T2, E2|].
  split; [by rewrite O2, E1|]. cbn. split; [exact Ht4|]. apply Hall.
  apply Z.eqb_eq in Hlen. unfold zlen in Hlen. lia.
Qed.

Lemma addOutPort_built k out entry lat weight bw ext s s' :
  inv [] s → NetDest.wf entry →
  SimpleNetwork.addOutPort k out entry lat weight bw ext s = Ok s' → built s s'.
Proof.
  intros Hi He (sw & s1 & sw1 & th & o & _ & B & S1 & -> & T1 & _ & Hth & _)%addOutPort_Ok; [|done..].
  eapply built_trans; [exact B|].
  assert (switches s1 !! k = Some sw1) as Hk1 by (rewrite S1; apply lookup_insert_eq).
  eapply switch_built; [by destruct B|done| |done].
  destruct (in_ports _ _ (bu_inv _ _ B) _ _ Hk1) as [P1 P2 P3 P4]. split; [exact P1|exact P2| |exact P4].
  cbn. intros j t v b [Hj Hl]%zlookup_Some Hb. apply lookup_snoc_Some in Hl as [[_ Hl]|[Hl <-]].
  - apply (P3 j t v b); [by apply zlookup_Some|done].
  - destruct (Hth v b Hb) as [w Hw]. exists w.
    assert (j = zlen (Switch.throttles sw)) as ->; [|done]. unfold zlen. rewrite T1 in Hl. lia.
Qed.

(** *** The calls of the topology *)

(** Parts of the network the invariant does not speak of. *)
Lemma other_built s s' :
  inv [] s → switches s' = switches s → buffers s' = buffers s → messages s' = messages s →
  built s s'.
Proof.
  intros [I1 I2 I3 I4 I5] Hs Hb Hm.
  assert (bviews s' = bviews s) as Hv by (unfold bviews; by rewrite Hb).
  assert (same_owners s s') as Ho by (by apply same_owners_buffers).
  split; [split|done|intros ty num; unfold carried; by rewrite Hv, Hm].
  - by rewrite Hv.
  - by rewrite Hv, Hm.
  - intros k v n. unfold pend. rewrite Hs, Hv. apply I3.
  - intros k sw. rewrite Hs. intros Hk. by eapply ports_frame; [|done|apply I4].
  - by rewrite Hv.
Qed.

Lemma makeExtOutLink_built src dest link entries s s' :
  inv [] s → Forall NetDest.wf entries → makeExtOutLink src dest link entries s = Ok s' →
  built s s'.
Proof.
  intros Hi He Hs. unfold makeExtOutLink in Hs. step_bind Hs as l _. step_bind Hs as [] _.
  step_bind Hs as q _. step_bind Hs as [] _. step_bind Hs as qs _. step_bind Hs as entry Hen.
  apply vget_Ok, (Forall_zlookup _ _ _ _ He) in Hen.
  assert (built s (with_net_base s (with_fromNetQueues (net_base s) qs))) as B
    by (by apply other_built).
  eapply built_trans; [exact B|]. eapply addOutPort_built; [by destruct B|exact Hen|exact Hs].
Qed.

Lemma makeExtInLink_built src dest s s' :
  inv [] s → makeExtInLink src dest s = Ok s' → built s s'.
Proof.
  intros Hi Hs. unfold makeExtInLink in Hs. step_bind Hs as l _. step_bind Hs as q _.
  by eapply addInPort_built.
Qed.

Lemma makeInternalLink_built src dest link entries s s' :
  inv [] s → Forall NetDest.wf entries → makeInternalLink src dest link entries s = Ok s' →
  built s s'.
Proof.
  intros Hi He Hs. unfold makeInternalLink in Hs. step_bind Hs as s1 B1%addInPort_built; [|done].
  step_bind Hs as entry Hen. apply vget_Ok, (Forall_zlookup _ _ _ _ He) in Hen.
  step_bind Hs as s2 B2%addOutPort_built; [|by destruct B1|done]. injection Hs as <-.
  eapply built_trans; [exact B1|]. eapply built_trans; [exact B2|].
  apply other_built; [by destruct B2|done..].
Qed.

(** ** The network as it is created *)

(** A switch, and a buffer, before the topology is made.  The buffers to the controllers
    have them as consumers already. *)
Definition new_switch (sw : Switch.t) : Prop :=
  ∃ vnets int ext adaptive ports clk, sw = make_switch vnets int ext adaptive ports clk.

Definition new_buffer (n : NetBuffer) : Prop :=
  BufferFacts.refs (nb_buffer n) = [] ∧
  (MessageBuffer.has_consumer (nb_buffer n) = true ↔ is_Some (nb_consumer n)).

Lemma fold_routers P routers (m : gmap Z Switch.t) :
  (∀ k sw, m !! k = Some sw → P sw) → Forall (λ r, P r.2) routers →
  ∀ k sw, foldl (λ m r, <[r.1 := r.2]> m) m routers !! k = Some sw → P sw.
Proof.
  intros Hm Hr. revert m Hm. induction Hr as [|[k0 sw0] routers Hsw _ IH]; intros m Hm; cbn; [done|].
  apply IH. intros k sw. destruct (decide (k = k0)) as [->|Hne].
  - rewrite lookup_insert_eq. by intros [= <-].
  - rewrite lookup_insert_ne by done. apply Hm.
Qed.

Lemma made_inv net bw routers bufs ch bws vnets s :
  Forall (λ r, new_switch r.2) routers → Forall new_buffer bufs →
  SimpleNetwork.make net bw routers bufs ch bws vnets = Ok s →
  inv [] s ∧ ∀ ty num, carried [] s ty num = 0.
Proof.
  intros Hr Hb Hs. unfold SimpleNetwork.make in Hs. do 3 step_bind Hs as [] _. injection Hs as <-.
  set (m := foldl _ _ _).
  assert (∀ k sw, m !! k = Some sw → new_switch sw) as Hm.
  { by apply (fold_routers new_switch). }
  assert (∀ b bv, zlookup (view_of <$> bufs) b = Some bv →
    bv_refs bv = [] ∧ (bv_connected bv = true ↔ is_Some (bv_consumer bv))) as Hv.
  { intros b bv [_ Hl]%zlookup_Some. rewrite list_lookup_fmap in Hl.
    destruct (bufs !! Z.to_nat b) as [n|] eqn:E; [|done]. injection Hl as <-.
    exact (Forall_lookup_1 _ _ _ _ Hb E). }
  assert (held (view_of <$> bufs) = []) as Hh.
  { unfold held. clear -Hb. induction Hb as [|n bufs [Hn _] _ IH]; [done|]. cbn. by rewrite Hn. }
  split; [|intros ty num; unfold carried; unfold bviews; cbn [buffers]; by rewrite Hh].
  split; unfold bviews; cbn [buffers app]; rewrite ?Hh.
  - constructor.
  - intros r Hin. by apply elem_of_nil in Hin.
  - intros k v n Hp. unfold pend in Hp. cbn [switches] in Hp. destruct (m !! k) as [sw|] eqn:E; [|done].
    apply Hm in E as (vn & it & ex & ad & ports & clk & ->). cbn in Hp.
    apply zlookup_replicate in Hp as [-> _]. unfold waiting. symmetry. clear -Hb.
    induction Hb as [|nb bufs [Hn _] _ IH]; [done|]. rewrite fmap_cons, sum_over_cons, IH.
    cbn. rewrite Hn. by case_decide.
  - intros k sw Hk. cbn in Hk. apply Hm in Hk as (vn & it & ex & ad & ports & clk & ->).
    split; cbn; [intros v l b [_ Hl]%zlookup_Some; done|intros v gs g b [_ Hl]%zlookup_Some; done|
      intros j t v b [_ Hl]%zlookup_Some; done|constructor].
  - intros b bv Hl. destruct (Hv b bv Hl) as [Hn Hc]. by split.
Qed.

(** ** Runs *)

(** What happens to the network.  [sent] and [taken] are the messages put into it and taken
    out of it by controllers so far. *)
Inductive run : snet → list NetMsg → list NetMsg → Prop :=
| run_make net bw routers bufs ch bws vnets s :
    Forall (λ r, new_switch r.2) routers → Forall new_buffer bufs →
    SimpleNetwork.make net bw routers bufs ch bws vnets = Ok s → run s [] []
| run_queue s sent taken net :
    run s sent taken → run (with_net_base s net) sent taken
| run_ext_out s sent taken src dest link entries s' :
    run s sent taken → Forall NetDest.wf entries →
    makeExtOutLink src dest link entries s = Ok s' → run s' sent taken
| run_ext_in s sent taken src dest s' :
    run s sent taken → makeExtInLink src dest s = Ok s' → run s' sent taken
| run_internal s sent taken src dest link entries s' :
    run s sent taken → Forall NetDest.wf entries →
    makeInternalLink src dest link entries s = Ok s' → run s' sent taken
| run_send s sent taken e now b m x delta s' :
    run s sent taken → Message.msg_ref m ∉ dom (messages s) → NetDest.wf (nm_destination x) →
    enqueue e now b m delta
      (with_messages s (<[Message.msg_ref m := x]> (messages s))) = Ok s' →
    run s' (x :: sent) taken
| run_take s sent taken e now b i v m x s' :
    run s sent taken → owned s b (Controller i) v → dequeue e now b s = Ok (m, s') →
    messages s !! Message.msg_ref m = Some x → run s' sent (x :: taken)
| run_switch s sent taken e k s' :
    run s sent taken → perfect_wakeup e k s = Ok s' → run s' sent taken
| run_throttle s sent taken e k j s' :
    run s sent taken → throttle_wakeup e k j s = Ok s' → run s' sent taken.

(** The copies to machine [num] of type [ty] among the messages [l]. *)
Definition copies (l : list NetMsg) (ty num : Z) : Z :=
  sum_over (λ x, if has ty num (nm_destination x) then 1 else 0) l.

Definition balanced (s : snet) (sent taken : list NetMsg) : Prop :=
  ∀ ty num, copies sent ty num = copies taken ty num + carried [] s ty num.

Lemma run_inv s sent taken : run s sent taken → inv [] s ∧ balanced s sent taken.
Proof.
  assert (∀ s s' sent taken, built s s' → balanced s sent taken → inv [] s' ∧ balanced s' sent taken)
    as Hbu.
  { intros s0 s' st tk [Hi _ Hc] Hb. split; [done|]. intros ty num. by rewrite Hc. }
  assert (∀ s s' sent taken, inv [] s → kept s s' → balanced s sent taken →
    inv [] s' ∧ balanced s' sent taken) as Hke.
  { intros s0 s' st tk Hi0 [_ _ Hc] Hb. destruct (Hc Hi0) as [Hi Hc']. split; [done|].
    intros ty num. by rewrite Hc'. }
  induction 1 as [net bw routers bufs ch bws vnets s Hr Hb Hs|s sent taken net _ [Hi IH]
    |s sent taken src dest link entries s' _ [Hi IH] He Hs|s sent taken src dest s' _ [Hi IH] Hs
    |s sent taken src dest link entries s' _ [Hi IH] He Hs
    |s sent taken e now b m x delta s' _ [Hi IH] Hf Hw Hs
    |s sent taken e now b i v m x s' _ [Hi IH] Ho Hs Hx
    |s sent taken e k s' _ [Hi IH] Hs|s sent taken e k j s' _ [Hi IH] Hs].
  - destruct (made_inv _ _ _ _ _ _ _ _ Hr Hb Hs) as [Hi Hc]. split; [done|]. intros ty num. by rewrite Hc.
  - eapply Hbu; [|done]. by apply other_built.
  - eapply Hbu; [|done]. by eapply makeExtOutLink_built.
  - eapply Hbu; [|done]. by eapply makeExtInLink_built.
  - eapply Hbu; [|done]. by eapply makeInternalLink_built.
  - apply enqueue_put in Hs. pose proof (new_inv [] _ x s Hi Hf Hw) as Hi1.
    split; [by eapply put_inv|]. intros ty num. unfold copies. rewrite sum_over_cons.
    rewrite (put_carried _ _ _ _ _ _ _ Hs), new_carried by done.
    specialize (IH ty num). unfold copies in IH. lia.
  - apply dequeue_took in Hs as [Ht _]. assert (inv [Message.msg_ref m] s') as Hi'.
    { eapply (took_inv [] b _ _ _ s s' s'); [done..|]. intros k w. by rewrite decide_False by (by intros []). }
    split; [by eapply drop_inv|]. intros ty num. pose proof (took_carried [] _ _ _ _ ty num Ht) as Hc.
    rewrite drop_carried in Hc. unfold addressed in Hc. rewrite (to_messages _ _ _ _ Ht), Hx in Hc.
    unfold copies at 2. rewrite sum_over_cons. specialize (IH ty num). unfold copies in *. lia.
  - eapply Hke; [done| |done]. by eapply perfect_wakeup_kept.
  - eapply Hke; [done| |done]. by eapply throttle_wakeup_kept.
Qed.

(** C11: the simple network neither loses nor makes up a copy of a message.  However the
    topology builds it, and in whatever order controllers send and take messages and
    switches and throttles wake up, for every machine the messages sent to it are those
    taken out for it and those in the buffers, although switches split messages with
    several destinations.  No message is in two places, and the counter of pending
    messages, by which a switch decides whether to look into its buffers at all, is the
    number of messages in them. *)
Theorem simple_network_conserves s sent taken :
  run s sent taken →
  (∀ ty num, copies sent ty num = copies taken ty num + carried [] s ty num) ∧
  NoDup (held (bviews s)) ∧
  ∀ k v n, pend s k v = Some n → n = waiting (bviews s) k v.
Proof. intros Hr. destruct (run_inv _ _ _ Hr) as [[I1 _ I3 _ _] Hb]. by split_and!. Qed.

End runs.
