(* ===== verification/SimpleThrottle.v ===== *)
(** * The bandwidth of a throttle

    What a wake-up of a throttle spends: its loop moves whole messages, and the units a
    message needs beyond the bandwidth of a cycle are kept for the next. *)

From S2P Require Import Prelude.
From S2P Require Import Clocking.
From S2P Require Import MessageBuffer.
From S2P Require Import Network.
From S2P Require Import SimpleSwitch.
From S2P Require Import SimpleFrame.

(** ** What a throttle keeps *)

(** Throttle [j] of switch [k], and all of it but its consumer and its count of wake-ups. *)
Definition throttle_at (s : snet) (k j : Z) : option Throttle.t :=
  switches s !! k ≫= λ sw, zlookup (Switch.throttles sw) j.

Definition tstate (t : Throttle.t) :=
  (Throttle.m_units_remaining t, Throttle.throttleStats t, tview t).

Lemma tstate_inj t t' :
  tstate t' = tstate t →
  Throttle.m_units_remaining t' = Throttle.m_units_remaining t ∧
  Throttle.throttleStats t' = Throttle.throttleStats t ∧ tview t' = tview t.
Proof.
  intros Ht. split; [exact (f_equal (λ p, p.1.1) Ht)|].
  split; [exact (f_equal (λ p, p.1.2) Ht)|exact (f_equal snd Ht)].
Qed.

(** Throttles are as before, and so are the sizes of messages. *)
Record undisturbed (s s' : snet) : Prop := {
  un_throttles k j : tstate <$> throttle_at s' k j = tstate <$> throttle_at s k j;
  un_base : net_base s' = net_base s;
}.

#[export] Instance undisturbed_preorder : PreOrder undisturbed.
Proof.
  split; [by split|]. intros a b c [T1 B1] [T2 B2]. split; [|congruence].
  intros k j. by rewrite T2.
Qed.

Lemma get_throttle_at s k j t : get_throttle s k j = Ok t ↔ throttle_at s k j = Some t.
Proof.
  unfold get_throttle, get_switch, throttle_at. destruct (switches s !! k) as [sw|]; cbn; [|done].
  apply vget_Ok.
Qed.

Lemma undisturbed_same s s' :
  switches s' = switches s → net_base s' = net_base s → undisturbed s s'.
Proof. intros Hs Hb. split; [|done]. intros k j. unfold throttle_at. by rewrite Hs. Qed.

Lemma throttle_at_put s k sw' k' j :
  throttle_at (put_switch s k sw') k' j =
    if decide (k' = k) then zlookup (Switch.throttles sw') j else throttle_at s k' j.
Proof.
  unfold throttle_at. cbn. case_decide as E; [subst|by rewrite lookup_insert_ne].
  by rewrite lookup_insert_eq.
Qed.

Lemma on_perfect_undisturbed k f s s' : on_perfect k f s = Ok s' → undisturbed s s'.
Proof.
  intros Hs. unfold on_perfect in Hs. step_bind Hs as sw Hk%get_switch_Ok.
  step_bind Hs as p _. injection Hs as <-. split; [|done]. intros k' j. rewrite throttle_at_put.
  case_decide; [|done]. subst. unfold throttle_at. by rewrite Hk.
Qed.

(** The change of one throttle. *)
Lemma on_throttle_at k j f s s' t :
  throttle_at s k j = Some t → on_throttle k j f s = Ok s' →
  net_base s' = net_base s ∧ ∃ t', f t = Ok t' ∧ ∀ k' j',
    throttle_at s' k' j' = if decide (k' = k ∧ j' = j) then Some t' else throttle_at s k' j'.
Proof.
  intros Ht Hs. unfold on_throttle in Hs. step_bind Hs as sw Hk%get_switch_Ok.
  step_bind Hs as l Hl. injection Hs as <-. split; [done|].
  unfold throttle_at in Ht. rewrite Hk in Ht. cbn in Ht.
  unfold vupd in Hl. step_bind Hl as t0 Ht0%vget_Ok. rewrite Ht in Ht0. injection Ht0 as <-.
  step_bind Hl as t' Hf. exists t'. split; [done|]. intros k' j'. rewrite throttle_at_put. cbn.
  apply vset_replaced in Hl. destruct (decide (k' = k)) as [->|Hne].
  - rewrite Hl. unfold throttle_at. rewrite Hk. cbn.
    destruct (decide (j' = j)) as [->|]; [by rewrite decide_True|].
    rewrite decide_False; [done|]. by intros [_ ?].
  - rewrite decide_False; [done|]. by intros [? _].
Qed.

Lemma on_throttle_undisturbed k j f s s' :
  (∀ t t', f t = Ok t' → tstate t' = tstate t) → on_throttle k j f s = Ok s' → undisturbed s s'.
Proof.
  intros Hf Hs. destruct (throttle_at s k j) as [t|] eqn:Ht.
  - destruct (on_throttle_at _ _ _ _ _ _ Ht Hs) as (Hb & t' & Ht' & Hat). split; [|done].
    intros k' j'. rewrite Hat. case_decide as E; [|done]. destruct E as [-> ->].
    rewrite Ht. cbn. by rewrite (Hf _ _ Ht').
  - exfalso. unfold on_throttle in Hs. step_bind Hs as sw Hk%get_switch_Ok. step_bind Hs as l Hl.
    unfold vupd in Hl. step_bind Hl as t Hvt%vget_Ok. unfold throttle_at in Ht.
    rewrite Hk in Ht. cbn in Ht. congruence.
Qed.

Lemma schedule_undisturbed f g c s s' : schedule f g c s = Ok s' → undisturbed s s'.
Proof.
  destruct c as [k|k j|i]; cbn [schedule]; intros Hs.
  - step_bind Hs as sw _. by eapply on_perfect_undisturbed.
  - step_bind Hs as sw _. revert Hs. apply on_throttle_undisturbed. intros t t' Ht.
    step_bind Ht as c _. by injection Ht as <-.
  - injection Hs as <-. by apply undisturbed_same.
Qed.

Lemma put_buffer_undisturbed s b mb s' : put_buffer s b mb = Ok s' → undisturbed s s'.
Proof. intros (n & _ & ->)%put_buffer_Ok. by apply undisturbed_same. Qed.

Lemma isReady_undisturbed cur now b s r s' : isReady cur now b s = Ok (r, s') → undisturbed s s'.
Proof.
  unfold isReady. intros Hs. step_bind Hs as n _. step_bind Hs as [ready again] _.
  step_bind Hs as s1 Hs1. injection Hs as _ <-. destruct again; [|by injection Hs1 as <-].
  step_bind Hs1 as c _. eapply schedule_undisturbed. exact Hs1.
Qed.

Lemma areNSlotsAvailable_undisturbed now k b s r s' :
  areNSlotsAvailable now k b s = Ok (r, s') → undisturbed s s'.
Proof.
  unfold areNSlotsAvailable. intros Hs. step_bind Hs as n Hn.
  destruct (MessageBuffer.areNSlotsAvailable _ _ _) as [ok mb].
  step_bind Hs as s1 Hs1%put_buffer_undisturbed. by injection Hs as _ <-.
Qed.

Lemma enqueue_undisturbed e now b m delta s s' :
  enqueue e now b m delta s = Ok s' → undisturbed s s'.
Proof.
  unfold enqueue. intros Hs. step_bind Hs as n _. step_bind Hs as [mb tick] _.
  step_bind Hs as s1 Hs1%put_buffer_undisturbed. step_bind Hs as c _. step_bind Hs as s2 Hs2.
  etrans; [exact Hs1|]. etrans; [eapply schedule_undisturbed; exact Hs2|].
  destruct c; cbn in Hs; [by eapply on_perfect_undisturbed|by injection Hs as <-..].
Qed.

Lemma dequeue_undisturbed e now b s m s' : dequeue e now b s = Ok (m, s') → undisturbed s s'.
Proof.
  unfold dequeue. intros Hs. step_bind Hs as n _. step_bind Hs as m0 _.
  step_bind Hs as [[d mb] cb] _. step_bind Hs as m' _. step_bind Hs as s1 Hs1%put_buffer_undisturbed.
  injection Hs as _ <-. destruct cb; [|done]. etrans; [exact Hs1|]. by apply undisturbed_same.
Qed.

Lemma hasPendingWork_undisturbed e now inp units s r s' :
  hasPendingWork e now inp units s = Ok (r, s') → undisturbed s s'.
Proof.
  unfold hasPendingWork. intros Hs. step_bind Hs as [ready s1] Hs1%isReady_undisturbed.
  by injection Hs as _ <-.
Qed.

(** ** The loop *)

(** The bytes throttle [j] of switch [k] has moved. *)
Definition moved_bytes (s : snet) (k j : Z) : Z :=
  match throttle_at s k j with
  | Some t => Throttle.total_msg_bytes (Throttle.throttleStats t)
  | None => 0
  end.

(** The units it still owes, and whether none is negative. *)
Definition owed (s : snet) (k j : Z) : Z :=
  match throttle_at s k j with
  | Some t => sum_over (sum_over id) (Throttle.m_units_remaining t)
  | None => 0
  end.

Definition sizes_ok (s : snet) : Prop :=
  0 ≤ Network.m_control_msg_size (net_base s) ∧ 0 ≤ Network.m_data_msg_size (net_base s).

Lemma undisturbed_counts s s' k j :
  undisturbed s s' →
  moved_bytes s' k j = moved_bytes s k j ∧ owed s' k j = owed s k j ∧
  (sizes_ok s → sizes_ok s').
Proof.
  intros [T B]. unfold moved_bytes, owed, sizes_ok. rewrite B. specialize (T k j).
  destruct (throttle_at s k j), (throttle_at s' k j); try done. cbn in T.
  injection T as E1 E2 _. by rewrite E1, E2.
Qed.

Lemma size_nonneg s ty n :
  sizes_ok s → Network.MessageSizeType_to_int (net_base s) ty = Ok n → 0 ≤ n.
Proof. intros [H1 H2] Hn. destruct ty; cbn in Hn; simplify_eq; done. Qed.

(** A message that is moved. *)
Lemma move_message_counts e k j vnet now inp outp s u s' t :
  throttle_at s k j = Some t → sizes_ok s →
  move_message e k j vnet now inp outp s = Ok (u, s') →
  0 ≤ u ∧ net_base s' = net_base s ∧
  ∃ t', throttle_at s' k j = Some t' ∧ tview t' = tview t ∧
        Throttle.m_units_remaining t' = Throttle.m_units_remaining t ∧
        u = 1000 * (Throttle.total_msg_bytes (Throttle.throttleStats t') -
                    Throttle.total_msg_bytes (Throttle.throttleStats t)).
Proof.
  intros Ht Hz Hs. unfold move_message in Hs. step_bind Hs as n _. step_bind Hs as m _.
  step_bind Hs as x _. step_bind Hs as units Hu. step_bind Hs as [m' s1] U1%dequeue_undisturbed.
  step_bind Hs as t0 _. step_bind Hs as sw _. step_bind Hs as s2 U2%enqueue_undisturbed.
  step_bind Hs as bytes Hb. step_bind Hs as control _. step_bind Hs as s3 H3. injection Hs as <- <-.
  assert (undisturbed s s2) as U by (by etrans). destruct U as [T B].
  unfold network_message_to_size in Hu. step_bind Hu as size Hsz. rewrite B, Hsz in Hb.
  injection Hb as <-. pose proof (size_nonneg _ _ _ Hz Hsz) as Hpos.
  unfold as_int, MESSAGE_SIZE_MULTIPLIER in Hu. case_match; [|done]. injection Hu as <-.
  specialize (T k j). rewrite Ht in T. destruct (throttle_at s2 k j) as [t2|] eqn:Ht2; [|done].
  apply (inj Some), tstate_inj in T as (E1 & E2 & E3).
  destruct (on_throttle_at _ _ _ _ _ _ Ht2 H3) as (B3 & t3 & Hf & Hat). injection Hf as <-.
  split; [lia|]. split; [congruence|]. eexists. split; [rewrite Hat; by rewrite decide_True|].
  split; [exact E3|]. split; [exact E1|]. cbn. rewrite <- E2. lia.
Qed.

Lemma undisturbed_at s s' k j t :
  undisturbed s s' → throttle_at s k j = Some t → sizes_ok s →
  sizes_ok s' ∧ ∃ t', throttle_at s' k j = Some t' ∧ tstate t' = tstate t.
Proof.
  intros [T B] Ht Hz. split; [unfold sizes_ok; by rewrite B|]. specialize (T k j). rewrite Ht in T.
  destruct (throttle_at s' k j) as [t'|]; [|done]. exists t'. split; [done|]. by apply (inj Some).
Qed.

Definition bytes_of (t : Throttle.t) : Z := Throttle.total_msg_bytes (Throttle.throttleStats t).

(** Throttle [t] becomes [t'], which has moved [n] bytes more. *)
Record moved_on (n : Z) (t t' : Throttle.t) : Prop := {
  mo_view : tview t' = tview t;
  mo_units : Throttle.m_units_remaining t' = Throttle.m_units_remaining t;
  mo_bytes : bytes_of t' = bytes_of t + n;
}.

Lemma moved_on_trans n m t1 t2 t3 :
  moved_on n t1 t2 → moved_on m t2 t3 → moved_on (n + m) t1 t3.
Proof. intros [V1 U1 B1] [V2 U2 B2]. split; [congruence|congruence|lia]. Qed.

Lemma tstate_moved t t' : tstate t' = tstate t → moved_on 0 t t'.
Proof.
  intros (E1 & E2 & E3)%tstate_inj. split; [done|done|]. unfold bytes_of. rewrite E2. lia.
Qed.

(** The loop spends the units it takes off its messages, and stops within the bandwidth. *)
Lemma transfer_loop_spends e k j vnet now inp outp fuel units bw total s t u b tot s' :
  throttle_at s k j = Some t → sizes_ok s → 0 ≤ units → 0 ≤ bw →
  transfer_loop e k j vnet now inp outp fuel units bw total s = Some (Ok (u, b, tot, s')) →
  sizes_ok s' ∧ 0 ≤ u ∧ 0 ≤ b ≤ bw ∧ tot = total - (bw - b) ∧
  ∃ n t', throttle_at s' k j = Some t' ∧ moved_on n t t' ∧ bw - b = units - u + 1000 * n.
Proof.
  revert units bw total s t. induction fuel as [|fuel IH]; intros units bw total s t Ht Hz Hu Hb Hs;
    cbn [transfer_loop] in Hs; [done|].
  assert (∀ s1, undisturbed s s1 → Some (Ok (units, bw, total, s1)) = Some (Ok (u, b, tot, s')) →
    sizes_ok s' ∧ 0 ≤ u ∧ 0 ≤ b ≤ bw ∧ tot = total - (bw - b) ∧
    ∃ n t', throttle_at s' k j = Some t' ∧ moved_on n t t' ∧ bw - b = units - u + 1000 * n) as Hstop.
  { intros s1 U [= <- <- <- <-]. destruct (undisturbed_at _ _ _ _ _ U Ht Hz) as (Hz1 & t1 & Ht1 & E1).
    split_and!; [done|done|lia|done|lia|]. exists 0, t1. split_and!; [done|by apply tstate_moved|lia]. }
  destruct (Z.ltb_spec 0 bw); [|by apply (Hstop s)].
  step_bind Hs as [pending s1] U1%hasPendingWork_undisturbed.
  destruct pending; [|by apply (Hstop s1)].
  step_bind Hs as [ok s2] U2%areNSlotsAvailable_undisturbed. rewrite <- U1 in U2.
  destruct ok; [|by apply (Hstop s2)].
  step_bind Hs as [units1 s3] Hm.
  assert (sizes_ok s3 ∧ 0 ≤ units1 ∧ ∃ n t3, throttle_at s3 k j = Some t3 ∧ moved_on n t t3 ∧
    units1 = units + 1000 * n) as (Hz3 & Hu1 & n & t3 & Ht3 & M3 & E3).
  { assert (∀ s4, undisturbed s s4 → Ok (units, s4) = Ok (units1, s3) → sizes_ok s3 ∧ 0 ≤ units1 ∧
      ∃ n t3, throttle_at s3 k j = Some t3 ∧ moved_on n t t3 ∧ units1 = units + 1000 * n) as Hsame.
    { intros s4 U [= <- <-]. destruct (undisturbed_at _ _ _ _ _ U Ht Hz) as (Hz4 & t4 & Ht4 & E4).
      split_and!; [done|done|]. exists 0, t4. split_and!; [done|by apply tstate_moved|lia]. }
    destruct (Z.eqb_spec units 0) as [E0|]; [|by eapply (Hsame s2)].
    step_bind Hm as [ready s4] U4%isReady_undisturbed. rewrite <- U2 in U4.
    destruct ready; [|by eapply (Hsame s4)].
    destruct (undisturbed_at _ _ _ _ _ U4 Ht Hz) as (Hz4 & t4 & Ht4 & E4).
    destruct (move_message_counts _ _ _ _ _ _ _ _ _ _ _ Ht4 Hz4 Hm)
      as (Hu1 & B & t3 & Ht3 & V3 & R3 & S3).
    split_and!; [unfold sizes_ok; by rewrite B|done|].
    exists (bytes_of t3 - bytes_of t4), t3. split_and!; [done| |unfold bytes_of; lia].
    replace (bytes_of t3 - bytes_of t4) with (0 + (bytes_of t3 - bytes_of t4)) by lia.
    eapply moved_on_trans; [by apply tstate_moved|]. split; [done|done|lia]. }
  apply (IH _ _ _ _ _ Ht3) in Hs as (Hz' & Hu' & Hb' & Htot & n' & t' & Ht' & M' & E'); [|done|lia..].
  split_and!; [done|done|lia|lia|lia|]. exists (n + n'), t'. split_and!; [done|by eapply moved_on_trans|lia].
Qed.

(** ** A wake-up *)

Definition units_nonneg (t : Throttle.t) : Prop :=
  Forall (Forall (λ u, 0 ≤ u)) (Throttle.m_units_remaining t).

Definition owed_by (t : Throttle.t) : Z := sum_over (sum_over id) (Throttle.m_units_remaining t).

(** What a part of a wake-up does to throttle [j] of switch [k], with the bandwidth left
    before and after it. *)
Definition spends (k j : Z) (st st' : budget * snet) : Prop :=
  ∀ t, throttle_at st.2 k j = Some t → sizes_ok st.2 → units_nonneg t →
  0 ≤ Throttle.m_endpoint_bandwidth t → 0 ≤ total_bw_remaining st.1 →
  sizes_ok st'.2 ∧ ∃ t', throttle_at st'.2 k j = Some t' ∧ tview t' = tview t ∧ units_nonneg t' ∧
    0 ≤ total_bw_remaining st'.1 ≤ total_bw_remaining st.1 ∧
    total_bw_remaining st.1 - total_bw_remaining st'.1 =
      owed_by t - owed_by t' + 1000 * (bytes_of t' - bytes_of t).

Lemma tview_endpoint t t' :
  tview t' = tview t → Throttle.m_endpoint_bandwidth t' = Throttle.m_endpoint_bandwidth t.
Proof. intros Ht. exact (f_equal snd Ht). Qed.

Lemma spends_trans k j st1 st2 st3 : spends k j st1 st2 → spends k j st2 st3 → spends k j st1 st3.
Proof.
  intros H12 H23 t Ht Hz Hu He Hp.
  destruct (H12 t Ht Hz Hu He Hp) as (Hz2 & t2 & Ht2 & V2 & U2 & L2 & E2).
  destruct (H23 t2 Ht2 Hz2 U2) as (Hz3 & t3 & Ht3 & V3 & U3 & L3 & E3);
    [by rewrite (tview_endpoint _ _ V2)|lia|].
  split; [done|]. exists t3. split_and!; [done|congruence|done|lia|lia|lia].
Qed.

Lemma undisturbed_spends k j bd bd' s s' :
  undisturbed s s' → total_bw_remaining bd' = total_bw_remaining bd → spends k j (bd, s) (bd', s').
Proof.
  intros U E t Ht Hz Hu He Hp. cbn in *.
  destruct (undisturbed_at _ _ _ _ _ U Ht Hz) as (Hz' & t' & Ht' & Es).
  split; [done|]. exists t'. apply tstate_inj in Es as (E1 & E2 & E3). unfold owed_by, units_nonneg, bytes_of.
  rewrite E1, E2. split_and!; [done..|lia|lia|lia].
Qed.

Lemma for_range_spends k j f a n st st' :
  (∀ i t t', f i t = Ok t' → spends k j t t') → for_range a n f st = Ok st' → spends k j st st'.
Proof.
  intros Hf. apply (for_range_inv (λ _ t, spends k j st t)).
  - intros i t t' _ Ht Hft. eapply spends_trans; [exact Ht|]. by eapply Hf.
  - destruct st as [bd s]. by apply undisturbed_spends.
Qed.

(** The units of a channel are written back. *)
Lemma set_units_owed t vnet ch u t' us x :
  set_units t vnet ch u = Ok t' → zlookup (Throttle.m_units_remaining t) vnet = Some us →
  zlookup us ch = Some x → 0 ≤ u → units_nonneg t →
  tview t' = tview t ∧ bytes_of t' = bytes_of t ∧ units_nonneg t' ∧ owed_by t' = owed_by t - x + u.
Proof.
  intros Hs Hus Hx Hu Hn. unfold set_units in Hs. step_bind Hs as l Hl. injection Hs as <-.
  unfold vupd in Hl. step_bind Hl as us0 Hus0%vget_Ok. rewrite Hus in Hus0. injection Hus0 as <-.
  step_bind Hl as us' Hus'. split_and!; [done|done| |].
  - unfold units_nonneg. cbn. eapply Forall_vset; [exact Hn| |exact Hl].
    eapply Forall_vset; [|exact Hu|exact Hus']. by eapply Forall_zlookup.
  - change (owed_by (th_with_units t l)) with (sum_over (sum_over id) l). unfold owed_by.
    rewrite (sum_over_vset _ _ _ _ _ _ Hus Hl), (sum_over_vset _ _ _ _ _ _ Hx Hus').
    unfold id. lia.
Qed.

Lemma getLinkBandwidth_nonneg t vnet bw :
  0 ≤ Throttle.m_endpoint_bandwidth t → getLinkBandwidth t vnet = Ok bw → 0 ≤ bw.
Proof.
  intros He Hb. unfold getLinkBandwidth in Hb. step_bind Hb as m _.
  step_bind Hb as [] Hm%assert_Ok. boolify. unfold as_int in Hb. case_match; [|done].
  injection Hb as <-. by apply Z.mul_nonneg_nonneg; [|lia].
Qed.

Lemma throttle_operateVnet_spends e k j vnet ch st st' :
  throttle_operateVnet e k j vnet ch st = Ok st' → spends k j st st'.
Proof.
  intros Hs. destruct st as [bd s]. unfold throttle_operateVnet in Hs.
  step_bind Hs as t Ht%get_throttle_at. step_bind Hs as inp _. step_bind Hs as out _.
  destruct out as [outp|]; [|injection Hs as <-; by apply undisturbed_spends].
  step_bind Hs as us Hus%vget_Ok. step_bind Hs as units Hun%vget_Ok.
  step_bind Hs as [] Hpos%assert_Ok. boolify. step_bind Hs as now _.
  step_bind Hs as bw Hbw. step_bind Hs as fuel _. step_bind Hs as [[[u b] total] s1] Hl%settled_Ok.
  step_bind Hs as s2 Hu. step_bind Hs as [] Hu0%assert_Ok. step_bind Hs as [] _.
  step_bind Hs as [] Ht0%assert_Ok. boolify.
  step_bind Hs as [pending s3] U3%hasPendingWork_undisturbed.
  assert (undisturbed s2 st'.2 ∧ total_bw_remaining st'.1 = total) as [U Etot].
  { destruct pending; [|by injection Hs as <-]. step_bind Hs as [fine s4] H4. step_bind Hs as [] _.
    step_bind Hs as [blocked s5] H5. injection Hs as <-. split; [|done]. cbn.
    etrans; [exact U3|]. transitivity s4.
    - destruct (b =? 0); [by injection H4 as _ <-|].
      step_bind H4 as [ok s6] H6%areNSlotsAvailable_undisturbed. by injection H4 as _ <-.
    - destruct (output_blocked bd); [by injection H5 as _ <-|].
      step_bind H5 as [ok s6] H6%areNSlotsAvailable_undisturbed. by injection H5 as _ <-. }
  intros t0 Ht' Hz Hn He Hp. cbn in Ht', Hz, Hp. rewrite Ht in Ht'. injection Ht' as <-.
  assert (0 ≤ bw) as Hbw0.
  { destruct (Throttle.m_physical_vnets t); [by eapply getLinkBandwidth_nonneg|].
    by injection Hbw as <-. }
  destruct (transfer_loop_spends _ _ _ _ _ _ _ _ _ _ _ _ _ _ _ _ _ Ht Hz Hpos Hbw0 Hl)
    as (Hz1 & Hu1 & Hb1 & Htot & n & t1 & Ht1 & [V1 R1 B1] & E1).
  destruct (on_throttle_at _ _ _ _ _ _ Ht1 Hu) as (Hb2 & t2 & Hset & Hat).
  assert (throttle_at s2 k j = Some t2) as Ht2 by (rewrite Hat; by rewrite decide_True).
  assert (sizes_ok s2) as Hz2 by (unfold sizes_ok; by rewrite Hb2).
  destruct (set_units_owed _ _ _ _ _ us units Hset) as (V2 & B2 & N2 & O2);
    [by rewrite R1|done|done|by unfold units_nonneg; rewrite R1|].
  destruct (undisturbed_at _ _ _ _ _ U Ht2 Hz2) as (Hz3 & t3 & Ht3 & Es).
  apply tstate_inj in Es as (R3 & S3 & V3). split; [done|]. exists t3.
  assert (owed_by t3 = owed_by t - units + u) as O3.
  { unfold owed_by in *. rewrite R3, O2, R1. done. }
  assert (bytes_of t3 = bytes_of t + n) as B3 by (unfold bytes_of in *; rewrite S3; lia).
  rewrite O3, B3, Etot. cbn [fst].
  split_and!; [done|congruence|unfold units_nonneg; by rewrite R3|lia|lia|lia].
Qed.

(** C19: a throttle keeps to the bandwidth of its link.  In a wake-up it spends, on the
    messages it moves and on the rest of those it moved before, a number of units between
    zero and the total bandwidth of the link: what was owed, and a thousand units for each
    byte of the messages moved, less what is owed afterwards.  No message is ever owed a
    negative number of units. *)
Theorem throttle_bandwidth e k j s s' t total :
  throttle_at s k j = Some t → sizes_ok s → units_nonneg t →
  0 ≤ Throttle.m_endpoint_bandwidth t → getTotalLinkBandwidth t = Ok total →
  throttle_wakeup e k j s = Ok s' →
  ∃ t', throttle_at s' k j = Some t' ∧ units_nonneg t' ∧
    0 ≤ owed_by t + 1000 * (bytes_of t' - bytes_of t) - owed_by t' ≤ total.
Proof.
  intros Ht Hz Hn He Htot Hs. unfold throttle_wakeup in Hs.
  step_bind Hs as t0 Ht0%get_throttle_at. rewrite Ht in Ht0. injection Ht0 as <-.
  rewrite Htot in Hs. cbn [rbind] in Hs. step_bind Hs as [] Hpos%assert_Ok. boolify.
  step_bind Hs as s1 H1. destruct (on_throttle_at _ _ _ _ _ _ Ht H1) as (B1 & t1 & Hf & Hat).
  injection Hf as <-. step_bind Hs as [bd s2] H2. apply (for_range_spends k j) in H2.
  2:{ intros i st st' Hc. unfold throttle_channels in Hc. step_bind Hc as t1 _. step_bind Hc as n _.
      revert Hc. apply for_range_spends. intros c st1 st2. apply throttle_operateVnet_spends. }
  match type of Hat with context [Some ?x] => set (t1 := x) in Hat end.
  destruct (H2 t1) as (Hz2 & t2 & Ht2 & V2 & N2 & L2 & E2);
    [cbn; rewrite Hat; by rewrite decide_True|cbn; unfold sizes_ok; by rewrite B1|done|done|cbn; lia|].
  cbn [fst snd] in *. step_bind Hs as s3 H3.
  destruct (on_throttle_at _ _ _ _ _ _ Ht2 H3) as (B3 & t3 & Hf & Hat3). injection Hf as <-.
  assert (undisturbed s3 s') as U.
  { destruct (_ || _); [eapply schedule_undisturbed; exact Hs|by injection Hs as <-]. }
  match type of Hat3 with context [Some ?x] => set (t3 := x) in Hat3 end.
  destruct (undisturbed_at s3 s' k j t3 U) as (_ & t' & Ht' & Es);
    [rewrite Hat3; by rewrite decide_True|unfold sizes_ok; by rewrite B3|].
  apply tstate_inj in Es as (R' & S' & _). exists t'. split; [done|].
  assert (owed_by t' = owed_by t2) as -> by (unfold owed_by; by rewrite R').
  assert (bytes_of t' = bytes_of t2) as -> by (unfold bytes_of; by rewrite S').
  change (owed_by t1) with (owed_by t) in E2. change (bytes_of t1) with (bytes_of t) in E2.
  cbn [total_bw_remaining] in *. split; [unfold units_nonneg; by rewrite R'|]. lia.
Qed.
