(* ===== verification/SimpleLoops.v ===== *)
(** * The loops of the simple network end

    The loops of [operateMessageBuffer] and of [Throttle::operateVnet] run until their
    buffer has no message ready.  They end because they never put a message back into the
    buffer they take messages from: the outgoing buffers of a switch belong to its
    throttles. *)

From S2P Require Import Prelude.
From S2P Require Import NetDest.
From S2P Require Import Flit.
From S2P Require Import MessageBuffer.
From S2P Require Import Network.
From S2P Require Import SimpleSwitch.
From S2P Require Import SimpleNetwork.
From S2P Require Import SimpleGroups.
From S2P Require Import SimpleFrame.
From S2P Require Import SimpleInvariant.
From S2P Require Import SimpleConservation.
From S2P Require Import SimpleRuns.
From S2P Require Import SimpleThrottle.

(** ** The messages in a buffer *)

Definition len (s : snet) (b : Z) : nat := look 0%nat (length ∘ bv_refs) (bviews s) b.

Lemma len_buffers s s' b : bviews s' = bviews s → len s' b = len s b.
Proof. intros Hb. unfold len. by rewrite Hb. Qed.

Lemma len_get s b n :
  get_buffer s b = Ok n → len s b = length (MessageBuffer.m_prio_heap (nb_buffer n)).
Proof.
  intros Hn%get_buffer_view. unfold len. rewrite (look_Some _ _ _ _ _ Hn). cbn.
  unfold BufferFacts.refs. apply length_fmap.
Qed.

Lemma took_len b r s s' : took b r s s' → S (len s' b) = len s b.
Proof.
  intros [_ _ _ (c & on & v & h & Hb & Hs)]. unfold len. rewrite Hs, (look_Some _ _ _ _ _ Hb).
  apply zlookup_lt in Hb. unfold look. by rewrite zlookup_insert_eq.
Qed.

Lemma put_len b r s s' b' : put b r s s' → b' ≠ b → len s' b' = len s b'.
Proof.
  intros [_ _ (c & v & h & h' & Hb & _ & Hs & _)] Hne. unfold len, look. rewrite Hs.
  apply zlookup_lt in Hb. rewrite zlookup_insert by done. by rewrite decide_False.
Qed.

(** ** What is ready *)

(** The answer [isReady] gives for buffer [b]. *)
Definition ready_now (s : snet) (b : Z) (now : Tick) : result bool :=
  n ← get_buffer s b; r ← MessageBuffer.isReady (nb_buffer n) now; Ok r.1.

Lemma schedule_buffers f g c s s' : schedule f g c s = Ok s' → buffers s' = buffers s.
Proof.
  destruct c as [k|k j|i]; cbn [schedule]; intros Hs.
  - step_bind Hs as sw _. unfold on_perfect in Hs. step_bind Hs as sw' _. step_bind Hs as p _.
    by injection Hs as <-.
  - step_bind Hs as sw _. unfold on_throttle in Hs. step_bind Hs as sw' _. step_bind Hs as l _.
    by injection Hs as <-.
  - by injection Hs as <-.
Qed.

Lemma isReady_value cur now b s r s' :
  isReady cur now b s = Ok (r, s') → ready_now s b now = Ok r ∧ buffers s' = buffers s.
Proof.
  unfold isReady, ready_now. intros Hs. step_bind Hs as n Hn. step_bind Hs as [ready again] Hr.
  step_bind Hs as s1 Hs1. injection Hs as <- <-. rewrite Hn. cbn. rewrite Hr. split; [done|].
  destruct again; [|by injection Hs1 as <-]. step_bind Hs1 as c _. eapply schedule_buffers. exact Hs1.
Qed.

Lemma areNSlotsAvailable_others now k b s r s' b' :
  areNSlotsAvailable now k b s = Ok (r, s') → b' ≠ b → get_buffer s' b' = get_buffer s b'.
Proof.
  unfold areNSlotsAvailable. intros Hs Hne. step_bind Hs as n Hn.
  destruct (MessageBuffer.areNSlotsAvailable _ _ _) as [ok mb]. step_bind Hs as s1 Hs1.
  injection Hs as _ <-. apply put_buffer_Ok in Hs1 as (n' & Hn' & ->). unfold get_buffer, vget in *.
  cbn [with_buffers buffers]. rewrite zlookup_insert; [by rewrite decide_False|].
  destruct (zlookup (buffers s) b) eqn:E; [by eapply zlookup_lt|done].
Qed.

Lemma ready_now_same s s' b now :
  get_buffer s' b = get_buffer s b → ready_now s' b now = ready_now s b now.
Proof. intros Hb. unfold ready_now. by rewrite Hb. Qed.

(** ** The loop of a throttle *)

(** An upper bound of the iterations left: none without bandwidth, else one for each message
    in the buffer and one for the message under way. *)
Definition iterations (s : snet) (inp units bw : Z) : nat :=
  if 0 <? bw then (len s inp + if decide (units = 0)%Z then 0 else 1)%nat else 0%nat.

Lemma move_message_len e k j vnet now inp outp s u s' :
  inp ≠ outp → sizes_ok s → move_message e k j vnet now inp outp s = Ok (u, s') →
  0 ≤ u ∧ sizes_ok s' ∧ S (len s' inp) = len s inp.
Proof.
  intros Hne Hz Hs. unfold move_message in Hs. step_bind Hs as n _. step_bind Hs as m _.
  step_bind Hs as x _. step_bind Hs as units Hu. step_bind Hs as [m' s1] [Ht _]%dequeue_took.
  step_bind Hs as t _. step_bind Hs as sw _. step_bind Hs as s2 Hp%enqueue_put.
  step_bind Hs as bytes _. step_bind Hs as control _.
  step_bind Hs as s3 Hq%on_throttle_stats_quiet. injection Hs as <- <-. split_and!.
  - unfold network_message_to_size in Hu. step_bind Hu as size Hsz%size_nonneg; [|done].
    unfold as_int, MESSAGE_SIZE_MULTIPLIER in Hu. case_match; [|done]. injection Hu as <-. lia.
  - unfold sizes_ok. rewrite (fr_base _ _ (qu_frame _ _ Hq)), (fr_base _ _ (pu_frame _ _ _ _ Hp)).
    by rewrite (fr_base _ _ (to_frame _ _ _ _ Ht)).
  - rewrite (len_buffers _ _ _ (qu_buffers _ _ Hq)), (put_len _ _ _ _ _ Hp Hne).
    by eapply took_len.
Qed.

Lemma sizes_quiet s s' : quiet s s' → sizes_ok s → sizes_ok s'.
Proof. intros Hq. unfold sizes_ok. by rewrite (fr_base _ _ (qu_frame _ _ Hq)). Qed.

Lemma transfer_loop_ends e k j vnet now inp outp fuel units bw total s :
  inp ≠ outp → sizes_ok s → 0 ≤ units → (iterations s inp units bw < fuel)%nat →
  is_Some (transfer_loop e k j vnet now inp outp fuel units bw total s).
Proof.
  intros Hne. revert units bw total s.
  induction fuel as [|fuel IH]; intros units bw total s Hz Hu Hf; [lia|].
  cbn [transfer_loop]. unfold iterations in Hf.
  destruct (Z.ltb_spec 0 bw) as [Hbw|]; [|done].
  apply fbind_ends. intros [pending s1] E1. destruct pending; [|done].
  apply fbind_ends. intros [ok s2] E2. destruct ok; [|done].
  pose proof (hasPendingWork_quiet _ _ _ _ _ _ _ E1) as Q1.
  pose proof (areNSlotsAvailable_quiet _ _ _ _ _ _ E2) as Q2.
  assert (quiet s s2) as Q by (by etrans).
  assert (len s2 inp = len s inp) as Hlen by (by apply len_buffers, Q).
  assert (sizes_ok s2) as Hz2 by (by eapply sizes_quiet).
  apply fbind_ends. intros [u s3] E3. destruct (Z.eqb_spec units 0) as [E0|E0].
  2:{ injection E3 as <- <-. rewrite decide_False in Hf by done.
      apply IH; [done|lia|unfold iterations; rewrite Hlen].
      destruct (Z.ltb_spec 0 (bw - Z.min units bw)); [rewrite decide_True by lia; lia|lia]. }
  rewrite decide_True in Hf by done.
  unfold hasPendingWork in E1. step_bind E1 as [r1 s1'] [R1 B1]%isReady_value.
  injection E1 as Er <-. subst units. rewrite orb_false_r in Er. subst r1.
  step_bind E3 as [ready s4] E4. pose proof (isReady_quiet _ _ _ _ _ _ E4) as Q4.
  apply isReady_value in E4 as [R4 _]. rewrite (ready_now_same s s2) in R4.
  2:{ rewrite (areNSlotsAvailable_others _ _ _ _ _ _ _ E2 Hne). unfold get_buffer. by rewrite B1. }
  rewrite R1 in R4. injection R4 as <-.
  destruct (move_message_len _ _ _ _ _ _ _ _ _ _ Hne (sizes_quiet _ _ Q4 Hz2) E3) as (Hu3 & Hz3 & L3).
  rewrite (len_buffers _ _ _ (qu_buffers _ _ Q4)), Hlen in L3.
  apply IH; [done|lia|unfold iterations].
  destruct (Z.ltb_spec 0 (bw - Z.min u bw)); [rewrite decide_True by lia; lia|lia].
Qed.

Lemma transfer_loop_more e k j vnet now inp outp f1 f2 units bw total s r :
  transfer_loop e k j vnet now inp outp f1 units bw total s = Some r → (f1 ≤ f2)%nat →
  transfer_loop e k j vnet now inp outp f2 units bw total s = Some r.
Proof.
  revert f2 units bw total s.
  induction f1 as [|f1 IH]; intros [|f2] units bw total s H1 Hf; try lia || done.
  cbn [transfer_loop] in *. destruct (0 <? bw); [|done].
  destruct (hasPendingWork _ _ _ _ _) as [[pending s1]|]; [|done]. cbn [fbind] in *.
  destruct pending; [|done].
  destruct (areNSlotsAvailable _ _ _ _) as [[ok s2]|]; [|done]. cbn [fbind] in *.
  destruct ok; [|done].
  match type of H1 with fbind ?m _ = _ => destruct m as [[u s3]|] end; [|done]. cbn [fbind] in *.
  apply IH; [done|lia].
Qed.

(** ** The loop of a switch *)

Section operate.
  Context `{MachineTypeLaws}.

(** Buffer [b] is not an outgoing buffer of switch [k]. *)
Definition not_out (s : snet) (k b : Z) : Prop :=
  ∀ sw o, switches s !! k = Some sw → o ∈ PerfectSwitch.m_out (Switch.perfectSwitch sw) →
  b ∉ PerfectSwitch.op_buffers o.

Lemma same_switch_out sw sw' :
  same_switch sw sw' →
  PerfectSwitch.m_out (Switch.perfectSwitch sw') = PerfectSwitch.m_out (Switch.perfectSwitch sw).
Proof. intros [Hv _]. exact (f_equal (λ x, x.1.1.1.1.1.1.1.2) Hv). Qed.

Lemma not_out_frame s s' k b : frame s s' → not_out s k b → not_out s' k b.
Proof.
  intros Hf Hn sw' o Hk Ho. destruct (frame_switch_back _ _ _ _ Hf Hk) as (sw & Hk' & Hs).
  rewrite (same_switch_out _ _ Hs) in Ho. by apply (Hn sw o).
Qed.

Lemma out_buffer_elem p link vnet o b :
  out_buffer p link vnet = Ok (o, b) →
  o ∈ PerfectSwitch.m_out p ∧ b ∈ PerfectSwitch.op_buffers o.
Proof.
  unfold out_buffer. intros Hs. step_bind Hs as o' [_ Ho]%vget_Ok%zlookup_Some.
  step_bind Hs as b' [_ Hb]%vget_Ok%zlookup_Some. injection Hs as <- <-.
  by split; eapply list_elem_of_lookup_2.
Qed.

Definition spares (p : PerfectSwitch.t) (b : Z) : Prop :=
  ∀ o, o ∈ PerfectSwitch.m_out p → b ∉ PerfectSwitch.op_buffers o.

Lemma send_to_len e now p vnet r m s s' b :
  spares p b → send_to e now p vnet r m s = Ok s' → len s' b = len s b.
Proof.
  intros Hsp Hs. unfold send_to in Hs. step_bind Hs as [o b'] [Ho Hb]%out_buffer_elem.
  step_bind Hs as x _. apply enqueue_put in Hs.
  rewrite (put_len _ _ _ _ _ Hs); [done|]. intros ->. by apply (Hsp o).
Qed.

Lemma send_copies_len e now p vnet m0 x0 links s s' b :
  spares p b → send_copies e now p vnet m0 x0 links s = Ok s' → len s' b = len s b.
Proof.
  intros Hsp. revert s. induction links as [|r links IH]; intros s Hs; cbn [send_copies] in Hs.
  - by injection Hs as <-.
  - destruct (clone m0 x0 s) as [m s1] eqn:Ec. unfold clone in Ec. injection Ec as Em <-.
    step_bind Hs as s2 Hs2. rewrite (IH _ Hs), (send_to_len _ _ _ _ _ _ _ _ _ Hsp Hs2). done.
Qed.

Lemma forward_message_len e k vnet b now s r s' :
  inv [] s → owned s b (PerfectSwitchOf k) vnet → not_out s k b →
  forward_message e k vnet b now s = Ok (r, s') → r = true → S (len s' b) = len s b.
Proof.
  intros Hi Hw Ho Hs ->. unfold forward_message in Hs. step_bind Hs as n Hn.
  step_bind Hs as m _. step_bind Hs as x _.
  step_bind Hs as ordered _. step_bind Hs as [out s1] [Q1 _]%route_quiet.
  step_bind Hs as sw Hsw%get_switch_Ok. step_bind Hs as [enough s2] Q2%enough_slots_quiet.
  destruct enough; cbn [negb] in Hs; [|by step_bind Hs as s3 _].
  assert (spares (Switch.perfectSwitch sw) b) as Hsp.
  { intros o. eapply not_out_frame; [apply Q1|done|done]. }
  step_bind Hs as [m' s3] [Ht _]%dequeue_took. step_bind Hs as s4 H4. step_bind Hs as s5 H5.
  injection Hs as <-. apply (on_perfect_counted k vnet (-1)) in H4; [|intros z; f_equal; lia].
  assert (len s5 b = len s4 b) as ->.
  { destruct out as [|r links]; [by injection H5 as <-|]. step_bind H5 as s6 H6.
    rewrite (send_copies_len _ _ _ _ _ _ _ _ _ _ Hsp H5). by eapply send_to_len. }
  rewrite (len_buffers _ _ _ (co_buffers _ _ _ _ _ H4)), (took_len _ _ _ _ Ht).
  rewrite (len_buffers _ _ _ (qu_buffers _ _ Q2)). apply len_buffers, Q1.
Qed.

Lemma operate_loop_ends e k vnet b now fuel s :
  inv [] s → owned s b (PerfectSwitchOf k) vnet → not_out s k b →
  (len s b < fuel)%nat → is_Some (operate_loop fuel e k vnet b now s).
Proof.
  revert s. induction fuel as [|fuel IH]; intros s Hi Hw Ho Hf; [lia|].
  cbn [operate_loop]. apply fbind_ends. intros [ready s1] E1.
  destruct ready; [|done]. apply isReady_quiet in E1 as Q1. pose proof (quiet_kept _ _ Q1) as K1.
  apply fbind_ends. intros [go_on s2] E2. destruct go_on; [|done].
  assert (inv [] s1) as Hi1 by (by apply K1).
  assert (owned s1 b (PerfectSwitchOf k) vnet) as Hw1 by (by apply K1).
  assert (not_out s1 k b) as Ho1 by (by eapply not_out_frame; [apply Q1|]).
  pose proof (forward_message_len _ _ _ _ _ _ _ _ Hi1 Hw1 Ho1 E2 eq_refl) as Hl.
  rewrite (len_buffers _ _ _ (qu_buffers _ _ Q1)) in Hl.
  pose proof (forward_message_kept _ _ _ _ _ _ _ _ Hi1 Hw1 E2) as K2.
  apply IH; [by apply K2|by apply K2|by eapply not_out_frame; [apply K2|]|lia].
Qed.

Lemma operate_loop_more f1 f2 e k vnet b now s r :
  operate_loop f1 e k vnet b now s = Some r → (f1 ≤ f2)%nat →
  operate_loop f2 e k vnet b now s = Some r.
Proof.
  revert f2 s. induction f1 as [|f1 IH]; intros [|f2] s H1 Hf; try lia || done.
  cbn [operate_loop] in *. destruct (isReady _ _ _ _) as [[ready s1]|]; [|done]. cbn [fbind] in *.
  destruct ready; [|done].
  destruct (forward_message _ _ _ _ _ _) as [[go_on s2]|]; [|done]. cbn [fbind] in *.
  destruct go_on; [|done]. apply IH; [done|lia].
Qed.

(** ** In runs *)

(** The outgoing buffers of a switch belong to its throttles. *)
Definition outs_owned (s : snet) : Prop :=
  ∀ k sw o x, switches s !! k = Some sw →
  o ∈ PerfectSwitch.m_out (Switch.perfectSwitch sw) → x ∈ PerfectSwitch.op_buffers o →
  ∃ j w, owned s x (ThrottleOf k j) w.

(** The switches have the outgoing ports they had. *)
Definition same_outs (s s' : snet) : Prop :=
  ∀ k sw', switches s' !! k = Some sw' → ∃ sw, switches s !! k = Some sw ∧
    PerfectSwitch.m_out (Switch.perfectSwitch sw') = PerfectSwitch.m_out (Switch.perfectSwitch sw).

Lemma same_outs_owned s s' :
  same_outs s s' → same_owners s s' → outs_owned s → outs_owned s'.
Proof.
  intros Hs Ho Hi k sw' o x Hk Hin Hx. destruct (Hs k sw' Hk) as (sw & Hk' & E). rewrite E in Hin.
  destruct (Hi k sw o x Hk' Hin Hx) as (j & w & Hw). exists j, w. by apply Ho.
Qed.

Lemma same_outs_trans s1 s2 s3 : same_outs s1 s2 → same_outs s2 s3 → same_outs s1 s3.
Proof.
  intros H12 H23 k sw3 Hk. destruct (H23 k sw3 Hk) as (sw2 & Hk2 & E2).
  destruct (H12 k sw2 Hk2) as (sw1 & Hk1 & E1). exists sw1. split; [done|congruence].
Qed.

Lemma same_outs_switches s s' : switches s' = switches s → same_outs s s'.
Proof. intros Hs k sw. rewrite Hs. by exists sw. Qed.

Lemma frame_outs s s' : frame s s' → same_outs s s'.
Proof.
  intros Hf k sw' Hk. destruct (frame_switch_back _ _ _ _ Hf Hk) as (sw & Hk' & Hs).
  exists sw. split; [done|]. by apply same_switch_out.
Qed.

Lemma on_perfect_outs k f s s' :
  (∀ p p', f p = Ok p' → PerfectSwitch.m_out p' = PerfectSwitch.m_out p) →
  on_perfect k f s = Ok s' → same_outs s s'.
Proof.
  intros Hf Hs. unfold on_perfect in Hs. step_bind Hs as sw Hk%get_switch_Ok.
  step_bind Hs as p Hp%Hf. injection Hs as <-. intros k' sw'. cbn.
  destruct (decide (k' = k)) as [->|Hne].
  - rewrite lookup_insert_eq. intros [= <-]. by exists sw.
  - rewrite lookup_insert_ne by done. intros Hk'. by exists sw'.
Qed.

Lemma addInPort_from_outs k port i ins s s' :
  addInPort_from k port i ins s = Ok s' → same_outs s s'.
Proof.
  revert i s. induction ins as [|[b|] ins IH]; intros i s Hs; cbn [addInPort_from] in Hs.
  - injection Hs as <-. by apply same_outs_switches.
  - step_bind Hs as s1 H1. unfold setConsumer in H1. step_bind H1 as l1 _. injection H1 as <-.
    step_bind Hs as s2 H2. unfold set_link_and_vnet in H2. step_bind H2 as l2 _. injection H2 as <-.
    step_bind Hs as s3 H3. apply on_perfect_outs in H3.
    2:{ by intros p p' (prio & groups & -> & _)%updatePriorityGroups_Ok. }
    eapply same_outs_trans; [|by eapply IH]. eapply same_outs_trans; [|exact H3].
    by apply same_outs_switches.
  - by eapply IH.
Qed.

Lemma addInPort_outs k ins s s' : addInPort k ins s = Ok s' → same_outs s s'.
Proof.
  intros Hs. unfold addInPort in Hs. step_bind Hs as sw _. step_bind Hs as s1 H1.
  apply on_perfect_outs in H1; [|by intros p p' [= <-]]. eapply same_outs_trans; [exact H1|].
  by eapply addInPort_from_outs.
Qed.

Lemma addOutPort_owned k out entry lat weight bw ext s s' :
  inv [] s → NetDest.wf entry → outs_owned s →
  SimpleNetwork.addOutPort k out entry lat weight bw ext s = Ok s' → outs_owned s'.
Proof.
  intros Hi He Ho (sw & s1 & sw1 & th & o & Hk & B & S1 & -> & _ & O1 & _ & Hout)%addOutPort_Ok; [|done..].
  intros k' sw' o' x. cbn [put_switch with_switches switches]. rewrite S1, insert_insert_eq.
  destruct (decide (k' = k)) as [->|Hne].
  - rewrite lookup_insert_eq. intros [= <-]. cbn [with_throttles Switch.perfectSwitch]. rewrite O1.
    intros [Hin| ->%list_elem_of_singleton]%elem_of_app Hx.
    + destruct (Ho k sw o' x Hk Hin Hx) as (j & w & Hw). exists j, w. by apply B.
    + destruct (Hout x Hx) as [w Hw]. by eexists _, w.
  - rewrite lookup_insert_ne by done. intros Hk' Hin Hx.
    destruct (Ho k' sw' o' x Hk' Hin Hx) as (j & w & Hw). exists j, w. by apply B.
Qed.

Lemma run_outs s sent taken : run s sent taken → outs_owned s.
Proof.
  induction 1 as [net bw routers bufs ch bws vnets s Hr Hb Hs|s sent taken net Hrun IH
    |s sent taken src dest link entries s' Hrun IH He Hs|s sent taken src dest s' Hrun IH Hs
    |s sent taken src dest link entries s' Hrun IH He Hs
    |s sent taken e now b m x delta s' Hrun IH Hf Hw Hs
    |s sent taken e now b i v m x s' Hrun IH Ho Hs Hx
    |s sent taken e k s' Hrun IH Hs|s sent taken e k j s' Hrun IH Hs];
    try pose proof (proj1 (run_inv _ _ _ Hrun)) as Hi.
  - intros k sw o x Hk Hin. unfold SimpleNetwork.make in Hs. do 3 step_bind Hs as [] _.
    injection Hs as <-. cbn in Hk. apply (fold_routers new_switch) in Hk; [|done|done].
    destruct Hk as (vn & it & ex & ad & ports & clk & ->). by apply elem_of_nil in Hin.
  - exact IH.
  - unfold makeExtOutLink in Hs. step_bind Hs as l _. step_bind Hs as [] _. step_bind Hs as q _.
    step_bind Hs as [] _. step_bind Hs as qs _. step_bind Hs as entry Hen.
    apply vget_Ok, (Forall_zlookup _ _ _ _ He) in Hen.
    eapply (addOutPort_owned _ _ _ _ _ _ _ (with_net_base s _)); [|exact Hen|exact IH|exact Hs].
    eapply bu_inv, other_built; done.
  - unfold makeExtInLink in Hs. step_bind Hs as l _. step_bind Hs as q _.
    apply (same_outs_owned s); [by eapply addInPort_outs| |done]. by eapply bu_owners, addInPort_built.
  - unfold makeInternalLink in Hs. step_bind Hs as s1 H1. step_bind Hs as entry Hen.
    apply vget_Ok, (Forall_zlookup _ _ _ _ He) in Hen. step_bind Hs as s2 H2. injection Hs as <-.
    pose proof (addInPort_built _ _ _ _ Hi H1) as B1.
    change (outs_owned s2). eapply addOutPort_owned; [apply B1|exact Hen| |exact H2].
    apply (same_outs_owned s); [by eapply addInPort_outs|by destruct B1|done].
  - apply enqueue_put in Hs. eapply same_outs_owned; [apply frame_outs, Hs|by eapply put_owners|exact IH].
  - apply dequeue_took in Hs as [Ht _]. apply (same_outs_owned s); [|by eapply took_owners|done].
    apply frame_outs, Ht.
  - apply perfect_wakeup_kept in Hs; [|done]. apply (same_outs_owned s); [|by destruct Hs|done].
    by apply frame_outs, Hs.
  - apply throttle_wakeup_kept in Hs; [|done]. apply (same_outs_owned s); [|by destruct Hs|done].
    by apply frame_outs, Hs.
Qed.

(** C40: the loops of the wake-ups end.  In a state of a run, or within one of its wake-ups,
    the loop of [operateMessageBuffer] over a buffer of a switch returns, with a result or a
    failure, after at most one iteration more than there are messages in the buffer, and the
    loop of [Throttle::operateVnet] after at most two more, where the throttle does not feed
    itself ([inp ≠ outp]), the message sizes are not negative ([sizes_ok]) and neither are the
    units left over.  A loop that does not end runs out of any fuel, which is [None]. *)
Theorem simple_loops_end s0 sent taken s e k vnet now :
  run s0 sent taken → kept s0 s →
  (∀ sw gs g b,
     switches s !! k = Some sw →
     zlookup (PerfectSwitch.m_in_prio_groups (Switch.perfectSwitch sw)) vnet = Some gs →
     g ∈ gs → b ∈ g →
     ∃ r, ∀ fuel, (len s b < fuel)%nat → operate_loop fuel e k vnet b now s = Some r) ∧
  (∀ j inp outp units bw total,
     inp ≠ outp → sizes_ok s → 0 ≤ units →
     ∃ r, ∀ fuel, (S (len s inp) < fuel)%nat →
       transfer_loop e k j vnet now inp outp fuel units bw total s = Some r).
Proof.
  intros Hr Hk. destruct (run_inv _ _ _ Hr) as [Hi0 _].
  assert (inv [] s) as Hi by (by apply Hk).
  assert (outs_owned s) as Ho.
  { apply (same_outs_owned s0); [apply frame_outs, Hk|apply Hk|by eapply run_outs]. }
  split.
  - intros sw gs g b Hsw Hgs Hg Hb.
    pose proof (po_groups _ _ _ (in_ports _ _ Hi _ _ Hsw) _ _ _ _ Hgs Hg Hb) as Hown.
    apply fuel_enough; [|intros m m' r; apply operate_loop_more]. intros fuel Hf.
    apply operate_loop_ends; [done|exact Hown| |done]. intros sw1 o Hsw1 Hin Hx.
    destruct (Ho k sw1 o b Hsw1 Hin Hx) as (j & w & on & h & Hw).
    destruct Hown as (on1 & h1 & Hown). congruence.
  - intros j inp outp units bw total Hne Hz Hu.
    apply fuel_enough; [|intros m m' r; apply transfer_loop_more]. intros fuel Hf.
    assert (iterations s inp units bw ≤ S (len s inp))%nat as Hit.
    { unfold iterations. destruct (0 <? bw); [|lia]. case_decide; lia. }
    apply transfer_loop_ends; [done|done|done|lia].
Qed.

End operate.
