(* ===== verification/SimpleDelay.v ===== *)
(** * The delay of forwarded messages

    [MessageBuffer::dequeue] and [MessageBuffer::enqueue] both add the time since a message
    arrived to its delay.  A message that switches and throttles pass on goes through both. *)

From S2P Require Import Prelude.
From S2P Require Import Flit.
From S2P Require Import MessageBuffer.
From S2P Require Import SimpleSwitch.
From S2P Require Import SimpleFrame.
From S2P Require Import SimpleLoops.

Lemma enqueue_heap fl rnd b m now delta bp b' tick :
  MessageBuffer.enqueue fl rnd b (Some m) now delta bp = Ok (b', tick) →
  ∃ m', m' ∈ MessageBuffer.m_prio_heap b' ∧ Message.msg_ref m' = Message.msg_ref m ∧
    Message.m_DelayedTicks m' =
      Message.m_DelayedTicks m + (now - Message.m_LastEnqueueTime m).
Proof.
  unfold MessageBuffer.enqueue. intros He. destruct (if _ <? now then _ else _) as [msgs te].
  destruct (MessageBuffer.arrival fl rnd b now delta) as [ar la].
  step_bind He as [] _. step_bind He as [] _. step_bind He as [] _. step_bind He as m0 Hm0.
  injection Hm0 as <-. step_bind He as [] _. step_bind He as m1 Hm1. step_bind He as [] _.
  step_bind He as [] _. injection He as <- <-. unfold Message.updateDelayedTicks in Hm1.
  step_bind Hm1 as [] _. injection Hm1 as <-. cbn.
  match goal with |- context [MessageBuffer.push_heap ?x ?h] => exists x; set (m1 := x) end.
  split; [|done]. generalize (MessageBuffer.m_prio_heap b) as h. clear. intros h.
  induction h as [|y h IH]; cbn; [left|]. destruct (Message.gt m1 y); [by right|left].
Qed.

(** A message taken from buffer [b] and put into buffer [b2] is charged twice for the time
    it waited in [b]. *)
Lemma forwarded_delay e now b b2 delta s m s1 s2 :
  dequeue e now b s = Ok (m, s1) → enqueue e now b2 m delta s1 = Ok s2 →
  ∃ n m0 n2 m2, get_buffer s b = Ok n ∧ head (MessageBuffer.m_prio_heap (nb_buffer n)) = Some m0 ∧
    get_buffer s2 b2 = Ok n2 ∧ m2 ∈ MessageBuffer.m_prio_heap (nb_buffer n2) ∧
    Message.msg_ref m2 = Message.msg_ref m0 ∧
    Message.m_DelayedTicks m2 =
      Message.m_DelayedTicks m0 + 2 * (now - Message.m_LastEnqueueTime m0).
Proof.
  intros Hd He. unfold dequeue in Hd. step_bind Hd as n Hn. step_bind Hd as m0 Hm0%determinate_Ok.
  step_bind Hd as [[d mb] cb] _. step_bind Hd as m' Hm'. step_bind Hd as s3 _.
  injection Hd as <- _. unfold Message.updateDelayedTicks in Hm'. step_bind Hm' as [] _.
  injection Hm' as <-. unfold enqueue in He. step_bind He as n1 Hn1. step_bind He as [mb2 tick] Hq.
  step_bind He as s4 Hp. step_bind He as c _. step_bind He as s5 Hs5. cbn [Message.m_LastEnqueueTime] in *.
  apply enqueue_heap in Hq as (m2 & Hin & Href & Hdel). cbn in Href, Hdel.
  apply put_buffer_Ok in Hp as (n1' & Hn1' & ->). same_result.
  exists n, m0, (with_nb n1 mb2), m2. split_and!; [done|done| |done|done|lia].
  assert (buffers s2 = buffers s5) as E.
  { destruct c as [k|k j|i]; cbn in He; [|by injection He as <-..].
    unfold on_perfect in He. step_bind He as sw _. step_bind He as p _. by injection He as <-. }
  unfold get_buffer. rewrite E, (schedule_buffers _ _ _ _ _ Hs5). cbn.
  apply vget_Ok. apply zlookup_insert_eq. apply vget_Ok in Hn1. by eapply zlookup_lt.
Qed.
