(* ===== verification/SimpleExample.v ===== *)
(** * A simple network of one switch

    Two controllers, one switch and one virtual network: the network is built by the calls
    of the topology, a controller sends a message to both, and both take their copy. *)

From S2P Require Import Prelude.
From S2P Require Import NetDest.
From S2P Require Import Flit.
From S2P Require Import Clocking.
From S2P Require Import MessageBuffer.
From S2P Require Import Network.
From S2P Require Import SimpleSwitch.
From S2P Require Import SimpleNetwork.
From S2P Require Import SimpleRouting.
From S2P Require Import SimpleGroups.
From S2P Require Import SimpleFrame.
From S2P Require Import SimpleInvariant.
From S2P Require Import SimpleConservation.
From S2P Require Import SimpleRuns.
From S2P Require Import SimpleThrottle.
From S2P Require Import SimpleLoops.

Module SimpleExample.
Import ExampleMachines SplitExample.
#[local] Existing Instance machines.

(** The state an operation leaves, [d] if it fails. *)
Definition state_of {A} (d : A) (m : result A) : A := match m with Ok a => a | Err _ => d end.

Lemma state_of_Ok {A} (d : A) m : is_ok m = true → m = Ok (state_of d m).
Proof. by destruct m. Qed.

(** Node 0 sends through buffer 0; nodes 0 and 1 receive from buffers 1 and 2; the switch
    has buffers 3 and 4. *)
Definition net : Network.t :=
  Network.mk 2 1 8 72 [[Some 0]; []] [[Some 1]; [Some 2]] [false] [""%string]
    {[0 := 0; 1 := 1]}.

Definition buffer (priority : Z) : NetBuffer :=
  mkNetBuffer (MessageBuffer.make 0 0 false rand_disabled false) None 0 0 priority.

Definition receiver (i : Z) : NetBuffer :=
  mkNetBuffer
    (MessageBuffer.with_links (MessageBuffer.make 0 0 false rand_disabled false)
       true false 0 0 0) (Some (Controller i)) 0 0 0.

Definition clk : Clocked.t := Clocked.mk 0 0 500.

Definition empty : snet := mkSnet net ∅ [] ∅ [] 0 [] [] [].

Definition start : result snet :=
  SimpleNetwork.make net 1000 [(0, make_switch 1 1 1 false [3; 4] clk)]
    [buffer 0; receiver 0; receiver 1; buffer 0; buffer 0] [] [] 1.

Definition link : SimpleLink := mkSimpleLink 1 1 16 [].

Definition s0 : snet := state_of empty start.
Definition s1 : snet := state_of empty (makeExtInLink 0 0 s0).
Definition s2 : snet := state_of empty (makeExtOutLink 0 0 link [directories 1] s1).
Definition s3 : snet := state_of empty (makeExtOutLink 0 1 link [directories 2] s2).

Definition env (cur : Tick) : SnEnv :=
  mkSnEnv cur (mkRubyFlags false false) (λ _ _, 0) (λ _ _, 0).

Definition hello : NetMsg := mkNetMsg (directories 3) Data.

Definition sending : result snet :=
  enqueue (env 500) 500 0 (Message.make 7 500) 500 (with_messages s3 (<[7%nat := hello]> (messages s3))).

Definition s4 : snet := state_of empty sending.
Definition s5 : snet := state_of empty (perfect_wakeup (env 1000) 0 s4).
Definition s6 : snet := state_of empty (throttle_wakeup (env 1500) 0 0 s5).
Definition s7 : snet := state_of empty (throttle_wakeup (env 1500) 0 1 s6).

Definition take (b : Z) (s : snet) : result (Message.t * snet) := dequeue (env 2000) 2000 b s.

Definition got1 : Message.t * snet := state_of (Message.make 0 0, empty) (take 1 s7).
Definition got2 : Message.t * snet := state_of (Message.make 0 0, empty) (take 2 got1.2).

Definition contents (s : snet) (m : Message.t) : NetMsg :=
  default hello (messages s !! Message.msg_ref m).

Example all_ok :
  [is_ok start; is_ok (makeExtInLink 0 0 s0); is_ok (makeExtOutLink 0 0 link [directories 1] s1);
   is_ok (makeExtOutLink 0 1 link [directories 2] s2); is_ok sending;
   is_ok (perfect_wakeup (env 1000) 0 s4); is_ok (throttle_wakeup (env 1500) 0 0 s5);
   is_ok (throttle_wakeup (env 1500) 0 1 s6); is_ok (take 1 s7); is_ok (take 2 got1.2)] =
  replicate 10 true.
Proof. vm_compute. reflexivity. Qed.

Lemma got1_ref : messages s7 !! Message.msg_ref got1.1 = Some (contents s7 got1.1).
Proof. vm_compute. reflexivity. Qed.

Lemma got2_ref : messages got1.2 !! Message.msg_ref got2.1 = Some (contents got1.2 got2.1).
Proof. vm_compute. reflexivity. Qed.

Lemma new_receiver i : new_buffer (receiver i).
Proof. split; [done|]. split; [intros _; by eexists|done]. Qed.

Lemma new_empty p : new_buffer (buffer p).
Proof. split; [done|]. split; [done|]. by intros []. Qed.

(** The steps one by one. *)
Lemma run0 : run s0 [] [].
Proof.
  refine (run_make net 1000 [(0, make_switch 1 1 1 false [3; 4] clk)]
    [buffer 0; receiver 0; receiver 1; buffer 0; buffer 0] [] [] 1 s0 _ _ _).
  - apply Forall_singleton. exists 1, 1, 1, false, [3; 4], clk. reflexivity.
  - exact (Forall_cons_2 _ _ _ (new_empty 0) (Forall_cons_2 _ _ _ (new_receiver 0)
      (Forall_cons_2 _ _ _ (new_receiver 1) (Forall_cons_2 _ _ _ (new_empty 0)
         (Forall_cons_2 _ _ _ (new_empty 0) (Forall_nil_2 _)))))).
  - apply state_of_Ok. vm_compute. reflexivity.
Qed.

Lemma run1 : run s1 [] [].
Proof. refine (run_ext_in s0 [] [] 0 0 s1 run0 _). apply state_of_Ok. vm_compute. reflexivity. Qed.

Lemma entries bits : 0 ≤ bits < 4 → Forall NetDest.wf [directories bits].
Proof. intros Hb. by apply Forall_singleton, directories_wf. Qed.

Lemma run2 : run s2 [] [].
Proof.
  refine (run_ext_out s1 [] [] 0 0 link [directories 1] s2 run1 (entries 1 ltac:(lia)) _).
  apply state_of_Ok. vm_compute. reflexivity.
Qed.

Lemma run3 : run s3 [] [].
Proof.
  refine (run_ext_out s2 [] [] 0 1 link [directories 2] s3 run2 (entries 2 ltac:(lia)) _).
  apply state_of_Ok. vm_compute. reflexivity.
Qed.

Lemma fresh7 : (7%nat : nat) ∉ dom (messages s3).
Proof. apply not_elem_of_dom. vm_compute. reflexivity. Qed.

Lemma run4 : run s4 [hello] [].
Proof.
  refine (run_send s3 [] [] (env 500) 500 0 (Message.make 7 500) hello 500 s4 run3 fresh7
    (directories_wf 3 ltac:(lia)) _).
  exact (state_of_Ok empty sending ltac:(vm_compute; reflexivity)).
Qed.

Lemma run5 : run s5 [hello] [].
Proof.
  refine (run_switch s4 [hello] [] (env 1000) 0 s5 run4 _).
  apply state_of_Ok. vm_compute. reflexivity.
Qed.

Lemma run6 : run s6 [hello] [].
Proof.
  refine (run_throttle s5 [hello] [] (env 1500) 0 0 s6 run5 _).
  apply state_of_Ok. vm_compute. reflexivity.
Qed.

Lemma run7 : run s7 [hello] [].
Proof.
  refine (run_throttle s6 [hello] [] (env 1500) 0 1 s7 run6 _).
  apply state_of_Ok. vm_compute. reflexivity.
Qed.

Lemma owner1 : owned s7 1 (Controller 0) 0.
Proof. eexists _, _. vm_compute. reflexivity. Qed.

Lemma owner2 : owned got1.2 2 (Controller 1) 0.
Proof. eexists _, _. vm_compute. reflexivity. Qed.

Lemma take1 : take 1 s7 = Ok (got1.1, got1.2).
Proof.
  rewrite <- surjective_pairing. apply state_of_Ok. vm_compute. reflexivity.
Qed.

Lemma take2 : take 2 got1.2 = Ok (got2.1, got2.2).
Proof.
  rewrite <- surjective_pairing. apply state_of_Ok. vm_compute. reflexivity.
Qed.

Lemma run_all : run got2.2 [hello] [contents got1.2 got2.1; contents s7 got1.1].
Proof.
  refine (run_take got1.2 [hello] [contents s7 got1.1] (env 2000) 2000 2 1 0 got2.1 _ got2.2 _
    owner2 take2 got2_ref).
  exact (run_take s7 [hello] [] (env 2000) 2000 1 0 0 got1.1 _ got1.2 run7 owner1 take1 got1_ref).
Qed.

Lemma simple_network_conserves_witness :
  copies [hello] 1 1 =
    copies [contents got1.2 got2.1; contents s7 got1.1] 1 1 + carried [] got2.2 1 1 ∧
  copies [hello] 1 1 = 1 ∧ carried [] got2.2 1 1 = 0.
Proof.
  destruct (@simple_network_conserves machines machines_laws _ _ _ run_all) as (Hc & _).
  split; [exact (Hc 1 1)|]. split; vm_compute; reflexivity.
Defined.

(** Three incoming buffers, of which the last two have the same priority. *)
Definition ports : snet := with_buffers empty [buffer 0; buffer 1; buffer 1].

Definition two_ports : PerfectSwitch.t :=
  pm_with_ports (make_perfect 1) [] [] [[0; 1]] [[[0]; [1]]].

Lemma priority_groups_witness :
  ∃ p', updatePriorityGroups ports 0 2 two_ports = Ok p' ∧
    concat (prio_groups p' 0) = prio_ports p' 0 ∧
    prio_groups p' 0 = [[0]; [1]; [2]] ∧ priority_of ports 1 = priority_of ports 2.
Proof.
  eexists. split; [vm_compute; reflexivity|].
  destruct (priority_groups ports 0 2 two_ports _ ltac:(vm_compute; reflexivity)) as (_ & _ & Hc & _).
  split; [exact Hc|]. split; vm_compute; reflexivity.
Defined.

(** The throttle to node 0, before its wake-up. *)
Definition throttle0 : Throttle.t :=
  state_of (Throttle.mk [] [] 0 [] 0 false [] [] 0 0 0 Consumer.make no_stats)
    (get_throttle s5 0 0).

Lemma throttle0_at : throttle_at s5 0 0 = Some throttle0.
Proof. apply get_throttle_at, state_of_Ok. vm_compute. reflexivity. Qed.

Lemma units0 : units_nonneg throttle0.
Proof.
  assert (Throttle.m_units_remaining throttle0 = [[0]]) as E by (vm_compute; reflexivity).
  unfold units_nonneg. rewrite E. apply Forall_singleton, Forall_singleton. lia.
Qed.

Lemma sizes5 : sizes_ok s5.
Proof. split; vm_compute; discriminate. Qed.

Lemma throttle_bandwidth_witness :
  ∃ t', throttle_at s6 0 0 = Some t' ∧ owed_by t' = 56000 ∧
    0 ≤ owed_by throttle0 + 1000 * (bytes_of t' - bytes_of throttle0) - owed_by t' ≤ 16000.
Proof.
  destruct (throttle_bandwidth (env 1500) 0 0 s5 s6 throttle0 16000 throttle0_at sizes5 units0)
    as (t' & Ht' & _ & Hb).
  - vm_compute. discriminate.
  - vm_compute. reflexivity.
  - apply state_of_Ok. vm_compute. reflexivity.
  - exists t'. split; [exact Ht'|]. split; [|exact Hb].
    assert (owed_by <$> throttle_at s6 0 0 = Some 56000) as E by (vm_compute; reflexivity).
    rewrite Ht' in E. by injection E.
Defined.

Lemma kept_self s : @kept machines s s.
Proof. split; [reflexivity|by intros b c v|]. intros Hi. split; [exact Hi|reflexivity]. Qed.

(** Both loops take a message and are over an iteration later. *)
Lemma simple_loops_end_witness :
  (∃ r, (∀ fuel, (1 < fuel)%nat → operate_loop fuel (env 1000) 0 0 0 1000 s4 = Some r) ∧
     operate_loop 1 (env 1000) 0 0 0 1000 s4 = None) ∧
  (∃ r, (∀ fuel, (2 < fuel)%nat →
       transfer_loop (env 1500) 0 0 0 1500 3 1 fuel 0 16000 16000 s5 = Some r) ∧
     transfer_loop (env 1500) 0 0 0 1500 3 1 1 0 16000 16000 s5 = None).
Proof.
  split.
  - destruct (@simple_loops_end machines machines_laws s4 _ _ s4 (env 1000) 0 0 1000 run4 (kept_self s4))
      as [Ho _].
    destruct (Ho (state_of (make_switch 0 0 0 false [] clk) (get_switch s4 0)) [[0]] [0] 0)
      as [r Hr].
    + apply determinate_Ok, (state_of_Ok _ (get_switch s4 0)). vm_compute. reflexivity.
    + vm_compute. reflexivity.
    + left.
    + left.
    + exists r. split; [|vm_compute; reflexivity]. intros fuel Hf. apply Hr.
      assert (len s4 0 = 1%nat) as -> by (vm_compute; reflexivity). exact Hf.
  - destruct (@simple_loops_end machines machines_laws s5 _ _ s5 (env 1500) 0 0 1500 run5
      (kept_self s5)) as [_ Ht].
    destruct (Ht 0 3 1 0 16000 16000) as [r Hr]; [lia|exact sizes5|lia|].
    exists r. split; [|vm_compute; reflexivity]. intros fuel Hf. apply Hr.
    assert (len s5 3 = 1%nat) as -> by (vm_compute; reflexivity). exact Hf.
Defined.

End SimpleExample.
