(* ===== verification/Bitfield.v ===== *)
(** * Bit fields

    [base/bitfield.hh]: the functions on 64-bit words that the address ranges use, and
    what they do to the bits of a word.  A word is an integer in [0, 2^64). *)

From S2P Require Import Prelude.

(** [(uint64_t)-1LL] *)
Definition all_ones : Z := 2 ^ 64 - 1.

Definition mask (nbits : Z) : Z := if 64 <=? nbits then all_ones else Z.shiftl 1 nbits - 1.

Definition bits (val first last : Z) : result Z :=
  _ ← assert (last <=? first);
  Ok (Z.land (Z.shiftr val last) (mask (wrap32 (first - last + 1)))).

(** [bits(val, bit)] *)
Definition bit_at (val bit : Z) : result Z := bits val bit bit.

(** [first + 1] is computed as an [unsigned]. *)
Definition mbits (val first last : Z) : Z :=
  Z.land val (Z.ldiff (mask (wrap32 (first + 1))) (mask last)).

(** [mask(first, last)] *)
Definition mask_range (first last : Z) : Z := mbits all_ones first last.

Definition insertBits (val first last bit_val : Z) : result Z :=
  _ ← assert (last <=? first);
  let bmask := mask_range first last in
  Ok (Z.lor (Z.ldiff val bmask) (Z.land (wrap64 (Z.shiftl bit_val last)) bmask)).

(** [insertBits(val, bit, bit_val)] *)
Definition insertBit (val bit bit_val : Z) : result Z := insertBits val bit bit bit_val.

(** [__builtin_popcountl]: the number of ones. *)
Fixpoint count_ones (n : nat) (val : Z) : Z :=
  match n with
  | O => 0
  | S n' => Z.b2z (Z.testbit val (Z.of_nat n')) + count_ones n' val
  end.

Definition popCount (val : Z) : Z := count_ones 64 val.

(** [__builtin_ctzll]: the position of the lowest one; [n] positions are left. *)
Fixpoint lowest_one (n : nat) (val i : Z) : Z :=
  match n with
  | O => i
  | S n' => if Z.testbit val i then i else lowest_one n' val (i + 1)
  end.

Definition ctz64 (value : Z) : Z := if value =? 0 then 64 else lowest_one 64 value 0.

(** ** Bits of the results *)

Definition word (x : Z) : Prop := 0 ≤ x < 2 ^ 64.

Lemma word_high x k : word x → 64 ≤ k → Z.testbit x k = false.
Proof.
  intros Hx Hk. rewrite <- (Z.mod_small x (2 ^ 64)) by done. by apply Z.mod_pow2_bits_high.
Qed.

Lemma word_intro x : 0 ≤ x → (∀ k, 64 ≤ k → Z.testbit x k = false) → word x.
Proof.
  intros Hx Hk. split; [done|]. destruct (decide (x = 0)) as [->|Hne]; [done|].
  apply Z.log2_lt_pow2; [lia|]. destruct (decide (64 ≤ Z.log2 x)) as [Hl|Hl]; [|lia].
  assert (0 < x) as Hp by lia. pose proof (Z.bit_log2 x Hp) as Hb. by rewrite (Hk _ Hl) in Hb.
Qed.

(** Words are equal when their 64 bits are. *)
Lemma word_ext x y :
  word x → word y → (∀ k, 0 ≤ k < 64 → Z.testbit x k = Z.testbit y k) → x = y.
Proof.
  intros Hx Hy Hk. apply Z.bits_inj'. intros k Hk0. destruct (decide (k < 64)) as [Hl|Hl].
  - by apply Hk.
  - by rewrite !word_high by (done || lia).
Qed.

Lemma wrap64_word x : word (wrap64 x).
Proof. apply Z.mod_pos_bound. lia. Qed.

Lemma wrap64_bit x k : 0 ≤ k < 64 → Z.testbit (wrap64 x) k = Z.testbit x k.
Proof. intros Hk. unfold wrap64. by rewrite Z.mod_pow2_bits_low by lia. Qed.

Lemma mask_ones n : 0 ≤ n → mask n = Z.ones (n `min` 64).
Proof.
  intros Hn. unfold mask. destruct (Z.leb_spec 64 n).
  - by rewrite Z.min_r by lia.
  - rewrite Z.min_l, Z.ones_equiv, Z.shiftl_1_l by lia. lia.
Qed.

Lemma mask_bit n k : 0 ≤ n → 0 ≤ k < 64 → Z.testbit (mask n) k = (k <? n).
Proof.
  intros Hn Hk. rewrite mask_ones by done. destruct (Z.ltb_spec k n).
  - apply Z.ones_spec_low. lia.
  - apply Z.ones_spec_high. lia.
Qed.

Lemma mask_word n : 0 ≤ n → word (mask n).
Proof.
  intros Hn. rewrite mask_ones by done. rewrite Z.ones_equiv.
  pose proof (Z.pow_le_mono_r 2 (n `min` 64) 64 ltac:(lia) ltac:(lia)).
  pose proof (Z.pow_pos_nonneg 2 (n `min` 64) ltac:(lia) ltac:(lia)). unfold word. lia.
Qed.

(** The bits from [last] to [first]; the largest [unsigned] has no successor, and then
    there are none. *)
Lemma mask_range_bit first last k :
  0 ≤ last → 0 ≤ first < 2 ^ 32 - 1 → 0 ≤ k < 64 →
  Z.testbit (mask_range first last) k = (last <=? k) && (k <=? first).
Proof.
  intros Hl Hf Hk. unfold mask_range, mbits.
  assert (wrap32 (first + 1) = first + 1) as -> by (apply Z.mod_small; lia).
  rewrite Z.land_spec, Z.ldiff_spec, !mask_bit by lia.
  change all_ones with (mask 64). rewrite mask_bit by lia.
  rewrite (proj2 (Z.ltb_lt k 64)) by lia. zcases; cbn; try done; lia.
Qed.

Lemma mask_range_none last : 0 ≤ last → mask_range (2 ^ 32 - 1) last = 0.
Proof. intros Hl. unfold mask_range, mbits. reflexivity. Qed.

Lemma insertBits_word val first last b v :
  word val → insertBits val first last b = Ok v → word v.
Proof.
  unfold insertBits. intros Hv Hi. step_bind Hi as [] _. injection Hi as <-.
  pose proof (wrap64_word (Z.shiftl b last)) as Hw. apply word_intro.
  - apply Z.lor_nonneg. split.
    + apply Z.ldiff_nonneg. left. by destruct Hv.
    + apply Z.land_nonneg. left. by destruct Hw.
  - intros k Hk. rewrite Z.lor_spec, Z.ldiff_spec, Z.land_spec.
    by rewrite (word_high val), (word_high (wrap64 _)).
Qed.

(** What [insertBits] does: the bits from [last] to [first] are those of [b]. *)
Lemma insertBits_bit val first last b :
  0 ≤ last ≤ first → first < 2 ^ 32 - 1 →
  ∃ v, insertBits val first last b = Ok v ∧
    ∀ k, 0 ≤ k < 64 →
      Z.testbit v k = if (last <=? k) && (k <=? first) then Z.testbit b (k - last)
                      else Z.testbit val k.
Proof.
  intros Hl Hf. unfold insertBits. rewrite (proj2 (Z.leb_le last first)) by lia.
  eexists. split; [done|]. intros k Hk.
  rewrite Z.lor_spec, Z.ldiff_spec, Z.land_spec, wrap64_bit, mask_range_bit by lia.
  destruct (Z.leb_spec last k), (Z.leb_spec k first); cbn [andb negb];
    rewrite ?andb_true_r, ?andb_false_r, ?orb_false_r, ?orb_false_l; try done.
  by rewrite Z.shiftl_spec by lia.
Qed.

(** Below the first bit there is nothing to replace. *)
Lemma insertBits_none val b : insertBits val (2 ^ 32 - 1) 0 b = Ok val.
Proof.
  unfold insertBits. rewrite mask_range_none by done. cbn [assert].
  by rewrite Z.ldiff_0_r, Z.land_0_r, Z.lor_0_r.
Qed.

(** ** Counting and searching *)

Lemma count_ones_ext n x y :
  (∀ k, 0 ≤ k < Z.of_nat n → Z.testbit x k = Z.testbit y k) → count_ones n x = count_ones n y.
Proof.
  induction n as [|n IH]; intros Hk; cbn; [done|].
  rewrite (Hk (Z.of_nat n)) by lia. by rewrite IH by (intros; apply Hk; lia).
Qed.

(** The parity of the count is the exclusive or of the bits: a bit can be taken out. *)
Lemma count_ones_take n x y l :
  0 ≤ l < Z.of_nat n → Z.testbit y l = false →
  (∀ k, 0 ≤ k < Z.of_nat n → k ≠ l → Z.testbit y k = Z.testbit x k) →
  count_ones n x = Z.b2z (Z.testbit x l) + count_ones n y.
Proof.
  induction n as [|n IH]; intros Hl Hy Hk; [lia|]. cbn [count_ones].
  destruct (decide (l = Z.of_nat n)) as [->|Hne].
  - rewrite Hy. rewrite (count_ones_ext n x y) by (intros; symmetry; apply Hk; lia).
    cbn [Z.b2z]. lia.
  - rewrite (Hk (Z.of_nat n)) by lia. rewrite (IH ltac:(lia) Hy) by (intros; apply Hk; lia). lia.
Qed.

Lemma lowest_one_spec n x i :
  (∃ k, i ≤ k < i + Z.of_nat n ∧ Z.testbit x k = true) →
  i ≤ lowest_one n x i < i + Z.of_nat n ∧ Z.testbit x (lowest_one n x i) = true ∧
  ∀ k, i ≤ k < lowest_one n x i → Z.testbit x k = false.
Proof.
  revert i. induction n as [|n IH]; intros i (k & Hk & Hx); [lia|]. cbn [lowest_one].
  destruct (Z.testbit x i) eqn:E; [split_and!; [lia|lia|done|intros; lia]|].
  assert (k ≠ i) by congruence.
  destruct (IH (i + 1)) as (H1 & H2 & H3); [exists k; split; [lia|done]|].
  split_and!; [lia|lia|done|]. intros j Hj. destruct (decide (j = i)) as [->|]; [done|].
  apply H3. lia.
Qed.

(** [ctz64] of a word that is not zero is its lowest one. *)
Lemma ctz64_spec x :
  word x → x ≠ 0 → 0 ≤ ctz64 x < 64 ∧ Z.testbit x (ctz64 x) = true ∧
  ∀ k, 0 ≤ k < ctz64 x → Z.testbit x k = false.
Proof.
  intros Hx Hne. unfold ctz64. rewrite (proj2 (Z.eqb_neq x 0)) by done.
  destruct (lowest_one_spec 64 x 0) as (H1 & H2 & H3).
  - destruct Hx. assert (0 ≤ Z.log2 x < 64) as Hl.
    { split; [apply Z.log2_nonneg|]. apply Z.log2_lt_pow2; lia. }
    exists (Z.log2 x). split; [lia|]. apply Z.bit_log2. lia.
  - split_and!; [lia|lia|done|done].
Qed.
