(* ===== verification/AddrRange.v ===== *)
(** * Address ranges

    [base/addr_range.hh]: ranges of addresses, contiguous or interleaved.  An interleaved
    range holds the addresses between its bounds whose selector, one bit for each mask,
    equals its match value; removing the interleaving bits numbers these addresses
    densely.  Addresses are 64-bit words; a range has at most 31 masks, so that the
    selector is an [int]. *)

From stdpp Require Import sorting.
From S2P Require Import Prelude.
From S2P Require Import Bitfield.

#[local] Open Scope Z_scope.

Module AddrRange.

Record t := mk {
  _start : Z;
  _end : Z;
  masks : list Z;
  intlvMatch : Z;
}.

#[export] Instance addr_range_eq_dec : EqDecision t.
Proof. solve_decision. Defined.

(** [AddrRange()] and [AddrRange(_start, _end)] *)
Definition invalid : t := mk 1 0 [] 0.
Definition make (start end_ : Z) : t := mk start end_ [] 0.

(** [AddrRange(_start, _end, _masks, _intlv_match)] *)
Definition make_masks (start end_ : Z) (ms : list Z) (m : Z) : result t :=
  _ ← fatal_if (negb (bool_decide (ms = [])) && (wrap64 (Z.shiftl 1 (zlen ms)) <=? m));
  Ok (mk start end_ ms m).

(** [uint8_t] arithmetic. *)
Definition wrap8 (x : Z) : Z := x mod 2 ^ 8.

(** [1ULL << bit] *)
Definition shift_one (bit : Z) : result Z :=
  if bit <? 64 then Ok (Z.shiftl 1 bit) else Err Undefined.

(** The masks of the legacy constructor, from the one for the lowest bit; [i] counts down
    from [_intlv_bits]. *)
Fixpoint legacy_masks (intlv_high xor_high : Z) (i : nat) : result (list Z) :=
  match i with
  | O => Ok []
  | S i' =>
      m ← shift_one (wrap8 (intlv_high - Z.of_nat i'));
      m ← (if xor_high =? 0 then Ok m
           else x ← shift_one (wrap8 (xor_high - Z.of_nat i')); Ok (Z.lor m x));
      ms ← legacy_masks intlv_high xor_high i';
      Ok (m :: ms)
  end.

(** The legacy constructor. *)
Definition make_legacy (start end_ intlv_high xor_high intlv_bits m : Z) : result t :=
  _ ← fatal_if (negb (intlv_bits =? 0) && (wrap64 (Z.shiftl 1 intlv_bits) <=? m));
  _ ← (if negb (intlv_bits =? 0) && negb (xor_high =? 0) then
         if xor_high =? intlv_high then Err FatalError
         else if intlv_high <? xor_high then fatal_if (xor_high - intlv_high <? intlv_bits)
         else fatal_if (intlv_high - xor_high <? intlv_bits)
       else Ok tt);
  ms ← legacy_masks intlv_high xor_high (Z.to_nat intlv_bits);
  Ok (mk start end_ ms m).

Definition interleaved (r : t) : bool := 0 <? zlen (masks r).

Definition stripes (r : t) : Z := wrap32 (Z.shiftl 1 (zlen (masks r))).

Definition size (r : t) : Z := Z.shiftr (wrap64 (_end r - _start r)) (zlen (masks r)).

Definition valid (r : t) : bool := _start r <=? _end r.

(** An [int] converted to [uint64_t]. *)
Definition sign_extend (x : Z) : Z := if Z.testbit x 31 then x + 2 ^ 64 - 2 ^ 32 else x.

(** [granularity()]; [combined_mask] is an [int]. *)
Definition granularity (r : t) : result Z :=
  if interleaved r then
    let combined_mask := foldl (λ c m, wrap32 (Z.lor (sign_extend c) m)) 0 (masks r) in
    shift_one (ctz64 (sign_extend combined_mask))
  else Ok (size r).

Definition mergesWith (r s : t) : bool :=
  (_start s =? _start r) && (_end s =? _end r) && bool_decide (masks s = masks r).

(** The selector of an address: one bit for each mask. *)
Fixpoint sel_from (i : Z) (ms : list Z) (a sel : Z) : Z :=
  match ms with
  | [] => sel
  | m :: ms' => sel_from (i + 1) ms' a (Z.lor sel (Z.shiftl (popCount (Z.land a m) mod 2) i))
  end.

Definition contains (r : t) (a : Z) : bool :=
  if (_start r <=? a) && (a <? _end r) then sel_from 0 (masks r) a 0 =? intlvMatch r
  else false.

Definition intersects (r s : t) : result bool :=
  if (_end s <=? _start r) || (_end r <=? _start s) then Ok false
  else if negb (interleaved r) && negb (interleaved s) then Ok true
  else if size s =? 1 then Ok (contains r (_start s))
  else if mergesWith r s then Ok (intlvMatch r =? intlvMatch s)
  else Err Panicked.

Definition isSubset (r s : t) : result bool :=
  _ ← panic_if (interleaved r);
  if interleaved s then
    if contains s (_start r) && contains s (wrap64 (_end r - 1)) then
      g ← granularity s; Ok (size r <=? g)
    else Ok false
  else Ok ((_start s <=? _start r) && (_end r <=? _end s)).

(** The lowest bits of the masks, sorted. *)
Definition masks_lsb (r : t) : list Z := merge_sort Z.le (ctz64 <$> masks r).

(** The loop of [removeIntlvBits]; [intlv_bit - i - 1] is an [unsigned]. *)
Fixpoint remove_from (i : Z) (lsbs : list Z) (a : Z) : result Z :=
  match lsbs with
  | [] => Ok a
  | intlv_bit :: lsbs' =>
      a ← (if 0 <? intlv_bit then insertBits (Z.shiftr a 1) (wrap32 (intlv_bit - i - 1)) 0 a
           else Ok (Z.shiftr a 1));
      remove_from (i + 1) lsbs' a
  end.

Definition removeIntlvBits (r : t) (a : Z) : result Z :=
  if negb (interleaved r) then Ok a else remove_from 0 (masks_lsb r) a.

(** The two loops of [addIntlvBits]. *)
Fixpoint insert_from (lsbs : list Z) (a : Z) : result Z :=
  match lsbs with
  | [] => Ok a
  | intlv_bit :: lsbs' =>
      a ← (if 0 <? intlv_bit then insertBits (wrap64 (Z.shiftl a 1)) (intlv_bit - 1) 0 a
           else Ok (wrap64 (Z.shiftl a 1)));
      insert_from lsbs' a
  end.

(** [~(1 << lsb)], an [int] converted to [Addr]. *)
Definition clear_mask (lsb : Z) : result Z :=
  if lsb <? 31 then Ok (2 ^ 64 - 1 - 2 ^ lsb)
  else if lsb =? 31 then Ok (2 ^ 31 - 1)
  else Err Undefined.

Fixpoint match_from (i : Z) (ms : list Z) (intlv_match a : Z) : result Z :=
  match ms with
  | [] => Ok a
  | m :: ms' =>
      let lsb := ctz64 m in
      intlv_bit ← bit_at intlv_match i;
      c ← clear_mask lsb;
      let masked := Z.land (Z.land a m) c in
      a ← insertBit a lsb (Z.lxor intlv_bit (popCount masked));
      match_from (i + 1) ms' intlv_match a
  end.

Definition addIntlvBits (r : t) (a : Z) : result Z :=
  if negb (interleaved r) then Ok a
  else a ← insert_from (masks_lsb r) a; match_from 0 (masks r) (intlvMatch r) a.

Definition MaxAddr : Z := 2 ^ 64 - 1.

Definition getOffset (r : t) (a : Z) : result Z :=
  if negb ((_start r <=? a) && (a <? _end r)) then Ok MaxAddr
  else if interleaved r then
    x ← removeIntlvBits r a; s ← removeIntlvBits r (_start r); Ok (wrap64 (x - s))
  else Ok (wrap64 (a - _start r)).

(** [operator<], [operator==] and [operator&] *)
Definition range_lt (r s : t) : bool :=
  if negb (_start r =? _start s) then _start r <? _start s
  else if interleaved r && interleaved s then intlvMatch r <? intlvMatch s
  else interleaved r.

Definition range_eq (r s : t) : bool :=
  (_start r =? _start s) && (_end r =? _end s) && bool_decide (masks r = masks s) &&
  (intlvMatch r =? intlvMatch s).

Definition range_and (r s : t) : result t :=
  _ ← panic_if (interleaved r || interleaved s);
  let start := Z.max (_start r) (_start s) in
  let end_ := Z.min (_end r) (_end s) in
  Ok (if end_ <=? start then make 0 0 else make start end_).

(** [std::list::sort], which is stable. *)
Fixpoint insert_range (e : t) (l : list t) : list t :=
  match l with
  | [] => [e]
  | x :: l' => if range_lt e x then e :: l else x :: insert_range e l'
  end.

Definition sort_ranges (l : list t) : list t := foldl (λ acc e, insert_range e acc) [] l.

(** The loop of [exclude]; the ranges are returned from the first. *)
Fixpoint exclude_from (r : t) (next_start : Z) (l : list t) : result (list t) :=
  match l with
  | [] => Ok (if next_start <? _end r then [make next_start (_end r)] else [])
  | e :: l' =>
      _ ← assert (negb (interleaved e));
      i ← intersects r e;
      if negb i then exclude_from r next_start l'
      else if _start e <=? next_start then
        if _end e <? _end r then
          exclude_from r (if next_start <? _end e then _end e else next_start) l'
        else Ok []
      else
        if _end e <? _end r then
          rs ← exclude_from r (_end e) l'; Ok (make next_start (_start e) :: rs)
        else Ok [make next_start (_start e)]
  end.

Definition exclude (r : t) (l : list t) : result (list t) :=
  _ ← assert (negb (interleaved r));
  exclude_from r (_start r) (sort_ranges l).

(** [exclude(base, to_exclude)] on lists; the list is sorted there and in each call. *)
Fixpoint exclude_each (base sorted : list t) : result (list t) :=
  match base with
  | [] => Ok []
  | r :: base' => rs ← exclude r sorted; rest ← exclude_each base' sorted; Ok (rs ++ rest)
  end.

Definition exclude_ranges (base to_exclude : list t) : result (list t) :=
  exclude_each base (sort_ranges to_exclude).

Definition RangeEx (start end_ : Z) : t := make start end_.
Definition RangeIn (start end_ : Z) : t := make start (wrap64 (end_ + 1)).
Definition RangeSize (start size : Z) : t := make start (wrap64 (start + size)).

(** The merge of interleaved ranges: the match values must count up from zero. *)
Fixpoint merge_check (first : t) (l : list t) (m : Z) : result unit :=
  match l with
  | [] => Ok tt
  | r :: l' =>
      _ ← fatal_if (negb (mergesWith first r));
      _ ← fatal_if (negb (intlvMatch r =? m));
      merge_check first l' (wrap8 (m + 1))
  end.

Definition merge (l : list t) : result t :=
  match l with
  | [] => Ok invalid
  | [r] => Ok r
  | r :: _ => _ ← merge_check r l 0; Ok (mk (_start r) (_end r) [] 0)
  end.

End AddrRange.
