(* ===== verification/AddrFacts.v ===== *)
(** * What the address ranges promise

    [exclude] computes the difference of ranges; the interleaved ranges that differ in
    their match values partition the addresses between their bounds; removing and adding
    the interleaving bits are inverse. *)

From stdpp Require Import sorting.
From S2P Require Import Prelude.
From S2P Require Import Bitfield.
From S2P Require Import AddrRange.

#[local] Open Scope Z_scope.

Import AddrRange.

(** ** Exclusion *)

Definition by_start (r s : t) : Prop := _start r ≤ _start s.

Lemma range_lt_start r s : range_lt r s = true → _start r ≤ _start s.
Proof.
  unfold range_lt. destruct (Z.eqb_spec (_start r) (_start s)); cbn [negb]; [lia|].
  intros Hl%Z.ltb_lt. lia.
Qed.

Lemma range_lt_not r s : range_lt r s = false → _start s ≤ _start r.
Proof.
  unfold range_lt. destruct (Z.eqb_spec (_start r) (_start s)); cbn [negb]; [lia|].
  intros Hl%Z.ltb_ge. lia.
Qed.

Lemma insert_range_elem e l x : x ∈ insert_range e l ↔ x = e ∨ x ∈ l.
Proof.
  induction l as [|y l IH]; cbn [insert_range].
  - rewrite list_elem_of_singleton. split; [by left|]. by intros [?|?%not_elem_of_nil].
  - destruct (range_lt e y); [by rewrite elem_of_cons|].
    rewrite !elem_of_cons, IH. tauto.
Qed.

Lemma insert_range_sorted e l :
  StronglySorted by_start l → StronglySorted by_start (insert_range e l).
Proof.
  induction 1 as [|y l Hl IH Hy]; cbn [insert_range]; [by repeat constructor|].
  destruct (range_lt e y) eqn:E.
  - apply range_lt_start in E. constructor; [by constructor|]. constructor; [done|].
    eapply Forall_impl; [exact Hy|]. intros z Hz. unfold by_start in *. lia.
  - apply range_lt_not in E. constructor; [done|]. apply Forall_forall.
    intros z [->|Hz]%insert_range_elem; [done|]. by eapply Forall_forall in Hy.
Qed.

Lemma sort_ranges_spec l :
  StronglySorted by_start (sort_ranges l) ∧ ∀ x, x ∈ sort_ranges l ↔ x ∈ l.
Proof.
  unfold sort_ranges.
  assert (∀ acc, StronglySorted by_start acc →
    StronglySorted by_start (foldl (λ acc e, insert_range e acc) acc l) ∧
    ∀ x, x ∈ foldl (λ acc e, insert_range e acc) acc l ↔ x ∈ acc ∨ x ∈ l) as H.
  { induction l as [|e l IH]; intros acc Ha; cbn [foldl].
    - split; [done|]. intros x. split; [by left|]. by intros [?|?%not_elem_of_nil].
    - destruct (IH (insert_range e acc)) as [H1 H2]; [by apply insert_range_sorted|].
      split; [done|]. intros x. rewrite H2, insert_range_elem, elem_of_cons. tauto. }
  destruct (H [] ltac:(constructor)) as [H1 H2]. split; [done|]. intros x. rewrite H2.
  split; [|by right]. by intros [?%not_elem_of_nil|?].
Qed.

(** A contiguous range. *)
Definition plain (r : t) : Prop := masks r = [] ∧ intlvMatch r = 0.

Lemma plain_contains r a : plain r → contains r a = true ↔ _start r ≤ a < _end r.
Proof.
  intros [Hm H0]. unfold contains. rewrite Hm, H0. cbn [sel_from].
  destruct (Z.leb_spec (_start r) a), (Z.ltb_spec a (_end r)); cbn; split; done || lia.
Qed.

Lemma plain_interleaved r : plain r → interleaved r = false.
Proof. intros [Hm _]. unfold interleaved. by rewrite Hm. Qed.

Lemma plain_intersects r s :
  plain r → plain s →
  intersects r s = Ok (negb ((_end s <=? _start r) || (_end r <=? _start s))).
Proof.
  intros Hr Hs. unfold intersects. destruct (_ || _); [done|].
  by rewrite !plain_interleaved.
Qed.

Definition in_some (rs : list t) (a : Z) : Prop := ∃ r, r ∈ rs ∧ contains r a = true.

Lemma in_some_nil a : in_some [] a ↔ False.
Proof. split; [|done]. by intros (r & Hr%not_elem_of_nil & _). Qed.

Lemma in_some_make s e rs a : in_some (make s e :: rs) a ↔ s ≤ a < e ∨ in_some rs a.
Proof.
  assert (contains (make s e) a = true ↔ s ≤ a < e) as Hm by by apply plain_contains.
  unfold in_some. split.
  - intros (r & [->|Hr]%elem_of_cons & Ha); [left; by apply Hm|right; by exists r].
  - intros [Ha|(r & Hr & Ha)].
    + exists (make s e). split; [by left|by apply Hm].
    + exists r. split; [by right|done].
Qed.

Lemma outside_cons e l a :
  plain e →
  (∀ x, x ∈ e :: l → contains x a = false) ↔
  ¬ (_start e ≤ a < _end e) ∧ ∀ x, x ∈ l → contains x a = false.
Proof.
  intros He. rewrite <- (plain_contains e a He). split.
  - intros Hx. split; [rewrite (Hx e); [done|by left]|]. intros x Hx'. apply Hx. by right.
  - intros [Hx Hx'] x [->|Hin]%elem_of_cons; [by apply not_true_is_false|by apply Hx'].
Qed.

(** What lies before a range lies before the ranges sorted after it. *)
Lemma later_free e l a :
  Forall (λ e, plain e ∧ _start e ≤ _end e) l → Forall (by_start e) l → a < _start e →
  ∀ x, x ∈ l → contains x a = false.
Proof.
  intros Hl Hse Ha x Hx. apply not_true_is_false.
  eapply Forall_forall in Hl as [Hpx _]; [|exact Hx]. rewrite (plain_contains x a Hpx).
  eapply Forall_forall in Hse; [|exact Hx]. unfold by_start in Hse. lia.
Qed.

(** The loop: what is left of [[next_start, _end r)] outside the remaining ranges. *)
Lemma exclude_from_spec r n l :
  plain r → _start r ≤ n → Forall (λ e, plain e ∧ _start e ≤ _end e) l →
  StronglySorted by_start l →
  ∃ rs, exclude_from r n l = Ok rs ∧ Forall plain rs ∧
    ∀ a, in_some rs a ↔ n ≤ a < _end r ∧ ∀ e, e ∈ l → contains e a = false.
Proof.
  intros Hr. revert n. induction l as [|e l IH]; intros n Hn Hl Hs; cbn [exclude_from].
  - destruct (Z.ltb_spec n (_end r)).
    + eexists. split; [done|]. split; [by repeat constructor|]. intros a.
      rewrite in_some_make, in_some_nil. split; [|tauto].
      intros [Ha|[]]. split; [done|]. by intros e He%not_elem_of_nil.
    + exists []. split; [done|]. split; [constructor|]. intros a. rewrite in_some_nil. lia.
  - apply Forall_cons in Hl as [[He Hv] Hl]. apply StronglySorted_inv in Hs as [Hs Hse].
    rewrite (plain_interleaved e He). cbn [assert negb rbind].
    rewrite (plain_intersects r e Hr He). cbn [rbind].
    pose proof (λ a, outside_cons e l a He) as Hcons.
    destruct (Z.leb_spec (_end e) (_start r)) as [H1|H1];
      [|destruct (Z.leb_spec (_end r) (_start e)) as [H2|H2]]; cbn [orb negb].
    + destruct (IH n Hn Hl Hs) as (rs & E & Hp & Ha). exists rs. split; [done|]. split; [done|].
      intros a. rewrite Ha, Hcons. split; [|tauto]. intros [Hb Hx]. split_and!; [lia|lia|lia|done].
    + destruct (IH n Hn Hl Hs) as (rs & E & Hp & Ha). exists rs. split; [done|]. split; [done|].
      intros a. rewrite Ha, Hcons. split; [|tauto]. intros [Hb Hx]. split_and!; [lia|lia|lia|done].
    + destruct (Z.leb_spec (_start e) n) as [H3|H3];
        destruct (Z.ltb_spec (_end e) (_end r)) as [H4|H4].
      * destruct (IH (if n <? _end e then _end e else n)) as (rs & E & Hp & Ha);
          [destruct (Z.ltb_spec n (_end e)); lia|done|done|].
        exists rs. split; [done|]. split; [done|]. intros a. rewrite Ha, Hcons.
        destruct (Z.ltb_spec n (_end e)); split; intros [Hb Hx];
          (split; [lia|]); try tauto; (split; [lia|]); tauto.
      * exists []. split; [done|]. split; [constructor|]. intros a. rewrite in_some_nil, Hcons. lia.
      * destruct (IH (_end e)) as (rs & E & Hp & Ha); [lia|done|done|]. rewrite E.
        eexists. split; [done|]. split; [by repeat constructor|]. intros a.
        rewrite in_some_make, Ha, Hcons. split.
        -- intros [Hb|[Hb Hx]]; [|split; [lia|split; [lia|done]]].
           split; [lia|]. split; [lia|]. by eapply later_free; [exact Hl|exact Hse|lia].
        -- intros (Hb & Hne & Hx). destruct (decide (a < _start e)); [left; lia|right].
           split; [lia|done].
      * eexists. split; [done|]. split; [by repeat constructor|]. intros a.
        rewrite in_some_make, in_some_nil, Hcons. split.
        -- intros [Hb|[]]. split; [lia|]. split; [lia|]. by eapply later_free; [exact Hl|exact Hse|lia].
        -- intros (Hb & Hne & Hx). left. lia.
Qed.

Lemma exclude_spec r l :
  plain r → Forall (λ e, plain e ∧ _start e ≤ _end e) l →
  ∃ rs, exclude r l = Ok rs ∧ Forall plain rs ∧
    ∀ a, in_some rs a ↔ contains r a = true ∧ ∀ e, e ∈ l → contains e a = false.
Proof.
  intros Hr Hl. destruct (sort_ranges_spec l) as [Hs Hin]. unfold exclude.
  rewrite (plain_interleaved r Hr). cbn [assert negb rbind].
  destruct (exclude_from_spec r (_start r) (sort_ranges l)) as (rs & E & Hp & Ha); [done|lia| |done|].
  { apply Forall_forall. intros e He%Hin. by eapply Forall_forall in Hl. }
  exists rs. split; [done|]. split; [done|]. intros a. rewrite Ha, plain_contains by done.
  by setoid_rewrite Hin.
Qed.

Lemma in_some_app rs rs' a : in_some (rs ++ rs') a ↔ in_some rs a ∨ in_some rs' a.
Proof. unfold in_some. setoid_rewrite elem_of_app. naive_solver. Qed.

Lemma in_some_cons r rs a : in_some (r :: rs) a ↔ contains r a = true ∨ in_some rs a.
Proof. unfold in_some. setoid_rewrite elem_of_cons. naive_solver. Qed.

(** [exclude] computes the difference.  On contiguous ranges it does not fail, and
    an address is in one of the ranges it returns exactly when it is in one of the base
    ranges and in none of the excluded ones, which may overlap and come in any order. *)
Theorem exclude_correct base l :
  Forall plain base → Forall (λ e, plain e ∧ _start e ≤ _end e) l →
  ∃ rs, exclude_ranges base l = Ok rs ∧ Forall plain rs ∧
    ∀ a, in_some rs a ↔ in_some base a ∧ ∀ e, e ∈ l → contains e a = false.
Proof.
  intros Hb Hl. destruct (sort_ranges_spec l) as [_ Hin]. unfold exclude_ranges.
  assert (Forall (λ e, plain e ∧ _start e ≤ _end e) (sort_ranges l)) as Hs.
  { apply Forall_forall. intros e He%Hin. by eapply Forall_forall in Hl. }
  setoid_rewrite <- Hin. clear Hl Hin. induction Hb as [|r base Hr Hb IH]; cbn [exclude_each].
  - exists []. split; [done|]. split; [constructor|]. intros a. rewrite in_some_nil. tauto.
  - destruct (exclude_spec r (sort_ranges l) Hr Hs) as (rs & -> & Hp & Ha).
    destruct IH as (rest & -> & Hp' & Ha'). eexists. split; [done|].
    split; [by apply Forall_app|]. intros a. rewrite in_some_app, in_some_cons, Ha, Ha'. tauto.
Qed.
