(* ===== verification/Interleaving.v ===== *)
(** * Interleaved address ranges

    The addresses of an interleaved range and the numbers [removeIntlvBits] gives them. *)

From stdpp Require Import sorting.
From S2P Require Import Prelude.
From S2P Require Import Bitfield.
From S2P Require Import AddrRange.

#[local] Open Scope Z_scope.

Import AddrRange.

(** ** The selector *)

Definition selector (r : t) (a : Z) : Z := sel_from 0 (masks r) a 0.

(** The exclusive or of the bits of [a] under the mask [m]. *)
Definition parity (a m : Z) : bool := Z.odd (popCount (Z.land a m)).

Lemma mod2_b2z x : x mod 2 = Z.b2z (Z.odd x).
Proof. rewrite Zmod_odd. by destruct (Z.odd x). Qed.

Lemma b2z_shift_bit b i k : 0 ≤ i → 0 ≤ k → Z.testbit (Z.shiftl (Z.b2z b) i) k = (k =? i) && b.
Proof.
  intros Hi Hk. rewrite Z.shiftl_spec by done. destruct (Z.eqb_spec k i) as [->|Hne].
  - rewrite Z.sub_diag. by destruct b.
  - destruct (decide (k < i)); [by rewrite Z.testbit_neg_r by lia|].
    destruct b; [|by rewrite Z.testbit_0_l]. change (Z.b2z true) with (2 ^ 0).
    rewrite Z.pow2_bits_eqb by lia. destruct (Z.eqb_spec 0 (k - i)); [lia|done].
Qed.

Lemma sel_from_bit i ms a s k :
  0 ≤ i → 0 ≤ k →
  Z.testbit (sel_from i ms a s) k =
    Z.testbit s k || match zlookup ms (k - i) with Some m => parity a m | None => false end.
Proof.
  revert i s. induction ms as [|m ms IH]; intros i s Hi Hk; cbn [sel_from].
  - assert (zlookup (@nil Z) (k - i) = None) as -> by (unfold zlookup; by case_match).
    by rewrite orb_false_r.
  - rewrite IH, Z.lor_spec, mod2_b2z, b2z_shift_bit by lia. rewrite <- orb_assoc. f_equal.
    unfold zlookup. destruct (Z.eqb_spec k i) as [->|Hne].
    + rewrite Z.sub_diag. cbn. destruct (Z.leb_spec 0 (i - (i + 1))); [lia|].
      by rewrite orb_false_r.
    + destruct (Z.leb_spec 0 (k - (i + 1))), (Z.leb_spec 0 (k - i)); try lia; cbn [andb orb].
      replace (Z.to_nat (k - i)) with (S (Z.to_nat (k - (i + 1)))) by lia. done.
Qed.

Lemma selector_bit r a k :
  0 ≤ k → Z.testbit (selector r a) k =
            match zlookup (masks r) k with Some m => parity a m | None => false end.
Proof.
  intros Hk. unfold selector. rewrite sel_from_bit by lia.
  by rewrite Z.testbit_0_l, Z.sub_0_r.
Qed.

Lemma sel_from_nonneg i ms a s : 0 ≤ s → 0 ≤ sel_from i ms a s.
Proof.
  revert i s. induction ms as [|m ms IH]; intros i s Hs; cbn [sel_from]; [done|].
  apply IH, Z.lor_nonneg. split; [done|]. apply Z.shiftl_nonneg. rewrite mod2_b2z.
  by destruct (Z.odd _).
Qed.

Lemma bits_above_lt x n : 0 ≤ x → 0 ≤ n → (∀ k, n ≤ k → Z.testbit x k = false) → x < 2 ^ n.
Proof.
  intros Hx Hn Hk. destruct (decide (x = 0)) as [->|Hne]; [by apply Z.pow_pos_nonneg|].
  apply Z.log2_lt_pow2; [lia|]. destruct (decide (n ≤ Z.log2 x)) as [Hl|Hl]; [|lia].
  assert (0 < x) as Hp by lia. pose proof (Z.bit_log2 x Hp) as Hb. by rewrite (Hk _ Hl) in Hb.
Qed.

(** The selector has as many bits as there are masks. *)
Lemma selector_bound r a : 0 ≤ selector r a < 2 ^ zlen (masks r).
Proof.
  split; [by apply sel_from_nonneg|]. apply bits_above_lt;
    [by apply sel_from_nonneg|apply zlen_nonneg|].
  intros k Hk. pose proof (zlen_nonneg (masks r)). rewrite selector_bit by lia.
  destruct (zlookup (masks r) k) eqn:E; [|done]. apply zlookup_lt in E. lia.
Qed.

(** A match value is the selector when every bit is the parity of its mask. *)
Lemma selector_eq r a m :
  0 ≤ m < 2 ^ zlen (masks r) →
  selector r a = m ↔ ∀ j x, zlookup (masks r) j = Some x → parity a x = Z.testbit m j.
Proof.
  intros Hm. split.
  - intros <- j x Hj. pose proof (zlookup_lt _ _ _ Hj). rewrite selector_bit by lia. by rewrite Hj.
  - intros Hj. apply Z.bits_inj'. intros k Hk. rewrite selector_bit by done.
    destruct (zlookup (masks r) k) as [x|] eqn:E; [by apply Hj|].
    symmetry. destruct (decide (k < zlen (masks r))).
    { destruct (zlookup_is_Some (masks r) k) as [y Hy]; [lia|congruence]. }
    rewrite <- (Z.mod_small m (2 ^ zlen (masks r))) by done.
    apply Z.mod_pow2_bits_high. pose proof (zlen_nonneg (masks r)). lia.
Qed.

Lemma contains_selector r a :
  contains r a = true ↔ _start r ≤ a < _end r ∧ selector r a = intlvMatch r.
Proof.
  unfold contains, selector.
  destruct (Z.leb_spec (_start r) a), (Z.ltb_spec a (_end r)); cbn [andb];
    rewrite ?Z.eqb_eq; intuition (done || lia).
Qed.

(** ** Positions

    [bs] is the increasing list of the interleaving bits.  [rank bs k] is where bit [k]
    goes when they are removed, [unrank 0 bs j] where bit [j] comes from. *)

Fixpoint asc (lo : Z) (bs : list Z) : Prop :=
  match bs with
  | [] => True
  | b :: bs' => lo ≤ b < 64 ∧ asc (b + 1) bs'
  end.

Fixpoint rank (bs : list Z) (k : Z) : Z :=
  match bs with
  | [] => k
  | b :: bs' => if rank bs' k <? b then rank bs' k else rank bs' k - 1
  end.

(** [i] bits have been removed already. *)
Fixpoint unrank (i : Z) (bs : list Z) (j : Z) : Z :=
  match bs with
  | [] => j
  | b :: bs' => if unrank (i + 1) bs' j <? b - i then unrank (i + 1) bs' j
                else unrank (i + 1) bs' j + 1
  end.

Lemma rank_low lo bs k : asc lo bs → k < lo → rank bs k = k.
Proof.
  revert lo. induction bs as [|b bs IH]; intros lo; cbn; [done|]. intros [Hb Ha] Hk.
  rewrite (IH _ Ha) by lia. destruct (Z.ltb_spec k b); lia.
Qed.

Lemma asc_not_low lo bs k : asc lo bs → k < lo → k ∉ bs.
Proof.
  revert lo. induction bs as [|b bs IH]; intros lo; cbn; [by intros; apply not_elem_of_nil|].
  intros [Hb Ha] Hk. rewrite not_elem_of_cons. split; [lia|]. eapply IH; [exact Ha|lia].
Qed.

Lemma rank_high lo bs k : asc lo bs → k ∉ bs → lo ≤ k → lo ≤ rank bs k ≤ k.
Proof.
  revert lo. induction bs as [|b bs IH]; intros lo; cbn; [lia|]. intros [Hb Ha] Hk Hlo.
  apply not_elem_of_cons in Hk as [Hne Hk]. destruct (decide (k < b)).
  - rewrite (rank_low _ _ _ Ha) by lia. destruct (Z.ltb_spec k b); lia.
  - pose proof (IH _ Ha Hk ltac:(lia)). destruct (Z.ltb_spec (rank bs k) b); lia.
Qed.

Lemma unrank_low lo i bs j : asc lo bs → j < lo - i → unrank i bs j = j.
Proof.
  revert lo i. induction bs as [|b bs IH]; intros lo i; cbn; [done|]. intros [Hb Ha] Hj.
  rewrite (IH _ _ Ha) by lia. destruct (Z.ltb_spec j (b - i)); lia.
Qed.

Lemma unrank_rank lo i bs k :
  asc lo bs → k ∉ bs → unrank i bs (rank bs k - i) = k - i.
Proof.
  revert lo i. induction bs as [|b bs IH]; intros lo i; cbn; [done|]. intros [Hb Ha] Hk.
  apply not_elem_of_cons in Hk as [Hne Hk]. destruct (decide (k < b)).
  - rewrite (rank_low _ _ _ Ha) by lia. rewrite (proj2 (Z.ltb_lt k b)) by done.
    rewrite (unrank_low _ _ _ _ Ha) by lia. by rewrite (proj2 (Z.ltb_lt _ _)) by lia.
  - pose proof (rank_high _ _ _ Ha Hk ltac:(lia)) as Hr.
    rewrite (proj2 (Z.ltb_ge (rank bs k) b)) by lia.
    replace (rank bs k - 1 - i) with (rank bs k - (i + 1)) by lia. rewrite (IH _ _ Ha Hk).
    rewrite (proj2 (Z.ltb_ge _ _)) by lia. lia.
Qed.

Lemma rank_unrank lo i bs j :
  asc lo bs → unrank i bs j + i ∉ bs ∧ rank bs (unrank i bs j + i) = j + i.
Proof.
  revert lo i. induction bs as [|b bs IH]; intros lo i; cbn.
  - intros _. split; [apply not_elem_of_nil|done].
  - intros [Hb Ha]. destruct (IH _ (i + 1) Ha) as [H1 H2].
    set (u := unrank (i + 1) bs j) in *. destruct (Z.ltb_spec u (b - i)) as [Hu|Hu].
    + assert (u = j) as Hj by (rewrite (rank_low _ _ _ Ha) in H2; lia).
      rewrite (rank_low _ _ _ Ha) by lia. rewrite (proj2 (Z.ltb_lt (u + i) b)) by lia.
      split; [|lia]. rewrite not_elem_of_cons. split; [lia|].
      eapply asc_not_low; [exact Ha|lia].
    + replace (u + 1 + i) with (u + (i + 1)) by lia.
      pose proof (rank_high _ _ _ Ha H1 ltac:(lia)) as Hr. rewrite H2 in Hr |- *.
      rewrite (proj2 (Z.ltb_ge _ _)) by lia. split; [|lia]. rewrite not_elem_of_cons.
      split; [lia|done].
Qed.

Lemma asc_length lo bs : asc lo bs → lo ≤ 64 → Z.of_nat (length bs) ≤ 64 - lo.
Proof.
  revert lo. induction bs as [|b bs IH]; intros lo; cbn [asc length]; [lia|].
  intros [Hb Ha] _. pose proof (IH _ Ha ltac:(lia)). lia.
Qed.

(** The bits that stay are moved to the lowest positions. *)
Lemma rank_bound lo bs k :
  asc lo bs → k ∉ bs → k < 64 → rank bs k + Z.of_nat (length bs) < 64.
Proof.
  revert lo. induction bs as [|b bs IH]; intros lo; cbn [asc rank length]; [lia|].
  intros [Hb Ha] Hk Hlt. apply not_elem_of_cons in Hk as [Hne Hk]. destruct (decide (k < b)).
  - rewrite (rank_low _ _ _ Ha) by lia. rewrite (proj2 (Z.ltb_lt k b)) by done.
    pose proof (asc_length _ _ Ha ltac:(lia)). lia.
  - pose proof (rank_high _ _ _ Ha Hk ltac:(lia)). rewrite (proj2 (Z.ltb_ge _ _)) by lia.
    pose proof (IH _ Ha Hk Hlt). lia.
Qed.

Lemma unrank_ge i bs j : j ≤ unrank i bs j ≤ j + Z.of_nat (length bs).
Proof.
  revert i. induction bs as [|b bs IH]; intros i; cbn [unrank length]; [lia|].
  pose proof (IH (i + 1)). destruct (_ <? _); lia.
Qed.

(** ** Removing and inserting bits *)

Lemma shiftr_word a : word a → word (Z.shiftr a 1).
Proof.
  intros Ha. apply word_intro; [apply Z.shiftr_nonneg; by destruct Ha|].
  intros k Hk. rewrite Z.shiftr_spec by lia. apply word_high; [done|lia].
Qed.

(** One step of [removeIntlvBits]: position [b - i] goes. *)
Lemma remove_step a b i :
  word a → 0 ≤ i ≤ b → b < 64 →
  ∃ v, (if 0 <? b then insertBits (Z.shiftr a 1) (wrap32 (b - i - 1)) 0 a
        else Ok (Z.shiftr a 1)) = Ok v ∧ word v ∧
    ∀ k, 0 ≤ k → Z.testbit v k = Z.testbit a (if k <? b - i then k else k + 1).
Proof.
  intros Ha Hi Hb. assert (∀ v, word v →
    (∀ k, 0 ≤ k < 64 → Z.testbit v k = Z.testbit a (if k <? b - i then k else k + 1)) →
    ∀ k, 0 ≤ k → Z.testbit v k = Z.testbit a (if k <? b - i then k else k + 1)) as Hall.
  { intros v Hv Hk k Hk0. destruct (decide (k < 64)); [by apply Hk|].
    rewrite (proj2 (Z.ltb_ge k (b - i))) by lia. by rewrite !word_high by (done || lia). }
  assert (b = i → ∀ k, 0 ≤ k →
    Z.testbit (Z.shiftr a 1) k = Z.testbit a (if k <? b - i then k else k + 1)) as Heq.
  { intros -> k Hk. rewrite (proj2 (Z.ltb_ge k (i - i))) by lia. by rewrite Z.shiftr_spec. }
  pose proof (shiftr_word a Ha) as Hs. destruct (Z.ltb_spec 0 b) as [H0|H0].
  - destruct (decide (b = i)) as [->|Hne].
    + replace (wrap32 (i - i - 1)) with (2 ^ 32 - 1) by (by rewrite Z.sub_diag).
      rewrite insertBits_none. eexists. split; [done|]. split; [done|by apply Heq].
    + assert (wrap32 (b - i - 1) = b - i - 1) as -> by (apply Z.mod_small; lia).
      destruct (insertBits_bit (Z.shiftr a 1) (b - i - 1) 0 a) as (v & Hv & Hk); [lia..|].
      exists v. split; [done|]. pose proof (insertBits_word _ _ _ _ _ Hs Hv) as Hw.
      split; [done|]. apply Hall; [done|]. intros k Hk0. rewrite Hk by done.
      rewrite (proj2 (Z.leb_le 0 k)), Z.sub_0_r, Z.shiftr_spec by lia. cbn [andb].
      destruct (Z.leb_spec k (b - i - 1)), (Z.ltb_spec k (b - i)); try lia; done.
  - eexists. split; [done|]. split; [done|]. apply Heq. lia.
Qed.

Lemma remove_from_spec lo i bs a :
  asc lo bs → 0 ≤ i ≤ lo → word a →
  ∃ v, remove_from i bs a = Ok v ∧ word v ∧
    ∀ j, 0 ≤ j → Z.testbit v j = Z.testbit a (unrank i bs j).
Proof.
  revert lo i a. induction bs as [|b bs IH]; intros lo i a; cbn [asc remove_from unrank].
  - intros _ _ Ha. by exists a.
  - intros [Hb Hasc] Hi Ha.
    destruct (remove_step a b i) as (v & Hv & Hw & Hk); [done|lia|lia|]. rewrite Hv. cbn [rbind].
    destruct (IH (b + 1) (i + 1) v Hasc) as (w & Hr & Hww & Hkw); [lia|done|].
    exists w. split; [done|]. split; [done|]. intros j Hj. rewrite Hkw, Hk; [done| |done].
    pose proof (unrank_ge (i + 1) bs j). lia.
Qed.

(** One step of [addIntlvBits]: a bit appears at position [b]. *)
Lemma insert_step a b :
  word a → 0 ≤ b < 64 →
  ∃ v, (if 0 <? b then insertBits (wrap64 (Z.shiftl a 1)) (b - 1) 0 a
        else Ok (wrap64 (Z.shiftl a 1))) = Ok v ∧ word v ∧
    ∀ k, 0 ≤ k < 64 → k ≠ b → Z.testbit v k = Z.testbit a (if k <? b then k else k - 1).
Proof.
  intros Ha Hb. pose proof (wrap64_word (Z.shiftl a 1)) as Hs.
  assert (∀ k, 0 ≤ k < 64 → Z.testbit (wrap64 (Z.shiftl a 1)) k = Z.testbit a (k - 1)) as Hk.
  { intros k Hk. by rewrite wrap64_bit, Z.shiftl_spec by lia. }
  destruct (Z.ltb_spec 0 b).
  - destruct (insertBits_bit (wrap64 (Z.shiftl a 1)) (b - 1) 0 a) as (v & Hv & Hkv); [lia..|].
    exists v. split; [done|]. split; [by eapply insertBits_word|]. intros k Hk0 Hne.
    rewrite Hkv by done. rewrite (proj2 (Z.leb_le 0 k)), Z.sub_0_r by lia. cbn [andb].
    destruct (Z.leb_spec k (b - 1)), (Z.ltb_spec k b); try lia; [done|by apply Hk].
  - eexists. split; [done|]. split; [done|]. intros k Hk0 Hne. rewrite Hk by done.
    by rewrite (proj2 (Z.ltb_ge k b)) by lia.
Qed.

Lemma insert_from_spec lo bs a :
  asc lo bs → 0 ≤ lo → word a →
  ∃ v, insert_from bs a = Ok v ∧ word v ∧
    ∀ k, 0 ≤ k < 64 → k ∉ bs → Z.testbit v k = Z.testbit a (rank bs k).
Proof.
  revert lo a. induction bs as [|b bs IH]; intros lo a; cbn [asc insert_from rank].
  - intros _ _ Ha. by exists a.
  - intros [Hb Hasc] Hlo Ha. destruct (insert_step a b) as (v & Hv & Hw & Hk); [done|lia|].
    rewrite Hv. cbn [rbind]. destruct (IH (b + 1) v Hasc) as (w & Hr & Hww & Hkw); [lia|done|].
    exists w. split; [done|]. split; [done|]. intros k Hk0 [Hne Hin]%not_elem_of_cons.
    rewrite Hkw by done. destruct (decide (k < b)).
    + rewrite (rank_low _ _ _ Hasc) by lia. rewrite Hk by lia.
      by rewrite (proj2 (Z.ltb_lt k b)) by lia.
    + pose proof (rank_high _ _ _ Hasc Hin ltac:(lia)). rewrite Hk by lia. by destruct (_ <? b).
Qed.

(** ** Setting the interleaving bits *)

Lemma bit_at_spec m i : 0 ≤ i → bit_at m i = Ok (Z.b2z (Z.testbit m i)).
Proof.
  intros Hi. unfold bit_at, bits. rewrite Z.leb_refl. cbn [assert rbind]. f_equal.
  replace (i - i + 1) with 1 by lia. change (wrap32 1) with 1. rewrite mask_ones by lia. cbn [Z.min].
  change (Z.ones _) with (Z.ones 1). rewrite Z.land_ones by lia. change (2 ^ 1) with 2.
  by rewrite mod2_b2z, <- Z.bit0_odd, Z.shiftr_spec, Z.add_0_l.
Qed.

Lemma clear_mask_spec l :
  0 ≤ l < 31 → ∃ c, clear_mask l = Ok c ∧ ∀ k, 0 ≤ k < 64 → Z.testbit c k = negb (k =? l).
Proof.
  intros Hl. unfold clear_mask. rewrite (proj2 (Z.ltb_lt l 31)) by lia. eexists. split; [done|].
  intros k Hk. replace (2 ^ 64 - 1) with (Z.ones 64) by done.
  rewrite Z.sub_nocarry_ldiff.
  - rewrite Z.ldiff_spec, Z.ones_spec_low, Z.pow2_bits_eqb by lia. cbn [andb].
    by rewrite (Z.eqb_sym l k).
  - apply Z.bits_inj'. intros n Hn. rewrite Z.ldiff_spec, Z.testbit_0_l, Z.pow2_bits_eqb by lia.
    destruct (Z.eqb_spec l n) as [->|]; [|done]. by rewrite Z.ones_spec_low by lia.
Qed.

(** A mask the loop can satisfy. *)
Definition mask_ok (m : Z) : Prop := word m ∧ m ≠ 0 ∧ ctz64 m < 31.

Lemma parity_ext a b m :
  (∀ k, 0 ≤ k < 64 → Z.testbit m k = true → Z.testbit a k = Z.testbit b k) → parity a m = parity b m.
Proof.
  intros Hk. unfold parity, popCount. f_equal. apply count_ones_ext. intros k Hk0.
  rewrite !Z.land_spec. destruct (Z.testbit m k) eqn:E; [by rewrite (Hk k) by (done || lia)|].
  by rewrite !andb_false_r.
Qed.

(** One step of the second loop sets the lowest bit of the mask so that the parity is right,
    and it is the only choice. *)
Lemma match_step m0 i m a :
  0 ≤ i → mask_ok m → word a →
  ∃ c v, clear_mask (ctz64 m) = Ok c ∧
    insertBit a (ctz64 m) (Z.lxor (Z.b2z (Z.testbit m0 i)) (popCount (Z.land (Z.land a m) c))) = Ok v ∧
    word v ∧ (∀ k, 0 ≤ k < 64 → k ≠ ctz64 m → Z.testbit v k = Z.testbit a k) ∧
    parity v m = Z.testbit m0 i ∧
    ∀ x, word x → (∀ k, 0 ≤ k < 64 → k ≠ ctz64 m → Z.testbit m k = true →
                     Z.testbit x k = Z.testbit a k) →
         parity x m = Z.testbit m0 i → Z.testbit x (ctz64 m) = Z.testbit v (ctz64 m).
Proof.
  intros Hi (Hm & Hne & H31) Ha. destruct (ctz64_spec m Hm Hne) as (Hl & Hbit & _).
  set (l := ctz64 m) in *. destruct (clear_mask_spec l) as (c & Hc & Hck); [lia|].
  set (w := Z.land (Z.land a m) c).
  destruct (insertBits_bit a l l (Z.lxor (Z.b2z (Z.testbit m0 i)) (popCount w)))
    as (v & Hv & Hkv); [lia..|].
  assert (Z.testbit v l = xorb (Z.testbit m0 i) (Z.odd (popCount w))) as Hvl.
  { rewrite Hkv, Z.leb_refl, Z.sub_diag, Z.lxor_spec by lia. cbn [andb].
    rewrite (Z.bit0_odd (popCount w)). by destruct (Z.testbit m0 i). }
  assert (∀ k, 0 ≤ k < 64 → k ≠ l → Z.testbit v k = Z.testbit a k) as Hva.
  { intros k Hk Hkl. rewrite Hkv by done. destruct (Z.leb_spec l k), (Z.leb_spec k l); done || lia. }
  assert (∀ x, (∀ k, 0 ≤ k < 64 → k ≠ l → Z.testbit m k = true → Z.testbit x k = Z.testbit a k) →
            parity x m = xorb (Z.testbit x l) (Z.odd (popCount w))) as Hpar.
  { intros x Hx. unfold parity, popCount.
    rewrite (count_ones_take 64 (Z.land x m) w l); [|lia|..].
    - rewrite Z.land_spec, Hbit, andb_true_r, Z.odd_add. by destruct (Z.testbit x l).
    - unfold w. by rewrite Z.land_spec, Hck, Z.eqb_refl, andb_false_r by lia.
    - intros k Hk Hkl. unfold w. rewrite !Z.land_spec, Hck by lia.
      rewrite (proj2 (Z.eqb_neq k l)) by done. cbn [negb]. rewrite andb_true_r.
      destruct (Z.testbit m k) eqn:E; [|by rewrite !andb_false_r].
      by rewrite (Hx k) by (done || lia). }
  exists c, v. split; [done|]. split; [exact Hv|]. split; [by eapply insertBits_word|].
  split; [done|]. split.
  - rewrite Hpar by (intros; by apply Hva). rewrite Hvl.
    by destruct (Z.testbit m0 i), (Z.odd (popCount w)).
  - intros x _ Hx Hp. rewrite Hpar in Hp by done. rewrite Hvl, <- Hp.
    by destruct (Z.testbit x l), (Z.odd (popCount w)).
Qed.

(** The lowest bit of a later mask is not in an earlier one. *)
Definition free (m m' : Z) : Prop := Z.testbit m (ctz64 m') = false.

Definition agree_off (ls : list Z) (x y : Z) : Prop :=
  ∀ k, 0 ≤ k < 64 → k ∉ ls → Z.testbit x k = Z.testbit y k.

Definition parities (i : Z) (ms : list Z) (m0 x : Z) : Prop :=
  ∀ j m, zlookup ms j = Some m → parity x m = Z.testbit m0 (i + j).

Lemma parities_cons i m ms m0 x :
  parities i (m :: ms) m0 x ↔ parity x m = Z.testbit m0 i ∧ parities (i + 1) ms m0 x.
Proof.
  unfold parities. split.
  - intros Hj. split; [by rewrite (Hj 0 m), Z.add_0_r|]. intros j m' Hm.
    replace (i + 1 + j) with (i + (j + 1)) by lia. apply Hj.
    apply zlookup_Some in Hm as [Hj0 Hm]. apply zlookup_Some. split; [lia|].
    by replace (Z.to_nat (j + 1)) with (S (Z.to_nat j)) by lia.
  - intros [H0 Hj] j m' [Hj0 Hm]%zlookup_Some. destruct (decide (j = 0)) as [->|Hne].
    + rewrite Z.add_0_r. by injection Hm as <-.
    + replace (i + j) with (i + 1 + (j - 1)) by lia. apply Hj, zlookup_Some. split; [lia|].
      replace (Z.to_nat j) with (S (Z.to_nat (j - 1))) in Hm by lia. done.
Qed.

(** The bits of a mask are not lowest bits of later masks. *)
Lemma free_bits m ms k :
  Forall (free m) ms → Z.testbit m k = true → k ∉ ctz64 <$> ms.
Proof.
  intros Hf Hk (m' & -> & Hm)%list_elem_of_fmap. eapply Forall_forall in Hf; [|exact Hm].
  unfold free in Hf. congruence.
Qed.

Lemma match_from_spec i ms m0 a :
  0 ≤ i → Forall mask_ok ms → StronglySorted free ms → word a →
  ∃ v, match_from i ms m0 a = Ok v ∧ word v ∧ agree_off (ctz64 <$> ms) v a ∧
    parities i ms m0 v ∧
    ∀ x, word x → agree_off (ctz64 <$> ms) x a → parities i ms m0 x → x = v.
Proof.
  revert i a. induction ms as [|m ms IH]; intros i a Hi Hok Hs Ha; cbn [match_from].
  - exists a. split; [done|]. split; [done|]. split; [done|].
    split; [by intros j m [_ Hm]%zlookup_Some|].
    intros x Hx Hag _. apply word_ext; [done..|]. intros k Hk. apply Hag; [done|].
    apply not_elem_of_nil.
  - apply Forall_cons in Hok as [Hm Hok]. apply StronglySorted_inv in Hs as [Hs Hf].
    rewrite (bit_at_spec m0 i Hi). cbn [rbind].
    destruct (match_step m0 i m a Hi Hm Ha) as (c & v & -> & Hv & Hw & Hva & Hp & Hu).
    cbn [rbind]. rewrite Hv. cbn [rbind].
    destruct (IH (i + 1) v ltac:(lia) Hok Hs Hw) as (z & Hz & Hzw & Hag & Hpar & Huniq).
    exists z. rewrite fmap_cons. split; [done|]. split; [done|]. split_and!.
    + intros k Hk [Hne Hin]%not_elem_of_cons. rewrite Hag by done. by apply Hva.
    + apply parities_cons. split; [|done]. rewrite <- Hp. apply parity_ext. intros k Hk Hmk.
      apply Hag; [done|]. by eapply free_bits.
    + intros x Hx Hxa [Hx0 Hxp]%parities_cons. apply Huniq; [done| |done].
      intros k Hk Hin. destruct (decide (k = ctz64 m)) as [->|Hne].
      * apply Hu; [done| |done]. intros k' Hk' Hne Hmk. apply Hxa; [done|].
        apply not_elem_of_cons. split; [done|by eapply free_bits].
      * rewrite Hva by done. apply Hxa; [done|]. by apply not_elem_of_cons.
Qed.

(** ** The round trip *)

(** Masks that the code can handle: none is empty, the lowest bits lie below the bits of
    an [int] and are not covered by an earlier mask. *)
Definition masks_ok (ms : list Z) : Prop := Forall mask_ok ms ∧ StronglySorted free ms.

Lemma masks_ok_nodup ms : masks_ok ms → NoDup (ctz64 <$> ms).
Proof.
  intros [Hok Hs]. induction Hs as [|m ms Hs IH Hf]; cbn; [constructor|].
  apply Forall_cons in Hok as [(Hw & Hne & _) Hok]. constructor; [|by apply IH].
  eapply free_bits; [exact Hf|]. by destruct (ctz64_spec m Hw Hne) as (_ & Hb & _).
Qed.

Lemma sorted_asc lo bs :
  StronglySorted Z.le bs → NoDup bs → Forall (λ b, lo ≤ b < 64) bs → asc lo bs.
Proof.
  intros Hs. revert lo. induction Hs as [|b bs Hs IH Hb]; intros lo Hn Hf; cbn; [done|].
  apply Forall_cons in Hf as [Hlo Hf]. apply NoDup_cons in Hn as [Hnb Hn]. split; [done|].
  apply IH; [done|]. apply Forall_forall. intros x Hx.
  eapply Forall_forall in Hb; [|exact Hx]. eapply Forall_forall in Hf; [|exact Hx].
  assert (x ≠ b) by (intros ->; done). lia.
Qed.

Lemma masks_lsb_perm r : masks_lsb r ≡ₚ ctz64 <$> masks r.
Proof. apply merge_sort_Permutation. Qed.

Lemma masks_lsb_asc r : masks_ok (masks r) → asc 0 (masks_lsb r).
Proof.
  intros Hok. apply sorted_asc.
  - apply StronglySorted_merge_sort; [apply _|]. intros x y. lia.
  - rewrite masks_lsb_perm. by apply masks_ok_nodup.
  - rewrite masks_lsb_perm. apply Forall_fmap. destruct Hok as [Hok _].
    eapply Forall_impl; [exact Hok|]. intros m (Hw & Hne & _). cbn.
    destruct (ctz64_spec m Hw Hne) as (Hl & _). lia.
Qed.

Lemma interleaved_true r : masks r ≠ [] → interleaved r = true.
Proof.
  intros Hm. unfold interleaved, zlen. destruct (masks r); [done|]. cbn [length].
  apply Z.ltb_lt. lia.
Qed.

Lemma masks_lsb_elem r k : k ∈ masks_lsb r ↔ k ∈ ctz64 <$> masks r.
Proof. by rewrite masks_lsb_perm. Qed.

Lemma masks_lsb_len r : Z.of_nat (length (masks_lsb r)) = zlen (masks r).
Proof. rewrite masks_lsb_perm, length_fmap. done. Qed.

(** Removing the bits leaves a number below [2^(64-n)]. *)
Lemma removed_bound bs a v :
  asc 0 bs → word a → word v → (∀ j, 0 ≤ j → Z.testbit v j = Z.testbit a (unrank 0 bs j)) →
  0 ≤ v < 2 ^ (64 - Z.of_nat (length bs)).
Proof.
  intros Hasc Ha Hv Hj. pose proof (asc_length _ _ Hasc ltac:(lia)).
  split; [by destruct Hv|]. apply bits_above_lt; [by destruct Hv|lia|].
  intros j Hj0. rewrite Hj by lia. apply word_high; [done|].
  destruct (decide (unrank 0 bs j < 64)) as [Hlt|]; [|lia].
  destruct (rank_unrank 0 0 bs j Hasc) as [Hnin Hr]. rewrite !Z.add_0_r in Hnin, Hr.
  pose proof (rank_bound _ _ _ Hasc Hnin Hlt). lia.
Qed.

Lemma remove_then_add r a :
  masks r ≠ [] → masks_ok (masks r) → 0 ≤ intlvMatch r < 2 ^ zlen (masks r) →
  word a → selector r a = intlvMatch r →
  ∃ x, removeIntlvBits r a = Ok x ∧ 0 ≤ x < 2 ^ (64 - zlen (masks r)) ∧ addIntlvBits r x = Ok a.
Proof.
  intros Hne Hok Hm Ha Hsel. pose proof (masks_lsb_asc r Hok) as Hasc.
  unfold removeIntlvBits, addIntlvBits. rewrite (interleaved_true r Hne). cbn [negb].
  destruct (remove_from_spec 0 0 (masks_lsb r) a Hasc ltac:(lia) Ha) as (x & Hx & Hwx & Hjx).
  exists x. split; [done|]. split; [rewrite <- masks_lsb_len; by apply (removed_bound _ a)|].
  destruct (insert_from_spec 0 (masks_lsb r) x Hasc ltac:(lia) Hwx) as (u & Hu & Hwu & Hku).
  rewrite Hu. cbn [rbind]. destruct Hok as [Hok Hs].
  destruct (match_from_spec 0 (masks r) (intlvMatch r) u ltac:(lia) Hok Hs Hwu)
    as (v & Hv & _ & _ & _ & Huniq).
  rewrite Hv. f_equal. symmetry. apply Huniq; [done| |].
  - intros k Hk Hin. rewrite <- masks_lsb_elem in Hin. rewrite Hku by done.
    pose proof (rank_high _ _ _ Hasc Hin ltac:(lia)). rewrite Hjx by lia. f_equal.
    pose proof (unrank_rank 0 0 _ k Hasc Hin) as E. rewrite !Z.sub_0_r in E. by rewrite E.
  - rewrite (selector_eq r a _ Hm) in Hsel. intros j m Hj. rewrite Z.add_0_l. by apply Hsel.
Qed.

Lemma add_then_remove r x :
  masks r ≠ [] → masks_ok (masks r) → 0 ≤ intlvMatch r < 2 ^ zlen (masks r) →
  0 ≤ x < 2 ^ (64 - zlen (masks r)) →
  ∃ a, addIntlvBits r x = Ok a ∧ word a ∧ selector r a = intlvMatch r ∧ removeIntlvBits r a = Ok x.
Proof.
  intros Hne Hok Hm Hx. pose proof (masks_lsb_asc r Hok) as Hasc.
  pose proof (asc_length _ _ Hasc ltac:(lia)) as Hlen. rewrite masks_lsb_len in Hlen.
  unfold removeIntlvBits, addIntlvBits. rewrite (interleaved_true r Hne). cbn [negb].
  assert (word x) as Hwx.
  { pose proof (zlen_nonneg (masks r)). split; [lia|]. eapply Z.lt_le_trans; [apply Hx|].
    apply Z.pow_le_mono_r; lia. }
  destruct (insert_from_spec 0 (masks_lsb r) x Hasc ltac:(lia) Hwx) as (u & Hu & Hwu & Hku).
  rewrite Hu. cbn [rbind]. pose proof Hok as [Hoks Hs].
  destruct (match_from_spec 0 (masks r) (intlvMatch r) u ltac:(lia) Hoks Hs Hwu)
    as (a & Ha & Hwa & Hag & Hpar & _).
  exists a. split; [done|]. split; [done|]. split.
  { rewrite (selector_eq r a _ Hm). intros j m Hj. rewrite (Hpar j m Hj). by rewrite Z.add_0_l. }
  destruct (remove_from_spec 0 0 (masks_lsb r) a Hasc ltac:(lia) Hwa) as (y & Hy & Hwy & Hjy).
  rewrite Hy. f_equal. apply word_ext; [done..|]. intros j Hj. rewrite Hjy by lia.
  destruct (rank_unrank 0 0 _ j Hasc) as [Hnin Hr]. rewrite !Z.add_0_r in Hnin, Hr.
  pose proof (unrank_ge 0 (masks_lsb r) j) as Hge. rewrite masks_lsb_len in Hge.
  destruct (decide (unrank 0 (masks_lsb r) j < 64)) as [Hlt|Hlt].
  - rewrite Hag; [|lia|by rewrite <- masks_lsb_elem]. rewrite Hku by (done || lia). by rewrite Hr, Z.add_0_r.
  - rewrite (word_high a) by (done || lia). symmetry.
    rewrite <- (Z.mod_small x (2 ^ (64 - zlen (masks r)))) by done.
    apply Z.mod_pow2_bits_high. lia.
Qed.

(** C25: removing and adding the interleaving bits are inverse.  The addresses that a range
    selects and the numbers of [64 - n] bits, [n] the number of masks, correspond one to one:
    [addIntlvBits] undoes [removeIntlvBits] on every selected address, and gives every number
    an address that is selected and whose number it is. *)
Theorem interleaving_roundtrip r :
  masks r ≠ [] → masks_ok (masks r) → 0 ≤ intlvMatch r < 2 ^ zlen (masks r) →
  (∀ a, word a → selector r a = intlvMatch r →
     ∃ x, removeIntlvBits r a = Ok x ∧ 0 ≤ x < 2 ^ (64 - zlen (masks r)) ∧
          addIntlvBits r x = Ok a) ∧
  (∀ x, 0 ≤ x < 2 ^ (64 - zlen (masks r)) →
     ∃ a, addIntlvBits r x = Ok a ∧ word a ∧ selector r a = intlvMatch r ∧
          removeIntlvBits r a = Ok x).
Proof.
  intros Hne Hok Hm. split; intros; [by apply remove_then_add|by apply add_then_remove].
Qed.
