(* ===== verification/AddressMap.v ===== *)
(** * The address map of the network

    The part of [network/Network.{hh,cc}] that finds the node responsible for an address:
    [addrMap], filled by the constructor, and [addressToNodeID]; module [AddressMap]. *)

From S2P Require Import Prelude.
From S2P Require Import NetDest.
From S2P Require Import Bitfield.
From S2P Require Import AddrRange.
From S2P Require Import AddrFacts.
From S2P Require Import Interleaving.

#[local] Open Scope Z_scope.

Module AddressMap.

Record AddrMapNode := mkAddrMapNode { id : Z; ranges : list AddrRange.t }.

(** The constructor's loop over the external links; a controller is its type, its number
    and its address ranges.  The multimap is the list of its entries. *)
Fixpoint make (ctrls : list (Z * Z * list AddrRange.t)) : list (Z * AddrMapNode) :=
  match ctrls with
  | [] => []
  | (mtype, num, rs) :: ctrls' =>
      if bool_decide (rs = []) then make ctrls' else (mtype, mkAddrMapNode num rs) :: make ctrls'
  end.

Fixpoint find_range (a : Z) (rs : list AddrRange.t) : bool :=
  match rs with
  | [] => false
  | r :: rs' => if AddrRange.contains r a then true else find_range a rs'
  end.

Section lookup.
  Context `{MachineTypes}.

(** The entries of type [mtype] are visited in the order of the multimap. *)
Fixpoint addressToNodeID (m : list (Z * AddrMapNode)) (a mtype : Z) : Z :=
  match m with
  | [] => MachineType_base_count mtype
  | (ty, node) :: m' =>
      if (ty =? mtype) && find_range a (ranges node) then id node
      else addressToNodeID m' a mtype
  end.

End lookup.

End AddressMap.

Import AddressMap.

Lemma find_range_Some a rs : find_range a rs = true ↔ in_some rs a.
Proof.
  induction rs as [|r rs IH]; cbn [find_range]; [by rewrite in_some_nil|].
  destruct (AddrRange.contains r a) eqn:E.
  - split; [|done]. intros _. exists r. split; [by left|done].
  - rewrite IH. split; intros (s & Hs & Ha); exists s; (split; [|done]); [by right|].
    apply elem_of_cons in Hs as [->|Hs]; [congruence|done].
Qed.

Section facts.
  Context `{MachineTypes}.

(** The controller [num] of type [ty] is responsible for address [a]. *)
Definition responsible (ctrls : list (Z * Z * list AddrRange.t)) (ty num a : Z) : Prop :=
  ∃ rs, (ty, num, rs) ∈ ctrls ∧ in_some rs a.

Lemma addressToNodeID_cases ctrls a ty :
  responsible ctrls ty (addressToNodeID (make ctrls) a ty) a ∨
  (∀ num, ¬ responsible ctrls ty num a) ∧
    addressToNodeID (make ctrls) a ty = MachineType_base_count ty.
Proof.
  induction ctrls as [|[[ty' num] rs] ctrls IH]; cbn [make addressToNodeID].
  - right. split; [|done]. by intros n (rs & Hrs%not_elem_of_nil & _).
  - assert (in_some rs a ∧ ty' = ty ∨ (∀ n, responsible ((ty', num, rs) :: ctrls) ty n a ↔
                                        responsible ctrls ty n a)) as Hcons.
    { destruct (decide (find_range a rs = true ∧ ty' = ty)) as [[Hf ->]|Hno];
        [left; split; [by apply find_range_Some|done]|right].
      intros n. split; intros (rs' & Hin & Ha); exists rs'; (split; [|done]); [|by right].
      apply elem_of_cons in Hin as [[= -> _ ->]|Hin]; [|done].
      exfalso. apply Hno. split; [by apply find_range_Some|done]. }
    assert (responsible ctrls ty (addressToNodeID (make ctrls) a ty) a →
            responsible ((ty', num, rs) :: ctrls) ty (addressToNodeID (make ctrls) a ty) a) as Hmono.
    { intros (rs' & Hin & Ha). exists rs'. split; [by right|done]. }
    case_bool_decide as Hrs; cbn [addressToNodeID id ranges].
    + destruct IH as [IH|[IH ->]]; [left; auto|right]. split; [|done].
      destruct Hcons as [[Hs _]|Hcons]; [subst rs; by apply in_some_nil in Hs|].
      intros n. rewrite Hcons. apply IH.
    + destruct (Z.eqb_spec ty' ty) as [->|Hne]; cbn [andb].
      * destruct (find_range a rs) eqn:E.
        -- left. exists rs. split; [by left|by apply find_range_Some].
        -- destruct IH as [IH|[IH ->]]; [left; auto|right]. split; [|done].
           destruct Hcons as [[Hs _]|Hcons]; [apply find_range_Some in Hs; congruence|].
           intros n. rewrite Hcons. apply IH.
      * destruct IH as [IH|[IH ->]]; [left; auto|right]. split; [|done].
        destruct Hcons as [[_ Hs]|Hcons]; [done|]. intros n. rewrite Hcons. apply IH.
Qed.

(** One controller for each value of the selector: the controllers of type [ty], in any
    order, hold the ranges that differ in their match values only. *)
Definition interleaves (ctrls : list (Z * Z * list AddrRange.t)) (ty s e : Z) (ms : list Z)
    (num : Z → Z) : Prop :=
  (∀ m, 0 ≤ m < 2 ^ zlen ms → (ty, num m, [AddrRange.mk s e ms m]) ∈ ctrls) ∧
  ∀ n rs, (ty, n, rs) ∈ ctrls → ∃ m, n = num m ∧ rs = [AddrRange.mk s e ms m].

(** C36: interleaved controllers share the addresses between them.  In whatever order the
    map holds them, an address between the bounds belongs to the controller whose match
    value is the selector of the address, and an address outside to none, for which the
    number of controllers of the type is returned. *)
Theorem address_interleaving ctrls ty s e ms num a :
  interleaves ctrls ty s e ms num →
  addressToNodeID (make ctrls) a ty =
    if decide (s ≤ a < e) then num (selector (AddrRange.mk s e ms 0) a)
    else MachineType_base_count ty.
Proof.
  intros [Hall Honly].
  assert (∀ m, in_some [AddrRange.mk s e ms m] a ↔
    s ≤ a < e ∧ selector (AddrRange.mk s e ms 0) a = m) as Hin.
  { intros m. transitivity (AddrRange.contains (AddrRange.mk s e ms m) a = true).
    - split; [by intros (r & ->%list_elem_of_singleton & Ha)|].
      intros Ha. eexists. split; [by apply list_elem_of_singleton|done].
    - apply contains_selector. }
  destruct (addressToNodeID_cases ctrls a ty) as [(rs & Hrs & Ha)|[Hno ->]].
  - destruct (Honly _ _ Hrs) as (m & -> & ->). apply Hin in Ha as [Hb ->].
    by rewrite decide_True.
  - rewrite decide_False; [done|]. intros Hb.
    pose proof (selector_bound (AddrRange.mk s e ms 0) a) as Hm. cbn [AddrRange.masks] in Hm.
    apply (Hno (num (selector (AddrRange.mk s e ms 0) a))). eexists. split; [by apply Hall|].
    by apply Hin.
Qed.

End facts.

(** ** Four interleaved controllers *)

Module AddressExample.
Import AddrRange.
#[local] Existing Instance ExampleMachines.machines.

(** Interleaved at 64 bytes over two bits, hashed with bits 12 and 13. *)
Definition hash_masks : list Z := [0x1040; 0x2080].

Definition bank (m : Z) : t := mk 0 0x10000 hash_masks m.

Lemma hash_masks_ok : masks_ok hash_masks.
Proof. by split; repeat constructor. Qed.

Lemma interleaving_roundtrip_witness :
  removeIntlvBits (bank 1) 0x30c5 = Ok 0xc05 ∧ addIntlvBits (bank 1) 0xc05 = Ok 0x3085 ∧
  removeIntlvBits (bank 1) 0x3085 = Ok 0xc05.
Proof.
  split; [vm_compute; reflexivity|].
  destruct (interleaving_roundtrip (bank 1)) as [_ Hadd]; [done|exact hash_masks_ok|done|].
  destruct (Hadd 0xc05) as (a & Ha & _ & _ & Hr); [done|].
  assert (a = 0x3085) as ->; [|by split].
  assert (addIntlvBits (bank 1) 0xc05 = Ok 0x3085) as E by (vm_compute; reflexivity).
  rewrite E in Ha. by injection Ha.
Defined.

(** The bank of an address is the one its selector names. *)
Definition controllers : list (Z * Z * list t) :=
  [(0, 3, [bank 3]); (0, 1, [bank 1]); (1, 9, [make 0 64]); (0, 0, [bank 0]); (0, 2, [bank 2])].

Lemma controllers_interleave : interleaves controllers 0 0 0x10000 hash_masks (λ m, m).
Proof.
  split.
  - intros m Hm. change (2 ^ zlen hash_masks) with 4 in Hm.
    assert (m = 0 ∨ m = 1 ∨ m = 2 ∨ m = 3) as [->|[->|[->| ->]]] by lia;
      apply (bool_decide_unpack _); vm_compute; exact I.
  - intros n rs Hin. unfold controllers in Hin.
    repeat (apply elem_of_cons in Hin as [E|Hin]; [first [discriminate E
      | injection E as -> ->; eexists; split; reflexivity]|]).
    by apply not_elem_of_nil in Hin.
Qed.

Lemma address_interleaving_witness :
  addressToNodeID (AddressMap.make controllers) 0x3085 0 = 1 ∧
  addressToNodeID (AddressMap.make controllers) 0x10000 0 = 2.
Proof.
  split; rewrite (address_interleaving controllers 0 0 0x10000 hash_masks (λ m, m) _
    controllers_interleave); vm_compute; reflexivity.
Defined.

Lemma exclude_correct_witness :
  ∃ rs, exclude_ranges [make 0 100; make 200 300] [make 20 30; make 10 25] = Ok rs ∧
    in_some rs 5 ∧ ¬ in_some rs 25 ∧ in_some rs 30.
Proof.
  destruct (exclude_correct [make 0 100; make 200 300] [make 20 30; make 10 25])
    as (rs & Hrs & _ & Ha); [repeat constructor|repeat constructor; cbn; lia|].
  exists rs. split; [exact Hrs|]. split; [|split].
  - apply Ha. split; [by exists (make 0 100); split; [left|]|]. intros e He.
    apply elem_of_cons in He as [->| ->%list_elem_of_singleton]; reflexivity.
  - intros [_ H]%Ha. discriminate (H (make 20 30) ltac:(left)).
  - apply Ha. split; [by exists (make 0 100); split; [left|]|]. intros e He.
    apply elem_of_cons in He as [->| ->%list_elem_of_singleton]; reflexivity.
Defined.

End AddressExample.
