(* ===== verification/RubyBlocks.v ===== *)
(** * Addresses, write masks and data blocks

    [mem/ruby/common]: line addresses and offsets ([Address.cc]), the masks of the bytes a
    write touches ([WriteMask]), the blocks of bytes that messages and caches hold
    ([DataBlock]) and their parts ([SubBlock]).  Bytes are integers in [0, 256).  The block
    size is a static member of [RubySystem]; here it is an argument. *)

From S2P Require Import Prelude.
From S2P Require Import IntMath.
From S2P Require Import Bitfield.

(** ** The block size *)

Record block_size := mkBlockSize {
  m_block_size_bytes : Z;
  m_block_size_bits : Z;
}.

(** What the constructor of [RubySystem] does with [p.block_size_bytes], a [uint32_t]. *)
Definition set_block_size (block_size_bytes : Z) : result block_size :=
  _ ← assert (isPowerOf2 block_size_bytes);
  bits ← floorLog2 4 block_size_bytes;
  Ok (mkBlockSize block_size_bytes bits).

(** [static_cast<int>] of an integer, and the result of an operation on [int]s. *)
Definition to_int (x : Z) : Z := (x + 2 ^ 31) mod 2 ^ 32 - 2 ^ 31.

Definition int_op (x : Z) : result Z :=
  if (- 2 ^ 31 <=? x) && (x <? 2 ^ 31) then Ok x else Err Undefined.

(** ** Addresses *)

Module Address.

Definition bitSelect (addr small big : Z) : result Z :=
  _ ← assert (small <=? big);
  bits addr big small.

Definition maskLowOrderBits (addr number : Z) : Z := mbits addr 63 number.

Definition getOffset (bs : block_size) (addr : Z) : result Z :=
  bitSelect addr 0 (wrap32 (m_block_size_bits bs - 1)).

Definition makeLineAddress (bs : block_size) (addr : Z) : Z :=
  mbits addr 63 (m_block_size_bits bs).

(** [makeLineAddress(addr, cacheLineBits)] *)
Definition makeLineAddress_bits (addr cacheLineBits : Z) : Z :=
  maskLowOrderBits addr (wrap32 cacheLineBits).

Definition makeNextStrideAddress (bs : block_size) (addr stride : Z) : result Z :=
  d ← int_op (to_int (m_block_size_bytes bs) * stride);
  Ok (wrap64 (makeLineAddress bs addr + d)).

End Address.

(** ** Memory *)

(** [memcpy(&dst[offset], src, len)], [len] converted to [size_t]. *)
Definition memcpy (dst : list Z) (offset : Z) (src : list Z) (len : Z) : result (list Z) :=
  if (0 <=? offset) && (0 <=? len) && (offset + len <=? zlen dst) && (len <=? zlen src) then
    Ok (take (Z.to_nat offset) dst ++ take (Z.to_nat len) src
        ++ drop (Z.to_nat (offset + len)) dst)
  else Err Undefined.

(** [new uint8_t[n]] followed by [memcpy] of [n] bytes from [src]. *)
Definition copy_bytes (src : list Z) (n : Z) : result (list Z) :=
  if (0 <=? n) && (n <=? zlen src) then Ok (take (Z.to_nat n) src) else Err Undefined.

(** [memcmp(a, b, n) == 0] *)
Definition same_bytes (a b : list Z) (n : Z) : result bool :=
  if (0 <=? n) && (n <=? zlen a) && (n <=? zlen b) then
    Ok (bool_decide (take (Z.to_nat n) a = take (Z.to_nat n) b))
  else Err Undefined.

(** [&p[offset]]: the bytes from there on. *)
Definition from_offset (p : list Z) (offset : Z) : result (list Z) :=
  if (0 <=? offset) && (offset <=? zlen p) then Ok (drop (Z.to_nat offset) p)
  else Err Undefined.

(** ** Write masks *)

Module WriteMask.

(** An [AtomicOpFunctor] rewrites the bytes its pointer points to. *)
Definition AtomicOpFunctor : Type := list Z → result (list Z).

Record t := mk {
  mSize : Z;
  mMask : list bool;
  mAtomic : bool;
  mAtomicOp : list (Z * AtomicOpFunctor);
}.

Definition with_mask (m : t) (mask : list bool) : t :=
  mk (mSize m) mask (mAtomic m) (mAtomicOp m).

(** [WriteMask(size)]; [WriteMask()] passes the block size. *)
Definition make (size : Z) : t := mk size (replicate (Z.to_nat size) false) false [].

Definition make_default (bs : block_size) : t := make (m_block_size_bytes bs).

(** [WriteMask(size, mask)] and [WriteMask(size, mask, atomicOp)] *)
Definition make_mask (size : Z) (mask : list bool) : t := mk size mask false [].

Definition make_atomic (size : Z) (mask : list bool) (ops : list (Z * AtomicOpFunctor)) : t :=
  mk size mask true ops.

Definition clear (m : t) : t := with_mask m (replicate (Z.to_nat (mSize m)) false).

Definition test (m : t) (offset : Z) : result bool :=
  _ ← assert (offset <? mSize m);
  vget (mMask m) offset.

Definition setMask (m : t) (offset len : Z) (val : bool) : result t :=
  _ ← assert (offset + len <=? mSize m);
  mask ← for_range 0 (Z.to_nat len) (λ i mask, vset mask (offset + i) val) (mMask m);
  Ok (with_mask m mask).

Definition fillMask (m : t) : result t :=
  mask ← for_range 0 (Z.to_nat (mSize m)) (λ i mask, vset mask i true) (mMask m);
  Ok (with_mask m mask).

(** [mMask.at(i)] throws out of range. *)
Definition mask_at (m : t) (i : Z) : result bool :=
  match zlookup (mMask m) i with Some b => Ok b | None => Err Exception end.

Definition getMask (m : t) (offset len : Z) : result bool :=
  _ ← assert (offset + len <=? mSize m);
  for_range 0 (Z.to_nat len) (λ i tmp, b ← mask_at m (offset + i); Ok (tmp && b)) true.

Definition isOverlap (m readMask : t) : result bool :=
  _ ← assert (mSize m =? mSize readMask);
  for_range 0 (Z.to_nat (mSize m))
    (λ i tmp,
       r ← mask_at readMask i;
       if r then b ← mask_at m i; Ok (tmp || b) else Ok tmp) false.

Definition containsMask (m readMask : t) : result bool :=
  _ ← assert (mSize m =? mSize readMask);
  for_range 0 (Z.to_nat (mSize m))
    (λ i tmp,
       r ← mask_at readMask i;
       if r then b ← mask_at m i; Ok (tmp && b) else Ok tmp) true.

(** The loops of [isEmpty] and [isFull], which stop at the first byte that is [val]:
    [n] bytes are left. *)
Fixpoint none_is (m : t) (val : bool) (i : Z) (n : nat) : result bool :=
  match n with
  | O => Ok true
  | S n' =>
      b ← mask_at m i;
      if eqb b val then Ok false else none_is m val (i + 1) n'
  end.

Definition isEmpty (m : t) : result bool := none_is m true 0 (Z.to_nat (mSize m)).

Definition isFull (m : t) : result bool := none_is m false 0 (Z.to_nat (mSize m)).

(** The body of [andMask] and [orMask]: [&&] and [||] read their second operand only when
    the first is not [settled], which is false for the one and true for the other. *)
Definition combine (settled : bool) (m writeMask : t) : result t :=
  _ ← assert (mSize m =? mSize writeMask);
  mask ← for_range 0 (Z.to_nat (mSize m))
    (λ i mask,
       a ← mask_at (with_mask m mask) i;
       v ← (if eqb a settled then Ok settled else mask_at writeMask i);
       vset mask i v) (mMask m);
  let m' := with_mask m mask in
  Ok (if mAtomic writeMask then mk (mSize m') (mMask m') true (mAtomicOp writeMask) else m').

Definition andMask : t → t → result t := combine false.

Definition orMask : t → t → result t := combine true.

Definition setInvertedMask (m writeMask : t) : result t :=
  _ ← assert (mSize m =? mSize writeMask);
  mask ← for_range 0 (Z.to_nat (mSize m))
    (λ i mask, b ← mask_at writeMask i; vset mask i (negb b)) (mMask m);
  Ok (with_mask m mask).

(** [n] bytes are left. *)
Fixpoint first_from (m : t) (val : bool) (i : Z) (n : nat) : result Z :=
  match n with
  | O => Ok (mSize m)
  | S n' =>
      b ← vget (mMask m) i;
      if eqb b val then Ok i else first_from m val (i + 1) n'
  end.

Definition firstBitSet (m : t) (val : bool) (offset : Z) : result Z :=
  first_from m val offset (Z.to_nat (mSize m - offset)).

Definition count (m : t) (offset : Z) : result Z :=
  for_range offset (Z.to_nat (mSize m - offset))
    (λ i c, b ← vget (mMask m) i; Ok (c + Z.b2z b)) 0.

(** One iteration of [performAtomic] on the data block [p] and the log. *)
Definition atomic_step (m : t) (isAtomicNoReturn : bool) (op : Z * AtomicOpFunctor)
    (st : list Z * list (list Z)) : result (list Z * list (list Z)) :=
  let '(p, log) := st in
  log ← (if isAtomicNoReturn then Ok log
         else block_update ← copy_bytes p (mSize m); Ok (log ++ [block_update]));
  let '(offset, fnctr) := op in
  tail ← from_offset p offset;
  tail ← fnctr tail;
  Ok (take (Z.to_nat offset) p ++ tail, log).

(** [for (i = 0; i < mAtomicOp.size(); i++)] *)
Fixpoint atomic_steps (m : t) (isAtomicNoReturn : bool) (ops : list (Z * AtomicOpFunctor))
    (st : list Z * list (list Z)) : result (list Z * list (list Z)) :=
  match ops with
  | [] => Ok st
  | op :: ops => st ← atomic_step m isAtomicNoReturn op st; atomic_steps m isAtomicNoReturn ops st
  end.

Definition performAtomic (m : t) (p : list Z) (log : list (list Z)) (isAtomicNoReturn : bool)
    : result (list Z * list (list Z)) :=
  atomic_steps m isAtomicNoReturn (mAtomicOp m) (p, log).

Definition getAtomicOps (m : t) : list (Z * AtomicOpFunctor) := mAtomicOp m.

Definition setAtomicOps (m : t) (ops : list (Z * AtomicOpFunctor)) : t :=
  mk (mSize m) (mMask m) true ops.

End WriteMask.

(** ** Data blocks *)

Module DataBlock.

(** [m_data] is the buffer; [m_alloc] says whether the block owns it. *)
Record t := mk {
  m_data : list Z;
  m_alloc : bool;
  m_atomicLog : list (list Z);
}.

Definition with_data (d : t) (data : list Z) : t := mk data (m_alloc d) (m_atomicLog d).

Section block.
Context (bs : block_size).

Notation size := (m_block_size_bytes bs).

(** [memset(m_data, 0, size)] *)
Definition clear (d : t) : result t :=
  data ← memcpy (m_data d) 0 (replicate (Z.to_nat size) 0) size;
  Ok (with_data d data).

(** [alloc()], the constructor: [new] leaves the bytes indeterminate and [clear] sets
    them all. *)
Definition make : t := mk (replicate (Z.to_nat size) 0) true [].

(** The loop that copies every entry of the log of [cp]. *)
Fixpoint copy_log (log : list (list Z)) : result (list (list Z)) :=
  match log with
  | [] => Ok []
  | e :: log =>
      block_update ← copy_bytes e size;
      rest ← copy_log log;
      Ok (block_update :: rest)
  end.

(** [DataBlock(const DataBlock &cp)] *)
Definition copy (cp : t) : result t :=
  data ← copy_bytes (m_data cp) size;
  log ← copy_log (m_atomicLog cp);
  Ok (mk data true log).

(** [operator=] of two different objects: what is copied from the log of [obj] goes behind
    the entries of the log of the block. *)
Definition assign_from (d obj : t) : result t :=
  data ← memcpy (m_data d) 0 (m_data obj) size;
  log ← copy_log (m_atomicLog obj);
  Ok (mk data (m_alloc d) (m_atomicLog d ++ log)).

(** [operator=] of an object to itself: [fuel] iterations of a loop whose bound is the
    length of the list it appends to; [None] when the loop is not over. *)
Fixpoint self_log (fuel : nat) (i : Z) (log : list (list Z)) : option (result (list (list Z))) :=
  match fuel with
  | O => None
  | S fuel =>
      if i <? zlen log then
        match vget log i with
        | Ok e =>
            match copy_bytes e size with
            | Ok block_update => self_log fuel (i + 1) (log ++ [block_update])
            | Err x => Some (Err x)
            end
        | Err x => Some (Err x)
        end
      else Some (Ok log)
  end.

(** [assign(data)] *)
Definition assign (d : t) (data : list Z) : t := mk data false (m_atomicLog d).

Fixpoint same_log (l1 l2 : list (list Z)) : result bool :=
  match l1, l2 with
  | e1 :: l1, e2 :: l2 =>
      b ← same_bytes e1 e2 size;
      if b then same_log l1 l2 else Ok false
  | _, _ => Ok true
  end.

Definition equal (d obj : t) : result bool :=
  b ← same_bytes (m_data d) (m_data obj) size;
  if negb b then Ok false
  else if negb (zlen (m_atomicLog d) =? zlen (m_atomicLog obj)) then Ok false
  else same_log (m_atomicLog d) (m_atomicLog obj).

(** [copyPartial(dblk, mask)] *)
Definition copyPartial (d dblk : t) (mask : WriteMask.t) : result t :=
  data ← for_range 0 (Z.to_nat size)
    (λ i data,
       b ← WriteMask.getMask mask i 1;
       if b then v ← vget (m_data dblk) i; vset data i v else Ok data) (m_data d);
  Ok (with_data d data).

Definition atomicPartial (d dblk : t) (mask : WriteMask.t) (isAtomicNoReturn : bool)
    : result t :=
  data ← for_range 0 (Z.to_nat size)
    (λ i data, v ← vget (m_data dblk) i; vset data i v) (m_data d);
  '(data, log) ← WriteMask.performAtomic mask data (m_atomicLog d) isAtomicNoReturn;
  Ok (mk data (m_alloc d) log).

Definition numAtomicLogEntries (d : t) : Z := zlen (m_atomicLog d).

Definition popAtomicLogEntryFront (d : t) : result (list Z * t) :=
  _ ← assert (0 <? zlen (m_atomicLog d));
  match m_atomicLog d with
  | e :: log => Ok (e, mk (m_data d) (m_alloc d) log)
  | [] => Err Undefined
  end.

Definition clearAtomicLogEntries (d : t) : t := mk (m_data d) (m_alloc d) [].

Definition getByte (d : t) (whichByte : Z) : result Z := vget (m_data d) whichByte.

Definition setByte (d : t) (whichByte data : Z) : result t :=
  data ← vset (m_data d) whichByte data;
  Ok (with_data d data).

(** [&m_data[offset]], as the bytes from there on. *)
Definition getData (d : t) (offset len : Z) : result (list Z) :=
  _ ← assert (offset + len <=? size);
  from_offset (m_data d) offset.

Definition getDataMod (d : t) (offset : Z) : result (list Z) := from_offset (m_data d) offset.

Definition setData (d : t) (data : list Z) (offset len : Z) : result t :=
  data ← memcpy (m_data d) offset data len;
  Ok (with_data d data).

(** [copyPartial(dblk, offset, len)] *)
Definition copyPartial_range (d dblk : t) (offset len : Z) : result t :=
  src ← from_offset (m_data dblk) offset;
  setData d src offset len.

(** [setData(pkt)] of a packet whose address and data are these: [byteEnable] of the
    request when the write is masked. *)
Definition setData_pkt (d : t) (addr : Z) (data : list Z) (byteEnable : option (list bool))
    : result t :=
  offset ← Address.getOffset bs addr;
  _ ← assert (offset + zlen data <=? size);
  match byteEnable with
  | None => setData d data offset (zlen data)
  | Some en =>
      _ ← assert (zlen en =? zlen data);
      bytes ← for_range 0 (length data)
        (λ i bytes,
           e ← vget en i;
           if e then v ← vget data i; vset bytes (offset + i) v else Ok bytes) (m_data d);
      Ok (with_data d bytes)
  end.

End block.

End DataBlock.

(** ** Parts of blocks *)

Module SubBlock.

Record t := mk {
  m_address : Z;
  m_data : list Z;
}.

(** The value-initialised bytes of [resize] are zero, as are those the loop sets. *)
Definition make (addr size : Z) : t := mk addr (replicate (Z.to_nat size) 0).

Definition getSize (s : t) : Z := zlen (m_data s).

Definition resize (s : t) (size : Z) : t := mk (m_address s) (vresize 0 size (m_data s)).

Definition setAddress (s : t) (addr : Z) : t := mk addr (m_data s).

Definition getByte (s : t) (offset : Z) : result Z := vget (m_data s) offset.

Definition setByte (s : t) (offset data : Z) : result t :=
  data ← vset (m_data s) offset data;
  Ok (mk (m_address s) data).

Definition readByte (s : t) : result Z := getByte s 0.

Definition writeByte (s : t) (data : Z) : result t := setByte s 0 data.

Section block.
Context (bs : block_size).

(** [internalMergeFrom] *)
Definition mergeFrom (s : t) (data : DataBlock.t) : result t :=
  let size := getSize s in
  _ ← assert (0 <? size);
  offset ← Address.getOffset bs (m_address s);
  for_range 0 (Z.to_nat size)
    (λ i s, b ← DataBlock.getByte data (offset + i); setByte s i b) s.

(** [internalMergeTo] *)
Definition mergeTo (s : t) (data : DataBlock.t) : result DataBlock.t :=
  let size := getSize s in
  _ ← assert (0 <? size);
  offset ← Address.getOffset bs (m_address s);
  for_range 0 (Z.to_nat size)
    (λ i data, b ← getByte s i; DataBlock.setByte data (offset + i) b) data.

End block.

End SubBlock.
