(* ===== verification/RubyBlockFacts.v ===== *)
(** * Addresses, write masks and data blocks: facts

    Line address and offset split an address.  A write mask is a set of offsets and its
    operations are those of sets.  What partial copies, atomic operations and merges of
    parts do to the bytes of a block. *)

From S2P Require Import Prelude.
From S2P Require Import IntMath.
From S2P Require Import Bitfield.
From S2P Require Import RubyBlocks.

(** ** The block size *)

Definition block_ok (bs : block_size) : Prop :=
  0 ≤ m_block_size_bits bs < 32 ∧ m_block_size_bytes bs = 2 ^ m_block_size_bits bs.

Lemma floorLog2_32 x : 0 < x < 2 ^ 32 → floorLog2 4 x = Ok (Z.log2 x).
Proof.
  intros Hx. rewrite <- floorLog2_64 by lia. unfold floorLog2.
  assert (log2_step 32 0xffffffff00000000 (0, x) = (0, x)) as Hs
    ; [|by cbn [Z.leb Z.compare Pos.compare Pos.compare_cont]; rewrite Hs].
  unfold log2_step. change 0xffffffff00000000 with (2 ^ (2 * 32) - 2 ^ 32).
  by rewrite (proj2 (land_upper_zero x 32 ltac:(lia) ltac:(lia))) by lia.
Qed.

Lemma power_of_2_eq n : 0 ≤ n → isPowerOf2 n = true → 0 < n ∧ n = 2 ^ Z.log2 n.
Proof.
  unfold isPowerOf2. intros Hn H. boolify. assert (0 < n) as Hp by lia. split; [done|].
  destruct (Z.log2_spec n Hp) as [Hlo Hhi]. destruct (decide (n = 2 ^ Z.log2 n)) as [|Hne]; [done|].
  assert (Z.log2 (n - 1) = Z.log2 n) as Hl
    by (apply Z.log2_unique; [apply Z.log2_nonneg|rewrite <- Z.add_1_r in Hhi; lia]).
  assert (Z.testbit (Z.land n (n - 1)) (Z.log2 n) = true) as Hb; [|by rewrite H0, Z.bits_0 in Hb].
  assert (0 < 2 ^ Z.log2 n) by (apply Z.pow_pos_nonneg; [lia|apply Z.log2_nonneg]).
  rewrite Z.land_spec, Z.bit_log2, <- Hl, Z.bit_log2 by lia. done.
Qed.

Lemma set_block_size_ok b bs :
  0 ≤ b < 2 ^ 32 → set_block_size b = Ok bs → m_block_size_bytes bs = b ∧ block_ok bs.
Proof.
  unfold set_block_size. intros Hb H. step_bind H as [] Hp%assert_Ok.
  apply power_of_2_eq in Hp as [Hp He]; [|lia]. rewrite floorLog2_32 in H by lia.
  injection H as <-. unfold block_ok. cbn. split_and!; [done|apply Z.log2_nonneg|apply Z.log2_lt_pow2; lia|done].
Qed.

(** ** Lines and offsets *)

Section lines.
Context (bs : block_size) (Hbs : block_ok bs).

Notation size := (m_block_size_bytes bs).

Lemma size_pos : 0 < size < 2 ^ 32.
Proof.
  destruct Hbs as [Hk ->]. split; [apply Z.pow_pos_nonneg; lia|apply Z.pow_lt_mono_r; lia].
Qed.

Lemma makeLineAddress_eq a : word a → Address.makeLineAddress bs a = a - a mod size.
Proof.
  intros Ha. destruct Hbs as [Hk ->]. unfold Address.makeLineAddress, mbits.
  set (k := m_block_size_bits bs) in *. change (wrap32 (63 + 1)) with 64.
  assert (Z.land a (Z.ldiff (mask 64) (mask k)) = Z.shiftl (Z.shiftr a k) k) as ->.
  - apply Z.bits_inj'. intros i Hi. rewrite Z.land_spec, Z.ldiff_spec, Z.shiftl_spec by lia.
    destruct (decide (i < 64)) as [Hl|Hl].
    + rewrite !mask_bit by lia. rewrite (proj2 (Z.ltb_lt i 64)) by lia.
      destruct (Z.ltb_spec i k).
      * rewrite (Z.testbit_neg_r (Z.shiftr a k)) by lia. apply andb_false_r.
      * rewrite Z.shiftr_spec by lia. replace (i - k + k) with i by lia. apply andb_true_r.
    + rewrite Z.shiftr_spec by lia. replace (i - k + k) with i by lia.
      by rewrite word_high by (done || lia).
  - rewrite Z.shiftl_mul_pow2, Z.shiftr_div_pow2 by lia.
    pose proof (Z.div_mod a (2 ^ k) ltac:(apply Z.pow_nonzero; lia)). lia.
Qed.

Lemma getOffset_eq a : word a → Address.getOffset bs a = Ok (a mod size).
Proof.
  intros Ha. destruct Hbs as [Hk ->]. unfold Address.getOffset, Address.bitSelect, bits.
  set (k := m_block_size_bits bs) in *.
  pose proof (Z.mod_pos_bound (k - 1) (2 ^ 32) ltac:(lia)) as Hw.
  rewrite !(proj2 (Z.leb_le 0 (wrap32 (k - 1)))) by (unfold wrap32; lia).
  cbn [assert rbind]. f_equal. rewrite Z.shiftr_0_r.
  assert (wrap32 (wrap32 (k - 1) - 0 + 1) = k) as ->.
  { unfold wrap32. rewrite Z.sub_0_r, Zplus_mod_idemp_l. rewrite Z.mod_small; lia. }
  rewrite mask_ones, Z.min_l by lia. apply Z.land_ones. lia.
Qed.

(** An address is the address of its line and an offset in it. *)
Lemma line_offset a :
  word a →
  ∃ o, Address.getOffset bs a = Ok o ∧ 0 ≤ o < size ∧ a = Address.makeLineAddress bs a + o ∧
    word (Address.makeLineAddress bs a) ∧
    Address.makeLineAddress bs (Address.makeLineAddress bs a) = Address.makeLineAddress bs a.
Proof.
  intros Ha. pose proof size_pos. pose proof (Z.mod_pos_bound a size ltac:(lia)).
  pose proof (Z.mod_le a size ltac:(destruct Ha; lia) ltac:(lia)).
  exists (a mod size). rewrite makeLineAddress_eq by done.
  assert (word (a - a mod size)) by (destruct Ha; split; lia).
  split_and!; try done; try lia; [by apply getOffset_eq|].
  rewrite makeLineAddress_eq by done. rewrite Zminus_mod_idemp_r, Z.sub_diag, Zmod_0_l. lia.
Qed.

End lines.

(** ** Loops over bytes *)

Section loops.
Context {A : Type}.
Implicit Types (l : list A) (a : A).

Lemma vset_same l i a : zlookup l i = Some a → vset l i a = Ok l.
Proof.
  intros Ha. unfold vset. rewrite Ha. f_equal. apply list_insert_id. by apply zlookup_Some in Ha as [_ ?].
Qed.

(** A loop that sets the elements [d + i], each to a value that does not depend on the
    others. *)
Lemma pointwise_loop l (d : Z) (n : nat) (f : Z → list A → result (list A)) (h : Z → A) :
  0 ≤ d → d + Z.of_nat n ≤ zlen l →
  (∀ i l', 0 ≤ i < Z.of_nat n → zlen l' = zlen l → zlookup l' (d + i) = zlookup l (d + i) →
     f i l' = vset l' (d + i) (h (d + i))) →
  ∃ l', for_range 0 n f l = Ok l' ∧ zlen l' = zlen l ∧
    ∀ j, zlookup l' j = if decide (d ≤ j < d + Z.of_nat n) then Some (h j) else zlookup l j.
Proof.
  intros Hd Hn Hf.
  destruct (for_range_total
    (λ i l', zlen l' = zlen l ∧
       ∀ j, zlookup l' j = if decide (d ≤ j < d + i) then Some (h j) else zlookup l j)
    f n 0 l) as (l' & Hr & Hl & Hj).
  - intros i l' Hi [Hl Hj]. rewrite Hf; [|lia|done|by rewrite Hj, decide_False by lia].
    rewrite vset_intro by lia. eexists. split; [done|]. rewrite zlen_insert. split; [done|].
    intros j. rewrite zlookup_insert by lia. rewrite Hj.
    repeat case_decide; subst; try done; lia.
  - split; [done|]. intros j. by rewrite decide_False by lia.
  - exists l'. split_and!; [done|done|]. intros j. rewrite Hj, Z.add_0_l. done.
Qed.

Lemma list_eq_zlookup l1 l2 : (∀ i, zlookup l1 i = zlookup l2 i) → l1 = l2.
Proof.
  intros H. apply list_eq. intros i. specialize (H (Z.of_nat i)). unfold zlookup in H.
  rewrite (proj2 (Z.leb_le 0 (Z.of_nat i))), Nat2Z.id in H by lia. done.
Qed.

End loops.

(** ** Write masks are sets of offsets *)

Module MaskSets.
Import WriteMask.

Definition wf (m : t) : Prop := zlen (mMask m) = mSize m.

Definition range (a n : Z) : gset Z := list_to_set (seqZ a n).

(** The offsets a mask selects. *)
Definition offsets (m : t) : gset Z :=
  filter (λ i, zlookup (mMask m) i = Some true) (range 0 (mSize m)).

Lemma elem_of_range i a n : i ∈ range a n ↔ a ≤ i < a + n.
Proof. unfold range. rewrite elem_of_list_to_set. apply elem_of_seqZ. Qed.

Lemma elem_of_offsets m i : wf m → i ∈ offsets m ↔ zlookup (mMask m) i = Some true.
Proof.
  intros Hm. unfold offsets. rewrite elem_of_filter, elem_of_range. split; [by intros [? _]|].
  intros Hi. split; [done|]. pose proof (zlookup_lt _ _ _ Hi). unfold wf in Hm. lia.
Qed.

Lemma wf_size m : wf m → 0 ≤ mSize m.
Proof. intros <-. apply zlen_nonneg. Qed.

(** A byte of a mask is selected or not. *)
Lemma mask_at_wf m i :
  wf m → 0 ≤ i < mSize m → zlookup (mMask m) i = Some (bool_decide (i ∈ offsets m)).
Proof.
  intros Hm Hi. destruct (zlookup_is_Some (mMask m) i) as [b Hb]; [unfold wf in Hm; lia|].
  rewrite Hb. f_equal. case_bool_decide as Ho; rewrite elem_of_offsets in Ho by done.
  - congruence.
  - destruct b; congruence.
Qed.

Lemma mask_at_Ok m i :
  wf m → 0 ≤ i < mSize m → mask_at m i = Ok (bool_decide (i ∈ offsets m)).
Proof. intros Hm Hi. unfold mask_at. by rewrite mask_at_wf. Qed.

(** A mask that agrees with a set is its mask. *)
Lemma offsets_eq m (X : gset Z) :
  wf m → X ⊆ range 0 (mSize m) →
  (∀ i, 0 ≤ i < mSize m → zlookup (mMask m) i = Some (bool_decide (i ∈ X))) → offsets m = X.
Proof.
  intros Hm Hsub Hi. apply set_eq. intros i. rewrite elem_of_offsets by done. split.
  - intros Ht. pose proof (zlookup_lt _ _ _ Ht) as Hr. rewrite Hi in Ht by (unfold wf in Hm; lia).
    injection Ht as Ht. by apply bool_decide_eq_true in Ht.
  - intros HX. pose proof (Hsub i HX) as Hr%elem_of_range. rewrite Hi by lia.
    f_equal. by apply bool_decide_eq_true.
Qed.

Lemma offsets_in m : wf m → offsets m ⊆ range 0 (mSize m).
Proof. intros _. unfold offsets. set_solver. Qed.

(** A loop that rewrites the bytes from [d] to [d + n] of a mask. *)
Lemma rewrite_loop m (d : Z) (n : nat) f (X : gset Z) :
  wf m → 0 ≤ d → d + Z.of_nat n ≤ mSize m → X ⊆ range d (Z.of_nat n) →
  (∀ i mask, 0 ≤ i < Z.of_nat n → zlen mask = zlen (mMask m) →
     zlookup mask (d + i) = zlookup (mMask m) (d + i) →
     f i mask = vset mask (d + i) (bool_decide (d + i ∈ X))) →
  ∃ mask, for_range 0 n f (mMask m) = Ok mask ∧ wf (with_mask m mask) ∧
    offsets (with_mask m mask) = X ∪ (offsets m ∖ range d (Z.of_nat n)).
Proof.
  intros Hm Hd Hn HX Hf. unfold wf in Hm.
  destruct (pointwise_loop (mMask m) d n f (λ i, bool_decide (i ∈ X))) as (mask & Hr & Hl & Hj);
    [done|lia|done|].
  exists mask. split; [done|]. assert (wf (with_mask m mask)) as Hw by (unfold wf; cbn; lia).
  split; [done|]. apply offsets_eq; [done| |].
  - cbn. intros i. rewrite elem_of_union, elem_of_difference.
    intros [Hi%HX|[Hi%offsets_in _]]; [|done|done]. rewrite elem_of_range in *. lia.
  - cbn. intros i Hi. rewrite Hj. case_decide as Hc.
    + f_equal. apply bool_decide_ext. rewrite elem_of_union, elem_of_difference, elem_of_range.
      naive_solver.
    + rewrite mask_at_wf by done. f_equal. apply bool_decide_ext.
      rewrite elem_of_union, elem_of_difference, elem_of_range. split; [naive_solver|].
      intros [Hi'%HX|[? _]]; [|done]. by rewrite elem_of_range in Hi'.
Qed.

Lemma setMask_spec m off len val :
  wf m → 0 ≤ off → 0 ≤ len → off + len ≤ mSize m →
  ∃ m', setMask m off len val = Ok m' ∧ wf m' ∧
    offsets m' = if val then offsets m ∪ range off len else offsets m ∖ range off len.
Proof.
  intros Hm Ho Hl Hs. unfold setMask. rewrite (proj2 (Z.leb_le _ _) Hs). cbn [assert rbind].
  destruct (rewrite_loop m off (Z.to_nat len) (λ i mask, vset mask (off + i) val)
    (if val then range off len else ∅)) as (mask & Hr & Hw & Ho'); rewrite ?Z2Nat.id in * by done;
    [done|done|done|by destruct val; set_solver| |].
  - intros i mask Hi _ _. f_equal. destruct val; symmetry.
    + apply bool_decide_eq_true, elem_of_range. lia.
    + apply bool_decide_eq_false. set_solver.
  - rewrite Hr. eexists. split; [done|]. split; [done|]. rewrite Ho'. destruct val; [|set_solver].
    apply set_eq. intros i. destruct (decide (i ∈ range off len)); set_solver.
Qed.

(** The loops over the whole mask. *)
Lemma whole_loop m f (X : gset Z) :
  wf m → X ⊆ range 0 (mSize m) →
  (∀ i mask, 0 ≤ i < mSize m → zlen mask = zlen (mMask m) →
     zlookup mask i = zlookup (mMask m) i → f i mask = vset mask i (bool_decide (i ∈ X))) →
  ∃ mask, for_range 0 (Z.to_nat (mSize m)) f (mMask m) = Ok mask ∧ wf (with_mask m mask) ∧
    offsets (with_mask m mask) = X.
Proof.
  intros Hm HX Hf. pose proof (wf_size m Hm).
  destruct (rewrite_loop m 0 (Z.to_nat (mSize m)) f X) as (mask & Hr & Hw & Ho);
    rewrite ?Z2Nat.id in * by done; [done|lia|lia|done| |].
  - intros i mask Hi. rewrite Z.add_0_l. apply Hf. done.
  - exists mask. split_and!; [done|done|]. rewrite Ho. pose proof (offsets_in m Hm). set_solver.
Qed.

Lemma fillMask_spec m :
  wf m → ∃ m', fillMask m = Ok m' ∧ wf m' ∧ offsets m' = range 0 (mSize m).
Proof.
  intros Hm. unfold fillMask.
  destruct (whole_loop m (λ i mask, vset mask i true) (range 0 (mSize m)))
    as (mask & -> & Hw & Ho); [done|done| |].
  - intros i mask Hi _ _. f_equal. symmetry. apply bool_decide_eq_true, elem_of_range. lia.
  - by eexists.
Qed.

(** [andMask] and [orMask] take over the atomic operations as well. *)
Lemma combine_spec settled m w :
  wf m → wf w → mSize m = mSize w →
  ∃ m', combine settled m w = Ok m' ∧ wf m' ∧ mSize m' = mSize m ∧
    offsets m' = (if settled then offsets m ∪ offsets w else offsets m ∩ offsets w) ∧
    mAtomic m' = mAtomic m || mAtomic w ∧
    mAtomicOp m' = if mAtomic w then mAtomicOp w else mAtomicOp m.
Proof.
  intros Hm Hw Hs. unfold combine. rewrite (proj2 (Z.eqb_eq _ _) Hs). cbn [assert rbind].
  pose proof (offsets_in m Hm). pose proof (offsets_in w Hw) as Hin. rewrite <- Hs in Hin.
  edestruct (whole_loop m) as (mask & -> & Hwf & Ho);
    [exact Hm| |intros i mask Hi _ He; cbn beta|]; cycle 1.
  - unfold mask_at at 1. cbn [mMask with_mask]. rewrite He, mask_at_wf by done. cbn [rbind].
    rewrite mask_at_Ok by (done || lia).
    instantiate (1 := if settled then offsets m ∪ offsets w else offsets m ∩ offsets w).
    destruct settled; repeat case_bool_decide; cbn [eqb rbind]; set_solver.
  - cbn [rbind]. eexists. split; [done|]. unfold wf in *.
    destruct (mAtomic w); cbn in *; rewrite ?orb_true_r, ?orb_false_r; split_and!; done.
  - destruct settled; set_solver.
Qed.

Lemma setInvertedMask_spec m w :
  wf m → wf w → mSize m = mSize w →
  ∃ m', setInvertedMask m w = Ok m' ∧ wf m' ∧ offsets m' = range 0 (mSize m) ∖ offsets w.
Proof.
  intros Hm Hw Hs. unfold setInvertedMask. rewrite (proj2 (Z.eqb_eq _ _) Hs). cbn [assert rbind].
  edestruct (whole_loop m) as (mask & -> & Hwf & Ho);
    [exact Hm| |intros i mask Hi _ He; cbn beta|]; cycle 1.
  - rewrite mask_at_Ok by (done || lia). cbn [rbind].
    instantiate (1 := range 0 (mSize m) ∖ offsets w). f_equal.
    rewrite <- bool_decide_not. apply bool_decide_ext. rewrite elem_of_difference, elem_of_range.
    naive_solver.
  - by eexists.
  - set_solver.
Qed.

(** ** Questions about masks *)

(** A loop that takes the conjunction over some bytes. *)
Lemma all_loop d (n : nat) f (Y : gset Z) :
  (∀ i tmp, 0 ≤ i < Z.of_nat n → f i tmp = Ok (tmp && bool_decide (d + i ∈ Y))) →
  for_range 0 n f true = Ok (bool_decide (range d (Z.of_nat n) ⊆ Y)).
Proof.
  intros Hf.
  destruct (for_range_total (λ i tmp, tmp = bool_decide (range d i ⊆ Y)) f n 0 true)
    as (b & -> & ->); [| |done].
  - intros i tmp Hi ->. rewrite Hf by lia. eexists. split; [done|].
    rewrite <- bool_decide_and. apply bool_decide_ext. split.
    + intros [Hr Hy] j Hj%elem_of_range. destruct (decide (j = d + i)) as [->|]; [done|].
      apply Hr, elem_of_range. lia.
    + intros Hr. split; [intros j Hj%elem_of_range|]; apply Hr, elem_of_range; lia.
  - symmetry. apply bool_decide_eq_true. intros j Hj%elem_of_range. lia.
Qed.

Lemma any_loop d (n : nat) f (Y : gset Z) :
  (∀ i tmp, 0 ≤ i < Z.of_nat n → f i tmp = Ok (tmp || bool_decide (d + i ∈ Y))) →
  for_range 0 n f false = Ok (bool_decide (¬ range d (Z.of_nat n) ## Y)).
Proof.
  intros Hf.
  destruct (for_range_total (λ i tmp, tmp = bool_decide (¬ range d i ## Y)) f n 0 false)
    as (b & -> & ->); [| |done].
  - intros i tmp Hi ->. rewrite Hf by lia. eexists. split; [done|].
    rewrite <- bool_decide_or. apply bool_decide_ext.
    destruct (decide (d + i ∈ Y)) as [Hy|Hy].
    + split; [|by right]. intros _ Hd. apply (Hd (d + i)); [apply elem_of_range; lia|done].
    + split; [intros [Hr|?]; [|done]|intros Hr; left]; intros Hd; apply Hr; intros j Hj%elem_of_range HY.
      * apply (Hd j); [apply elem_of_range; lia|done].
      * apply (Hd j); [|done]. apply elem_of_range. assert (j ≠ d + i) by congruence. lia.
  - symmetry. apply bool_decide_eq_false. intros Hn. apply Hn. intros j Hj%elem_of_range. lia.
Qed.

Lemma getMask_spec m off len :
  wf m → 0 ≤ off → 0 ≤ len → off + len ≤ mSize m →
  getMask m off len = Ok (bool_decide (range off len ⊆ offsets m)).
Proof.
  intros Hm Ho Hl Hs. unfold getMask. rewrite (proj2 (Z.leb_le _ _) Hs). cbn [assert rbind].
  rewrite (all_loop off _ _ (offsets m)); [by rewrite Z2Nat.id|].
  intros i tmp Hi. by rewrite mask_at_Ok by (done || lia).
Qed.

Lemma isOverlap_spec m r :
  wf m → wf r → mSize m = mSize r →
  isOverlap m r = Ok (bool_decide (¬ offsets m ## offsets r)).
Proof.
  intros Hm Hr Hs. unfold isOverlap. rewrite (proj2 (Z.eqb_eq _ _) Hs). cbn [assert rbind].
  pose proof (wf_size m Hm). pose proof (offsets_in m Hm).
  rewrite (any_loop 0 _ _ (offsets m ∩ offsets r)).
  - rewrite Z2Nat.id by done. f_equal. apply bool_decide_ext. set_solver.
  - intros i tmp Hi. rewrite Z.add_0_l, !mask_at_Ok by (done || lia). cbn [rbind].
    repeat case_bool_decide; rewrite ?orb_true_r, ?orb_false_r; cbn; set_solver.
Qed.

Lemma containsMask_spec m r :
  wf m → wf r → mSize m = mSize r →
  containsMask m r = Ok (bool_decide (offsets r ⊆ offsets m)).
Proof.
  intros Hm Hr Hs. unfold containsMask. rewrite (proj2 (Z.eqb_eq _ _) Hs). cbn [assert rbind].
  pose proof (wf_size m Hm). pose proof (offsets_in r Hr) as Hin. rewrite <- Hs in Hin.
  rewrite (all_loop 0 _ _ (offsets m ∪ (range 0 (mSize m) ∖ offsets r))).
  - rewrite Z2Nat.id by done. f_equal. apply bool_decide_ext. split; [|intros ? i; destruct (decide (i ∈ offsets r))]; set_solver.
  - intros i tmp Hi. rewrite Z.add_0_l, !mask_at_Ok by (done || lia). cbn [rbind].
    assert (i ∈ range 0 (mSize m)) by (apply elem_of_range; lia).
    repeat case_bool_decide; rewrite ?andb_true_r, ?andb_false_r; cbn; set_solver.
Qed.

(** The offsets whose byte is [val]. *)
Definition valued (m : t) (val : bool) : gset Z :=
  if val then offsets m else range 0 (mSize m) ∖ offsets m.

Lemma eqb_valued m val i :
  wf m → 0 ≤ i < mSize m → eqb (bool_decide (i ∈ offsets m)) val = bool_decide (i ∈ valued m val).
Proof.
  intros Hm Hi. assert (i ∈ range 0 (mSize m)) by (apply elem_of_range; lia).
  unfold valued. destruct val; repeat case_bool_decide; set_solver.
Qed.

Lemma none_is_spec m val i (n : nat) :
  wf m → 0 ≤ i → i + Z.of_nat n ≤ mSize m →
  none_is m val i n = Ok (bool_decide (range i (Z.of_nat n) ## valued m val)).
Proof.
  intros Hm. revert i. induction n as [|n IH]; intros i Hi Hn; cbn [none_is].
  - f_equal. symmetry. apply bool_decide_eq_true. intros j Hj%elem_of_range. lia.
  - rewrite mask_at_Ok by (done || lia). cbn [rbind]. rewrite eqb_valued by (done || lia).
    case_bool_decide as Hv.
    + f_equal. symmetry. apply bool_decide_eq_false. intros Hd.
      apply (Hd i); [apply elem_of_range; lia|done].
    + rewrite IH by lia. f_equal. apply bool_decide_ext. split; intros Hd j Hj%elem_of_range HV;
        assert (j ≠ i) by congruence; apply (Hd j); try done; apply elem_of_range; lia.
Qed.

Lemma first_from_spec m val i (n : nat) :
  wf m → 0 ≤ i → i + Z.of_nat n = mSize m →
  ∃ j, first_from m val i n = Ok j ∧ i ≤ j ≤ mSize m ∧
    (∀ k, i ≤ k < j → k ∉ valued m val) ∧ (j < mSize m → j ∈ valued m val).
Proof.
  intros Hm. revert i. induction n as [|n IH]; intros i Hi Hn; cbn [first_from].
  - exists (mSize m). split_and!; [done|lia|lia|intros; lia|lia].
  - unfold vget. rewrite mask_at_wf by (done || lia). cbn [rbind].
    rewrite eqb_valued by (done || lia). case_bool_decide as Hv.
    + exists i. split_and!; [done|lia|lia|intros; lia|done].
    + destruct (IH (i + 1)) as (j & -> & Hj & Hk & Hl); [lia|lia|].
      exists j. split_and!; [done|lia|lia| |done]. intros k Hr.
      destruct (decide (k = i)) as [->|]; [done|]. apply Hk. lia.
Qed.

Lemma count_spec m off :
  wf m → 0 ≤ off ≤ mSize m →
  count m off = Ok (Z.of_nat (size (offsets m ∖ range 0 off))).
Proof.
  intros Hm Ho. unfold count.
  destruct (for_range_total
    (λ i c, c = Z.of_nat (size (offsets m ∩ range off (i - off))))
    (λ i c, b ← vget (mMask m) i; Ok (c + Z.b2z b)) (Z.to_nat (mSize m - off)) off 0)
    as (c & -> & ->).
  - intros i c Hi ->. unfold vget. rewrite mask_at_wf by (done || lia). cbn [rbind].
    eexists. split; [done|]. case_bool_decide as Hv; cbn [Z.b2z].
    + assert (offsets m ∩ range off (i + 1 - off) = {[i]} ∪ (offsets m ∩ range off (i - off))) as ->.
      { apply set_eq. intros j. rewrite elem_of_union, !elem_of_intersection, elem_of_singleton,
          !elem_of_range. destruct (decide (j = i)) as [->|]; [split; [by left|intros _; split; [done|lia]]|].
        split; [intros [? ?]; right; split; [done|lia]|intros [?|[? ?]]; [done|split; [done|lia]]]. }
      rewrite (size_union {[i]} (offsets m ∩ range off (i - off))), (size_singleton (C := gset Z));
        [lia|].
      intros j Hj%elem_of_singleton [_ Hr%elem_of_range]%elem_of_intersection. lia.
    + assert (offsets m ∩ range off (i + 1 - off) = offsets m ∩ range off (i - off)) as ->; [|lia].
      apply set_eq. intros j. rewrite !elem_of_intersection, !elem_of_range.
      destruct (decide (j = i)) as [->|]; [naive_solver|]. split; intros [? ?]; (split; [done|lia]).
  - assert (offsets m ∩ range off (off - off) = ∅) as ->; [|by rewrite size_empty].
    apply set_eq. intros j. rewrite elem_of_intersection, elem_of_range, elem_of_empty. lia.
  - do 3 f_equal. apply set_eq. intros j.
    rewrite elem_of_intersection, elem_of_difference, !elem_of_range.
    split; [intros [? ?]; split; [done|lia]|]. intros [Hj Hr]. split; [done|].
    pose proof (offsets_in m Hm j Hj) as Hs%elem_of_range. lia.
Qed.

(** C27: a write mask is the set of the offsets of a block it selects.  For masks of one
    size none of the operations fails; [orMask], [andMask] and [setInvertedMask] are union,
    intersection and complement, [isOverlap] and [containsMask] ask whether the sets meet
    and whether one contains the other, [isEmpty], [isFull] and [count] ask for the
    elements, [firstBitSet] finds the least of them, and [setMask] and [getMask] add, remove
    and look for a range. *)
Theorem write_mask_sets (m w : t) :
  wf m → wf w → mSize m = mSize w →
  (∃ m', orMask m w = Ok m' ∧ wf m' ∧ offsets m' = offsets m ∪ offsets w) ∧
  (∃ m', andMask m w = Ok m' ∧ wf m' ∧ offsets m' = offsets m ∩ offsets w) ∧
  (∃ m', setInvertedMask m w = Ok m' ∧ wf m' ∧ offsets m' = range 0 (mSize m) ∖ offsets w) ∧
  isOverlap m w = Ok (bool_decide (¬ offsets m ## offsets w)) ∧
  containsMask m w = Ok (bool_decide (offsets w ⊆ offsets m)) ∧
  isEmpty m = Ok (bool_decide (offsets m = ∅)) ∧
  isFull m = Ok (bool_decide (offsets m = range 0 (mSize m))) ∧
  count m 0 = Ok (Z.of_nat (size (offsets m))) ∧
  (∃ j, firstBitSet m true 0 = Ok j ∧ 0 ≤ j ≤ mSize m ∧
     (∀ k, k ∈ offsets m → j ≤ k) ∧ (j < mSize m → j ∈ offsets m)) ∧
  (∀ off len, 0 ≤ off → 0 ≤ len → off + len ≤ mSize m →
     getMask m off len = Ok (bool_decide (range off len ⊆ offsets m)) ∧
     ∀ val, ∃ m', setMask m off len val = Ok m' ∧ wf m' ∧
       offsets m' = if val then offsets m ∪ range off len else offsets m ∖ range off len).
Proof.
  intros Hm Hw Hs. pose proof (wf_size m Hm) as Hp. pose proof (offsets_in m Hm) as Hin.
  split_and!.
  - destruct (combine_spec true m w) as (m' & ? & ? & _ & ? & _); [done..|]. by exists m'.
  - destruct (combine_spec false m w) as (m' & ? & ? & _ & ? & _); [done..|]. by exists m'.
  - by apply setInvertedMask_spec.
  - by apply isOverlap_spec.
  - by apply containsMask_spec.
  - unfold isEmpty. rewrite none_is_spec, Z2Nat.id by (done || lia). f_equal.
    apply bool_decide_ext. unfold valued. set_solver.
  - unfold isFull. rewrite none_is_spec, Z2Nat.id by (done || lia). f_equal.
    apply bool_decide_ext. unfold valued. split; [|set_solver]. intros Hd. apply set_eq. intros i.
    split; [apply Hin|]. intros Hi. destruct (decide (i ∈ offsets m)); set_solver.
  - rewrite count_spec by (done || lia). do 3 f_equal. apply set_eq. intros i.
    rewrite elem_of_difference, elem_of_range. split; [by intros [? _]|intros ?; split; [done|lia]].
  - unfold firstBitSet.
    destruct (first_from_spec m true 0 (Z.to_nat (mSize m - 0))) as (j & Hj & Hr & Hk & Hl);
      [done|lia|lia|]. exists j. split_and!; [done|lia|lia| |done]. intros k Hk'.
    pose proof (Hin k Hk') as Hkr%elem_of_range. destruct (decide (j ≤ k)); [done|].
    by destruct (Hk k); [lia|].
  - intros off len Ho Hl Hr. split; [by apply getMask_spec|]. intros val. by apply setMask_spec.
Qed.

End MaskSets.

(** ** Data blocks *)

Module BlockFacts.
Import DataBlock MaskSets.

Section facts.
Context (bs : block_size) (Hbs : block_ok bs).

Notation size := (m_block_size_bytes bs).

Definition data_ok (d : DataBlock.t) : Prop := zlen (m_data d) = size.

Lemma copyPartial_spec d dblk mask :
  data_ok d → data_ok dblk → wf mask → WriteMask.mSize mask = size →
  ∃ d', copyPartial bs d dblk mask = Ok d' ∧ data_ok d' ∧ m_atomicLog d' = m_atomicLog d ∧
    ∀ i, zlookup (m_data d') i =
      if decide (i ∈ offsets mask) then zlookup (m_data dblk) i else zlookup (m_data d) i.
Proof.
  unfold data_ok. intros Hd Hb Hm Hs. pose proof (size_pos bs Hbs). unfold copyPartial.
  destruct (pointwise_loop (m_data d) 0 (Z.to_nat size)
    (λ i data, b ← WriteMask.getMask mask i 1;
               if b then v ← vget (m_data dblk) i; vset data i v else Ok data)
    (λ i, look 0 id (if decide (i ∈ offsets mask) then m_data dblk else m_data d) i))
    as (data & -> & Hl & Hj); [lia|lia| |].
  - intros i l' Hi Hl He. rewrite Z.add_0_l in *. rewrite getMask_spec by (done || lia).
    cbn [rbind].
    assert (bool_decide (range i 1 ⊆ offsets mask) = bool_decide (i ∈ offsets mask)) as ->.
    { apply bool_decide_ext. split; [intros Hr; apply Hr, elem_of_range; lia|].
      intros Ho j Hj%elem_of_range. by replace j with i by lia. }
    destruct (zlookup_is_Some (m_data dblk) i) as [v Hv]; [lia|].
    destruct (zlookup_is_Some (m_data d) i) as [u Hu]; [lia|].
    destruct (decide (i ∈ offsets mask)) as [Ho|Ho].
    + rewrite bool_decide_eq_true_2, (vget_intro _ _ _ Hv) by done.
      by rewrite (look_Some _ _ _ _ _ Hv).
    + rewrite bool_decide_eq_false_2 by done. rewrite (look_Some _ _ _ _ _ Hu).
      symmetry. apply vset_same. by rewrite He.
  - cbn [rbind]. eexists. split; [done|]. split_and!; [cbn; lia|done|]. intros i. cbn. rewrite Hj.
    case_decide as Hr.
    + unfold look. destruct (decide (i ∈ offsets mask)).
      * destruct (zlookup_is_Some (m_data dblk) i) as [v ->]; [lia|done].
      * destruct (zlookup_is_Some (m_data d) i) as [v ->]; [lia|done].
    + rewrite decide_False; [done|]. intros Hi%offsets_in; [|done]. rewrite elem_of_range in Hi. lia.
Qed.

Lemma data_eq d d' : m_data d = m_data d' → m_alloc d = m_alloc d' →
  m_atomicLog d = m_atomicLog d' → d = d'.
Proof. destruct d, d'. cbn. by intros -> -> ->. Qed.

(** Copying the selected bytes of a block twice is copying under the union of the
    masks, and copying under a mask and then under its complement is copying the whole
    block; the other bytes, and the log of atomic operations, stay what they were. *)
Theorem partial_copies d dblk m w :
  data_ok d → data_ok dblk → wf m → wf w → WriteMask.mSize m = size → WriteMask.mSize w = size →
  ∃ d1 u c d2 d3,
    copyPartial bs d dblk m = Ok d1 ∧ m_atomicLog d1 = m_atomicLog d ∧
    (∀ i, zlookup (m_data d1) i =
       if decide (i ∈ offsets m) then zlookup (m_data dblk) i else zlookup (m_data d) i) ∧
    WriteMask.orMask m w = Ok u ∧ copyPartial bs d1 dblk w = Ok d2 ∧
    copyPartial bs d dblk u = Ok d2 ∧
    WriteMask.setInvertedMask w m = Ok c ∧ copyPartial bs d1 dblk c = Ok d3 ∧
    m_data d3 = m_data dblk.
Proof.
  intros Hd Hb Hm Hw Hsm Hsw.
  destruct (copyPartial_spec d dblk m) as (d1 & E1 & Hd1 & Hl1 & H1); [done..|].
  destruct (combine_spec true m w) as (u & Eu & Hu & Hsu & Ho & _); [congruence..|].
  destruct (setInvertedMask_spec w m) as (c & Ec & Hc & Hoc); [congruence..|].
  assert (WriteMask.mSize c = size) as Hsc.
  { unfold WriteMask.setInvertedMask in Ec. step_bind Ec as [] _. step_bind Ec as mask _.
    by injection Ec as <-. }
  destruct (copyPartial_spec d1 dblk w) as (d2 & E2 & Hd2 & Hl2 & H2); [done..|].
  destruct (copyPartial_spec d dblk u) as (d2' & E2' & Hd2' & Hl2' & H2'); [congruence..|].
  destruct (copyPartial_spec d1 dblk c) as (d3 & E3 & Hd3 & Hl3 & H3); [done..|].
  assert (∀ x y k z, copyPartial bs x y k = Ok z → m_alloc z = m_alloc x) as Ha.
  { intros x y k z E. unfold copyPartial in E. step_bind E as data _. by injection E as <-. }
  assert (d2' = d2) as ->.
  { apply data_eq; [|by rewrite (Ha _ _ _ _ E2'), (Ha _ _ _ _ E2), (Ha _ _ _ _ E1)|congruence].
    apply list_eq_zlookup. intros i. rewrite H2', H2, H1, Ho. repeat case_decide; set_solver. }
  exists d1, u, c, d2, d3. split_and!; try done. apply list_eq_zlookup. intros i.
  rewrite H3, H1, Hoc. case_decide as Hi; [done|]. case_decide as Hj; [done|].
  destruct (zlookup (m_data dblk) i) as [v|] eqn:Ev.
  - apply zlookup_lt in Ev. unfold data_ok in Hb. destruct Hi.
    apply elem_of_difference. split; [apply elem_of_range; lia|done].
  - destruct (zlookup (m_data d) i) as [v|] eqn:Eu'; [|done]. apply zlookup_lt in Eu'.
    destruct (zlookup_is_Some (m_data dblk) i) as [? ?]; [|congruence]. unfold data_ok in *. lia.
Qed.

(** ** Copies and assignments *)

Definition log_ok (d : DataBlock.t) : Prop := Forall (λ e, zlen e = size) (m_atomicLog d).

Lemma copy_bytes_whole e : zlen e = size → copy_bytes e size = Ok e.
Proof.
  intros He. pose proof (size_pos bs Hbs). unfold copy_bytes.
  rewrite (proj2 (Z.leb_le 0 size)), (proj2 (Z.leb_le size (zlen e))) by lia. cbn.
  f_equal. apply take_ge. unfold zlen in He. lia.
Qed.

Lemma copy_log_whole log : Forall (λ e, zlen e = size) log → copy_log bs log = Ok log.
Proof.
  induction 1 as [|e log He _ IH]; cbn; [done|]. by rewrite copy_bytes_whole, IH.
Qed.

Lemma same_bytes_whole a b :
  zlen a = size → zlen b = size → same_bytes a b size = Ok (bool_decide (a = b)).
Proof.
  intros Ha Hb. pose proof (size_pos bs Hbs). unfold same_bytes.
  rewrite (proj2 (Z.leb_le 0 size)), (proj2 (Z.leb_le size (zlen a))),
    (proj2 (Z.leb_le size (zlen b))) by lia. cbn.
  unfold zlen in *. by rewrite !take_ge by lia.
Qed.

Lemma same_log_whole l1 l2 :
  Forall (λ e, zlen e = size) l1 → Forall (λ e, zlen e = size) l2 → zlen l1 = zlen l2 →
  same_log bs l1 l2 = Ok (bool_decide (l1 = l2)).
Proof.
  intros H1. revert l2. induction H1 as [|e1 l1 He1 _ IH]; intros l2 H2 Hl.
  - destruct l2; [done|]. unfold zlen in Hl. cbn in Hl. lia.
  - destruct H2 as [|e2 l2 He2 H2]; [unfold zlen in Hl; cbn in Hl; lia|]. cbn [same_log].
    rewrite same_bytes_whole by done. cbn [rbind]. rewrite !zlen_cons in Hl.
    case_bool_decide as He.
    + rewrite IH by (done || lia). f_equal. apply bool_decide_ext. naive_solver.
    + f_equal. symmetry. apply bool_decide_eq_false. naive_solver.
Qed.

(** [equal] compares the bytes and the logs. *)
Lemma equal_spec d d' :
  data_ok d → data_ok d' → log_ok d → log_ok d' →
  equal bs d d' = Ok (bool_decide (m_data d = m_data d' ∧ m_atomicLog d = m_atomicLog d')).
Proof.
  intros Hd Hd' Hl Hl'. unfold equal. rewrite same_bytes_whole by done. cbn [rbind].
  case_bool_decide as He; cbn [negb].
  - destruct (Z.eqb_spec (zlen (m_atomicLog d)) (zlen (m_atomicLog d'))) as [Hz|Hz]; cbn [negb].
    + rewrite same_log_whole by done. f_equal. apply bool_decide_ext. naive_solver.
    + f_equal. symmetry. apply bool_decide_eq_false. intros [_ Hlog]. by rewrite Hlog in Hz.
  - f_equal. symmetry. apply bool_decide_eq_false. naive_solver.
Qed.

Lemma memcpy_whole dst src :
  zlen dst = size → zlen src = size → memcpy dst 0 src size = Ok src.
Proof.
  intros Hd Hs. pose proof (size_pos bs Hbs). unfold memcpy. rewrite Z.add_0_l.
  rewrite (proj2 (Z.leb_le 0 0)), (proj2 (Z.leb_le 0 size)), (proj2 (Z.leb_le size (zlen dst))),
    (proj2 (Z.leb_le size (zlen src))) by lia. cbn [andb]. f_equal.
  unfold zlen in *. by rewrite (drop_ge dst), (take_ge src), app_nil_r by lia.
Qed.

Lemma self_log_runs fuel i log :
  Forall (λ e, zlen e = size) log → 0 ≤ i < zlen log → self_log bs fuel i log = None.
Proof.
  revert i log. induction fuel as [|fuel IH]; intros i log Hl Hi; cbn [self_log]; [done|].
  rewrite (proj2 (Z.ltb_lt i (zlen log))) by lia.
  destruct (zlookup_is_Some log i) as [e He]; [lia|]. rewrite (vget_intro _ _ _ He).
  pose proof (Forall_zlookup _ _ _ _ Hl He) as Hz. cbn in Hz. rewrite copy_bytes_whole by done.
  apply IH; [|rewrite zlen_app, zlen_cons; unfold zlen in *; cbn; lia].
  apply Forall_app. split; [done|by constructor].
Qed.

(** C30: a copy of a block equals it.  An assignment does not make the blocks equal unless
    the block assigned to had no log of atomic operations: the entries of the other are
    appended to its own.  A block with a log that is assigned to itself never returns, since
    the loop appends to the list it runs through. *)
Theorem copies_and_assignments d obj :
  data_ok d → data_ok obj → log_ok d → log_ok obj →
  (∃ c, copy bs obj = Ok c ∧ equal bs c obj = Ok true) ∧
  (∃ d', assign_from bs d obj = Ok d' ∧ m_data d' = m_data obj ∧
     m_atomicLog d' = m_atomicLog d ++ m_atomicLog obj ∧
     equal bs d' obj = Ok (bool_decide (m_atomicLog d = []))) ∧
  (m_atomicLog d ≠ [] → ∀ fuel, self_log bs fuel 0 (m_atomicLog d) = None).
Proof.
  intros Hd Ho Hld Hlo. split_and!.
  - unfold copy. rewrite copy_bytes_whole, copy_log_whole by done. cbn [rbind].
    eexists. split; [done|]. rewrite equal_spec by done. cbn. f_equal. by apply bool_decide_eq_true.
  - unfold assign_from. rewrite memcpy_whole, copy_log_whole by done. cbn [rbind].
    eexists. split; [done|]. split_and!; [done|done|].
    rewrite equal_spec; [|done|done|by apply Forall_app|done]. f_equal. apply bool_decide_ext. cbn.
    split; [|by intros ->]. intros [_ Hl%(f_equal length)]. rewrite length_app in Hl.
    apply nil_length_inv. lia.
  - intros Hne fuel. apply self_log_runs; [done|]. destruct (m_atomicLog d) as [|e log]; [done|].
    rewrite zlen_cons. pose proof (zlen_nonneg log). lia.
Qed.

End facts.

End BlockFacts.
