(* ===== verification/RubyBlockOps.v ===== *)
(** * Atomic operations on blocks and merges of their parts

    What [atomicPartial] logs and leaves, and the round trip of a part of a block, with what
    happens to a part that crosses the end of its line. *)

From S2P Require Import Prelude.
From S2P Require Import IntMath.
From S2P Require Import Bitfield.
From S2P Require Import RubyBlocks.
From S2P Require Import RubyBlockFacts.

Import BlockFacts.

(** ** Loops that fail *)

Lemma for_range_app {S} (f : Z → S → result S) a (k n : nat) s :
  for_range a (k + n) f s = (t ← for_range a k f s; for_range (a + Z.of_nat k) n f t).
Proof.
  revert a s. induction k as [|k IH]; intros a s; cbn [for_range Nat.add rbind].
  - by rewrite Z.add_0_r.
  - destruct (f a s); cbn [rbind]; [|done]. rewrite IH.
    by replace (a + Z.of_nat (Datatypes.S k)) with (a + 1 + Z.of_nat k) by lia.
Qed.

(** The loop runs [k] times and the next iteration fails. *)
Lemma for_range_fails {S} (P : Z → S → Prop) (f : Z → S → result S) a (k n : nat) s e :
  (k < n)%nat →
  (∀ i t, a ≤ i < a + Z.of_nat k → P i t → ∃ t', f i t = Ok t' ∧ P (i + 1) t') →
  (∀ t, P (a + Z.of_nat k) t → f (a + Z.of_nat k) t = Err e) →
  P a s → for_range a n f s = Err e.
Proof.
  intros Hk Hok Herr HP. replace n with (k + Datatypes.S (n - k - 1))%nat by lia.
  rewrite for_range_app. destruct (for_range_total P f k a s) as (t & -> & Ht); [done|done|].
  cbn [rbind for_range]. by rewrite Herr.
Qed.

(** ** Parts of blocks *)

Section parts.
Context (bs : block_size) (Hbs : block_ok bs).

Notation size := (m_block_size_bytes bs).

Lemma sub_loop (g : Z → result Z) a (n : nat) addr l :
  for_range a n (λ i s, b ← g i; SubBlock.setByte s i b) (SubBlock.mk addr l) =
  rmap (SubBlock.mk addr) (for_range a n (λ i l, b ← g i; vset l i b) l).
Proof.
  revert a l. induction n as [|n IH]; intros a l; cbn [for_range rmap]; [done|].
  destruct (g a) as [b|]; cbn [rbind]; [|done]. unfold SubBlock.setByte at 1.
  cbn [SubBlock.m_data SubBlock.m_address]. destruct (vset l a b); cbn [rbind]; [apply IH|done].
Qed.

Lemma block_loop (g : Z → result Z) off a (n : nat) d l :
  for_range a n (λ i d, b ← g i; DataBlock.setByte d (off + i) b) (DataBlock.with_data d l) =
  rmap (DataBlock.with_data d) (for_range a n (λ i l, b ← g i; vset l (off + i) b) l).
Proof.
  revert a l. induction n as [|n IH]; intros a l; cbn [for_range rmap]; [done|].
  destruct (g a) as [b|]; cbn [rbind]; [|done]. unfold DataBlock.setByte at 1.
  cbn [DataBlock.m_data DataBlock.with_data].
  destruct (vset l (off + a) b) as [l'|]; cbn [rbind]; [|done].
  rewrite <- IH. done.
Qed.

Lemma mergeTo_loop s d o :
  0 < SubBlock.getSize s → Address.getOffset bs (SubBlock.m_address s) = Ok o →
  SubBlock.mergeTo bs s d =
  rmap (DataBlock.with_data d)
    (for_range 0 (Z.to_nat (SubBlock.getSize s))
       (λ i l, b ← SubBlock.getByte s i; vset l (o + i) b) (DataBlock.m_data d)).
Proof.
  intros Hn Ho. unfold SubBlock.mergeTo. rewrite (proj2 (Z.ltb_lt _ _) Hn), Ho. cbn [assert rbind].
  rewrite <- block_loop. by destruct d.
Qed.

Lemma mergeTo_spec s d o :
  data_ok bs d → 0 < SubBlock.getSize s → Address.getOffset bs (SubBlock.m_address s) = Ok o →
  0 ≤ o → o + SubBlock.getSize s ≤ size →
  ∃ d', SubBlock.mergeTo bs s d = Ok d' ∧ data_ok bs d' ∧
    DataBlock.m_atomicLog d' = DataBlock.m_atomicLog d ∧
    ∀ i, zlookup (DataBlock.m_data d') i =
      if decide (o ≤ i < o + SubBlock.getSize s) then zlookup (SubBlock.m_data s) (i - o)
      else zlookup (DataBlock.m_data d) i.
Proof.
  intros Hd Hn Ho Hp Hs. unfold data_ok in *. rewrite (mergeTo_loop s d o) by done.
  destruct (pointwise_loop (DataBlock.m_data d) o (Z.to_nat (SubBlock.getSize s))
    (λ i l, b ← SubBlock.getByte s i; vset l (o + i) b)
    (λ i, look 0 id (SubBlock.m_data s) (i - o))) as (l & -> & Hl & Hj); [lia|lia| |].
  - intros i l Hi _ _. replace (o + i - o) with i by lia. unfold SubBlock.getByte, SubBlock.getSize in *.
    destruct (zlookup_is_Some (SubBlock.m_data s) i) as [b Hb]; [lia|].
    by rewrite (vget_intro _ _ _ Hb), (look_Some _ _ _ _ _ Hb).
  - eexists. split; [done|]. split_and!; [cbn; lia|done|]. intros i. cbn. rewrite Hj.
    rewrite Z2Nat.id by lia. case_decide as Hi; [|done]. unfold look, SubBlock.getSize in *.
    by destruct (zlookup_is_Some (SubBlock.m_data s) (i - o)) as [b ->]; [lia|].
Qed.

Lemma mergeFrom_spec s d o :
  data_ok bs d → 0 < SubBlock.getSize s → Address.getOffset bs (SubBlock.m_address s) = Ok o →
  0 ≤ o → o + SubBlock.getSize s ≤ size →
  ∃ s', SubBlock.mergeFrom bs s d = Ok s' ∧ SubBlock.m_address s' = SubBlock.m_address s ∧
    SubBlock.getSize s' = SubBlock.getSize s ∧
    ∀ i, 0 ≤ i < SubBlock.getSize s →
      zlookup (SubBlock.m_data s') i = zlookup (DataBlock.m_data d) (o + i).
Proof.
  intros Hd Hn Ho Hp Hs. unfold data_ok in *. unfold SubBlock.mergeFrom.
  rewrite (proj2 (Z.ltb_lt _ _) Hn), Ho. cbn [assert rbind]. destruct s as [addr l].
  unfold SubBlock.getSize in *. cbn [SubBlock.m_data SubBlock.m_address] in *. rewrite sub_loop.
  destruct (pointwise_loop l 0 (Z.to_nat (zlen l))
    (λ i l, b ← DataBlock.getByte d (o + i); vset l i b)
    (λ i, look 0 id (DataBlock.m_data d) (o + i))) as (l' & -> & Hl & Hj); [lia|lia| |].
  - intros i l' Hi _ _. rewrite Z.add_0_l. unfold DataBlock.getByte.
    destruct (zlookup_is_Some (DataBlock.m_data d) (o + i)) as [b Hb]; [lia|].
    by rewrite (vget_intro _ _ _ Hb), (look_Some _ _ _ _ _ Hb).
  - eexists. split; [done|]. cbn [SubBlock.m_data SubBlock.m_address]. split_and!; [done|done|].
    intros i Hi. rewrite Hj, Z2Nat.id, decide_True by lia. unfold look.
    by destruct (zlookup_is_Some (DataBlock.m_data d) (o + i)) as [b ->]; [lia|].
Qed.

(** Nothing detects that a part crosses the end of its line. *)
Lemma mergeTo_crossing s d o :
  data_ok bs d → 0 < SubBlock.getSize s → Address.getOffset bs (SubBlock.m_address s) = Ok o →
  0 ≤ o < size → size < o + SubBlock.getSize s → SubBlock.mergeTo bs s d = Err Undefined.
Proof.
  intros Hd Hn Ho Hp Hs. unfold data_ok in *. rewrite (mergeTo_loop s d o) by done.
  rewrite (for_range_fails (λ _ l, zlen l = size) _ 0 (Z.to_nat (size - o)) _ _ Undefined);
    [done|lia| | |done].
  - intros i l Hi Hl. unfold SubBlock.getByte, SubBlock.getSize in *.
    destruct (zlookup_is_Some (SubBlock.m_data s) i) as [b Hb]; [lia|].
    rewrite (vget_intro _ _ _ Hb). cbn [rbind]. rewrite vset_intro by lia.
    eexists. split; [done|]. by rewrite zlen_insert.
  - intros l Hl. rewrite Z.add_0_l, Z2Nat.id by lia. unfold SubBlock.getByte, SubBlock.getSize in *.
    destruct (zlookup_is_Some (SubBlock.m_data s) (size - o)) as [b Hb]; [lia|].
    rewrite (vget_intro _ _ _ Hb). cbn [rbind]. unfold vset.
    destruct (zlookup l (o + (size - o))) as [c|] eqn:Hc; [|done]. apply zlookup_lt in Hc. lia.
Qed.

(** C28: a part of a line that is written to the block of the line is read back as it was,
    by a part of the same address and size, and the rest of the block does not change.  A
    part that crosses the end of its line is written past the end of the block: the code
    does not detect it. *)
Theorem sub_block_roundtrip s s0 d :
  data_ok bs d → word (SubBlock.m_address s) → 0 < SubBlock.getSize s →
  SubBlock.m_address s0 = SubBlock.m_address s → SubBlock.getSize s0 = SubBlock.getSize s →
  ∃ o, Address.getOffset bs (SubBlock.m_address s) = Ok o ∧ 0 ≤ o < size ∧
    SubBlock.m_address s = Address.makeLineAddress bs (SubBlock.m_address s) + o ∧
    if decide (o + SubBlock.getSize s ≤ size) then
      ∃ d', SubBlock.mergeTo bs s d = Ok d' ∧ data_ok bs d' ∧
        SubBlock.mergeFrom bs s0 d' = Ok s ∧
        ∀ i, ¬ (o ≤ i < o + SubBlock.getSize s) →
          zlookup (DataBlock.m_data d') i = zlookup (DataBlock.m_data d) i
    else SubBlock.mergeTo bs s d = Err Undefined.
Proof.
  intros Hd Hw Hn Ha Hz.
  destruct (line_offset bs Hbs _ Hw) as (o & Ho & Hr & He & _). exists o.
  split_and!; [done|lia|lia|done|]. case_decide as Hc.
  - destruct (mergeTo_spec s d o) as (d' & Et & Hd' & _ & Hb); [done..|lia|lia|].
    destruct (mergeFrom_spec s0 d' o) as (s' & Ef & Ha' & Hz' & Hb');
      [done|lia|congruence|lia|lia|].
    exists d'. split_and!; [done|done| |].
    + rewrite Ef. f_equal. destruct s as [addr l], s' as [addr' l']. cbn in *.
      unfold SubBlock.getSize in *. cbn in *. f_equal; [congruence|]. apply list_eq_zlookup.
      intros i. destruct (decide (0 ≤ i < zlen l)) as [Hi|Hi].
      * rewrite Hb', Hb, decide_True by lia. by replace (o + i - o) with i by lia.
      * destruct (zlookup l i) eqn:E1; [apply zlookup_lt in E1; lia|].
        destruct (zlookup l' i) eqn:E2; [apply zlookup_lt in E2; lia|done].
    + intros i Hi. rewrite Hb. by rewrite decide_False.
  - apply (mergeTo_crossing s d o); done || lia.
Qed.

(** ** Atomic operations *)

(** One operation on the bytes of a block. *)
Definition apply_op (op : Z * WriteMask.AtomicOpFunctor) (p : list Z) : result (list Z) :=
  tail ← from_offset p op.1;
  tail ← op.2 tail;
  Ok (take (Z.to_nat op.1) p ++ tail).

(** The contents of the block before each of the operations, and in the end. *)
Fixpoint history (ops : list (Z * WriteMask.AtomicOpFunctor)) (p : list Z)
    : result (list (list Z) * list Z) :=
  match ops with
  | [] => Ok ([], p)
  | op :: ops =>
      q ← apply_op op p;
      '(before, final) ← history ops q;
      Ok (p :: before, final)
  end.

(** An operation that stays in the block. *)
Definition op_ok (op : Z * WriteMask.AtomicOpFunctor) : Prop :=
  0 ≤ op.1 ≤ size ∧ ∀ l, zlen l = size - op.1 → ∃ l', op.2 l = Ok l' ∧ zlen l' = zlen l.

Lemma apply_op_ok op p : op_ok op → zlen p = size → ∃ q, apply_op op p = Ok q ∧ zlen q = size.
Proof.
  intros [Ho Hf] Hp. unfold apply_op, from_offset.
  rewrite (proj2 (Z.leb_le 0 _)), (proj2 (Z.leb_le op.1 _)) by lia. cbn [andb rbind].
  destruct (Hf (drop (Z.to_nat op.1) p)) as (l' & -> & Hl).
  { unfold zlen in *. rewrite length_drop. lia. }
  eexists. split; [done|]. unfold zlen in *. rewrite length_app, length_take, Nat.min_l by lia.
  rewrite length_drop in Hl. lia.
Qed.

Lemma history_ok ops p :
  Forall op_ok ops → zlen p = size →
  ∃ before final, history ops p = Ok (before, final) ∧ length before = length ops ∧
    zlen final = size ∧ Forall (λ e, zlen e = size) before.
Proof.
  intros Hops. revert p. induction Hops as [|op ops Hop _ IH]; intros p Hp; cbn [history].
  - exists [], p. split_and!; done.
  - destruct (apply_op_ok op p) as (q & -> & Hq); [done..|]. cbn [rbind].
    destruct (IH q Hq) as (before & final & -> & Hl & Hf & Hb). cbn [rbind].
    exists (p :: before), final. split_and!; [done|cbn; lia|done|by constructor].
Qed.

(** What the loop does is in the history. *)
Lemma atomic_steps_history m nr ops p log before final :
  WriteMask.mSize m = size → Forall op_ok ops → zlen p = size →
  history ops p = Ok (before, final) →
  WriteMask.atomic_steps m nr ops (p, log) = Ok (final, log ++ if nr then [] else before).
Proof.
  intros Hs Hops. revert p log before. induction Hops as [|op ops Hop _ IH];
    intros p log before Hp Hh; cbn [history WriteMask.atomic_steps] in *.
  - injection Hh as <- <-. by destruct nr; rewrite app_nil_r.
  - destruct (apply_op_ok op p) as (q & Eq & Hq); [done..|]. rewrite Eq in Hh. cbn [rbind] in Hh.
    step_bind Hh as [before' final'] Eh. injection Hh as <- <-.
    unfold WriteMask.atomic_step. rewrite Hs, (copy_bytes_whole bs Hbs) by done.
    destruct op as [off f]. unfold apply_op in Eq. cbn [fst snd] in Eq.
    step_bind Eq as tail Et. step_bind Eq as tail' Et'. injection Eq as <-.
    assert (∀ lg, (tail ← from_offset p off; tail ← f tail;
                   Ok (take (Z.to_nat off) p ++ tail, lg)) =
                  Ok (take (Z.to_nat off) p ++ tail', lg) :> result (list Z * list (list Z))) as Hst.
    { intros lg. by rewrite Et; cbn [rbind]; rewrite Et'. }
    destruct nr; cbn [rbind]; rewrite Hst; cbn [rbind]; rewrite (IH _ _ before') by done;
      rewrite <- ?app_assoc; done.
Qed.

Lemma whole_copy d dblk :
  data_ok bs d → data_ok bs dblk →
  for_range 0 (Z.to_nat size) (λ i data, v ← vget (DataBlock.m_data dblk) i; vset data i v)
    (DataBlock.m_data d) = Ok (DataBlock.m_data dblk).
Proof.
  unfold data_ok. intros Hd Hb. pose proof (size_pos bs Hbs).
  destruct (pointwise_loop (DataBlock.m_data d) 0 (Z.to_nat size)
    (λ i data, v ← vget (DataBlock.m_data dblk) i; vset data i v)
    (λ i, look 0 id (DataBlock.m_data dblk) i)) as (l & -> & Hl & Hj); [lia|lia| |].
  - intros i l Hi _ _. rewrite Z.add_0_l.
    destruct (zlookup_is_Some (DataBlock.m_data dblk) i) as [b Hv]; [lia|].
    by rewrite (vget_intro _ _ _ Hv), (look_Some _ _ _ _ _ Hv).
  - f_equal. apply list_eq_zlookup. intros i. rewrite Hj, Z2Nat.id, Z.add_0_l by lia.
    case_decide as Hi; unfold look.
    + by destruct (zlookup_is_Some (DataBlock.m_data dblk) i) as [b ->]; [lia|].
    + destruct (zlookup (DataBlock.m_data d) i) eqn:E1; [apply zlookup_lt in E1; lia|].
      by destruct (zlookup (DataBlock.m_data dblk) i) eqn:E2; [apply zlookup_lt in E2; lia|].
Qed.

(** C29: the atomic operations of a mask are applied to the bytes of the other block in the
    order of the mask, each to what those before it left.  When the requests want a value
    back the log grows by one entry per operation, the bytes the operation found, in the
    same order; otherwise it stays. *)
Theorem atomic_history d dblk mask noReturn :
  data_ok bs d → data_ok bs dblk → WriteMask.mSize mask = size →
  Forall op_ok (WriteMask.mAtomicOp mask) →
  ∃ d' before, history (WriteMask.mAtomicOp mask) (DataBlock.m_data dblk) =
      Ok (before, DataBlock.m_data d') ∧
    length before = length (WriteMask.mAtomicOp mask) ∧
    DataBlock.atomicPartial bs d dblk mask noReturn = Ok d' ∧ data_ok bs d' ∧
    DataBlock.m_atomicLog d' = DataBlock.m_atomicLog d ++ (if noReturn then [] else before) ∧
    (log_ok bs d → log_ok bs d').
Proof.
  intros Hd Hb Hs Hops.
  destruct (history_ok _ _ Hops Hb) as (before & final & Hh & Hl & Hf & Hbs').
  eexists (DataBlock.mk final (DataBlock.m_alloc d) _), before. cbn [DataBlock.m_data].
  split_and!; [done|done| |done|by cbn [DataBlock.m_atomicLog]|].
  - unfold DataBlock.atomicPartial, WriteMask.performAtomic. rewrite whole_copy by done. cbn [rbind].
    by rewrite (atomic_steps_history _ _ _ _ _ before final).
  - unfold log_ok. cbn [DataBlock.m_atomicLog]. intros Hlog. apply Forall_app. split; [done|].
    by destruct noReturn.
Qed.

End parts.

(** ** A block of four bytes *)

Definition four : block_size := mkBlockSize 4 2.

Lemma four_ok : block_ok four.
Proof. split; cbn; lia. Qed.

Definition block_of (l : list Z) (log : list (list Z)) : DataBlock.t := DataBlock.mk l true log.

(** Adds one to the byte it points to. *)
Definition increment : WriteMask.AtomicOpFunctor :=
  λ l, match l with b :: l => Ok ((b + 1) mod 256 :: l) | [] => Err Undefined end.

Definition mask_of (l : list bool) : WriteMask.t := WriteMask.make_mask 4 l.

(** The offsets 0 and 2, and 1 and 2. *)
Lemma write_mask_sets_witness :
  (∃ m', WriteMask.orMask (mask_of [true; false; true; false]) (mask_of [false; true; true; false])
     = Ok m' ∧ MaskSets.offsets m' = {[0; 1; 2]}) ∧
  WriteMask.isOverlap (mask_of [true; false; true; false]) (mask_of [false; true; true; false])
    = Ok true.
Proof.
  destruct (MaskSets.write_mask_sets (mask_of [true; false; true; false])
    (mask_of [false; true; true; false]) eq_refl eq_refl eq_refl)
    as ((m' & E & _ & Ho) & _ & _ & Hov & _).
  split.
  - exists m'. split; [exact E|]. rewrite Ho. vm_compute. reflexivity.
  - rewrite Hov. vm_compute. reflexivity.
Defined.

Lemma partial_copies_witness :
  ∃ d2, DataBlock.copyPartial four (block_of [1; 2; 3; 4] []) (block_of [9; 8; 7; 6] [])
          (mask_of [true; true; true; false]) = Ok d2 ∧ DataBlock.m_data d2 = [9; 8; 7; 4].
Proof.
  destruct (BlockFacts.partial_copies four four_ok (block_of [1; 2; 3; 4] [])
    (block_of [9; 8; 7; 6] []) (mask_of [true; false; true; false])
    (mask_of [false; true; true; false]) eq_refl eq_refl eq_refl eq_refl eq_refl eq_refl)
    as (d1 & u & c & d2 & d3 & E1 & _ & _ & Eu & E2 & E2' & _).
  vm_compute in Eu. injection Eu as <-. vm_compute in E2'. injection E2' as <-.
  eexists. split; [vm_compute; reflexivity|reflexivity].
Defined.

Lemma copies_and_assignments_witness :
  (∃ d', DataBlock.assign_from four (block_of [0; 0; 0; 0] [[5; 5; 5; 5]])
     (block_of [1; 2; 3; 4] []) = Ok d' ∧
     DataBlock.equal four d' (block_of [1; 2; 3; 4] []) = Ok false) ∧
  DataBlock.self_log four 1000 0 [[5; 5; 5; 5]] = None.
Proof.
  destruct (BlockFacts.copies_and_assignments four four_ok (block_of [0; 0; 0; 0] [[5; 5; 5; 5]])
    (block_of [1; 2; 3; 4] []) eq_refl eq_refl ltac:(by repeat constructor) ltac:(by constructor))
    as (_ & (d' & E & _ & _ & He) & Hs).
  split.
  - exists d'. split; [exact E|]. rewrite He. reflexivity.
  - apply Hs. discriminate.
Defined.

(** Two bytes at offset 1 of the line 0x40, and at offset 3. *)
Lemma sub_block_roundtrip_witness :
  (∃ d', SubBlock.mergeTo four (SubBlock.mk 0x41 [7; 8]) (block_of [1; 2; 3; 4] []) = Ok d' ∧
     SubBlock.mergeFrom four (SubBlock.make 0x41 2) d' = Ok (SubBlock.mk 0x41 [7; 8])) ∧
  SubBlock.mergeTo four (SubBlock.mk 0x43 [7; 8]) (block_of [1; 2; 3; 4] []) = Err Undefined.
Proof.
  split.
  - destruct (sub_block_roundtrip four four_ok (SubBlock.mk 0x41 [7; 8]) (SubBlock.make 0x41 2)
      (block_of [1; 2; 3; 4] []) eq_refl ltac:(split; cbn; lia) eq_refl eq_refl eq_refl)
      as (o & Ho & _ & _ & H). vm_compute in Ho. injection Ho as <-.
    rewrite decide_True in H by (vm_compute; discriminate). destruct H as (d' & Et & _ & Ef & _). by exists d'.
  - destruct (sub_block_roundtrip four four_ok (SubBlock.mk 0x43 [7; 8]) (SubBlock.make 0x43 2)
      (block_of [1; 2; 3; 4] []) eq_refl ltac:(split; cbn; lia) eq_refl eq_refl eq_refl)
      as (o & Ho & _ & _ & H). vm_compute in Ho. injection Ho as <-.
    rewrite decide_False in H by (intros Hn; vm_compute in Hn; by apply Hn). exact H.
Defined.

Lemma increment_ok o : 0 ≤ o < 4 → op_ok four (o, increment).
Proof.
  intros Ho. split; cbn; [lia|]. intros [|b l] Hl; [unfold zlen in Hl; cbn in Hl; lia|].
  eexists. split; [done|]. by rewrite !zlen_cons.
Qed.

(** Two increments of byte 1 and one of byte 3. *)
Lemma atomic_history_witness :
  ∃ d', DataBlock.atomicPartial four (block_of [0; 0; 0; 0] []) (block_of [1; 2; 3; 4] [])
      (WriteMask.make_atomic 4 [true; true; true; true]
         [(1, increment); (3, increment); (1, increment)]) false = Ok d' ∧
    DataBlock.m_data d' = [1; 4; 3; 5] ∧
    DataBlock.m_atomicLog d' = [[1; 2; 3; 4]; [1; 3; 3; 4]; [1; 3; 3; 5]].
Proof.
  destruct (atomic_history four four_ok (block_of [0; 0; 0; 0] []) (block_of [1; 2; 3; 4] [])
    (WriteMask.make_atomic 4 [true; true; true; true]
       [(1, increment); (3, increment); (1, increment)]) false eq_refl eq_refl eq_refl
    ltac:(repeat constructor; try (cbn; lia); intros l Hl; apply (increment_ok _); cbn; done || lia))
    as (d' & before & Hh & _ & E & _ & Hl & _).
  vm_compute in Hh. injection Hh as <- Hd. exists d'. split; [exact E|]. split; [by symmetry|exact Hl].
Defined.
