(* ===== verification/ReplacementPolicies.v ===== *)
(** * Replacement policies

    [mem/cache/replacement_policies]: the policies by which a cache chooses the entry to
    evict.  The replacement data of an entry is an object of its policy; here the policy
    keeps its objects, numbered in the order of their creation, and an entry has the number.
    [ReplacementPolicy] is the interface of [replacement_policy::Base], [PolicyLaws] is what
    a cache relies on; LRU, weighted LRU, MRU, LFU, FIFO, second chance
    and tree-PLRU implement both. *)

From S2P Require Import Prelude.
From S2P Require Import IntMath.

(** ** The interface *)

(** [replacement_policy::Base].  [now] is [curTick()]; [getVictim] is given the data of the
    candidates and returns the position of the victim among them.  [touch_occupancy] is the
    [touch] with an occupancy that only [WeightedLRU] has. *)
Class ReplacementPolicy (S : Type) := {
  instantiateEntry : S → result (Z * S);
  invalidate : Z → Z → S → result S;
  touch : Z → Z → S → result S;
  reset : Z → Z → S → result S;
  getVictim : list Z → S → result (Z * S);
  touch_occupancy : option (Z → Z → Z → S → result S);
}.

(** The objects of a policy are numbered from 0; every operation succeeds on them, and a
    victim is one of the candidates when they form a group.  Entries created one after the
    other are a group when their number [n] suits the policy and the numbers before them are
    a multiple of [n]. *)
Class PolicyLaws (S : Type) `{ReplacementPolicy S} := {
  rp_ok : S → Prop;
  rp_count : S → Z;
  rp_group : S → list Z → Prop;
  rp_fits : S → Z → Prop;
  rp_nonneg s : rp_ok s → 0 ≤ rp_count s;
  instantiate_law s : rp_ok s →
    ∃ s', instantiateEntry s = Ok (rp_count s, s') ∧ rp_ok s' ∧ rp_count s' = rp_count s + 1 ∧
      (∀ g, rp_group s g → rp_group s' g) ∧ ∀ n, rp_fits s n → rp_fits s' n;
  group_law s n k : rp_ok s → 0 < n → rp_fits s n → 0 ≤ k → rp_count s = k * n + n →
    rp_group s (seqZ (k * n) n);
  invalidate_law s now i : rp_ok s → 0 ≤ i < rp_count s →
    ∃ s', invalidate now i s = Ok s' ∧ rp_ok s' ∧ rp_count s' = rp_count s ∧
      ∀ g, rp_group s g → rp_group s' g;
  touch_law s now i : rp_ok s → 0 ≤ i < rp_count s →
    ∃ s', touch now i s = Ok s' ∧ rp_ok s' ∧ rp_count s' = rp_count s ∧
      ∀ g, rp_group s g → rp_group s' g;
  occupancy_law f s now i o : touch_occupancy = Some f → rp_ok s → 0 ≤ i < rp_count s →
    ∃ s', f now i o s = Ok s' ∧ rp_ok s' ∧ rp_count s' = rp_count s ∧
      ∀ g, rp_group s g → rp_group s' g;
  reset_law s now i : rp_ok s → 0 ≤ i < rp_count s →
    ∃ s', reset now i s = Ok s' ∧ rp_ok s' ∧ rp_count s' = rp_count s ∧
      ∀ g, rp_group s g → rp_group s' g;
  victim_law s g : rp_ok s → rp_group s g →
    ∃ k s', getVictim g s = Ok (k, s') ∧ 0 ≤ k < zlen g ∧ rp_ok s' ∧
      rp_count s' = rp_count s ∧ ∀ g, rp_group s g → rp_group s' g;
}.

(** ** The search for the best candidate

    [for (candidate : candidates) if (better(candidate, victim)) victim = candidate], where
    [better] reads the data of the two; [k] is the position of the first of [cands], [v] that
    of the victim so far and [vid] its data. *)
Fixpoint search (better : Z → Z → result bool) (v vid k : Z) (cands : list Z) : result Z :=
  match cands with
  | [] => Ok v
  | c :: cands =>
      b ← better c vid;
      if b then search better k c (k + 1) cands else search better v vid (k + 1) cands
  end.

(** [assert(candidates.size() > 0); victim = candidates[0]], and the loop. *)
Definition find_victim (better : Z → Z → result bool) (cands : list Z) : result Z :=
  _ ← assert (0 <? zlen cands);
  c ← vget cands 0;
  search better 0 c 0 cands.

(** ** Least recently used *)

Module LRU.

(** [lastTouchTick] of the objects. *)
Record t := mk { lastTouchTick : list Z }.

Definition set_tick (i v : Z) (s : t) : result t :=
  l ← vset (lastTouchTick s) i v; Ok (mk l).

Definition older (s : t) (candidate victim : Z) : result bool :=
  a ← vget (lastTouchTick s) candidate;
  b ← vget (lastTouchTick s) victim;
  Ok (a <? b).

#[global] Instance LRU_policy : ReplacementPolicy t := {|
  instantiateEntry s := Ok (zlen (lastTouchTick s), mk (lastTouchTick s ++ [0]));
  invalidate _ i s := set_tick i 0 s;
  touch now i s := set_tick i now s;
  reset now i s := set_tick i now s;
  getVictim cands s := v ← find_victim (older s) cands; Ok (v, s);
  touch_occupancy := None;
|}.

End LRU.

(** ** Weighted LRU *)

Module WeightedLRU.

Record ReplData := mkData { lastTouchTick : Z; last_occ_ptr : Z }.
Record t := mk { data : list ReplData }.

Definition set_tick (i v : Z) (s : t) : result t :=
  l ← vupd (data s) i (λ d, Ok (mkData v (last_occ_ptr d))); Ok (mk l).

Definition touch_with (now i occupancy : Z) (s : t) : result t :=
  s ← set_tick i now s;
  l ← vupd (data s) i (λ d, Ok (mkData (lastTouchTick d) occupancy)); Ok (mk l).

Definition lighter (s : t) (candidate victim : Z) : result bool :=
  a ← vget (data s) candidate;
  b ← vget (data s) victim;
  Ok ((last_occ_ptr a <? last_occ_ptr b) ||
      ((last_occ_ptr a =? last_occ_ptr b) && (lastTouchTick a <? lastTouchTick b))).

#[global] Instance WeightedLRU_policy : ReplacementPolicy t := {|
  instantiateEntry s := Ok (zlen (data s), mk (data s ++ [mkData 0 0]));
  invalidate _ i s := set_tick i 0 s;
  touch now i s := set_tick i now s;
  reset now i s := set_tick i now s;
  getVictim cands s := v ← find_victim (lighter s) cands; Ok (v, s);
  touch_occupancy := Some touch_with;
|}.

End WeightedLRU.

(** ** Most recently used *)

Module MRU.

Record t := mk { lastTouchTick : list Z }.

Definition set_tick (i v : Z) (s : t) : result t :=
  l ← vset (lastTouchTick s) i v; Ok (mk l).

(** The loop stops at an entry that was never touched. *)
Fixpoint scan (s : t) (v vid k : Z) (cands : list Z) : result Z :=
  match cands with
  | [] => Ok v
  | c :: cands =>
      a ← vget (lastTouchTick s) c;
      if a =? 0 then Ok k
      else
        b ← vget (lastTouchTick s) vid;
        if b <? a then scan s k c (k + 1) cands else scan s v vid (k + 1) cands
  end.

#[global] Instance MRU_policy : ReplacementPolicy t := {|
  instantiateEntry s := Ok (zlen (lastTouchTick s), mk (lastTouchTick s ++ [0]));
  invalidate _ i s := set_tick i 0 s;
  touch now i s := set_tick i now s;
  reset now i s := set_tick i now s;
  getVictim cands s :=
    _ ← assert (0 <? zlen cands);
    c ← vget cands 0;
    v ← scan s 0 c 0 cands; Ok (v, s);
  touch_occupancy := None;
|}.

End MRU.

(** ** Least frequently used *)

Module LFU.

(** [refCount], an [unsigned]. *)
Record t := mk { refCount : list Z }.

Definition set_count (i v : Z) (s : t) : result t :=
  l ← vset (refCount s) i v; Ok (mk l).

Definition rarer (s : t) (candidate victim : Z) : result bool :=
  a ← vget (refCount s) candidate;
  b ← vget (refCount s) victim;
  Ok (a <? b).

#[global] Instance LFU_policy : ReplacementPolicy t := {|
  instantiateEntry s := Ok (zlen (refCount s), mk (refCount s ++ [0]));
  invalidate _ i s := set_count i 0 s;
  touch _ i s := c ← vget (refCount s) i; set_count i (wrap32 (c + 1)) s;
  reset _ i s := set_count i 1 s;
  getVictim cands s := v ← find_victim (rarer s) cands; Ok (v, s);
  touch_occupancy := None;
|}.

End LFU.

(** ** First in first out

    [SecondChance] derives from [FIFO]; its data has one field more. *)

Module FIFO.

Record ReplData := mkData { tickInserted : Z; hasSecondChance : bool }.

(** The constructor does not initialise [timeTicks]. *)
Record t := mk { timeTicks : Z; data : list ReplData }.

Definition make (timeTicks : Z) : t := mk timeTicks [].

Definition instantiate (s : t) : result (Z * t) :=
  Ok (zlen (data s), mk (timeTicks s) (data s ++ [mkData 0 false])).

(** [tickInserted = ++timeTicks], the body of [invalidate] and of [reset]. *)
Definition insert_now (i : Z) (s : t) : result t :=
  let now := wrap64 (timeTicks s + 1) in
  l ← vupd (data s) i (λ d, Ok (mkData now (hasSecondChance d)));
  Ok (mk now l).

Definition earlier (s : t) (candidate victim : Z) : result bool :=
  a ← vget (data s) candidate;
  b ← vget (data s) victim;
  Ok (tickInserted a <? tickInserted b).

Definition victim (cands : list Z) (s : t) : result Z := find_victim (earlier s) cands.

#[global] Instance FIFO_policy : ReplacementPolicy t := {|
  instantiateEntry := instantiate;
  invalidate _ i s := insert_now i s;
  touch _ i s := Ok s;
  reset _ i s := insert_now i s;
  getVictim cands s := v ← victim cands s; Ok (v, s);
  touch_occupancy := None;
|}.

End FIFO.

(** ** Second chance *)

Module SecondChance.
Import FIFO.

(** The state is that of [FIFO]; the type keeps the instances apart. *)
Record t := mk { fifo : FIFO.t }.

Definition give (b : bool) (i : Z) (s : FIFO.t) : result FIFO.t :=
  l ← vupd (data s) i (λ d, Ok (mkData (tickInserted d) b));
  Ok (FIFO.mk (timeTicks s) l).

Definition useSecondChance (i : Z) (s : FIFO.t) : result FIFO.t :=
  s ← insert_now i s; give false i s.

(** The first candidate that was never inserted and has no second chance. *)
Fixpoint find_invalid (s : FIFO.t) (k : Z) (cands : list Z) : result (option Z) :=
  match cands with
  | [] => Ok None
  | c :: cands =>
      d ← vget (data s) c;
      if (tickInserted d =? 0) && negb (hasSecondChance d) then Ok (Some k)
      else find_invalid s (k + 1) cands
  end.

(** [while (search_victim)], [fuel] iterations at most; [None] when it is not over. *)
Fixpoint search_victim (fuel : nat) (cands : list Z) (s : FIFO.t)
    : option (result (Z * FIFO.t)) :=
  match fuel with
  | O => None
  | S fuel =>
      match FIFO.victim cands s with
      | Err e => Some (Err e)
      | Ok v =>
          match c ← vget cands v; d ← vget (data s) c; Ok (c, d) with
          | Err e => Some (Err e)
          | Ok (c, d) =>
              if hasSecondChance d then
                match useSecondChance c s with
                | Err e => Some (Err e)
                | Ok s => search_victim fuel cands s
                end
              else Some (Ok (v, s))
          end
      end
  end.

(** The loop ends within one iteration more than there are candidates. *)
Definition victim (cands : list Z) (s : FIFO.t) : result (Z * FIFO.t) :=
  _ ← assert (0 <? zlen cands);
  o ← find_invalid s 0 cands;
  match o with
  | Some k => Ok (k, s)
  | None => settled (search_victim (S (length cands)) cands s)
  end.

#[global] Instance SecondChance_policy : ReplacementPolicy t := {|
  instantiateEntry s := '(i, f) ← instantiate (fifo s); Ok (i, mk f);
  invalidate _ i s := f ← insert_now i (fifo s); f ← give false i f; Ok (mk f);
  touch _ i s := f ← give true i (fifo s); Ok (mk f);
  reset _ i s := f ← insert_now i (fifo s); f ← give false i f; Ok (mk f);
  getVictim cands s := '(v, f) ← victim cands (fifo s); Ok (v, mk f);
  touch_occupancy := None;
|}.

End SecondChance.

(** ** Tree-PLRU *)

Module TreePLRU.

(** The index of an entry in its tree, and the tree. *)
Record ReplData := mkData { index : Z; tree : Z }.

(** The trees are shared; [treeInstance] is the last of them. *)
Record t := mk {
  numLeaves : Z;
  count : Z;
  trees : list (list bool);
  data : list ReplData;
}.

Definition make (num_leaves : Z) : result t :=
  _ ← fatal_if (negb (isPowerOf2 num_leaves));
  Ok (mk num_leaves 0 [] []).

(** On [uint64_t]; the detour of [std::floor] over [double] changes no index of a tree. *)
Definition parentIndex (index : Z) : Z := wrap64 (index - 1) / 2.
Definition leftSubtreeIndex (index : Z) : Z := wrap64 (2 * index + 1).
Definition rightSubtreeIndex (index : Z) : Z := wrap64 (2 * index + 2).
Definition isRightSubtree (index : Z) : bool := index mod 2 =? 0.

(** [tree->at(i)] throws out of range. *)
Definition at_get (tr : list bool) (i : Z) : result bool :=
  match zlookup tr i with Some b => Ok b | None => Err Exception end.

Definition at_set (tr : list bool) (i : Z) (b : bool) : result (list bool) :=
  match zlookup tr i with Some _ => Ok (<[Z.to_nat i := b]> tr) | None => Err Exception end.

(** The loop of [invalidate] and [touch] from an index to the root: every parent is made to
    point to where the loop came from, or away from there. *)
Fixpoint climb (fuel : nat) (toward : bool) (i : Z) (tr : list bool) : result (list bool) :=
  match fuel with
  | O => Err OutOfFuel
  | S fuel =>
      let right := isRightSubtree i in
      let i := parentIndex i in
      tr ← at_set tr i (if toward then right else negb right);
      if i =? 0 then Ok tr else climb fuel toward i tr
  end.

(** Indices halve on the way up, so the bits of an index bound the iterations. *)
Definition update (toward : bool) (i : Z) (s : t) : result t :=
  d ← vget (data s) i;
  trs ← vupd (trees s) (tree d) (climb 64 toward (index d));
  Ok (mk (numLeaves s) (count s) trs (data s)).

(** [while (tree_index < tree->size())] *)
Fixpoint descend (fuel : nat) (tr : list bool) (i : Z) : result Z :=
  match fuel with
  | O => Err OutOfFuel
  | S fuel =>
      if i <? zlen tr then
        b ← at_get tr i;
        descend fuel tr (if b then rightSubtreeIndex i else leftSubtreeIndex i)
      else Ok i
  end.

Definition victim (cands : list Z) (s : t) : result Z :=
  _ ← assert (0 <? zlen cands);
  c ← vget cands 0;
  d ← vget (data s) c;
  tr ← vget (trees s) (tree d);
  i ← descend 64 tr 0;
  let p := wrap64 (i - (numLeaves s - 1)) in
  _ ← vget cands p;
  Ok p.

Definition instantiate (s : t) : result (Z * t) :=
  let n := numLeaves s in
  let trs := if count s mod n =? 0 then trees s ++ [replicate (Z.to_nat (n - 1)) false]
             else trees s in
  Ok (zlen (data s),
      mk n (wrap64 (count s + 1)) trs (data s ++ [mkData (count s mod n + n - 1) (zlen trs - 1)])).

#[global] Instance TreePLRU_policy : ReplacementPolicy t := {|
  instantiateEntry := instantiate;
  invalidate _ i s := update true i s;
  touch _ i s := update false i s;
  reset _ i s := update false i s;
  getVictim cands s := v ← victim cands s; Ok (v, s);
  touch_occupancy := None;
|}.

End TreePLRU.
