(* ===== verification/ReplacementFacts.v ===== *)
(** * Replacement policies: facts

    The policies meet the laws a cache relies on; which candidate LRU, LFU and FIFO choose;
    that the search of second chance ends; and what the bits of tree-PLRU do. *)

From S2P Require Import Prelude.
From S2P Require Import IntMath.
From S2P Require Import ReplacementPolicies.

(** ** The search for the best candidate *)

Section search.
Context (better : Z → Z → result bool) (key : Z → Z) (valid : Z → Prop).
Hypothesis better_key : ∀ a b, valid a → valid b → better a b = Ok (key a <? key b).

Lemma search_spec v vid k cands :
  valid vid → Forall valid cands →
  ∃ r, search better v vid k cands = Ok r ∧
    (r = v ∧ Forall (λ c, key vid ≤ key c) cands ∨
     ∃ j c, r = k + j ∧ zlookup cands j = Some c ∧ key c < key vid ∧
       Forall (λ c', key c ≤ key c') cands ∧
       ∀ i c', 0 ≤ i < j → zlookup cands i = Some c' → key c < key c').
Proof.
  intros Hv Hc. revert v vid k Hv. induction Hc as [|c cands Hc _ IH]; intros v vid k Hv;
    cbn [search].
  - exists v. split; [done|]. by left.
  - assert (∀ j, 0 ≤ j → zlookup (c :: cands) (j + 1) = zlookup cands j) as Hz.
    { intros j Hj. unfold zlookup. rewrite !(proj2 (Z.leb_le _ _)) by lia.
      by replace (Z.to_nat (j + 1)) with (S (Z.to_nat j)) by lia. }
    rewrite better_key by done. cbn [rbind].
    destruct (Z.ltb_spec (key c) (key vid)) as [Hlt|Hge].
    + destruct (IH k c (k + 1) Hc) as (r & -> & [[-> Hall]|(j & d & -> & Hd & Hk & Hall & Hf)]).
      * exists k. split; [done|]. right. exists 0, c. split_and!; [lia|done|done|by constructor|].
        intros; lia.
      * exists (k + 1 + j). split; [done|]. right. apply zlookup_lt in Hd as Hj.
        exists (j + 1), d. split_and!; [lia|by rewrite Hz by lia|lia|constructor; [lia|done]|].
        intros i c' Hi Hc'. destruct (decide (i = 0)) as [->|Hne]; [by injection Hc' as <-|].
        apply (Hf (i - 1) c'); [lia|]. rewrite <- Hz by lia. by replace (i - 1 + 1) with i by lia.
    + destruct (IH v vid (k + 1) Hv) as (r & -> & [[-> Hall]|(j & d & -> & Hd & Hk & Hall & Hf)]).
      * exists v. split; [done|]. left. split; [done|by constructor].
      * exists (k + 1 + j). split; [done|]. right. apply zlookup_lt in Hd as Hj.
        exists (j + 1), d. split_and!; [lia|by rewrite Hz by lia|lia|constructor; [lia|done]|].
        intros i c' Hi Hc'. destruct (decide (i = 0)) as [->|Hne]; [injection Hc' as <-; lia|].
        apply (Hf (i - 1) c'); [lia|]. rewrite <- Hz by lia. by replace (i - 1 + 1) with i by lia.
Qed.

(** The victim is the first candidate with the least key. *)
Lemma find_victim_spec cands :
  cands ≠ [] → Forall valid cands →
  ∃ r c, find_victim better cands = Ok r ∧ zlookup cands r = Some c ∧
    Forall (λ c', key c ≤ key c') cands ∧
    ∀ i c', 0 ≤ i < r → zlookup cands i = Some c' → key c < key c'.
Proof.
  intros Hne Hc. unfold find_victim. destruct cands as [|c0 cands]; [done|].
  rewrite zlen_cons. pose proof (zlen_nonneg cands).
  rewrite (proj2 (Z.ltb_lt _ _)) by lia. cbn [assert rbind vget zlookup Z.leb Z.compare].
  change (vget (c0 :: cands) 0) with (Ok c0). cbn [rbind].
  apply Forall_cons in Hc as Hc'. destruct Hc' as [Hc0 _].
  destruct (search_spec 0 c0 0 (c0 :: cands) Hc0 Hc) as (r & -> & [[-> Hall]|(j & d & -> & Hd & _ & Hall & Hf)]).
  - exists 0, c0. split_and!; [done|done|done|]. intros; lia.
  - exists (0 + j), d. rewrite Z.add_0_l. split_and!; done.
Qed.

End search.

Definition valid_id {A} (l : list A) (i : Z) : Prop := 0 ≤ i < zlen l.

(** ** LRU, MRU and LFU *)

Definition plain_group {A} (l : list A) (g : list Z) : Prop := g ≠ [] ∧ Forall (valid_id l) g.

Lemma vset_valid {A} (l : list A) i a :
  valid_id l i → ∃ l', vset l i a = Ok l' ∧ zlen l' = zlen l.
Proof. intros Hi. rewrite vset_intro by done. eexists. split; [done|]. apply zlen_insert. Qed.

Lemma plain_group_len {A B} (l : list A) (l' : list B) g :
  zlen l' = zlen l → plain_group l g → plain_group l' g.
Proof. intros E [Hne Hg]. split; [done|]. unfold valid_id. by rewrite E. Qed.

Lemma zlen_snoc {A} (l : list A) a : zlen (l ++ [a]) = zlen l + 1.
Proof. rewrite zlen_app. unfold zlen at 2. cbn. lia. Qed.

Lemma plain_group_snoc {A} (l : list A) a g : plain_group l g → plain_group (l ++ [a]) g.
Proof.
  intros [Hne Hg]. split; [done|]. eapply Forall_impl; [exact Hg|]. intros i Hi.
  unfold valid_id in *. rewrite zlen_snoc. lia.
Qed.

(** Entries created one after the other. *)
Lemma plain_group_seqZ {A} (l : list A) a n :
  0 < n → 0 ≤ a → zlen l = a + n → plain_group l (seqZ a n).
Proof.
  intros Hn Ha Hl. split.
  - rewrite seqZ_cons by lia. done.
  - apply Forall_forall. intros i Hi%elem_of_seqZ. unfold valid_id. lia.
Qed.

(** The instances' proofs that a new entry is added and that entries are a group. *)
Ltac snoc_entry :=
  intros s _; eexists; split_and!;
  [done|done|apply zlen_snoc|intros g; apply plain_group_snoc|done].
Ltac fresh_group := intros s n k _ Hn _ Hk Hc; apply plain_group_seqZ; [done|nia|done].

(** A search finds one of the candidates whatever it compares. *)
Lemma search_range (better : Z → Z → result bool) (valid : Z → Prop) v vid k cands :
  (∀ a b, valid a → valid b → ∃ r, better a b = Ok r) → valid vid → Forall valid cands →
  ∃ r, search better v vid k cands = Ok r ∧ (r = v ∨ k ≤ r < k + zlen cands).
Proof.
  intros Hb Hv Hc. revert v vid k Hv. induction Hc as [|c cands Hc _ IH]; intros v vid k Hv;
    cbn [search].
  - exists v. split; [done|by left].
  - rewrite zlen_cons. pose proof (zlen_nonneg cands).
    destruct (Hb c vid Hc Hv) as [[] ->]; cbn [rbind].
    + destruct (IH k c (k + 1) Hc) as (r & -> & Hr). exists r. split; [done|]. right. lia.
    + destruct (IH v vid (k + 1) Hv) as (r & -> & [->|Hr]); [exists v; auto|].
      exists r. split; [done|]. right. lia.
Qed.

Module PlainPolicies.

Lemma lru_older s a b :
  valid_id (LRU.lastTouchTick s) a → valid_id (LRU.lastTouchTick s) b →
  LRU.older s a b = Ok (look 0 id (LRU.lastTouchTick s) a <? look 0 id (LRU.lastTouchTick s) b).
Proof.
  intros Ha Hb. unfold LRU.older, vget, look.
  destruct (zlookup_is_Some _ _ Ha) as [x ->], (zlookup_is_Some _ _ Hb) as [y ->]. done.
Qed.

Lemma lfu_rarer s a b :
  valid_id (LFU.refCount s) a → valid_id (LFU.refCount s) b →
  LFU.rarer s a b = Ok (look 0 id (LFU.refCount s) a <? look 0 id (LFU.refCount s) b).
Proof.
  intros Ha Hb. unfold LFU.rarer, vget, look.
  destruct (zlookup_is_Some _ _ Ha) as [x ->], (zlookup_is_Some _ _ Hb) as [y ->]. done.
Qed.

(** An operation that sets one number; the group stays one. *)
Ltac sets_one :=
  intros s now i _ Hi; cbn; unfold LRU.set_tick, MRU.set_tick, LFU.set_count;
  match goal with |- context [vset ?l ?i ?a] =>
    let Hl := fresh in destruct (vset_valid l i a Hi) as (? & -> & Hl);
    eexists; split_and!; [done..|]; intros g; by apply plain_group_len
  end.

Ltac victim_found Hr :=
  apply zlookup_lt in Hr; cbn; eexists _, _; split_and!; [done|lia|lia|done|done|done].

#[global] Program Instance lru_laws : PolicyLaws LRU.t := {|
  rp_ok _ := True;
  rp_count s := zlen (LRU.lastTouchTick s);
  rp_group s := plain_group (LRU.lastTouchTick s);
  rp_fits _ _ := True;
|}.
Next Obligation. intros s _. apply zlen_nonneg. Qed.
Next Obligation. snoc_entry. Qed.
Next Obligation. fresh_group. Qed.
Next Obligation. sets_one. Qed.
Next Obligation. sets_one. Qed.
Next Obligation. done. Qed.
Next Obligation. sets_one. Qed.
Next Obligation.
  intros s g _ [Hne Hg]. cbn.
  destruct (find_victim_spec _ _ _ (lru_older s) g Hne Hg) as (r & c & -> & Hr & _).
  victim_found Hr.
Qed.

(** Two data of weighted LRU can be compared. *)
Lemma weighted_lighter s a b :
  valid_id (WeightedLRU.data s) a → valid_id (WeightedLRU.data s) b →
  ∃ r, WeightedLRU.lighter s a b = Ok r.
Proof.
  intros Ha Hb. unfold WeightedLRU.lighter.
  destruct (vget_total _ _ Ha) as [? ->], (vget_total _ _ Hb) as [? ->]. by eexists.
Qed.

Lemma vupd_pure {A} (l : list A) i (f : A → A) :
  valid_id l i → ∃ l', vupd l i (λ a, Ok (f a)) = Ok l' ∧ zlen l' = zlen l.
Proof.
  intros Hi. destruct (zlookup_is_Some _ _ Hi) as [a Ha].
  rewrite (vupd_intro _ _ (λ a, Ok (f a)) _ _ Ha eq_refl). eexists. split; [done|]. apply zlen_insert.
Qed.

Lemma weighted_set_tick s i v :
  valid_id (WeightedLRU.data s) i →
  ∃ s', WeightedLRU.set_tick i v s = Ok s' ∧ zlen (WeightedLRU.data s') = zlen (WeightedLRU.data s).
Proof.
  intros Hi. unfold WeightedLRU.set_tick.
  destruct (vupd_pure _ _ (λ d, WeightedLRU.mkData v (WeightedLRU.last_occ_ptr d)) Hi)
    as (l' & -> & Hl). eexists. by split.
Qed.

Ltac sets_weighted :=
  intros s now i _ Hi; cbn;
  match goal with |- context [WeightedLRU.set_tick ?i ?v ?s] =>
    let Hl := fresh in destruct (weighted_set_tick s i v Hi) as (s' & -> & Hl);
    exists s'; split_and!; [done..|]; intros g; by apply plain_group_len
  end.

#[global] Program Instance weighted_lru_laws : PolicyLaws WeightedLRU.t := {|
  rp_ok _ := True;
  rp_count s := zlen (WeightedLRU.data s);
  rp_group s := plain_group (WeightedLRU.data s);
  rp_fits _ _ := True;
|}.
Next Obligation. intros s _. apply zlen_nonneg. Qed.
Next Obligation. snoc_entry. Qed.
Next Obligation. fresh_group. Qed.
Next Obligation. sets_weighted. Qed.
Next Obligation. sets_weighted. Qed.
Next Obligation.
  intros f s now i o [= <-] _ Hi. unfold WeightedLRU.touch_with.
  destruct (weighted_set_tick s i now Hi) as (s' & -> & Hl). cbn [rbind].
  destruct (vupd_pure (WeightedLRU.data s') i (λ d, WeightedLRU.mkData (WeightedLRU.lastTouchTick d) o))
    as (l' & -> & Hl'); [by unfold valid_id; rewrite Hl|].
  eexists. cbn. rewrite Hl in Hl'. split_and!; [done..|]. intros g. by apply plain_group_len.
Qed.
Next Obligation. sets_weighted. Qed.
Next Obligation.
  intros s g _ [Hne Hg]. cbn. unfold find_victim. destruct g as [|c g]; [done|]. rewrite zlen_cons.
  pose proof (zlen_nonneg g). rewrite (proj2 (Z.ltb_lt 0 _)) by lia. cbn [assert rbind].
  change (vget (c :: g) 0) with (Ok c). cbn [rbind]. apply Forall_cons in Hg as Hg'.
  destruct (search_range _ _ 0 c 0 (c :: g) (weighted_lighter s)) as (r & -> & Hr); [apply Hg'|done|].
  rewrite zlen_cons in Hr. cbn [rbind]. eexists r, s. split_and!; [done|lia|lia|done|done|done].
Qed.

#[global] Program Instance lfu_laws : PolicyLaws LFU.t := {|
  rp_ok _ := True;
  rp_count s := zlen (LFU.refCount s);
  rp_group s := plain_group (LFU.refCount s);
  rp_fits _ _ := True;
|}.
Next Obligation. intros s _. apply zlen_nonneg. Qed.
Next Obligation. snoc_entry. Qed.
Next Obligation. fresh_group. Qed.
Next Obligation. sets_one. Qed.
Next Obligation.
  intros s now i _ Hi. cbn -[wrap32]. destruct (vget_total _ _ Hi) as [c ->]. cbn [rbind].
  unfold LFU.set_count. destruct (vset_valid _ _ (wrap32 (c + 1)) Hi) as (l' & -> & Hl).
  eexists. split_and!; [done..|]. intros g. by apply plain_group_len.
Qed.
Next Obligation. done. Qed.
Next Obligation. sets_one. Qed.
Next Obligation.
  intros s g _ [Hne Hg]. cbn.
  destruct (find_victim_spec _ _ _ (lfu_rarer s) g Hne Hg) as (r & c & -> & Hr & _).
  victim_found Hr.
Qed.

Lemma mru_scan s v vid k cands :
  valid_id (MRU.lastTouchTick s) vid → Forall (valid_id (MRU.lastTouchTick s)) cands →
  ∃ r, MRU.scan s v vid k cands = Ok r ∧ (r = v ∨ k ≤ r < k + zlen cands).
Proof.
  intros Hv Hc. revert v vid k Hv. induction Hc as [|c cands Hc _ IH]; intros v vid k Hv;
    cbn [MRU.scan].
  - exists v. split; [done|by left].
  - rewrite zlen_cons. pose proof (zlen_nonneg cands).
    destruct (vget_total _ _ Hc) as [a ->]. cbn [rbind].
    destruct (a =? 0); [exists k; split; [done|right; lia]|].
    destruct (vget_total _ _ Hv) as [b ->]. cbn [rbind].
    destruct (b <? a).
    + destruct (IH k c (k + 1) Hc) as (r & -> & Hr). exists r. split; [done|]. right. lia.
    + destruct (IH v vid (k + 1) Hv) as (r & -> & [->|Hr]); [exists v; auto|].
      exists r. split; [done|]. right. lia.
Qed.

#[global] Program Instance mru_laws : PolicyLaws MRU.t := {|
  rp_ok _ := True;
  rp_count s := zlen (MRU.lastTouchTick s);
  rp_group s := plain_group (MRU.lastTouchTick s);
  rp_fits _ _ := True;
|}.
Next Obligation. intros s _. apply zlen_nonneg. Qed.
Next Obligation. snoc_entry. Qed.
Next Obligation. fresh_group. Qed.
Next Obligation. sets_one. Qed.
Next Obligation. sets_one. Qed.
Next Obligation. done. Qed.
Next Obligation. sets_one. Qed.
Next Obligation.
  intros s g _ [Hne Hg]. cbn. destruct g as [|c g]; [done|]. rewrite zlen_cons.
  pose proof (zlen_nonneg g). rewrite (proj2 (Z.ltb_lt 0 _)) by lia. cbn [assert rbind].
  change (vget (c :: g) 0) with (Ok c). cbn [rbind]. apply Forall_cons in Hg as Hg'.
  destruct (mru_scan s 0 c 0 (c :: g)) as (r & -> & Hr); [apply Hg'|done|].
  rewrite zlen_cons in Hr. cbn [rbind]. eexists r, s. split_and!; [done|lia|lia|done|done|done].
Qed.

(** LRU evicts the entry that was touched last the longest ago. *)
Lemma lru_victim s g :
  plain_group (LRU.lastTouchTick s) g →
  ∃ r c, getVictim g s = Ok (r, s) ∧ zlookup g r = Some c ∧
    Forall (λ c', look 0 id (LRU.lastTouchTick s) c ≤ look 0 id (LRU.lastTouchTick s) c') g.
Proof.
  intros [Hne Hg]. destruct (find_victim_spec _ _ _ (lru_older s) g Hne Hg) as (r & c & E & Hr & Hall & _).
  exists r, c. cbn. rewrite E. done.
Qed.

End PlainPolicies.

(** ** FIFO and second chance *)

Module QueuePolicies.
Import FIFO SecondChance.

Definition chance (s : FIFO.t) (i : Z) : bool := look false hasSecondChance (data s) i.

Definition inserted (s : FIFO.t) (i : Z) : Z := look 0 tickInserted (data s) i.

(** [s'] is [s] with other data for [i]. *)
Definition entry_changed (i : Z) (f : ReplData → ReplData) (s s' : FIFO.t) : Prop :=
  zlen (data s') = zlen (data s) ∧
  ∀ j, zlookup (data s') j = if decide (j = i) then f <$> zlookup (data s) i else zlookup (data s) j.

Lemma vupd_entry l i f :
  valid_id l i →
  ∃ l', vupd l i (λ d : ReplData, Ok (f d)) = Ok l' ∧ zlen l' = zlen l ∧
    ∀ j, zlookup l' j = if decide (j = i) then f <$> zlookup l i else zlookup l j.
Proof.
  intros Hi. destruct (zlookup_is_Some _ _ Hi) as [d Hd].
  rewrite (vupd_intro l i _ d (f d)) by done. eexists. split; [done|]. rewrite zlen_insert.
  split; [done|]. intros j. rewrite zlookup_insert by done. rewrite Hd. by case_decide as E; case_decide; subst.
Qed.

Lemma insert_now_spec i s :
  valid_id (data s) i →
  ∃ s', insert_now i s = Ok s' ∧
    entry_changed i (λ d, mkData (wrap64 (timeTicks s + 1)) (hasSecondChance d)) s s'.
Proof.
  intros Hi. unfold insert_now.
  destruct (vupd_entry _ _ (λ d, mkData (wrap64 (timeTicks s + 1)) (hasSecondChance d)) Hi)
    as (l' & -> & Hl & Hj). by eexists.
Qed.

Lemma give_spec b i s :
  valid_id (data s) i →
  ∃ s', give b i s = Ok s' ∧ entry_changed i (λ d, mkData (tickInserted d) b) s s'.
Proof.
  intros Hi. unfold give.
  destruct (vupd_entry _ _ (λ d, mkData (tickInserted d) b) Hi) as (l' & -> & Hl & Hj). by eexists.
Qed.

Lemma insert_give_spec b i s :
  valid_id (data s) i →
  ∃ s1 s', insert_now i s = Ok s1 ∧ give b i s1 = Ok s' ∧
    entry_changed i (λ _, mkData (wrap64 (timeTicks s + 1)) b) s s'.
Proof.
  intros Hi. destruct (insert_now_spec i s Hi) as (s1 & E1 & Hl1 & Hj1).
  destruct (give_spec b i s1) as (s2 & E2 & Hl2 & Hj2); [unfold valid_id in *; lia|].
  exists s1, s2. split_and!; [done|done|]. split; [lia|]. intros j. rewrite Hj2, !Hj1.
  case_decide; [|done]. rewrite decide_True by done. by destruct (zlookup (data s) i).
Qed.

Lemma earlier_spec s a b :
  valid_id (data s) a → valid_id (data s) b →
  FIFO.earlier s a b = Ok (inserted s a <? inserted s b).
Proof.
  intros Ha Hb. unfold FIFO.earlier, inserted, vget, look.
  destruct (zlookup_is_Some _ _ Ha) as [x ->], (zlookup_is_Some _ _ Hb) as [y ->]. done.
Qed.

Lemma fifo_victim s g :
  plain_group (data s) g →
  ∃ r c, FIFO.victim g s = Ok r ∧ zlookup g r = Some c ∧
    Forall (λ c', inserted s c ≤ inserted s c') g.
Proof.
  intros [Hne Hg].
  destruct (find_victim_spec _ _ _ (earlier_spec s) g Hne Hg) as (r & c & E & Hr & Hall & _).
  by exists r, c.
Qed.

#[global] Program Instance fifo_laws : PolicyLaws FIFO.t := {|
  rp_ok _ := True;
  rp_count s := zlen (data s);
  rp_group s := plain_group (data s);
  rp_fits _ _ := True;
|}.
Next Obligation. intros s _. apply zlen_nonneg. Qed.
Next Obligation. snoc_entry. Qed.
Next Obligation. fresh_group. Qed.
Next Obligation.
  intros s now i _ Hi. destruct (insert_now_spec i s Hi) as (s' & E & Hl & _). exists s'.
  split_and!; [done..|]. intros g. by apply plain_group_len.
Qed.
Next Obligation. intros s now i _ Hi. exists s. by split_and!. Qed.
Next Obligation. done. Qed.
Next Obligation.
  intros s now i _ Hi. destruct (insert_now_spec i s Hi) as (s' & E & Hl & _). exists s'.
  split_and!; [done..|]. intros g. by apply plain_group_len.
Qed.
Next Obligation.
  intros s g _ Hg. cbn. destruct (fifo_victim s g Hg) as (r & c & -> & Hr & _).
  apply zlookup_lt in Hr. exists r, s. split_and!; [done|lia|lia|done|done|done].
Qed.

(** *** The search of second chance *)

(** The candidates that have a second chance. *)
Definition chances (s : FIFO.t) (g : list Z) : nat := length (filter (λ i, chance s i = true) g).

Lemma chances_le s g : (chances s g ≤ length g)%nat.
Proof. apply length_filter. Qed.

Lemma chances_used s s' i g :
  i ∈ g → chance s i = true → chance s' i = false →
  (∀ j, j ≠ i → chance s' j = chance s j) → (chances s' g < chances s g)%nat.
Proof.
  intros Hi H1 H2 Hj. unfold chances.
  assert (∀ g, (length (filter (λ i, chance s' i = true) g) ≤ length (filter (λ i, chance s i = true) g))%nat)
    as Hle.
  { clear g Hi. intros g. induction g as [|j g IH]; [done|]. rewrite !filter_cons.
    destruct (decide (j = i)) as [->|Hne].
    - rewrite decide_False by congruence. case_decide; cbn; lia.
    - rewrite (Hj j Hne). case_decide; cbn; lia. }
  induction g as [|j g IH]; [by apply not_elem_of_nil in Hi|]. rewrite !filter_cons.
  destruct (decide (j = i)) as [->|Hne].
  - rewrite decide_False by congruence. rewrite decide_True by done. cbn. specialize (Hle g). lia.
  - apply elem_of_cons in Hi as [?|Hi]; [congruence|]. specialize (IH Hi). rewrite (Hj j Hne).
    case_decide; cbn; lia.
Qed.

Lemma search_victim_spec fuel g s :
  plain_group (data s) g → (chances s g < fuel)%nat →
  ∃ r c s', search_victim fuel g s = Some (Ok (r, s')) ∧ zlookup g r = Some c ∧
    zlen (data s') = zlen (data s) ∧ chance s' c = false ∧
    Forall (λ c', inserted s' c ≤ inserted s' c') g ∧
    ∀ i, chance s' i = true → chance s i = true.
Proof.
  revert s. induction fuel as [|fuel IH]; intros s Hg Hf; [lia|]. cbn [search_victim].
  destruct (fifo_victim s g Hg) as (r & c & -> & Hr & Hall).
  assert (valid_id (data s) c) as Hc by exact (Forall_zlookup _ _ _ _ (proj2 Hg) Hr).
  destruct (zlookup_is_Some _ _ Hc) as [d Hd].
  rewrite (vget_intro _ _ _ Hr). cbn [rbind]. rewrite (vget_intro _ _ _ Hd). cbn [rbind].
  assert (chance s c = hasSecondChance d) as Hch by (unfold chance, look; by rewrite Hd).
  destruct (hasSecondChance d).
  - unfold useSecondChance. destruct (insert_give_spec false c s Hc) as (s1 & s2 & E1 & E2 & Hl & Hj).
    rewrite E1. cbn [rbind]. rewrite E2.
    assert (chance s2 c = false) as H2.
    { unfold chance, look. rewrite Hj, decide_True, Hd by done. done. }
    assert (∀ j, j ≠ c → chance s2 j = chance s j) as H3.
    { intros j Hne. unfold chance, look. by rewrite Hj, decide_False. }
    destruct (IH s2) as (r' & c' & s' & E & Hr' & Hl' & Hc' & Hall' & Hm).
    + by eapply plain_group_len.
    + assert (chances s2 g < chances s g)%nat; [|lia]. apply (chances_used s s2 c); try done.
      apply list_elem_of_lookup. exists (Z.to_nat r). by apply zlookup_Some in Hr as [_ ?].
    + exists r', c', s'. split_and!; [done|done|lia|done|done|]. intros i Hi%Hm.
      destruct (decide (i = c)) as [->|Hne]; [congruence|]. by rewrite <- H3.
  - exists r, c, s. by split_and!.
Qed.

Lemma find_invalid_spec s k g :
  Forall (valid_id (data s)) g →
  ∃ o, find_invalid s k g = Ok o ∧
    ∀ r, o = Some r → ∃ c, zlookup g (r - k) = Some c ∧ inserted s c = 0 ∧ chance s c = false.
Proof.
  intros Hg. revert k. induction Hg as [|c g Hc _ IH]; intros k; cbn [find_invalid]; [by exists None|].
  destruct (zlookup_is_Some _ _ Hc) as [d Hd]. rewrite (vget_intro _ _ _ Hd). cbn [rbind].
  destruct ((tickInserted d =? 0) && negb (hasSecondChance d)) eqn:E.
  - boolify. exists (Some k). split; [done|]. intros r [= <-]. exists c. rewrite Z.sub_diag.
    unfold inserted, chance, look. by rewrite Hd.
  - destruct (IH (k + 1)) as (o & -> & Ho). exists o. split; [done|]. intros r Hr.
    destruct (Ho r Hr) as (c' & Hc' & H2). exists c'. split; [|done].
    apply zlookup_lt in Hc' as Hr'. rewrite <- Hc'. unfold zlookup.
    rewrite !(proj2 (Z.leb_le _ _)) by lia.
    by replace (Z.to_nat (r - k)) with (S (Z.to_nat (r - (k + 1)))) by lia.
Qed.

(** The search always ends: any bound larger than the number of candidates gives the
    result; the victim has no second chance. *)
Lemma second_chance_victim s g :
  plain_group (data s) g →
  ∃ r c s', SecondChance.victim g s = Ok (r, s') ∧ zlookup g r = Some c ∧
    zlen (data s') = zlen (data s) ∧ chance s' c = false ∧
    (inserted s' c = 0 ∨ Forall (λ c', inserted s' c ≤ inserted s' c') g) ∧
    ∀ i, chance s' i = true → chance s i = true.
Proof.
  intros Hg. unfold SecondChance.victim. pose proof Hg as [Hne Hall].
  rewrite (proj2 (Z.ltb_lt 0 (zlen g))) by (destruct g; [done|rewrite zlen_cons; pose proof (zlen_nonneg g); lia]).
  cbn [assert rbind]. destruct (find_invalid_spec s 0 g Hall) as (o & -> & Ho). cbn [rbind].
  destruct o as [k|].
  - destruct (Ho k eq_refl) as (c & Hc & Hi & Hch). rewrite Z.sub_0_r in Hc.
    exists k, c, s. split_and!; auto.
  - pose proof (chances_le s g).
    destruct (search_victim_spec (S (length g)) g s) as (r & c & s' & -> & Hr & Hl & Hch & Hmin & Hm);
      [done|lia|].
    exists r, c, s'. split_and!; auto.
Qed.

#[global] Program Instance second_chance_laws : PolicyLaws SecondChance.t := {|
  rp_ok _ := True;
  rp_count s := zlen (data (fifo s));
  rp_group s := plain_group (data (fifo s));
  rp_fits _ _ := True;
|}.
Next Obligation. intros s _. apply zlen_nonneg. Qed.
Next Obligation. snoc_entry. Qed.
Next Obligation. fresh_group. Qed.
Next Obligation.
  intros s now i _ Hi. cbn. destruct (insert_give_spec false i _ Hi) as (s1 & s2 & -> & E & Hl & _).
  cbn. rewrite E. eexists. split_and!; [done..|]. intros g. by apply plain_group_len.
Qed.
Next Obligation.
  intros s now i _ Hi. cbn. destruct (give_spec true i _ Hi) as (s2 & -> & Hl & _).
  eexists. split_and!; [done..|]. intros g. by apply plain_group_len.
Qed.
Next Obligation. done. Qed.
Next Obligation.
  intros s now i _ Hi. cbn. destruct (insert_give_spec false i _ Hi) as (s1 & s2 & -> & E & Hl & _).
  cbn. rewrite E. eexists. split_and!; [done..|]. intros g. by apply plain_group_len.
Qed.
Next Obligation.
  intros s g _ Hg. cbn.
  destruct (second_chance_victim _ g Hg) as (r & c & s' & -> & Hr & Hl & _).
  apply zlookup_lt in Hr. eexists r, _. split_and!; [done|lia|lia|done|done|].
  intros g'. by apply plain_group_len.
Qed.

End QueuePolicies.
