(* ===== verification/TreePlru.v ===== *)
(** * Tree-PLRU

    The bits of a tree with [2 ^ h] leaves are the inner nodes in breadth-first order.  With
    [m = index + 1] the root is 1, the children of [m] are [2 m] and [2 m + 1] and its
    parent is [m / 2]; the leaves are the numbers from [2 ^ h] to [2 ^ (h + 1) - 1]. *)

From S2P Require Import Prelude.
From S2P Require Import IntMath.
From S2P Require Import ReplacementPolicies.
From S2P Require Import ReplacementFacts.

Import TreePLRU.

Section tree.
Context (h : Z) (Hh : 1 ≤ h ≤ 62).

Definition tree_ok (tr : list bool) : Prop := zlen tr = 2 ^ h - 1.

Lemma pow_pos k : 0 ≤ k → 0 < 2 ^ k.
Proof. intros Hk. apply Z.pow_pos_nonneg; lia. Qed.

Lemma pow_h : 2 ≤ 2 ^ h ≤ 2 ^ 62.
Proof.
  split; [change 2 with (2 ^ 1) at 1|]; apply Z.pow_le_mono_r; lia.
Qed.

(** A child is its parent's double, or one more. *)
Lemma half_step m : m = 2 * (m / 2) + Z.b2z (Z.odd m).
Proof. pose proof (Z.div_mod m 2 ltac:(lia)) as E. rewrite Zmod_odd in E. by destruct (Z.odd m). Qed.

Lemma div_pow_step m k : 0 ≤ k → m / 2 ^ k = 2 * (m / 2 ^ (k + 1)) + Z.b2z (Z.odd (m / 2 ^ k)).
Proof.
  intros Hk. rewrite (half_step (m / 2 ^ k)) at 1.
  rewrite Z.pow_add_r, Z.pow_1_r, <- Z.div_div by (try apply pow_pos; lia). done.
Qed.

Lemma parent_of m : 2 ≤ m < 2 ^ 64 → parentIndex (m - 1) = m / 2 - 1.
Proof.
  intros Hm. unfold parentIndex, wrap64. rewrite Z.mod_small by lia.
  replace (m - 1 - 1) with (m + (-1) * 2) by lia. rewrite Z.div_add by lia. lia.
Qed.

Lemma right_of m : isRightSubtree (m - 1) = Z.odd m.
Proof.
  unfold isRightSubtree. rewrite Zmod_odd, Z.odd_sub. cbn. by destruct (Z.odd m).
Qed.

(** What a node on the way of leaf [m] says: its bit [k] levels above the leaf. *)
Definition bit_toward (toward : bool) (m k : Z) : bool :=
  if toward then Z.odd (m / 2 ^ (k - 1)) else negb (Z.odd (m / 2 ^ (k - 1))).

Lemma climb_spec toward (d : nat) fuel m tr :
  (1 ≤ d ≤ fuel)%nat → Z.of_nat d ≤ h → 2 ^ Z.of_nat d ≤ m < 2 ^ (Z.of_nat d + 1) → tree_ok tr →
  ∃ tr', climb fuel toward (m - 1) tr = Ok tr' ∧ tree_ok tr' ∧
    (∀ j, m / 2 ≤ j → zlookup tr' j = zlookup tr j) ∧
    ∀ k, 1 ≤ k ≤ Z.of_nat d → zlookup tr' (m / 2 ^ k - 1) = Some (bit_toward toward m k).
Proof.
  revert fuel m tr. induction d as [|d IH]; intros fuel m tr Hf Hd Hm Ht; [lia|].
  destruct fuel as [|fuel]; [lia|]. cbn [climb]. pose proof pow_h.
  assert (2 ^ (Z.of_nat (S d) + 1) ≤ 2 ^ 63) by (apply Z.pow_le_mono_r; lia).
  assert (2 ^ 1 ≤ 2 ^ Z.of_nat (S d)) by (apply Z.pow_le_mono_r; lia).
  rewrite parent_of, right_of by lia. unfold tree_ok in Ht.
  assert (2 ^ Z.of_nat d ≤ m / 2 < 2 ^ (Z.of_nat d + 1)) as Hp.
  { replace (Z.of_nat (S d)) with (Z.of_nat d + 1) in Hm by lia.
    rewrite !Z.pow_add_r in Hm by lia. split; [apply Z.div_le_lower_bound|apply Z.div_lt_upper_bound]; 
      rewrite ?Z.pow_add_r by lia; lia. }
  pose proof (pow_pos (Z.of_nat d) ltac:(lia)).
  assert (2 ^ (Z.of_nat d + 1) ≤ 2 ^ h) by (apply Z.pow_le_mono_r; lia).
  assert (0 ≤ m / 2 - 1 < zlen tr) as Hr by lia.
  unfold at_set. destruct (zlookup_is_Some tr _ Hr) as [b0 ->]. cbn [rbind].
  set (b := if toward then Z.odd m else negb (Z.odd m)).
  set (tr1 := <[Z.to_nat (m / 2 - 1) := b]> tr).
  assert (zlen tr1 = zlen tr) as Hl1 by apply zlen_insert.
  assert (∀ j, zlookup tr1 j = if decide (m / 2 - 1 = j) then Some b else zlookup tr j) as Hz
    by (intros j; by apply zlookup_insert).
  assert (bit_toward toward m 1 = b) as Hb1.
  { unfold bit_toward, b. change (1 - 1) with 0. by rewrite Z.pow_0_r, Z.div_1_r. }
  destruct (Z.eqb_spec (m / 2 - 1) 0) as [E0|E0].
  - assert (d = 0)%nat as ->.
    { destruct d; [done|]. assert (2 ^ 1 ≤ 2 ^ Z.of_nat (S d)) by (apply Z.pow_le_mono_r; lia). lia. }
    exists tr1. split_and!; [done|unfold tree_ok; lia| |].
    + intros j Hj. rewrite Hz, decide_False by lia. done.
    + intros k Hk. replace k with 1 by lia. rewrite Z.pow_1_r, Hz, decide_True by lia. by rewrite Hb1.
  - assert (1 ≤ d)%nat as Hd1. { destruct d; [|lia]. cbn in Hp. lia. }
    destruct (IH fuel (m / 2) tr1) as (tr' & -> & Ht' & Hfr & Hbits); [lia|lia|done|unfold tree_ok; lia|].
    exists tr'. split_and!; [done|done| |].
    + intros j Hj. rewrite Hfr, Hz, decide_False; [done|lia|].
      etransitivity; [|exact Hj]. apply Z.div_le_upper_bound; lia.
    + intros k Hk. destruct (decide (k = 1)) as [->|Hk1].
      * rewrite Z.pow_1_r, Hfr, Hz, decide_True by (lia || (apply Z.div_le_upper_bound; lia)).
        by rewrite Hb1.
      * assert (m / 2 ^ k = m / 2 / 2 ^ (k - 1)) as ->.
        { rewrite Z.div_div by (try apply pow_pos; lia).
          replace k with (1 + (k - 1)) at 1 by lia. by rewrite Z.pow_add_r by lia. }
        rewrite (Hbits (k - 1)) by lia. unfold bit_toward.
        assert (m / 2 / 2 ^ (k - 1 - 1) = m / 2 ^ (k - 1)) as ->; [|done].
        rewrite Z.div_div by (try apply pow_pos; lia).
        replace (k - 1) with (1 + (k - 1 - 1)) at 2 by lia. by rewrite Z.pow_add_r by lia.
Qed.

Lemma descend_S fuel tr i :
  descend (S fuel) tr i =
    if i <? zlen tr then
      b ← at_get tr i;
      descend fuel tr (if b then rightSubtreeIndex i else leftSubtreeIndex i)
    else Ok i.
Proof. done. Qed.

(** The way down ends at a leaf below the node it starts from, and at the leaf the bits
    point to. *)
Lemma descend_spec (e : nat) fuel tr m0 :
  (e < fuel)%nat → Z.of_nat e ≤ h → tree_ok tr →
  2 ^ (h - Z.of_nat e) ≤ m0 < 2 ^ (h - Z.of_nat e + 1) →
  ∃ r, descend fuel tr (m0 - 1) = Ok (r - 1) ∧ r / 2 ^ Z.of_nat e = m0 ∧
    ∀ m, m / 2 ^ Z.of_nat e = m0 →
      (∀ k, 1 ≤ k ≤ Z.of_nat e → zlookup tr (m / 2 ^ k - 1) = Some (bit_toward true m k)) → r = m.
Proof.
  revert fuel m0. induction e as [|e IH]; intros fuel m0 Hf He Ht Hm.
  - exists m0. cbn. rewrite Z.div_1_r. split_and!; [|done|].
    + destruct fuel as [|fuel]; [lia|]. cbn [descend]. unfold tree_ok in Ht.
      rewrite (proj2 (Z.ltb_ge _ _)); [done|]. rewrite Ht. replace (h - Z.of_nat 0) with h in Hm by lia. lia.
    + intros m Hm0 _. by rewrite Z.div_1_r in Hm0.
  - destruct fuel as [|fuel]; [lia|]. cbn [descend]. pose proof pow_h as Hp.
    pose proof (pow_pos (h - Z.of_nat (S e)) ltac:(lia)) as Hp0.
    assert (2 ^ (h - Z.of_nat (S e) + 1) ≤ 2 ^ h) as Hp1 by (apply Z.pow_le_mono_r; lia).
    unfold tree_ok in Ht. rewrite (proj2 (Z.ltb_lt _ _)) by lia.
    unfold at_get. destruct (zlookup_is_Some tr (m0 - 1)) as [b Hb]; [lia|]. rewrite Hb. cbn [rbind].
    assert ((if b then rightSubtreeIndex (m0 - 1) else leftSubtreeIndex (m0 - 1)) =
            (2 * m0 + Z.b2z b) - 1) as ->.
    { unfold rightSubtreeIndex, leftSubtreeIndex, wrap64.
      destruct b; rewrite Z.mod_small by lia; cbn; lia. }
    replace (h - Z.of_nat (S e)) with (h - Z.of_nat e - 1) in * by lia.
    assert (2 ^ (h - Z.of_nat e) = 2 * 2 ^ (h - Z.of_nat e - 1)) as E1.
    { rewrite <- Z.pow_succ_r by lia. f_equal. lia. }
    assert (2 ^ (h - Z.of_nat e + 1) = 2 * 2 ^ (h - Z.of_nat e)) as E2.
    { rewrite <- Z.pow_succ_r by lia. f_equal. }
    replace (h - Z.of_nat e - 1 + 1) with (h - Z.of_nat e) in * by lia.
    destruct (IH fuel (2 * m0 + Z.b2z b)) as (r & -> & Hr & Hm2); [lia|lia|done|destruct b; cbn; lia|].
    assert (∀ x, x / 2 ^ Z.of_nat (S e) = x / 2 ^ Z.of_nat e / 2) as Hdiv.
    { intros x. rewrite Z.div_div by (try apply pow_pos; lia).
      replace (Z.of_nat (S e)) with (Z.of_nat e + 1) by lia. by rewrite Z.pow_add_r by lia. }
    exists r. split_and!; [done| |].
    + rewrite Hdiv, Hr. symmetry. apply (Z.div_unique _ 2 m0 (Z.b2z b)); destruct b; cbn; lia.
    + intros m Hm3 Hbits. apply Hm2; [|intros k Hk; apply Hbits; lia].
      pose proof (Hbits (Z.of_nat (S e)) ltac:(lia)) as Hk. rewrite Hm3, Hb in Hk. injection Hk as ->.
      unfold bit_toward. replace (Z.of_nat (S e) - 1) with (Z.of_nat e) by lia.
      pose proof (div_pow_step m (Z.of_nat e) ltac:(lia)) as E.
      replace (Z.of_nat e + 1) with (Z.of_nat (S e)) in E by lia. by rewrite Hm3 in E.
Qed.

End tree.

(** ** Groups of entries *)

(** The entries that [instantiateEntry] made: [2 ^ h] of them share a tree. *)
Record plru_ok (h : Z) (s : t) : Prop := {
  po_leaves : numLeaves s = 2 ^ h;
  po_count : count s = wrap64 (zlen (data s));
  po_trees : zlen (trees s) = (zlen (data s) + 2 ^ h - 1) / 2 ^ h;
  po_sizes : Forall (tree_ok h) (trees s);
  po_data : ∀ i, 0 ≤ i < zlen (data s) →
    zlookup (data s) i = Some (mkData (i mod 2 ^ h + 2 ^ h - 1) (i / 2 ^ h));
}.

(** The entries of tree [q]. *)
Definition leaves (h q : Z) : list Z := seqZ (q * 2 ^ h) (2 ^ h).

Definition in_data (h q : Z) (s : t) : Prop := 0 ≤ q ∧ (q + 1) * 2 ^ h ≤ zlen (data s).

Section groups.
Context (h : Z) (Hh : 1 ≤ h ≤ 62).

Notation n := (2 ^ h).

Lemma tree_of_entry s i :
  plru_ok h s → 0 ≤ i < zlen (data s) →
  ∃ tr, zlookup (trees s) (i / n) = Some tr ∧ tree_ok h tr.
Proof.
  intros Ho Hi. pose proof (pow_h h Hh).
  destruct (zlookup_is_Some (trees s) (i / n)) as [tr Htr].
  - rewrite (po_trees _ _ Ho). split; [apply Z.div_pos; lia|].
    apply Z.div_lt_upper_bound; [lia|].
    pose proof (Z.mul_div_le (zlen (data s) + n - 1) n ltac:(lia)).
    pose proof (Z.mul_succ_div_gt (zlen (data s) + n - 1) n ltac:(lia)). lia.
  - exists tr. split; [done|]. exact (Forall_zlookup _ _ _ _ (po_sizes _ _ Ho) Htr).
Qed.

(** The bits of tree [q] say where leaf [p] is, or where it is not. *)
Definition points (toward : bool) (p : Z) (tr : list bool) : Prop :=
  ∀ k, 1 ≤ k ≤ h → zlookup tr ((p + n) / 2 ^ k - 1) = Some (bit_toward toward (p + n) k).

Lemma tree_update_spec toward i s :
  plru_ok h s → 0 ≤ i < zlen (data s) →
  ∃ s' tr, update toward i s = Ok s' ∧ plru_ok h s' ∧ data s' = data s ∧
    replaced (trees s) (i / n) tr (trees s') ∧ points toward (i mod n) tr.
Proof.
  intros Ho Hi. unfold update.
  remember 64%nat as levels eqn:EL. assert (64 ≤ levels)%nat as HL by lia. clear EL.
  rewrite (vget_intro _ _ _ (po_data _ _ Ho i Hi)). cbn [rbind index tree].
  destruct (tree_of_entry s i Ho Hi) as (tr & Htr & Ht). pose proof (pow_h h Hh).
  pose proof (Z.mod_pos_bound i n ltac:(lia)) as Hm.
  destruct (climb_spec h Hh toward (Z.to_nat h) levels (i mod n + n) tr) as (tr' & Ec & Ht' & _ & Hb);
    [lia|lia| |done|].
  { rewrite Z2Nat.id by lia. rewrite Z.pow_add_r by lia. lia. }
  rewrite Z2Nat.id in Hb by lia.
  unfold vupd. rewrite (vget_intro _ _ _ Htr). cbn [rbind]. rewrite Ec. cbn [rbind].
  apply zlookup_lt in Htr as Hq. rewrite vset_intro by done. cbn [rbind].
  eexists _, tr'. split; [done|]. cbn [trees data].
  assert (replaced (trees s) (i / n) tr' (<[Z.to_nat (i / n):=tr']> (trees s))) as Hr
    by (apply vset_replaced; by apply vset_intro).
  split; [|done]. destruct Ho as [H1 H2 H3 H4 H5].
  split; cbn; [done|done|by rewrite zlen_insert|by apply Forall_insert|done].
Qed.

Lemma leaves_lookup q p : 0 ≤ p < n → zlookup (leaves h q) p = Some (q * n + p).
Proof.
  intros Hp. unfold leaves, zlookup. rewrite (proj2 (Z.leb_le 0 p)) by lia.
  apply lookup_seqZ. lia.
Qed.

Lemma leaf_id q p : 0 ≤ p < n → (q * n + p) / n = q ∧ (q * n + p) mod n = p.
Proof.
  intros Hp. split; [rewrite Z.add_comm, Z.div_add, Z.div_small by lia; lia|].
  by rewrite Z.add_comm, Z.mod_add, Z.mod_small by lia.
Qed.

Lemma victim_spec q s tr :
  plru_ok h s → in_data h q s → zlookup (trees s) q = Some tr →
  ∃ k, victim (leaves h q) s = Ok k ∧ 0 ≤ k < n ∧
    (∀ p, 0 ≤ p < n → points true p tr → k = p) ∧
    (∀ p, 0 ≤ p < n → points false p tr → k ≠ p).
Proof.
  intros Ho [Hq Hd] Htr. pose proof (pow_h h Hh) as Hp.
  pose proof (Forall_zlookup _ _ _ _ (po_sizes _ _ Ho) Htr) as Ht. cbn in Ht.
  unfold victim. remember 64%nat as levels eqn:EL. assert (64 ≤ levels)%nat as HL by lia. clear EL.
  assert (zlen (leaves h q) = n) as Hz by (unfold zlen, leaves; rewrite length_seqZ; lia).
  rewrite Hz, (proj2 (Z.ltb_lt 0 n)) by lia. cbn [assert rbind].
  rewrite (vget_intro _ _ _ (leaves_lookup q 0 ltac:(lia))). cbn [rbind].
  rewrite (vget_intro _ _ _ (po_data _ _ Ho (q * n + 0) ltac:(nia))). cbn [rbind tree].
  destruct (leaf_id q 0 ltac:(lia)) as [-> _]. rewrite (vget_intro _ _ _ Htr). cbn [rbind].
  destruct (descend_spec h Hh (Z.to_nat h) levels tr 1) as (r & Er & Hr & Hm);
    [lia|lia|done|rewrite Z2Nat.id, Z.sub_diag by lia; cbn; lia|].
  rewrite Z2Nat.id in Hr, Hm by lia. rewrite Z.sub_diag in Er. rewrite Er. cbn [rbind].
  assert (n ≤ r < 2 * n) as Hrb.
  { pose proof (Z.mul_div_le r n ltac:(lia)). pose proof (Z.mul_succ_div_gt r n ltac:(lia)). lia. }
  rewrite (po_leaves _ _ Ho). assert (wrap64 (r - 1 - (n - 1)) = r - n) as ->.
  { unfold wrap64. rewrite Z.mod_small; lia. }
  rewrite (vget_intro _ _ _ (leaves_lookup q (r - n) ltac:(lia))). cbn [rbind].
  exists (r - n). split_and!; [done|lia|lia| |].
  - intros p Hpn Hpt. assert (r = p + n); [|lia]. apply Hm; [|done].
    symmetry. apply (Z.div_unique _ n 1 p); lia.
  - intros p Hpn Hpt E. specialize (Hpt h ltac:(lia)).
    assert (1 * n + p = r) as Er' by lia.
    assert ((p + n) / n = 1) as E1 by (symmetry; apply (Z.div_unique _ n 1 p); lia).
    rewrite E1, Z.sub_diag in Hpt.
    destruct levels as [|levels]; [lia|].
    destruct (descend_spec h Hh (Z.to_nat (h - 1)) levels tr
      (2 + Z.b2z (bit_toward false (p + n) h))) as (r2 & Er2 & Hr2 & _); [lia|lia|done| |].
    { rewrite Z2Nat.id by lia. replace (h - (h - 1)) with 1 by lia. destruct (bit_toward _ _ _); cbn; lia. }
    assert (r2 = r) as ->.
    { rewrite descend_S in Er. unfold tree_ok in Ht. rewrite (proj2 (Z.ltb_lt 0 (zlen tr))) in Er by lia.
      unfold at_get in Er. rewrite Hpt in Er. cbn [rbind] in Er.
      assert ((if bit_toward false (p + n) h then rightSubtreeIndex 0 else leftSubtreeIndex 0) =
              2 + Z.b2z (bit_toward false (p + n) h) - 1) as Ei by (by destruct (bit_toward _ _ _)).
      rewrite Ei, Er2 in Er. injection Er as Er. lia. }
    rewrite Z2Nat.id in Hr2 by lia.
    pose proof (div_pow_step r (h - 1) ltac:(lia)) as E2. replace (h - 1 + 1) with h in E2 by lia.
    rewrite Hr in E2. unfold bit_toward in Hr2. replace (p + n) with r in Hr2 by lia.
    destruct (Z.odd (r / 2 ^ (h - 1))); cbn in E2, Hr2; lia.
Qed.

(** C33: in a group of [2 ^ h] entries that share a tree, [h] between 1 and 62, the victim is
    one of the group; the entry that was invalidated last is the victim, and the entry that
    was touched last is not; the other trees do not change. *)
Theorem tree_plru_victim (s : t) (q p now : Z) :
  plru_ok h s → in_data h q s → 0 ≤ p < n →
  (∃ k, getVictim (leaves h q) s = Ok (k, s) ∧ 0 ≤ k < n) ∧
  (∃ s', invalidate now (q * n + p) s = Ok s' ∧ plru_ok h s' ∧
     getVictim (leaves h q) s' = Ok (p, s') ∧
     ∀ q', q' ≠ q → zlookup (trees s') q' = zlookup (trees s) q') ∧
  (∃ s' k, touch now (q * n + p) s = Ok s' ∧ reset now (q * n + p) s = Ok s' ∧ plru_ok h s' ∧
     getVictim (leaves h q) s' = Ok (k, s') ∧ 0 ≤ k < n ∧ k ≠ p ∧
     ∀ q', q' ≠ q → zlookup (trees s') q' = zlookup (trees s) q').
Proof.
  intros Ho Hq Hp. pose proof (pow_h h Hh).
  assert (0 ≤ q * n + p < zlen (data s)) as Hi by (destruct Hq; nia).
  destruct (leaf_id q p Hp) as [Hdiv Hmod].
  split_and!.
  - destruct (tree_of_entry s _ Ho Hi) as (tr & Htr & _). rewrite Hdiv in Htr.
    destruct (victim_spec q s tr Ho Hq Htr) as (k & E & Hk & _). exists k. cbn. by rewrite E.
  - destruct (tree_update_spec true _ s Ho Hi) as (s' & tr & E & Ho' & Hd & Hr & Hpt).
    rewrite Hdiv in Hr. rewrite Hmod in Hpt.
    destruct (victim_spec q s' tr Ho') as (k & Ev & _ & Hk & _);
      [by unfold in_data; rewrite Hd|exact (replaced_eq _ _ _ _ Hr)|].
    exists s'. split_and!; [done|done|cbn; by rewrite Ev, (Hk p Hp Hpt)|].
    intros q' Hne. by rewrite Hr, decide_False.
  - destruct (tree_update_spec false _ s Ho Hi) as (s' & tr & E & Ho' & Hd & Hr & Hpt).
    rewrite Hdiv in Hr. rewrite Hmod in Hpt.
    destruct (victim_spec q s' tr Ho') as (k & Ev & Hk & _ & Hne);
      [by unfold in_data; rewrite Hd|exact (replaced_eq _ _ _ _ Hr)|].
    exists s', k. split_and!; [done|done|done|cbn; by rewrite Ev|lia|lia|by apply Hne|].
    intros q' Hne'. by rewrite Hr, decide_False.
Qed.

End groups.

(** ** The laws *)

Lemma ceil_div L n : 0 < n → (L + n - 1) / n = if L mod n =? 0 then L / n else L / n + 1.
Proof.
  intros Hn. pose proof (Z.div_mod L n ltac:(lia)). pose proof (Z.mod_pos_bound L n Hn).
  symmetry. destruct (Z.eqb_spec (L mod n) 0).
  - apply (Z.div_unique _ n _ (n - 1)); lia.
  - apply (Z.div_unique _ n _ (L mod n - 1)); lia.
Qed.

Lemma make_plru_ok h s : 0 ≤ h → make (2 ^ h) = Ok s → plru_ok h s.
Proof.
  unfold make. intros Hh Hm. step_bind Hm as [] _. injection Hm as <-.
  pose proof (pow_pos h Hh). split; cbn; [done|done| |constructor|].
  - change (zlen []) with 0. symmetry. apply Z.div_small. lia.
  - intros i Hi. unfold zlen in Hi. cbn in Hi. lia.
Qed.

Lemma instantiate_ok h s :
  1 ≤ h ≤ 62 → plru_ok h s →
  ∃ s', instantiate s = Ok (zlen (data s), s') ∧ plru_ok h s' ∧ zlen (data s') = zlen (data s) + 1.
Proof.
  intros Hh Ho. pose proof (pow_h h Hh) as Hp. unfold instantiate. eexists. split; [done|].
  destruct Ho as [H1 H2 H3 H4 H5]. cbn [data]. rewrite zlen_snoc. split; [|done].
  set (L := zlen (data s)) in *. assert (0 ≤ L) by apply zlen_nonneg.
  assert (count s mod 2 ^ h = L mod 2 ^ h) as Em.
  { rewrite H2. unfold wrap64. apply Z.mod_mod_divide. exists (2 ^ (64 - h)).
    rewrite <- Z.pow_add_r by lia. f_equal. lia. }
  rewrite H1, Em. pose proof (Z.div_mod L (2 ^ h) ltac:(lia)) as Ed.
  pose proof (Z.mod_pos_bound L (2 ^ h) ltac:(lia)) as Hm. rewrite ceil_div in H3 by lia.
  set (trs := if L mod 2 ^ h =? 0 then trees s ++ [replicate (Z.to_nat (2 ^ h - 1)) false] else trees s).
  assert (zlen trs = L / 2 ^ h + 1) as Ht.
  { unfold trs. destruct (L mod 2 ^ h =? 0); [rewrite zlen_snoc|]; lia. }
  split; cbn [numLeaves count trees data].
  - done.
  - rewrite H2, zlen_snoc. fold L. unfold wrap64. by rewrite Zplus_mod_idemp_l.
  - rewrite Ht, zlen_snoc. fold L. apply (Z.div_unique _ _ _ (L mod 2 ^ h)); lia.
  - unfold trs. destruct (_ =? _); [|done]. apply Forall_app. split; [done|]. repeat constructor.
    unfold tree_ok, zlen. rewrite length_replicate. lia.
  - intros i Hi. rewrite zlen_snoc in Hi. fold L in Hi. destruct (decide (i = L)) as [->|Hne].
    + unfold zlookup. rewrite (proj2 (Z.leb_le 0 L)) by lia.
      assert (Z.to_nat L = length (data s)) as -> by (unfold L, zlen; lia).
      rewrite list_lookup_middle by done. do 2 f_equal. lia.
    + rewrite <- H5 by lia. unfold zlookup. destruct (0 <=? i); [|done]. apply lookup_app_l.
      unfold L, zlen in Hi, Hne. lia.
Qed.

(** A group is the entries of one tree. *)
#[global] Program Instance tree_plru_laws : PolicyLaws TreePLRU.t := {|
  rp_ok s := ∃ h, 1 ≤ h ≤ 62 ∧ plru_ok h s;
  rp_count s := zlen (data s);
  rp_group s g := ∃ h q, numLeaves s = 2 ^ h ∧ 0 ≤ h ∧ in_data h q s ∧ g = leaves h q;
  rp_fits s n := n = numLeaves s;
|}.
Next Obligation. intros s _. apply zlen_nonneg. Qed.
Next Obligation.
  intros s (h & Hh & Ho). destruct (instantiate_ok h s Hh Ho) as (s' & E & Ho' & Hl).
  exists s'. pose proof (po_leaves _ _ Ho) as E1. pose proof (po_leaves _ _ Ho') as E2.
  split_and!; [done|by exists h|done| |by rewrite E1, E2].
  intros g (h' & q & En & Hh' & [Hq Hd] & ->). exists h', q.
  split_and!; [by rewrite E2, <- E1|done|split; [done|lia]|done].
Qed.
Next Obligation.
  intros s n k (h & Hh & Ho) Hn -> Hk Hc. rewrite (po_leaves _ _ Ho) in *. exists h, k.
  split_and!; [done|lia|split; [done|lia]|done].
Qed.
Next Obligation.
  intros s now i (h & Hh & Ho) Hi.
  destruct (tree_update_spec h Hh true i s Ho Hi) as (s' & tr & E & Ho' & Hd & _).
  exists s'. unfold in_data. rewrite Hd, (po_leaves _ _ Ho), (po_leaves _ _ Ho').
  split_and!; [done|by exists h|done|done].
Qed.
Next Obligation.
  intros s now i (h & Hh & Ho) Hi.
  destruct (tree_update_spec h Hh false i s Ho Hi) as (s' & tr & E & Ho' & Hd & _).
  exists s'. unfold in_data. rewrite Hd, (po_leaves _ _ Ho), (po_leaves _ _ Ho').
  split_and!; [done|by exists h|done|done].
Qed.
Next Obligation. done. Qed.
Next Obligation.
  intros s now i (h & Hh & Ho) Hi.
  destruct (tree_update_spec h Hh false i s Ho Hi) as (s' & tr & E & Ho' & Hd & _).
  exists s'. unfold in_data. rewrite Hd, (po_leaves _ _ Ho), (po_leaves _ _ Ho').
  split_and!; [done|by exists h|done|done].
Qed.
Next Obligation.
  intros s g (h & Hh & Ho) (h' & q & En & Hh' & Hq & ->).
  rewrite (po_leaves _ _ Ho) in En. apply Z.pow_inj_r in En as <-; [|lia..].
  pose proof (pow_h h Hh). pose proof Hq as [Hq0 Hqd].
  destruct (tree_of_entry h Hh s (q * 2 ^ h) Ho) as (tr & Htr & _); [nia|].
  rewrite Z.div_mul in Htr by lia.
  destruct (victim_spec h Hh q s tr Ho Hq Htr) as (k & Ek & Hk & _). exists k, s. cbn. rewrite Ek.
  split_and!; [done|lia| |by exists h|done|done].
  unfold zlen, leaves. rewrite length_seqZ. lia.
Qed.

(** ** A tree of four leaves *)

Fixpoint instantiate_all (k : nat) (s : result TreePLRU.t) : result TreePLRU.t :=
  match k with O => s | S k => s ← s; '(_, s) ← instantiateEntry s; instantiate_all k (Ok s) end.

Definition two_trees : TreePLRU.t :=
  match instantiate_all 8 (make 4) with Ok s => s | Err _ => TreePLRU.mk 0 0 [] [] end.

Lemma two_trees_ok : plru_ok 2 two_trees.
Proof.
  split; [done|done|done|by repeat constructor|]. intros i Hi.
  assert (i = 0 ∨ i = 1 ∨ i = 2 ∨ i = 3 ∨ i = 4 ∨ i = 5 ∨ i = 6 ∨ i = 7) as Hc
    by (change (zlen (data two_trees)) with 8 in Hi; lia).
  by destruct Hc as [->|[->|[->|[->|[->|[->|[->| ->]]]]]]].
Qed.

(** The third entry of the second tree. *)
Lemma tree_plru_victim_witness :
  (∃ s', invalidate 0 (1 * 2 ^ 2 + 2) two_trees = Ok s' ∧
     getVictim (leaves 2 1) s' = Ok (2, s')) ∧
  (∃ s' k, touch 0 (1 * 2 ^ 2 + 2) two_trees = Ok s' ∧
     getVictim (leaves 2 1) s' = Ok (k, s') ∧ k ≠ 2).
Proof.
  destruct (tree_plru_victim 2 ltac:(lia) two_trees 1 2 0 two_trees_ok
    ltac:(split; vm_compute; discriminate) ltac:(split; vm_compute; (discriminate || reflexivity)))
    as (_ & (s1 & E1 & _ & V1 & _) & (s2 & k & E2 & _ & _ & V2 & _ & Hk & _)).
  split.
  - exists s1. split; [exact E1|exact V1].
  - exists s2, k. split; [exact E2|]. split; [exact V2|exact Hk].
Defined.

(** A tree of one leaf has no bits: the first use of its entry throws. *)
Lemma no_bit i b : at_set [] i b = Err Exception.
Proof. unfold at_set, zlookup. by destruct (0 <=? i). Qed.

Lemma one_leaf_throws now :
  ∃ s, instantiate_all 1 (make 1) = Ok s ∧ touch now 0 s = Err Exception.
Proof.
  exists (TreePLRU.mk 1 1 [[]] [mkData 0 0]). split; [reflexivity|]. cbn [touch TreePLRU_policy].
  unfold update. remember 63%nat as levels eqn:EL. clear EL.
  change (vget _ 0) with (Ok (mkData 0 0)). cbn [rbind index tree climb trees].
  unfold vupd. change (vget [[]] 0) with (Ok (@nil bool)). cbn [rbind]. by rewrite no_bit.
Qed.
