(* ===== verification/CacheResources.v ===== *)
(** * Banks and ALUs of a cache

    [mem/ruby/structures]: [BankedArray], whose banks serve one access at a time, and
    [ALUFreeListArray], the pipelined ALUs of atomic operations.  [now] is [curTick()]. *)

From S2P Require Import Prelude.
From S2P Require Import IntMath.
From S2P Require Import Bitfield.
From S2P Require Import RubyBlocks.
From S2P Require Import RubyBlockFacts.

(** ** Banked arrays *)

Module BankedArray.

Record AccessRecord := mkRecord { idx : Z; startAccess : Z; endAccess : Z }.

(** [clockPeriod] is that of the Ruby system; [bankBits] and [startIndexBit] are not used. *)
Record t := mk {
  banks : Z;
  accessLatency : Z;
  clockPeriod : Z;
  busyBanks : list AccessRecord;
}.

Definition make (banks accessLatency clockPeriod : Z) : t :=
  mk banks accessLatency clockPeriod (replicate (Z.to_nat banks) (mkRecord 0 0 0)).

(** [idx % banks], undefined without banks. *)
Definition mapIndexToBank (b : t) (idx : Z) : result Z :=
  if banks b =? 1 then Ok 0
  else if banks b =? 0 then Err Undefined
  else Ok (wrap32 (Z.rem idx (banks b))).

Definition tryAccess (now : Z) (b : t) (idx : Z) : result bool :=
  if accessLatency b =? 0 then Ok true
  else
    bank ← mapIndexToBank b idx;
    _ ← assert (bank <? banks b);
    r ← vget (busyBanks b) bank;
    Ok (negb (now <=? endAccess r)).

Definition reserve (now : Z) (b : t) (idx_ : Z) : result t :=
  if accessLatency b =? 0 then Ok b
  else
    bank ← mapIndexToBank b idx_;
    _ ← assert (bank <? banks b);
    r ← vget (busyBanks b) bank;
    if (now <=? endAccess r) then
      if (startAccess r =? now) && (idx r =? idx_) then Ok b else Err Panicked
    else
      busy ← vset (busyBanks b) bank
        (mkRecord idx_ now (wrap64 (now + wrap64 (wrap64 (accessLatency b - 1) * clockPeriod b))));
      Ok (mk (banks b) (accessLatency b) (clockPeriod b) busy).

Definition getLatency (b : t) : Z := accessLatency b.

(** An access that was granted is not granted again until its time is over, and a
    reservation after a granted access succeeds. *)
Lemma reserve_after_try now b i :
  tryAccess now b i = Ok true → ∃ b', reserve now b i = Ok b'.
Proof.
  unfold tryAccess, reserve. destruct (accessLatency b =? 0); [by eexists|].
  intros H1. step_bind H1 as bank Eb. step_bind H1 as [] Ea. step_bind H1 as r Er.
  rewrite Eb. cbn [rbind]. rewrite Ea. cbn [rbind]. rewrite Er. cbn [rbind].
  injection H1 as H1. apply negb_true_iff in H1. rewrite H1.
  apply vget_Ok, zlookup_lt in Er. rewrite vset_intro by done. by eexists.
Qed.

(** While an access is served its bank takes no other. *)
Lemma bank_busy now b i b' t j :
  accessLatency b ≠ 0 → 0 ≤ accessLatency b < 2 ^ 64 → 0 ≤ now → 0 ≤ clockPeriod b →
  now + (accessLatency b - 1) * clockPeriod b < 2 ^ 64 →
  tryAccess now b i = Ok true → reserve now b i = Ok b' →
  mapIndexToBank b j = mapIndexToBank b i →
  t ≤ now + (accessLatency b - 1) * clockPeriod b → tryAccess t b' j = Ok false.
Proof.
  intros Hl Hr Hn Hc Hov H1 H2 Hj Ht. unfold tryAccess, reserve in *.
  rewrite (proj2 (Z.eqb_neq _ _) Hl) in *.
  step_bind H1 as bank Eb. step_bind H1 as [] Ea. step_bind H1 as r Er.
  rewrite Eb in H2, Hj. cbn [rbind] in H2. rewrite Ea in H2. cbn [rbind] in H2. rewrite Er in H2.
  cbn [rbind] in H2. injection H1 as H1. apply negb_true_iff in H1. rewrite H1 in H2.
  step_bind H2 as busy Hb. injection H2 as <-. cbn [accessLatency banks busyBanks].
  rewrite (proj2 (Z.eqb_neq _ _) Hl).
  assert (mapIndexToBank (mk (banks b) (accessLatency b) (clockPeriod b) busy) j = Ok bank) as ->
    by exact Hj.
  cbn [rbind]. rewrite Ea. cbn [rbind].
  rewrite (vget_intro _ _ _ (replaced_eq _ _ _ _ (vset_replaced _ _ _ _ Hb))). cbn [rbind endAccess].
  unfold wrap64. rewrite (Z.mod_small (accessLatency b - 1)) by lia.
  rewrite (Z.mod_small ((accessLatency b - 1) * clockPeriod b)) by nia. rewrite Z.mod_small by nia.
  by rewrite (proj2 (Z.leb_le _ _) Ht).
Qed.

End BankedArray.

(** ** The ALUs of atomic operations *)

Module ALUFreeListArray.

Record AccessRecord := mkRecord { lineAddr : Z; startTick : Z }.

(** [accessQueue] with its front first. *)
Record t := mk { numALUs : Z; accessLatency : Z; accessQueue : list AccessRecord }.

Definition make (num_ALUs access_latency : Z) : t := mk num_ALUs access_latency [].

(** [while (back().startTick < oldest) pop_back()] on the queue with its back first. *)
Fixpoint pop_stale (oldest : Z) (back_first : list AccessRecord) : list AccessRecord :=
  match back_first with
  | [] => []
  | r :: rest => if startTick r <? oldest then pop_stale oldest rest else r :: rest
  end.

(** The loop over the queue, [accesses] of which were in this tick. *)
Fixpoint admits (now n line accesses : Z) (q : list AccessRecord) : bool :=
  match q with
  | [] => true
  | r :: q =>
      let accesses := if startTick r =? now then wrap32 (accesses + 1) else accesses in
      if (startTick r =? now) && (n <? accesses) then false
      else if lineAddr r =? line then false
      else admits now n line accesses q
  end.

Definition tryAccess (bs : block_size) (now : Z) (a : t) (addr : Z) : bool * t :=
  let oldestValidRecordStart := wrap64 (now - accessLatency a) in
  let q := reverse (pop_stale oldestValidRecordStart (reverse (accessQueue a))) in
  (admits now (numALUs a) (Address.makeLineAddress bs addr) 0 q,
   mk (numALUs a) (accessLatency a) q).

Definition reserve (bs : block_size) (now : Z) (a : t) (addr : Z) : t :=
  mk (numALUs a) (accessLatency a)
    (mkRecord (Address.makeLineAddress bs addr) now :: accessQueue a).

(** The accesses of tick [now]. *)
Definition this_tick (now : Z) (q : list AccessRecord) : Z :=
  zlen (filter (λ r, startTick r = now) q).

Lemma this_tick_cons now r q :
  this_tick now (r :: q) = (if startTick r =? now then 1 else 0) + this_tick now q.
Proof.
  unfold this_tick. rewrite filter_cons. destruct (Z.eqb_spec (startTick r) now).
  - rewrite decide_True by done. apply zlen_cons.
  - by rewrite decide_False.
Qed.

Lemma admits_spec now n line k q :
  0 ≤ k → 0 ≤ n → k + zlen q < 2 ^ 32 → (k ≤ n ∨ this_tick now q = 0) →
  admits now n line k q = bool_decide (Forall (λ r, lineAddr r ≠ line) q ∧
    (k + this_tick now q ≤ n ∨ this_tick now q = 0)).
Proof.
  revert k. induction q as [|r q IH]; intros k Hk Hn Hz Hkn; cbn [admits].
  - symmetry. apply bool_decide_eq_true. split; [constructor|by right].
  - rewrite zlen_cons in Hz. pose proof (zlen_nonneg q). rewrite this_tick_cons in *.
    assert (0 ≤ this_tick now q) by apply zlen_nonneg.
    destruct (Z.eqb_spec (startTick r) now) as [E|E]; cbn [andb].
    + assert (wrap32 (k + 1) = k + 1) as -> by (apply Z.mod_small; lia).
      destruct (Z.ltb_spec n (k + 1)).
      * symmetry. apply bool_decide_eq_false. intros [_ ?]. lia.
      * destruct (Z.eqb_spec (lineAddr r) line) as [El|El].
        -- symmetry. apply bool_decide_eq_false. intros [[? _]%Forall_cons _]. done.
        -- rewrite IH by lia. apply bool_decide_ext. rewrite Forall_cons. 
           split; [intros [? ?]; split; [done|lia]|intros [[_ ?] ?]; split; [done|lia]].
    + destruct (Z.eqb_spec (lineAddr r) line) as [El|El].
      * symmetry. apply bool_decide_eq_false. intros [[? _]%Forall_cons _]. done.
      * rewrite IH by lia. apply bool_decide_ext. rewrite Forall_cons.
        split; [intros [? ?]; split; [done|lia]|intros [[_ ?] ?]; split; [done|lia]].
Qed.

(** What is left of a queue sorted by its ticks. *)
Lemma pop_stale_filter oldest q :
  StronglySorted (λ r r', startTick r' ≤ startTick r) q →
  reverse (pop_stale oldest (reverse q)) = filter (λ r, oldest ≤ startTick r) q.
Proof.
  assert (Hs : ∀ l x, Forall (λ r, startTick r ≤ startTick x) l →
    pop_stale oldest (l ++ [x]) = pop_stale oldest l ++ filter (λ r, oldest ≤ startTick r) [x]).
  { induction l as [|y l IH]; intros x Hl; cbn [app pop_stale].
    - rewrite filter_cons, filter_nil. destruct (Z.ltb_spec (startTick x) oldest).
      + by rewrite decide_False by lia.
      + by rewrite decide_True by lia.
    - apply Forall_cons in Hl as [Hy Hl]. destruct (Z.ltb_spec (startTick y) oldest).
      + by apply IH.
      + rewrite filter_cons, filter_nil, decide_True by lia. done. }
  induction 1 as [|x q Hq IH Hx]; [done|].
  rewrite reverse_cons, Hs by (by apply Forall_reverse).
  rewrite reverse_app, IH, !filter_cons, filter_nil. by case_decide.
Qed.

(** C34: which atomic operations go through.  The queue loses the accesses that are older
    than the latency of the ALUs, and all of them as long as the simulation itself is younger
    than that, since the subtraction of the ticks wraps around.  An access goes through when
    none of the accesses that are left is to its line and at most as many as there are ALUs
    were made in this tick, so that one more than there are ALUs can start in a tick. *)
Theorem alu_admission bs now a addr :
  0 ≤ numALUs a → zlen (accessQueue a) < 2 ^ 32 → 0 ≤ now < 2 ^ 64 → 0 ≤ accessLatency a < 2 ^ 64 →
  Forall (λ r, 0 ≤ startTick r ≤ now) (accessQueue a) →
  StronglySorted (λ r r', startTick r' ≤ startTick r) (accessQueue a) →
  let line := Address.makeLineAddress bs addr in
  let q := if accessLatency a <=? now
           then filter (λ r, now - accessLatency a ≤ startTick r) (accessQueue a) else [] in
  tryAccess bs now a addr =
    (bool_decide (Forall (λ r, lineAddr r ≠ line) q ∧ this_tick now q ≤ numALUs a),
     mk (numALUs a) (accessLatency a) q).
Proof.
  intros Hn Hz Hnow Hlat Hq Hsort line q. unfold tryAccess. fold line.
  assert (reverse (pop_stale (wrap64 (now - accessLatency a)) (reverse (accessQueue a))) = q) as ->.
  { rewrite (pop_stale_filter _ _ Hsort). unfold q, wrap64. destruct (Z.leb_spec (accessLatency a) now).
    - by rewrite Z.mod_small by lia.
    - replace ((now - accessLatency a) mod 2 ^ 64) with (now - accessLatency a + 2 ^ 64)
        by (rewrite <- (Z.mod_add _ 1) by lia; rewrite Z.mod_small; lia).
      clear -Hq Hlat Hnow. induction Hq as [|r l Hr _ IH]; [done|].
      by rewrite filter_cons, decide_False by lia. }
  f_equal. assert (zlen q ≤ zlen (accessQueue a)).
  { unfold q. destruct (_ <=? _); unfold zlen; [|cbn; lia].
    pose proof (length_filter (λ r, now - accessLatency a ≤ startTick r) (accessQueue a)). lia. }
  assert (0 ≤ this_tick now q) by apply zlen_nonneg.
  rewrite admits_spec by lia. apply bool_decide_ext. rewrite Z.add_0_l.
  split; intros [? ?]; (split; [done|lia]).
Qed.

(** Two ALUs of latency 5: after two accesses in tick 10 a third one to another line goes
    through, and the access of tick 2 is forgotten. *)
Lemma alu_admission_witness :
  let a := mk 2 5 [mkRecord 64 10; mkRecord 0 10; mkRecord 128 2] in
  tryAccess (mkBlockSize 64 6) 10 a 200 = (true, mk 2 5 [mkRecord 64 10; mkRecord 0 10]).
Proof.
  intros a. rewrite (alu_admission _ 10 a 200); [vm_compute; reflexivity|vm_compute; congruence| |lia|
    vm_compute; split; congruence| |].
  - vm_compute. done.
  - repeat constructor; vm_compute; congruence.
  - repeat constructor; vm_compute; congruence.
Defined.

End ALUFreeListArray.
