(* ===== verification/CacheMemory.v ===== *)
(** * The cache of a controller

    [mem/ruby/structures/CacheMemory.cc] and [mem/ruby/slicc_interface/AbstractCacheEntry]:
    the set-associative cache in which a coherence controller keeps its lines, on top of a
    replacement policy and of the banks and ALUs of [CacheResources].  A cache owns its
    entries: [allocate] takes one over and [deallocate] deletes it, and the entries are kept
    as values at their set and way. *)

From S2P Require Import Prelude.
From S2P Require Import IntMath.
From S2P Require Import Bitfield.
From S2P Require Import RubyBlocks.
From S2P Require Import ReplacementPolicies.
From S2P Require Import CacheResources.

(** ** Enumerations of [RubySlicc_Exports.sm] *)

Inductive AccessPermission :=
| Read_Only | Read_Write | Maybe_Stale | Backing_Store | Backing_Store_Busy
| Invalid | NotPresent | Busy.

#[global] Instance AccessPermission_eq_dec : EqDecision AccessPermission.
Proof. solve_decision. Defined.

Inductive RubyRequestType :=
| LD | ST | ATOMIC | ATOMIC_RETURN | ATOMIC_NO_RETURN | IFETCH | IO | REPLACEMENT
| Load_Linked | Store_Conditional | RMW_Read | RMW_Write | Locked_RMW_Read | Locked_RMW_Write
| COMMIT | RequestNULL | FLUSH | Release | Acquire | AcquireRelease
| HTM_Start | HTM_Commit | HTM_Cancel | HTM_Abort
| TLBI | TLBI_SYNC | TLBI_EXT_SYNC | TLBI_EXT_SYNC_COMP.

#[global] Instance RubyRequestType_eq_dec : EqDecision RubyRequestType.
Proof. solve_decision. Defined.

Inductive CacheRequestType :=
| DataArrayRead | DataArrayWrite | TagArrayRead | TagArrayWrite | AtomicALUOperation.

Inductive CacheResourceType := DataArray | TagArray | AtomicALUArray.

(** ** Entries *)

Module AbstractCacheEntry.

(** [_set], [_way], [replacementData] and [validBlocks] have no value before they are set.
    [m_DataBlk] is what [getDataBlk] of the entry's class returns; [None] for a class that
    does not override it. *)
Record t := mk {
  _set : option Z;
  _way : option Z;
  replacementData : option Z;
  m_last_touch_tick : Z;
  validBlocks : option Z;
  m_Address : Z;
  m_locked : Z;
  m_Permission : AccessPermission;
  m_htmInReadSet : bool;
  m_htmInWriteSet : bool;
  m_DataBlk : option DataBlock.t;
}.

Definition make (blk : option DataBlock.t) : t :=
  mk None None None 0 None 0 (-1) NotPresent false false blk.

Definition with_Permission (e : t) (p : AccessPermission) : t :=
  mk (_set e) (_way e) (replacementData e) (m_last_touch_tick e) (validBlocks e) (m_Address e)
    (m_locked e) p (m_htmInReadSet e) (m_htmInWriteSet e) (m_DataBlk e).

Definition with_locked (e : t) (l : Z) : t :=
  mk (_set e) (_way e) (replacementData e) (m_last_touch_tick e) (validBlocks e) (m_Address e)
    l (m_Permission e) (m_htmInReadSet e) (m_htmInWriteSet e) (m_DataBlk e).

Definition changePermission (e : t) (new_perm : AccessPermission) : t :=
  let e := with_Permission e new_perm in
  if bool_decide (new_perm = Invalid) || bool_decide (new_perm = NotPresent)
  then with_locked e (-1) else e.

Definition setLocked (e : t) (context : Z) : t := with_locked e context.
Definition clearLocked (e : t) : t := with_locked e (-1).
Definition isLocked (e : t) (context : Z) : bool := m_locked e =? context.

Definition setLastAccess (e : t) (tick : Z) : t :=
  mk (_set e) (_way e) (replacementData e) tick (validBlocks e) (m_Address e) (m_locked e)
    (m_Permission e) (m_htmInReadSet e) (m_htmInWriteSet e) (m_DataBlk e).

(** [setInHtmReadSet(r)] and [setInHtmWriteSet(w)] *)
Definition setInHtm (e : t) (r w : bool) : t :=
  mk (_set e) (_way e) (replacementData e) (m_last_touch_tick e) (validBlocks e) (m_Address e)
    (m_locked e) (m_Permission e) r w (m_DataBlk e).

Definition getDataBlk (e : t) : result DataBlock.t :=
  match m_DataBlk e with Some b => Ok b | None => Err Panicked end.

Definition getNumValidBlocks (e : t) : result Z := determinate (validBlocks e).

End AbstractCacheEntry.
Import AbstractCacheEntry.

(** ** The cache *)

Module CacheMemory.
Section policy.
Context {S : Type} `{ReplacementPolicy S}.

Record stats := mkStats {
  numDataArrayReads : Z;
  numDataArrayWrites : Z;
  numTagArrayReads : Z;
  numTagArrayWrites : Z;
  numTagArrayStalls : Z;
  numDataArrayStalls : Z;
  numAtomicALUOperations : Z;
  numAtomicALUArrayStalls : Z;
  htmTransCommitReadSet : list Z;
  htmTransCommitWriteSet : list Z;
  htmTransAbortReadSet : list Z;
  htmTransAbortWriteSet : list Z;
  m_demand_hits : Z;
  m_demand_misses : Z;
  m_prefetch_hits : Z;
  m_prefetch_misses : Z;
}.

(** What does not change after [init]. *)
Record config := mkConfig {
  m_is_instruction_only_cache : bool;
  m_cache_size : Z;
  m_cache_num_sets : Z;
  m_cache_num_set_bits : Z;
  m_cache_assoc : Z;
  m_start_index_bit : Z;
  m_resource_stalls : bool;
  m_block_size : Z;
}.

(** [policy] is the state behind [m_replacementPolicy_ptr] and [replacement_data]. *)
Record t := mk {
  cfg : config;
  m_tag_index : gmap Z Z;
  m_cache : list (list (option AbstractCacheEntry.t));
  policy : S;
  replacement_data : list (list Z);
  dataArray : BankedArray.t;
  tagArray : BankedArray.t;
  atomicALUArray : ALUFreeListArray.t;
  cacheMemoryStats : stats;
}.

Definition with_policy (c : t) (p : S) : t :=
  mk (cfg c) (m_tag_index c) (m_cache c) p (replacement_data c) (dataArray c) (tagArray c)
    (atomicALUArray c) (cacheMemoryStats c).

Definition with_entries (c : t) (tags : gmap Z Z) (cache : list (list (option AbstractCacheEntry.t))) : t :=
  mk (cfg c) tags cache (policy c) (replacement_data c) (dataArray c) (tagArray c)
    (atomicALUArray c) (cacheMemoryStats c).

Definition with_arrays (c : t) (d g : BankedArray.t) (a : ALUFreeListArray.t) (s : stats) : t :=
  mk (cfg c) (m_tag_index c) (m_cache c) (policy c) (replacement_data c) d g a s.

Definition with_stats (c : t) (s : stats) : t :=
  with_arrays c (dataArray c) (tagArray c) (atomicALUArray c) s.

(** The parameters of [RubyCache] that the constructor reads. *)
Record Params := mkParams {
  p_size : Z;
  p_assoc : Z;
  p_start_index_bit : Z;
  p_is_icache : bool;
  p_resourceStalls : bool;
  p_block_size : Z;
  p_dataArrayBanks : Z;
  p_tagArrayBanks : Z;
  p_dataAccessLatency : Z;
  p_tagAccessLatency : Z;
  p_atomicALUs : Z;
  p_atomicLatency : Z;
}.

Definition no_stats : stats := mkStats 0 0 0 0 0 0 0 0 [] [] [] [] 0 0 0 0.

(** The constructor; [clockPeriod] is that of the Ruby system.  The fields [init] sets are 0. *)
Definition make (p : Params) (clockPeriod : Z) (replacement_policy : S) : t :=
  mk (mkConfig (p_is_icache p) (to_int (p_size p)) 0 0 (to_int (p_assoc p))
        (to_int (p_start_index_bit p)) (p_resourceStalls p) (to_int (p_block_size p)))
    ∅ [] replacement_policy []
    (BankedArray.make (p_dataArrayBanks p) (p_dataAccessLatency p) clockPeriod)
    (BankedArray.make (p_tagArrayBanks p) (p_tagAccessLatency p) clockPeriod)
    (ALUFreeListArray.make (p_atomicALUs p) (wrap64 (p_atomicLatency p * clockPeriod)))
    no_stats.

(** [assoc] calls of [instantiateEntry], and such calls for every set. *)
Fixpoint instantiate_row (assoc : nat) (p : S) : result (list Z * S) :=
  match assoc with
  | O => Ok ([], p)
  | Datatypes.S n =>
      '(i, p) ← instantiateEntry p;
      '(l, p) ← instantiate_row n p;
      Ok (i :: l, p)
  end.

Fixpoint instantiate_rows (sets assoc : nat) (p : S) : result (list (list Z) * S) :=
  match sets with
  | O => Ok ([], p)
  | Datatypes.S n =>
      '(row, p) ← instantiate_row assoc p;
      '(rows, p) ← instantiate_rows n assoc p;
      Ok (row :: rows, p)
  end.

(** [int] division truncates and is undefined for a divisor of zero. *)
Definition int_div (a b : Z) : result Z := if b =? 0 then Err Undefined else int_op (Z.quot a b).

Definition init (bs : block_size) (c : t) : result t :=
  let k := cfg c in
  let block := if m_block_size k =? 0 then to_int (m_block_size_bytes bs) else m_block_size k in
  per_way ← int_div (m_cache_size k) (m_cache_assoc k);
  sets ← int_div per_way block;
  _ ← assert (1 <? sets);
  bits ← floorLog2 4 sets;
  _ ← assert (0 <? bits);
  let n := Z.to_nat sets in
  let assoc := Z.to_nat (m_cache_assoc k) in
  '(data, p) ← instantiate_rows n assoc (policy c);
  Ok (mk (mkConfig (m_is_instruction_only_cache k) (m_cache_size k) sets bits (m_cache_assoc k)
            (m_start_index_bit k) (m_resource_stalls k) block)
        (m_tag_index c) (replicate n (replicate assoc None)) p data (dataArray c) (tagArray c)
        (atomicALUArray c) (cacheMemoryStats c)).

(** [m_cache[set][way]] *)
Definition slot (c : t) (set way : Z) : result (option AbstractCacheEntry.t) :=
  row ← vget (m_cache c) set; vget row way.

Definition set_slot (c : t) (tags : gmap Z Z) (set way : Z) (o : option AbstractCacheEntry.t)
    : result t :=
  cache ← vupd (m_cache c) set (λ row, vset row way o);
  Ok (with_entries c tags cache).

Section block.
Context (bs : block_size).

Definition is_line (address : Z) : bool := address =? Address.makeLineAddress bs address.

(** [m_start_index_bit + m_cache_num_set_bits - 1] is an [int], and [bitSelect] takes
    [unsigned]s. *)
Definition addressToCacheSet (c : t) (address : Z) : result Z :=
  _ ← assert (is_line address);
  let k := cfg c in
  Address.bitSelect address (wrap32 (m_start_index_bit k))
    (wrap32 (m_start_index_bit k + m_cache_num_set_bits k - 1)).

Definition findTagInSet (c : t) (cacheSet tag : Z) : result Z :=
  _ ← assert (is_line tag);
  match m_tag_index c !! tag with
  | None => Ok (-1)
  | Some way =>
      o ← slot c cacheSet way;
      e ← determinate o;
      if bool_decide (m_Permission e = NotPresent) then Ok (-1) else Ok way
  end.

Definition findTagInSetIgnorePermissions (c : t) (cacheSet tag : Z) : result Z :=
  _ ← assert (is_line tag);
  Ok (default (-1) (m_tag_index c !! tag)).

Definition lookup (c : t) (address : Z) : result (option AbstractCacheEntry.t) :=
  _ ← assert (is_line address);
  cacheSet ← addressToCacheSet c address;
  loc ← findTagInSet c cacheSet address;
  if loc =? -1 then Ok None else slot c cacheSet loc.

(** The entry a pointer points to is rewritten in its place. *)
Definition put (c : t) (e : AbstractCacheEntry.t) : result t :=
  set ← determinate (_set e);
  way ← determinate (_way e);
  set_slot c (m_tag_index c) set way (Some e).

(** [touch(entry->replacementData); entry->setLastAccess(curTick())] *)
Definition touch_entry (now : Z) (c : t) (e : AbstractCacheEntry.t) : result t :=
  d ← determinate (replacementData e);
  p ← touch now d (policy c);
  put (with_policy c p) (setLastAccess e now).

Definition getAddressAtIdx (c : t) (idx : Z) : result Z :=
  let assoc := m_cache_assoc (cfg c) in
  set ← int_div idx assoc;
  _ ← assert (set <? m_cache_num_sets (cfg c));
  let way := idx - set * assoc in
  _ ← assert (way <? assoc);
  o ← slot c set way;
  match o with
  | None => Ok 0
  | Some e =>
      if bool_decide (m_Permission e = Invalid) || bool_decide (m_Permission e = NotPresent)
      then Ok 0 else Ok (m_Address e)
  end.

(** Whether the access hits; the data block that [data_ptr] is set to. *)
Definition tryCacheAccess (now : Z) (c : t) (address : Z) (type : RubyRequestType)
    : result (bool * option DataBlock.t * t) :=
  o ← lookup c address;
  match o with
  | None => Ok (false, None, c)
  | Some e =>
      c ← touch_entry now c e;
      blk ← getDataBlk e;
      if bool_decide (m_Permission e = Read_Write) ||
         (bool_decide (m_Permission e = Read_Only) &&
          (bool_decide (type = LD) || bool_decide (type = IFETCH)))
      then Ok (true, Some blk, c) else Ok (false, None, c)
  end.

Definition testCacheAccess (now : Z) (c : t) (address : Z)
    : result (bool * option DataBlock.t * t) :=
  o ← lookup c address;
  match o with
  | None => Ok (false, None, c)
  | Some e =>
      c ← touch_entry now c e;
      blk ← getDataBlk e;
      Ok (bool_decide (m_Permission e ≠ NotPresent), Some blk, c)
  end.

Definition isTagPresent (c : t) (address : Z) : result bool :=
  o ← lookup c address; Ok (bool_decide (is_Some o)).

(** The slot is free for an address. *)
Definition unused (o : option AbstractCacheEntry.t) : bool :=
  match o with None => true | Some e => bool_decide (m_Permission e = NotPresent) end.

(** The loop of [cacheAvail]; [n] ways are left. *)
Fixpoint avail_from (c : t) (set address i : Z) (n : nat) : result bool :=
  match n with
  | O => Ok false
  | Datatypes.S n =>
      o ← slot c set i;
      match o with
      | None => Ok true
      | Some e =>
          if (m_Address e =? address) || bool_decide (m_Permission e = NotPresent) then Ok true
          else avail_from c set address (i + 1) n
      end
  end.

Definition cacheAvail (c : t) (address : Z) : result bool :=
  _ ← assert (is_line address);
  cacheSet ← addressToCacheSet c address;
  avail_from c cacheSet address 0 (Z.to_nat (m_cache_assoc (cfg c))).

(** The first open slot. *)
Fixpoint open_slot (c : t) (set i : Z) (n : nat) : result Z :=
  match n with
  | O => Err Panicked
  | Datatypes.S n =>
      o ← slot c set i;
      if unused o then Ok i else open_slot c set (i + 1) n
  end.

(** The entry once it is in the cache. *)
Definition placed (now address set way data : Z) (e : AbstractCacheEntry.t)
    : AbstractCacheEntry.t :=
  AbstractCacheEntry.mk (Some (wrap32 set)) (Some (wrap32 way)) (Some data) now (validBlocks e)
    address (-1) Invalid (m_htmInReadSet e) (m_htmInWriteSet e) (m_DataBlk e).

Definition allocate (now : Z) (c : t) (address : Z) (entry : AbstractCacheEntry.t)
    : result (AbstractCacheEntry.t * t) :=
  _ ← assert (is_line address);
  present ← isTagPresent c address;
  _ ← assert (negb present);
  avail ← cacheAvail c address;
  _ ← assert avail;
  cacheSet ← addressToCacheSet c address;
  i ← open_slot c cacheSet 0 (Z.to_nat (m_cache_assoc (cfg c)));
  row ← vget (replacement_data c) cacheSet;
  d ← vget row i;
  let e := placed now address cacheSet i d entry in
  c ← set_slot c (<[address := i]> (m_tag_index c)) cacheSet i (Some e);
  p ← reset now d (policy c);
  Ok (e, with_policy c p).

Definition allocateVoid (now : Z) (c : t) (address : Z) (entry : AbstractCacheEntry.t) : result t :=
  '(_, c) ← allocate now c address entry; Ok c.

Definition deallocate (now : Z) (c : t) (address : Z) : result t :=
  o ← lookup c address;
  _ ← assert (bool_decide (is_Some o));
  e ← determinate o;
  d ← determinate (replacementData e);
  p ← invalidate now d (policy c);
  cache_set ← determinate (_set e);
  way ← determinate (_way e);
  set_slot (with_policy c p) (delete address (m_tag_index c)) cache_set way None.

(** The data of the entries of a set: a candidate that is [NULL] is dereferenced. *)
Fixpoint candidates (row : list (option AbstractCacheEntry.t)) (n : nat) : result (list Z) :=
  match n, row with
  | O, _ => Ok []
  | _, [] => Err Undefined
  | Datatypes.S n, o :: row =>
      e ← determinate o;
      d ← determinate (replacementData e);
      l ← candidates row n;
      Ok (d :: l)
  end.

(** The address of the victim.  The method is [const], but the policy may change its data. *)
Definition cacheProbe (c : t) (address : Z) : result (Z * t) :=
  _ ← assert (is_line address);
  avail ← cacheAvail c address;
  _ ← assert (negb avail);
  cacheSet ← addressToCacheSet c address;
  row ← vget (m_cache c) cacheSet;
  cands ← candidates row (Z.to_nat (m_cache_assoc (cfg c)));
  '(v, p) ← getVictim cands (policy c);
  victim ← slot c cacheSet v;
  victim ← determinate victim;
  way ← determinate (_way victim);
  o ← slot c cacheSet way;
  e ← determinate o;
  Ok (m_Address e, with_policy c p).

(** [setMRU(address)], [setMRU(entry)] and [setMRU(address, occupancy)];
    [m_use_occupancy] is whether the policy has a [touch] with an occupancy. *)
Definition setMRU (now : Z) (c : t) (address : Z) : result t :=
  o ← lookup c (Address.makeLineAddress bs address);
  match o with Some e => touch_entry now c e | None => Ok c end.

Definition setMRU_entry (now : Z) (c : t) (entry : option AbstractCacheEntry.t) : result t :=
  _ ← assert (bool_decide (is_Some entry));
  e ← determinate entry;
  touch_entry now c e.

Definition setMRU_occupancy (now : Z) (c : t) (address occupancy : Z) : result t :=
  o ← lookup c (Address.makeLineAddress bs address);
  match o with
  | None => Ok c
  | Some e =>
      d ← determinate (replacementData e);
      p ← match touch_occupancy with
          | Some f => f now d occupancy (policy c)
          | None => touch now d (policy c)
          end;
      put (with_policy c p) (setLastAccess e now)
  end.

Definition getReplacementWeight (c : t) (set loc : Z) : result Z :=
  _ ← assert (set <? m_cache_num_sets (cfg c));
  _ ← assert (loc <? m_cache_assoc (cfg c));
  o ← slot c set loc;
  match o with
  | None => Ok 0
  | Some e =>
      ret ← getNumValidBlocks e;
      _ ← assert (0 <=? ret);
      Ok ret
  end.

(** *** Locks *)

Definition with_entry (c : t) (address : Z) (f : AbstractCacheEntry.t → AbstractCacheEntry.t) : result t :=
  o ← lookup c address;
  _ ← assert (bool_decide (is_Some o));
  e ← determinate o;
  put c (f e).

Definition setLocked (c : t) (address context : Z) : result t :=
  with_entry c address (λ e, AbstractCacheEntry.setLocked e context).

Definition clearLocked (c : t) (address : Z) : result t :=
  with_entry c address AbstractCacheEntry.clearLocked.

Definition isLocked (c : t) (address context : Z) : result bool :=
  o ← lookup c address;
  _ ← assert (bool_decide (is_Some o));
  e ← determinate o;
  Ok (AbstractCacheEntry.isLocked e context).

(** What a controller does through the pointer to an entry. *)
Definition changePermission (c : t) (address : Z) (p : AccessPermission) : result t :=
  with_entry c address (λ e, AbstractCacheEntry.changePermission e p).

End block.

(** The loops over all sets and ways that rewrite the entries. *)
Definition on_all (f : AbstractCacheEntry.t → AbstractCacheEntry.t) (c : t) : t :=
  with_entries c (m_tag_index c) (map (map (option_map f)) (m_cache c)).

Definition clearLockedAll (context : Z) (c : t) : t :=
  on_all (λ e, if AbstractCacheEntry.isLocked e context then AbstractCacheEntry.clearLocked e else e) c.

Definition entries (c : t) : list AbstractCacheEntry.t := omap id (concat (m_cache c)).

(** The entries of the read set or of the write set of a transaction. *)
Definition htm_size (inSet : AbstractCacheEntry.t → bool) (c : t) : Z :=
  wrap64 (sum_over (λ e, if inSet e then 1 else 0) (entries c)).

Definition end_transaction (e : AbstractCacheEntry.t) : AbstractCacheEntry.t :=
  AbstractCacheEntry.clearLocked (setInHtm e false false).

(** [invalidateEntry] is that of the entry's class. *)
Definition htmAbortTransaction (invalidateEntry : AbstractCacheEntry.t → AbstractCacheEntry.t) (c : t) : t :=
  let s := cacheMemoryStats c in
  with_stats
    (on_all (λ e, end_transaction (if m_htmInWriteSet e then invalidateEntry e else e)) c)
    (mkStats (numDataArrayReads s) (numDataArrayWrites s) (numTagArrayReads s)
       (numTagArrayWrites s) (numTagArrayStalls s) (numDataArrayStalls s)
       (numAtomicALUOperations s) (numAtomicALUArrayStalls s) (htmTransCommitReadSet s)
       (htmTransCommitWriteSet s) (htmTransAbortReadSet s ++ [htm_size m_htmInReadSet c])
       (htmTransAbortWriteSet s ++ [htm_size m_htmInWriteSet c]) (m_demand_hits s)
       (m_demand_misses s) (m_prefetch_hits s) (m_prefetch_misses s)).

Definition htmCommitTransaction (c : t) : t :=
  let s := cacheMemoryStats c in
  with_stats (on_all end_transaction c)
    (mkStats (numDataArrayReads s) (numDataArrayWrites s) (numTagArrayReads s)
       (numTagArrayWrites s) (numTagArrayStalls s) (numDataArrayStalls s)
       (numAtomicALUOperations s) (numAtomicALUArrayStalls s)
       (htmTransCommitReadSet s ++ [htm_size m_htmInReadSet c])
       (htmTransCommitWriteSet s ++ [htm_size m_htmInWriteSet c]) (htmTransAbortReadSet s)
       (htmTransAbortWriteSet s) (m_demand_hits s) (m_demand_misses s) (m_prefetch_hits s)
       (m_prefetch_misses s)).

(** *** Banks and ALUs *)

(** The counters of accesses and stalls with one incremented. *)
Definition count_request (r : CacheRequestType) (s : stats) : stats :=
  let one r' := match r, r' with
    | DataArrayRead, DataArrayRead | DataArrayWrite, DataArrayWrite
    | TagArrayRead, TagArrayRead | TagArrayWrite, TagArrayWrite
    | AtomicALUOperation, AtomicALUOperation => 1 | _, _ => 0 end in
  mkStats (numDataArrayReads s + one DataArrayRead) (numDataArrayWrites s + one DataArrayWrite)
    (numTagArrayReads s + one TagArrayRead) (numTagArrayWrites s + one TagArrayWrite)
    (numTagArrayStalls s) (numDataArrayStalls s)
    (numAtomicALUOperations s + one AtomicALUOperation) (numAtomicALUArrayStalls s)
    (htmTransCommitReadSet s) (htmTransCommitWriteSet s) (htmTransAbortReadSet s)
    (htmTransAbortWriteSet s) (m_demand_hits s) (m_demand_misses s) (m_prefetch_hits s)
    (m_prefetch_misses s).

Definition count_stall (r : CacheResourceType) (s : stats) : stats :=
  let one r' := match r, r' with
    | DataArray, DataArray | TagArray, TagArray | AtomicALUArray, AtomicALUArray => 1
    | _, _ => 0 end in
  mkStats (numDataArrayReads s) (numDataArrayWrites s) (numTagArrayReads s)
    (numTagArrayWrites s) (numTagArrayStalls s + one TagArray)
    (numDataArrayStalls s + one DataArray) (numAtomicALUOperations s)
    (numAtomicALUArrayStalls s + one AtomicALUArray)
    (htmTransCommitReadSet s) (htmTransCommitWriteSet s) (htmTransAbortReadSet s)
    (htmTransAbortWriteSet s) (m_demand_hits s) (m_demand_misses s) (m_prefetch_hits s)
    (m_prefetch_misses s).

Definition recordRequestType (bs : block_size) (now : Z) (c : t) (requestType : CacheRequestType)
    (addr : Z) : result t :=
  let s := count_request requestType (cacheMemoryStats c) in
  if m_resource_stalls (cfg c) then
    match requestType with
    | DataArrayRead | DataArrayWrite =>
        set ← addressToCacheSet bs c addr;
        d ← BankedArray.reserve now (dataArray c) set;
        Ok (with_arrays c d (tagArray c) (atomicALUArray c) s)
    | TagArrayRead | TagArrayWrite =>
        set ← addressToCacheSet bs c addr;
        g ← BankedArray.reserve now (tagArray c) set;
        Ok (with_arrays c (dataArray c) g (atomicALUArray c) s)
    | AtomicALUOperation =>
        Ok (with_arrays c (dataArray c) (tagArray c)
              (ALUFreeListArray.reserve bs now (atomicALUArray c) addr) s)
    end
  else Ok (with_stats c s).

Definition checkResourceAvailable (bs : block_size) (now : Z) (c : t) (res : CacheResourceType)
    (addr : Z) : result (bool * t) :=
  if m_resource_stalls (cfg c) then
    '(ok, c) ←
      match res with
      | TagArray =>
          set ← addressToCacheSet bs c addr;
          ok ← BankedArray.tryAccess now (tagArray c) set;
          Ok (ok, c)
      | DataArray =>
          set ← addressToCacheSet bs c addr;
          ok ← BankedArray.tryAccess now (dataArray c) set;
          Ok (ok, c)
      | AtomicALUArray =>
          let '(ok, a) := ALUFreeListArray.tryAccess bs now (atomicALUArray c) addr in
          Ok (ok, with_arrays c (dataArray c) (tagArray c) a (cacheMemoryStats c))
      end;
    if (ok : bool) then Ok (true, c)
    else Ok (false, with_stats c (count_stall res (cacheMemoryStats c)))
  else Ok (true, c).

Definition isBlockInvalid (c : t) (cache_set loc : Z) : result bool :=
  o ← slot c cache_set loc; e ← determinate o; Ok (bool_decide (m_Permission e = Invalid)).

Definition isBlockNotBusy (c : t) (cache_set loc : Z) : result bool :=
  o ← slot c cache_set loc; e ← determinate o; Ok (bool_decide (m_Permission e ≠ Busy)).

(** *** The contents for a checkpoint *)

(** A record of [CacheRecorder]: controller, time, data address, pc address, type, data. *)
Record TraceRecord := mkTraceRecord {
  m_cntrl_id : Z;
  m_time : Z;
  m_data_address : Z;
  m_pc_address : Z;
  m_type : RubyRequestType;
  m_data : list Z;
}.

(** [CacheRecorder::addRecord]; [n] is the recorder's [m_block_size_bytes]. *)
Definition addRecord (bs : block_size) (n : Z) (tr : list TraceRecord) (cntrl data_addr pc_addr : Z)
    (type : RubyRequestType) (time : Z) (data : DataBlock.t) : result (list TraceRecord) :=
  p ← DataBlock.getData bs data 0 n;
  bytes ← copy_bytes p n;
  Ok (tr ++ [mkTraceRecord cntrl time data_addr pc_addr type bytes]).

(** The request that brings a line back with its permission. *)
Definition request_type (icache : bool) (perm : AccessPermission) : option RubyRequestType :=
  match perm with
  | Read_Only => Some (if icache then IFETCH else LD)
  | Read_Write => Some ST
  | _ => None
  end.

Definition record_entry (bs : block_size) (n cntrl : Z) (c : t) (o : option AbstractCacheEntry.t)
    (tr : list TraceRecord) : result (list TraceRecord) :=
  match o with
  | None => Ok tr
  | Some e =>
      match request_type (m_is_instruction_only_cache (cfg c)) (m_Permission e) with
      | None => Ok tr
      | Some type =>
          blk ← getDataBlk e;
          addRecord bs n tr cntrl (m_Address e) 0 type (m_last_touch_tick e) blk
      end
  end.

Definition recordCacheContents (bs : block_size) (n cntrl : Z) (c : t) (tr : list TraceRecord)
    : result (list TraceRecord) :=
  for_range 0 (Z.to_nat (m_cache_num_sets (cfg c)))
    (λ i tr,
       for_range 0 (Z.to_nat (m_cache_assoc (cfg c)))
         (λ j tr, o ← slot c i j; record_entry bs n cntrl c o tr) tr) tr.

(** *** Profiling *)

Definition profile (dh dm ph pm : Z) (c : t) : t :=
  let s := cacheMemoryStats c in
  with_stats c
    (mkStats (numDataArrayReads s) (numDataArrayWrites s) (numTagArrayReads s)
       (numTagArrayWrites s) (numTagArrayStalls s) (numDataArrayStalls s)
       (numAtomicALUOperations s) (numAtomicALUArrayStalls s) (htmTransCommitReadSet s)
       (htmTransCommitWriteSet s) (htmTransAbortReadSet s) (htmTransAbortWriteSet s)
       (m_demand_hits s + dh) (m_demand_misses s + dm) (m_prefetch_hits s + ph)
       (m_prefetch_misses s + pm)).

Definition profileDemandHit : t → t := profile 1 0 0 0.
Definition profileDemandMiss : t → t := profile 0 1 0 0.
Definition profilePrefetchHit : t → t := profile 0 0 1 0.
Definition profilePrefetchMiss : t → t := profile 0 0 0 1.

Definition getCacheSize (c : t) : Z := m_cache_size (cfg c).
Definition getCacheAssoc (c : t) : Z := m_cache_assoc (cfg c).
Definition getNumBlocks (c : t) : result Z :=
  int_op (m_cache_num_sets (cfg c) * m_cache_assoc (cfg c)).
Definition getTagLatency (c : t) : Z := BankedArray.getLatency (tagArray c).
Definition getDataLatency (c : t) : Z := BankedArray.getLatency (dataArray c).

End policy.
Arguments t : clear implicits.
End CacheMemory.
