(* ===== verification/CacheFacts.v ===== *)
(** * The cache as a finite map

    Whatever its replacement policy, a cache implements a finite map from line addresses to
    entries in which every set has room for as many addresses as there are ways. *)

From S2P Require Import Prelude.
From S2P Require Import IntMath.
From S2P Require Import Bitfield.
From S2P Require Import RubyBlocks.
From S2P Require Import RubyBlockFacts.
From S2P Require Import ReplacementPolicies.
From S2P Require Import ReplacementFacts.
From S2P Require Import CacheResources.
From S2P Require Import CacheMemory.
Import AbstractCacheEntry CacheMemory.

(** ** Places of the cache *)

Definition cell {S} (c : t S) (s w : Z) : option (option AbstractCacheEntry.t) :=
  zlookup (m_cache c) s ≫= λ row, zlookup row w.

(** The set of a line address. *)
Definition set_of (k : config) (a : Z) : Z :=
  (a / 2 ^ m_start_index_bit k) mod 2 ^ m_cache_num_set_bits k.

Record config_ok (k : config) : Prop := {
  co_start : 0 ≤ m_start_index_bit k;
  co_bits : 0 < m_cache_num_set_bits k < 32;
  co_word : m_start_index_bit k + m_cache_num_set_bits k ≤ 64;
  co_sets : 2 ^ m_cache_num_set_bits k ≤ m_cache_num_sets k < 2 ^ 31;
  co_assoc : 0 < m_cache_assoc k < 2 ^ 31;
}.

Section cache.
Context {S : Type} `{PolicyLaws S} (bs : block_size).

Implicit Types (c : t S) (M : gmap Z AbstractCacheEntry.t) (e : AbstractCacheEntry.t) (a s w : Z).

(** The entry at set [s] and way [w]. *)
Record entry_ok (c : t S) (s w : Z) (e : AbstractCacheEntry.t) : Prop := {
  eo_line : is_line bs (m_Address e) = true;
  eo_set_of : set_of (cfg c) (m_Address e) = s;
  eo_set : _set e = Some s;
  eo_way : _way e = Some w;
  eo_data : (zlookup (replacement_data c) s ≫= λ row, zlookup row w) = replacementData e;
  eo_present : m_Permission e ≠ NotPresent;
}.

Record data_ok (c : t S) : Prop := {
  do_policy : rp_ok (policy c);
  do_sets : zlen (replacement_data c) = m_cache_num_sets (cfg c);
  do_rows : Forall (λ row, zlen row = m_cache_assoc (cfg c) ∧ rp_group (policy c) row ∧
    Forall (λ i, 0 ≤ i < rp_count (policy c)) row) (replacement_data c);
}.

(** The invariant of a cache: no entry is [NotPresent], every entry is in the set of its
    address and knows its place, and the index has exactly the addresses of the entries. *)
Record cache_ok (c : t S) : Prop := {
  ok_config : config_ok (cfg c);
  ok_sets : zlen (m_cache c) = m_cache_num_sets (cfg c);
  ok_ways : Forall (λ row, zlen row = m_cache_assoc (cfg c)) (m_cache c);
  ok_data : data_ok c;
  ok_entry : ∀ s w e, cell c s w = Some (Some e) → entry_ok c s w e;
  ok_tags : ∀ a w, m_tag_index c !! a = Some w ↔
    ∃ e, cell c (set_of (cfg c) a) w = Some (Some e) ∧ m_Address e = a;
}.

(** The map a cache stands for. *)
Definition represents (c : t S) (M : gmap Z AbstractCacheEntry.t) : Prop :=
  ∀ a e, M !! a = Some e ↔ ∃ s w, cell c s w = Some (Some e) ∧ m_Address e = a.

(** The addresses of a map that share the set of [a]. *)
Definition in_set (k : config) (a : Z) (M : gmap Z AbstractCacheEntry.t) : gmap Z AbstractCacheEntry.t :=
  filter (λ p, set_of k p.1 = set_of k a) M.

Definition room (k : config) (a : Z) (M : gmap Z AbstractCacheEntry.t) : Prop :=
  is_Some (M !! a) ∨ Z.of_nat (size (in_set k a M)) < m_cache_assoc k.

#[global] Instance room_dec k a M : Decision (room k a M).
Proof. unfold room. apply _. Defined.

(** ** Sets and slots *)

Lemma addressToCacheSet_eq c a :
  config_ok (cfg c) → is_line bs a = true →
  addressToCacheSet bs c a = Ok (set_of (cfg c) a) ∧
  0 ≤ set_of (cfg c) a < m_cache_num_sets (cfg c).
Proof.
  intros [H1 H2 H3 H4 H5] Ha. unfold addressToCacheSet, Address.bitSelect, bits, set_of.
  rewrite Ha. cbn [assert rbind].
  set (st := m_start_index_bit (cfg c)) in *. set (b := m_cache_num_set_bits (cfg c)) in *.
  unfold wrap32. rewrite !(Z.mod_small _ (2 ^ 32)) by lia.
  rewrite (proj2 (Z.leb_le _ _)) by lia. cbn [assert rbind].
  replace (st + b - 1 - st + 1) with b by lia.
  rewrite mask_ones, Z.min_l, Z.land_ones, Z.shiftr_div_pow2 by lia.
  split; [done|]. pose proof (Z.mod_pos_bound (a / 2 ^ st) (2 ^ b) ltac:(apply Z.pow_pos_nonneg; lia)).
  lia.
Qed.

Lemma slot_cell c s w o : slot c s w = Ok o ↔ cell c s w = Some o.
Proof.
  unfold slot, cell, vget. destruct (zlookup (m_cache c) s) as [row|]; cbn; [|by split].
  destruct (zlookup row w); cbn; split; by intros [= ->].
Qed.

Lemma row_of c s :
  cache_ok c → 0 ≤ s < m_cache_num_sets (cfg c) →
  ∃ row, zlookup (m_cache c) s = Some row ∧ zlen row = m_cache_assoc (cfg c).
Proof.
  intros Ho Hs. destruct (zlookup_is_Some (m_cache c) s) as [row Hr]; [by rewrite (ok_sets _ Ho)|].
  exists row. split; [done|]. exact (Forall_zlookup _ _ _ _ (ok_ways _ Ho) Hr).
Qed.

(** A slot is replaced and nothing else. *)
Lemma set_slot_spec c tags s w o o0 :
  Forall (λ row, zlen row = m_cache_assoc (cfg c)) (m_cache c) →
  cell c s w = Some o0 →
  ∃ cache, set_slot c tags s w o = Ok (with_entries c tags cache) ∧
    zlen cache = zlen (m_cache c) ∧
    Forall (λ row, zlen row = m_cache_assoc (cfg c)) cache ∧
    ∀ s' w', cell (with_entries c tags cache) s' w' =
      if decide (s' = s ∧ w' = w) then Some o else cell c s' w'.
Proof.
  intros Hw Hc. unfold cell in Hc. destruct (zlookup (m_cache c) s) as [row|] eqn:Hr; [|done].
  cbn in Hc. unfold set_slot. apply zlookup_lt in Hr as Hs, Hc as Hw'.
  rewrite (vupd_intro _ _ _ row (<[Z.to_nat w := o]> row)) by (done || by apply vset_intro).
  cbn [rbind]. eexists. split; [done|]. split_and!.
  - apply zlen_insert.
  - apply Forall_insert; [done|]. rewrite zlen_insert. exact (Forall_zlookup _ _ _ _ Hw Hr).
  - intros s' w'. unfold cell. cbn [with_entries m_cache]. rewrite zlookup_insert by done.
    destruct (decide (s = s')) as [<-|Hne].
    + cbn [mbind option_bind]. rewrite zlookup_insert by done. rewrite Hr. cbn [mbind option_bind].
      destruct (decide (w = w')) as [<-|]; [by rewrite decide_True by done|].
      rewrite decide_False by naive_solver. done.
    + by rewrite decide_False by naive_solver.
Qed.

(** ** Lookups *)

Lemma represented c M a e :
  cache_ok c → represents c M → M !! a = Some e →
  ∃ w, cell c (set_of (cfg c) a) w = Some (Some e) ∧ m_Address e = a ∧
    m_tag_index c !! a = Some w ∧ entry_ok c (set_of (cfg c) a) w e.
Proof.
  intros Ho Hr (s & w & Hc & <-)%Hr. pose proof (ok_entry _ Ho _ _ _ Hc) as He.
  pose proof (eo_set_of _ _ _ _ He) as <-. exists w. split_and!; [done|done| |done].
  apply (ok_tags _ Ho). by exists e.
Qed.

Lemma not_represented c M a :
  cache_ok c → represents c M → M !! a = None → m_tag_index c !! a = None.
Proof.
  intros Ho Hr Hn. destruct (m_tag_index c !! a) as [w|] eqn:E; [|done].
  apply (ok_tags _ Ho) in E as (e & Hc & <-).
  assert (M !! m_Address e = Some e) as Hs by (apply Hr; eauto). congruence.
Qed.

Lemma lookup_spec c M a :
  cache_ok c → represents c M → is_line bs a = true → lookup bs c a = Ok (M !! a).
Proof.
  intros Ho Hr Ha. unfold lookup, findTagInSet.
  destruct (addressToCacheSet_eq c a (ok_config _ Ho) Ha) as [-> _]. rewrite Ha.
  cbn [assert rbind]. destruct (M !! a) as [e|] eqn:E.
  - destruct (represented _ _ _ _ Ho Hr E) as (w & Hc & _ & -> & He).
    apply slot_cell in Hc as Hs. rewrite Hs. cbn [rbind determinate].
    rewrite bool_decide_eq_false_2 by apply He. cbn [rbind].
    unfold cell in Hc. destruct (zlookup (m_cache c) _) as [row|]; [|done].
    cbn in Hc. apply zlookup_lt in Hc. rewrite (proj2 (Z.eqb_neq w (-1))) by lia. done.
  - by rewrite (not_represented _ _ _ Ho Hr E).
Qed.

(** ** Changes that keep the invariant *)

Lemma with_policy_ok c M p :
  cache_ok c → represents c M → rp_ok p → rp_count p = rp_count (policy c) →
  (∀ g, rp_group (policy c) g → rp_group p g) →
  cache_ok (with_policy c p) ∧ represents (with_policy c p) M.
Proof.
  intros Ho Hr Hp Hc Hg. split; [|exact Hr]. destruct Ho as [H1 H2 H3 [H4 H5 H6] H7 H8].
  split; [done|done|done| | |exact H8].
  - split; [done|done|]. cbn [policy with_policy cfg replacement_data]. rewrite Hc.
    eapply Forall_impl; [exact H6|]. intros row (? & ? & ?). auto.
  - intros s w e Hce. destruct (H7 s w e Hce). by split.
Qed.

(** An entry is rewritten in its place. *)
Lemma put_spec c M a e e' :
  cache_ok c → represents c M → M !! a = Some e →
  _set e' = _set e → _way e' = _way e → replacementData e' = replacementData e →
  m_Address e' = a → m_Permission e' ≠ NotPresent →
  ∃ c', put c e' = Ok c' ∧ cache_ok c' ∧ represents c' (<[a := e']> M) ∧ cfg c' = cfg c.
Proof.
  intros Ho Hr Hm E1 E2 E3 E4 Hp.
  destruct (represented _ _ _ _ Ho Hr Hm) as (w & Hc & Ha & Ht & He).
  set (s := set_of (cfg c) a) in *. unfold put. rewrite E1, E2, (eo_set _ _ _ _ He), (eo_way _ _ _ _ He).
  cbn [determinate rbind].
  destruct (set_slot_spec c (m_tag_index c) s w (Some e') _ (ok_ways _ Ho) Hc) as (cache & -> & Hl & Hw & Hce).
  eexists. split; [done|]. split_and!; [| |done].
  - destruct Ho as [H1 H2 H3 H4 H7 H8]. split; [done|by cbn; rewrite Hl|done|by destruct H4| |].
    + intros s' w' e0. rewrite Hce. destruct (decide _) as [[-> ->]|_].
      * intros [= <-]. destruct He. split; cbn in *; congruence.
      * intros Hx. destruct (H7 _ _ _ Hx). by split.
    + intros a' w'. cbn [cfg with_entries m_tag_index]. rewrite H8. split.
      * intros (e0 & Hx & Hxa). rewrite Hce. destruct (decide _) as [[Es ->]|_]; [|by exists e0].
        exists e'. split; [done|]. rewrite Es, Hc in Hx. congruence.
      * intros (e0 & Hx & Hxa). rewrite Hce in Hx. destruct (decide _) as [[Es ->]|_]; [|by exists e0].
        exists e. rewrite Es. split; [done|]. congruence.
  - intros a' e0. rewrite lookup_insert_Some. split.
    + intros [[<- <-]|[Hne Hx]].
      * exists s, w. split; [|done]. rewrite Hce. by rewrite decide_True.
      * destruct (represented _ _ _ _ Ho Hr Hx) as (w' & Hx' & Hxa & _). exists (set_of (cfg c) a'), w'.
        split; [|done]. rewrite Hce, decide_False; [done|]. intros [Es ->]. rewrite Es in Hx'. congruence.
    + intros (s' & w' & Hx & Hxa). rewrite Hce in Hx. destruct (decide _) as [[-> ->]|Hd].
      * left. split; congruence.
      * right. split; [|by apply Hr; eauto]. intros <-. apply Hd.
        pose proof (ok_entry _ Ho _ _ _ Hx) as He0. pose proof (eo_set_of _ _ _ _ He0) as Es.
        rewrite Hxa in Es. split; [done|].
        assert (m_tag_index c !! a = Some w') as Ht'
          by (apply (ok_tags _ Ho); exists e0; fold s; unfold s; rewrite Es; done).
        congruence.
Qed.

(** A new entry goes into a free slot of the set of its address. *)
Lemma place_spec c M a w e :
  cache_ok c → represents c M → M !! a = None → m_Address e = a →
  cell c (set_of (cfg c) a) w = Some None → entry_ok c (set_of (cfg c) a) w e →
  ∃ c', set_slot c (<[a := w]> (m_tag_index c)) (set_of (cfg c) a) w (Some e) = Ok c' ∧
    cache_ok c' ∧ represents c' (<[a := e]> M) ∧ cfg c' = cfg c ∧ policy c' = policy c.
Proof.
  intros Ho Hr Hm Ea Hc He. set (s := set_of (cfg c) a) in *.
  destruct (set_slot_spec c (<[a := w]> (m_tag_index c)) s w (Some e) _ (ok_ways _ Ho) Hc)
    as (cache & -> & Hl & Hw & Hce).
  eexists. split; [done|]. split_and!; [| |done|done].
  - destruct Ho as [H1 H2 H3 H4 H7 H8]. split; [done|by cbn; rewrite Hl|done|by destruct H4| |].
    + intros s' w' e0. rewrite Hce. destruct (decide _) as [[-> ->]|_].
      * intros [= <-]. by destruct He.
      * intros Hx. destruct (H7 _ _ _ Hx). by split.
    + intros a' w'. cbn [cfg with_entries m_tag_index]. rewrite lookup_insert_Some, Hce. split.
      * intros [[<- <-]|[Hne Hx]].
        -- exists e. rewrite decide_True by done. done.
        -- apply H8 in Hx as (e0 & Hx & Hxa). exists e0. split; [|done].
           rewrite decide_False; [done|]. intros [Es ->]. rewrite Es in Hx. congruence.
      * intros (e0 & Hx & Hxa). destruct (decide _) as [[Es ->]|Hd].
        -- left. split; congruence.
        -- right. split; [|apply H8; by exists e0]. intros <-.
           assert (M !! a = Some e0) by (apply Hr; eauto). congruence.
  - intros a' e0. rewrite lookup_insert_Some. split.
    + intros [[<- <-]|[Hne Hx]].
      * exists s, w. split; [|done]. rewrite Hce. by rewrite decide_True.
      * apply Hr in Hx as (s' & w' & Hx & Hxa). exists s', w'. split; [|done].
        rewrite Hce, decide_False; [done|]. intros [-> ->]. congruence.
    + intros (s' & w' & Hx & Hxa). rewrite Hce in Hx. destruct (decide _) as [[-> ->]|Hd].
      * left. split; congruence.
      * right. assert (M !! a' = Some e0) by (apply Hr; eauto). split; [|done]. congruence.
Qed.

(** The entry of an address is taken out. *)
Lemma remove_entry_spec c M a w e :
  cache_ok c → represents c M → M !! a = Some e →
  cell c (set_of (cfg c) a) w = Some (Some e) →
  ∃ c', set_slot c (delete a (m_tag_index c)) (set_of (cfg c) a) w None = Ok c' ∧
    cache_ok c' ∧ represents c' (delete a M) ∧ cfg c' = cfg c.
Proof.
  intros Ho Hr Hm Hc. set (s := set_of (cfg c) a) in *.
  destruct (represented _ _ _ _ Ho Hr Hm) as (w0 & _ & Ha & Ht & _).
  assert (m_tag_index c !! a = Some w) as Hw by (apply (ok_tags _ Ho); by exists e).
  assert (w0 = w) as -> by congruence. clear Hw.
  destruct (set_slot_spec c (delete a (m_tag_index c)) s w None _ (ok_ways _ Ho) Hc)
    as (cache & -> & Hl & Hw & Hce).
  assert (Huniq : ∀ s' w' e0, cell c s' w' = Some (Some e0) → m_Address e0 = a → s' = s ∧ w' = w).
  { intros s' w' e0 Hx Hxa. pose proof (eo_set_of _ _ _ _ (ok_entry _ Ho _ _ _ Hx)) as Es.
    rewrite Hxa in Es. split; [done|]. rewrite <- Es in Hx.
    assert (m_tag_index c !! a = Some w') by (apply (ok_tags _ Ho); by exists e0). congruence. }
  eexists. split; [done|]. split_and!; [| |done].
  - destruct Ho as [H1 H2 H3 H4 H7 H8]. split; [done|by cbn; rewrite Hl|done|by destruct H4| |].
    + intros s' w' e0. rewrite Hce. destruct (decide _) as [|_]; [done|].
      intros Hx. destruct (H7 _ _ _ Hx). by split.
    + intros a' w'. cbn [cfg with_entries m_tag_index]. rewrite lookup_delete_Some, H8, Hce. split.
      * intros [Hne (e0 & Hx & Hxa)]. exists e0. split; [|done].
        rewrite decide_False; [done|]. intros [Es ->]. rewrite Es in Hx. congruence.
      * intros (e0 & Hx & Hxa). destruct (decide _) as [|Hd]; [done|].
        split; [|by exists e0]. intros <-. by destruct Hd; apply (Huniq _ _ e0).
  - intros a' e0. rewrite lookup_delete_Some. split.
    + intros [Hne (s' & w' & Hx & Hxa)%Hr]. exists s', w'. split; [|done].
      rewrite Hce, decide_False; [done|]. intros [-> ->]. congruence.
    + intros (s' & w' & Hx & Hxa). rewrite Hce in Hx. destruct (decide _) as [|Hd]; [done|].
      split; [|by apply Hr; eauto]. intros <-. by destruct Hd; apply (Huniq _ _ e0).
Qed.

(** ** Scans of a set *)

(** What stops the loop of [cacheAvail]. *)
Definition serves (a : Z) (o : option AbstractCacheEntry.t) : bool :=
  match o with
  | None => true
  | Some e => (m_Address e =? a) || bool_decide (m_Permission e = NotPresent)
  end.

Lemma slot_row c s row i :
  zlookup (m_cache c) s = Some row → slot c s i = vget row i.
Proof. intros Hr. unfold slot. by rewrite (vget_intro _ _ _ Hr). Qed.

Lemma vget_drop {A} (l : list A) (i n : nat) x tl :
  drop i l = x :: tl → vget l (Z.of_nat i) = Ok x ∧ drop (Datatypes.S i) l = tl.
Proof.
  intros Hd. split.
  - apply vget_intro, zlookup_Some. split; [lia|]. rewrite Nat2Z.id.
    rewrite <- (Nat.add_0_r i), <- lookup_drop, Hd. done.
  - change (Datatypes.S i) with (1 + i)%nat. rewrite Nat.add_comm, <- drop_drop, Hd. done.
Qed.

Lemma avail_from_spec c s a row i n :
  zlookup (m_cache c) s = Some row → (i + n = length row)%nat →
  avail_from c s a (Z.of_nat i) n = Ok (existsb (serves a) (drop i row)).
Proof.
  intros Hr. revert i. induction n as [|n IH]; intros i Hn; cbn [avail_from].
  - rewrite drop_ge by lia. done.
  - destruct (drop i row) as [|o tl] eqn:Hd.
    { apply (f_equal length) in Hd. rewrite length_drop in Hd. cbn in Hd. lia. }
    destruct (vget_drop row i n o tl Hd) as [Hg Ht]. rewrite (slot_row _ _ _ _ Hr), Hg. cbn [rbind existsb].
    destruct o as [e|]; [|done]. cbn [serves]. destruct (_ || _); [done|].
    replace (Z.of_nat i + 1) with (Z.of_nat (Datatypes.S i)) by lia.
    rewrite IH by lia. by rewrite Ht.
Qed.

Lemma open_slot_spec c s row i n :
  zlookup (m_cache c) s = Some row → (i + n = length row)%nat →
  existsb unused (drop i row) = true →
  ∃ j o, open_slot c s (Z.of_nat i) n = Ok j ∧ zlookup row j = Some o ∧ unused o = true.
Proof.
  intros Hr. revert i. induction n as [|n IH]; intros i Hn; cbn [open_slot].
  - rewrite drop_ge by lia. done.
  - destruct (drop i row) as [|o tl] eqn:Hd; [done|].
    destruct (vget_drop row i n o tl Hd) as [Hg Ht]. rewrite (slot_row _ _ _ _ Hr), Hg. cbn [rbind existsb].
    destruct (unused o) eqn:Hu.
    + intros _. exists (Z.of_nat i), o. split_and!; [done|by apply vget_Ok|done].
    + cbn [orb]. intros He. rewrite <- Ht in He.
      replace (Z.of_nat i + 1) with (Z.of_nat (Datatypes.S i)) by lia. apply IH; [lia|done].
Qed.

Lemma candidates_spec row data :
  Forall2 (λ o d, ∃ e, o = Some e ∧ replacementData e = Some d) row data →
  candidates row (length row) = Ok data.
Proof.
  induction 1 as [|o d row data (e & -> & Hd) _ IH]; [done|].
  cbn [candidates length determinate rbind]. rewrite Hd. cbn [determinate rbind]. by rewrite IH.
Qed.

End cache.
