(* ===== verification/CacheRefinement.v ===== *)
(** * The operations of a cache on the map it stands for *)

From S2P Require Import Prelude.
From S2P Require Import IntMath.
From S2P Require Import Bitfield.
From S2P Require Import RubyBlocks.
From S2P Require Import RubyBlockFacts.
From S2P Require Import ReplacementPolicies.
From S2P Require Import ReplacementFacts.
From S2P Require Import CacheResources.
From S2P Require Import CacheMemory.
From S2P Require Import CacheFacts.
Import AbstractCacheEntry CacheMemory.

(** ** Lists of optional elements *)

Lemma omap_length_le {A B} (f : A → B) (l : list (option A)) :
  (length (omap (fmap f) l) ≤ length l)%nat.
Proof. induction l as [|[x|] l IH]; cbn in *; lia. Qed.

Lemma omap_length_lt {A B} (f : A → B) (l : list (option A)) :
  None ∈ l → (length (omap (fmap f) l) < length l)%nat.
Proof.
  induction l as [|[x|] l IH]; intros Hn.
  - by apply not_elem_of_nil in Hn.
  - apply elem_of_cons in Hn as [?|Hn]; [done|]. specialize (IH Hn). cbn in *. lia.
  - pose proof (omap_length_le f l). cbn in *. lia.
Qed.

Lemma None_or_all_Some {A} (l : list (option A)) : None ∈ l ∨ ∃ l', l = Some <$> l'.
Proof.
  induction l as [|[x|] l [IH|[l' ->]]]; [right; by exists []|left; set_solver| |left; set_solver..].
  right. by exists (x :: l').
Qed.

Lemma list_to_set_size_le (l : list Z) : (size (list_to_set l : gset Z) ≤ length l)%nat.
Proof.
  induction l as [|x l IH]; [done|]. cbn [list_to_set length]. rewrite size_union_alt, size_singleton.
  pose proof (subseteq_size (list_to_set l ∖ {[x]} : gset Z) (list_to_set l) ltac:(set_solver)). lia.
Qed.

Lemma alter_of_Some {A} (f : A → A) (M : gmap Z A) a x :
  M !! a = Some x → alter f a M = <[a := f x]> M.
Proof.
  intros Hm. apply map_eq. intros b. destruct (decide (a = b)) as [<-|Hne].
  - by rewrite lookup_alter_eq, lookup_insert_eq, Hm.
  - by rewrite lookup_alter_ne, lookup_insert_ne.
Qed.

Section cache.
Context {S : Type} `{PolicyLaws S} (bs : block_size).

Implicit Types (c : t S) (M : gmap Z AbstractCacheEntry.t) (e : AbstractCacheEntry.t) (a s w : Z).

(** ** Room in a set *)

Section row.
Context (c : t S) (M : gmap Z AbstractCacheEntry.t) (a : Z) (row : list (option AbstractCacheEntry.t)).
Context (Ho : cache_ok bs c) (Hr : represents c M).
Context (Hrow : zlookup (m_cache c) (set_of (cfg c) a) = Some row).

Lemma row_cell w : cell c (set_of (cfg c) a) w = zlookup row w.
Proof. unfold cell. by rewrite Hrow. Qed.

Lemma row_length : zlen row = m_cache_assoc (cfg c).
Proof. exact (Forall_zlookup _ _ _ _ (ok_ways _ _ Ho) Hrow). Qed.

Lemma elem_of_row o : o ∈ row ↔ ∃ w, zlookup row w = Some o.
Proof.
  rewrite list_elem_of_lookup. split.
  - intros [i Hi]. exists (Z.of_nat i). apply zlookup_Some. rewrite Nat2Z.id. split; [lia|done].
  - intros [w [_ Hw]%zlookup_Some]. eauto.
Qed.

Lemma in_set_row x : x ∈ dom (in_set (cfg c) a M) ↔ ∃ e, Some e ∈ row ∧ m_Address e = x.
Proof.
  rewrite elem_of_dom. split.
  - intros [e [Hx Hs]%map_lookup_filter_Some]. cbn in Hs.
    destruct (represented _ _ _ _ _ Ho Hr Hx) as (w & Hc & Ha & _). rewrite Hs, row_cell in Hc.
    exists e. split; [|done]. apply elem_of_row. eauto.
  - intros (e & [w Hw]%elem_of_row & <-). exists e. rewrite <- row_cell in Hw.
    apply map_lookup_filter_Some. split; [apply Hr; eauto|].
    exact (eo_set_of _ _ _ _ _ (ok_entry _ _ Ho _ _ _ Hw)).
Qed.

Lemma row_addresses_distinct l : row = Some <$> l → NoDup (m_Address <$> l).
Proof.
  intros El. apply NoDup_alt. intros i j x Hi Hj.
  assert (Hx : ∀ k, (m_Address <$> l) !! k = Some x → m_tag_index c !! x = Some (Z.of_nat k)).
  { intros k Hk. apply list_lookup_fmap_Some in Hk as (e & -> & Hk).
    assert (zlookup row (Z.of_nat k) = Some (Some e)) as Hz.
    { apply zlookup_Some. split; [lia|]. rewrite Nat2Z.id, El, list_lookup_fmap, Hk. done. }
    rewrite <- row_cell in Hz. apply (ok_tags _ _ Ho). exists e. split; [|done].
    by rewrite (eo_set_of _ _ _ _ _ (ok_entry _ _ Ho _ _ _ Hz)). }
  apply Hx in Hi, Hj. rewrite Hi in Hj. injection Hj as Hj. lia.
Qed.

Lemma in_set_addresses : dom (in_set (cfg c) a M) ⊆ list_to_set (omap (fmap m_Address) row).
Proof.
  intros x (e & He & <-)%in_set_row. apply elem_of_list_to_set, list_elem_of_omap. by exists (Some e).
Qed.

Lemma in_set_size :
  Z.of_nat (size (in_set (cfg c) a M)) < m_cache_assoc (cfg c) ↔ None ∈ row.
Proof.
  rewrite <- size_dom, <- row_length. unfold zlen. rewrite <- Nat2Z.inj_lt. split.
  - intros Hlt. destruct (None_or_all_Some row) as [|[l El]]; [done|].
    assert (list_to_set (m_Address <$> l) ⊆ dom (in_set (cfg c) a M)) as Hsub%subseteq_size.
    { intros x (e & -> & He)%elem_of_list_to_set%list_elem_of_fmap. apply in_set_row. exists e. split; [|done].
      rewrite El. by apply list_elem_of_fmap_2. }
    rewrite size_list_to_set in Hsub by (by apply row_addresses_distinct).
    rewrite length_fmap in Hsub. rewrite El, length_fmap in Hlt. lia.
  - intros Hn. apply (omap_length_lt m_Address) in Hn. eapply Nat.le_lt_trans; [|exact Hn].
    etrans; [apply subseteq_size, in_set_addresses|]. apply list_to_set_size_le.
Qed.

Lemma in_set_le : Z.of_nat (size (in_set (cfg c) a M)) ≤ m_cache_assoc (cfg c).
Proof.
  rewrite <- size_dom, <- row_length. unfold zlen. apply inj_le. etrans; [|apply (omap_length_le m_Address)].
  etrans; [|apply list_to_set_size_le]. apply subseteq_size. apply in_set_addresses.
Qed.

Lemma serves_room : existsb (serves a) row = bool_decide (room (cfg c) a M).
Proof.
  apply eq_true_iff_eq. rewrite bool_decide_eq_true, existsb_exists. unfold room. rewrite in_set_size. split.
  - intros (o & Hin%list_elem_of_In & Hs). destruct o as [e|]; [|by right]. left. cbn in Hs.
    apply elem_of_row in Hin as [w Hw]. rewrite <- row_cell in Hw.
    apply orb_true_iff in Hs as [Hs%Z.eqb_eq|Hs%bool_decide_eq_true].
    + exists e. apply Hr. eauto.
    + by destruct (eo_present _ _ _ _ _ (ok_entry _ _ Ho _ _ _ Hw)).
  - intros [[e He]|Hn].
    + destruct (represented _ _ _ _ _ Ho Hr He) as (w & Hc & Ha & _). rewrite row_cell in Hc.
      exists (Some e). split; [apply list_elem_of_In, elem_of_row; eauto|]. cbn.
      apply orb_true_iff. left. by apply Z.eqb_eq.
    + exists None. split; [by apply list_elem_of_In|done].
Qed.

End row.

(** A set has at most as many addresses as ways. *)
Lemma in_set_bound c M a :
  cache_ok bs c → represents c M → is_line bs a = true →
  Z.of_nat (size (in_set (cfg c) a M)) ≤ m_cache_assoc (cfg c).
Proof.
  intros Ho Hr Ha. destruct (addressToCacheSet_eq bs c a (ok_config _ _ Ho) Ha) as [_ Hs].
  destruct (row_of _ _ _ Ho Hs) as (row & Hrow & _). by apply (in_set_le c M a row).
Qed.

(** ** Data of the policy *)

Lemma cell_range c s w o :
  cache_ok bs c → cell c s w = Some o →
  0 ≤ s < m_cache_num_sets (cfg c) ∧ 0 ≤ w < m_cache_assoc (cfg c).
Proof.
  intros Ho Hc. unfold cell in Hc. destruct (zlookup (m_cache c) s) as [row|] eqn:Hr; [|done].
  cbn in Hc. pose proof (Forall_zlookup _ _ _ _ (ok_ways _ _ Ho) Hr) as Hl. cbn in Hl.
  apply zlookup_lt in Hr, Hc. rewrite (ok_sets _ _ Ho) in Hr. lia.
Qed.

(** The replacement data of a slot. *)
Lemma slot_data c s w :
  cache_ok bs c → 0 ≤ s < m_cache_num_sets (cfg c) → 0 ≤ w < m_cache_assoc (cfg c) →
  ∃ row d, zlookup (replacement_data c) s = Some row ∧ zlen row = m_cache_assoc (cfg c) ∧
    rp_group (policy c) row ∧ zlookup row w = Some d ∧ 0 ≤ d < rp_count (policy c).
Proof.
  intros Ho Hs Hw. destruct (ok_data _ _ Ho) as [Hp Hn Hrows].
  destruct (zlookup_is_Some (replacement_data c) s) as [row Hr]; [by rewrite Hn|].
  destruct (Forall_zlookup _ _ _ _ Hrows Hr) as (Hl & Hg & Hd).
  destruct (zlookup_is_Some row w) as [d Hz]; [by rewrite Hl|].
  exists row, d. split_and!; try done; apply (Forall_zlookup _ _ _ _ Hd Hz).
Qed.

Lemma entry_data c s w e :
  cache_ok bs c → cell c s w = Some (Some e) →
  ∃ d, replacementData e = Some d ∧ 0 ≤ d < rp_count (policy c).
Proof.
  intros Ho Hc. destruct (cell_range _ _ _ _ Ho Hc) as [Hs Hw].
  destruct (slot_data _ _ _ Ho Hs Hw) as (row & d & Hr & _ & _ & Hd & Hi).
  exists d. split; [|done]. rewrite <- (eo_data _ _ _ _ _ (ok_entry _ _ Ho _ _ _ Hc)), Hr. done.
Qed.

(** ** The operations *)

Lemma cacheAvail_spec c M a :
  cache_ok bs c → represents c M → is_line bs a = true →
  cacheAvail bs c a = Ok (bool_decide (room (cfg c) a M)).
Proof.
  intros Ho Hr Ha. unfold cacheAvail.
  destruct (addressToCacheSet_eq bs c a (ok_config _ _ Ho) Ha) as [-> Hs]. rewrite Ha.
  cbn [assert rbind]. destruct (row_of _ _ _ Ho Hs) as (row & Hrow & Hl).
  rewrite (avail_from_spec _ _ _ _ 0 _ Hrow) by (unfold zlen in Hl; lia).
  rewrite drop_0. f_equal. by apply serves_room.
Qed.

Lemma isTagPresent_spec c M a :
  cache_ok bs c → represents c M → is_line bs a = true →
  isTagPresent bs c a = Ok (bool_decide (is_Some (M !! a))).
Proof. intros Ho Hr Ha. unfold isTagPresent. by rewrite (lookup_spec _ _ _ _ Ho Hr Ha). Qed.

Lemma allocate_spec now c M a e :
  cache_ok bs c → represents c M → is_line bs a = true → M !! a = None → room (cfg c) a M →
  ∃ w d c', let e' := placed now a (set_of (cfg c) a) w d e in
    allocate bs now c a e = Ok (e', c') ∧ cache_ok bs c' ∧ represents c' (<[a := e']> M) ∧
    cfg c' = cfg c.
Proof.
  intros Ho Hr Ha Hm Hroom. unfold allocate.
  rewrite Ha, (isTagPresent_spec _ _ _ Ho Hr Ha), (cacheAvail_spec _ _ _ Ho Hr Ha), Hm.
  rewrite (bool_decide_eq_true_2 _ Hroom), (bool_decide_eq_false_2 (is_Some None)) by apply is_Some_None.
  destruct (addressToCacheSet_eq bs c a (ok_config _ _ Ho) Ha) as [-> Hs]. cbn [assert rbind negb].
  destruct (row_of _ _ _ Ho Hs) as (row & Hrow & Hl).
  assert (existsb unused row = true) as Hu.
  { destruct Hroom as [[? He]|Hn]; [congruence|].
    apply (in_set_size c M a row Ho Hr Hrow) in Hn. apply existsb_exists. exists None.
    split; [by apply list_elem_of_In|done]. }
  destruct (open_slot_spec c _ row 0 (Z.to_nat (m_cache_assoc (cfg c))) Hrow)
    as (w & o & Hos & Hw & Ho'); [unfold zlen in Hl; lia|by rewrite drop_0|].
  change (Z.of_nat 0) with 0 in Hos. rewrite Hos. cbn [rbind]. rewrite <- (row_cell c a row Hrow) in Hw.
  destruct (cell_range _ _ _ _ Ho Hw) as [_ Hwr].
  assert (o = None) as ->.
  { destruct o as [e0|]; [|done]. apply bool_decide_eq_true in Ho'.
    by destruct (eo_present _ _ _ _ _ (ok_entry _ _ Ho _ _ _ Hw)). }
  destruct (slot_data _ _ _ Ho Hs Hwr) as (drow & d & Hdr & Hdl & _ & Hd & Hdi).
  rewrite (vget_intro _ _ _ Hdr). cbn [rbind]. rewrite (vget_intro _ _ _ Hd). cbn [rbind].
  destruct (co_sets _ (ok_config _ _ Ho)) as [_ Hn31]. destruct (co_assoc _ (ok_config _ _ Ho)) as [_ Ha31].
  destruct (place_spec bs c M a w (placed now a (set_of (cfg c) a) w d e) Ho Hr Hm eq_refl Hw)
    as (c' & -> & Hc' & Hr' & Hcfg & Hpol).
  { split; cbn; [done|done| | |by rewrite Hdr|done]; f_equal; apply Z.mod_small; lia. }
  cbn [rbind]. rewrite <- Hpol in Hdi.
  destruct (reset_law (policy c') now d) as (p & Hp & Hpo & Hpc & Hpg);
    [apply (ok_data _ _ Hc')|done|].
  rewrite Hp. exists w, d, (with_policy c' p). split; [done|].
  destruct (with_policy_ok bs c' _ p Hc' Hr' Hpo Hpc Hpg). by split_and!.
Qed.

Lemma deallocate_spec now c M a :
  cache_ok bs c → represents c M → is_line bs a = true → is_Some (M !! a) →
  ∃ c', deallocate bs now c a = Ok c' ∧ cache_ok bs c' ∧ represents c' (delete a M) ∧
    cfg c' = cfg c.
Proof.
  intros Ho Hr Ha [e Hm]. unfold deallocate. rewrite (lookup_spec _ _ _ _ Ho Hr Ha), Hm.
  cbn [rbind]. rewrite bool_decide_eq_true_2 by eauto. cbn [rbind assert determinate].
  destruct (represented _ _ _ _ _ Ho Hr Hm) as (w & Hc & Hea & Ht & He).
  destruct (entry_data _ _ _ _ Ho Hc) as (d & -> & Hd). cbn [determinate rbind].
  destruct (invalidate_law (policy c) now d) as (p & -> & Hpo & Hpc & Hpg); [apply (ok_data _ _ Ho)|done|].
  cbn [rbind]. rewrite (eo_set _ _ _ _ _ He), (eo_way _ _ _ _ _ He). cbn [determinate rbind].
  destruct (with_policy_ok bs c M p Ho Hr Hpo Hpc Hpg) as [Ho' Hr'].
  exact (remove_entry_spec bs (with_policy c p) M a w e Ho' Hr' Hm Hc).
Qed.

Lemma touch_entry_spec now c M a e :
  cache_ok bs c → represents c M → M !! a = Some e →
  ∃ c', touch_entry now c e = Ok c' ∧ cache_ok bs c' ∧
    represents c' (<[a := setLastAccess e now]> M) ∧ cfg c' = cfg c.
Proof.
  intros Ho Hr Hm. unfold touch_entry.
  destruct (represented _ _ _ _ _ Ho Hr Hm) as (w & Hc & Hea & Ht & He).
  destruct (entry_data _ _ _ _ Ho Hc) as (d & -> & Hd). cbn [determinate rbind].
  destruct (touch_law (policy c) now d) as (p & -> & Hpo & Hpc & Hpg); [apply (ok_data _ _ Ho)|done|].
  cbn [rbind]. destruct (with_policy_ok bs c M p Ho Hr Hpo Hpc Hpg) as [Ho' Hr'].
  apply (put_spec bs (with_policy c p) M a e); try done. exact (eo_present _ _ _ _ _ He).
Qed.

Lemma cacheProbe_spec c M a :
  cache_ok bs c → represents c M → is_line bs a = true → ¬ room (cfg c) a M →
  ∃ v c', cacheProbe bs c a = Ok (v, c') ∧ is_Some (in_set (cfg c) a M !! v) ∧
    cache_ok bs c' ∧ represents c' M ∧ cfg c' = cfg c.
Proof.
  intros Ho Hr Ha Hroom. unfold cacheProbe. rewrite Ha, (cacheAvail_spec _ _ _ Ho Hr Ha).
  rewrite (bool_decide_eq_false_2 _ Hroom).
  destruct (addressToCacheSet_eq bs c a (ok_config _ _ Ho) Ha) as [-> Hs]. cbn [assert rbind negb].
  destruct (row_of _ _ _ Ho Hs) as (row & Hrow & Hl). rewrite (vget_intro _ _ _ Hrow). cbn [rbind].
  destruct (None_or_all_Some row) as [Hn|[l El]].
  { destruct Hroom. right. by apply (in_set_size c M a row Ho Hr Hrow). }
  destruct (slot_data c (set_of (cfg c) a) 0 Ho Hs) as (drow & _ & Hdr & Hdl & Hg & _).
  { split; [done|]. apply (co_assoc _ (ok_config _ _ Ho)). }
  assert (candidates row (Z.to_nat (m_cache_assoc (cfg c))) = Ok drow) as ->.
  { replace (Z.to_nat (m_cache_assoc (cfg c))) with (length row) by (unfold zlen in Hl; lia).
    apply candidates_spec, Forall2_same_length_lookup_2; [unfold zlen in *; lia|].
    intros i o d Ho1 Hd1. rewrite El, list_lookup_fmap in Ho1.
    destruct (l !! i) as [e|] eqn:Hi; [|done]. injection Ho1 as <-. exists e. split; [done|].
    assert (cell c (set_of (cfg c) a) (Z.of_nat i) = Some (Some e)) as Hc.
    { rewrite (row_cell c a row Hrow). apply zlookup_Some. split; [lia|].
      by rewrite Nat2Z.id, El, list_lookup_fmap, Hi. }
    rewrite <- (eo_data _ _ _ _ _ (ok_entry _ _ Ho _ _ _ Hc)), Hdr. cbn.
    apply zlookup_Some. split; [lia|]. by rewrite Nat2Z.id. }
  cbn [rbind]. destruct (victim_law (policy c) drow) as (v & p & -> & Hv & Hpo & Hpc & Hpg);
    [apply (ok_data _ _ Ho)|done|]. cbn [rbind].
  rewrite (slot_row _ _ _ v Hrow).
  destruct (zlookup_is_Some row v) as [o Hz]; [lia|]. pose proof Hz as [_ Hz']%zlookup_Some.
  rewrite El, list_lookup_fmap in Hz'. destruct (l !! _) as [e|] eqn:Hi; [|done]. injection Hz' as <-.
  rewrite (vget_intro _ _ _ Hz). cbn [rbind determinate]. rewrite <- (row_cell c a row Hrow) in Hz.
  pose proof (ok_entry _ _ Ho _ _ _ Hz) as He. rewrite (eo_way _ _ _ _ _ He). cbn [determinate rbind].
  apply slot_cell in Hz as Hsl. rewrite Hsl. cbn [rbind determinate].
  exists (m_Address e), (with_policy c p). split; [done|]. split.
  - exists e. apply map_lookup_filter_Some. split; [apply Hr; eauto|exact (eo_set_of _ _ _ _ _ He)].
  - destruct (with_policy_ok bs c M p Ho Hr Hpo Hpc Hpg). by split_and!.
Qed.

Lemma setMRU_spec now c M x :
  cache_ok bs c → represents c M → is_line bs (Address.makeLineAddress bs x) = true →
  ∃ c', setMRU bs now c x = Ok c' ∧ cache_ok bs c' ∧
    represents c' (alter (λ e, setLastAccess e now) (Address.makeLineAddress bs x) M) ∧ cfg c' = cfg c.
Proof.
  intros Ho Hr Ha. unfold setMRU. rewrite (lookup_spec _ _ _ _ Ho Hr Ha). cbn [rbind].
  destruct (M !! _) as [e|] eqn:Hm.
  - rewrite (alter_of_Some _ _ _ _ Hm). by apply touch_entry_spec.
  - rewrite alter_id by congruence. by exists c.
Qed.

(** An operation on the entry of an address that keeps where it is. *)
Definition keeps_place (f : AbstractCacheEntry.t → AbstractCacheEntry.t) : Prop :=
  ∀ e, _set (f e) = _set e ∧ _way (f e) = _way e ∧ replacementData (f e) = replacementData e ∧
    m_Address (f e) = m_Address e ∧ (m_Permission e ≠ NotPresent → m_Permission (f e) ≠ NotPresent).

Lemma with_entry_spec f c M a :
  keeps_place f →
  cache_ok bs c → represents c M → is_line bs a = true → is_Some (M !! a) →
  ∃ c', with_entry bs c a f = Ok c' ∧ cache_ok bs c' ∧ represents c' (alter f a M) ∧ cfg c' = cfg c.
Proof.
  intros Hf Ho Hr Ha [e Hm]. unfold with_entry. rewrite (lookup_spec _ _ _ _ Ho Hr Ha), Hm. cbn [rbind].
  rewrite bool_decide_eq_true_2 by eauto. cbn [rbind assert determinate].
  rewrite (alter_of_Some _ _ _ _ Hm). destruct (Hf e) as (E1 & E2 & E3 & E4 & Hp).
  destruct (represented _ _ _ _ _ Ho Hr Hm) as (w & Hc & Hea & Ht & He).
  apply (put_spec bs c M a e); try done; [congruence|]. apply Hp, He.
Qed.

(** A loop over all sets and ways. *)
Lemma on_all_spec f c M :
  keeps_place f → cache_ok bs c → represents c M →
  cache_ok bs (on_all f c) ∧ represents (on_all f c) (f <$> M).
Proof.
  intros Hf Ho Hr.
  assert (Hz : ∀ A B (g : A → B) l i, zlookup (map g l) i = option_map g (zlookup l i)).
  { intros A B g l i. unfold zlookup. destruct (0 <=? i); [apply list_lookup_fmap|done]. }
  assert (Hc : ∀ s w, cell (on_all f c) s w = option_map (option_map f) (cell c s w)).
  { intros s w. unfold cell. cbn [on_all with_entries m_cache]. rewrite Hz.
    destruct (zlookup (m_cache c) s); [cbn; apply Hz|done]. }
  assert (Hs : ∀ s w e', cell (on_all f c) s w = Some (Some e') ↔ ∃ e, cell c s w = Some (Some e) ∧ e' = f e).
  { intros s w e'. rewrite Hc. destruct (cell c s w) as [[e|]|]; cbn; naive_solver. }
  split.
  - destruct Ho as [H1 H2 H3 H4 H7 H8]. split; [done| | |by destruct H4| |].
    + cbn. unfold zlen in *. by rewrite length_map.
    + cbn. apply Forall_fmap. eapply Forall_impl; [exact H3|]. intros row. cbn. unfold zlen.
      by rewrite length_map.
    + intros s w e' (e & Hx & ->)%Hs. destruct (H7 _ _ _ Hx) as [? ? ? ? ? Hp].
      destruct (Hf e) as (E1 & E2 & E3 & E4 & Hp'). split; cbn in *; try congruence. by apply Hp'.
    + intros a w. cbn [on_all with_entries cfg m_tag_index]. rewrite H8. setoid_rewrite Hs. split.
      * intros (e & Hx & <-). exists (f e). split; [by eauto|apply Hf].
      * intros (? & (e & Hx & ->) & <-). exists e. split; [done|]. symmetry. apply Hf.
  - intros a e'. rewrite lookup_fmap_Some. setoid_rewrite Hs. split.
    + intros (e & <- & (s & w & Hx & <-)%Hr). exists s, w. split; [by eauto|apply Hf].
    + intros (s & w & (e & Hx & ->) & <-). exists e. split; [done|]. apply Hr. exists s, w.
      split; [done|]. symmetry. apply Hf.
Qed.

End cache.
