(* ===== verification/CacheSpec.v ===== *)
(** * What a cache promises to its controller

    [init] sets up a cache that stands for the empty map; the operations are those of the
    map, and a full set can always take a new line in place of the victim of the policy. *)

From S2P Require Import Prelude.
From S2P Require Import IntMath.
From S2P Require Import RubyBlocks.
From S2P Require Import RubyBlockFacts.
From S2P Require Import ReplacementPolicies.
From S2P Require Import ReplacementFacts.
From S2P Require Import CacheResources.
From S2P Require Import CacheMemory.
From S2P Require Import CacheFacts.
From S2P Require Import CacheRefinement.
Import AbstractCacheEntry CacheMemory.

(** ** Initialisation *)

Section init.
Context {S : Type} `{PolicyLaws S}.

Lemma instantiate_row_spec n (p : S) :
  rp_ok p →
  ∃ p', instantiate_row n p = Ok (seqZ (rp_count p) (Z.of_nat n), p') ∧ rp_ok p' ∧
    rp_count p' = rp_count p + Z.of_nat n ∧ (∀ g, rp_group p g → rp_group p' g) ∧
    ∀ k, rp_fits p k → rp_fits p' k.
Proof.
  revert p. induction n as [|n IH]; intros p Hp; cbn [instantiate_row].
  - exists p. split_and!; [done|done|lia|done|done].
  - destruct (instantiate_law p Hp) as (p1 & -> & Hp1 & Hc1 & Hg1 & Hf1). cbn [rbind].
    destruct (IH p1 Hp1) as (p' & -> & Hp' & Hc' & Hg' & Hf'). cbn [rbind]. exists p'.
    rewrite Hc1 in *. split_and!; [|done|lia|by auto|by auto].
    rewrite (seqZ_cons (rp_count p)) by lia.
    replace (Z.pred (Z.of_nat (Datatypes.S n))) with (Z.of_nat n) by lia. by rewrite Z.add_1_r.
Qed.

(** The rows of the data of a cache, in a policy that grows. *)
Definition rows_ok (assoc : Z) (p : S) (rows : list (list Z)) : Prop :=
  Forall (λ row, zlen row = assoc ∧ rp_group p row ∧ Forall (λ i, 0 ≤ i < rp_count p) row) rows.

Lemma instantiate_rows_spec sets (assoc : nat) (p : S) k :
  (0 < assoc)%nat → rp_ok p → rp_fits p (Z.of_nat assoc) → 0 ≤ k →
  rp_count p = k * Z.of_nat assoc →
  ∃ rows p', instantiate_rows sets assoc p = Ok (rows, p') ∧ length rows = sets ∧ rp_ok p' ∧
    rp_count p ≤ rp_count p' ∧ (∀ g, rp_group p g → rp_group p' g) ∧
    rows_ok (Z.of_nat assoc) p' rows.
Proof.
  intros Ha. revert p k. induction sets as [|n IH]; intros p k Hp Hf Hk Hc; cbn [instantiate_rows].
  - exists [], p. split_and!; [done|done|done|lia|done|constructor].
  - destruct (instantiate_row_spec assoc p Hp) as (p1 & -> & Hp1 & Hc1 & Hg1 & Hf1). cbn [rbind].
    destruct (IH p1 (k + 1)) as (rows & p' & -> & Hl & Hp' & Hc' & Hg' & Hr); [done|by auto|lia|lia|].
    cbn [rbind]. exists (seqZ (rp_count p) (Z.of_nat assoc) :: rows), p'.
    split_and!; [done|by cbn; rewrite Hl|done|lia|by auto|]. constructor; [|done].
    split_and!.
    + unfold zlen. rewrite length_seqZ. lia.
    + apply Hg'. rewrite Hc. apply group_law; [done|lia|by auto|lia|lia].
    + apply Forall_forall. intros i Hi%elem_of_seqZ. pose proof (rp_nonneg p Hp). lia.
Qed.

(** A cache after [init]. *)
Lemma init_ok bs (c c' : t S) :
  0 < m_cache_assoc (cfg c) < 2 ^ 31 → 0 ≤ m_start_index_bit (cfg c) ≤ 32 →
  rp_ok (policy c) → rp_count (policy c) = 0 → rp_fits (policy c) (m_cache_assoc (cfg c)) →
  m_tag_index c = ∅ → init bs c = Ok c' →
  cache_ok bs c' ∧ represents c' ∅.
Proof.
  intros Ha Hs Hp Hc Hf Ht Hi. unfold init in Hi.
  step_bind Hi as per Eper. step_bind Hi as sets Esets. step_bind Hi as [] E1%assert_Ok.
  step_bind Hi as b Eb. step_bind Hi as [] E2%assert_Ok. boolify.
  assert (sets < 2 ^ 31).
  { unfold int_div, int_op in Esets.
    destruct (_ =? 0); [done|]. destruct (_ && _) eqn:Eb'; [|done]. injection Esets as <-. boolify. lia. }
  rewrite floorLog2_32 in Eb by lia. injection Eb as <-.
  destruct (instantiate_rows_spec (Z.to_nat sets) (Z.to_nat (m_cache_assoc (cfg c))) (policy c) 0)
    as (rows & p' & Er & Hl & Hp' & Hc' & _ & Hr); [lia|done|by rewrite Z2Nat.id by lia|lia|lia|].
  rewrite Er in Hi. cbn [rbind] in Hi. injection Hi as <-. rewrite Z2Nat.id in Hr by lia.
  assert (Hcell : ∀ k tags pol d g u v st s w o,
    cell (mk k tags (replicate (Z.to_nat sets) (replicate (Z.to_nat (m_cache_assoc (cfg c))) None))
      pol d g u v st : t S) s w = Some o → o = None).
  { intros k tags pol d g u v st s w o. unfold cell. cbn [m_cache].
    destruct (zlookup _ s) as [row|] eqn:E; [|done]. apply zlookup_replicate in E as [-> _]. cbn.
    by intros [? _]%zlookup_replicate. }
  pose proof (Z.log2_spec sets ltac:(lia)) as [Hlo _].
  assert (Z.log2 sets < 32) by (apply Z.log2_lt_pow2; lia).
  split; [split|].
  - split; cbn; lia.
  - cbn. unfold zlen. rewrite length_replicate. lia.
  - cbn. apply Forall_replicate. unfold zlen. rewrite length_replicate. lia.
  - split; cbn; [done|unfold zlen; rewrite Hl; lia|exact Hr].
  - intros s w e Hce. by apply Hcell in Hce.
  - cbn. rewrite Ht. intros a w. rewrite lookup_empty. split; [done|].
    intros (e & Hce & _). by apply Hcell in Hce.
  - intros a e. rewrite lookup_empty. split; [done|]. intros (s & w & Hce & _). by apply Hcell in Hce.
Qed.

End init.

(** ** Operations that keep the place of an entry *)

Lemma locks_keep_place ctx :
  keeps_place (λ e, AbstractCacheEntry.setLocked e ctx) ∧ keeps_place AbstractCacheEntry.clearLocked ∧
  keeps_place (λ e, if AbstractCacheEntry.isLocked e ctx then AbstractCacheEntry.clearLocked e else e) ∧
  keeps_place end_transaction.
Proof. split_and!; intros e; try destruct (AbstractCacheEntry.isLocked e ctx); by split_and!. Qed.

(** ** The refinement *)

Section spec.
Context {S : Type} `{PolicyLaws S} (bs : block_size).

(** C31: a cache implements a finite map from line addresses to entries, with room for as many
    addresses in a set as there are ways, whatever its replacement policy.  As long as no
    entry is made [NotPresent], a lookup is that of the map, [cacheAvail] says whether the
    address is in the map or its set has room, [allocate] inserts an address that is not in
    the map when there is room, as an unlocked line with permission [Invalid], [deallocate]
    deletes an address, and [setMRU], the locks and the end of a transaction change the
    entries and not the addresses; none of these operations fails. *)
Theorem cache_refines_map now (c : t S) M a :
  cache_ok bs c → represents c M → is_line bs a = true →
  lookup bs c a = Ok (M !! a) ∧
  cacheAvail bs c a = Ok (bool_decide (room (cfg c) a M)) ∧
  (M !! a = None → room (cfg c) a M → ∀ e, ∃ e' c', allocate bs now c a e = Ok (e', c') ∧
     m_Address e' = a ∧ m_Permission e' = Invalid ∧ m_locked e' = -1 ∧ m_DataBlk e' = m_DataBlk e ∧
     cache_ok bs c' ∧ represents c' (<[a := e']> M)) ∧
  (is_Some (M !! a) → ∃ c', deallocate bs now c a = Ok c' ∧ cache_ok bs c' ∧ represents c' (delete a M)) ∧
  (is_Some (M !! a) → ∀ ctx, ∃ c', setLocked bs c a ctx = Ok c' ∧ cache_ok bs c' ∧
     represents c' (alter (λ e, AbstractCacheEntry.setLocked e ctx) a M)) ∧
  (∀ x, a = Address.makeLineAddress bs x → ∃ c', setMRU bs now c x = Ok c' ∧ cache_ok bs c' ∧
     represents c' (alter (λ e, setLastAccess e now) a M)) ∧
  cache_ok bs (htmCommitTransaction c) ∧
  represents (htmCommitTransaction c) (end_transaction <$> M).
Proof.
  intros Ho Hr Ha. destruct (locks_keep_place 0) as (_ & _ & _ & He).
  destruct (on_all_spec bs end_transaction c M He Ho Hr) as [Ho' Hr'].
  split_and!.
  - by apply lookup_spec.
  - by apply cacheAvail_spec.
  - intros Hm Hroom e. destruct (allocate_spec bs now c M a e Ho Hr Ha Hm Hroom) as (w & d & c' & E & Hc' & Hr1 & _).
    eexists _, c'. by split_and!.
  - intros Hm. destruct (deallocate_spec bs now c M a Ho Hr Ha Hm) as (c' & ? & ? & ? & _). by exists c'.
  - intros Hm ctx. destruct (locks_keep_place ctx) as (Hk & _).
    destruct (with_entry_spec bs _ c M a Hk Ho Hr Ha Hm) as (c' & ? & ? & ? & _). by exists c'.
  - intros x ->. destruct (setMRU_spec bs now c M x Ho Hr Ha) as (c' & ? & ? & ? & _). by exists c'.
  - destruct Ho' as [H1 H2 H3 H4 H7 H8]. split; [done|done|done|by destruct H4| |exact H8].
    intros s w e Hce. by destruct (H7 s w e Hce).
  - exact Hr'.
Qed.

(** C32: a full set takes a new line in place of the policy's victim.  When [cacheAvail] is
    false for an address, [cacheProbe] returns the address of a line of the same set, and
    after [deallocate] of that line [allocate] of the new address succeeds: the map has lost
    the victim and gained the address, whatever the policy. *)
Theorem cache_makes_room now (c : t S) M a e :
  cache_ok bs c → represents c M → is_line bs a = true → cacheAvail bs c a = Ok false →
  ∃ v c1 c2 e' c3,
    cacheProbe bs c a = Ok (v, c1) ∧ is_Some (M !! v) ∧ v ≠ a ∧
    addressToCacheSet bs c v = addressToCacheSet bs c a ∧
    deallocate bs now c1 v = Ok c2 ∧ allocate bs now c2 a e = Ok (e', c3) ∧
    cache_ok bs c3 ∧ represents c3 (<[a := e']> (delete v M)).
Proof.
  intros Ho Hr Ha Hav. rewrite (cacheAvail_spec bs c M a Ho Hr Ha) in Hav. injection Hav as Hroom.
  apply bool_decide_eq_false in Hroom.
  destruct (cacheProbe_spec bs c M a Ho Hr Ha Hroom) as (v & c1 & Ep & [ev Hin] & Ho1 & Hr1 & Ec1).
  pose proof Hin as [Hv Hs]%map_lookup_filter_Some. cbn in Hs.
  destruct (represented _ _ _ _ _ Ho Hr Hv) as (w & _ & Hva & _ & Hev).
  pose proof (eo_line _ _ _ _ _ Hev) as Hline. rewrite Hva in Hline.
  assert (M !! a = None) as Hna
    by (destruct (M !! a) as [x|] eqn:E; [|done]; destruct Hroom; left; rewrite E; by exists x).
  destruct (deallocate_spec bs now c1 M v Ho1 Hr1 Hline (ex_intro _ ev Hv)) as (c2 & Ed & Ho2 & Hr2 & Ec2).
  destruct (allocate_spec bs now c2 (delete v M) a e Ho2 Hr2 Ha) as (w' & d & c3 & Ea & Ho3 & Hr3 & _).
  - rewrite lookup_delete_ne; [done|]. intros ->. congruence.
  - right. rewrite Ec2, Ec1. unfold in_set. rewrite map_filter_delete. fold (in_set (cfg c) a M).
    rewrite map_size_delete_Some by eauto.
    assert (0 < size (in_set (cfg c) a M))%nat.
    { destruct (decide (size (in_set (cfg c) a M) = 0%nat)) as [E|]; [|lia].
      apply map_size_empty_iff in E. by rewrite E in Hin. }
    pose proof (in_set_bound bs c M a Ho Hr Ha). lia.
  - exists v, c1, c2, (placed now a (set_of (cfg c2) a) w' d e), c3.
    split_and!; try done; [intros ->; congruence|].
    destruct (addressToCacheSet_eq bs c a (ok_config _ _ Ho) Ha) as [-> _].
    destruct (addressToCacheSet_eq bs c v (ok_config _ _ Ho) Hline) as [-> _]. by rewrite Hs.
Qed.

End spec.

(** ** A cache of two sets and two ways *)

Module CacheExample.

Definition lines64 : block_size := mkBlockSize 64 6.

Definition params : Params := mkParams 256 2 6 false false 0 1 1 1 1 2 1.

Definition fresh : t LRU.t := make params 1 (LRU.mk []).

Definition entry : AbstractCacheEntry.t := AbstractCacheEntry.make None.

Definition or_fresh (r : result (t LRU.t)) : t LRU.t := match r with Ok c => c | Err _ => fresh end.

Definition start : t LRU.t := or_fresh (init lines64 fresh).

(** Lines 0 and 128, of one set, at ticks 1 and 2. *)
Definition one : t LRU.t := or_fresh (allocateVoid lines64 1 start 0 entry).
Definition full : t LRU.t := or_fresh (allocateVoid lines64 2 one 128 entry).

Lemma or_allocated now c a e' c' :
  allocate lines64 now c a entry = Ok (e', c') →
  or_fresh (allocateVoid lines64 now c a entry) = c'.
Proof. unfold allocateVoid. by intros ->. Qed.

Lemma start_ok : cache_ok lines64 start ∧ represents start ∅.
Proof.
  by apply (init_ok lines64 fresh).
Qed.

Lemma full_ok : ∃ M, cache_ok lines64 full ∧ represents full M.
Proof.
  destruct start_ok as [Ho Hr].
  destruct (allocate_spec lines64 1 start ∅ 0 entry Ho Hr) as (w1 & d1 & c1 & E1 & Ho1 & Hr1 & _);
    [done|done|by right|].
  assert (one = c1) as E by exact (or_allocated _ _ _ _ _ E1). rewrite <- E in *. clear E.
  edestruct (allocate_spec lines64 2 one _ 128 entry Ho1 Hr1) as (w2 & d2 & c2 & E2 & Ho2 & Hr2 & _).
  - done.
  - by rewrite lookup_insert_ne, lookup_empty by done.
  - destruct (decide (room (cfg one) 128 (<[0 := placed 1 0 (set_of (cfg start) 0) w1 d1 entry]> ∅)))
      as [|Hn]; [done|].
    pose proof (cacheAvail_spec lines64 one _ 128 Ho1 Hr1 eq_refl) as Ha.
    rewrite (bool_decide_eq_false_2 _ Hn) in Ha. vm_compute in Ha. done.
  - assert (full = c2) as -> by exact (or_allocated _ _ _ _ _ E2). eexists. split; [exact Ho2|exact Hr2].
Qed.

(** Line 64 goes into the empty cache. *)
Lemma cache_refines_map_witness :
  ∃ e' c', allocate lines64 5 start 64 entry = Ok (e', c') ∧ represents c' (<[64 := e']> ∅).
Proof.
  destruct start_ok as [Ho Hr].
  destruct (cache_refines_map lines64 5 start ∅ 64 Ho Hr eq_refl) as (_ & _ & Ha & _).
  destruct (Ha eq_refl (or_intror eq_refl) entry) as (e' & c' & E & _ & _ & _ & _ & _ & Hr').
  exists e', c'. split; [exact E|exact Hr'].
Defined.

(** Line 256 takes the place of line 0, the least recently used one. *)
Lemma cache_makes_room_witness :
  ∃ M v c1 c2 e' c3,
    cacheProbe lines64 full 256 = Ok (v, c1) ∧ v = 0 ∧ deallocate lines64 9 c1 v = Ok c2 ∧
    allocate lines64 9 c2 256 entry = Ok (e', c3) ∧ represents c3 (<[256 := e']> (delete v M)).
Proof.
  destruct full_ok as (M & Ho & Hr).
  destruct (cache_makes_room lines64 9 full M 256 entry Ho Hr) as (v & c1 & c2 & e' & c3 & E1 & _ & _ & _ & E2 & E3 & _ & Hr');
    [reflexivity|vm_compute; reflexivity|].
  assert (cacheProbe lines64 full 256 = Ok (0, full)) as E0 by (vm_compute; reflexivity).
  assert (v = 0) as Ev by (rewrite E0 in E1; congruence).
  exact (ex_intro _ M (ex_intro _ v (ex_intro _ c1 (ex_intro _ c2 (ex_intro _ e' (ex_intro _ c3
    (conj E1 (conj Ev (conj E2 (conj E3 Hr')))))))))).
Defined.

(** Why no entry may be [NotPresent]: [allocate] reuses its slot and leaves its address in
    the index, and a lookup of that address finds the entry of the other one. *)
Example stale_tag :
  (c ← changePermission lines64 one 0 NotPresent;
   '(_, c) ← allocate lines64 3 c 128 entry;
   lookup lines64 c 0) = Ok (Some (placed 3 128 0 0 0 entry)).
Proof. vm_compute. reflexivity. Qed.

End CacheExample.
