(* ===== verification/RubyTables.v ===== *)
(** * Tables of the coherence controllers

    [mem/ruby/structures]: the transactions under way ([TBETable]) and the slots they use
    ([TBEStorage]), timers of lines ([TimerTable]), and the requests of machines that starve
    for a line ([PersistentTable]). *)

From S2P Require Import Prelude.
From S2P Require Import NetDest.
From S2P Require Import RubyBlocks.

(** [address == makeLineAddress(address)] *)
Definition line_address (bs : block_size) (address : Z) : bool :=
  address =? Address.makeLineAddress bs address.

(** ** Transaction buffer entries *)

Module TBETable.
Section entry.
Context {ENTRY : Type} (new_entry : ENTRY) (bs : block_size).

Record t := mk { m_map : gmap Z ENTRY; m_number_of_TBEs : Z }.

Definition make (number_of_TBEs : Z) : t := mk ∅ number_of_TBEs.

(** [m_map.size()], a [size_t]; an [int] compared with it is converted. *)
Definition used (x : t) : Z := Z.of_nat (size (m_map x)).

Definition isPresent (x : t) (address : Z) : result bool :=
  _ ← assert (line_address bs address);
  _ ← assert (used x <=? wrap64 (m_number_of_TBEs x));
  Ok (bool_decide (is_Some (m_map x !! address))).

Definition allocate (x : t) (address : Z) : result t :=
  p ← isPresent x address;
  _ ← assert (negb p);
  _ ← assert (used x <? wrap64 (m_number_of_TBEs x));
  Ok (mk (<[address := new_entry]> (m_map x)) (m_number_of_TBEs x)).

Definition deallocate (x : t) (address : Z) : result t :=
  p ← isPresent x address;
  _ ← assert p;
  _ ← assert (0 <? used x);
  Ok (mk (delete address (m_map x)) (m_number_of_TBEs x)).

Definition areNSlotsAvailable (x : t) (n : Z) : bool :=
  wrap64 n <=? wrap64 (m_number_of_TBEs x - used x).

Definition lookup (x : t) (address : Z) : option ENTRY := m_map x !! address.

End entry.
End TBETable.

(** ** Slots for transactions *)

Module TBEStorage.

(** [m_slots_avail] with its top first; the averages of the statistics are not kept. *)
Record t := mk {
  m_reserved : Z;
  m_slots_avail : list Z;
  m_slots_used : gmap Z Z;
}.

(** [for (i = 0; i < number_of_TBEs; ++i) m_slots_avail.push(i)] *)
Definition make (number_of_TBEs : Z) : t := mk 0 (reverse (seqZ 0 number_of_TBEs)) ∅.

Definition size (x : t) : Z := Z.of_nat (base.size (m_slots_used x)).
Definition capacity (x : t) : Z := size x + zlen (m_slots_avail x).
Definition reserved (x : t) : Z := m_reserved x.
Definition slotsAvailable (x : t) : Z := zlen (m_slots_avail x) - m_reserved x.
Definition areNSlotsAvailable (x : t) (n : Z) : bool := n <=? slotsAvailable x.

Definition incrementReserved (x : t) : t :=
  mk (m_reserved x + 1) (m_slots_avail x) (m_slots_used x).

Definition decrementReserved (x : t) : result t :=
  _ ← assert (0 <? m_reserved x);
  Ok (mk (m_reserved x - 1) (m_slots_avail x) (m_slots_used x)).

Definition addEntryToNewSlot (x : t) : result (Z * t) :=
  _ ← assert (0 <? slotsAvailable x);
  match m_slots_avail x with
  | [] => Err AssertFailed
  | slot :: rest => Ok (slot, mk (m_reserved x) rest (<[slot := 1]> (m_slots_used x)))
  end.

Definition addEntryToSlot (x : t) (slot : Z) : result t :=
  match m_slots_used x !! slot with
  | None => Err AssertFailed
  | Some n => Ok (mk (m_reserved x) (m_slots_avail x) (<[slot := n + 1]> (m_slots_used x)))
  end.

Definition removeEntryFromSlot (x : t) (slot : Z) : result t :=
  match m_slots_used x !! slot with
  | None => Err AssertFailed
  | Some n =>
      _ ← assert (0 <? n);
      Ok (if n - 1 =? 0
          then mk (m_reserved x) (slot :: m_slots_avail x) (delete slot (m_slots_used x))
          else mk (m_reserved x) (m_slots_avail x) (<[slot := n - 1]> (m_slots_used x)))
  end.

End TBEStorage.

(** ** Timers *)

Module TimerTable.

(** [m_map], a [std::map], in the order of its iteration; whether there is a consumer. *)
Record t := mk {
  m_map : list (Z * Z);
  m_next_valid : bool;
  m_next_time : Z;
  m_next_address : Z;
  m_consumer_ptr : bool;
}.

Definition make : t := mk [] false 0 0 false.

Definition setConsumer (x : t) : result t :=
  _ ← assert (negb (m_consumer_ptr x));
  Ok (mk (m_map x) (m_next_valid x) (m_next_time x) (m_next_address x) true).

Definition isSet (x : t) (address : Z) : bool := existsb (λ p, p.1 =? address) (m_map x).

(** [m_map[address] = time] for an address that is not in the map. *)
Fixpoint insert_sorted (address time : Z) (l : list (Z * Z)) : list (Z * Z) :=
  match l with
  | [] => [(address, time)]
  | p :: l =>
      if address <? p.1 then (address, time) :: p :: l else p :: insert_sorted address time l
  end.

Definition erase (address : Z) (l : list (Z * Z)) : list (Z * Z) :=
  filter (λ p, p.1 ≠ address) l.

(** The loop of [updateNext] after the first element. *)
Fixpoint earliest (next : Z * Z) (l : list (Z * Z)) : Z * Z :=
  match l with
  | [] => next
  | p :: l => earliest (if p.2 <? next.2 then p else next) l
  end.

Definition updateNext (x : t) : result t :=
  match m_map x with
  | [] => _ ← assert (negb (m_next_valid x)); Ok x
  | p :: l =>
      let next := earliest p l in
      Ok (mk (m_map x) true next.2 next.1 (m_consumer_ptr x))
  end.

Definition refresh (x : t) : result t :=
  x ← if m_next_valid x then Ok x else updateNext x;
  _ ← assert (m_next_valid x);
  Ok x.

Definition isReady (x : t) (curTime : Z) : result (bool * t) :=
  match m_map x with
  | [] => Ok (false, x)
  | _ => x ← refresh x; Ok (m_next_time x <=? curTime, x)
  end.

Definition nextAddress (x : t) : result (Z * t) := x ← refresh x; Ok (m_next_address x, x).

(** The tick the consumer is scheduled for, and the table. *)
Definition set (bs : block_size) (x : t) (address ready_time : Z) : result (Z * t) :=
  _ ← assert (line_address bs address);
  _ ← assert (negb (isSet x address));
  _ ← assert (m_consumer_ptr x);
  Ok (ready_time, mk (insert_sorted address ready_time (m_map x)) false (m_next_time x)
                    (m_next_address x) (m_consumer_ptr x)).

Definition unset (bs : block_size) (x : t) (address : Z) : result t :=
  _ ← assert (line_address bs address);
  _ ← assert (isSet x address);
  Ok (mk (erase address (m_map x))
        (if address =? m_next_address x then false else m_next_valid x)
        (m_next_time x) (m_next_address x) (m_consumer_ptr x)).

End TimerTable.

(** ** Persistent requests *)

Module PersistentTable.
Section machines.
Context `{MachineTypes} (bs : block_size).

Inductive AccessType := Read | Write.

Record PersistentTableEntry := mkEntry {
  m_starving : NetDest.t;
  m_marked : NetDest.t;
  m_request_to_write : NetDest.t;
}.

(** [m_map] *)
Notation t := (gmap Z PersistentTableEntry) (only parsing).

(** [PersistentTableEntry()] *)
Definition new_entry : result PersistentTableEntry :=
  s ← NetDest.make; m ← NetDest.make; w ← NetDest.make; Ok (mkEntry s m w).

Definition persistentRequestLock (x : t) (address : Z) (locker : MachineID) (type : AccessType)
    : result t :=
  _ ← assert (line_address bs address);
  dflt ← new_entry;
  let present := bool_decide (is_Some (x !! address)) in
  let entry := default dflt (x !! address) in
  _ ← (if present then b ← NetDest.isElement (m_starving entry) locker; assert (negb b) else Ok tt);
  s ← NetDest.add (m_starving entry) locker;
  w ← match type with
      | Write => NetDest.add (m_request_to_write entry) locker
      | Read => Ok (m_request_to_write entry)
      end;
  _ ← (if present then b ← NetDest.isSubset (m_marked entry) s; assert b else Ok tt);
  Ok (<[address := mkEntry s (m_marked entry) w]> x).

Definition persistentRequestUnlock (x : t) (address : Z) (unlocker : MachineID) : result t :=
  _ ← assert (line_address bs address);
  match x !! address with
  | None => Err AssertFailed
  | Some entry =>
      b ← NetDest.isElement (m_starving entry) unlocker;
      _ ← assert b;
      b ← NetDest.isSubset (m_marked entry) (m_starving entry);
      _ ← assert b;
      s ← NetDest.remove (m_starving entry) unlocker;
      m ← NetDest.remove (m_marked entry) unlocker;
      w ← NetDest.remove (m_request_to_write entry) unlocker;
      b ← NetDest.isSubset m s;
      _ ← assert b;
      if NetDest.isEmpty s then
        _ ← assert (NetDest.isEmpty m);
        Ok (delete address x)
      else Ok (<[address := mkEntry s m w]> x)
  end.

Definition okToIssueStarving (x : t) (address : Z) (machId : MachineID) : result bool :=
  _ ← assert (line_address bs address);
  match x !! address with
  | None => Ok true
  | Some entry =>
      b ← NetDest.isElement (m_starving entry) machId;
      if (b : bool) then Ok false else Ok (NetDest.isEmpty (m_marked entry))
  end.

Definition findSmallest (x : t) (address : Z) : result MachineID :=
  _ ← assert (line_address bs address);
  match x !! address with
  | None => Err AssertFailed
  | Some entry => NetDest.smallestElement (m_starving entry)
  end.

Definition typeOfSmallest (x : t) (address : Z) : result AccessType :=
  _ ← assert (line_address bs address);
  match x !! address with
  | None => Err AssertFailed
  | Some entry =>
      m ← NetDest.smallestElement (m_starving entry);
      b ← NetDest.isElement (m_request_to_write entry) m;
      Ok (if (b : bool) then Write else Read)
  end.

Definition markEntries (x : t) (address : Z) : result t :=
  _ ← assert (line_address bs address);
  match x !! address with
  | None => Ok x
  | Some entry =>
      _ ← assert (NetDest.isEmpty (m_marked entry));
      Ok (<[address := mkEntry (m_starving entry) (m_starving entry) (m_request_to_write entry)]> x)
  end.

Definition isLocked (x : t) (address : Z) : result bool :=
  _ ← assert (line_address bs address);
  Ok (bool_decide (is_Some (x !! address))).

Definition countStarvingForAddress (x : t) (address : Z) : result Z :=
  _ ← assert (line_address bs address);
  Ok (match x !! address with None => 0 | Some entry => NetDest.count (m_starving entry) end).

Definition countReadStarvingForAddress (x : t) (address : Z) : result Z :=
  _ ← assert (line_address bs address);
  Ok (match x !! address with
      | None => 0
      | Some entry => NetDest.count (m_starving entry) - NetDest.count (m_request_to_write entry)
      end).

End machines.
End PersistentTable.
