(* ===== verification/RubyTableFacts.v ===== *)
(** * Tables of the coherence controllers: facts *)

From S2P Require Import Prelude.
From S2P Require Import NetDest.
From S2P Require Import Destinations.
From S2P Require Import RubyBlocks.
From S2P Require Import RubyTables.

(** ** Timers *)

Module TimerFacts.
Import TimerTable.

(** The earliest timer, of the smallest address among equals. *)
Definition best (l : list (Z * Z)) (q : Z * Z) : Prop :=
  q ∈ l ∧ ∀ p, p ∈ l → q.2 < p.2 ∨ q.2 = p.2 ∧ q.1 ≤ p.1.

Notation by_address := (StronglySorted (λ p q : Z * Z, p.1 < q.1)).

Lemma earliest_best next l :
  by_address l → Forall (λ p, next.1 < p.1) l → best (next :: l) (earliest next l).
Proof.
  revert next. induction l as [|p l IH]; intros next Hs Hn; cbn [earliest].
  - split; [set_solver|]. intros q Hq%list_elem_of_singleton. subst. lia.
  - apply Forall_cons in Hn as [Hp Hn]. apply StronglySorted_inv in Hs as [Hs Hf].
    destruct (Z.ltb_spec p.2 next.2) as [Hlt|Hge].
    + destruct (IH p Hs Hf) as [Hin Hall]. split; [set_solver|].
      intros q [->|Hq]%elem_of_cons; [|by apply Hall].
      destruct (Hall p) as [?|[? ?]]; [set_solver|lia|lia].
    + destruct (IH next Hs Hn) as [Hin Hall]. split; [set_solver|].
      intros q [->|[->|Hq]%elem_of_cons]%elem_of_cons; [apply Hall; set_solver| |apply Hall; set_solver].
      destruct (Hall next) as [?|[? ?]]; [set_solver|lia|]. lia.
Qed.

Record timer_ok (x : t) : Prop := {
  to_sorted : by_address (m_map x);
  to_next : m_next_valid x = true → best (m_map x) (m_next_address x, m_next_time x);
}.

(** What [isReady] and [nextAddress] first do. *)
Lemma refresh_spec x :
  timer_ok x → m_map x ≠ [] →
  ∃ x', refresh x = Ok x' ∧ timer_ok x' ∧ m_map x' = m_map x ∧
    best (m_map x) (m_next_address x', m_next_time x').
Proof.
  intros [Hs Hn] Hne. unfold refresh. destruct (m_next_valid x) eqn:Ev; cbn [rbind].
  - rewrite Ev. exists x. split_and!; [done|split; auto|done|auto].
  - unfold updateNext. destruct (m_map x) as [|p l] eqn:El; [done|]. cbn [rbind assert m_next_valid].
    apply StronglySorted_inv in Hs as Hs'. destruct Hs' as [Hl Hf].
    pose proof (earliest_best p l Hl Hf) as Hb. destruct (earliest p l) as [a time].
    eexists. split; [done|]. cbn. split_and!; [split; cbn; auto|done|done].
Qed.

Lemma insert_sorted_spec a time l q : q ∈ insert_sorted a time l ↔ q = (a, time) ∨ q ∈ l.
Proof.
  induction l as [|p l IH]; cbn [insert_sorted]; [set_solver|].
  destruct (a <? p.1); set_solver.
Qed.

Lemma insert_sorted_sorted a time l :
  by_address l → Forall (λ p, p.1 ≠ a) l → by_address (insert_sorted a time l).
Proof.
  induction 1 as [|p l Hl IH Hf]; intros Ha; cbn [insert_sorted].
  - repeat constructor.
  - apply Forall_cons in Ha as [Hp Ha]. destruct (Z.ltb_spec a p.1).
    + constructor; [by constructor|]. constructor; [done|]. eapply Forall_impl; [exact Hf|].
      intros q; cbn. lia.
    + constructor; [by apply IH|]. apply Forall_forall. intros q [->|Hq]%insert_sorted_spec; cbn; [lia|].
      by eapply Forall_forall in Hf.
Qed.

Lemma isSet_spec x a : isSet x a = true ↔ ∃ time, (a, time) ∈ m_map x.
Proof.
  unfold isSet. rewrite existsb_exists. split.
  - intros ([b time] & Hin%list_elem_of_In & Hb%Z.eqb_eq). cbn in Hb. subst. eauto.
  - intros [time Hin%list_elem_of_In]. exists (a, time). split; [done|]. apply Z.eqb_refl.
Qed.

(** A timer table keeps the earliest timer: the cached one, computed when it is asked for and
    dropped when the table changes, is that of all timers. *)
Lemma timer_table bs x :
  timer_ok x →
  (∀ cur, ∃ b x', isReady x cur = Ok (b, x') ∧ timer_ok x' ∧ m_map x' = m_map x ∧
     (b = true ↔ ∃ p, p ∈ m_map x ∧ p.2 ≤ cur)) ∧
  (m_map x ≠ [] → ∃ a x', nextAddress x = Ok (a, x') ∧ timer_ok x' ∧ m_map x' = m_map x ∧
     ∃ time, best (m_map x) (a, time)) ∧
  (∀ a time, line_address bs a = true → isSet x a = false → m_consumer_ptr x = true →
     ∃ x', set bs x a time = Ok (time, x') ∧ timer_ok x' ∧
       ∀ q, q ∈ m_map x' ↔ q = (a, time) ∨ q ∈ m_map x) ∧
  (∀ a, line_address bs a = true → isSet x a = true →
     ∃ x', unset bs x a = Ok x' ∧ timer_ok x' ∧
       ∀ q, q ∈ m_map x' ↔ q.1 ≠ a ∧ q ∈ m_map x).
Proof.
  intros Ho. split_and!.
  - intros cur. unfold isReady. destruct (m_map x) as [|p l] eqn:El.
    { exists false, x. split_and!; [done|done|by rewrite El|]. split; [done|]. set_solver. }
    destruct (refresh_spec x Ho) as (x' & -> & Hx' & Hm & Hb); [by rewrite El|].
    eexists _, x'. split; [done|]. rewrite <- El. split_and!; [done|done|]. rewrite Z.leb_le.
    destruct Hb as [Hin Hall]. split; [eauto|]. intros (q & Hq & Hle).
    destruct (Hall q Hq) as [?|[? ?]]; cbn in *; lia.
  - intros Hne. unfold nextAddress. destruct (refresh_spec x Ho Hne) as (x' & -> & Hx' & Hm & Hb).
    eexists _, x'. by eauto.
  - intros a time Ha Hn Hc. unfold set. rewrite Ha, Hn, Hc. cbn [assert rbind negb].
    eexists. split; [done|]. split; [|intros q; apply insert_sorted_spec]. split; cbn; [|done].
    apply insert_sorted_sorted; [apply Ho|]. apply Forall_forall. intros [b time'] Hin E. cbn in E. subst.
    assert (isSet x a = true) by (apply isSet_spec; eauto). congruence.
  - intros a Ha Hs. unfold unset. rewrite Ha, Hs. cbn [assert rbind].
    assert (He : ∀ q, q ∈ erase a (m_map x) ↔ q.1 ≠ a ∧ q ∈ m_map x)
      by (intros q; unfold erase; by rewrite list_elem_of_filter).
    eexists. split; [done|]. split; [|exact He]. split; cbn.
    + destruct Ho as [Hsorted _]. unfold erase. clear -Hsorted. induction Hsorted as [|p l Hl IH Hf]; [constructor|].
      rewrite filter_cons. case_decide; [|done]. constructor; [done|]. apply Forall_forall.
      intros q [_ Hq]%list_elem_of_filter. by eapply Forall_forall in Hf.
    + destruct (Z.eqb_spec a (m_next_address x)) as [|Hne]; [done|]. intros Hv.
      destruct (to_next _ Ho Hv) as [Hin Hall]. split; [apply He; cbn; auto|].
      intros p [_ Hp]%He. by apply Hall.
Qed.

End TimerFacts.

(** ** Slots *)

Module SlotFacts.
Import TBEStorage.

(** Of [n] slots each is free or used, and not both; a used slot has an entry. *)
Record slots_ok (n : Z) (x : t) : Prop := {
  so_slots : m_slots_avail x ++ (map_to_list (m_slots_used x)).*1 ≡ₚ seqZ 0 n;
  so_used : map_Forall (λ _ k, 0 < k) (m_slots_used x);
}.

Lemma make_slots n : 0 ≤ n → slots_ok n (make n).
Proof.
  intros Hn. split; cbn; [|apply map_Forall_empty].
  rewrite map_to_list_empty, app_nil_r. apply reverse_Permutation.
Qed.

(** No slot is lost. *)
Lemma slots_capacity n x : 0 ≤ n → slots_ok n x → capacity x = n.
Proof.
  intros Hn [Hp _]. apply Permutation_length in Hp. unfold capacity, size, zlen.
  rewrite length_app, length_fmap, length_map_to_list, length_seqZ in Hp. lia.
Qed.

(** A new slot was free, and is used by one entry then. *)
Lemma new_slot n x :
  slots_ok n x → 0 ≤ m_reserved x → 0 < slotsAvailable x →
  ∃ s x', addEntryToNewSlot x = Ok (s, x') ∧ slots_ok n x' ∧ m_slots_used x !! s = None ∧
    m_slots_used x' = <[s := 1]> (m_slots_used x).
Proof.
  intros [Hp Hu] Hr Hs. unfold addEntryToNewSlot. rewrite (proj2 (Z.ltb_lt 0 _) Hs). cbn [assert rbind].
  unfold slotsAvailable, zlen in Hs. destruct (m_slots_avail x) as [|s rest] eqn:E; [cbn in Hs; lia|].
  assert (NoDup (seqZ 0 n)) as Hnd by apply NoDup_seqZ. rewrite <- Hp in Hnd. cbn in Hnd.
  apply NoDup_cons in Hnd as [Hnot _].
  assert (m_slots_used x !! s = None) as Hn.
  { destruct (m_slots_used x !! s) as [k|] eqn:Ek; [|done]. destruct Hnot. apply elem_of_app. right.
    apply list_elem_of_fmap. exists (s, k). split; [done|]. by apply elem_of_map_to_list. }
  eexists s, _. split; [done|]. split_and!; [|done|done]. split; cbn.
  - rewrite map_to_list_insert by done. rewrite fmap_cons. cbn. rewrite <- Hp. cbn.
    symmetry. apply Permutation_middle.
  - apply map_Forall_insert_2; [lia|done].
Qed.

(** A slot is free again when its last entry leaves. *)
Lemma leave_slot n x s k :
  slots_ok n x → m_slots_used x !! s = Some k →
  ∃ x', removeEntryFromSlot x s = Ok x' ∧ slots_ok n x' ∧
    m_slots_used x' = if k =? 1 then delete s (m_slots_used x) else <[s := k - 1]> (m_slots_used x).
Proof.
  intros [Hp Hu] Hk. unfold removeEntryFromSlot. rewrite Hk. pose proof (Hu _ _ Hk) as Hk0. cbn in Hk0.
  rewrite (proj2 (Z.ltb_lt 0 k) Hk0). cbn [assert rbind]. eexists. split; [done|].
  pose proof (map_to_list_delete _ _ _ Hk) as Hd.
  assert (k - 1 =? 0 = (k =? 1)) as -> by (destruct (Z.eqb_spec k 1), (Z.eqb_spec (k - 1) 0); lia).
  destruct (Z.eqb_spec k 1); split; [split| |split|]; cbn; try done.
  - rewrite <- Hp, <- Hd. cbn. apply Permutation_middle.
  - by apply map_Forall_delete.
  - rewrite <- insert_delete_eq, map_to_list_insert by apply lookup_delete_eq. rewrite <- Hp, <- Hd. done.
  - apply map_Forall_insert_2; [lia|done].
Qed.

End SlotFacts.
