(* ===== verification/PersistentFacts.v ===== *)
(** * Persistent requests: facts

    The table of starving machines, in terms of the machines that starve for a line and of
    those that are marked. *)

From S2P Require Import Prelude.
From S2P Require Import NetDest.
From S2P Require Import Destinations.
From S2P Require Import RubyBlocks.
From S2P Require Import RubyTables.

(** ** Sets of machines *)

Section dests.
Context `{MachineTypes} `{!MachineTypeLaws}.
Import NetDest.

Definition valid_machine (m : MachineID) : Prop :=
  0 ≤ machine_type m < MachineType_NUM ∧ 0 ≤ machine_num m < MachineType_base_count (machine_type m).

Definition has (d : NetDest.t) (m : MachineID) : Prop := elem (machine_type m) (machine_num m) d.

Lemma machine_eq m m' : m = m' ↔ machine_type m = machine_type m' ∧ machine_num m = machine_num m'.
Proof. destruct m, m'; cbn. naive_solver. Qed.

(** The set of a machine's type. *)
Lemma machine_set d m :
  wf d → valid_machine m →
  ∃ s, vecIndex d m = Ok (machine_type m) ∧ zlookup d (machine_type m) = Some s ∧ RubySet.wf s ∧
    0 ≤ machine_num m < RubySet.m_nSize s.
Proof.
  intros [Hl Hs] [Ht Hn]. unfold vecIndex. rewrite base_level_id by lia.
  rewrite Hl, (proj2 (Z.ltb_lt _ _)) by lia. destruct (zlookup_is_Some d (machine_type m)) as [s Hz]; [lia|].
  destruct (Hs _ _ Hz) as [Hw Hsz]. exists s. split_and!; [done|done|done|lia|lia].
Qed.

Lemma isElement_has d m :
  wf d → valid_machine m → ∃ b, isElement d m = Ok b ∧ (b = true ↔ has d m).
Proof.
  intros Hd Hm. destruct (machine_set d m Hd Hm) as (s & Hv & Hz & Hw & Hn).
  unfold isElement, bitIndex. rewrite Hv. cbn [rbind]. rewrite (vget_intro _ _ _ Hz). cbn [rbind].
  rewrite RubySet.isElement_wf by done. eexists. split; [done|]. unfold has, elem. split.
  - intros Hb. by exists s.
  - intros (s' & Hs' & Hb). congruence.
Qed.

Lemma add_has d m :
  wf d → valid_machine m →
  ∃ d', add d m = Ok d' ∧ wf d' ∧ ∀ m', has d' m' ↔ m' = m ∨ has d m'.
Proof.
  intros Hd [Ht Hn]. destruct (add_spec d (machine_type m) (machine_num m) Hd Ht Hn) as (d' & E & Hw & He).
  exists d'. destruct m as [ty num]. split_and!; [done|done|]. intros m'. unfold has. rewrite He, machine_eq.
  done.
Qed.

Lemma remove_has d m :
  wf d → valid_machine m →
  ∃ d', remove d m = Ok d' ∧ wf d' ∧ ∀ m', has d' m' ↔ m' ≠ m ∧ has d m'.
Proof.
  intros Hd Hm. destruct (machine_set d m Hd Hm) as (s & Hv & Hz & Hw & Hn).
  unfold remove, bitIndex. rewrite Hv. cbn [rbind].
  destruct (RubySet.remove s (machine_num m)) as [s'|] eqn:Er.
  2:{ unfold RubySet.remove in Er. rewrite (proj2 (RubySet.in_bitset_spec _)) in Er; [done|]. destruct Hw. lia. }
  rewrite (vupd_intro _ _ _ _ _ Hz Er). eexists. split; [done|].
  destruct (RubySet.remove_spec _ _ _ Er) as [Hsz He]. apply zlookup_lt in Hz as Hlt. destruct Hd as [Hl Hs].
  split.
  - split; [by rewrite zlen_insert|]. intros i x. rewrite zlookup_insert by lia.
    case_decide as E; [|apply Hs]. intros [= <-]. subst i. destruct (Hs _ _ Hz) as [_ Hsz']. split; [|lia].
    destruct Hw as [Hr Hb]. split; [lia|]. intros j Hj. apply He in Hj as [Hj _]. specialize (Hb _ Hj). lia.
  - intros m'. unfold has, elem. rewrite zlookup_insert by lia. rewrite machine_eq. case_decide as E.
    + split.
      * intros (x & [= <-] & Hx). apply He in Hx as [Hx Hne]. split; [naive_solver|]. exists s. by rewrite <- E.
      * intros [Hne (x & Hx & Hb)]. exists s'. split; [done|]. apply He. rewrite <- E, Hz in Hx.
        injection Hx as <-. split; [done|]. naive_solver.
    + naive_solver.
Qed.

Lemma isEmpty_has d : wf d → isEmpty d = true ↔ ∀ m, ¬ has d m.
Proof.
  intros [Hl Hs]. unfold isEmpty. rewrite forallb_forall. split.
  - intros Hf m (s & Hz & Hb). apply zlookup_Some in Hz as [_ Hz]. apply list_elem_of_lookup_2 in Hz.
    apply list_elem_of_In in Hz. specialize (Hf _ Hz). apply Z.eqb_eq in Hf. unfold RubySet.elem in Hb.
    by rewrite Hf, Z.bits_0 in Hb.
  - intros Hn s Hin%list_elem_of_In. apply Z.eqb_eq. apply list_elem_of_lookup in Hin as [i Hi].
    assert (zlookup d (Z.of_nat i) = Some s) as Hz by (apply zlookup_Some; split; [lia|]; by rewrite Nat2Z.id).
    apply RubySet.bits_ext. intros j _. rewrite Z.bits_0. apply not_true_iff_false. intros Hb.
    apply (Hn (mkMachineID (Z.of_nat i) j)). by exists s.
Qed.

Lemma not_isEmpty_has d : wf d → isEmpty d = false → ∃ m, has d m.
Proof.
  intros [Hl Hs]. assert (∀ i s, d !! i = Some s → RubySet.wf s) as Hw.
  { intros i s Hi. apply (Hs (Z.of_nat i)), zlookup_Some. split; [lia|]. by rewrite Nat2Z.id. }
  clear Hl Hs. unfold has, elem, isEmpty. intros Hf.
  assert (∃ i s, d !! i = Some s ∧ RubySet.isEmpty s = false) as (i & s & Hi & Hne).
  { revert Hf. clear. induction d as [|s d IH]; cbn; [done|]. intros [Hf|Hf]%andb_false_iff.
    - by exists 0%nat, s.
    - destruct (IH Hf) as (i & s' & ? & ?). by exists (S i), s'. }
  apply Z.eqb_neq in Hne. pose proof (RubySet.wf_bits_nonneg s (Hw _ _ Hi)).
  exists (mkMachineID (Z.of_nat i) (Z.log2 (RubySet.bits s))), s. cbn. split.
  - apply zlookup_Some. split; [lia|]. by rewrite Nat2Z.id.
  - apply Z.bit_log2. lia.
Qed.

Lemma set_isSuperset s o :
  RubySet.m_nSize s = RubySet.m_nSize o →
  ∃ b, RubySet.isSuperset s o = Ok b ∧ (b = true ↔ ∀ i, RubySet.elem i o → RubySet.elem i s).
Proof.
  intros Hsz. unfold RubySet.isSuperset. rewrite Hsz, Z.eqb_refl. cbn [assert rbind]. eexists. split; [done|].
  rewrite Z.eqb_eq. unfold RubySet.elem. split.
  - intros E i Hi. rewrite <- E, Z.lor_spec, Hi. apply orb_true_r.
  - intros Hi. apply RubySet.bits_ext. intros i _. rewrite Z.lor_spec. specialize (Hi i).
    destruct (Z.testbit (RubySet.bits s) i), (Z.testbit (RubySet.bits o) i); cbn; try done.
    by specialize (Hi eq_refl).
Qed.

Lemma isSubset_has d e :
  wf d → wf e → ∃ b, isSubset d e = Ok b ∧ (b = true ↔ ∀ m, has d m → has e m).
Proof.
  intros [Hd Hwd] [He Hwe]. unfold isSubset, isSuperset. rewrite Hd, He, Z.eqb_refl. cbn [assert rbind].
  assert (Hsup : ∀ i s o, zlookup e i = Some s → zlookup d i = Some o →
    ∃ b, RubySet.isSuperset s o = Ok b ∧ (b = true ↔ ∀ j, RubySet.elem j o → RubySet.elem j s)).
  { intros i s o Hs Ho. apply set_isSuperset. destruct (Hwe _ _ Hs), (Hwd _ _ Ho). congruence. }
  destruct (scan_false RubySet.isSuperset e d) as (b & Hb & Hspec); [unfold zlen in *; lia| |].
  { intros i s o Hs Ho. destruct (Hsup i s o Hs Ho) as (b & ? & _). eauto. }
  exists b. split; [done|]. rewrite <- not_false_iff_true, Hspec. split.
  - intros Hn m (o & Ho & Hm). apply zlookup_lt in Ho as Hlt.
    destruct (zlookup_is_Some e (machine_type m)) as [s Hs]; [lia|]. exists s. split; [done|].
    destruct (Hsup _ s o Hs Ho) as (b' & Hb' & Hi). apply Hi; [|done]. destruct b'; [done|].
    destruct Hn. by exists (machine_type m), s, o.
  - intros Hall (i & s & o & Hs & Ho & Hf). destruct (Hsup i s o Hs Ho) as (b' & Hb' & Hi).
    assert (b' = true); [|congruence]. apply Hi. intros j Hj.
    destruct (Hall (mkMachineID i j)) as (s' & Hs' & Hj'); [by exists o|]. cbn in Hs', Hj'. congruence.
Qed.

End dests.

(** ** The table *)

Section table.
Context `{MachineTypes} `{!MachineTypeLaws} (bs : block_size).
Import PersistentTable.

Implicit Types (x : gmap Z PersistentTableEntry) (a : Z) (m : MachineID).

Record pentry_ok (e : PersistentTableEntry) : Prop := {
  pe_starving : NetDest.wf (m_starving e);
  pe_marked : NetDest.wf (m_marked e);
  pe_write : NetDest.wf (m_request_to_write e);
  pe_marked_starve : ∀ m, has (m_marked e) m → has (m_starving e) m;
  pe_write_starve : ∀ m, has (m_request_to_write e) m → has (m_starving e) m;
}.

(** Every entry has a machine that starves. *)
Definition persistent_ok x : Prop :=
  map_Forall (λ _ e, pentry_ok e ∧ ∃ m, has (m_starving e) m) x.

(** Machine [m] starves for line [a], is marked there, wants to write it. *)
Definition in_entry (f : PersistentTableEntry → NetDest.t) x a m : Prop :=
  ∃ e, x !! a = Some e ∧ has (f e) m.

Notation starves := (in_entry m_starving).
Notation marked := (in_entry m_marked).
Notation writes := (in_entry m_request_to_write).

(** The sets of a table one entry of which is replaced. *)
Lemma in_entry_insert f x a e a' m :
  in_entry f (<[a := e]> x) a' m ↔ a' = a ∧ has (f e) m ∨ a' ≠ a ∧ in_entry f x a' m.
Proof.
  unfold in_entry. destruct (decide (a' = a)) as [->|Hne].
  - rewrite lookup_insert_eq. naive_solver.
  - rewrite lookup_insert_ne by done. naive_solver.
Qed.

Lemma in_entry_delete f x a a' m : in_entry f (delete a x) a' m ↔ a' ≠ a ∧ in_entry f x a' m.
Proof.
  unfold in_entry. destruct (decide (a' = a)) as [->|Hne].
  - rewrite lookup_delete_eq. naive_solver.
  - rewrite lookup_delete_ne by done. naive_solver.
Qed.

Lemma in_entry_at f x a e m : x !! a = Some e → in_entry f x a m ↔ has (f e) m.
Proof. intros E. unfold in_entry. rewrite E. naive_solver. Qed.

Lemma in_entry_none f x a m : x !! a = None → ¬ in_entry f x a m.
Proof. intros E (e & Hx & _). congruence. Qed.

Lemma lock_spec x a m type :
  persistent_ok x → line_address bs a = true → valid_machine m → ¬ starves x a m →
  ∃ x', persistentRequestLock bs x a m type = Ok x' ∧ persistent_ok x' ∧
    (∀ a' m', starves x' a' m' ↔ a' = a ∧ m' = m ∨ starves x a' m') ∧
    (∀ a' m', marked x' a' m' ↔ marked x a' m') ∧
    (∀ a' m', writes x' a' m' ↔ a' = a ∧ m' = m ∧ type = Write ∨ writes x a' m').
Proof.
  intros Ho Ha Hm Hn. unfold persistentRequestLock, new_entry. rewrite Ha. cbn [assert rbind].
  destruct NetDest.make_empty as (d0 & -> & Hw0 & He0). cbn [rbind].
  set (e := default (mkEntry d0 d0 d0) (x !! a)).
  assert (pentry_ok e ∧ ∀ f m', f = m_starving ∨ f = m_marked ∨ f = m_request_to_write →
    has (f e) m' ↔ in_entry f x a m') as [[H1 H2 H3 H4 H5] Hin].
  { unfold e. destruct (x !! a) as [e0|] eqn:E; cbn [default].
    - destruct (Ho _ _ E) as [He _]. split; [done|]. intros f m' _. by rewrite (in_entry_at f x a e0).
    - assert (∀ m', ¬ has d0 m') as Hd by (intros m'; apply He0). split; [by split|].
      intros f m' Hf. split; [|by intros ?%in_entry_none].
      destruct Hf as [->|[->| ->]]; cbn; intros ?%Hd; done. }
  assert (¬ has (m_starving e) m) as Hnm by (rewrite (Hin m_starving m) by auto; done).
  destruct (isElement_has (m_starving e) m H1 Hm) as (b & Eb & Hb).
  assert (b = false) as -> by (destruct b; [by destruct Hnm; apply Hb|done]).
  destruct (add_has (m_starving e) m H1 Hm) as (s & Es & Hs & Hsi).
  destruct (add_has (m_request_to_write e) m H3 Hm) as (w & Ew & Hw & Hwi).
  destruct (isSubset_has (m_marked e) s H2 Hs) as (b & Eb' & Hb').
  assert (b = true) as -> by (apply Hb'; intros m' Hm'; apply Hsi; auto).
  set (w' := match type with Write => w | Read => m_request_to_write e end).
  assert (Hw' : NetDest.wf w' ∧ ∀ m', has w' m' ↔ m' = m ∧ type = Write ∨ has (m_request_to_write e) m').
  { unfold w'. destruct type; split; [done| |done|].
    - intros m'. naive_solver.
    - intros m'. rewrite Hwi. naive_solver. }
  exists (<[a := mkEntry s (m_marked e) w']> x). split.
  { rewrite Eb, Es. cbn [rbind negb assert].
    assert (∀ k : NetDest.t → result (gmap Z PersistentTableEntry),
      (w ← match type with Write => NetDest.add (m_request_to_write e) m | Read => Ok (m_request_to_write e) end; k w) = k w')
      as Ek by (intros k; unfold w'; destruct type; [done|by rewrite Ew]).
    destruct (bool_decide _); cbn [assert rbind]; rewrite Ek, ?Eb'; done. }
  destruct Hw' as [Hw1 Hw2]. split.
  - apply map_Forall_insert_2; [|done]. split; [|exists m; by apply Hsi; left].
    split; cbn; [done|done|done|intros m' ?; apply Hsi; auto|].
    intros m' [[-> _]|Hm']%Hw2; apply Hsi; auto.
  - split_and!; intros a' m'; rewrite in_entry_insert; cbn.
    + rewrite Hsi. rewrite (Hin m_starving m') by auto. destruct (decide (a' = a)) as [->|]; naive_solver.
    + rewrite (Hin m_marked m') by auto. destruct (decide (a' = a)) as [->|]; naive_solver.
    + rewrite Hw2. rewrite (Hin m_request_to_write m') by auto. destruct (decide (a' = a)) as [->|]; naive_solver.
Qed.

Lemma unlock_spec x a m :
  persistent_ok x → line_address bs a = true → valid_machine m → starves x a m →
  ∃ x', persistentRequestUnlock bs x a m = Ok x' ∧ persistent_ok x' ∧
    ∀ f a' m', f = m_starving ∨ f = m_marked ∨ f = m_request_to_write →
      in_entry f x' a' m' ↔ ¬ (a' = a ∧ m' = m) ∧ in_entry f x a' m'.
Proof.
  intros Ho Ha Hm (e & E & Hem). unfold persistentRequestUnlock. rewrite Ha, E. cbn [assert rbind].
  destruct (Ho _ _ E) as [[H1 H2 H3 H4 H5] _].
  destruct (isElement_has (m_starving e) m H1 Hm) as (b & -> & Hb). rewrite (proj2 Hb Hem). cbn [assert rbind].
  destruct (isSubset_has (m_marked e) (m_starving e) H2 H1) as (b1 & -> & Hb1).
  rewrite (proj2 Hb1 H4). cbn [assert rbind].
  destruct (remove_has (m_starving e) m H1 Hm) as (s & -> & Hs & Hsi). cbn [rbind].
  destruct (remove_has (m_marked e) m H2 Hm) as (k & -> & Hk & Hki). cbn [rbind].
  destruct (remove_has (m_request_to_write e) m H3 Hm) as (w & -> & Hw & Hwi). cbn [rbind].
  destruct (isSubset_has k s Hk Hs) as (b2 & -> & Hb2). rewrite (proj2 Hb2) by (intros m' [? ?]%Hki; apply Hsi; auto).
  cbn [assert rbind]. destruct (NetDest.isEmpty s) eqn:Ee.
  - pose proof (proj1 (isEmpty_has s Hs) Ee) as Hse. clear Ee.
    assert (∀ m', ¬ has k m') as Hke by (intros m' [? ?]%Hki; apply (Hse m'), Hsi; auto).
    rewrite (proj2 (isEmpty_has k Hk) Hke). eexists. split; [done|]. split; [by apply map_Forall_delete|].
    intros f a' m' Hf. rewrite in_entry_delete. destruct (decide (a' = a)) as [->|Hne]; [|naive_solver].
    rewrite (in_entry_at f x a e m' E). split; [naive_solver|]. intros [Hne Hf']. exfalso.
    apply (Hse m'), Hsi. split; [naive_solver|]. destruct Hf as [->|[->| ->]]; auto.
  - eexists. split; [done|]. split.
    + apply map_Forall_insert_2; [|done]. split.
      * split; cbn; [done..|intros m' [? ?]%Hki; apply Hsi; auto|intros m' [? ?]%Hwi; apply Hsi; auto].
      * by apply not_isEmpty_has.
    + intros f a' m' Hf. rewrite in_entry_insert. destruct (decide (a' = a)) as [->|Hne]; [|naive_solver].
      rewrite (in_entry_at f x a e m' E). destruct Hf as [->|[->| ->]]; cbn; rewrite ?Hsi, ?Hki, ?Hwi; naive_solver.
Qed.

Lemma okToIssue_spec x a m :
  persistent_ok x → line_address bs a = true → valid_machine m →
  ∃ b, okToIssueStarving bs x a m = Ok b ∧
    (b = true ↔ ¬ starves x a m ∧ ∀ m', ¬ marked x a m').
Proof.
  intros Ho Ha Hm. unfold okToIssueStarving. rewrite Ha. cbn [assert rbind].
  destruct (x !! a) as [e|] eqn:E.
  - destruct (Ho _ _ E) as [[H1 H2 _ _ _] _].
    destruct (isElement_has (m_starving e) m H1 Hm) as (b & -> & Hb). cbn [rbind].
    setoid_rewrite (in_entry_at m_starving x a e m E).
    assert (∀ m', marked x a m' ↔ has (m_marked e) m') as Hmk by (intros m'; by apply in_entry_at).
    setoid_rewrite Hmk.
    destruct b; eexists; (split; [done|]).
    + split; [done|]. intros [Hn _]. by destruct Hn; apply Hb.
    + destruct (isEmpty_has _ H2) as [He1 He2]. split; [|intros [_ Hx]; by apply He2].
      intros Hx. split; [by intros ?%Hb|by apply He1].
  - exists true. split; [done|]. split; [|done]. intros _.
    split; [by apply in_entry_none|]. intros m'. by apply in_entry_none.
Qed.

Lemma markEntries_spec x a :
  persistent_ok x → line_address bs a = true → (∀ m, ¬ marked x a m) →
  ∃ x', markEntries bs x a = Ok x' ∧ persistent_ok x' ∧
    (∀ a' m, starves x' a' m ↔ starves x a' m) ∧
    (∀ a' m, marked x' a' m ↔ if decide (a' = a) then starves x a m else marked x a' m).
Proof.
  intros Ho Ha Hn. unfold markEntries. rewrite Ha. cbn [assert rbind].
  destruct (x !! a) as [e|] eqn:E.
  - destruct (Ho _ _ E) as [[H1 H2 H3 _ H5] Hex].
    rewrite (proj2 (isEmpty_has _ H2)) by (intros m; rewrite <- (in_entry_at m_marked x a e m E); apply Hn).
    eexists. split; [done|]. split; [by apply map_Forall_insert_2|].
    split; intros a' m; rewrite in_entry_insert; cbn; rewrite <- (in_entry_at m_starving x a e m E);
      destruct (decide (a' = a)) as [->|]; naive_solver.
  - exists x. split_and!; [done|done|done|]. intros a' m. case_decide; [subst|done].
    split; intros Hx; by apply in_entry_none in Hx.
Qed.

(** C35: the table of persistent requests keeps, for every line (the address is that of a
    line), the machines that starve for it, those of them that are marked and those that want
    to write.  A lock adds a machine
    that does not starve yet and fails an assertion for one that does; an unlock removes a
    machine that starves and fails an assertion for one that does not, and the last one
    unlocks the line; marking marks the machines that starve when none is marked, and fails
    an assertion while one is; a machine may issue a request exactly when it does not starve
    already and nobody is marked, so that no machine comes in between the marked ones. *)
Theorem persistent_requests x a m type :
  persistent_ok x → line_address bs a = true → valid_machine m →
  (¬ starves x a m → ∃ x', persistentRequestLock bs x a m type = Ok x' ∧ persistent_ok x' ∧
     (∀ a' m', starves x' a' m' ↔ a' = a ∧ m' = m ∨ starves x a' m') ∧
     (∀ a' m', marked x' a' m' ↔ marked x a' m') ∧
     (∀ a' m', writes x' a' m' ↔ a' = a ∧ m' = m ∧ type = Write ∨ writes x a' m')) ∧
  (starves x a m → persistentRequestLock bs x a m type = Err AssertFailed) ∧
  (starves x a m → ∃ x', persistentRequestUnlock bs x a m = Ok x' ∧ persistent_ok x' ∧
     ∀ f a' m', f = m_starving ∨ f = m_marked ∨ f = m_request_to_write →
       in_entry f x' a' m' ↔ ¬ (a' = a ∧ m' = m) ∧ in_entry f x a' m') ∧
  (¬ starves x a m → persistentRequestUnlock bs x a m = Err AssertFailed) ∧
  ((∀ m', ¬ marked x a m') → ∃ x', markEntries bs x a = Ok x' ∧ persistent_ok x' ∧
     (∀ a' m', starves x' a' m' ↔ starves x a' m') ∧
     (∀ a' m', marked x' a' m' ↔ if decide (a' = a) then starves x a m' else marked x a' m')) ∧
  ((∃ m', marked x a m') → markEntries bs x a = Err AssertFailed) ∧
  (∃ b, okToIssueStarving bs x a m = Ok b ∧ (b = true ↔ ¬ starves x a m ∧ ∀ m', ¬ marked x a m')) ∧
  (∃ b, isLocked bs x a = Ok b ∧ (b = true ↔ ∃ m', starves x a m')).
Proof.
  intros Ho Ha Hm. split_and!.
  - intros Hn. by apply lock_spec.
  - intros (e & E & Hem). unfold persistentRequestLock, new_entry. rewrite Ha, E. cbn [assert rbind].
    destruct NetDest.make_empty as (d0 & -> & _). cbn [rbind from_option id].
    rewrite bool_decide_eq_true_2 by eauto. destruct (Ho _ _ E) as [[H1 _ _ _ _] _].
    destruct (isElement_has (m_starving e) m H1 Hm) as (b & -> & Hb). by rewrite (proj2 Hb Hem).
  - intros Hn. by apply unlock_spec.
  - intros Hn. unfold persistentRequestUnlock. rewrite Ha. cbn [assert rbind].
    destruct (x !! a) as [e|] eqn:E; [|done]. rewrite (in_entry_at m_starving x a e m E) in Hn.
    destruct (Ho _ _ E) as [[H1 _ _ _ _] _].
    destruct (isElement_has (m_starving e) m H1 Hm) as (b & -> & Hb). cbn [rbind].
    destruct b; [by destruct Hn; apply Hb|done].
  - intros Hn. by apply markEntries_spec.
  - intros (m' & e & E & Hem). unfold markEntries. rewrite Ha, E. cbn [assert rbind].
    destruct (Ho _ _ E) as [[_ H2 _ _ _] _]. destruct (NetDest.isEmpty (m_marked e)) eqn:Ee; [|done].
    by destruct (proj1 (isEmpty_has _ H2) Ee m').
  - by apply okToIssue_spec.
  - unfold isLocked. rewrite Ha. cbn [assert rbind]. eexists. split; [done|].
    rewrite bool_decide_eq_true. split.
    + intros [e E]. destruct (Ho _ _ E) as [_ [m' Hm']]. exists m'. by exists e.
    + intros (m' & e & E & _). by eexists.
Qed.

End table.

(** ** Two machines of two types *)

Module PersistentExample.
Import ExampleMachines PersistentTable.

#[local] Existing Instance machines.
#[local] Existing Instance machines_laws.

Definition lines64 : block_size := mkBlockSize 64 6.
Definition m0 : MachineID := mkMachineID 0 1.

(** The first request for line 64. *)
Lemma empty_table_unused f a m : ¬ in_entry f ∅ a m.
Proof. intros (e & He & _). by rewrite lookup_empty in He. Qed.

(** The first lock of line 64, then a mark, then another one, which fails. *)
Definition once : gmap Z PersistentTableEntry :=
  match persistentRequestLock lines64 ∅ 64 m0 Write with Ok x => x | Err _ => ∅ end.

Definition marked_once : gmap Z PersistentTableEntry :=
  match markEntries lines64 once 64 with Ok x => x | Err _ => ∅ end.

Lemma persistent_requests_witness :
  (∃ x', persistentRequestLock lines64 ∅ 64 m0 Write = Ok x' ∧
    (∀ a' m', in_entry m_starving x' a' m' ↔ a' = 64 ∧ m' = m0 ∨ in_entry m_starving ∅ a' m')) ∧
  markEntries lines64 marked_once 64 = Err AssertFailed.
Proof.
  assert (Hm : valid_machine m0) by (vm_compute; repeat split; congruence).
  destruct (persistent_requests lines64 ∅ 64 m0 Write) as (Hl & _);
    [apply map_Forall_empty|reflexivity|exact Hm|].
  destruct Hl as (x' & E & Hx' & Hs & Hk & _); [apply empty_table_unused|].
  assert (x' = once) as -> by (unfold once; rewrite E; reflexivity).
  split; [exists once; split; [exact E|exact Hs]|].
  destruct (persistent_requests lines64 once 64 m0 Write) as (_ & _ & _ & _ & Hmk & _);
    [exact Hx'|reflexivity|exact Hm|].
  destruct Hmk as (x2 & E2 & Hx2 & _ & Hk2).
  { intros m' H%Hk. by apply empty_table_unused in H. }
  assert (x2 = marked_once) as -> by (unfold marked_once; rewrite E2; reflexivity).
  destruct (persistent_requests lines64 marked_once 64 m0 Write) as (_ & _ & _ & _ & _ & Hf & _);
    [exact Hx2|reflexivity|exact Hm|].
  apply Hf. exists m0. apply Hk2. rewrite decide_True by reflexivity. apply Hs. by left.
Defined.

End PersistentExample.
